(* ===== verification/_CoqProject ===== *)
-Q . S2P
Prelude.v
RustStr.v
Lines.v
Float.v
PermTypes.v
Rule.v
Path.v
PathRule.v
Shell.v
RuleSet.v
RuleLint.v
Gate.v
Registry.v
Permission.v
PathSafety.v
Yolo.v
SettingsPatch.v
SettingsTiers.v
Cron.v
Policies.v
Mailbox.v
Lock.v
Conversation.v
Rounds.v
Compaction.v
Aging.v
Compactor.v
Recovery.v
Messages.v
Transcript.v
Store.v
Blob.v
Jsonl.v
Session.v
AutoCompact.v
Streaming.v
Tasks.v
Edit.v
FileTools.v
Net.v
ModelClient.v
ModelStream.v
Steering.v
TurnLoop.v
Frontmatter.v
Skills.v
McpPrompts.v
Commands.v
Directives.v
TurnInput.v
InputLoop.v
MemoryStore.v
Hooks.v
ToolExec.v
PluginGraph.v
Plugins.v
PluginStore.v
BashClassify.v
AgentTypes.v
Delegates.v
TeamMembers.v
Spawn.v
LlmClassifier.v
