(* ===== verification/Prelude.v ===== *)
(** * AttaCore: a verification development

    AttaCore is an agent engine in Rust: a session runs turns, a turn calls a
    model and runs the tools the model asks for, and every tool call first
    passes a permission system.  This library models the parts of the engine
    that decide - whether a call may run, what a conversation keeps when it
    grows too long, what of it is written and read back, how a reply becomes
    messages - and proves what they promise.  Paths below are relative to
    [src/crates].

    ** The permission system ([permissions/], [core/src/permission.rs])

    A call is judged by [RuleSetPermission::check] (Permission.v): the tool is
    looked up in the registry (Registry.v), a context is built from the
    session's live mode, and [PermissionGate::check] (Gate.v) combines the
    tool's own opinion, the rule engine, the immune paths, the mode and a
    classifier (Yolo.v is one).  The rule engine (RuleSet.v) matches a call's
    content verbatim, as a path (Path.v, PathRule.v) or as a shell line split
    into its simple commands (Shell.v).  Rules are parsed and printed in
    Rule.v, linted in RuleLint.v when a rule set is built, and recorded in a
    settings file by SettingsPatch.v.  PathSafety.v is the separate check of
    where a tool may write.

    - PermTypes.v: modes, rules, sources, decisions, settings entries, JSON
      values; the parameters for outside code: [Globset] (the glob crate) and
      [HostEnv] (canonicalization and the home variables).
    - Rule.v ([rule.rs]): parse and print round trip; conversion of tiers.
    - Path.v: [std::path] components, [push], [parent], [starts_with], and the
      lexical normalization of [path_rule.rs]; a normalized path is
      characterized by its components ([norm_comps]).
    - PathRule.v ([path_rule.rs]): a literal rule covers every spelling of
      every path below it.
    - Shell.v ([shell.rs]): the scanner ends, separators separate,
      substitutions are visited, quoting round trips; [hidden_rm_lines] are
      lines on which a command escapes the scanner.
    - RuleSet.v ([ruleset.rs]): the verdict is the strongest behaviour among
      the matching rules, for one content, for all spellings of a path, and
      for all commands of a shell line ([shell_verdict] is the specification
      [evaluate_shell] refines); deny rules added on top only deny, allow
      rules added on top never lift a refusal.
    - RuleLint.v ([shadow.rs], [dangerous.rs], [RuleSet::new]): a rule
      reported as shadowed never decides; dangerous rules are reported
      exactly.
    - Gate.v ([gate.rs]): [allow_spec] and [deny_spec] say when a call is
      allowed and denied; deny rules and credential directories hold in every
      mode; the denial counters; the explainer.
    - Registry.v ([core/src/interface/tool.rs]): the registry refines a list
      of registrations per name; disposers are exact.
    - Permission.v ([rule_set_permission.rs]): the top-level theorems
      [permit_iff] and [refuse_iff], the configured rules in force, and
      runtime grants.
    - PathSafety.v ([path_safety.rs]): exactly which writes pass
      ([writable]), and that they stay inside the roots.
    - Yolo.v ([yolo.rs]): the heuristic classifier, which never refuses.
    - LlmClassifier.v ([llm_classifier.rs]): a model as the classifier, with
      its cache; several calls at once, a verdict is what the model said.
    - SettingsPatch.v ([settings_patch.rs]): appending a rule keeps the rest
      of the file, and a remembered answer allows that call alone.
    - SettingsTiers.v ([settings.rs], [config_source.rs]): the layers of the
      settings and their merge; a denial outlives every further layer, the
      mode is what the last layer of well-formed objects says that can be
      read.

    ** Other deciders

    - Cron.v ([tools/src/cron/parser.rs]): an abstract syntax of cron fields
      whose printed form is valid and matches exactly the times it denotes.
    - Policies.v ([core/src/interface/turn_policy.rs], [recovery_policy.rs],
      [budget_policy.rs], [health.rs], and [handle_max_tokens_recovery] of
      [runtime/src/turn.rs]): limits compose, recovery is bounded, budgets are
      ceilings, a report is as bad as its worst check.

    ** Teams

    - Mailbox.v ([team/src/mailbox.rs], [polling.rs]): the mailbox store with
      its files refines one queue per label ([queue_run]), and a restart
      keeps the mail.
    - Lock.v ([core/src/process_identity.rs], [team/src/lock.rs]): when a lock
      file counts as stale; with each acquisition uninterrupted at most one
      process holds the lock; interleaved by system calls, two can.

    - TeamMembers.v ([team/src/registry.rs]; the pool in
      [runtime/src/agent_tool.rs]): persistent members as loops that share a
      map, in every interleaving of calls, sweeps and the loops' own steps
      ([step]); a name has one live loop, messages are handled in their
      order, a sweep spares who is busy and stops just as many of the others,
      the longest idle first, as there are too many members; and a message
      that is queued can be lost.

    ** Sub-agents ([runtime/src/agent_tool.rs])

    The Agent tool starts a session below the session.  What it may do comes
    from the type it is started as, a file or built in, and from its parent.

    - AgentTypes.v: type files, the catalog, what a type may change of the
      settings, scenes and the tools that are granted; only the types of an
      agents directory loosen anything.
    - Delegates.v ([ParentPermission], [PermissionBridge]): the permission
      handler of a sub-agent refines that of the session at the root with its
      user asked in its place; how answers are recorded; a coordinator's
      bridge; what the handler of a team's member or worker is.
    - Spawn.v ([call], [run_sub_tagged], [run_one_turn]): where a call goes,
      what a sub-agent is started with and what frames its transcript; a
      chain of delegations is as deep as the limit and never gains a tool.

    ** Skills and commands ([skills/], [core/src/frozen/], [mcp/src/prompts.rs])

    - Frontmatter.v ([frontmatter.rs], [skill.rs]): what is written in a skill
      file's header is what is read; arguments put into a body.
    - Skills.v ([manager.rs], [sources.rs], [watcher.rs]): the catalog and its
      sources over a disk ([Disk]); the nearest tier wins, and each reader of
      the change log reads every change once.
    - McpPrompts.v: the prompts of MCP servers as commands, and their
      arguments.
    - Commands.v ([runtime/src/commands.rs]): what can be typed after a slash;
      the listing and the dispatch agree.

    ** Inputs ([runtime/src/turn.rs], [agent.rs])

    - Directives.v: token targets in a prompt, read and removed.
    - TurnInput.v ([process_turn]): what each message does to the agent; local
      commands start no turn.
    - InputLoop.v ([Agent::run]): the task that reads the channel beside the
      loop that runs turns, in every interleaving: inputs are handled in
      their order, and a cancellation hits the turn that runs.

    ** Memory ([core/src/memory.rs], [memory_contracts.rs])

    - MemoryStore.v: memories in files of two directories ([Disk]); what is
      written is read, the indices match the files after any sequence of
      operations, what is written back stays in its directory; what a turn
      recalls and what is extracted after one.

    ** Plugins ([plugin/])

    - PluginGraph.v ([resolver.rs]): Kahn's algorithm over hash maps gives,
      for every order of their keys, a plan of just what can be installed
      ([Installable]); the fuel of [drain] is one turn for each plugin.
    - Plugins.v ([manifest.rs], [homograph.rs], [disclosure.rs]): manifests,
      lookalike names, and that everything a plugin says is shown.
    - PluginStore.v ([cache.rs], [fetch.rs], [cli.rs], [marketplace.rs]): what
      an installation does to the disk and what it refuses: what is unpacked
      is what the checksum was of, it is all below the directory of its
      version, and an uninstallation touches nothing else.

    ** Conversations and compaction ([core/src/interface/model.rs], [compaction/])

    A conversation is a list of messages whose results answer the calls of the
    message before ([well_paired]): a provider refuses anything else.  Before
    each request the loop asks its compactor to age, trim and compact it.

    - Conversation.v: messages, blocks, token counters and the memo cache of
      [token_estimate.rs]; pairing and the rewritings that preserve it.
    - Rounds.v ([grouping.rs]): grouping loses nothing and cuts only where a
      conversation may start.
    - Compaction.v ([compact.rs], [llm_summary.rs]): every strategy keeps
      pairing and the newest round; [compact_spec] says what each one keeps.
    - Aging.v ([time_based_mc.rs], [cached.rs], the result budget): what each
      pass clears; the count pass breaks pairing.
    - Compactor.v ([compact.rs], [reactive.rs], [cached.rs]): the interface
      [Compactor] with the engine's defaults; the predictive pass only helps;
      the class [PairingCompactor] is what the loop needs of a compactor.
    - Recovery.v ([compact.rs]): what is put in front of a compacted
      conversation, where it comes from and how large it can be.
    - AutoCompact.v ([runtime/src/turn.rs], [agent.rs]): the cycle before a
      request, proved against [PairingCompactor]; compacting what fits only
      adds to it, and the breaker never closes.

    ** History and sessions ([history/], [session/])

    - Messages.v, Transcript.v ([core/src/session.rs], [transcript.rs]): log
      entries and their projection to messages; projecting in one pass, with
      sources and by prefix agree.
    - Store.v ([store.rs]): the interface [HistoryStore], its contract, the
      in-memory and observed stores, and searching them.
    - Blob.v, Jsonl.v ([blob.rs], [jsonl.rs]): the store in files: what is
      appended is loaded, also after a restart, large blocks included; a line
      that a failing write cut short spoils the transcript.
    - Session.v ([session.rs]): against the contract, a resumed session is the
      one that was persisted; what failing writes do.

    ** Tools ([tools/src/])

    - Tasks.v ([tasks.rs], [todo_write.rs]): the task lists, one per session;
      ids are never reused, sessions do not see each other, what an update
      does and when a task may start; which todo lists are accepted.
    - Edit.v ([file_edit.rs]): the text of an edit; a text is what lies
      between the matches ([split_by]), and an edit replaces exactly those.
    - FileTools.v ([file_read.rs], [file_write.rs], [file_edit.rs],
      [path.rs]): Read, Write and Edit over a file system ([World]) and the
      record of what was read; an edit happens wholly or not at all, and only
      to a file whose time of change is the one that was read, which tells
      others' writes as well as their stamps do; where an allowed write lands,
      and the path for which the check and the write part.
    - BashClassify.v ([bash.rs]): which command lines run without asking and
      what that verdict rests on; lines that get it and should not.

    ** The turn ([runtime/src/turn.rs])

    A turn is a loop: compact, ask the model, read its reply while its tools
    run, decide whether to go on.

    - TurnLoop.v ([run_user_turn], [run_user_turn_inner] and what they call):
      a round is a program in a monad with early exits, over the agent and the
      counters of the turn ([Turn]); what the world does in the n-th round is
      the n-th [Outside].  Turns end under a policy that limits their calls,
      with no more requests and calls than it allows - the fuel is one more
      than that limit; with a compactor that keeps pairing, every request, as
      interceptors leave it, is one a provider takes; the outcome is what the
      steps add up to; what was sent meanwhile is said in the conversation or
      returned; and when errors come late, no recovery happens.
    - Steering.v ([steering.rs]): the queue of messages sent while a turn
      runs, under any interleaving of its calls.
    - AutoCompact.v, Streaming.v, Policies.v and Session.v are the pieces it
      is put together from, ModelStream.v the streams it reads.

    ** Model clients ([model/], [core/src/interface/backoff.rs])

    - ModelClient.v ([client.rs], [openai/mod.rs], [backoff.rs], [error.rs]):
      sending under a ladder of waits ends; the two clients agree on every
      response; the ladder's binary32 jitter is Float.v's.
    - ModelStream.v ([adapter.rs], [openai/stream.rs]): the streams of both
      protocols up to model events.  Over Chat Completions a body is read as
      what its chunks say ([body_says]), however they are cut and whatever
      breaks off; over Messages blocks that are open together do not mix; a
      stream ends once.

    ** A reply ([runtime/src/streaming.rs])

    - Streaming.v: the stream of a model becomes one message and one answer
      per call, whatever order the tools complete in; dangling calls are
      answered before a request.

    ** A tool call ([runtime/src/turn.rs])

    - Hooks.v ([hooks/]): settings, patterns, and the runner: hooks run side
      by side and their answers come in the order of registration; a hook
      marked to run once does.
    - ToolExec.v ([execute_tool_inner], [tool_middleware.rs],
      [tool_result.rs]): the dispatch of one call through hooks, permission,
      the question to the user, the tool and the transformers; a tool runs
      only with the input that was authorized, whatever wraps the call;
      silence does not let it run, and what can keep a call from coming back;
      what redaction guarantees.
    - Net.v ([exec/network.rs], [hooks/src/runner/ssrf.rs]): requests made
      for the model stay inside its policy along every redirect, credentials
      stay with their host; which address literals the hooks' guard stops.

    ** Conventions

    Strings are lists of Unicode scalar values (RustStr.v has the [str]
    methods, Lines.v lines and the order of strings). Asynchronous methods are
    plain functions: within one call the code never awaits while its state is
    half changed, and a lock is released before the call returns, so calls are
    atomic and their interleavings are sequences of operations. What the code
    awaits - models, tools, hooks, users, the disk - is taken to answer, with
    an error if need be. ToolExec.v and Delegates.v are the exception: there a
    call or a question may also never come back, which is what their theorems
    about questions are about. [Result] is
    [result] below; a slice out of range is the outcome [Panicked]. Machine
    integers are [Z] with their wrap-around or saturation written out where it
    can matter, [nat] where the code only counts. Loops over strings that are
    not structural take fuel: the length of the text for the shell scanner and
    for [replace] (every round consumes a character, and
    [simple_commands_total] shows more fuel changes nothing), the number of
    components for [ancestors].

    Binary64 and binary32 values, where a decision uses them, are those of
    [SpecFloat] (Float.v).  The counters of a turn are [Z] without a bound.

    Not modelled: everything that is mainly I/O or wiring (session set-up,
    request bodies, transports, telemetry, the daemon), third-party engines
    (globs, Unicode normalization, JSON text, tokenizers, WebAssembly,
    scripts), paths that are not valid Unicode, and, in the modelled parts,
    events, random prompt ids and log output other than rule warnings.

    Of the file tools: how links resolve is a parameter ([World]); images,
    notebooks and PDFs, the snapshots taken before a write and a call
    cancelled before it starts are left out.

    Of the sub-agents: the engine that is built for one, background runs,
    worktrees and resuming are wiring around the modelled parts.  Of the
    teams: the stages of a coordinator, which are asynchronous orchestration
    of spawned agents, and the lock under interleavings without a takeover.
    Of the plugins: archives, checksums and TOML are parameters, and the
    hosts that run them are third-party engines. *)

From stdpp Require Import base list option numbers sorting.

(** ** Automation shared by every file *)

Create HintDb atta.
Create Rewrite HintDb atta.

(** Split every conjunction and boolean connective in the context. *)
Ltac bool_simpl :=
  repeat match goal with
  | H : _ ∧ _ |- _ => destruct H
  | H : (_ && _)%bool = true |- _ => apply andb_true_iff in H
  | H : (_ || _)%bool = false |- _ => apply orb_false_iff in H
  | H : negb _ = true |- _ => apply negb_true_iff in H
  | H : negb _ = false |- _ => apply negb_false_iff in H
  | H : bool_decide _ = true |- _ => apply bool_decide_eq_true in H
  | H : bool_decide _ = false |- _ => apply bool_decide_eq_false in H
  end.

(** Case analysis on every [match]/[if] scrutinee of the goal, closing the
    branches that [done] can close. *)
Ltac case_all := repeat (case_match; simplify_eq/=; try done).

(** Prove a closed decidable proposition, or its negation, by evaluating its
    decision procedure. *)
Ltac by_compute :=
  lazymatch goal with
  | |- ¬ ?P => apply (bool_decide_eq_false_1 P); vm_compute; reflexivity
  | |- ?P → False => apply (bool_decide_eq_false_1 P); vm_compute; reflexivity
  | |- ?P => apply (bool_decide_eq_true_1 P); vm_compute; reflexivity
  end.

(** ** Machine integers

    Rust integers are [Z] with their range written out. *)

Definition u8_max : Z := 255.
Definition u32_max : Z := 2 ^ 32 - 1.
Definition u64_max : Z := 2 ^ 64 - 1.

(** [x as i32]: the low 32 bits read as two's complement. *)
Definition as_i32 (x : Z) : Z :=
  let r := (x `mod` 2 ^ 32)%Z in
  if decide (r < 2 ^ 31)%Z then r else (r - 2 ^ 32)%Z.

(** A 64-bit result as two's complement: [x as i64], and what [i64]
    arithmetic leaves where overflow is not checked (release builds). *)
Definition as_i64 (x : Z) : Z :=
  let r := (x `mod` 2 ^ 64)%Z in
  if decide (r < 2 ^ 63)%Z then r else (r - 2 ^ 64)%Z.

Definition in_i64 (x : Z) : Prop := (- 2 ^ 63 ≤ x < 2 ^ 63)%Z.

Lemma as_i64_id x : in_i64 x → as_i64 x = x.
Proof.
  unfold in_i64, as_i64. intros Hx.
  destruct (decide (0 ≤ x)%Z).
  - rewrite Z.mod_small by lia. destruct (decide _); lia.
  - replace (x `mod` 2 ^ 64)%Z with (x + 2 ^ 64)%Z
      by (apply (Z.mod_unique _ _ (-1)); lia).
    destruct (decide _); lia.
Qed.

Lemma as_i64_in x : in_i64 (as_i64 x).
Proof.
  unfold in_i64, as_i64. pose proof (Z.mod_pos_bound x (2 ^ 64) ltac:(lia)).
  destruct (decide _); lia.
Qed.

(** [u64::saturating_add], [saturating_sub]. *)
Definition sat_add_u64 (x y : Z) : Z := Z.min u64_max (x + y).
Definition sat_sub (x y : Z) : Z := Z.max 0 (x - y).

(** ** Generic list lemmas *)

(** The first element satisfying a boolean test: [Iterator::find]. *)
Fixpoint find_first {A} (p : A → bool) (l : list A) : option A :=
  match l with
  | [] => None
  | x :: l => if p x then Some x else find_first p l
  end.

Lemma find_first_Some {A} (p : A → bool) l x :
  find_first p l = Some x → x ∈ l ∧ p x = true.
Proof.
  induction l as [|y l IH]; [done|]. simpl. destruct (p y) eqn:E.
  - intros [= ->]. split; [left|done].
  - intros H. destruct (IH H). split; [by right|done].
Qed.

Lemma find_first_None {A} (p : A → bool) l :
  find_first p l = None ↔ ∀ x, x ∈ l → p x = false.
Proof.
  induction l as [|y l IH]; simpl.
  - split; [|done]. intros _ x Hx. by apply not_elem_of_nil in Hx.
  - destruct (p y) eqn:E.
    + split; [done|]. intros H. rewrite H in E; [done|left].
    + rewrite IH. split.
      * intros H x [->|Hx]%elem_of_cons; auto.
      * intros H x Hx. apply H. by right.
Qed.

Lemma find_first_is_Some {A} (p : A → bool) l :
  is_Some (find_first p l) ↔ ∃ x, x ∈ l ∧ p x = true.
Proof.
  split.
  - intros [x Hx]. exists x. by apply find_first_Some.
  - intros (x & Hx & Hp). destruct (find_first p l) eqn:E; [done|].
    rewrite find_first_None in E. rewrite E in Hp; done.
Qed.

Lemma existsb_elem_of {A} (p : A → bool) l :
  existsb p l = true ↔ ∃ x, x ∈ l ∧ p x = true.
Proof.
  rewrite existsb_exists. by setoid_rewrite <-list_elem_of_In.
Qed.

Lemma existsb_false_elem_of {A} (p : A → bool) l :
  existsb p l = false ↔ ∀ x, x ∈ l → p x = false.
Proof.
  rewrite <-not_true_iff_false, existsb_elem_of. split.
  - intros H x Hx. apply not_true_is_false. intros Hp. apply H. eauto.
  - intros H (x & Hx & Hp). rewrite H in Hp; done.
Qed.

Lemma forallb_elem_of {A} (p : A → bool) l :
  forallb p l = true ↔ ∀ x, x ∈ l → p x = true.
Proof.
  rewrite forallb_forall. by setoid_rewrite list_elem_of_In.
Qed.

(** Number the elements of a list from [0]: [iter().enumerate()]. *)
Definition enumerate {A} (l : list A) : list (nat * A) :=
  imap (λ i x, (i, x)) l.

Lemma elem_of_enumerate {A} (l : list A) i x :
  (i, x) ∈ enumerate l ↔ l !! i = Some x.
Proof.
  unfold enumerate. rewrite elem_of_lookup_imap. split.
  - intros (j & y & [= -> ->] & ?). done.
  - intros ?. eauto.
Qed.

(** Keeping some entries of a numbered list, each under its own number. *)
Lemma NoDup_omap_imap {A B} (f : nat * A → option B) (key : B → nat) (l : list A) :
  (∀ i x y, f (i, x) = Some y → key y = i) →
  NoDup (key <$> omap f (enumerate l)).
Proof.
  intros Hkey. unfold enumerate.
  assert (∀ n, NoDup (key <$> omap f (imap (λ i x, (n + i, x)) l)) ∧
               ∀ y, y ∈ omap f (imap (λ i x, (n + i, x)) l) → n ≤ key y) as H;
    [|apply (H 0)].
  induction l as [|x l IH]; intros n; [split; [constructor|by intros ? ?%not_elem_of_nil]|].
  cbn [imap omap list_omap].
  rewrite (imap_ext _ (λ i x, (S n + i, x))) by (intros; f_equal/=; lia).
  destruct (IH (S n)) as [Hnd Hge].
  destruct (f (n + 0, x)) as [y|] eqn:E.
  - apply Hkey in E as Ek. split.
    + cbn. constructor; [|done].
      intros (z & Hz & Hin%Hge)%list_elem_of_fmap. lia.
    + intros z [->|Hz%Hge]%elem_of_cons; lia.
  - split; [done|]. intros z Hz%Hge. lia.
Qed.

(** [find_map]: the first result there is. *)
Fixpoint find_map {A B} (f : A → option B) (l : list A) : option B :=
  match l with
  | [] => None
  | x :: l => match f x with Some y => Some y | None => find_map f l end
  end.

Lemma find_map_None {A B} (f : A → option B) l :
  find_map f l = None ↔ ∀ x, x ∈ l → f x = None.
Proof.
  induction l as [|x l IH]; cbn.
  - split; [by intros _ ? ?%not_elem_of_nil|done].
  - setoid_rewrite elem_of_cons. destruct (f x) as [y|] eqn:E.
    + split; [done|]. intros H. rewrite H in E; [done|by left].
    + rewrite IH. split; [intros H z [->|?]; auto|eauto].
Qed.

Lemma find_map_Some {A B} (f : A → option B) l y :
  find_map f l = Some y → ∃ x, x ∈ l ∧ f x = Some y.
Proof.
  induction l as [|x l IH]; cbn; [done|]. destruct (f x) as [z|] eqn:E.
  - intros [= ->]. exists x. split; [left|done].
  - intros (x' & ? & ?)%IH. exists x'. split; [by right|done].
Qed.

(** Numbered elements in the order of their numbers: [sort_by_key(|(i, _)| *i)]. *)
Definition by_fst {A} (a b : nat * A) : Prop := a.1 ≤ b.1.

#[export] Instance by_fst_dec {A} (a b : nat * A) : Decision (by_fst a b).
Proof. unfold by_fst. apply _. Defined.

#[export] Instance by_fst_total {A} : Total (@by_fst A).
Proof. intros a b. unfold by_fst. lia. Qed.

#[export] Instance by_fst_trans {A} : Transitive (@by_fst A).
Proof. intros a b c. unfold by_fst. lia. Qed.

(** Sorted by distinct numbers, a list does not show the order it had. *)
Lemma by_fst_unique {A} (l l' : list (nat * A)) :
  NoDup l.*1 → l' ≡ₚ l → StronglySorted by_fst l → StronglySorted by_fst l' → l' = l.
Proof.
  intros Hnd Hperm Hl Hl'. apply (StronglySorted_unique_strong by_fst); [|done..].
  intros [i b] [j c] Hx Hy Hij Hji. unfold by_fst in *. cbn in *.
  assert (i = j) as -> by lia. f_equal. rewrite Hperm in Hx.
  apply list_elem_of_lookup in Hx as [p Hp], Hy as [q Hq].
  assert (p = q) as ->; [|congruence].
  eapply NoDup_lookup; [exact Hnd| |]; rewrite list_lookup_fmap; [by rewrite Hp|by rewrite Hq].
Qed.

Lemma sorted_unique {A} (rs rs' : list (nat * A)) :
  NoDup rs.*1 → rs' ≡ₚ rs → merge_sort by_fst rs' = merge_sort by_fst rs.
Proof.
  intros Hnd Hperm. apply by_fst_unique; try apply (StronglySorted_merge_sort by_fst).
  - by rewrite merge_sort_Permutation.
  - by rewrite !merge_sort_Permutation.
Qed.

Lemma sorted_already {A} (l l' : list (nat * A)) :
  StronglySorted by_fst l → NoDup l.*1 → l' ≡ₚ l → merge_sort by_fst l' = l.
Proof.
  intros Hs Hnd Hperm. apply by_fst_unique; [done| |done|apply (StronglySorted_merge_sort by_fst)].
  by rewrite merge_sort_Permutation.
Qed.

(** An enumerated list. *)
Lemma enumerate_snd {A} (l : list A) : (enumerate l).*2 = l.
Proof.
  apply list_eq. intros i. unfold enumerate. rewrite list_lookup_fmap, list_lookup_imap.
  by destruct (l !! i).
Qed.

Lemma enumerate_fst {A} (l : list A) : (enumerate l).*1 = seq 0 (length l).
Proof.
  unfold enumerate. apply list_eq. intros i. rewrite list_lookup_fmap, list_lookup_imap.
  destruct (l !! i) as [x|] eqn:E; cbn.
  - rewrite lookup_seq_lt by (by eapply lookup_lt_Some). done.
  - rewrite lookup_seq_ge by (by apply lookup_ge_None). done.
Qed.

Lemma enumerate_sorted {A} (l : list A) : StronglySorted by_fst (enumerate l).
Proof.
  assert (H : ∀ k, StronglySorted by_fst (imap (λ i x, (k + i, x)) l) ∧
    Forall (λ x, k ≤ x.1) (imap (λ i x, (k + i, x)) l)).
  { induction l as [|x l IH]; intros k; cbn; [by split; constructor|].
    rewrite (imap_ext _ (λ i x, (S k + i, x))) by (intros; f_equal/=; lia).
    destruct (IH (S k)) as [Hs Hf]. split.
    - constructor; [done|]. eapply Forall_impl; [exact Hf|]. unfold by_fst. cbn. lia.
    - constructor; [cbn; lia|]. eapply Forall_impl; [exact Hf|]. cbn. lia. }
  apply (H 0).
Qed.

(** Filtering. *)
Lemma list_filter_all {A} (P : A → Prop) `{∀ x, Decision (P x)} (l : list A) :
  Forall P l → filter P l = l.
Proof. induction 1 as [|x l Hx _ IH]; [done|]. by rewrite filter_cons_True, IH. Qed.

Lemma filter_filter_comm {A} (P Q : A → Prop) `{∀ x, Decision (P x), ∀ x, Decision (Q x)}
    (l : list A) : filter P (filter Q l) = filter Q (filter P l).
Proof.
  induction l as [|x l IH]; [done|].
  rewrite (filter_cons Q), (filter_cons P).
  destruct (decide (Q x)), (decide (P x));
    rewrite ?(filter_cons P), ?(filter_cons Q), ?decide_True, ?decide_False by done;
    by rewrite ?IH.
Qed.

(** ** Fallible code: [Result<T, E>] *)

Inductive result (T E : Type) : Type :=
| Ok (x : T)
| Err (e : E).
Arguments Ok {T E} _.
Arguments Err {T E} _.

(** [e?]: return the error, or go on with the value. *)
Definition result_bind {T U E} (m : result T E) (f : T → result U E) : result U E :=
  match m with Ok x => f x | Err e => Err e end.

Declare Scope result_scope.
Delimit Scope result_scope with result.
Notation "x ←? m ; k" := (result_bind m (λ x, k))
  (at level 100, m at next level, right associativity) : result_scope.

Definition is_ok {T E} (m : result T E) : bool :=
  match m with Ok _ => true | Err _ => false end.

(** [result.ok()]. *)
Definition result_ok {T E} (m : result T E) : option T :=
  match m with Ok x => Some x | Err _ => None end.

Lemma result_bind_Ok {T U E} (m : result T E) (f : T → result U E) y :
  result_bind m f = Ok y ↔ ∃ x, m = Ok x ∧ f x = Ok y.
Proof.
  destruct m as [x|e]; simpl; [|split; [done|by intros (? & ? & _)]].
  split; [eauto|]. by intros (? & [= ->] & ?).
Qed.
