(* ===== verification/RustStr.v ===== *)
(** * Rust strings

    A [str] is the list of its characters, a character its Unicode scalar
    value.  The operations below are the [str] and [char] methods of the
    standard library the modelled code uses; [len] is the length in UTF-8
    bytes, as in Rust. *)

From Stdlib Require Import Ascii String.
From stdpp Require Import base option numbers strings countable list.
From S2P Require Import Prelude.

Definition char := N.
Definition str := list char.

#[export] Instance char_eq_dec : EqDecision char := N.eq_dec.
#[export] Instance str_eq_dec : EqDecision str := _.
#[export] Instance char_countable : Countable char := _.
#[export] Instance str_countable : Countable str := _.

(** ** Literals

    A Rocq string literal is the UTF-8 bytes of its text; [lit] decodes
    them, so that a literal of the source is written as it is there. *)

Definition cont (a : ascii) : N := N.land (N_of_ascii a) 63.

Fixpoint lit (s : string) : str :=
  match s with
  | EmptyString => []
  | String a s1 =>
      let n := N_of_ascii a in
      if (n <? 128)%N then n :: lit s1 else
      match s1 with
      | EmptyString => [n]
      | String b s2 =>
          if (n <? 224)%N then (N.lor (N.shiftl (N.land n 31) 6) (cont b)) :: lit s2 else
          match s2 with
          | EmptyString => [n]
          | String c s3 =>
              if (n <? 240)%N then
                (N.lor (N.shiftl (N.land n 15) 12) (N.lor (N.shiftl (cont b) 6) (cont c))) :: lit s3
              else
              match s3 with
              | EmptyString => [n]
              | String d s4 =>
                  (N.lor (N.shiftl (N.land n 7) 18)
                     (N.lor (N.shiftl (cont b) 12) (N.lor (N.shiftl (cont c) 6) (cont d)))) :: lit s4
              end
          end
      end
  end.

Coercion lit : string >-> str.

(** A one-character literal. *)
Definition ch (s : string) : char := default 0%N (head (lit s)).

Declare Scope str_scope.
Delimit Scope str_scope with str.
Bind Scope str_scope with str.
Open Scope str_scope.

(** ** Character classes *)

(** [char::is_whitespace]: the Unicode [White_Space] property. *)
Definition is_whitespace (c : char) : bool :=
  bool_decide (9 ≤ c ≤ 13)%N || bool_decide (c = 32)%N || bool_decide (c = 133)%N ||
  bool_decide (c = 160)%N || bool_decide (c = 5760)%N || bool_decide (8192 ≤ c ≤ 8202)%N ||
  bool_decide (c = 8232)%N || bool_decide (c = 8233)%N || bool_decide (c = 8239)%N ||
  bool_decide (c = 8287)%N || bool_decide (c = 12288)%N.

(** [u8::is_ascii_whitespace]: no vertical tab. *)
Definition is_ascii_whitespace (c : char) : bool :=
  bool_decide (c = 9)%N || bool_decide (c = 10)%N || bool_decide (c = 12)%N ||
  bool_decide (c = 13)%N || bool_decide (c = 32)%N.

Definition is_ascii_uppercase (c : char) : bool := bool_decide (65 ≤ c ≤ 90)%N.
Definition is_ascii_lowercase (c : char) : bool := bool_decide (97 ≤ c ≤ 122)%N.
Definition is_ascii_alphabetic (c : char) : bool :=
  is_ascii_uppercase c || is_ascii_lowercase c.
Definition is_ascii_digit (c : char) : bool := bool_decide (48 ≤ c ≤ 57)%N.
Definition is_ascii_alphanumeric (c : char) : bool :=
  is_ascii_alphabetic c || is_ascii_digit c.

(** ** Length in bytes *)

Definition len_utf8 (c : char) : nat :=
  if (c <? 128)%N then 1 else if (c <? 2048)%N then 2
  else if (c <? 65536)%N then 3 else 4.

Definition len (s : str) : nat := foldr (λ c n, len_utf8 c + n) 0 s.

(** ** Prefixes, suffixes, searching *)

Fixpoint strip_prefix (p s : str) : option str :=
  match p, s with
  | [], _ => Some s
  | a :: p, b :: s => if decide (a = b) then strip_prefix p s else None
  | _ :: _, [] => None
  end.

Definition starts_with (p s : str) : bool := bool_decide (is_Some (strip_prefix p s)).

Definition strip_suffix (p s : str) : option str :=
  reverse <$> strip_prefix (reverse p) (reverse s).

Definition ends_with (p s : str) : bool := bool_decide (is_Some (strip_suffix p s)).

(** [str::find(char)], as the text before the first occurrence and the text
    after it: [split_once]. *)
Fixpoint split_once (c : char) (s : str) : option (str * str) :=
  match s with
  | [] => None
  | b :: s =>
      if decide (b = c) then Some ([], s)
      else match split_once c s with
           | Some (l, r) => Some (b :: l, r)
           | None => None
           end
  end.

Definition contains_char (c : char) (s : str) : bool := bool_decide (c ∈ s).

(** [str::split(char)]: one piece more than there are separators. *)
Fixpoint split (c : char) (s : str) : list str :=
  match s with
  | [] => [[]]
  | b :: s =>
      if decide (b = c) then [] :: split c s
      else match split c s with
           | p :: ps => (b :: p) :: ps
           | [] => [[b]]
           end
  end.

(** [str::find(&str)]: the characters before the first occurrence. *)
Fixpoint find_sub (p s : str) : option str :=
  if starts_with p s then Some []
  else match s with
       | [] => None
       | b :: s => cons b <$> find_sub p s
       end.

(** [split_once(&str)], at the first occurrence. *)
Definition split_once_str (p s : str) : option (str * str) :=
  match find_sub p s with
  | Some l => Some (l, drop (length l + length p) s)
  | None => None
  end.

Definition contains (p s : str) : bool := bool_decide (is_Some (find_sub p s)).

(** ** Trimming *)

Fixpoint drop_while (p : char → bool) (s : str) : str :=
  match s with
  | [] => []
  | c :: s' => if p c then drop_while p s' else s
  end.

Definition trim_start (s : str) : str := drop_while is_whitespace s.
Definition trim_end (s : str) : str := reverse (drop_while is_whitespace (reverse s)).
Definition trim (s : str) : str := trim_end (trim_start s).

(** [trim_start_matches([..])]. *)
Definition trim_start_matches (cs : list char) (s : str) : str :=
  drop_while (λ c, bool_decide (c ∈ cs)) s.

(** [trim_end_matches([..])], and with a text, which is cut off as often as
    it ends the rest; the text is not empty. *)
Definition trim_end_matches (cs : list char) (s : str) : str :=
  reverse (trim_start_matches cs (reverse s)).

Fixpoint trim_end_str_fuel (n : nat) (p s : str) : str :=
  match n with
  | O => s
  | S n => match strip_suffix p s with Some r => trim_end_str_fuel n p r | None => s end
  end.

Definition trim_end_str (p s : str) : str := trim_end_str_fuel (length s) p s.

(** ** Case mapping

    [str::to_lowercase] / [str::to_uppercase] as far as an ASCII pattern can
    tell: ASCII letters are mapped, and so are the few other characters
    whose image holds an ASCII character.  Every remaining character has an
    image without ASCII characters and is left alone. *)
Definition char_to_lowercase (c : char) : str :=
  if is_ascii_uppercase c then [(c + 32)%N]
  else if decide (c = 304)%N then [105%N; 775%N]   (* I with dot above *)
  else if decide (c = 8490)%N then [107%N]         (* Kelvin sign *)
  else [c].

Definition to_lowercase (s : str) : str := s ≫= char_to_lowercase.

(** [eq_ignore_ascii_case]. *)
Definition ascii_lower (s : str) : str :=
  (λ c, if is_ascii_uppercase c then (c + 32)%N else c) <$> s.

Definition eq_ignore_ascii_case (a b : str) : bool := bool_decide (ascii_lower a = ascii_lower b).

Definition is_ascii_lower_letter (c : char) : bool := bool_decide (97 ≤ c ≤ 122)%N.

(** The characters outside ASCII whose upper case holds an ASCII letter. *)
Definition special_uppercase : list (char * str) :=
  [(223, [83; 83]); (305, [73]); (329, [700; 78]); (383, [83]); (496, [74; 780]);
   (7830, [72; 817]); (7831, [84; 776]); (7832, [87; 778]); (7833, [89; 778]);
   (7834, [65; 702]); (64256, [70; 70]); (64257, [70; 73]); (64258, [70; 76]);
   (64259, [70; 70; 73]); (64260, [70; 70; 76]); (64261, [83; 84]); (64262, [83; 84])]%N.

Definition char_to_uppercase (c : char) : str :=
  if is_ascii_lower_letter c then [(c - 32)%N]
  else match find_first (λ '(d, _), bool_decide (d = c)) special_uppercase with
       | Some (_, u) => u
       | None => [c]
       end.

Definition to_uppercase (s : str) : str := s ≫= char_to_uppercase.

(** [str::replace]: non-overlapping occurrences, from the left; the pattern
    is not empty.  One unit of fuel per character is enough. *)
Fixpoint replace_fuel (n : nat) (p to s : str) : str :=
  match n with
  | O => s
  | S n =>
      match s with
      | [] => []
      | c :: s' =>
          match strip_prefix p s with
          | Some rest => to ++ replace_fuel n p to rest
          | None => c :: replace_fuel n p to s'
          end
      end
  end.

Definition replace (p to s : str) : str := replace_fuel (length s) p to s.

(** [split_whitespace]: the maximal runs of other characters. *)
Fixpoint split_pred (f : char → bool) (s : str) : list str :=
  match s with
  | [] => [[]]
  | b :: s =>
      if f b then [] :: split_pred f s
      else match split_pred f s with
           | p :: ps => (b :: p) :: ps
           | [] => [[b]]
           end
  end.

Definition split_whitespace (s : str) : list str :=
  filter (λ p, p ≠ []) (split_pred is_whitespace s).

(** [parse::<u8>]: an optional plus sign, decimal digits, no overflow. *)
Fixpoint digits_value (acc : nat) (s : str) : option nat :=
  match s with
  | [] => Some acc
  | c :: s =>
      if is_ascii_digit c
      then let v := acc * 10 + N.to_nat (c - 48) in
           if decide (255 < v) then None else digits_value v s
      else None
  end.

Definition parse_u8 (s : str) : option nat :=
  let s := match strip_prefix "+" s with Some r => r | None => s end in
  match s with [] => None | _ => digits_value 0 s end.

(** [parse::<usize>] and [parse::<u64>]. *)
Fixpoint parse_digits (acc : N) (s : str) : option N :=
  match s with
  | [] => Some acc
  | c :: s =>
      if is_ascii_digit c then
        let v := (acc * 10 + (c - 48))%N in
        if decide (2 ^ 64 ≤ v)%N then None else parse_digits v s
      else None
  end.

Definition parse_usize (s : str) : option N :=
  let s := match strip_prefix "+" s with Some r => r | None => s end in
  match s with [] => None | _ => parse_digits 0 s end.

(** [join]: the pieces with a separator between them. *)
Fixpoint join (sep : str) (ps : list str) : str :=
  match ps with
  | [] => []
  | [p] => p
  | p :: ps => p ++ sep ++ join sep ps
  end.

Lemma join_cons2 sep p q ps : join sep (p :: q :: ps) = p ++ sep ++ join sep (q :: ps).
Proof. reflexivity. Qed.

(** ** Lemmas: prefixes and suffixes *)

Lemma strip_prefix_Some p s r : strip_prefix p s = Some r ↔ s = p ++ r.
Proof.
  revert s. induction p as [|a p IH]; intros s; simpl.
  - split; congruence.
  - destruct s as [|b s]; [split; done|]. case_decide as E.
    + subst. rewrite IH. split; congruence.
    + split; [done|congruence].
Qed.

Lemma strip_prefix_app p r : strip_prefix p (p ++ r) = Some r.
Proof. by apply strip_prefix_Some. Qed.

Lemma starts_with_spec p s : starts_with p s = true ↔ ∃ r, s = p ++ r.
Proof.
  unfold starts_with. rewrite bool_decide_eq_true. split.
  - intros [r Hr]. exists r. by apply strip_prefix_Some.
  - intros [r ->]. exists r. apply strip_prefix_app.
Qed.

Lemma starts_with_app p r : starts_with p (p ++ r) = true.
Proof. apply starts_with_spec. eauto. Qed.

Lemma strip_suffix_Some p s r : strip_suffix p s = Some r ↔ s = r ++ p.
Proof.
  unfold strip_suffix. rewrite fmap_Some. split.
  - intros (x & Hx & ->). apply strip_prefix_Some in Hx.
    rewrite <-(reverse_involutive s), Hx, reverse_app, reverse_involutive. done.
  - intros ->. exists (reverse r). rewrite reverse_app, reverse_involutive.
    split; [apply strip_prefix_app|done].
Qed.

Lemma ends_with_spec p s : ends_with p s = true ↔ ∃ r, s = r ++ p.
Proof.
  unfold ends_with. rewrite bool_decide_eq_true. split.
  - intros [r Hr]. exists r. by apply strip_suffix_Some.
  - intros [r ->]. exists r. by apply strip_suffix_Some.
Qed.

Lemma ends_with_app p r : ends_with p (r ++ p) = true.
Proof. apply ends_with_spec. eauto. Qed.

(** ** Lemmas: searching and splitting *)

Lemma split_once_Some c s l r :
  split_once c s = Some (l, r) ↔ s = l ++ c :: r ∧ c ∉ l.
Proof.
  revert l r. induction s as [|b s IH]; intros l r; simpl.
  - split; [done|]. intros [H _]. by destruct l.
  - case_decide as E.
    + subst. split.
      * intros [= <- <-]. split; [done|apply not_elem_of_nil].
      * intros [H Hn]. destruct l as [|x l]; simplify_eq/=; [done|].
        destruct Hn. left.
    + destruct (split_once c s) as [[l' r']|] eqn:E'; split.
      * intros [= <- <-]. destruct (proj1 (IH l' r') eq_refl) as [-> Hn].
        split; [done|]. by rewrite not_elem_of_cons.
      * intros [H Hl]. destruct l as [|x l]; simplify_eq/=.
        apply not_elem_of_cons in Hl as [_ Hl].
        assert (Some (l', r') = Some (l, r)) as [= -> ->]; [by apply IH|done].
      * done.
      * intros [H Hl]. destruct l as [|x l]; simplify_eq/=.
        apply not_elem_of_cons in Hl as [_ Hl].
        assert (None = Some (l, r)); [by apply IH|done].
Qed.

Lemma split_once_None c s : split_once c s = None ↔ c ∉ s.
Proof.
  induction s as [|b s IH]; simpl.
  - split; [intros _; apply not_elem_of_nil|done].
  - rewrite not_elem_of_cons. case_decide as E.
    + split; [done|]. intros [? _]. congruence.
    + destruct (split_once c s) as [[l r]|].
      * split; [done|]. intros [_ H]. apply IH in H. done.
      * split; [|done]. intros _. split; [congruence|by apply IH].
Qed.

Lemma find_sub_Some_app p s l : find_sub p s = Some l → ∃ r, s = l ++ p ++ r.
Proof.
  revert l. induction s as [|b s IH]; intros l; simpl.
  - destruct (starts_with p []) eqn:E; [|done]. intros [= <-].
    by apply starts_with_spec in E.
  - destruct (starts_with p (b :: s)) eqn:E.
    + intros [= <-]. by apply starts_with_spec in E.
    + intros (l' & Hl & ->)%fmap_Some. destruct (IH _ Hl) as [r ->].
      by exists r.
Qed.

Lemma find_sub_drop p s l : find_sub p s = Some l → s = l ++ p ++ drop (length l + length p) s.
Proof.
  intros H. destruct (find_sub_Some_app _ _ _ H) as [r ->].
  do 2 f_equal. by rewrite app_assoc, drop_app_length' by (rewrite length_app; lia).
Qed.

Lemma contains_spec p s : contains p s = true ↔ ∃ l r, s = l ++ p ++ r.
Proof.
  unfold contains. rewrite bool_decide_eq_true. split.
  - intros [l Hl]. exists l. by apply find_sub_Some_app.
  - intros (l & r & ->). induction l as [|b l IH]; simpl.
    + destruct (p ++ r) eqn:E; simpl; rewrite <-E, starts_with_app; done.
    + destruct (starts_with p _); [done|]. destruct IH as [x Hx].
      rewrite Hx. done.
Qed.

Lemma split_not_nil c s : split c s ≠ [].
Proof.
  destruct s as [|b s]; simpl; [done|]. case_decide; [done|].
  by destruct (split c s).
Qed.

Lemma split_no_sep c s : c ∉ s → split c s = [s].
Proof.
  induction s as [|b s IH]; [done|]. simpl.
  rewrite not_elem_of_cons. intros [? ?]. rewrite decide_False by congruence.
  rewrite IH by done. done.
Qed.

Lemma split_app c l r : c ∉ l → split c (l ++ c :: r) = l :: split c r.
Proof.
  induction l as [|b l IH]; simpl.
  - intros _. by rewrite decide_True.
  - rewrite not_elem_of_cons. intros [? ?]. rewrite decide_False by congruence.
    by rewrite IH.
Qed.

Lemma split_elem_no_sep c s p : p ∈ split c s → c ∉ p.
Proof.
  revert p. induction s as [|b s IH]; simpl; intros p.
  - intros ->%list_elem_of_singleton. apply not_elem_of_nil.
  - case_decide as E.
    + intros [->|Hp]%elem_of_cons; [apply not_elem_of_nil|eauto].
    + destruct (split c s) as [|q qs] eqn:Eq.
      * intros ->%list_elem_of_singleton.
        rewrite list_elem_of_singleton. congruence.
      * intros [->|Hp]%elem_of_cons.
        -- rewrite not_elem_of_cons. split; [congruence|]. apply IH. left.
        -- apply IH. by right.
Qed.

Lemma split_join c s : join [c] (split c s) = s.
Proof.
  induction s as [|b s IH]; [done|]. simpl. case_decide as E.
  - subst. destruct (split c s) as [|q qs] eqn:Eq.
    + by apply split_not_nil in Eq.
    + simpl in *. by rewrite IH.
  - destruct (split c s) as [|q qs] eqn:Eq.
    + by apply split_not_nil in Eq.
    + destruct qs; simpl in *; by rewrite <-IH.
Qed.

(** ** Lemmas: trimming *)

Definition clean_start (s : str) : Prop :=
  ∀ c, head s = Some c → is_whitespace c = false.
Definition clean_end (s : str) : Prop :=
  ∀ c, last s = Some c → is_whitespace c = false.

(** No white space at either end: what [trim] returns. *)
Definition trimmed (s : str) : Prop := clean_start s ∧ clean_end s.

Definition head_ok (o : option char) : bool :=
  match o with Some c => negb (is_whitespace c) | None => true end.

Lemma head_ok_spec o : head_ok o = true ↔ ∀ c, o = Some c → is_whitespace c = false.
Proof. destruct o as [c|]; simpl; [rewrite negb_true_iff|]; naive_solver. Qed.

#[export] Instance trimmed_dec s : Decision (trimmed s).
Proof.
  refine (cast_if (decide (head_ok (head s) = true ∧ head_ok (last s) = true)));
  unfold trimmed, clean_start, clean_end; rewrite <-!head_ok_spec; done.
Defined.

Lemma drop_while_clean p s c : head (drop_while p s) = Some c → p c = false.
Proof.
  induction s as [|b s IH]; simpl; [done|]. destruct (p b) eqn:E; [done|].
  simpl. congruence.
Qed.

Lemma drop_while_id p s : (∀ c, head s = Some c → p c = false) → drop_while p s = s.
Proof. destruct s as [|b s]; simpl; [done|]. intros H. by rewrite H. Qed.

Lemma drop_while_suffix p s : ∃ l, s = l ++ drop_while p s ∧ Forall (λ c, p c = true) l.
Proof.
  induction s as [|b s (l & IH & Hl)]; simpl.
  - by exists [].
  - destruct (p b) eqn:E.
    + exists (b :: l). split; [simpl; congruence|by constructor].
    + by exists [].
Qed.

Lemma head_reverse {A} (l : list A) : head (reverse l) = last l.
Proof.
  induction l as [|x l _] using rev_ind; [done|].
  by rewrite reverse_app, last_app.
Qed.

Lemma last_reverse {A} (l : list A) : last (reverse l) = head l.
Proof. by rewrite <-(head_reverse (reverse l)), reverse_involutive. Qed.

Lemma trim_start_clean s : clean_start (trim_start s).
Proof. intros c. apply drop_while_clean. Qed.

Lemma trim_end_clean s : clean_end (trim_end s).
Proof. intros c. unfold trim_end. rewrite last_reverse. apply drop_while_clean. Qed.

Lemma trim_start_id s : clean_start s → trim_start s = s.
Proof. apply drop_while_id. Qed.

Lemma trim_end_id s : clean_end s → trim_end s = s.
Proof.
  intros H. unfold trim_end. rewrite drop_while_id, reverse_involutive; [done|].
  intros c. rewrite head_reverse. apply H.
Qed.

Lemma trim_end_prefix s : ∃ l, s = trim_end s ++ l ∧ Forall (λ c, is_whitespace c = true) l.
Proof.
  destruct (drop_while_suffix is_whitespace (reverse s)) as (l & E & Hl).
  exists (reverse l). split.
  - unfold trim_end. rewrite <-reverse_app, <-E. by rewrite reverse_involutive.
  - by apply Forall_reverse.
Qed.

Lemma trim_end_keeps_start s : clean_start s → clean_start (trim_end s).
Proof.
  intros H c Hc. destruct (trim_end_prefix s) as (l & E & _).
  apply H. rewrite E. destruct (trim_end s); done.
Qed.

Lemma trim_trimmed s : trimmed (trim s).
Proof.
  split; [|apply trim_end_clean]. apply trim_end_keeps_start, trim_start_clean.
Qed.

Lemma trim_id s : trimmed s → trim s = s.
Proof. intros [H1 H2]. unfold trim. by rewrite trim_start_id, trim_end_id. Qed.

Lemma drop_while_app p l s : Forall (λ c, p c = true) l → drop_while p (l ++ s) = drop_while p s.
Proof. induction 1 as [|c l Hc _ IH]; simpl; [done|]. by rewrite Hc. Qed.

Lemma trim_surrounded l s r :
  Forall (λ c, is_whitespace c = true) l → Forall (λ c, is_whitespace c = true) r →
  s ≠ [] → Forall (λ c, is_whitespace c = false) s → trim (l ++ s ++ r) = s.
Proof.
  intros Hl Hr Hne Hs. unfold trim, trim_start, trim_end.
  rewrite drop_while_app by done.
  rewrite (drop_while_id _ (s ++ r)).
  - rewrite reverse_app, drop_while_app by (by apply Forall_reverse).
    rewrite drop_while_id; [by rewrite reverse_involutive|].
    intros c Hc. rewrite head_reverse in Hc. apply last_Some in Hc as [s' ->].
    apply Forall_app in Hs as [_ Hs]. by inversion Hs.
  - intros c Hc. destruct s; [done|]. simplify_eq/=. by inversion Hs.
Qed.

Lemma trim_idemp s : trim (trim s) = trim s.
Proof. apply trim_id, trim_trimmed. Qed.

#[export] Hint Resolve trim_trimmed trim_start_clean trim_end_clean : atta.
#[export] Hint Rewrite strip_prefix_app starts_with_app ends_with_app trim_idemp : atta.

(** ** Lemmas: lower-casing *)

Lemma to_lowercase_app s t : to_lowercase (s ++ t) = to_lowercase s ++ to_lowercase t.
Proof. apply bind_app. Qed.

Lemma char_to_lowercase_chars c x :
  x ∈ char_to_lowercase c → x = c ∨ (97 ≤ x)%N.
Proof.
  unfold char_to_lowercase, is_ascii_uppercase. repeat case_match; bool_simpl;
    rewrite ?elem_of_cons, ?elem_of_nil; intros; intuition (subst; auto; lia).
Qed.

(** Lower-casing commutes with splitting at a character below the letters. *)
Lemma split_to_lowercase c s : (c < 65)%N →
  split c (to_lowercase s) = to_lowercase <$> split c s.
Proof.
  intros Hc. induction s as [|b s IH]; [done|].
  change (to_lowercase (b :: s)) with (char_to_lowercase b ++ to_lowercase s).
  cbn [split]. case_decide as E.
  - subst b. assert (char_to_lowercase c = [c]) as ->.
    { unfold char_to_lowercase, is_ascii_uppercase.
      rewrite bool_decide_eq_false_2 by lia. by rewrite !decide_False by lia. }
    cbn [app split]. rewrite decide_True by done. by rewrite IH.
  - assert (∀ p ps, split c s = p :: ps →
      split c (char_to_lowercase b ++ to_lowercase s) =
      (char_to_lowercase b ++ to_lowercase p) :: (to_lowercase <$> ps)) as H.
    { intros p ps Ep. rewrite Ep in IH. cbn in IH.
      assert (∀ u, c ∉ u → split c (u ++ to_lowercase s) =
        (u ++ to_lowercase p) :: (to_lowercase <$> ps)) as Hu.
      { induction u as [|x u IHu]; [done|]. rewrite not_elem_of_cons. intros [Hx Hn].
        cbn [app split]. rewrite decide_False by congruence. by rewrite IHu. }
      apply Hu. intros [?|?]%char_to_lowercase_chars; [congruence|lia]. }
    destruct (split c s) as [|p ps] eqn:Ep; [by apply split_not_nil in Ep|].
    by rewrite (H p ps).
Qed.

Lemma elem_of_to_lowercase c s : (c < 65)%N → c ∈ s → c ∈ to_lowercase s.
Proof.
  intros Hc Hs. apply list_elem_of_bind. exists c. split; [|done].
  unfold char_to_lowercase, is_ascii_uppercase.
  rewrite bool_decide_eq_false_2 by lia. rewrite !decide_False by lia. left.
Qed.

(** ** Lemmas: words *)

Lemma split_pred_chars f s p : p ∈ split_pred f s → Forall (λ c, f c = false) p.
Proof.
  revert p. induction s as [|b s IH]; intros p; cbn [split_pred].
  - intros ->%list_elem_of_singleton. constructor.
  - destruct (f b) eqn:Hb.
    + intros [->|Hp]%elem_of_cons; [constructor|by apply IH].
    + destruct (split_pred f s) as [|q qs] eqn:E.
      * intros ->%list_elem_of_singleton. by constructor.
      * intros [->|Hp]%elem_of_cons; [constructor; [done|apply IH; left]|apply IH; by right].
Qed.

Lemma split_pred_all f (P : char → Prop) s : Forall P s → Forall (Forall P) (split_pred f s).
Proof.
  induction 1 as [|c s Hc Hs IH]; cbn [split_pred]; [by repeat constructor|].
  destruct (f c); [by constructor|]. destruct (split_pred f s) as [|p ps]; [by repeat constructor|].
  apply Forall_cons in IH as [Hp Hps]. by repeat constructor.
Qed.

Lemma split_pred_word f w s : Forall (λ c, f c = false) w →
  split_pred f (w ++ s) =
  match split_pred f s with p :: ps => (w ++ p) :: ps | [] => [w] end.
Proof.
  induction 1 as [|c w Hc _ IH]; cbn [app split_pred].
  - destruct (split_pred f s) eqn:E; [|done]. destruct s as [|b s]; [done|]. cbn in E.
    destruct (f b); [done|]. by destruct (split_pred f s).
  - rewrite Hc, IH. by destruct (split_pred f s).
Qed.

(** Words joined by blanks split back into the words. *)
Lemma split_whitespace_join ws :
  Forall (λ w, w ≠ [] ∧ Forall (λ c, is_whitespace c = false) w) ws →
  split_whitespace (join [32%N] ws) = ws.
Proof.
  unfold split_whitespace. induction 1 as [|w ws [Hne Hw] Hws IH]; [done|].
  destruct ws as [|w' ws].
  - cbn [join]. rewrite <-(app_nil_r w), split_pred_word by done. cbn.
    by rewrite app_nil_r, decide_True.
  - rewrite join_cons2. rewrite split_pred_word by done. cbn [app].
    change (split_pred is_whitespace (32%N :: ?s)) with ([] :: split_pred is_whitespace s).
    cbn [app]. rewrite app_nil_r, filter_cons_True by done. f_equal. exact IH.
Qed.

Lemma replace_fuel_absent n p to s c : head p = Some c → c ∉ s → replace_fuel n p to s = s.
Proof.
  intros Hp. revert s. induction n as [|n IH]; intros s Hs; [done|].
  destruct s as [|b s]; [done|]. apply not_elem_of_cons in Hs as [Hb Hs].
  cbn [replace_fuel]. destruct (strip_prefix p (b :: s)) as [r|] eqn:E.
  - apply strip_prefix_Some in E. destruct p; simplify_eq/=.
  - by rewrite IH.
Qed.

Lemma replace_absent p to s c : head p = Some c → c ∉ s → replace p to s = s.
Proof. apply replace_fuel_absent. Qed.

(** ** A concrete rendering

    Records as text on one line: the bits of their code after a brace.  The
    witnesses use it in the place of a JSON library. *)

Module BitText.

Fixpoint bits (p : positive) : str :=
  match p with
  | xH => []
  | xO p => 48%N :: bits p
  | xI p => 49%N :: bits p
  end.

Fixpoint unbits (s : str) : option positive :=
  match s with
  | [] => Some xH
  | c :: s => (if decide (c = 48%N) then xO else xI) <$> unbits s
  end.

Lemma unbits_bits p : unbits (bits p) = Some p.
Proof. induction p as [p IH|p IH|]; simpl; by rewrite ?IH. Qed.

Definition to_text {A} `{Countable A} (x : A) : str := 123%N :: bits (encode x).

Definition of_text {A} `{Countable A} (s : str) : option A :=
  match s with
  | [] => None
  | _ :: s => p ← unbits s; decode p
  end.

Lemma of_to_text {A} `{Countable A} (x : A) : of_text (to_text x) = Some x.
Proof. simpl. rewrite unbits_bits. simpl. apply decode_encode. Qed.

Lemma to_text_chars {A} `{Countable A} (x : A) c :
  c ∈ to_text x → c = 123%N ∨ c = 48%N ∨ c = 49%N.
Proof.
  unfold to_text. generalize (encode x). intros p [->|Hc]%elem_of_cons; [by left|].
  right. induction p as [p IH|p IH|]; simpl in Hc;
    [apply elem_of_cons in Hc as [->|?]; auto..|by apply elem_of_nil in Hc].
Qed.

End BitText.
