(* ===== verification/Lines.v ===== *)
(** * Lines and the order of strings

    [str::lines] with what it gives on texts put together from whole lines,
    and [Ord for str], which sorts names throughout the engine. *)

From stdpp Require Import base option numbers list sorting.
From S2P Require Import Prelude RustStr.

Definition newline : char := 10%N.
Definition carriage_return : char := 13%N.

(** ** Lines of a text *)

(** [str::split_inclusive] at one character. *)
Fixpoint split_inclusive (c : char) (s : str) : list str :=
  match s with
  | [] => []
  | x :: s =>
      if decide (x = c) then [x] :: split_inclusive c s
      else match split_inclusive c s with
           | [] => [[x]]
           | l :: ls => (x :: l) :: ls
           end
  end.

(** What [str::lines] does with each piece. *)
Definition strip_line (l : str) : str :=
  match strip_suffix [newline] l with
  | None => l
  | Some l => default l (strip_suffix [carriage_return] l)
  end.

Definition lines (s : str) : list str := strip_line <$> split_inclusive newline s.

(** [String]'s order: lexicographic, which for UTF-8 is the order of the
    code points. *)
Fixpoint str_le (s t : str) : bool :=
  match s, t with
  | [], _ => true
  | _ :: _, [] => false
  | a :: s, b :: t => bool_decide (a < b)%N || (bool_decide (a = b) && str_le s t)
  end.

(** [Vec<String>::sort]. *)
Definition str_order (a b : str) : Prop := str_le a b = true.

#[export] Instance str_order_dec a b : Decision (str_order a b).
Proof. unfold str_order. apply _. Defined.

(** ** Lemmas *)

(** A text that ends at the end of a line. *)
Definition whole_lines (s : str) : Prop := s = [] ∨ ∃ t, s = t ++ [newline].

Lemma split_inclusive_app c s t : split_inclusive c (s ++ c :: t) = split_inclusive c (s ++ [c]) ++ split_inclusive c t.
Proof.
  induction s as [|x s IH]; simpl.
  - by rewrite !decide_True.
  - rewrite IH. destruct (decide (x = c)); [done|].
    destruct (split_inclusive c (s ++ [c])) eqn:E; [|done].
    destruct s; simpl in E; [|repeat case_match; done].
    by rewrite decide_True in E.
Qed.

Lemma split_inclusive_line c l : c ∉ l → split_inclusive c (l ++ [c]) = [l ++ [c]].
Proof.
  induction l as [|x l IH]; simpl; intros Hl.
  - by rewrite decide_True.
  - rewrite not_elem_of_cons in Hl. destruct Hl as [Hx Hl].
    rewrite decide_False, IH by done. done.
Qed.

Lemma lines_app s t : whole_lines s → lines (s ++ t) = lines s ++ lines t.
Proof.
  unfold lines. intros [->|[u ->]]; [done|].
  rewrite <-(app_assoc u). simpl. by rewrite split_inclusive_app, fmap_app.
Qed.

Lemma strip_line_text l : last l ≠ Some carriage_return → strip_line (l ++ [newline]) = l.
Proof.
  intros Hl. unfold strip_line.
  rewrite (proj2 (strip_suffix_Some [newline] _ l)) by done.
  destruct (strip_suffix [carriage_return] l) as [r|] eqn:E; [|done].
  apply strip_suffix_Some in E. subst. by rewrite last_snoc in Hl.
Qed.

Lemma lines_line l : newline ∉ l → last l ≠ Some carriage_return → lines (l ++ [newline]) = [l].
Proof.
  intros Hn Hc. unfold lines. rewrite split_inclusive_line by done.
  simpl. by rewrite strip_line_text.
Qed.

Lemma whole_lines_app s l : whole_lines s → whole_lines (s ++ l ++ [newline]).
Proof. intros _. right. exists (s ++ l). by rewrite app_assoc. Qed.

Lemma str_le_refl s : str_le s s = true.
Proof.
  induction s as [|a s IH]; [done|]. cbn. rewrite (bool_decide_eq_true_2 (a = a)) by done.
  rewrite IH. apply orb_true_r.
Qed.

Lemma str_le_total s t : str_le s t = true ∨ str_le t s = true.
Proof.
  revert t. induction s as [|a s IH]; intros [|b t]; cbn; auto.
  rewrite !orb_true_iff, !andb_true_iff, !bool_decide_eq_true.
  destruct (N.lt_trichotomy a b) as [?|[->|?]]; [auto| |auto].
  destruct (IH t); auto.
Qed.

Lemma str_le_trans s t u : str_le s t = true → str_le t u = true → str_le s u = true.
Proof.
  revert t u. induction s as [|a s IH]; intros [|b t] [|c u]; cbn; try done.
  rewrite !orb_true_iff, !andb_true_iff, !bool_decide_eq_true.
  intros [?|[-> ?]] [?|[-> ?]]; [left; lia|by left|by left|right; split; [done|by eapply IH]].
Qed.

Lemma str_le_antisymm s t : str_le s t = true → str_le t s = true → s = t.
Proof.
  revert t. induction s as [|a s IH]; intros [|b t]; cbn; try done.
  rewrite !orb_true_iff, !andb_true_iff, !bool_decide_eq_true.
  intros [?|[-> ?]] [?|[? ?]]; [lia..|f_equal; auto].
Qed.

#[export] Instance str_order_total : Total str_order.
Proof. intros s t. apply str_le_total. Qed.

#[export] Instance str_order_trans : Transitive str_order.
Proof. intros s t u. apply str_le_trans. Qed.

#[export] Instance str_order_antisymm : AntiSymm (=) str_order.
Proof. intros s t. apply str_le_antisymm. Qed.
