(* ===== verification/Float.v ===== *)
(** * Machine floats

    The binary32 and binary64 arithmetic the code decides with, as that of
    [SpecFloat] at each format's precision: conversions from integers round to
    nearest, a conversion to an integer truncates and saturates. *)

From stdpp Require Import base option numbers.
From Stdlib Require Import SpecFloat.
From S2P Require Import Prelude.

(** ** Binary64 *)

Definition f64_of (n : Z) : spec_float := binary_normalize 53 1024 n 0 false.
Definition f64_div : spec_float → spec_float → spec_float := SFdiv 53 1024.
Definition f64_mul : spec_float → spec_float → spec_float := SFmul 53 1024.

(** The literals [0.8] and [0.9]. *)
Definition f64_0_8 : spec_float := S754_finite false 7205759403792794 (-53).
Definition f64_0_9 : spec_float := S754_finite false 8106479329266893 (-53).

(** [f as u64]. *)
Definition f64_to_u64 (f : spec_float) : Z :=
  match f with
  | S754_finite false m e => Z.shiftl (Z.pos m) e `min` u64_max
  | S754_infinity false => u64_max
  | _ => 0
  end.

(** ** Binary32 *)

Definition f32_of (n : Z) : spec_float := binary_normalize 24 128 n 0 false.
Definition f32_div : spec_float → spec_float → spec_float := SFdiv 24 128.
Definition f32_mul : spec_float → spec_float → spec_float := SFmul 24 128.
Definition f32_sub : spec_float → spec_float → spec_float := SFsub 24 128.

(** The literals [0.5] and [0.25]. *)
Definition f32_0_5 : spec_float := S754_finite false 8388608 (-24).
Definition f32_0_25 : spec_float := S754_finite false 8388608 (-25).

(** [f as i64]. *)
Definition f32_to_i64 (f : spec_float) : Z :=
  match f with
  | S754_finite false m e => Z.shiftl (Z.pos m) e `min` (2 ^ 63 - 1)
  | S754_finite true m e => - (Z.shiftl (Z.pos m) e `min` 2 ^ 63)
  | S754_infinity false => 2 ^ 63 - 1
  | S754_infinity true => - 2 ^ 63
  | _ => 0
  end.
