(* ===== verification/PermTypes.v ===== *)
(** * Permission data ([crates/core/src/permission.rs])

    The permission modes, the rules of the rule engine and the verdicts of
    the gate, with the settings-side rule type
    ([crates/core/src/settings.rs], [interface/config_source.rs]) the rules
    are read from, and the JSON values tool inputs are made of. *)

From stdpp Require Import base option numbers strings list.
From S2P Require Import Prelude RustStr.

(** ** Modes *)

Inductive PermissionMode :=
| ModeDefault | ModePlan | ModeAcceptEdits | ModeBypassPermissions
| ModeAuto | ModeDontAsk | ModeBubble | ModeYolo.

#[export] Instance PermissionMode_eq_dec : EqDecision PermissionMode.
Proof. solve_decision. Defined.

Definition is_user_settable (m : PermissionMode) : bool :=
  match m with ModeAuto | ModeBubble => false | _ => true end.

(** ** Rules *)

Inductive RuleSource :=
| UserSettings | ProjectSettings | LocalSettings | CliArg | Session
| PolicySettings | Command | Plugin.

#[export] Instance RuleSource_eq_dec : EqDecision RuleSource.
Proof. solve_decision. Defined.

Definition priority (s : RuleSource) : Z :=
  match s with
  | CliArg => 60
  | Session => 50
  | Command => 45
  | LocalSettings => 40
  | ProjectSettings => 30
  | UserSettings => 20
  | PolicySettings => 10
  | Plugin => 5
  end.

Inductive RuleBehavior := BehaviorAllow | BehaviorDeny | BehaviorAsk.

#[export] Instance RuleBehavior_eq_dec : EqDecision RuleBehavior.
Proof. solve_decision. Defined.

Record PermissionRule := {
  source : RuleSource;
  behavior : RuleBehavior;
  tool_name : str;
  rule_content : option str;
}.

#[export] Instance PermissionRule_eq_dec : EqDecision PermissionRule.
Proof. solve_decision. Defined.

(** ** JSON values *)

#[local] Set Warnings "-register-all".

(** [serde_json::Value], the objects as their entries in order.  No modelled
    code looks inside a number. *)
Inductive value :=
| VNull
| VBool (b : bool)
| VNumber (n : Z)
| VString (s : str)
| VArray (l : list value)
| VObject (o : list (str * value)).

Fixpoint obj_get (k : str) (o : list (str * value)) : option value :=
  match o with
  | [] => None
  | (k', v) :: o => if decide (k = k') then Some v else obj_get k o
  end.

(** [Value::get(key)] and [Value::as_str]. *)
Definition value_get (k : str) (v : value) : option value :=
  match v with VObject o => obj_get k o | _ => None end.

Definition as_str (v : value) : option str :=
  match v with VString s => Some s | _ => None end.

(** ** Verdicts *)

Inductive DecisionReason :=
| ReasonRule (r : PermissionRule)
| ReasonMode (m : PermissionMode)
| ReasonHook (hook_name : str)
| ReasonClassifier (classifier : str)
| ReasonSubcommandResults
| ReasonSafetyCheck
| ReasonToolAllowed (s : str)
| ReasonToolDenied (s : str)
| ReasonToolBuiltin (s : str)
| ReasonOther (s : str).

Inductive PermissionDecision :=
| DecisionAllow (updated_input : option value) (decision_reason : option DecisionReason)
| DecisionDeny (message : str) (decision_reason : DecisionReason)
| DecisionAsk (message : str) (decision_reason : option DecisionReason).

Definition is_allow (d : PermissionDecision) : bool :=
  match d with DecisionAllow _ _ => true | _ => false end.
Definition is_deny (d : PermissionDecision) : bool :=
  match d with DecisionDeny _ _ => true | _ => false end.
Definition is_ask (d : PermissionDecision) : bool :=
  match d with DecisionAsk _ _ => true | _ => false end.

(** ** The settings side *)

Inductive PermissionAction := ActionAllow | ActionDeny | ActionAsk.

Inductive Tier := Global | Scene | Project.

Record SettingsRule := {
  tool : str;
  action : PermissionAction;
  tier : option Tier;
}.

(** The two rule lists of [Settings]. *)
Record RuleSettings := {
  permission_rules : list SettingsRule;
  local_permission_rules : list SettingsRule;
}.

(** ** Outside code *)

(** The [globset] crate: [Glob::new] with [literal_separator] off or on; an
    unparsable pattern is [None]. *)
Class Globset := {
  glob_new : bool → str → option (str → bool);
}.

(** What the process asks the operating system about paths:
    [std::fs::canonicalize] (the snapshot one call sees) and the home
    directory variables. *)
Class HostEnv := {
  canonicalize : str → option str;
  env_HOME : option str;
  env_USERPROFILE : option str;
}.

(** Concrete instances for the worked examples: a glob engine that rejects
    every pattern, and a host without symbolic links. *)
Definition no_globset : Globset := {| glob_new := λ _ _, None |}.

Definition plain_host : HostEnv :=
  {| canonicalize := Some; env_HOME := Some (lit "/home/u"); env_USERPROFILE := None |}.
