(* ===== verification/Rule.v ===== *)
(** * Rule strings ([crates/permissions/src/rule.rs])

    Parsing and printing permission rules, and reading them from settings. *)

From stdpp Require Import base option numbers strings list.
From S2P Require Import Prelude RustStr PermTypes.

Inductive ParseRuleError :=
| RuleEmpty
| RuleUnbalanced (s : str)
| RuleMalformed (s : str).

Definition parse_rule_string (s : str) (src : RuleSource) (b : RuleBehavior)
    : result PermissionRule ParseRuleError :=
  let s := trim s in
  if decide (s = []) then Err RuleEmpty
  else match split_once (ch "(") s with
  | Some (before, rest) =>
      if negb (ends_with ")" s) then Err (RuleUnbalanced s)
      else
        let tool_name := trim before in
        if decide (tool_name = []) then Err (RuleMalformed s)
        else Ok {| source := src; behavior := b; tool_name := tool_name;
                   rule_content := Some (take (length rest - 1) rest) |}
  | None =>
      Ok {| source := src; behavior := b; tool_name := s; rule_content := None |}
  end.

Definition format_rule_string (r : PermissionRule) : str :=
  match rule_content r with
  | Some c => tool_name r ++ lit "(" ++ c ++ lit ")"
  | None => tool_name r
  end.

Definition behavior_of_action (a : PermissionAction) : RuleBehavior :=
  match a with
  | ActionAllow => BehaviorAllow
  | ActionDeny => BehaviorDeny
  | ActionAsk => BehaviorAsk
  end.

Definition rules_from_settings (rules : list SettingsRule) (src : RuleSource)
    : list PermissionRule :=
  omap (λ r, result_ok (parse_rule_string (tool r) src (behavior_of_action (action r)))) rules.

Definition tier_source (t : option Tier) : RuleSource :=
  match t with
  | Some Global | Some Scene => UserSettings
  | Some Project | None => ProjectSettings
  end.

Definition rules_from_all_tiers (settings : RuleSettings) : list PermissionRule :=
  (permission_rules settings ≫= λ r, rules_from_settings [r] (tier_source (tier r)))
  ++ rules_from_settings (local_permission_rules settings) LocalSettings.

(** ** What a parsed rule looks like *)

(** The invariant of rules that came out of the parser: a trimmed, nonempty
    tool name without a parenthesis. *)
Definition rule_wf (r : PermissionRule) : Prop :=
  trimmed (tool_name r) ∧ tool_name r ≠ [] ∧ ch "(" ∉ tool_name r.

Lemma trim_sublist s c : c ∈ trim s → c ∈ s.
Proof.
  unfold trim. destruct (trim_end_prefix (trim_start s)) as (l & E & _).
  destruct (drop_while_suffix is_whitespace s) as (k & E' & _).
  unfold trim_start in *. intros H. rewrite E', E, !elem_of_app. auto.
Qed.

Lemma trim_paren tool c :
  trimmed tool → tool ≠ [] → trim (tool ++ lit "(" ++ c ++ lit ")") = tool ++ lit "(" ++ c ++ lit ")".
Proof.
  intros [Hs He] Hne. apply trim_id. split.
  - intros x Hx. apply Hs. by destruct tool.
  - intros x. rewrite !last_app. by intros [= <-].
Qed.

(** The parser only builds well-formed rules. *)
Lemma parse_rule_string_wf s src b r :
  parse_rule_string s src b = Ok r → rule_wf r.
Proof.
  unfold parse_rule_string, rule_wf. case_decide as Hs; [done|].
  destruct (split_once (ch "(") (trim s)) as [[l rest]|] eqn:E.
  - destruct (ends_with _ _); simpl; [|done]. case_decide; [done|].
    intros [= <-]. simpl. apply split_once_Some in E as [_ Hl].
    split_and!; [apply trim_trimmed|done|]. intros ?%trim_sublist. done.
  - intros [= <-]. simpl. apply split_once_None in E.
    split_and!; [apply trim_trimmed|done|done].
Qed.

Lemma parse_rule_string_source s src b r :
  parse_rule_string s src b = Ok r → source r = src ∧ behavior r = b.
Proof.
  unfold parse_rule_string. case_decide; [done|].
  destruct (split_once _ _) as [[l rest]|]; [|by intros [= <-]].
  destruct (negb _); [done|]. case_decide; [done|]. by intros [= <-].
Qed.

(** ** Round trips *)

Lemma parse_format r : rule_wf r →
  parse_rule_string (format_rule_string r) (source r) (behavior r) = Ok r.
Proof.
  intros Hwf. destruct r as [src b tool [c|]]; destruct Hwf as (Ht & Hne & Hp);
  unfold parse_rule_string, format_rule_string;
  cbn [rule_content tool_name source behavior] in *.
  - rewrite trim_paren by done. rewrite decide_False by (by destruct tool).
    assert (split_once (ch "(") (tool ++ lit "(" ++ c ++ lit ")") = Some (tool, c ++ lit ")"))
      as -> by (by apply split_once_Some).
    rewrite !app_assoc, ends_with_app. cbn [negb]. rewrite trim_id by done.
    rewrite decide_False by done. by rewrite length_app, Nat.add_sub, take_app_length.
  - rewrite trim_id by done. rewrite decide_False by done.
    by rewrite (proj2 (split_once_None _ _) Hp).
Qed.

(** Parsing the printed form of a well-formed rule gives the rule back,
    whatever its content holds (parentheses and white space included), and
    the parser returns nothing but such rules: so every rule that was read
    survives being written to a settings file and read again. *)
Theorem parse_format_roundtrip r :
  (rule_wf r → parse_rule_string (format_rule_string r) (source r) (behavior r) = Ok r) ∧
  (∀ s src b, parse_rule_string s src b = Ok r →
     parse_rule_string (format_rule_string r) src b = Ok r).
Proof.
  split; [apply parse_format|]. intros s src b E.
  destruct (parse_rule_string_source _ _ _ _ E) as [<- <-].
  apply parse_format. by eapply parse_rule_string_wf.
Qed.

Lemma parse_format_roundtrip_witness :
  parse_rule_string "Bash(git (x) push)" UserSettings BehaviorDeny =
  Ok {| source := UserSettings; behavior := BehaviorDeny; tool_name := lit "Bash";
        rule_content := Some (lit "git (x) push") |}.
Proof.
  apply (parse_format_roundtrip {| source := UserSettings; behavior := BehaviorDeny;
    tool_name := lit "Bash"; rule_content := Some (lit "git (x) push") |}).
  by_compute.
Defined.
