(* ===== verification/Path.v ===== *)
(** * Paths ([std::path], Unix)

    A [PathBuf] is its text.  [components] is [Path::components]: the root
    marker, then the pieces between slashes, empty and [.] pieces dropped
    (a leading [.] of a relative path is kept).  Rust compares paths by their
    components, and so does the model. *)

From stdpp Require Import base option numbers strings list.
From S2P Require Import Prelude RustStr.

Inductive Component :=
| RootDir
| CurDir
| ParentDir
| Normal (s : str).

#[export] Instance Component_eq_dec : EqDecision Component.
Proof. solve_decision. Defined.

Definition slash : char := (ch "/").

Definition parse_piece (p : str) : option Component :=
  if decide (p = []) then None
  else if decide (p = lit ".") then None
  else if decide (p = lit "..") then Some ParentDir
  else Some (Normal p).

Definition is_absolute (p : str) : bool := starts_with "/" p.

Definition components (p : str) : list Component :=
  if is_absolute p then RootDir :: omap parse_piece (split slash p)
  else match split slash p with
       | q :: qs => if decide (q = lit ".") then CurDir :: omap parse_piece qs
                    else omap parse_piece (q :: qs)
       | [] => []
       end.

Definition as_os_str (c : Component) : str :=
  match c with
  | RootDir => "/"
  | CurDir => "."
  | ParentDir => ".."
  | Normal s => s
  end.

(** [PathBuf::push]. *)
Definition push (buf p : str) : str :=
  if is_absolute p then p
  else buf ++ match last buf with
              | Some c => if decide (c = slash) then [] else [slash]
              | None => []
              end ++ p.

(** [Path::join]. *)
Definition path_join (p q : str) : str := push p q.

Definition of_components (cs : list Component) : str :=
  foldl (λ b c, push b (as_os_str c)) [] cs.

(** [Path::parent]: [None] for the root and the empty path. *)
Definition parent (p : str) : option str :=
  match last (components p) with
  | Some RootDir | None => None
  | Some _ => Some (of_components (removelast (components p)))
  end.

(** [PathBuf::pop]. *)
Definition pop (p : str) : str := default p (parent p).

(** [Path::starts_with]. *)
Definition path_starts_with (p base : str) : bool :=
  bool_decide (components base `prefix_of` components p).

Definition path_eqb (p q : str) : bool := bool_decide (components p = components q).

(** [Path::file_name]: the last component when it is a name. *)
Definition file_name (p : str) : option str :=
  match last (components p) with Some (Normal s) => Some s | _ => None end.

(** [Path::extension]: what follows the last dot, unless nothing precedes
    it. *)
Definition extension (p : str) : option str :=
  match file_name p with
  | Some name =>
      match split_once (ch ".") (reverse name) with
      | Some (_, []) | None => None
      | Some (ext, _) => Some (reverse ext)
      end
  | None => None
  end.

(** [Path::file_stem]: what precedes that dot, or the whole name. *)
Definition file_stem (p : str) : option str :=
  name ← file_name p;
  Some match split_once (ch ".") (reverse name) with
       | Some (_, []) | None => name
       | Some (_, stem) => reverse stem
       end.

(** Lexical normalization: [.] dropped, [..] popped, nothing resolved on
    disk ([path_rule.rs] and [path_safety.rs] have one copy each). *)
Definition normalize_step (out : str) (c : Component) : str :=
  match c with
  | ParentDir => pop out
  | CurDir => out
  | other => push out (as_os_str other)
  end.

Definition normalize (p : str) : str := foldl normalize_step [] (components p).

(** [Path::ancestors]: the path itself, then its parents. *)
Fixpoint ancestors_fuel (n : nat) (p : str) : list str :=
  match n with
  | O => [p]
  | S n => p :: (match parent p with Some q => ancestors_fuel n q | None => [] end)
  end.

Definition ancestors (p : str) : list str := ancestors_fuel (length (components p)) p.

(** ** Components of well-formed component lists *)

(** A directory entry's name. *)
Definition name_ok (s : str) : Prop :=
  s ≠ [] ∧ (slash ∉ s) ∧ s ≠ lit "." ∧ s ≠ lit "..".

Definition normal_ok (c : Component) : Prop :=
  match c with Normal s => name_ok s | _ => False end.

(** What [normalize] produces: at most a leading root, then names. *)
Definition clean_comps (cs : list Component) : Prop :=
  match cs with
  | RootDir :: cs => Forall normal_ok cs
  | cs => Forall normal_ok cs
  end.

Lemma parse_piece_normal s : name_ok s → parse_piece s = Some (Normal s).
Proof.
  intros (? & ? & ? & ?). unfold parse_piece. by rewrite !decide_False by done.
Qed.

Lemma parse_piece_ok p c : slash ∉ p → parse_piece p = Some c →
  c = ParentDir ∨ normal_ok c.
Proof.
  unfold parse_piece. intros Hs.
  repeat case_decide; intros; simplify_eq; [by left|right].
  split_and!; done.
Qed.

Lemma split_snoc c l r : split c (l ++ c :: r) = split c l ++ split c r.
Proof.
  induction l as [|b l IH]; simpl.
  - by rewrite decide_True.
  - case_decide; [by rewrite IH|]. rewrite IH.
    destruct (split c l) as [|q qs] eqn:E; [by apply split_not_nil in E|done].
Qed.

Lemma is_absolute_spec p : is_absolute p = true ↔ head p = Some slash.
Proof.
  unfold is_absolute. rewrite starts_with_spec. split.
  - intros [r ->]. done.
  - destruct p as [|c p]; [done|]. intros [= ->]. by exists p.
Qed.

Lemma is_absolute_app p q : p ≠ [] → is_absolute (p ++ q) = is_absolute p.
Proof.
  intros Hp. apply eq_true_iff_eq. rewrite !is_absolute_spec. by destruct p.
Qed.

Lemma components_snoc p s : p ≠ [] → name_ok s →
  components (p ++ slash :: s) = components p ++ [Normal s].
Proof.
  intros Hp Hs. unfold components. rewrite is_absolute_app by done.
  assert (split slash s = [s]) as Es by (apply split_no_sep, Hs).
  rewrite split_snoc, Es. destruct (is_absolute p).
  - rewrite omap_app. simpl. by rewrite parse_piece_normal.
  - destruct (split slash p) as [|q qs] eqn:E; [by apply split_not_nil in E|].
    cbn [app]. case_decide.
    + rewrite omap_app. simpl. by rewrite parse_piece_normal.
    + change (q :: qs ++ [s]) with ((q :: qs) ++ [s]).
      rewrite omap_app. cbn [omap list_omap]. by rewrite (parse_piece_normal s).
Qed.

Lemma components_name s : name_ok s → components s = [Normal s].
Proof.
  intros Hs. pose proof Hs as (Hne & Hsl & Hd & _). unfold components.
  destruct (is_absolute s) eqn:E.
  - apply is_absolute_spec in E. destruct s as [|c s]; simplify_eq/=.
    destruct Hsl. left.
  - rewrite split_no_sep by done. rewrite decide_False by done. simpl.
    by rewrite parse_piece_normal.
Qed.

Lemma name_not_absolute s : name_ok s → is_absolute s = false.
Proof.
  intros (_ & Hs & _). apply not_true_iff_false. rewrite is_absolute_spec.
  destruct s; [done|]. intros [= ->]. apply Hs. left.
Qed.

(** A rendered path never ends in a slash, except the root. *)
Definition rendered (p : str) : Prop := p = [] ∨ p = lit "/" ∨ (p ≠ [] ∧ last p ≠ Some slash).

Lemma name_rendered s p : name_ok s → rendered (p ++ s).
Proof.
  intros (Hne & Hs & _). right. right. split; [by destruct p, s|].
  rewrite last_app. destruct (last s) as [c|] eqn:E.
  - intros [= ->]. apply Hs. by apply last_Some_elem_of.
  - apply last_None in E. done.
Qed.

Lemma push_name p s : rendered p → name_ok s →
  components (push p s) = components p ++ [Normal s] ∧ rendered (push p s).
Proof.
  intros Hp Hs. unfold push. rewrite name_not_absolute by done.
  destruct Hp as [-> | [-> | [Hp Hl]]].
  - simpl. split; [by apply components_name|by apply (name_rendered s [])].
  - cbn [last]. split; [|by apply name_rendered].
    change (components (slash :: s) = [RootDir; Normal s]).
    unfold components. rewrite (proj2 (is_absolute_spec _)) by done.
    change (slash :: s) with ([] ++ slash :: s). rewrite split_snoc.
    rewrite (split_no_sep slash s) by apply Hs. simpl. by rewrite parse_piece_normal.
  - destruct (last p) as [c|] eqn:E; [|by apply last_None in E].
    rewrite decide_False by congruence. simpl. split; [by apply components_snoc|].
    change (rendered (p ++ [slash] ++ s)). rewrite app_assoc. by apply name_rendered.
Qed.

Lemma of_components_snoc cs c :
  of_components (cs ++ [c]) = push (of_components cs) (as_os_str c).
Proof. unfold of_components. by rewrite foldl_app. Qed.

Lemma clean_comps_snoc cs c : clean_comps (cs ++ [c]) →
  clean_comps cs ∧ (normal_ok c ∨ (cs = [] ∧ c = RootDir)).
Proof.
  destruct cs as [|d cs].
  - destruct c; simpl; rewrite ?Forall_singleton; intuition.
  - destruct d; simpl; rewrite ?Forall_cons, Forall_app, Forall_singleton; simpl; tauto.
Qed.

Lemma components_of_components cs : clean_comps cs →
  components (of_components cs) = cs ∧ rendered (of_components cs).
Proof.
  induction cs as [|c cs IH] using rev_ind; [by intros; split; [|left]|].
  intros [Hcs Hc]%clean_comps_snoc. rewrite of_components_snoc.
  destruct Hc as [Hc|[-> ->]]; [|by split; [|right; left]].
  destruct c as [| | |s]; try done. destruct (IH Hcs) as [E Hr].
  destruct (push_name _ _ Hr Hc) as [E' ?].
  cbn [as_os_str]. by rewrite E', E.
Qed.

Lemma components_clean_or_dots p c : c ∈ components p →
  c = RootDir ∨ c = CurDir ∨ c = ParentDir ∨ normal_ok c.
Proof.
  assert (∀ qs, (∀ q, q ∈ qs → slash ∉ q) → c ∈ omap (M:=list) parse_piece qs →
    c = ParentDir ∨ normal_ok c) as H.
  { intros qs Hqs (q & Hq & Hc)%list_elem_of_omap. by eapply parse_piece_ok; eauto. }
  unfold components. pose proof (split_elem_no_sep slash p) as Hs.
  destruct (is_absolute p).
  - intros [->|Hc]%elem_of_cons; [by left|]. apply H in Hc; [tauto|done].
  - destruct (split slash p) as [|q qs] eqn:E; [by intros ?%not_elem_of_nil|].
    case_decide.
    + intros [->|Hc]%elem_of_cons; [tauto|]. apply H in Hc; [tauto|].
      intros q' Hq'. apply Hs. by right.
    + intros Hc. apply H in Hc; [tauto|done].
Qed.

(** ** Normalization on components *)

Definition pop_comps (cs : list Component) : list Component :=
  match last cs with
  | Some RootDir | None => cs
  | Some _ => removelast cs
  end.

Definition norm_step (cs : list Component) (c : Component) : list Component :=
  match c with
  | ParentDir => pop_comps cs
  | CurDir => cs
  | RootDir => [RootDir]
  | Normal s => cs ++ [Normal s]
  end.

Definition norm_comps (cs : list Component) : list Component := foldl norm_step [] cs.

Lemma pop_comps_clean cs : clean_comps cs → clean_comps (pop_comps cs).
Proof.
  destruct cs as [|c cs _] using rev_ind; [done|]. intros [Hcs Hc]%clean_comps_snoc.
  unfold pop_comps. rewrite last_snoc, removelast_last.
  destruct Hc as [Hc|[-> ->]]; [|done]. by destruct c.
Qed.

Lemma norm_step_clean cs c : clean_comps cs → (∀ s, c = Normal s → name_ok s) →
  clean_comps (norm_step cs c).
Proof.
  intros Hcs Hc. destruct c; simpl; [done|done|by apply pop_comps_clean|].
  specialize (Hc _ eq_refl). destruct cs as [|d cs]; [by apply Forall_singleton|].
  destruct d; simpl in *;
    rewrite ?Forall_cons, ?Forall_app, ?Forall_singleton in *; simpl in *; tauto.
Qed.

Lemma pop_of_components cs : clean_comps cs →
  pop (of_components cs) = of_components (pop_comps cs).
Proof.
  intros Hcs. unfold pop, parent, pop_comps.
  destruct (components_of_components _ Hcs) as [-> _].
  by destruct (last cs) as [[]|].
Qed.

Lemma normalize_of_comps cs out : Forall (λ c, ∀ s, c = Normal s → name_ok s) cs →
  clean_comps out →
  foldl normalize_step (of_components out) cs = of_components (foldl norm_step out cs) ∧
  clean_comps (foldl norm_step out cs).
Proof.
  intros Hcs. revert out. induction Hcs as [|c cs Hc _ IH]; intros out Hout; [done|].
  assert (normalize_step (of_components out) c = of_components (norm_step out c)) as E.
  { destruct c; simpl.
    - by destruct out.
    - done.
    - by apply pop_of_components.
    - by rewrite of_components_snoc. }
  simpl. rewrite E. apply IH. by apply norm_step_clean.
Qed.

Lemma components_names p : Forall (λ c, ∀ s, c = Normal s → name_ok s) (components p).
Proof.
  apply Forall_forall. intros c Hc s ->.
  destruct (components_clean_or_dots _ _ Hc) as [E|[E|[E|E]]]; [discriminate..|exact E].
Qed.

Lemma normalize_components p :
  normalize p = of_components (norm_comps (components p)) ∧
  clean_comps (norm_comps (components p)).
Proof. apply (normalize_of_comps _ []); [apply components_names|constructor]. Qed.

Lemma components_normalize p : components (normalize p) = norm_comps (components p).
Proof.
  destruct (normalize_components p) as [-> H].
  by apply components_of_components.
Qed.

Lemma norm_comps_app xs ys : norm_comps (xs ++ ys) = foldl norm_step (norm_comps xs) ys.
Proof. unfold norm_comps. by rewrite foldl_app. Qed.

Lemma norm_comps_clean_id cs : clean_comps cs → norm_comps cs = cs.
Proof.
  induction cs as [|c cs IH] using rev_ind; [done|].
  intros [Hcs Hc]%clean_comps_snoc. rewrite norm_comps_app, IH by done.
  destruct Hc as [Hc|[-> ->]]; [|done]. by destruct c.
Qed.

Lemma normalize_clean p : clean_comps (components (normalize p)).
Proof. rewrite components_normalize. apply normalize_components. Qed.

Lemma normalize_idemp p : normalize (normalize p) = normalize p.
Proof.
  destruct (normalize_components (normalize p)) as [-> _].
  rewrite norm_comps_clean_id by apply normalize_clean.
  rewrite components_normalize. symmetry. apply normalize_components.
Qed.

#[export] Hint Resolve normalize_clean : atta.

(** ** Joining a relative path *)

(** The marker [components] puts in front of the pieces. *)
Definition comp_prefix (p : str) : list Component :=
  if is_absolute p then [RootDir]
  else match split slash p with
       | q :: _ => if decide (q = lit ".") then [CurDir] else []
       | [] => []
       end.

Definition pieces (p : str) : list Component := omap parse_piece (split slash p).

Lemma components_pieces p : components p = comp_prefix p ++ pieces p.
Proof.
  unfold components, comp_prefix, pieces. destruct (is_absolute p); [done|].
  destruct (split slash p) as [|q qs]; [done|]. case_decide as E; [|done].
  subst. done.
Qed.

Lemma pieces_snoc p q : pieces (p ++ slash :: q) = pieces p ++ pieces q.
Proof. unfold pieces. by rewrite split_snoc, omap_app. Qed.

Lemma comp_prefix_snoc p q : p ≠ [] → comp_prefix (p ++ slash :: q) = comp_prefix p.
Proof.
  intros Hp. unfold comp_prefix. rewrite is_absolute_app by done.
  destruct (is_absolute p); [done|]. rewrite split_snoc.
  destruct (split slash p) as [|x xs] eqn:E; [by apply split_not_nil in E|done].
Qed.

Lemma components_push_rel p q : p ≠ [] → is_absolute q = false →
  components (push p q) = components p ++ pieces q.
Proof.
  intros Hp Hq. unfold push. rewrite Hq.
  destruct (last p) as [c|] eqn:E; [|by apply last_None in E].
  case_decide as Hc; [|simpl; by rewrite !components_pieces, pieces_snoc, comp_prefix_snoc, app_assoc].
  subst c. apply last_Some in E as [p' ->].
  rewrite app_nil_l, <-app_assoc. cbn [app].
  rewrite !components_pieces, !pieces_snoc. change (pieces []) with (@nil Component).
  rewrite app_nil_r, app_assoc. f_equal. f_equal.
  destruct p' as [|x p']; [done|by rewrite !comp_prefix_snoc].
Qed.

Lemma norm_comps_push p q : p ≠ [] → is_absolute q = false →
  norm_comps (components (push p q)) = norm_comps (components p ++ components q).
Proof.
  intros Hp Hq. rewrite components_push_rel by done.
  rewrite (components_pieces q), !norm_comps_app, foldl_app. f_equal.
  unfold comp_prefix. rewrite Hq. destruct (split slash q); [done|]. by case_decide.
Qed.

Lemma push_absolute p q : is_absolute q = true → push p q = q.
Proof. unfold push. by intros ->. Qed.

(** ** Characters of a normalized path *)

Lemma split_elem_chars c s p x : p ∈ split c s → x ∈ p → x ∈ s.
Proof.
  intros Hp Hx. rewrite <-(split_join c s). revert Hp.
  generalize (split c s) as l. intros l. induction l as [|q qs IH].
  - by intros ?%not_elem_of_nil.
  - intros [->|Hp]%elem_of_cons; simpl.
    + destruct qs; [done|]. rewrite elem_of_app. auto.
    + destruct qs; [by apply not_elem_of_nil in Hp|]. rewrite elem_of_app, elem_of_cons. auto.
Qed.

Lemma components_chars p s x : Normal s ∈ components p → x ∈ s → x ∈ p.
Proof.
  rewrite components_pieces, elem_of_app. intros [H|H] Hx.
  - unfold comp_prefix in H. destruct (is_absolute p).
    + by apply list_elem_of_singleton in H.
    + destruct (split slash p); [by apply not_elem_of_nil in H|].
      case_decide; [by apply list_elem_of_singleton in H|by apply not_elem_of_nil in H].
  - unfold pieces in H. apply list_elem_of_omap in H as (q & Hq & E).
    unfold parse_piece in E. repeat case_decide; simplify_eq.
    by eapply split_elem_chars.
Qed.

Lemma norm_step_elem cs c d : d ∈ norm_step cs c → d ∈ cs ∨ d = c.
Proof.
  destruct c; simpl; unfold pop_comps; rewrite ?elem_of_app, ?list_elem_of_singleton; auto.
  destruct cs as [|x cs _] using rev_ind; [auto|]. rewrite last_snoc, removelast_last.
  destruct x; rewrite ?elem_of_app; auto.
Qed.

Lemma norm_comps_elem cs d : d ∈ norm_comps cs → d ∈ cs.
Proof.
  induction cs as [|c cs IH] using rev_ind; [done|].
  rewrite norm_comps_app, elem_of_app, list_elem_of_singleton. simpl.
  intros [?|?]%norm_step_elem; auto.
Qed.

Lemma of_components_chars cs x : Forall (λ c, c ≠ CurDir ∧ c ≠ ParentDir) cs →
  x ∈ of_components cs → x = slash ∨ ∃ s, Normal s ∈ cs ∧ x ∈ s.
Proof.
  induction cs as [|c cs IH] using rev_ind; [by intros _ ?%not_elem_of_nil|].
  rewrite Forall_app, Forall_singleton, of_components_snoc. intros [Hcs [Hc1 Hc2]].
  unfold push. destruct (is_absolute (as_os_str c)) eqn:E.
  - intros Hx. destruct c as [| | |s]; try done.
    + simpl in Hx. apply list_elem_of_singleton in Hx. by left.
    + right. exists s. rewrite elem_of_app, list_elem_of_singleton. auto.
  - rewrite !elem_of_app. intros [Hx|[Hx|Hx]].
    + destruct (IH Hcs Hx) as [?|(s & ? & ?)]; [by left|right].
      exists s. rewrite elem_of_app. auto.
    + left. destruct (last _); [case_decide|];
        by rewrite ?list_elem_of_singleton in Hx || apply not_elem_of_nil in Hx.
    + destruct c as [| | |s]; try done. right. exists s.
      rewrite elem_of_app, list_elem_of_singleton. auto.
Qed.

Lemma clean_comps_no_dots cs : clean_comps cs → Forall (λ c, c ≠ CurDir ∧ c ≠ ParentDir) cs.
Proof.
  intros H. destruct cs as [|c cs]; [constructor|].
  destruct c; simpl in H; rewrite ?Forall_cons in *; simpl in *; try tauto;
    split; try done; (eapply Forall_impl; [apply H || apply (proj2 H)|]); by intros [].
Qed.

(** Normalizing adds no character but the separator. *)
Lemma normalize_chars p x : x ∈ normalize p → x = slash ∨ x ∈ p.
Proof.
  destruct (normalize_components p) as [-> Hc].
  intros [?|(s & Hs & Hx)]%of_components_chars; [by left| |by apply clean_comps_no_dots].
  right. eapply components_chars; [|done]. by apply norm_comps_elem.
Qed.

(** ** Absolute paths and their pieces *)

Lemma components_absolute p : is_absolute p = true ↔ head (components p) = Some RootDir.
Proof.
  unfold components. destruct (is_absolute p); [done|]. split; [done|].
  assert (∀ qs, head (omap (M:=list) parse_piece qs) ≠ Some RootDir) as H.
  { induction qs as [|q qs IH]; [done|]. cbn. unfold parse_piece.
    repeat case_decide; cbn; done || apply IH. }
  destruct (split slash p) as [|q qs]; [done|]. case_decide; [done|]. by intros ?%H.
Qed.

Lemma norm_step_root cs c : head cs = Some RootDir → head (norm_step cs c) = Some RootDir.
Proof.
  destruct cs as [|d cs]; [done|]. intros [= ->]. destruct c; cbn; try done.
  unfold pop_comps. destruct cs as [|x cs _] using rev_ind; [done|].
  change (RootDir :: cs ++ [x]) with ((RootDir :: cs) ++ [x]). rewrite last_snoc, removelast_last.
  by destruct x.
Qed.

Lemma norm_comps_root cs : head (norm_comps (RootDir :: cs)) = Some RootDir.
Proof.
  induction cs as [|c cs IH] using rev_ind; [done|].
  change (RootDir :: cs ++ [c]) with ((RootDir :: cs) ++ [c]).
  rewrite norm_comps_app. by apply norm_step_root.
Qed.

Lemma normalize_absolute p : is_absolute p = true → is_absolute (normalize p) = true.
Proof.
  rewrite !components_absolute, components_normalize.
  destruct (components p) as [|c cs]; [done|]. intros [= ->]. apply norm_comps_root.
Qed.

Lemma absolute_has_slash p : is_absolute p = true → slash ∈ p.
Proof. rewrite is_absolute_spec. destruct p; [done|]. intros [= ->]. left. Qed.

Lemma component_piece p s : Normal s ∈ components p → s ∈ split slash p.
Proof.
  rewrite components_pieces, elem_of_app. intros [H|H].
  - exfalso. revert H. unfold comp_prefix. repeat case_match;
      by first [intros ?%list_elem_of_singleton|intros ?%not_elem_of_nil].
  - apply list_elem_of_omap in H as (q & Hq & E). unfold parse_piece in E.
    repeat case_decide; by simplify_eq.
Qed.

Lemma root_only_first p c cs : components p = c :: cs → RootDir ∉ cs.
Proof.
  assert (∀ qs, RootDir ∉ omap (M:=list) parse_piece qs) as H.
  { intros qs (q & _ & E)%list_elem_of_omap. unfold parse_piece in E. by repeat case_decide. }
  unfold components. destruct (is_absolute p); [intros [= <- <-]; apply H|].
  destruct (split slash p) as [|q qs]; [done|]. case_decide; [intros [= <- <-]; apply H|].
  intros E Hin. apply (H (q :: qs)). rewrite E. by right.
Qed.

Lemma norm_comps_extends cs ds :
  Forall (λ c, c = CurDir ∨ normal_ok c) ds →
  norm_comps cs `prefix_of` foldl norm_step (norm_comps cs) ds.
Proof.
  intros H. generalize (norm_comps cs) as base. induction H as [|d ds Hd _ IH]; intros base; [done|].
  cbn [foldl]. etransitivity; [|apply IH].
  destruct Hd as [->|Hd]; [done|]. destruct d as [| | |n]; try done. cbn. by apply prefix_app_r.
Qed.

(** A path of names joined to a directory stays below it. *)
Lemma push_stays_below p q : p ≠ [] → is_absolute q = false → ParentDir ∉ components q →
  norm_comps (components p) `prefix_of` norm_comps (components (push p q)).
Proof.
  intros Hp Hq Hdots. rewrite norm_comps_push, norm_comps_app by done. apply norm_comps_extends.
  apply Forall_forall. intros c Hc.
  pose proof (components_clean_or_dots _ _ Hc) as [->|[->|[->|?]]]; [|by left|done|by right].
  exfalso. assert (head (components q) = Some RootDir → is_absolute q = true) as Hh
    by apply components_absolute.
  destruct (components q) as [|d ds] eqn:Ed; [by apply not_elem_of_nil in Hc|].
  apply root_only_first in Ed. apply elem_of_cons in Hc as [<-|Hc]; [by rewrite Hh in Hq|done].
Qed.

(** ** The paths above a path *)

Lemma pieces_spec q : Forall (λ c, c = ParentDir ∨ normal_ok c) (pieces q).
Proof.
  apply Forall_forall. intros c (x & Hx & Hc)%list_elem_of_omap. eapply parse_piece_ok; [|exact Hc].
  by eapply split_elem_no_sep.
Qed.

Lemma one_piece s c : slash ∉ s → parse_piece s = Some c → pieces s = [c].
Proof. intros Hs Hc. unfold pieces. rewrite split_no_sep by done. cbn. by rewrite Hc. Qed.

(** Components put together are taken apart again. *)
Lemma components_rebuilt c cs : Forall (λ d, d = ParentDir ∨ normal_ok d) cs →
  c = RootDir ∨ c = CurDir ∨ c = ParentDir ∨ normal_ok c →
  components (of_components (c :: cs)) = c :: cs ∧ of_components (c :: cs) ≠ [].
Proof.
  intros Hcs Hc. induction cs as [|d cs IH] using rev_ind.
  { destruct Hc as [->|[->|[->|Hc]]]; try (by split).
    destruct c as [| | |s]; try done.
    assert (of_components [Normal s] = s) as ->.
    { unfold of_components, push. cbn [foldl as_os_str last app]. by rewrite name_not_absolute. }
    split; [by apply components_name|]. by destruct Hc as [? _]. }
  apply Forall_app in Hcs as [Hcs Hd]. rewrite Forall_singleton in Hd.
  change (c :: cs ++ [d]) with ((c :: cs) ++ [d]). rewrite of_components_snoc.
  destruct (IH Hcs) as [E Hne].
  assert (is_absolute (as_os_str d) = false ∧ pieces (as_os_str d) = [d]) as [Ha Hp].
  { destruct Hd as [->|Hd]; [by split|]. destruct d as [| | |s]; try done. split; [by apply name_not_absolute|].
    apply one_piece; [by destruct Hd as (_ & ? & _)|by apply parse_piece_normal]. }
  rewrite components_push_rel, E, Hp by done. split; [done|]. unfold push. rewrite Ha. by intros [? _]%app_nil.
Qed.

Lemma components_shape p : components p = [] ∨
  ∃ c cs, components p = c :: cs ∧ Forall (λ d, d = ParentDir ∨ normal_ok d) cs ∧
    (c = RootDir ∨ c = CurDir ∨ c = ParentDir ∨ normal_ok c).
Proof.
  rewrite components_pieces. pose proof (pieces_spec p) as Hp. unfold comp_prefix.
  destruct (is_absolute p); [right; exists RootDir, (pieces p); auto|].
  assert (pieces p = [] ∨ ∃ c cs, pieces p = c :: cs ∧ Forall (λ d, d = ParentDir ∨ normal_ok d) cs ∧
    (c = RootDir ∨ c = CurDir ∨ c = ParentDir ∨ normal_ok c)) as H.
  { destruct (pieces p) as [|c cs]; [by left|right]. apply Forall_cons in Hp as [Hc Hcs].
    exists c, cs. split_and!; [done|done|tauto]. }
  destruct (split slash p) as [|q qs]; [done|]. case_decide; [|done]. right. exists CurDir, (pieces p). auto.
Qed.

Lemma parent_components p q : parent p = Some q → components q = removelast (components p).
Proof.
  unfold parent. destruct (last (components p)) as [l|] eqn:El; [|done].
  destruct (components_shape p) as [E|(c & cs & E & Hcs & Hc)]; [by rewrite E in El|].
  rewrite E in *. intros Hq. assert (q = of_components (removelast (c :: cs))) as -> by (destruct l; congruence).
  destruct cs as [|d cs _] using rev_ind; [done|].
  change (c :: cs ++ [d]) with ((c :: cs) ++ [d]). rewrite removelast_last.
  apply Forall_app in Hcs as [Hcs _]. by apply components_rebuilt.
Qed.

Lemma removelast_prefix {A} (l : list A) : removelast l `prefix_of` l.
Proof. destruct l as [|x l _] using rev_ind; [done|]. rewrite removelast_last. by apply prefix_app_r. Qed.

(** The directories a path lies in. *)
Lemma ancestors_above p k : k ∈ ancestors p → components k `prefix_of` components p.
Proof.
  unfold ancestors. generalize (length (components p)). intros n. revert p.
  induction n as [|n IH]; intros p; cbn [ancestors_fuel]; [by intros ->%list_elem_of_singleton|].
  intros [->|Hk]%elem_of_cons; [done|]. destruct (parent p) as [q|] eqn:E; [|by apply elem_of_nil in Hk].
  apply parent_components in E. etransitivity; [by apply IH|]. rewrite E. apply removelast_prefix.
Qed.
