(* ===== verification/PathRule.v ===== *)
(** * Path-valued rules ([crates/permissions/src/path_rule.rs])

    The path a tool call names and a rule's pattern are brought to the same
    shape - absolute, normalized, home expanded - before they are compared. *)

From stdpp Require Import base option numbers strings list.
From S2P Require Import Prelude RustStr PermTypes Path.

Record ResolvedPath := {
  primary : str;
  aliases : list str;
}.

(** [ResolvedPath::all]. *)
Definition all_paths (r : ResolvedPath) : list str := primary r :: aliases r.

Definition glob_chars : list char := [ch "*"; ch "?"; ch "["].

Definition has_glob (s : str) : bool := existsb (λ c, bool_decide (c ∈ glob_chars)) s.

Definition starts_with_glob (s : str) : bool :=
  match s with c :: _ => bool_decide (c ∈ glob_chars) | [] => false end.

Definition absolutize (p cwd : str) : str :=
  if is_absolute p then normalize p else normalize (path_join cwd p).

(** Whether a pattern reaches less under gitignore-style [*]: it has path
    segments and a [*] that is not part of [**]. *)
Definition star_meaning_changed (pattern : str) : bool :=
  contains_char slash pattern &&
  existsb (λ '(i, b),
    bool_decide (b = ch "*") &&
    negb (bool_decide (pattern !! S i = Some (ch "*"))) &&
    (bool_decide (i = 0) || negb (bool_decide (pattern !! (i - 1) = Some (ch "*")))))
  (enumerate pattern).

Section PathRule.
Context {GS : Globset} {HE : HostEnv}.

Definition home_dir : option str :=
  match match env_HOME with Some h => Some h | None => env_USERPROFILE end with
  | Some h => if decide (h = []) then None else Some h
  | None => None
  end.

Definition expand_home (raw : str) : option str :=
  match (if decide (raw = lit "~") then Some [] else strip_prefix "~/" raw) with
  | None => None
  | Some rest =>
      match home_dir with
      | None => None
      | Some h => Some (path_join h rest)
      end
  end.

(** [ResolvedPath::new]. *)
Definition resolve_path (raw cwd : str) : ResolvedPath :=
  let primary := absolutize raw cwd in
  {| primary := primary;
     aliases :=
       match expand_home raw with Some e => [normalize e] | None => [] end ++
       match canonicalize primary with
       | Some real => if path_eqb real primary then [] else [real]
       | None => []
       end |}.

Definition resolve_pattern (pattern cwd : str) : str :=
  match expand_home pattern with
  | Some expanded => normalize expanded
  | None =>
      if starts_with_glob pattern then
        if contains_char slash pattern then pattern else lit "**/" ++ pattern
      else absolutize pattern cwd
  end.

Definition path_matches (pattern path : str) : bool :=
  if has_glob pattern then
    match glob_new true pattern with Some is_match => is_match path | None => false end
  else path_starts_with path pattern.

(** ** Absolute forms *)

(** The components a path has once it is joined onto [cwd]. *)
Definition absolute_comps (p cwd : str) : list Component :=
  if is_absolute p then components p else components cwd ++ components p.

Lemma absolutize_components p cwd : cwd ≠ [] →
  components (absolutize p cwd) = norm_comps (absolute_comps p cwd).
Proof.
  intros Hc. unfold absolutize, absolute_comps.
  destruct (is_absolute p) eqn:E; rewrite components_normalize; [done|].
  by apply norm_comps_push.
Qed.

Lemma absolutize_clean p cwd : clean_comps (components (absolutize p cwd)).
Proof. unfold absolutize. case_match; auto with atta. Qed.

Lemma has_glob_false s : has_glob s = false ↔ ∀ c, c ∈ s → c ∉ glob_chars.
Proof.
  unfold has_glob. rewrite existsb_false_elem_of. by setoid_rewrite bool_decide_eq_false.
Qed.

Lemma absolutize_no_glob p cwd : has_glob p = false → has_glob cwd = false →
  has_glob (absolutize p cwd) = false.
Proof.
  rewrite !has_glob_false. intros Hp Hc c Hin.
  assert (slash ∉ glob_chars) by by_compute.
  unfold absolutize, path_join, push in Hin.
  destruct (is_absolute p); apply normalize_chars in Hin as [->|Hin]; auto.
  rewrite !elem_of_app in Hin. destruct Hin as [?|[Hin|?]]; auto.
  destruct (last cwd); [case_decide|]; [|apply list_elem_of_singleton in Hin as ->; done|];
    by apply not_elem_of_nil in Hin.
Qed.

Lemma no_glob_start p : has_glob p = false → starts_with_glob p = false.
Proof.
  destruct p as [|c p]; [done|]. rewrite has_glob_false. intros H.
  apply bool_decide_eq_false_2, H. left.
Qed.

(** A pattern without glob characters and without a [~]: a plain path. *)
Definition literal_pattern (pattern : str) : Prop :=
  has_glob pattern = false ∧ starts_with "~" pattern = false.

Lemma expand_home_no_tilde raw : starts_with "~" raw = false → expand_home raw = None.
Proof.
  intros H. unfold expand_home. rewrite decide_False by (by intros ->).
  destruct (strip_prefix "~/" raw) eqn:E; [|done]. apply strip_prefix_Some in E as ->.
  change (lit "~/" ++ s) with (lit "~" ++ lit "/" ++ s) in H.
  by rewrite starts_with_app in H.
Qed.

(** A literal pattern is matched by components, below its absolute form. *)
Lemma literal_pattern_matches pattern cwd p :
  literal_pattern pattern → has_glob cwd = false → cwd ≠ [] →
  path_matches (resolve_pattern pattern cwd) p = true ↔
  norm_comps (absolute_comps pattern cwd) `prefix_of` components p.
Proof.
  intros [Hg Ht] Hc Hne. unfold resolve_pattern, path_matches.
  rewrite expand_home_no_tilde, no_glob_start, absolutize_no_glob by done.
  unfold path_starts_with. rewrite bool_decide_eq_true.
  by rewrite absolutize_components.
Qed.

(** A rule that names a plain file or directory covers a tool's path
    exactly when the pattern's absolute, dot-free components are a prefix
    of the path's, for every way either of them is spelled ([x], [./x],
    [d/../x], [//x], absolute or relative): no spelling of a path escapes a
    rule on it.  The working directory must be free of glob characters,
    which [resolve_pattern] would otherwise hand to the glob engine. *)
Theorem literal_rule_covers_every_spelling pattern raw cwd :
  literal_pattern pattern → has_glob cwd = false → cwd ≠ [] →
  path_matches (resolve_pattern pattern cwd) (primary (resolve_path raw cwd)) = true ↔
  norm_comps (absolute_comps pattern cwd) `prefix_of` norm_comps (absolute_comps raw cwd).
Proof.
  intros Hp Hc Hne. rewrite literal_pattern_matches by done. simpl.
  by rewrite absolutize_components.
Qed.
End PathRule.

Lemma literal_rule_covers_every_spelling_witness :
  path_matches (GS := no_globset) (resolve_pattern (HE := plain_host) ".env" "/proj")
    (primary (resolve_path (HE := plain_host) "src/.././/.env" "/proj")) = true.
Proof.
  apply literal_rule_covers_every_spelling; [split; reflexivity|reflexivity|done|].
  vm_compute. by exists [].
Defined.
