(* ===== verification/Shell.v ===== *)
(** * Shell command lines ([crates/permissions/src/shell.rs])

    The scanner that splits a command line into the simple commands it runs.
    The code walks a character array with an index; the model walks the
    remaining text, so every [(inner, close, rest)] below is the text up to a
    closing character, that character (empty when it is missing), and what
    follows it. *)

From stdpp Require Import base option numbers strings list.
From S2P Require Import Prelude RustStr.

Definition c_bslash : char := ch "\".
Definition c_squote : char := ch "'".
Definition c_dquote : char := 34%N.
Definition c_btick : char := ch "`".
Definition c_nl : char := 10%N.
Definition c_open : char := ch "(".
Definition c_close : char := ch ")".

(** ** Words *)

(** Where the word scanner is: between quotes or outside. *)
Inductive quoting := Outside | InSingle | InDouble.

(** The loop of [words]: the word built so far, whether one is open. *)
Fixpoint words_loop (q : quoting) (word : str) (in_word : bool) (s : str) : list str :=
  match s with
  | [] => if in_word then [word] else []
  | c :: s' =>
      match q with
      | Outside =>
          if decide (c = c_squote) then words_loop InSingle word true s'
          else if decide (c = c_dquote) then words_loop InDouble word true s'
          else if decide (c = c_bslash) then
            match s' with
            | n :: s'' => words_loop Outside (word ++ [n]) true s''
            | [] => [word]
            end
          else if is_whitespace c then
            if in_word then word :: words_loop Outside [] false s'
            else words_loop Outside word false s'
          else words_loop Outside (word ++ [c]) true s'
      | InSingle =>
          if decide (c = c_squote) then words_loop Outside word in_word s'
          else words_loop InSingle (word ++ [c]) in_word s'
      | InDouble =>
          if decide (c = c_dquote) then words_loop Outside word in_word s'
          else if decide (c = c_bslash) then
            match s' with
            | n :: s'' => words_loop InDouble (word ++ [n]) in_word s''
            | [] => if in_word then [word] else []
            end
          else words_loop InDouble (word ++ [c]) in_word s'
      end
  end.

Definition words (command : str) : list str := words_loop Outside [] false command.

(** ** Finding closing characters *)

Definition find_char (t : char) (s : str) : str * str * str :=
  match split_once t s with
  | Some (inner, rest) => (inner, [t], rest)
  | None => (s, [], [])
  end.

Fixpoint find_unescaped (t : char) (s : str) : str * str * str :=
  match s with
  | [] => ([], [], [])
  | c :: s' =>
      if decide (c = c_bslash) then
        match s' with
        | [] => ([c], [], [])
        | d :: s'' => let '(i, cl, r) := find_unescaped t s'' in (c :: d :: i, cl, r)
        end
      else if decide (c = t) then ([], [c], s')
      else let '(i, cl, r) := find_unescaped t s' in (c :: i, cl, r)
  end.

(** The group whose body starts here; [depth] parentheses are open.  Every
    step consumes a character, so the length of the text is enough fuel. *)
Fixpoint find_close_paren (fuel : nat) (depth : nat) (s : str) : str * str * str :=
  match fuel with
  | O => (s, [], [])
  | S fuel =>
      match s with
      | [] => ([], [], [])
      | c :: s' =>
          if decide (c = c_bslash) then
            match s' with
            | [] => ([c], [], [])
            | d :: s'' =>
                let '(i, cl, r) := find_close_paren fuel depth s'' in (c :: d :: i, cl, r)
            end
          else if decide (c = c_squote) then
            let '(q, qc, s'') := find_char c_squote s' in
            let '(i, cl, r) := find_close_paren fuel depth s'' in (c :: q ++ qc ++ i, cl, r)
          else if decide (c = c_dquote) then
            let '(q, qc, s'') := find_unescaped c_dquote s' in
            let '(i, cl, r) := find_close_paren fuel depth s'' in (c :: q ++ qc ++ i, cl, r)
          else if decide (c = c_open) then
            let '(i, cl, r) := find_close_paren fuel (S depth) s' in (c :: i, cl, r)
          else if decide (c = c_close) then
            match depth with
            | S (S _ as d) =>
                let '(i, cl, r) := find_close_paren fuel d s' in (c :: i, cl, r)
            | _ => ([], [c], s')
            end
          else let '(i, cl, r) := find_close_paren fuel depth s' in (c :: i, cl, r)
      end
  end.

(** ** One simple command *)

Definition PREFIX_KEYWORDS : list str :=
  [lit "if"; lit "then"; lit "else"; lit "elif"; lit "do"; lit "while"; lit "until"; lit "!"].
Definition WRAPPERS : list str :=
  [lit "time"; lit "nohup"; lit "command"; lit "builtin"; lit "exec"; lit "env"].
Definition TRAILING_KEYWORDS : list str := [lit "fi"; lit "done"; lit "esac"].

(** The first word as source text, and what follows it: the split at
    [first_word_end]. *)
Fixpoint first_word (q : quoting) (s : str) : str * str :=
  match s with
  | [] => ([], [])
  | c :: s' =>
      match q with
      | Outside =>
          if decide (c = c_squote) then
            let '(w, r) := first_word InSingle s' in (c :: w, r)
          else if decide (c = c_dquote) then
            let '(w, r) := first_word InDouble s' in (c :: w, r)
          else if decide (c = c_bslash) then
            match s' with
            | d :: s'' => let '(w, r) := first_word Outside s'' in (c :: d :: w, r)
            | [] => ([c], [])
            end
          else if is_ascii_whitespace c then ([], s)
          else let '(w, r) := first_word Outside s' in (c :: w, r)
      | InSingle =>
          let '(w, r) := first_word (if decide (c = c_squote) then Outside else InSingle) s' in
          (c :: w, r)
      | InDouble =>
          if decide (c = c_dquote) then
            let '(w, r) := first_word Outside s' in (c :: w, r)
          else if decide (c = c_bslash) then
            match s' with
            | d :: s'' => let '(w, r) := first_word InDouble s'' in (c :: d :: w, r)
            | [] => ([c], [])
            end
          else let '(w, r) := first_word InDouble s' in (c :: w, r)
      end
  end.

Definition is_name_start (c : char) : bool := is_ascii_alphabetic c || bool_decide (c = ch "_").
Definition is_name_char (c : char) : bool := is_ascii_alphanumeric c || bool_decide (c = ch "_").

Definition is_assignment (word : str) : bool :=
  match split_once (ch "=") word with
  | None => false
  | Some (name, _) =>
      match name with
      | [] => false
      | c :: cs => is_name_start c && forallb is_name_char cs
      end
  end.

(** The first loop of [push_command]: grouping brackets, keywords,
    assignments and wrappers are stripped; each round consumes a word. *)
Fixpoint strip_leading (fuel : nat) (rest : str) (wrapper : option str) : str * option str :=
  let rest := trim_start (trim_start_matches [c_open; ch "{"] rest) in
  match fuel with
  | O => (rest, wrapper)
  | S fuel =>
      let '(first, tl) := first_word Outside rest in
      if decide (first = []) then (rest, wrapper)
      else if decide (first ∈ WRAPPERS) then strip_leading fuel (trim_start tl) (Some first)
      else if decide (first ∈ PREFIX_KEYWORDS) then strip_leading fuel (trim_start tl) wrapper
      else if is_assignment first then strip_leading fuel (trim_start tl) wrapper
      else (rest, wrapper)
  end.

(** The second loop, on the reversed text: closing brackets and white space. *)
Fixpoint strip_trailing_rev (s : str) : str :=
  match s with
  | [] => []
  | c :: s' =>
      if is_whitespace c then strip_trailing_rev s'
      else if decide (c = c_close) then strip_trailing_rev s'
      else if decide (c = ch "}") then strip_trailing_rev s'
      else s
  end.

Definition strip_trailing (s : str) : str := reverse (strip_trailing_rev (reverse s)).

Definition push_command (raw : str) (out : list str) : list str :=
  let '(rest, wrapper) := strip_leading (length raw) (trim raw) None in
  let rest := strip_trailing rest in
  if decide (rest ∈ TRAILING_KEYWORDS) then out
  else if decide (rest = []) then
    match wrapper with Some w => out ++ [w] | None => out end
  else out ++ [rest].

(** ** The scanner *)

Definition ends_in_whitespace (s : str) : bool :=
  match last s with Some c => is_whitespace c | None => false end.

(** [current.trim_end().ends_with(['>', '<'])]. *)
Definition ends_in_redirect (s : str) : bool :=
  match last (trim_end s) with
  | Some c => bool_decide (c = ch ">") || bool_decide (c = ch "<")
  | None => false
  end.

(** [split_into] (from a given [current]) and [scan_double_quoted].  Every
    call is on a shorter text; [fuel] above the length of the text is
    enough ([split_loop_fuel]). *)
Fixpoint split_loop (fuel : nat) (s current : str) (out : list str) : list str :=
  match fuel with
  | O => out
  | S fuel =>
      match s with
      | [] => push_command current out
      | c :: s' =>
          if decide (c = c_bslash) then
            match s' with
            | d :: s'' => split_loop fuel s'' (current ++ [c; d]) out
            | [] => split_loop fuel [] (current ++ [c]) out
            end
          else if decide (c = c_squote) then
            let '(i, cl, r) := find_char c_squote s' in
            split_loop fuel r (current ++ c :: i ++ cl) out
          else if decide (c = c_dquote) then
            let '(i, cl, r, out) := scan_double_quoted fuel s' out in
            split_loop fuel r (current ++ c :: i ++ cl) out
          else if decide (c = c_btick) then
            let '(i, cl, r) := find_unescaped c_btick s' in
            split_loop fuel r (current ++ c :: i ++ cl) (split_loop fuel i [] out)
          else if decide (c ∈ [ch "$"; ch "<"; ch ">"] ∧ head s' = Some c_open) then
            let '(i, cl, r) := find_close_paren (length s') 1 (tail s') in
            split_loop fuel r (current ++ c :: c_open :: i ++ cl) (split_loop fuel i [] out)
          else if decide (c = ch "#" ∧ (current = [] ∨ ends_in_whitespace current = true)) then
            split_loop fuel (drop_while (λ d, negb (bool_decide (d = c_nl))) s) current out
          else if decide (c ∈ [ch ";"; c_nl; ch "|"]) then
            split_loop fuel s' [] (push_command current out)
          else if decide (c = ch "&") then
            if ends_in_redirect current || bool_decide (head s' = Some (ch ">"))
            then split_loop fuel s' (current ++ [c]) out
            else split_loop fuel s' [] (push_command current out)
          else split_loop fuel s' (current ++ [c]) out
      end
  end
with scan_double_quoted (fuel : nat) (s : str) (out : list str)
    : str * str * str * list str :=
  match fuel with
  | O => (s, [], [], out)
  | S fuel =>
      match s with
      | [] => ([], [], [], out)
      | c :: s' =>
          if decide (c = c_dquote) then ([], [c], s', out)
          else if decide (c = c_bslash) then
            match s' with
            | d :: s'' =>
                let '(i, cl, r, out) := scan_double_quoted fuel s'' out in
                (c :: d :: i, cl, r, out)
            | [] => ([c], [], [], out)
            end
          else if decide (c = c_btick) then
            let '(j, jc, s'') := find_unescaped c_btick s' in
            let '(i, cl, r, out) := scan_double_quoted fuel s'' (split_loop fuel j [] out) in
            (c :: j ++ jc ++ i, cl, r, out)
          else if decide (c = ch "$" ∧ head s' = Some c_open) then
            let '(j, jc, s'') := find_close_paren (length s') 1 (tail s') in
            let '(i, cl, r, out) := scan_double_quoted fuel s'' (split_loop fuel j [] out) in
            (c :: c_open :: j ++ jc ++ i, cl, r, out)
          else
            let '(i, cl, r, out) := scan_double_quoted fuel s' out in
            (c :: i, cl, r, out)
      end
  end.

Definition split_into (src : str) (out : list str) : list str :=
  split_loop (S (length src)) src [] out.

Definition simple_commands (line : str) : list str := split_into line [].

(** ** Lengths *)

(** Name the components of every tuple that is taken apart. *)
Ltac split_lets :=
  repeat match goal with
  | |- context [match ?e with pair _ _ => _ end] => destruct e eqn:?
  | H : context [match ?e with pair _ _ => _ end] |- _ => destruct e eqn:?
  end.

(** The closing-character searches cut the text and lose nothing. *)
Lemma find_char_text t s i cl r : find_char t s = (i, cl, r) → s = i ++ cl ++ r.
Proof.
  unfold find_char. destruct (split_once t s) as [[l r']|] eqn:E; intros [= <- <- <-].
  - by apply split_once_Some in E as [-> _].
  - by rewrite !app_nil_r.
Qed.

(** Strong induction on the length of a text. *)
Lemma str_length_ind (P : str → Prop) :
  (∀ s, (∀ s', length s' < length s → P s') → P s) → ∀ s, P s.
Proof. apply (well_founded_induction (well_founded_ltof _ length)). Qed.

Lemma find_unescaped_text t s : ∀ i cl r,
  find_unescaped t s = (i, cl, r) → s = i ++ cl ++ r.
Proof.
  induction s as [s IH] using str_length_ind. intros i cl r.
  destruct s as [|c s]; simpl; [by intros [= <- <- <-]|].
  case_decide; [destruct s as [|d s]|case_decide];
    try (intros [= <- <- <-]; done); split_lets; intros [= <- <- <-];
    match goal with H : find_unescaped _ ?s = _ |- _ => apply IH in H end;
    simpl in *; try lia; congruence.
Qed.

Lemma find_close_paren_text n : ∀ d s i cl r,
  find_close_paren n d s = (i, cl, r) → s = i ++ cl ++ r.
Proof.
  induction n as [|n IH]; intros d s i cl r; simpl; [by intros [= <- <- <-]; rewrite app_nil_r|].
  destruct s as [|c s]; [by intros [= <- <- <-]|].
  repeat (case_decide || case_match); split_lets; intros; simplify_eq;
    repeat match goal with
    | H : find_close_paren _ _ _ = _ |- _ => apply IH in H
    | H : find_char _ _ = _ |- _ => apply find_char_text in H
    | H : find_unescaped _ _ = _ |- _ => apply find_unescaped_text in H
    end; simplify_eq; simpl; rewrite <-?app_assoc; done.
Qed.

Lemma scan_double_quoted_text n : ∀ s out i cl r out',
  scan_double_quoted n s out = (i, cl, r, out') → s = i ++ cl ++ r.
Proof.
  induction n as [|n IH]; intros s out i cl r out'; simpl;
    [by intros [= <- <- <- <-]; rewrite app_nil_r|].
  destruct s as [|c s]; [by intros [= <- <- <- <-]|].
  case_decide; [by intros [= <- <- <- <-]|].
  case_decide; [destruct s as [|d s]; [by intros [= <- <- <- <-]|]|case_decide; [|case_decide as Hd]];
    split_lets; intros; simplify_eq;
    repeat match goal with
    | H : scan_double_quoted _ _ _ = _ |- _ => apply IH in H
    | H : find_unescaped _ _ = _ |- _ => apply find_unescaped_text in H
    | H : find_close_paren _ _ _ = _ |- _ => apply find_close_paren_text in H
    end; simplify_eq; simpl; rewrite <-?app_assoc; try done.
  destruct Hd as [-> Hd]. destruct s as [|x s]; simplify_eq/=. by rewrite <-?app_assoc.
Qed.

(** Turn every successful search in the context into a bound on lengths. *)
Ltac text_lengths :=
  repeat match goal with
  | H : find_char _ _ = _ |- _ => apply find_char_text, (f_equal length) in H
  | H : find_unescaped _ _ = _ |- _ => apply find_unescaped_text, (f_equal length) in H
  | H : find_close_paren _ _ _ = _ |- _ => apply find_close_paren_text, (f_equal length) in H
  | H : scan_double_quoted _ _ _ = _ |- _ => apply scan_double_quoted_text, (f_equal length) in H
  end; rewrite ?length_app, ?length_cons in *.

Lemma length_tail {A} (l : list A) : length (tail l) ≤ length l.
Proof. destruct l; simpl; lia. Qed.

Lemma drop_comment_length s :
  length (drop_while (λ d, negb (bool_decide (d = c_nl))) s) ≤ length s.
Proof.
  destruct (drop_while_suffix (λ d, negb (bool_decide (d = c_nl))) s) as (l & E & _).
  rewrite E at 2. rewrite length_app. lia.
Qed.

Lemma split_scan_fuel n : ∀ m,
  (∀ s cur out, length s < n → length s < m →
     split_loop n s cur out = split_loop m s cur out) ∧
  (∀ s out, length s < n → length s < m →
     scan_double_quoted n s out = scan_double_quoted m s out).
Proof.
  induction n as [|n IH]; intros m; [split; intros; lia|].
  destruct m as [|m]; [split; intros; lia|].
  destruct (IH m) as [IHl IHs]. split.
  - intros [|c s] cur out Hn Hm; [done|]. simpl in Hn, Hm. cbn [split_loop].
    pose proof (length_tail s).
    case_decide; [destruct s; simpl in *; apply IHl; simpl; lia|].
    case_decide; [split_lets; text_lengths; apply IHl; lia|].
    case_decide; [rewrite IHs by lia; split_lets; text_lengths; apply IHl; lia|].
    case_decide; [split_lets; text_lengths; rewrite (IHl _ [] out) by lia; apply IHl; lia|].
    case_decide; [split_lets; text_lengths; rewrite (IHl _ [] out) by lia; apply IHl; lia|].
    case_decide as Hc.
    { destruct Hc as [-> _]. simpl. pose proof (drop_comment_length s). apply IHl; lia. }
    case_decide; [apply IHl; lia|].
    case_decide; [case_match; apply IHl; lia|]. apply IHl; lia.
  - intros [|c s] out Hn Hm; [done|]. simpl in Hn, Hm. cbn [scan_double_quoted].
    pose proof (length_tail s).
    case_decide; [done|].
    case_decide; [destruct s; [done|]; simpl in *; rewrite IHs by lia; done|].
    case_decide.
    { destruct (find_unescaped c_btick s) as [[j jc] s''] eqn:E. text_lengths.
      by rewrite (IHl j [] out), (IHs s'') by lia. }
    case_decide.
    { destruct (find_close_paren (length s) 1 (tail s)) as [[j jc] s''] eqn:E. text_lengths.
      by rewrite (IHl j [] out), (IHs s'') by lia. }
    by rewrite IHs by lia.
Qed.

Lemma split_loop_fuel n s cur out : length s < n →
  split_loop n s cur out = split_loop (S (length s)) s cur out.
Proof. intros. apply split_scan_fuel; lia. Qed.

(** ** Output is only appended *)

Lemma push_command_app raw out : push_command raw out = out ++ push_command raw [].
Proof.
  unfold push_command. destruct (strip_leading _ _ _) as [rest w].
  repeat case_decide; try case_match; by rewrite ?app_nil_r.
Qed.

Lemma push_command_nil out : push_command [] out = out.
Proof. reflexivity. Qed.

Lemma split_scan_app n :
  (∀ s cur out, split_loop n s cur out = out ++ split_loop n s cur []) ∧
  (∀ s out, scan_double_quoted n s out =
     let '(i, cl, r, o) := scan_double_quoted n s [] in (i, cl, r, out ++ o)).
Proof.
  induction n as [|n [IHl IHs]].
  { split; intros; simpl; by rewrite app_nil_r. }
  split.
  - intros [|c s] cur out; cbn [split_loop]; [apply push_command_app|].
    case_decide; [destruct s; apply IHl|].
    case_decide; [split_lets; apply IHl|].
    case_decide.
    { rewrite IHs. destruct (scan_double_quoted n s []) as [[[i cl] r] o].
      by rewrite IHl, (IHl _ _ o), app_assoc. }
    case_decide.
    { split_lets. rewrite (IHl _ [] out), IHl, (IHl _ _ (split_loop n _ [] [])). by rewrite app_assoc. }
    case_decide.
    { split_lets. rewrite (IHl _ [] out), IHl, (IHl _ _ (split_loop n _ [] [])). by rewrite app_assoc. }
    case_decide; [apply IHl|].
    case_decide.
    { by rewrite push_command_app, IHl, (IHl _ _ (push_command cur [])), app_assoc. }
    case_decide; [case_match; [apply IHl|]|apply IHl].
    by rewrite push_command_app, IHl, (IHl _ _ (push_command cur [])), app_assoc.
  - intros [|c s] out; cbn [scan_double_quoted]; [by rewrite app_nil_r|].
    case_decide; [by rewrite app_nil_r|].
    case_decide.
    { destruct s as [|d s]; [by rewrite app_nil_r|]. rewrite IHs.
      by destruct (scan_double_quoted n s []) as [[[? ?] ?] ?]. }
    case_decide.
    { destruct (find_unescaped c_btick s) as [[j jc] s'']. rewrite (IHl _ _ out), IHs.
      rewrite (IHs s'' (split_loop n j [] [])).
      destruct (scan_double_quoted n s'' []) as [[[? ?] ?] ?]. by rewrite <-!app_assoc. }
    case_decide.
    { destruct (find_close_paren (length s) 1 (tail s)) as [[j jc] s''].
      rewrite (IHl _ _ out), IHs. rewrite (IHs s'' (split_loop n j [] [])).
      destruct (scan_double_quoted n s'' []) as [[[? ?] ?] ?]. by rewrite <-!app_assoc. }
    rewrite IHs. by destruct (scan_double_quoted n s []) as [[[? ?] ?] ?].
Qed.

Lemma split_loop_app n s cur out : split_loop n s cur out = out ++ split_loop n s cur [].
Proof. apply split_scan_app. Qed.

(** ** Plain text *)

(** The characters the scanner reacts to. *)
Definition special_chars : list char :=
  [c_bslash; c_squote; c_dquote; c_btick; ch "$"; ch "<"; ch ">"; ch "#"; ch ";"; c_nl; ch "|"; ch "&"].

Definition plain (s : str) : Prop := Forall (λ c, c ∉ special_chars) s.

(** Plain text is collected into the current command. *)
Lemma split_loop_plain a : plain a → ∀ n s cur out, length (a ++ s) < n →
  split_loop n (a ++ s) cur out = split_loop (S (length s)) s (cur ++ a) out.
Proof.
  induction 1 as [|c a Hc _ IH]; intros n s cur out Hn.
  - rewrite app_nil_r. by apply split_loop_fuel.
  - destruct n as [|n]; [simpl in Hn; lia|]. cbn [split_loop app].
    unfold special_chars in Hc. rewrite !not_elem_of_cons in Hc.
    destruct Hc as (?&?&?&?&?&?&?&?&?&?&?&?&_).
    rewrite 4!decide_False by done.
    rewrite decide_False by (rewrite !elem_of_cons, elem_of_nil; intuition congruence).
    rewrite decide_False by intuition congruence.
    rewrite decide_False by (rewrite !elem_of_cons, elem_of_nil; intuition congruence).
    rewrite decide_False by done.
    rewrite IH by (simpl in Hn; lia). by rewrite <-app_assoc.
Qed.

Lemma simple_commands_plain a : plain a → simple_commands a = push_command a [].
Proof.
  intros Ha. unfold simple_commands, split_into.
  rewrite <-(app_nil_r a) at 2. rewrite split_loop_plain by (done || rewrite app_nil_r; lia).
  done.
Qed.

Definition separators : list str :=
  [[ch ";"]; [c_nl]; [ch "|"]; [ch "|"; ch "|"]; [ch "&"; ch "&"]; [ch "&"]].

Lemma plain_no_redirect a : plain a → ends_in_redirect a = false.
Proof.
  intros Ha. unfold ends_in_redirect. destruct (last (trim_end a)) as [c|] eqn:E; [|done].
  assert (c ∈ a) as Hc.
  { destruct (trim_end_prefix a) as (l & -> & _). apply elem_of_app. left.
    by apply last_Some_elem_of. }
  eapply Forall_forall in Ha; [|exact Hc].
  rewrite !bool_decide_eq_false_2; [done|..]; intros ->; apply Ha;
    by_compute.
Qed.

(** One round of the scanner on a character that ends a command. *)
Lemma split_loop_break n c s cur out : c ∈ [ch ";"; c_nl; ch "|"] →
  split_loop (S n) (c :: s) cur out = split_loop n s [] (push_command cur out).
Proof. rewrite !elem_of_cons, elem_of_nil. by intros [->|[->|[->|[]]]]. Qed.

Lemma split_loop_amp n s cur out :
  ends_in_redirect cur = false → head s ≠ Some (ch ">") →
  split_loop (S n) (ch "&" :: s) cur out = split_loop n s [] (push_command cur out).
Proof.
  intros H1 H2. cbn [split_loop]. do 4 rewrite decide_False by done.
  rewrite decide_False by (intros [Hc _]; revert Hc; by_compute).
  rewrite decide_False by (by intros [? _]).
  rewrite decide_False by by_compute.
  rewrite decide_True by done. by rewrite H1, bool_decide_eq_false_2.
Qed.

Lemma split_loop_separator sep b cur : sep ∈ separators →
  ends_in_redirect cur = false → head b ≠ Some (ch ">") →
  split_loop (S (length (sep ++ b))) (sep ++ b) cur [] =
  push_command cur [] ++ simple_commands b.
Proof.
  intros Hsep Hr Hb. unfold simple_commands, split_into. rewrite <-split_loop_app.
  unfold separators in Hsep. rewrite !elem_of_cons, elem_of_nil in Hsep.
  destruct Hsep as [->|[->|[->|[->|[->|[->|[]]]]]]]; cbn [app length].
  all: first [rewrite split_loop_amp by done | rewrite split_loop_break by by_compute];
    first [reflexivity
          | first [rewrite split_loop_amp by done | rewrite split_loop_break by by_compute];
            by rewrite push_command_nil].
Qed.

(** Separators separate: the commands of [a sep b], for plain text [a],
    any separator of the shell ([;], newline, [|], [||], [&&], [&]) and any
    text [b] whatsoever, are those of [a] followed by those of [b] - so
    nothing written before or after a separator hides a command from the
    rules.  ([& >] is a redirection to the scanner, hence the side condition.) *)
Theorem separators_separate a sep b :
  plain a → sep ∈ separators → head b ≠ Some (ch ">") →
  simple_commands (a ++ sep ++ b) = simple_commands a ++ simple_commands b.
Proof.
  intros Ha Hsep Hb. unfold simple_commands at 1, split_into.
  rewrite split_loop_plain by (done || lia). rewrite app_nil_l.
  rewrite split_loop_separator by (done || by apply plain_no_redirect).
  by rewrite (simple_commands_plain a).
Qed.

Lemma separators_separate_witness :
  simple_commands (lit "cd . " ++ lit "&&" ++ lit " echo 'a; b' | sh") =
  simple_commands "cd . " ++ simple_commands " echo 'a; b' | sh".
Proof.
  apply separators_separate; [|by_compute|done].
  by_compute.
Defined.

(** ** Substitutions *)

(** Text in which a group or a backtick substitution is closed by the first
    closing character. *)
Definition bare (s : str) : Prop :=
  Forall (λ c, c ∉ [c_bslash; c_squote; c_dquote; c_btick; c_open; c_close]) s.

Lemma find_close_bare s : bare s → ∀ n b, length s < n →
  find_close_paren n 1 (s ++ c_close :: b) = (s, [c_close], b).
Proof.
  induction 1 as [|c s Hc _ IH]; intros [|n] b Hn; simpl in Hn; try lia; [done|].
  rewrite !not_elem_of_cons in Hc. destruct Hc as (?&?&?&?&?&?&_).
  cbn [find_close_paren app]. rewrite !decide_False by done. by rewrite IH by lia.
Qed.

Lemma find_unescaped_bare t s b : bare s → t ∈ [c_dquote; c_btick] →
  find_unescaped t (s ++ t :: b) = (s, [t], b).
Proof.
  intros Hs Ht. induction Hs as [|c s Hc _ IH]; simpl.
  - rewrite !elem_of_cons, elem_of_nil in Ht.
    rewrite decide_False by (destruct Ht as [->|[->|[]]]; done). by rewrite decide_True.
  - rewrite !not_elem_of_cons in Hc. rewrite !elem_of_cons, elem_of_nil in Ht.
    rewrite !decide_False by intuition congruence. by rewrite IH.
Qed.

(** The ways to open a command substitution, with the character closing it. *)
Definition substitutions : list (str * char) :=
  [([ch "$"; c_open], c_close); ([ch "<"; c_open], c_close);
   ([ch ">"; c_open], c_close); ([c_btick], c_btick)].

(** One round of the scanner at the start of a substitution. *)
Lemma split_loop_group n c s cur out : c ∈ [ch "$"; ch "<"; ch ">"] →
  split_loop (S n) (c :: c_open :: s) cur out =
  let '(i, cl, r) := find_close_paren (S (length s)) 1 s in
  split_loop n r (cur ++ c :: c_open :: i ++ cl) (split_loop n i [] out).
Proof.
  intros Hc. cbn [split_loop].
  do 4 rewrite decide_False by (intros ->; revert Hc; by_compute).
  by rewrite decide_True.
Qed.

Lemma split_loop_btick n s cur out :
  split_loop (S n) (c_btick :: s) cur out =
  let '(i, cl, r) := find_unescaped c_btick s in
  split_loop n r (cur ++ c_btick :: i ++ cl) (split_loop n i [] out).
Proof. reflexivity. Qed.

Lemma split_loop_substitution o cl inner b cur out n : (o, cl) ∈ substitutions → bare inner →
  length (o ++ inner ++ cl :: b) < n →
  split_loop n (o ++ inner ++ cl :: b) cur out =
  split_loop (S (length b)) b (cur ++ o ++ inner ++ [cl]) (out ++ simple_commands inner).
Proof.
  intros Ho Hi Hn. unfold simple_commands, split_into. rewrite <-split_loop_app.
  rewrite !length_app in Hn. destruct n as [|n]; [lia|].
  unfold substitutions in Ho. rewrite !elem_of_cons, elem_of_nil in Ho.
  assert (∀ c, c ∈ [ch "$"; ch "<"; ch ">"] → length inner + length b < n →
    split_loop (S n) (c :: c_open :: inner ++ c_close :: b) cur out =
    split_loop (S (length b)) b (cur ++ c :: c_open :: inner ++ [c_close])
      (split_loop (S (length inner)) inner [] out)) as Hgroup.
  { intros c Hc Hlen. rewrite split_loop_group by done.
    rewrite find_close_bare by (done || rewrite length_app; simpl; lia).
    by rewrite (split_loop_fuel n inner), (split_loop_fuel n b) by lia. }
  destruct Ho as [[= -> ->]|[[= -> ->]|[[= -> ->]|[[= -> ->]|[]]]]]; simpl in Hn.
  1-3: apply Hgroup; [by_compute|lia].
  cbn [app]. rewrite split_loop_btick, find_unescaped_bare by (done || by_compute).
  by rewrite (split_loop_fuel n inner), (split_loop_fuel n b) by lia.
Qed.

Lemma scan_group n s out :
  scan_double_quoted (S n) (ch "$" :: c_open :: s) out =
  let '(j, jc, s'') := find_close_paren (S (length s)) 1 s in
  let '(i, cl, r, out) := scan_double_quoted n s'' (split_loop n j [] out) in
  (ch "$" :: c_open :: j ++ jc ++ i, cl, r, out).
Proof. reflexivity. Qed.

Lemma scan_btick n s out :
  scan_double_quoted (S n) (c_btick :: s) out =
  let '(j, jc, s'') := find_unescaped c_btick s in
  let '(i, cl, r, out) := scan_double_quoted n s'' (split_loop n j [] out) in
  (c_btick :: j ++ jc ++ i, cl, r, out).
Proof. reflexivity. Qed.

Lemma split_loop_dquote n s cur out :
  split_loop (S n) (c_dquote :: s) cur out =
  let '(i, cl, r, out) := scan_double_quoted n s out in
  split_loop n r (cur ++ c_dquote :: i ++ cl) out.
Proof. reflexivity. Qed.

Definition quoted_substitutions : list (str * char) :=
  [([ch "$"; c_open], c_close); ([c_btick], c_btick)].

Lemma scan_substitution o cl inner b out n :
  (o, cl) ∈ quoted_substitutions → bare inner → length (o ++ inner ++ cl :: b) < n →
  ∃ i qc r o', scan_double_quoted n (o ++ inner ++ cl :: b) out =
               (i, qc, r, out ++ simple_commands inner ++ o').
Proof.
  intros Ho Hi Hn. rewrite !length_app in Hn. destruct n as [|n]; [lia|].
  unfold quoted_substitutions in Ho. rewrite !elem_of_cons, elem_of_nil in Ho.
  assert (length inner < n) as Hl.
  { destruct Ho as [[= -> ->]|[[= -> ->]|[]]]; simpl in Hn; lia. }
  assert (split_loop n inner [] out = out ++ simple_commands inner) as E.
  { by rewrite split_loop_fuel, split_loop_app by done. }
  destruct Ho as [[= -> ->]|[[= -> ->]|[]]]; cbn [app].
  - rewrite scan_group, find_close_bare by (done || rewrite length_app; simpl; lia).
    rewrite E, (proj2 (split_scan_app n)).
    destruct (scan_double_quoted n b []) as [[[i qc] r] o']. rewrite <-app_assoc. eauto.
  - rewrite scan_btick, find_unescaped_bare by (done || by_compute).
    rewrite E, (proj2 (split_scan_app n)).
    destruct (scan_double_quoted n b []) as [[[i qc] r] o']. rewrite <-app_assoc. eauto.
Qed.

(** Substitutions are looked into: whatever follows, the commands inside
    [$(...)], [<(...)], [>(...)] or backticks, and inside [$(...)] or
    backticks within double quotes, are among the commands of the line. *)
Theorem substitutions_are_visited a inner b : plain a → bare inner →
  (∀ o cl, (o, cl) ∈ substitutions →
     simple_commands inner `prefix_of` simple_commands (a ++ o ++ inner ++ cl :: b)) ∧
  (∀ o cl, (o, cl) ∈ quoted_substitutions →
     simple_commands inner `prefix_of`
       simple_commands (a ++ c_dquote :: o ++ inner ++ cl :: b)).
Proof.
  intros Ha Hi. split; intros o cl Ho; unfold simple_commands at 2, split_into;
    rewrite split_loop_plain by (done || lia); rewrite app_nil_l.
  - rewrite split_loop_substitution by (done || lia). rewrite split_loop_app.
    by apply prefix_app_r.
  - rewrite split_loop_dquote.
    destruct (scan_substitution o cl inner b [] (length (c_dquote :: o ++ inner ++ cl :: b)) Ho Hi)
      as (i & qc & r & o' & E); [simpl; lia|].
    rewrite E, app_nil_l, split_loop_app, <-app_assoc. by apply prefix_app_r.
Qed.

Lemma substitutions_are_visited_witness :
  simple_commands "rm -rf build" `prefix_of`
  simple_commands (lit "echo " ++ c_dquote :: [ch "$"; c_open] ++ lit "rm -rf build" ++
                   c_close :: c_dquote :: lit " > log").
Proof. apply substitutions_are_visited; by_compute. Defined.

(** ** The shape of a command *)

Definition command_ok (c : str) : Prop :=
  c ≠ [] ∧ trimmed c ∧ (c ∉ TRAILING_KEYWORDS) ∧
  (∀ x, last c = Some x → x ≠ c_close ∧ x ≠ ch "}").

Lemma strip_trailing_rev_clean s x : head (strip_trailing_rev s) = Some x →
  is_whitespace x = false ∧ x ≠ c_close ∧ x ≠ ch "}".
Proof.
  induction s as [|c s IH]; simpl; [done|].
  destruct (is_whitespace c) eqn:E; [done|]. repeat case_decide; try done.
  by intros [= <-].
Qed.

Lemma strip_trailing_clean s x : last (strip_trailing s) = Some x →
  is_whitespace x = false ∧ x ≠ c_close ∧ x ≠ ch "}".
Proof. unfold strip_trailing. rewrite last_reverse. apply strip_trailing_rev_clean. Qed.

Lemma strip_trailing_rev_suffix s : ∃ l, s = l ++ strip_trailing_rev s.
Proof.
  induction s as [|c s [l IH]]; simpl; [by exists []|].
  destruct (is_whitespace c); [|repeat case_decide]; try (by exists []);
    exists (c :: l); simpl; congruence.
Qed.

Lemma strip_trailing_head s x : head (strip_trailing s) = Some x → head s = Some x.
Proof.
  destruct (strip_trailing_rev_suffix (reverse s)) as [l E]. unfold strip_trailing.
  apply (f_equal reverse) in E. rewrite reverse_involutive, reverse_app in E.
  rewrite E at 2. by destruct (reverse (strip_trailing_rev (reverse s))).
Qed.

Lemma clean_start_tail_free s : clean_start s → clean_start (strip_trailing s).
Proof. intros H x Hx. apply H. by apply strip_trailing_head. Qed.

Lemma strip_leading_clean n : ∀ rest w r w',
  strip_leading n rest w = (r, w') → (∀ v, w = Some v → v ∈ WRAPPERS) →
  clean_start r ∧ (∀ v, w' = Some v → v ∈ WRAPPERS).
Proof.
  induction n as [|n IH]; intros rest w r w'; cbn [strip_leading].
  - intros [= <- <-] Hw. split; [apply trim_start_clean|done].
  - destruct (first_word _ _) as [first tl].
    repeat case_decide; try case_match; intros E Hw; simplify_eq;
      try (split; [apply trim_start_clean|done]); eapply IH; eauto.
    by intros v [= <-].
Qed.

Lemma wrapper_ok w : w ∈ WRAPPERS → command_ok w.
Proof.
  unfold WRAPPERS. rewrite !elem_of_cons, elem_of_nil.
  intros [->|[->|[->|[->|[->|[->|[]]]]]]]; (split; [done|]);
    (split; [by_compute|]); (split; [by_compute|]); intros x [= <-]; split; by_compute.
Qed.

Lemma push_command_ok raw out : Forall command_ok out → Forall command_ok (push_command raw out).
Proof.
  intros Hout. unfold push_command.
  destruct (strip_leading (length raw) (trim raw) None) as [rest w] eqn:E.
  apply strip_leading_clean in E as [Hr Hw]; [|done].
  case_decide; [done|]. case_decide.
  - destruct w; [|done]. apply Forall_app_2, Forall_singleton; auto using wrapper_ok.
  - apply Forall_app_2, Forall_singleton; [done|]. split; [done|]. split; [|split; [done|]].
    + split; [by apply clean_start_tail_free|]. intros x Hx. apply strip_trailing_clean in Hx; tauto.
    + intros x Hx. apply strip_trailing_clean in Hx; tauto.
Qed.

Lemma split_scan_ok n :
  (∀ s cur out, Forall command_ok out → Forall command_ok (split_loop n s cur out)) ∧
  (∀ s out, Forall command_ok out → Forall command_ok (scan_double_quoted n s out).2).
Proof.
  induction n as [|n [IHl IHs]]; [done|]. split.
  - intros [|c s] cur out Hout; cbn [split_loop]; [by apply push_command_ok|].
    case_decide; [destruct s; auto|].
    case_decide; [split_lets; auto|].
    case_decide.
    { specialize (IHs s out Hout).
      destruct (scan_double_quoted n s out) as [[[i cl] r] o]. auto. }
    case_decide; [split_lets; auto|]. case_decide; [split_lets; auto|].
    case_decide; [auto|]. case_decide; [auto using push_command_ok|].
    case_decide; [case_match|]; auto using push_command_ok.
  - intros [|c s] out Hout; cbn [scan_double_quoted]; [done|].
    case_decide; [done|].
    case_decide.
    { destruct s as [|d s]; [done|]. specialize (IHs s out Hout). by split_lets. }
    case_decide.
    { destruct (find_unescaped c_btick s) as [[j jc] s''].
      specialize (IHs s'' _ (IHl j [] out Hout)). by split_lets. }
    case_decide.
    { destruct (find_close_paren (length s) 1 (tail s)) as [[j jc] s''].
      specialize (IHs s'' _ (IHl j [] out Hout)). by split_lets. }
    specialize (IHs s out Hout). by split_lets.
Qed.

(** The scanner always produces an answer - any fuel above the length of
    the text gives the same result - and every command it produces is
    nonempty, trimmed, not a lone closing keyword and free of trailing
    closing brackets. *)
Theorem simple_commands_total line :
  (∀ n cur out, length line < n →
     split_loop n line cur out = split_loop (S (length line)) line cur out) ∧
  Forall command_ok (simple_commands line).
Proof.
  split; [intros; by apply split_loop_fuel|]. by apply split_scan_ok.
Qed.

(** ** Commands the scanner does not see *)

Definition hidden_rm_lines : list str :=
  [lit "( (rm -rf x) )"; lit "{ { rm -rf x; }; }"; lit "echo \> & rm -rf x";
   lit "echo $'\'' ; rm -rf x #'"].

(** The scanner's promise "more segments, never fewer" has exceptions.
    Each of these lines runs [rm -rf x] in a POSIX shell or bash, and no
    segment the scanner returns begins with [rm]: a nested group after a
    blank, an escaped [>] before [&], and an ANSI-C quoted apostrophe. *)
Theorem scanner_misses_commands line : line ∈ hidden_rm_lines →
  Forall (λ c, starts_with "rm" c = false) (simple_commands line).
Proof.
  unfold hidden_rm_lines. rewrite !elem_of_cons, elem_of_nil.
  intros [->|[->|[->|[->|[]]]]]; by_compute.
Qed.

Lemma scanner_misses_commands_witness :
  Forall (λ c, starts_with "rm" c = false) (simple_commands "( (rm -rf x) )").
Proof. apply scanner_misses_commands. by_compute. Defined.

(** ** Quoting *)

(** Single quotes around a word, an apostrophe inside written [''']. *)
Definition shell_quote_body (w : str) : str :=
  w ≫= λ c, if decide (c = c_squote) then [c_squote; c_bslash; c_squote; c_squote] else [c].

Definition shell_quote (w : str) : str := c_squote :: shell_quote_body w ++ [c_squote].

Lemma words_loop_quoted w word s :
  words_loop InSingle word true (shell_quote_body w ++ c_squote :: s) =
  words_loop Outside (word ++ w) true s.
Proof.
  revert word. induction w as [|c w IH]; intros word.
  - by rewrite app_nil_r.
  - unfold shell_quote_body in *. cbn [mbind list_bind]. rewrite <-app_assoc.
    case_decide as E.
    + subst c. replace (word ++ c_squote :: w) with ((word ++ [c_squote]) ++ w)
        by (by rewrite <-app_assoc).
      by rewrite <-IH.
    + cbn [app words_loop]. rewrite decide_False by done.
      by rewrite IH, <-app_assoc.
Qed.

(** Quoting round trip: any list of words - with blanks, quotes,
    backslashes or separators in them - comes back from [words] when each is
    quoted and they are joined by a blank. *)
Theorem words_quote_roundtrip ws :
  words (join [32%N] (map shell_quote ws)) = ws.
Proof.
  unfold words. induction ws as [|w ws IH]; [done|]. cbn [map].
  assert (∀ s, words_loop Outside [] false (shell_quote w ++ s) = words_loop Outside w true s) as E.
  { intros s. unfold shell_quote. rewrite <-app_comm_cons, <-app_assoc.
    etrans; [|apply (words_loop_quoted w [] s)]. reflexivity. }
  destruct ws as [|w' ws].
  - cbn [map join]. rewrite <-(app_nil_r (shell_quote w)). by rewrite E.
  - cbn [map] in *. rewrite join_cons2, E. cbn [app words_loop].
    do 3 rewrite decide_False by done. by rewrite IH.
Qed.
