(* ===== verification/RuleSet.v ===== *)
(** * The rule engine ([crates/permissions/src/ruleset.rs])

    A rule set is the list of its rules.  A verdict looks at the behaviour of
    the rules that match and at nothing else: any deny denies, otherwise any
    ask asks, otherwise an allow allows.  Specificity and source only pick
    which rule of the winning behaviour is reported. *)

From stdpp Require Import base option numbers sets strings list.
From S2P Require Import Prelude RustStr PermTypes Path PathRule Shell.

(** [PermissionContentKind] ([core/src/interface/tool.rs]). *)
Inductive PermissionContentKind := Opaque | ReadPath | WritePath | ShellCommand.

#[export] Instance PermissionContentKind_eq_dec : EqDecision PermissionContentKind.
Proof. solve_decision. Defined.

Definition PATH_RULE_TOOLS : list str :=
  [lit "Read"; lit "Grep"; lit "Glob"; lit "Edit"; lit "Write"; lit "NotebookEdit"].

Definition path_rule_group (kind : PermissionContentKind) : option str :=
  match kind with
  | ReadPath => Some (lit "Read")
  | WritePath => Some (lit "Edit")
  | Opaque | ShellCommand => None
  end.

Definition SAFE_TOOLS : list str :=
  [lit "Read"; lit "Glob"; lit "Grep"; lit "TaskList"; lit "TaskGet"; lit "ToolSearch"].

Inductive CheckResult := CheckAllowed | CheckDeferred.

Inductive RuleHit :=
| HitAllow (r : PermissionRule)
| HitDeny (r : PermissionRule)
| HitAsk (r : PermissionRule)
| HitNone.

(** The hit, unless the other is a stronger refusal; an allow never widens. *)
Definition restricted_by (self other : RuleHit) : RuleHit :=
  match self, other with
  | HitDeny _, _ => self
  | _, HitDeny _ => other
  | HitAsk _, _ => self
  | _, HitAsk _ => other
  | _, _ => self
  end.

(** ** Editing a rule set *)

Definition RuleSet := list PermissionRule.

Definition add (rs : RuleSet) (r : PermissionRule) : RuleSet := rs ++ [r].
Definition extend (rs : RuleSet) (more : list PermissionRule) : RuleSet := rs ++ more.
Definition remove_by_source (rs : RuleSet) (src : RuleSource) : RuleSet :=
  filter (λ r, source r ≠ src) rs.

Lemma remove_by_source_app rs more src :
  remove_by_source (rs ++ more) src = remove_by_source rs src ++ remove_by_source more src.
Proof. apply filter_app. Qed.

Lemma remove_by_source_idemp rs src :
  remove_by_source (remove_by_source rs src) src = remove_by_source rs src.
Proof.
  apply list_filter_all. apply Forall_forall. by intros r [? _]%list_elem_of_filter.
Qed.

(** ** Matching *)

(** A rule may name any [__]-delimited prefix of a tool's name. *)
Definition matches_tool_name (rule actual : str) : bool :=
  if decide (rule = actual) then true
  else match strip_prefix rule actual with
       | Some rest => starts_with "__" rest
       | None => false
       end.

Definition behavior_rank (b : RuleBehavior) : Z :=
  match b with
  | BehaviorDeny => 2
  | BehaviorAsk => 1
  | BehaviorAllow => 0
  end.

(** Field order is comparison order. *)
Record MatchScore := {
  score_rank : Z;
  score_specificity : Z;
  score_source : Z;
}.

(** The derived [>]: lexicographic. *)
Definition score_gt (a b : MatchScore) : bool :=
  if decide (score_rank a = score_rank b) then
    if decide (score_specificity a = score_specificity b) then
      bool_decide (score_source b < score_source a)%Z
    else bool_decide (score_specificity b < score_specificity a)%Z
  else bool_decide (score_rank b < score_rank a)%Z.

Definition match_score (r : PermissionRule) (specificity : Z) : MatchScore :=
  {| score_rank := behavior_rank (behavior r);
     score_specificity := specificity;
     score_source := priority (source r) |}.

(** One round of the loop of [decide]: [best] is the rule to beat. *)
Definition decide_step (matches : PermissionRule → option Z)
    (best : option (PermissionRule * MatchScore)) (r : PermissionRule)
    : option (PermissionRule * MatchScore) :=
  match matches r with
  | None => best
  | Some specificity =>
      let score := match_score r specificity in
      match best with
      | None => Some (r, score)
      | Some (_, b) => if score_gt score b then Some (r, score) else best
      end
  end.

Definition hit_of (r : PermissionRule) : RuleHit :=
  match behavior r with
  | BehaviorAllow => HitAllow r
  | BehaviorDeny => HitDeny r
  | BehaviorAsk => HitAsk r
  end.

(** [RuleSet::decide]. *)
Definition decide_rules (rs : RuleSet) (matches : PermissionRule → option Z) : RuleHit :=
  match foldl (decide_step matches) None rs with
  | None => HitNone
  | Some (r, _) => hit_of r
  end.

(** [rc.len() as i32]. *)
Definition specificity (rc : str) : Z := as_i32 (Z.of_nat (len rc)).

Section RuleSet.
Context {GS : Globset} {HE : HostEnv}.

Definition matches_content (pattern content : str) : bool :=
  match strip_suffix ":*" pattern with
  | Some prefix =>
      bool_decide (content = prefix) || starts_with (prefix ++ [32%N]) content
  | None =>
      if has_glob pattern then
        match glob_new false pattern with
        | Some is_match => is_match content
        | None => false
        end
      else bool_decide (pattern = content)
  end.

(** What [evaluate] asks of a rule. *)
Definition rule_matches (tool : str) (content : option str) (r : PermissionRule) : option Z :=
  if negb (matches_tool_name (tool_name r) tool) then None
  else match rule_content r, content with
       | None, _ => Some 0%Z
       | Some rc, Some c => if matches_content rc c then Some (specificity rc) else None
       | Some _, None => None
       end.

Definition evaluate (rs : RuleSet) (tool : str) (content : option str) : RuleHit :=
  decide_rules rs (rule_matches tool content).

(** What [evaluate_path] asks of a rule, for one spelling of the path. *)
Definition path_rule_matches (tool group cwd p : str) (r : PermissionRule) : option Z :=
  if negb (matches_tool_name (tool_name r) tool || bool_decide (tool_name r = group)) then None
  else match rule_content r with
       | None => Some 0%Z
       | Some rc =>
           if path_matches (resolve_pattern rc cwd) p then Some (specificity rc) else None
       end.

Definition evaluate_path (rs : RuleSet) (tool group : str) (path : ResolvedPath) (cwd : str)
    : RuleHit :=
  let decide_for p := decide_rules rs (path_rule_matches tool group cwd p) in
  foldl (λ verdict alias, restricted_by verdict (decide_for alias))
    (decide_for (primary path)) (aliases path).

(** The loop of [evaluate_shell]: the strongest refusal, the first allow,
    whether every segment was allowed. *)
Definition shell_step (rs : RuleSet) (tool : str)
    (st : RuleHit * option PermissionRule * bool) (seg : str)
    : RuleHit * option PermissionRule * bool :=
  let '(refusal, segment_allow, all_allowed) := st in
  match evaluate rs tool (Some seg) with
  | HitAllow r =>
      (refusal, match segment_allow with Some a => Some a | None => Some r end, all_allowed)
  | other => (restricted_by refusal other, segment_allow, false)
  end.

Definition evaluate_shell (rs : RuleSet) (tool line : str) : RuleHit :=
  let whole := evaluate rs tool (Some line) in
  let segments := simple_commands line in
  if decide (segments = []) then whole
  else
    let '(refusal, segment_allow, all_allowed) :=
      foldl (shell_step rs tool) (HitNone, None, true) segments in
    let '(refusal, exact_allow) :=
      match whole with
      | HitAllow r =>
          (refusal, if decide (rule_content r = Some (trim line)) then Some r else None)
      | HitNone => (refusal, None)
      | refused => (restricted_by refusal refused, None)
      end in
    match refusal with
    | HitDeny _ | HitAsk _ => refusal
    | _ =>
        match exact_allow, segment_allow with
        | Some r, _ => HitAllow r
        | None, Some r => if all_allowed then HitAllow r else HitNone
        | None, None => HitNone
        end
    end.
End RuleSet.

(** [RuleSet::check]: the safe-tool shortcut. *)
Definition quick_check (tool : str) (mode : PermissionMode) : CheckResult :=
  match mode with
  | ModeBypassPermissions => if decide (tool ∈ SAFE_TOOLS) then CheckAllowed else CheckDeferred
  | ModeDontAsk | ModePlan => if decide (tool ∈ SAFE_TOOLS) then CheckAllowed else CheckDeferred
  | _ => CheckDeferred
  end.

(** ** The verdict of a hit *)

Definition hit_kind (h : RuleHit) : option RuleBehavior :=
  match h with
  | HitAllow _ => Some BehaviorAllow
  | HitDeny _ => Some BehaviorDeny
  | HitAsk _ => Some BehaviorAsk
  | HitNone => None
  end.

Definition hit_rule (h : RuleHit) : option PermissionRule :=
  match h with HitAllow r | HitDeny r | HitAsk r => Some r | HitNone => None end.

Lemma hit_kind_hit_of r : hit_kind (hit_of r) = Some (behavior r).
Proof. unfold hit_of. by destruct (behavior r). Qed.

Lemma hit_rule_hit_of r : hit_rule (hit_of r) = Some r.
Proof. unfold hit_of. by destruct (behavior r). Qed.

(** Abstract specification: the strongest behaviour of a set of them. *)
Definition strongest (bs : list RuleBehavior) : option RuleBehavior :=
  if decide (BehaviorDeny ∈ bs) then Some BehaviorDeny
  else if decide (BehaviorAsk ∈ bs) then Some BehaviorAsk
  else if decide (BehaviorAllow ∈ bs) then Some BehaviorAllow
  else None.

(** The rules that match. *)
Definition matching (matches : PermissionRule → option Z) (rs : RuleSet) : list PermissionRule :=
  filter (λ r, is_Some (matches r)) rs.

Lemma strongest_ext bs bs' : (∀ b, b ∈ bs ↔ b ∈ bs') → strongest bs = strongest bs'.
Proof.
  intros H. unfold strongest.
  by rewrite (decide_ext _ _ _ _ (H BehaviorDeny)), (decide_ext _ _ _ _ (H BehaviorAsk)),
    (decide_ext _ _ _ _ (H BehaviorAllow)).
Qed.

(** ** The loop of [decide] *)

Lemma score_gt_spec a b : score_gt a b = true ↔
  (score_rank b < score_rank a ∨ score_rank a = score_rank b ∧
   (score_specificity b < score_specificity a ∨ score_specificity a = score_specificity b ∧
    score_source b < score_source a))%Z.
Proof.
  unfold score_gt. repeat case_decide; rewrite bool_decide_eq_true; lia.
Qed.

Lemma score_gt_false a b : score_gt a b = false ↔ ¬ score_gt a b = true.
Proof. by rewrite not_true_iff_false. Qed.

(** The rule the loop keeps: it matches, no matching rule scores higher, and
    every matching rule before it scores lower. *)
Definition best_rule (matches : PermissionRule → option Z) (rs : RuleSet)
    (r : PermissionRule) (sc : MatchScore) : Prop :=
  ∃ before after sp, rs = before ++ r :: after ∧ matches r = Some sp ∧ sc = match_score r sp ∧
  (∀ r' sp', r' ∈ before → matches r' = Some sp' → score_gt sc (match_score r' sp') = true) ∧
  (∀ r' sp', r' ∈ after → matches r' = Some sp' → score_gt (match_score r' sp') sc = false).

Lemma decide_loop_spec matches rs :
  match foldl (decide_step matches) None rs with
  | None => ∀ r, r ∈ rs → matches r = None
  | Some (r, sc) => best_rule matches rs r sc
  end.
Proof.
  induction rs as [|r rs IH] using rev_ind; [by intros r ?%not_elem_of_nil|].
  rewrite foldl_app. cbn [foldl]. unfold decide_step at 1.
  destruct (matches r) as [sp|] eqn:Hm; [|].
  - destruct (foldl _ None rs) as [[b sc]|].
    + destruct IH as (l1 & l2 & sp0 & -> & Hb & -> & Hl1 & Hl2).
      destruct (score_gt (match_score r sp) (match_score b sp0)) eqn:E.
      * exists (l1 ++ b :: l2), [], sp. split_and!; try done.
        -- intros r' sp'. rewrite elem_of_app, elem_of_cons. intros Hr' Hm'.
           rewrite !score_gt_spec in *. destruct Hr' as [Hr'|[->|Hr']].
           ++ specialize (Hl1 _ _ Hr' Hm'). rewrite score_gt_spec in Hl1. lia.
           ++ simplify_eq. lia.
           ++ specialize (Hl2 _ _ Hr' Hm'). rewrite score_gt_false, score_gt_spec in Hl2. lia.
        -- by intros ? ? ?%not_elem_of_nil.
      * exists l1, (l2 ++ [r]), sp0. rewrite <-app_assoc. split_and!; try done.
        intros r' sp'. rewrite elem_of_app, list_elem_of_singleton. intros [?| ->] Hm'; [eauto|].
        by simplify_eq.
    + exists rs, [], sp. split_and!; try done.
      * intros r' sp' Hr' Hm'. rewrite IH in Hm'; done.
      * by intros ? ? ?%not_elem_of_nil.
  - destruct (foldl _ None rs) as [[b sc]|].
    + destruct IH as (l1 & l2 & sp0 & -> & Hb & -> & Hl1 & Hl2).
      exists l1, (l2 ++ [r]), sp0. rewrite <-app_assoc. split_and!; try done.
      intros r' sp'. rewrite elem_of_app, list_elem_of_singleton. intros [?| ->] Hm'; [eauto|].
      congruence.
    + intros r'. rewrite elem_of_app, list_elem_of_singleton. intros [?| ->]; auto.
Qed.

Lemma best_rule_elem matches rs r sc : best_rule matches rs r sc →
  r ∈ matching matches rs ∧
  ∀ r', r' ∈ matching matches rs → (behavior_rank (behavior r') ≤ behavior_rank (behavior r))%Z.
Proof.
  intros (l1 & l2 & sp & -> & Hm & -> & Hl1 & Hl2). split.
  - apply list_elem_of_filter. split; [by rewrite Hm|]. set_solver.
  - intros r' [[sp' Hm'] Hr']%list_elem_of_filter.
    apply elem_of_app in Hr' as [Hr'|[->|Hr']%elem_of_cons]; [..|lia|].
    + specialize (Hl1 _ _ Hr' Hm'). apply score_gt_spec in Hl1. simpl in *. lia.
    + specialize (Hl2 _ _ Hr' Hm'). rewrite score_gt_false, score_gt_spec in Hl2. simpl in *. lia.
Qed.

Lemma strongest_deny bs : strongest bs = Some BehaviorDeny ↔ BehaviorDeny ∈ bs.
Proof. unfold strongest. repeat case_decide; split; done. Qed.

Lemma strongest_ask bs :
  strongest bs = Some BehaviorAsk ↔ (BehaviorDeny ∉ bs) ∧ BehaviorAsk ∈ bs.
Proof. unfold strongest. repeat case_decide; split; try done; by intros []. Qed.

Lemma strongest_allow bs : strongest bs = Some BehaviorAllow ↔
  (BehaviorDeny ∉ bs) ∧ (BehaviorAsk ∉ bs) ∧ BehaviorAllow ∈ bs.
Proof. unfold strongest. repeat case_decide; split; try done; by intros (? & ? & ?). Qed.

Lemma behavior_rank_inj b b' : behavior_rank b = behavior_rank b' → b = b'.
Proof. by destruct b, b'. Qed.

Lemma strongest_max b bs : b ∈ bs →
  (∀ b', b' ∈ bs → (behavior_rank b' ≤ behavior_rank b)%Z) → strongest bs = Some b.
Proof.
  intros Hb Hmax. unfold strongest.
  destruct b;
    repeat first [rewrite decide_True by done
                 |rewrite decide_False by (intros H; apply Hmax in H; simpl in H; lia)]; done.
Qed.

Lemma decide_rules_kind matches rs :
  hit_kind (decide_rules rs matches) = strongest (behavior <$> matching matches rs).
Proof.
  unfold decide_rules. pose proof (decide_loop_spec matches rs) as H.
  destruct (foldl _ None rs) as [[r sc]|].
  - apply best_rule_elem in H as [Hr Hmax]. rewrite hit_kind_hit_of. symmetry.
    apply strongest_max; [by apply list_elem_of_fmap_2|].
    intros b' (r' & -> & Hr')%list_elem_of_fmap. by apply Hmax.
  - assert (matching matches rs = []) as ->; [|done].
    apply elem_of_nil_inv. intros r [[sp Hsp] Hr]%list_elem_of_filter.
    rewrite H in Hsp; done.
Qed.

Lemma decide_rules_rule matches rs r : hit_rule (decide_rules rs matches) = Some r →
  ∃ sc, best_rule matches rs r sc.
Proof.
  unfold decide_rules. pose proof (decide_loop_spec matches rs) as H.
  destruct (foldl _ None rs) as [[r' sc]|]; [|done].
  rewrite hit_rule_hit_of. intros [= ->]. eauto.
Qed.

(** The verdict of the rule engine is the strongest behaviour among the
    rules that match - deny over ask over allow, nothing when none matches -
    whatever their order, source or length; and the rule it reports matches
    and is the first of those that no matching rule outscores. *)
Theorem decide_strongest matches rs :
  hit_kind (decide_rules rs matches) = strongest (behavior <$> matching matches rs) ∧
  (∀ r, hit_rule (decide_rules rs matches) = Some r →
     hit_kind (decide_rules rs matches) = Some (behavior r) ∧
     ∃ sc, best_rule matches rs r sc) ∧
  (∀ rs', rs' ≡ₚ rs → hit_kind (decide_rules rs' matches) = hit_kind (decide_rules rs matches)).
Proof.
  split_and!.
  - apply decide_rules_kind.
  - intros r Hr. split; [|by apply decide_rules_rule].
    destruct (decide_rules rs matches) as [r'|r'|r'|] eqn:E; simplify_eq/=;
      unfold decide_rules in E; destruct (foldl _ None rs) as [[x sc]|]; simplify_eq;
      unfold hit_of in E; destruct (behavior x) eqn:Ex; simplify_eq; by rewrite Ex.
  - intros rs' Hp. rewrite !decide_rules_kind. apply strongest_ext. intros b.
    unfold matching. by rewrite Hp.
Qed.

(** ** Combining verdicts *)

Definition stronger_kind (a b : option RuleBehavior) : option RuleBehavior :=
  match a, b with
  | Some BehaviorDeny, _ => a
  | _, Some BehaviorDeny => b
  | Some BehaviorAsk, _ => a
  | _, Some BehaviorAsk => b
  | _, _ => a
  end.

Lemma restricted_by_kind a b :
  hit_kind (restricted_by a b) = stronger_kind (hit_kind a) (hit_kind b).
Proof. by destruct a, b. Qed.

(** A fold of [restricted_by]: denied when anything denies, asked when
    anything asks, otherwise what it started from. *)
Definition restrict_all (k : option RuleBehavior) (ks : list (option RuleBehavior))
    : option RuleBehavior :=
  if decide (Some BehaviorDeny ∈ k :: ks) then Some BehaviorDeny
  else if decide (Some BehaviorAsk ∈ k :: ks) then Some BehaviorAsk
  else k.

Lemma restrict_all_deny k ks :
  restrict_all k ks = Some BehaviorDeny ↔ Some BehaviorDeny ∈ k :: ks.
Proof.
  unfold restrict_all. case_decide; [done|]. case_decide; (split; [|done]); [done|].
  intros ->. left.
Qed.

Lemma restrict_all_ask k ks : restrict_all k ks = Some BehaviorAsk ↔
  ¬ (Some BehaviorDeny ∈ k :: ks) ∧ Some BehaviorAsk ∈ k :: ks.
Proof.
  unfold restrict_all. repeat case_decide; (split; [|by intros []]); try done.
  intros ->. split; [done|left].
Qed.

Lemma restrict_all_allow k ks : restrict_all k ks = Some BehaviorAllow → k = Some BehaviorAllow.
Proof. unfold restrict_all. by repeat case_decide. Qed.

Lemma matching_behaviors matches rs b :
  b ∈ behavior <$> matching matches rs ↔ ∃ r, r ∈ rs ∧ behavior r = b ∧ is_Some (matches r).
Proof.
  rewrite list_elem_of_fmap. unfold matching. split.
  - intros (r & -> & [? ?]%list_elem_of_filter). eauto.
  - intros (r & ? & <- & ?). exists r. by rewrite list_elem_of_filter.
Qed.

Lemma restrict_all_cons k k' ks :
  restrict_all (stronger_kind k k') ks = restrict_all k (k' :: ks).
Proof.
  unfold restrict_all. repeat case_decide; rewrite ?elem_of_cons in *;
    destruct k as [[]|], k' as [[]|]; simpl in *; intuition congruence.
Qed.

Lemma restricted_fold {A} (f : A → RuleHit) xs h :
  hit_kind (foldl (λ v x, restricted_by v (f x)) h xs) =
  restrict_all (hit_kind h) (hit_kind ∘ f <$> xs).
Proof.
  revert h. induction xs as [|x xs IH]; intros h.
  - unfold restrict_all. cbn. by destruct h.
  - cbn [foldl]. rewrite IH, restricted_by_kind. apply restrict_all_cons.
Qed.

Section Verdicts.
Context {GS : Globset} {HE : HostEnv}.

Lemma evaluate_path_kind rs tool group path cwd :
  let k p := hit_kind (decide_rules rs (path_rule_matches tool group cwd p)) in
  hit_kind (evaluate_path rs tool group path cwd) =
  restrict_all (k (primary path)) (k <$> aliases path).
Proof. apply restricted_fold. Qed.

(** A path verdict is denied exactly when some spelling of the file -
    the path itself, its home expansion, its symlink target - is matched by
    a deny rule, asked about when none is but some spelling matches an ask
    rule, and allowed only on an allow rule for the path the tool opens. *)
Theorem evaluate_path_verdict rs tool group path cwd :
  let hits b p := ∃ r, r ∈ rs ∧ behavior r = b ∧
                       is_Some (path_rule_matches tool group cwd p r) in
  let v := hit_kind (evaluate_path rs tool group path cwd) in
  (v = Some BehaviorDeny ↔ ∃ p, p ∈ all_paths path ∧ hits BehaviorDeny p) ∧
  (v = Some BehaviorAsk ↔ (¬ ∃ p, p ∈ all_paths path ∧ hits BehaviorDeny p) ∧
                          ∃ p, p ∈ all_paths path ∧ hits BehaviorAsk p) ∧
  (v = Some BehaviorAllow → hits BehaviorAllow (primary path)).
Proof.
  intros hits v. subst v. rewrite evaluate_path_kind. cbv zeta.
  set (k p := hit_kind (decide_rules rs (path_rule_matches tool group cwd p))).
  assert (∀ p b, b ∈ behavior <$> matching (path_rule_matches tool group cwd p) rs ↔ hits b p) as Hin.
  { intros p b. apply matching_behaviors. }
  assert (∀ p, k p = Some BehaviorDeny ↔ hits BehaviorDeny p) as Hd.
  { intros p. subst k. cbv beta. by rewrite decide_rules_kind, strongest_deny. }
  assert (∀ p, k p = Some BehaviorAsk ↔ ¬ hits BehaviorDeny p ∧ hits BehaviorAsk p) as Ha.
  { intros p. subst k. cbv beta. by rewrite decide_rules_kind, strongest_ask, !Hin. }
  assert (∀ b, Some b ∈ k (primary path) :: (k <$> aliases path) ↔
               ∃ p, p ∈ all_paths path ∧ k p = Some b) as Hk.
  { intros b. change (k (primary path) :: (k <$> aliases path)) with (k <$> all_paths path).
    rewrite list_elem_of_fmap. split; intros (p & H1 & H2); eauto. }
  change (hit_kind (decide_rules rs (path_rule_matches tool group cwd (primary path))))
    with (k (primary path)).
  split_and!.
  - rewrite restrict_all_deny, Hk. by setoid_rewrite Hd.
  - rewrite restrict_all_ask, (Hk BehaviorDeny), (Hk BehaviorAsk). setoid_rewrite Hd. setoid_rewrite Ha. split.
    + intros (Hn & p & ? & ? & ?). eauto.
    + intros (Hn & p & ? & ?). split; [done|]. exists p. split; [done|].
      split; [|done]. intros ?. apply Hn. eauto.
  - intros E. apply restrict_all_allow in E. subst k. cbv beta in E.
    rewrite decide_rules_kind, strongest_allow in E.
    destruct E as (_ & _ & E). by apply Hin.
Qed.

(** *** Shell lines *)

Definition seg_kind (rs : RuleSet) (tool seg : str) : option RuleBehavior :=
  hit_kind (evaluate rs tool (Some seg)).

(** What the loop of [evaluate_shell] knows after some segments. *)
Definition shell_inv (rs : RuleSet) (tool : str) (segs : list str)
    (st : RuleHit * option PermissionRule * bool) : Prop :=
  let '(refusal, segment_allow, all_allowed) := st in
  let ks := seg_kind rs tool <$> segs in
  (hit_kind refusal = Some BehaviorDeny ↔ Some BehaviorDeny ∈ ks) ∧
  (hit_kind refusal = Some BehaviorAsk ↔ ¬ (Some BehaviorDeny ∈ ks) ∧ Some BehaviorAsk ∈ ks) ∧
  hit_kind refusal ≠ Some BehaviorAllow ∧
  (is_Some segment_allow ↔ Some BehaviorAllow ∈ ks) ∧
  (all_allowed = true ↔ Forall (λ k, k = Some BehaviorAllow) ks).

Lemma shell_loop_inv rs tool segs :
  shell_inv rs tool segs (foldl (shell_step rs tool) (HitNone, None, true) segs).
Proof.
  induction segs as [|seg segs IH] using rev_ind.
  { unfold shell_inv. cbn. setoid_rewrite elem_of_nil.
    split_and!; try done. split; [done|by intros []]. }
  rewrite foldl_app. cbn [foldl].
  destruct (foldl _ _ segs) as [[refusal sa] aa].
  destruct IH as (Hd & Ha & Hn & Hs & Hall). unfold shell_step.
  assert (seg_kind rs tool seg = hit_kind (evaluate rs tool (Some seg))) as Hk by done.
  destruct (evaluate rs tool (Some seg)) as [r|r|r|]; unfold shell_inv;
    rewrite fmap_app; cbn [fmap list_fmap];
    rewrite Forall_app, Forall_singleton, !elem_of_app, !list_elem_of_singleton, Hk;
    rewrite ?restricted_by_kind; cbn [hit_kind].
  - rewrite Hd, Ha, Hall. split_and!; try done; try (clear; intuition congruence).
    destruct sa as [a|]; (split; [intros _|eauto]); [left; apply Hs; eauto|by right].
  - rewrite Hs. destruct (hit_kind refusal) as [[]|]; cbn [stronger_kind]; split_and!;
      try done; clear Hs Hall; intuition congruence.
  - rewrite Hs. destruct (hit_kind refusal) as [[]|]; cbn [stronger_kind]; split_and!;
      try done; clear Hs Hall; intuition congruence.
  - rewrite Hs. destruct (hit_kind refusal) as [[]|]; cbn [stronger_kind]; split_and!;
      try done; clear Hs Hall; intuition congruence.
Qed.

(** The verdict on a line that runs some commands. *)
Lemma evaluate_shell_kinds rs tool line :
  let ks := seg_kind rs tool line :: (seg_kind rs tool <$> simple_commands line) in
  let v := hit_kind (evaluate_shell rs tool line) in
  let exact := ∃ r, evaluate rs tool (Some line) = HitAllow r ∧
                    rule_content r = Some (trim line) in
  simple_commands line ≠ [] →
  (v = Some BehaviorDeny ↔ Some BehaviorDeny ∈ ks) ∧
  (v = Some BehaviorAsk ↔ ¬ (Some BehaviorDeny ∈ ks) ∧ Some BehaviorAsk ∈ ks) ∧
  (v = Some BehaviorAllow ↔
     ¬ (Some BehaviorDeny ∈ ks) ∧ ¬ (Some BehaviorAsk ∈ ks) ∧
     (exact ∨ Forall (λ k, k = Some BehaviorAllow) (seg_kind rs tool <$> simple_commands line))).
Proof.
  intros ks v exact Hne.
  pose proof (shell_loop_inv rs tool (simple_commands line)) as Hinv.
  subst ks v. unfold evaluate_shell. rewrite decide_False by done.
  destruct (foldl _ _ _) as [[refusal sa] aa].
  destruct Hinv as (Hd & Ha & Hn & Hs & Hall).
  assert (aa = true → is_Some sa) as Haa.
  { intros H. apply Hs. apply Hall in H. destruct (simple_commands line) as [|x l]; [done|].
    cbn in H. apply Forall_cons in H as [<- _]. left. }
  rewrite !elem_of_cons. rewrite <-Hall.
  set (D := Some BehaviorDeny ∈ seg_kind rs tool <$> simple_commands line) in *.
  set (A := Some BehaviorAsk ∈ seg_kind rs tool <$> simple_commands line) in *.
  change (seg_kind rs tool line) with (hit_kind (evaluate rs tool (Some line))). subst exact.
  destruct (evaluate rs tool (Some line)) as [w|w|w|] eqn:E; cbn [hit_kind].
  - assert ((∃ r, HitAllow w = HitAllow r ∧ rule_content r = Some (trim line)) ↔
      rule_content w = Some (trim line)) as ->.
    { split; [by intros (r & [= <-] & ?)|eauto]. }
    clear Hs Hall. destruct (decide (rule_content w = Some (trim line)));
      destruct refusal as [r|r|r|]; cbn [hit_kind] in *;
      destruct sa as [a|]; destruct aa; cbn [hit_kind];
      try (by destruct (Haa eq_refl)); intuition congruence.
  - assert ((∃ r, HitDeny w = HitAllow r ∧ rule_content r = Some (trim line)) ↔ False) as ->
      by (by split; [intros (? & ? & ?)|]).
    clear Hs Hall Haa. destruct refusal as [r|r|r|]; cbn [hit_kind restricted_by] in *;
      intuition congruence.
  - assert ((∃ r, HitAsk w = HitAllow r ∧ rule_content r = Some (trim line)) ↔ False) as ->
      by (by split; [intros (? & ? & ?)|]).
    clear Hs Hall Haa. destruct refusal as [r|r|r|]; cbn [hit_kind restricted_by] in *;
      intuition congruence.
  - assert ((∃ r, HitNone = HitAllow r ∧ rule_content r = Some (trim line)) ↔ False) as ->
      by (by split; [intros (? & ? & ?)|]).
    clear Hs Hall. destruct refusal as [r|r|r|]; cbn [hit_kind] in *;
      destruct sa as [a|]; destruct aa; cbn [hit_kind];
      try (by destruct (Haa eq_refl)); intuition congruence.
Qed.

(** The specification of [evaluate_shell]: what the whole line and each of
    its commands get, taken together. *)
Definition exactly_allowed (rs : RuleSet) (tool line : str) : bool :=
  match evaluate rs tool (Some line) with
  | HitAllow r => bool_decide (rule_content r = Some (trim line))
  | _ => false
  end.

Definition shell_verdict (rs : RuleSet) (tool line : str) : option RuleBehavior :=
  let whole := seg_kind rs tool line in
  match simple_commands line with
  | [] => whole
  | commands =>
      let ks := seg_kind rs tool <$> commands in
      if decide (Some BehaviorDeny ∈ whole :: ks) then Some BehaviorDeny
      else if decide (Some BehaviorAsk ∈ whole :: ks) then Some BehaviorAsk
      else if exactly_allowed rs tool line || forallb (λ k, bool_decide (k = Some BehaviorAllow)) ks
      then Some BehaviorAllow
      else None
  end.

(** C33. A shell line that runs some commands is denied exactly when one of
    its commands, or the line as a whole, is; it is asked about when nothing
    denies it and one of them asks; and it is allowed exactly when nothing
    denies or asks and either every command is allowed or the whole line is
    literally the content of the rule allowing it.  A line without commands
    gets the verdict of its text. *)
Theorem evaluate_shell_refines rs tool line :
  hit_kind (evaluate_shell rs tool line) = shell_verdict rs tool line.
Proof.
  unfold shell_verdict. destruct (simple_commands line) as [|c cs] eqn:E.
  { unfold evaluate_shell. by rewrite decide_True by done. }
  rewrite <-E. assert (simple_commands line ≠ []) as Hne by (by rewrite E).
  destruct (evaluate_shell_kinds rs tool line Hne) as (Hd & Ha & Hal).
  case_decide as Cd; [by apply Hd|]. case_decide as Ca; [by apply Ha|].
  assert (exactly_allowed rs tool line = true ↔ ∃ r, evaluate rs tool (Some line) = HitAllow r ∧
            rule_content r = Some (trim line)) as Hex.
  { unfold exactly_allowed. destruct (evaluate rs tool (Some line));
      [|by split; [|intros (? & ? & _)]..].
    rewrite bool_decide_eq_true. split; [eauto|]. by intros (? & [= ->] & ?). }
  rewrite <-Hex in Hal.
  assert (forallb (λ k, bool_decide (k = Some BehaviorAllow)) (seg_kind rs tool <$> simple_commands line)
    = true ↔ Forall (λ k, k = Some BehaviorAllow) (seg_kind rs tool <$> simple_commands line)) as Hf.
  { rewrite forallb_elem_of, Forall_forall. by setoid_rewrite bool_decide_eq_true. }
  rewrite <-Hf, <-orb_true_iff in Hal.
  destruct (_ || _); [by apply Hal|].
  destruct (hit_kind (evaluate_shell rs tool line)) as [[]|]; [|tauto|tauto|done].
  destruct Hal as [Hal _]. destruct (Hal eq_refl) as (_ & _ & ?). discriminate.
Qed.

(** A deny rule on one command denies every line that runs it. *)
Lemma evaluate_shell_deny rs tool line c :
  c ∈ simple_commands line → seg_kind rs tool c = Some BehaviorDeny →
  hit_kind (evaluate_shell rs tool line) = Some BehaviorDeny.
Proof.
  intros Hc Hk. pose proof (shell_loop_inv rs tool (simple_commands line)) as Hinv.
  unfold evaluate_shell. rewrite decide_False by (intros E; rewrite E in Hc; by apply not_elem_of_nil in Hc).
  destruct (foldl _ _ _) as [[refusal sa] aa]. destruct Hinv as (Hd & _).
  assert (hit_kind refusal = Some BehaviorDeny) as Hr.
  { apply Hd, list_elem_of_fmap. eauto. }
  destruct refusal; try done. by destruct (evaluate rs tool (Some line)).
Qed.
End Verdicts.

(** ** The rule a hit reports *)

(** It is a rule of the set, and the hit is its behaviour. *)
Definition reported (rs : RuleSet) (h : RuleHit) : Prop :=
  ∀ r, hit_rule h = Some r → r ∈ rs ∧ hit_kind h = Some (behavior r).

Lemma decide_rules_reported matches rs : reported rs (decide_rules rs matches).
Proof.
  intros r Hr. pose proof (decide_rules_rule _ _ _ Hr) as [sc [Hin _]%best_rule_elem].
  apply list_elem_of_filter in Hin as [_ Hin]. split; [done|].
  unfold decide_rules in *. destruct (foldl _ None rs) as [[x sc']|]; [|done].
  rewrite hit_rule_hit_of in Hr. injection Hr as ->. apply hit_kind_hit_of.
Qed.

Lemma restricted_by_reported rs h h' :
  reported rs h → reported rs h' → reported rs (restricted_by h h').
Proof. intros H H'. by destruct h, h'. Qed.

Section Reported.
Context {GS : Globset} {HE : HostEnv}.

Lemma evaluate_path_reported rs tool group path cwd :
  reported rs (evaluate_path rs tool group path cwd).
Proof.
  unfold evaluate_path.
  assert (∀ ps h, reported rs h → reported rs (foldl (λ verdict alias, restricted_by verdict
    (decide_rules rs (path_rule_matches tool group cwd alias))) h ps)) as H.
  { intros ps. induction ps as [|p ps IH]; intros h Hh; [done|]. cbn. apply IH.
    by apply restricted_by_reported, decide_rules_reported. }
  apply H, decide_rules_reported.
Qed.

Definition reported_state (rs : RuleSet) (st : RuleHit * option PermissionRule * bool) : Prop :=
  let '(refusal, sa, _) := st in
  reported rs refusal ∧ (∀ r, sa = Some r → r ∈ rs ∧ behavior r = BehaviorAllow).

Lemma shell_loop_reported rs tool segs st :
  reported_state rs st → reported_state rs (foldl (shell_step rs tool) st segs).
Proof.
  revert st. induction segs as [|seg segs IH]; intros st Hst; [done|]. cbn. apply IH. clear IH.
  destruct st as [[refusal sa] aa], Hst as [Hr Hs]. unfold shell_step.
  pose proof (decide_rules_reported (rule_matches tool (Some seg)) rs) as Hseg.
  change (decide_rules rs (rule_matches tool (Some seg))) with (evaluate rs tool (Some seg)) in Hseg.
  destruct (evaluate rs tool (Some seg)) as [r|r|r|];
    (split; [first [done|by apply restricted_by_reported]|]); try done.
  intros r' E. destruct sa as [a|]; [auto|]. injection E as <-.
  destruct (Hseg r eq_refl) as [? [= ?]]. done.
Qed.

Lemma evaluate_shell_reported rs tool line : reported rs (evaluate_shell rs tool line).
Proof.
  pose proof (shell_loop_reported rs tool (simple_commands line) (HitNone, None, true)) as H.
  pose proof (decide_rules_reported (rule_matches tool (Some line)) rs) as Hw.
  unfold evaluate_shell.
  change (decide_rules rs (rule_matches tool (Some line))) with (evaluate rs tool (Some line)) in Hw.
  case_decide; [done|].
  destruct (foldl _ _ _) as [[refusal sa] aa]. destruct H as [Hr Hs]; [by split|].
  assert (∀ r, r ∈ rs ∧ behavior r = BehaviorAllow → reported rs (HitAllow r)) as Hallow.
  { intros r [? E] r' [= <-]. cbn. by rewrite E. }
  assert (reported rs HitNone) as Hnone by done.
  pose proof (restricted_by_reported rs refusal _ Hr Hw) as Hrw.
  assert (∀ w, evaluate rs tool (Some line) = HitAllow w → reported rs (HitAllow w)) as Hwa.
  { intros w E. by rewrite E in Hw. }
  destruct (evaluate rs tool (Some line)) as [w|w|w|];
    [case_decide| | |]; try specialize (Hwa w eq_refl);
    repeat case_match; simplify_eq; auto.
Qed.
End Reported.

(** ** Adding deny rules *)

Definition all_deny (ds : list PermissionRule) : Prop :=
  Forall (λ d, behavior d = BehaviorDeny) ds.

Section AddDeny.
Context {GS : Globset} {HE : HostEnv}.

Lemma decide_rules_unmatched matches rs ds :
  (∀ d, d ∈ ds → matches d = None) → decide_rules (rs ++ ds) matches = decide_rules rs matches.
Proof.
  intros H. unfold decide_rules. rewrite foldl_app.
  assert (∀ best, foldl (decide_step matches) best ds = best) as ->; [|done].
  induction ds as [|d ds IH]; intros best; [done|]. cbn [foldl].
  unfold decide_step at 2. rewrite H by left. apply IH. intros d' ?. apply H. by right.
Qed.

(** Deny rules on top of a rule set change a verdict to a denial or not at all. *)
Lemma decide_rules_add_deny matches rs ds : all_deny ds →
  hit_kind (decide_rules (rs ++ ds) matches) = Some BehaviorDeny ∨
  decide_rules (rs ++ ds) matches = decide_rules rs matches.
Proof.
  intros Hds. destruct (decide (Exists (λ d, is_Some (matches d)) ds)) as [H|H].
  - left. rewrite decide_rules_kind, strongest_deny, matching_behaviors.
    apply Exists_exists in H as (d & Hd & Hm). exists d. split_and!; [set_solver| |done].
    unfold all_deny in Hds. rewrite Forall_forall in Hds. by apply Hds.
  - right. apply decide_rules_unmatched. intros d Hd. apply eq_None_not_Some.
    intros Hm. apply H, Exists_exists. eauto.
Qed.

Lemma evaluate_add_deny rs ds tool content : all_deny ds →
  hit_kind (evaluate (rs ++ ds) tool content) = Some BehaviorDeny ∨
  evaluate (rs ++ ds) tool content = evaluate rs tool content.
Proof. apply decide_rules_add_deny. Qed.

Lemma foldl_same {A B} (f g : A → B → A) (a : A) (l : list B) :
  (∀ x, x ∈ l → ∀ a, f a x = g a x) → foldl f a l = foldl g a l.
Proof.
  revert a. induction l as [|x l IH]; intros a H; [done|]. cbn.
  rewrite H by left. apply IH. intros y ?. apply H. by right.
Qed.

Lemma evaluate_path_add_deny rs ds tool group path cwd : all_deny ds →
  hit_kind (evaluate_path (rs ++ ds) tool group path cwd) = Some BehaviorDeny ∨
  evaluate_path (rs ++ ds) tool group path cwd = evaluate_path rs tool group path cwd.
Proof.
  intros Hds.
  destruct (decide (hit_kind (evaluate_path (rs ++ ds) tool group path cwd) = Some BehaviorDeny))
    as [|Hn]; [by left|right].
  rewrite evaluate_path_kind in Hn. cbv zeta in Hn. rewrite restrict_all_deny in Hn.
  assert (∀ p, p ∈ all_paths path →
    decide_rules (rs ++ ds) (path_rule_matches tool group cwd p) =
    decide_rules rs (path_rule_matches tool group cwd p)) as Hsame.
  { intros p Hp.
    destruct (decide_rules_add_deny (path_rule_matches tool group cwd p) rs ds Hds) as [H|H];
      [|done]. destruct Hn. rewrite <-H. unfold all_paths in Hp.
    apply elem_of_cons in Hp as [->|Hp]; [left|right].
    apply list_elem_of_fmap. eauto. }
  unfold evaluate_path. rewrite (Hsame (primary path)) by left.
  apply foldl_same. intros p Hp v. rewrite (Hsame p); [done|by right].
Qed.

Lemma evaluate_shell_whole_deny rs tool line :
  seg_kind rs tool line = Some BehaviorDeny →
  hit_kind (evaluate_shell rs tool line) = Some BehaviorDeny.
Proof.
  unfold seg_kind, evaluate_shell. intros H. case_decide; [done|].
  destruct (foldl _ _ _) as [[refusal sa] aa].
  destruct (evaluate rs tool (Some line)) as [r|r|r|]; try done.
  by destruct refusal.
Qed.

Lemma evaluate_shell_add_deny rs ds tool line : all_deny ds →
  hit_kind (evaluate_shell (rs ++ ds) tool line) = Some BehaviorDeny ∨
  evaluate_shell (rs ++ ds) tool line = evaluate_shell rs tool line.
Proof.
  intros Hds.
  destruct (decide (hit_kind (evaluate_shell (rs ++ ds) tool line) = Some BehaviorDeny))
    as [|Hn]; [by left|right].
  assert (∀ c, c ∈ line :: simple_commands line →
    evaluate (rs ++ ds) tool (Some c) = evaluate rs tool (Some c)) as Hsame.
  { intros c Hc. destruct (evaluate_add_deny rs ds tool (Some c) Hds) as [H|H]; [|done].
    destruct Hn. apply elem_of_cons in Hc as [->|Hc].
    - by apply evaluate_shell_whole_deny.
    - by apply (evaluate_shell_deny _ _ _ c). }
  unfold evaluate_shell. rewrite (Hsame line) by left.
  rewrite (foldl_same (shell_step (rs ++ ds) tool) (shell_step rs tool)); [done|].
  intros c Hc [[refusal sa] aa]. unfold shell_step. by rewrite (Hsame c) by (by right).
Qed.

(** Allow rules on top of a rule set never lift a denial or a question. *)
Definition refusal (k : option RuleBehavior) : Prop :=
  k = Some BehaviorDeny ∨ k = Some BehaviorAsk.

Definition all_allow (rs : list PermissionRule) : Prop :=
  Forall (λ r, behavior r = BehaviorAllow) rs.

(** The two verdicts refuse alike. *)
Definition same_refusals (k k' : option RuleBehavior) : Prop :=
  (k = Some BehaviorDeny ↔ k' = Some BehaviorDeny) ∧
  (k = Some BehaviorAsk ↔ k' = Some BehaviorAsk).

Lemma same_refusals_elem {A} (f g : A → option RuleBehavior) (l : list A) b :
  b = BehaviorDeny ∨ b = BehaviorAsk → (∀ x, x ∈ l → same_refusals (f x) (g x)) →
  Some b ∈ f <$> l ↔ Some b ∈ g <$> l.
Proof.
  intros Hb H. rewrite !list_elem_of_fmap.
  split; intros (x & E & Hx); exists x; (split; [|done]); destruct (H x Hx) as [Hd Ha];
    destruct Hb as [-> | ->]; symmetry; by first [apply Hd|apply Ha].
Qed.

Lemma decide_rules_add_allow matches rs more : all_allow more →
  same_refusals (hit_kind (decide_rules (rs ++ more) matches)) (hit_kind (decide_rules rs matches)).
Proof.
  intros Hmore. unfold all_allow in Hmore. rewrite Forall_forall in Hmore.
  assert (∀ b, b ≠ BehaviorAllow → b ∈ behavior <$> matching matches (rs ++ more) ↔
    b ∈ behavior <$> matching matches rs) as H.
  { intros b Hb. rewrite !matching_behaviors. split.
    - intros (r & [Hr|Hr]%elem_of_app & <- & Hm); [eauto|]. by destruct Hb; apply Hmore.
    - intros (r & Hr & <- & Hm). exists r. split; [|done]. apply elem_of_app. by left. }
  unfold same_refusals. rewrite !decide_rules_kind, !strongest_deny, !strongest_ask.
  by rewrite !H by done.
Qed.

Lemma evaluate_path_add_allow rs more tool group path cwd : all_allow more →
  same_refusals (hit_kind (evaluate_path (rs ++ more) tool group path cwd))
                (hit_kind (evaluate_path rs tool group path cwd)).
Proof.
  intros Hmore. rewrite !evaluate_path_kind. cbv zeta. unfold same_refusals.
  rewrite !restrict_all_deny, !restrict_all_ask.
  rewrite <-!(fmap_cons (λ p, hit_kind (decide_rules _ (path_rule_matches tool group cwd p)))).
  rewrite !(same_refusals_elem (λ p, hit_kind (decide_rules (rs ++ more) (path_rule_matches tool group cwd p)))
    (λ p, hit_kind (decide_rules rs (path_rule_matches tool group cwd p))))
    by (first [by left|by right|intros; by apply decide_rules_add_allow]).
  done.
Qed.

Lemma evaluate_shell_add_allow rs more tool line : all_allow more →
  same_refusals (hit_kind (evaluate_shell (rs ++ more) tool line))
                (hit_kind (evaluate_shell rs tool line)).
Proof.
  intros Hmore.
  assert (∀ c, same_refusals (seg_kind (rs ++ more) tool c) (seg_kind rs tool c)) as H
    by (intros c; by apply decide_rules_add_allow).
  destruct (decide (simple_commands line = [])) as [E|E].
  { unfold evaluate_shell. rewrite !decide_True by done. apply H. }
  unfold same_refusals.
  destruct (evaluate_shell_kinds (rs ++ more) tool line E) as (-> & -> & _).
  destruct (evaluate_shell_kinds rs tool line E) as (-> & -> & _).
  rewrite <-!fmap_cons.
  rewrite !(same_refusals_elem (seg_kind (rs ++ more) tool) (seg_kind rs tool))
    by (first [by left|by right|done]).
  done.
Qed.
End AddDeny.

(** The rules of the worked example: git is allowed, [git push] is asked
    about, [rm] is denied. *)
Definition example_rules : RuleSet :=
  let rule b c := {| source := UserSettings; behavior := b; tool_name := lit "Bash";
                     rule_content := Some (lit c) |} in
  [rule BehaviorAllow "git:*"; rule BehaviorAsk "git push:*"; rule BehaviorDeny "rm:*"].
