(* ===== verification/RuleLint.v ===== *)
(** * Warnings about rules ([crates/permissions/src/shadow.rs], [dangerous.rs])

    What [RuleSet::new] reports when a rule set is loaded: rules that can
    never take effect, allow rules that are too broad, and path rules whose
    [*] reaches less than it used to.  A warning is its text; loading changes
    nothing else. *)

From stdpp Require Import base option numbers sets strings pretty list.
From S2P Require Import Prelude RustStr PermTypes Rule Path PathRule Shell RuleSet.

(** The decimal digits of a number. *)
Definition dec (n : nat) : str := lit (pretty (N.of_nat n)).

(** ** Rules that never take effect *)

Record ShadowedRule := {
  shadowed : PermissionRule;
  shadowing : PermissionRule;
  shadowed_index : nat;
  shadowing_index : nat;
}.

Definition strength (b : RuleBehavior) : Z :=
  match b with
  | BehaviorDeny => 2
  | BehaviorAsk => 1
  | BehaviorAllow => 0
  end.

Definition behavior_label (b : RuleBehavior) : str :=
  match b with
  | BehaviorAllow => "allow"
  | BehaviorDeny => "deny"
  | BehaviorAsk => "ask"
  end.

Definition source_label (s : RuleSource) : str :=
  match s with
  | UserSettings => "user settings"
  | ProjectSettings => "project settings"
  | LocalSettings => "local settings"
  | CliArg => "command-line arguments"
  | Session => "this session"
  | PolicySettings => "managed policy"
  | Command => "an active skill"
  | Plugin => "a plugin"
  end.

Definition quoted (s : str) : str := c_dquote :: s ++ [c_dquote].

Definition format_shadow_warning (s : ShadowedRule) : str :=
  lit "Permission rule never takes effect: " ++ quoted (format_rule_string (shadowed s)) ++
  lit " [" ++ behavior_label (behavior (shadowed s)) ++ lit "] from " ++
  source_label (source (shadowed s)) ++ lit " is overridden by " ++
  quoted (format_rule_string (shadowing s)) ++
  lit " [" ++ behavior_label (behavior (shadowing s)) ++ lit "] from " ++
  source_label (source (shadowing s)) ++
  lit " (a matching deny always wins, then ask, then allow)".

Section Shadow.
Context {GS : Globset}.

Definition is_shadowed_by (covering covered : PermissionRule) : bool :=
  match rule_content covering, rule_content covered with
  | None, _ => true
  | Some _, None => false
  | Some hc, Some lc => bool_decide (hc = lc) || matches_content hc lc
  end.

(** The test [detect_shadowed_rules] searches with. *)
Definition overrides (stronger weaker : PermissionRule) : bool :=
  bool_decide (strength (behavior weaker) < strength (behavior stronger))%Z &&
  matches_tool_name (tool_name stronger) (tool_name weaker) &&
  is_shadowed_by stronger weaker.

Definition detect_shadowed_rules (rules : list PermissionRule) : list ShadowedRule :=
  omap (λ '(j, weaker),
    match find_first (λ '(_, stronger), overrides stronger weaker) (enumerate rules) with
    | Some (i, stronger) =>
        Some {| shadowed := weaker; shadowing := stronger;
                shadowed_index := j; shadowing_index := i |}
    | None => None
    end) (enumerate rules).
End Shadow.

(** ** Dangerous allow rules *)

Inductive Severity := Warning | Critical.

Definition severity_label (s : Severity) : str :=
  match s with
  | Warning => "WARNING"
  | Critical => "CRITICAL"
  end.

Record DangerousRule := {
  danger_rule : PermissionRule;
  rule_index : nat;
  severity : Severity;
  reason : str;
}.

Definition DANGEROUS_TOOLS : list str :=
  [lit "Bash"; lit "Write"; lit "Edit"; lit "FileWrite"; lit "FileEdit"].

Definition DESTRUCTIVE_BASH_SUBCOMMANDS : list str :=
  [lit "rm"; lit "dd"; lit "mkfs"; lit "chmod"; lit "chown"; lit "sudo"; lit "python";
   lit "python3"; lit "node"; lit "npm"; lit "npx"; lit "pip"; lit "pip3"; lit "curl";
   lit "wget"; lit "systemctl"; lit "passwd"; lit "usermod"; lit "groupmod"; lit "fdisk";
   lit "parted"; lit "mkswap"; lit "swapon"; lit "swapoff"; lit "mount"; lit "umount";
   lit "insmod"; lit "rmmod"; lit "iwconfig"; lit "ifconfig"; lit "ip"].

Definition is_broad_allow (rule : PermissionRule) : option str :=
  if negb (bool_decide (tool_name rule ∈ DANGEROUS_TOOLS)) then None
  else
    let tool := tool_name rule in
    match rule_content rule with
    | None => Some (lit "Allow rule with no content restriction on " ++ tool ++
        lit ": permits unrestricted use of a powerful tool that can access any file or execute arbitrary commands")
    | Some content =>
        if decide (content ∈ [lit "*"; lit "**"]) then
          Some (lit "Allow rule with wildcard '" ++ content ++ lit "' on " ++ tool ++
            lit ": effectively permits unrestricted use, same as having no content restriction")
        else if decide (content ∈ [lit "/**"; lit "**/*"]) then
          Some (lit "Allow rule with broad path wildcard '" ++ content ++ lit "' on " ++ tool ++
            lit ": permits access to the entire filesystem through this tool")
        else None
    end.

(** The risk a destructive subcommand carries. *)
Definition subcommand_risk (cmd : str) : str :=
  if decide (cmd = lit "rm") then "allows broad file deletion commands (rm:*)"
  else if decide (cmd = lit "dd") then "allows raw disk I/O commands (dd:*) that can wipe storage"
  else if decide (cmd = lit "mkfs") then "allows filesystem creation commands (mkfs:*) that can destroy data"
  else if decide (cmd = lit "chmod") then "allows broad permission modification (chmod:*)"
  else if decide (cmd = lit "chown") then "allows broad ownership changes (chown:*)"
  else if decide (cmd = lit "sudo") then "allows privilege escalation (sudo:*)"
  else if decide (cmd ∈ [lit "python"; lit "python3"]) then "allows arbitrary code execution (python:*)"
  else if decide (cmd = lit "node") then "allows arbitrary code execution (node:*)"
  else if decide (cmd ∈ [lit "npm"; lit "npx"]) then "allows arbitrary package installation/execution (npm:*)"
  else if decide (cmd ∈ [lit "pip"; lit "pip3"]) then "allows arbitrary package installation (pip:*)"
  else if decide (cmd ∈ [lit "curl"; lit "wget"]) then
    "allows network data transfer (curl:*) that may lead to code execution"
  else if decide (cmd = lit "systemctl") then "allows system service management (systemctl:*)"
  else if decide (cmd = lit "passwd") then "allows password changes (passwd:*)"
  else if decide (cmd ∈ [lit "usermod"; lit "groupmod"]) then "allows user/group management (cmd:*)"
  else if decide (cmd ∈ [lit "fdisk"; lit "parted"; lit "mkswap"; lit "swapon"; lit "swapoff"]) then
    "allows disk partition management (cmd:*)"
  else if decide (cmd ∈ [lit "mount"; lit "umount"]) then "allows filesystem mount operations (mount:*)"
  else if decide (cmd ∈ [lit "insmod"; lit "rmmod"]) then "allows kernel module management (insmod:*)"
  else if decide (cmd ∈ [lit "iwconfig"; lit "ifconfig"; lit "ip"]) then
    "allows network interface configuration (ip:*)"
  else "allows potentially destructive subcommands via prefix wildcard (:*)".

Definition is_destructive_bash_allow (rule : PermissionRule) : option str :=
  if negb (bool_decide (tool_name rule = lit "Bash")) then None
  else match rule_content rule with
  | None => None
  | Some content =>
      match find_first (λ cmd, bool_decide (content = cmd ++ lit ":*")) DESTRUCTIVE_BASH_SUBCOMMANDS with
      | Some cmd =>
          Some (lit "Bash allow rule with content '" ++ content ++ lit "' " ++ subcommand_risk cmd ++
            lit " — consider narrowing to specific subcommands rather than the whole category")
      | None => None
      end
  end.

(** The findings for one rule: Critical subsumes Warning. *)
Definition rule_danger (i : nat) (rule : PermissionRule) : option DangerousRule :=
  if decide (behavior rule ≠ BehaviorAllow) then None
  else match is_broad_allow rule with
  | Some danger =>
      Some {| danger_rule := rule; rule_index := i; severity := Critical; reason := danger |}
  | None =>
      match is_destructive_bash_allow rule with
      | Some danger =>
          Some {| danger_rule := rule; rule_index := i; severity := Warning; reason := danger |}
      | None => None
      end
  end.

Definition detect_dangerous_rules (rules : list PermissionRule) : list DangerousRule :=
  omap (λ '(i, rule), rule_danger i rule) (enumerate rules).

Definition format_dangerous_warning (d : DangerousRule) : str :=
  lit "[" ++ severity_label (severity d) ++ lit "] Dangerous permission rule: " ++
  quoted (format_rule_string (danger_rule d) ++ lit "  [allow]") ++ lit " at line " ++
  dec (rule_index d + 1) ++ lit " — " ++ reason d.

(** ** [RuleSet::new] *)

Definition star_warning (r : PermissionRule) : option str :=
  match rule_content r with
  | None => None
  | Some content =>
      if bool_decide (tool_name r ∈ PATH_RULE_TOOLS) && star_meaning_changed content then
        Some (lit "`*` in a path rule no longer matches across `/`; use `**` to reach subdirectories: "
              ++ format_rule_string r)
      else None
  end.

(** The warnings logged, in order, and the rule set. *)
Definition ruleset_new {GS : Globset} (rules : list PermissionRule) : list str * RuleSet :=
  ((format_shadow_warning <$> detect_shadowed_rules rules) ++
   (format_dangerous_warning <$> detect_dangerous_rules rules) ++
   omap star_warning rules,
   rules).

(** ** What the shadow warnings mean *)

Section ShadowFacts.
Context {GS : Globset}.

Lemma matches_content_prefix q c :
  matches_content (q ++ lit ":*") c = true ↔ c = q ∨ ∃ z, c = q ++ [32%N] ++ z.
Proof.
  unfold matches_content. rewrite (proj2 (strip_suffix_Some _ _ _)) by done.
  rewrite orb_true_iff, bool_decide_eq_true, starts_with_spec.
  by setoid_rewrite <-app_assoc.
Qed.

Lemma no_glob_no_star_suffix p : has_glob p = false → strip_suffix ":*" p = None.
Proof.
  intros H. destruct (strip_suffix ":*" p) as [q|] eqn:E; [|done].
  apply strip_suffix_Some in E as ->. rewrite has_glob_false in H.
  exfalso. apply (H (ch "*")); [set_solver|by_compute].
Qed.

Lemma matches_content_literal p c :
  has_glob p = false → matches_content p c = bool_decide (p = c).
Proof.
  intros H. unfold matches_content. by rewrite no_glob_no_star_suffix, H.
Qed.

(** The pairs of patterns for which the textual test is exact: everything,
    the same pattern, a covered pattern without wildcards, or two
    [prefix:*] patterns. *)
Definition decided_cover (covering covered : PermissionRule) : Prop :=
  match rule_content covering, rule_content covered with
  | None, _ => True
  | Some _, None => False
  | Some hc, Some lc =>
      hc = lc ∨ has_glob lc = false ∨
      ∃ q p, hc = q ++ lit ":*" ∧ lc = p ++ lit ":*" ∧ lc ≠ q
  end.

Lemma prefix_pattern_cover q p c :
  p ++ lit ":*" ≠ q → matches_content (q ++ lit ":*") (p ++ lit ":*") = true →
  matches_content (p ++ lit ":*") c = true → matches_content (q ++ lit ":*") c = true.
Proof.
  rewrite !matches_content_prefix. intros Hne [?|[z Hz]] Hc; [done|].
  assert (∃ z', p = q ++ [32%N] ++ z') as [z' ->].
  { change (p ++ ([ch ":"] ++ [ch "*"]) = q ++ [32%N] ++ z) in Hz. revert Hz.
    destruct z as [|x z _] using rev_ind; rewrite ?app_assoc.
    - rewrite app_nil_r. intros [_ E]%app_inj_tail. done.
    - intros [Hz _]%app_inj_tail. revert Hz.
      destruct z as [|y z _] using rev_ind; rewrite ?app_assoc.
      + rewrite app_nil_r. intros [_ E]%app_inj_tail. done.
      + intros [-> _]%app_inj_tail. exists z. by rewrite <-!app_assoc. }
  right. destruct Hc as [->|[y ->]]; [eauto|]. rewrite <-!app_assoc. eauto.
Qed.

Lemma matches_tool_name_spec rule actual :
  matches_tool_name rule actual = true ↔
  actual = rule ∨ ∃ x, actual = rule ++ lit "__" ++ x.
Proof.
  unfold matches_tool_name. case_decide as Heq; [split; [by left|done]|].
  destruct (strip_prefix rule actual) as [rest|] eqn:E.
  - apply strip_prefix_Some in E as ->. rewrite starts_with_spec. split.
    + intros [x ->]. eauto.
    + intros [H|[x H]]; [congruence|]. apply app_inv_head in H. eauto.
  - split; [done|]. intros [H|[x H]]; [congruence|].
    apply strip_prefix_Some in H. congruence.
Qed.

(** Naming a prefix of a tool's name is transitive. *)
Lemma matches_tool_name_trans a b c :
  matches_tool_name a b = true → matches_tool_name b c = true → matches_tool_name a c = true.
Proof.
  rewrite !matches_tool_name_spec. intros [->|[x ->]] [->|[y ->]]; eauto.
  right. rewrite <-!app_assoc. eauto.
Qed.

Lemma decided_cover_matches s w tool content :
  matches_tool_name (tool_name s) (tool_name w) = true →
  is_shadowed_by s w = true → decided_cover s w →
  is_Some (rule_matches tool content w) → is_Some (rule_matches tool content s).
Proof.
  unfold rule_matches. intros Ht Hs Hc.
  destruct (matches_tool_name (tool_name w) tool) eqn:Hw; [|by intros [? ?]].
  rewrite (matches_tool_name_trans _ _ _ Ht Hw).
  cbn [negb]. unfold is_shadowed_by, decided_cover in *.
  destruct (rule_content s) as [hc|]; [|by destruct content].
  destruct (rule_content w) as [lc|]; [|done].
  destruct content as [c|]; [|by intros [? ?]].
  destruct (matches_content lc c) eqn:Hlc; [|by intros [? ?]]. intros _.
  assert (matches_content hc c = true) as ->; [|done].
  apply orb_true_iff in Hs as [->%bool_decide_eq_true|Hs]; [done|].
  destruct Hc as [->|[Hlit|(q & p & -> & -> & Hne)]]; [done| |].
  - rewrite matches_content_literal in Hlc by done.
    by apply bool_decide_eq_true in Hlc as ->.
  - by eapply prefix_pattern_cover.
Qed.

Lemma elem_of_detect_shadowed rules sh :
  sh ∈ detect_shadowed_rules rules →
  rules !! shadowed_index sh = Some (shadowed sh) ∧
  rules !! shadowing_index sh = Some (shadowing sh) ∧
  overrides (shadowing sh) (shadowed sh) = true.
Proof.
  unfold detect_shadowed_rules. intros ([j w] & Hw & Hsh)%list_elem_of_omap.
  destruct (find_first _ _) as [[i s]|] eqn:E; [|done]. simplify_eq/=.
  apply find_first_Some in E as [Hs Ho].
  by rewrite elem_of_enumerate in Hw, Hs.
Qed.

Lemma overrides_elim s w : overrides s w = true →
  (behavior_rank (behavior w) < behavior_rank (behavior s))%Z ∧
  matches_tool_name (tool_name s) (tool_name w) = true ∧ is_shadowed_by s w = true.
Proof.
  unfold overrides. rewrite !andb_true_iff, bool_decide_eq_true. by intros [[? ?] ?].
Qed.

(** The shadow warning is right: a rule is reported exactly when some
    rule of a stronger behaviour covers it textually; the indices reported
    are those of the two rules; and, for the patterns on which the textual
    test is exact, the reported rule is never the one that decides a call -
    every call it matches is matched by the rule that overrides it. *)
Theorem shadowed_rules_never_decide rules :
  (∀ j, (∃ sh, sh ∈ detect_shadowed_rules rules ∧ shadowed_index sh = j) ↔
        ∃ i w s, rules !! j = Some w ∧ rules !! i = Some s ∧ overrides s w = true) ∧
  (∀ sh, sh ∈ detect_shadowed_rules rules →
     rules !! shadowed_index sh = Some (shadowed sh) ∧
     rules !! shadowing_index sh = Some (shadowing sh) ∧
     (decided_cover (shadowing sh) (shadowed sh) → ∀ tool content,
        (is_Some (rule_matches tool content (shadowed sh)) →
         is_Some (rule_matches tool content (shadowing sh))) ∧
        hit_rule (evaluate rules tool content) ≠ Some (shadowed sh))).
Proof.
  split.
  - intros j. split.
    + intros (sh & (Hj & Hi & Ho)%elem_of_detect_shadowed & <-).
      by exists (shadowing_index sh), (shadowed sh), (shadowing sh).
    + intros (i & w & s & Hw & Hs & Ho).
      destruct (find_first (λ '(_, stronger), overrides stronger w) (enumerate rules))
        as [[i' s']|] eqn:E.
      * exists {| shadowed := w; shadowing := s'; shadowed_index := j; shadowing_index := i' |}.
        split; [|done]. unfold detect_shadowed_rules. apply list_elem_of_omap.
        exists (j, w). rewrite elem_of_enumerate. by rewrite E.
      * rewrite find_first_None in E. specialize (E (i, s)).
        rewrite elem_of_enumerate, Ho in E. by discriminate E.
  - intros sh (Hw & Hs & (Hlt & Ht & Hc)%overrides_elim)%elem_of_detect_shadowed.
    split_and!; [done..|]. intros Hd tool content.
    assert (is_Some (rule_matches tool content (shadowed sh)) →
            is_Some (rule_matches tool content (shadowing sh))) as Hm
      by (by apply decided_cover_matches).
    split; [done|].
    intros (sc & [[H _]%list_elem_of_filter Hmax]%best_rule_elem)%decide_rules_rule.
    specialize (Hmax (shadowing sh)). rewrite <-Z.nlt_ge in Hmax. apply Hmax; [|done].
    apply list_elem_of_filter. split; [by apply Hm|]. by apply list_elem_of_lookup_2 in Hs.
Qed.
End ShadowFacts.

(** A broad deny listed after a narrower allow. *)
Definition shadow_allow : PermissionRule :=
  {| source := UserSettings; behavior := BehaviorAllow; tool_name := lit "Bash";
     rule_content := Some (lit "git push:*") |}.
Definition shadow_deny : PermissionRule :=
  {| source := UserSettings; behavior := BehaviorDeny; tool_name := lit "Bash";
     rule_content := Some (lit "git:*") |}.

Lemma shadowed_rules_never_decide_witness :
  hit_rule (evaluate (GS := no_globset) [shadow_allow; shadow_deny] "Bash"
              (Some (lit "git push origin"))) ≠ Some shadow_allow.
Proof.
  assert (decided_cover shadow_deny shadow_allow) as Hc.
  { right. right. exists (lit "git"), (lit "git push"). by_compute. }
  refine (proj2 (proj2 (proj2 (proj2 (shadowed_rules_never_decide (GS := no_globset) _)
    {| shadowed := shadow_allow; shadowing := shadow_deny;
       shadowed_index := 0; shadowing_index := 1 |} _)) Hc _ _)).
  vm_compute. left.
Defined.

(** ** What the danger warnings report *)

(** The rules that let a powerful tool do anything. *)
Definition unrestricted (r : PermissionRule) : Prop :=
  behavior r = BehaviorAllow ∧ tool_name r ∈ DANGEROUS_TOOLS ∧
  match rule_content r with
  | None => True
  | Some c => c ∈ [lit "*"; lit "**"; lit "/**"; lit "**/*"]
  end.

(** The rules that allow a whole class of destructive commands. *)
Definition destructive_class (r : PermissionRule) : Prop :=
  behavior r = BehaviorAllow ∧ tool_name r = lit "Bash" ∧
  ∃ cmd, cmd ∈ DESTRUCTIVE_BASH_SUBCOMMANDS ∧ rule_content r = Some (cmd ++ lit ":*").

Lemma is_broad_allow_Some r :
  behavior r = BehaviorAllow → (is_Some (is_broad_allow r) ↔ unrestricted r).
Proof.
  intros Hb. unfold is_broad_allow, unrestricted.
  destruct (decide (tool_name r ∈ DANGEROUS_TOOLS)) as [Ht|Ht].
  - rewrite bool_decide_eq_true_2 by done. cbn [negb].
    destruct (rule_content r) as [c|]; [|by split].
    repeat case_decide; rewrite !elem_of_cons, elem_of_nil in *;
      (split; [by intros []|intuition eauto]) || (split; [intuition|done]).
  - rewrite bool_decide_eq_false_2 by done. cbn [negb]. split; [by intros []|intuition].
Qed.

Lemma is_destructive_bash_allow_Some r :
  behavior r = BehaviorAllow → (is_Some (is_destructive_bash_allow r) ↔ destructive_class r).
Proof.
  intros Hb. unfold is_destructive_bash_allow, destructive_class.
  destruct (decide (tool_name r = lit "Bash")) as [Ht|Ht].
  - rewrite bool_decide_eq_true_2 by done. cbn [negb].
    destruct (rule_content r) as [c|].
    + destruct (find_first _ _) as [cmd|] eqn:E.
      * apply find_first_Some in E as [? ->%bool_decide_eq_true]. split; [|done]. eauto 10.
      * split; [by intros []|]. intros (_ & _ & cmd & Hc & [= ->]).
        rewrite find_first_None in E. specialize (E _ Hc).
        by apply bool_decide_eq_false in E.
    + split; [by intros []|]. by intros (_ & _ & ? & _ & ?).
  - rewrite bool_decide_eq_false_2 by done. cbn [negb]. split; [by intros []|intuition].
Qed.

Lemma rule_danger_Some i r d : rule_danger i r = Some d →
  danger_rule d = r ∧ rule_index d = i ∧ behavior r = BehaviorAllow ∧
  (severity d = Critical ∧ unrestricted r ∨
   severity d = Warning ∧ destructive_class r ∧ ¬ unrestricted r).
Proof.
  unfold rule_danger. destruct (decide (behavior r ≠ BehaviorAllow)) as [|Hb]; [done|].
  apply dec_stable in Hb.
  pose proof (is_broad_allow_Some r Hb) as Hu. pose proof (is_destructive_bash_allow_Some r Hb) as Hd.
  destruct (is_broad_allow r).
  - intros [= <-]. cbn. intuition eauto.
  - destruct (is_destructive_bash_allow r); [|done]. intros [= <-]. cbn.
    split_and!; [done..|]. right. split_and!; [done|by apply Hd|].
    intros [? ?]%Hu. done.
Qed.

Lemma destructive_class_restricted r : destructive_class r → ¬ unrestricted r.
Proof.
  intros (_ & _ & cmd & Hc & Hr) (_ & _ & Hu). rewrite Hr in Hu. clear Hr. revert cmd Hc Hu.
  change (∀ cmd, cmd ∈ DESTRUCTIVE_BASH_SUBCOMMANDS →
    cmd ++ lit ":*" ∉ [lit "*"; lit "**"; lit "/**"; lit "**/*"]).
  apply (Forall_forall (λ cmd, cmd ++ lit ":*" ∉ [lit "*"; lit "**"; lit "/**"; lit "**/*"])).
  by_compute.
Qed.

Lemma rule_danger_is_Some i r :
  unrestricted r ∨ destructive_class r → is_Some (rule_danger i r).
Proof.
  intros H. assert (behavior r = BehaviorAllow) as Hb by (by destruct H as [[? _]|[? _]]).
  unfold rule_danger. rewrite decide_False by auto.
  destruct (is_broad_allow r) eqn:E1; [eauto|].
  destruct (is_destructive_bash_allow r) eqn:E2; [eauto|].
  destruct H as [H|H].
  - apply (is_broad_allow_Some r Hb) in H as [? ?]. congruence.
  - apply (is_destructive_bash_allow_Some r Hb) in H as [? ?]. congruence.
Qed.

(** Loading a rule set reports as critical exactly the allow rules that
    leave a powerful tool unrestricted, and as a warning exactly the allow
    rules for a whole class of destructive commands; each report carries its
    rule and the rule's position, and no rule is reported twice. *)
Theorem dangerous_rules_reported rules :
  (∀ d, d ∈ detect_dangerous_rules rules → rules !! rule_index d = Some (danger_rule d)) ∧
  (∀ i r, rules !! i = Some r →
     ((∃ d, d ∈ detect_dangerous_rules rules ∧ rule_index d = i ∧ severity d = Critical)
        ↔ unrestricted r) ∧
     ((∃ d, d ∈ detect_dangerous_rules rules ∧ rule_index d = i ∧ severity d = Warning)
        ↔ destructive_class r)) ∧
  NoDup (rule_index <$> detect_dangerous_rules rules).
Proof.
  assert (∀ d, d ∈ detect_dangerous_rules rules ↔
            ∃ i r, rules !! i = Some r ∧ rule_danger i r = Some d) as Hin.
  { intros d. unfold detect_dangerous_rules. rewrite list_elem_of_omap. split.
    - intros ([i r] & Hi & Hd). rewrite elem_of_enumerate in Hi. eauto.
    - intros (i & r & Hi & Hd). exists (i, r). by rewrite elem_of_enumerate. }
  split_and!.
  - intros d (i & r & Hi & (-> & -> & _)%rule_danger_Some)%Hin. done.
  - intros i r Hi. split; split.
    + intros (d & (i' & r' & Hi' & Hd)%Hin & <- & Hs).
      apply rule_danger_Some in Hd as (_ & Ei & _ & [[_ ?]|[? _]]); [|congruence].
      by simplify_eq.
    + intros Hu. pose proof Hu as [Hb _].
      destruct (rule_danger_is_Some i r) as [d Hd]; [by left|].
      exists d. rewrite Hin. split; [eauto|].
      apply rule_danger_Some in Hd as (_ & -> & _ & [[? _]|[_ [_ ?]]]); done.
    + intros (d & (i' & r' & Hi' & Hd)%Hin & <- & Hs).
      apply rule_danger_Some in Hd as (_ & Ei & _ & [[? _]|[_ [? _]]]); [congruence|].
      by simplify_eq.
    + intros Hu. destruct (rule_danger_is_Some i r) as [d Hd]; [by right|].
      exists d. rewrite Hin. split; [eauto|].
      apply rule_danger_Some in Hd as (_ & -> & _ & [[_ ?]|[? _]]); [|done].
      by destruct (destructive_class_restricted r).
  - unfold detect_dangerous_rules, enumerate. apply NoDup_omap_imap.
    intros i r d (_ & ? & _)%rule_danger_Some. done.
Qed.
