(* ===== verification/Gate.v ===== *)
(** * The permission gate ([crates/permissions/src/gate.rs])

    The decision a tool call gets: the tool's own opinion, the rule engine,
    the paths no mode opens, the session's mode, and, last, a classifier.
    The gate only decides; it never prompts.  The order of the checks is the
    safety argument, and the theorems say what each check buys. *)

From stdpp Require Import base option numbers sets strings list.
From S2P Require Import Prelude RustStr PermTypes Rule Path PathRule Shell RuleSet.

(** ** What the gate asks of a tool ([core/src/interface/tool.rs]) *)

Inductive ValidationResult :=
| ValidationOk
| ValidationErr (msg : str) (code : Z).

(** The tool's own verdict. *)
Inductive ToolDecision :=
| ToolAllow (decision_reason : option str)
| ToolDeny (reason decision_reason : option str)
| ToolAsk (message : str) (decision_reason : option str).

Inductive NetworkModeConfig := Unrestricted | DenyAll | Allowlist.

(** The sandbox policy a tool's own check is judged against. *)
Record SandboxSettings := {
  allow_read : list str;
  deny_read : list str;
  allowed_domains : list str;
  network_mode : NetworkModeConfig;
  deny_write : list str;
  allow_write : list str;
  state_root : option str;
  require_enforcement : bool;
}.

Definition default_sandbox : SandboxSettings :=
  {| allow_read := []; deny_read := []; allowed_domains := []; network_mode := Unrestricted;
     deny_write := []; allow_write := []; state_root := None; require_enforcement := false |}.

(** The parts of [ToolContext] that [RuleSetPermission::check] sets and the
    gate and the tools' checks read; the mode is the session's mode at the
    moment it is read. *)
Record ToolContext := {
  cwd : str;
  session_id : str;
  sandbox : SandboxSettings;
  permission_mode : PermissionMode;
}.

(** The methods of the [Tool] trait the gate calls. *)
Record Tool := {
  name : str;
  validate_input : value → ToolContext → ValidationResult;
  check_permissions : value → ToolContext → ToolDecision;
  permission_match_content : value → option str;
  permission_content_kind : PermissionContentKind;
  is_read_only : value → bool;
  self_allow_overrides_mode : bool;
  prompt : str;
}.

(** ** Classifiers *)

Inductive ClassifyDecision :=
| ClassifyAllow (reason : str)
| ClassifyDeny (reason : str)
| ClassifyAllowWithEdit (reason suggested_edits : str)
| ClassifyDefer.

(** The [AutoClassifier] trait: tool name, tool description, input. *)
Record AutoClassifier := {
  classify : str → str → value → ClassifyDecision;
}.

(** ** The gate's state *)

Record PermissionGate := {
  gate_rules : RuleSet;
  auto_classifier : option AutoClassifier;
  denial_count : Z;
  total_denial_count : Z;
}.

Inductive GateError := InvalidInput (message : str) (code : Z).

Definition gate_new (rules : RuleSet) : PermissionGate :=
  {| gate_rules := rules; auto_classifier := None; denial_count := 0; total_denial_count := 0 |}.

Definition with_rules (g : PermissionGate) (rules : RuleSet) : PermissionGate :=
  {| gate_rules := rules; auto_classifier := auto_classifier g;
     denial_count := denial_count g; total_denial_count := total_denial_count g |}.

Definition with_classifier (g : PermissionGate) (c : AutoClassifier) : PermissionGate :=
  {| gate_rules := gate_rules g; auto_classifier := Some c;
     denial_count := denial_count g; total_denial_count := total_denial_count g |}.

Definition add_rules (g : PermissionGate) (additional : list PermissionRule) : PermissionGate :=
  with_rules g (extend (gate_rules g) additional).

Definition remove_rules_by_source (g : PermissionGate) (src : RuleSource) : PermissionGate :=
  with_rules g (remove_by_source (gate_rules g) src).

(** *** Denial counters: [fetch_add] wraps at 64 bits *)

Definition wrap_u64 (n : Z) : Z := (n mod 2 ^ 64)%Z.

Definition record_denial (g : PermissionGate) : PermissionGate :=
  {| gate_rules := gate_rules g; auto_classifier := auto_classifier g;
     denial_count := wrap_u64 (denial_count g + 1);
     total_denial_count := wrap_u64 (total_denial_count g + 1) |}.

Definition record_success (g : PermissionGate) : PermissionGate :=
  {| gate_rules := gate_rules g; auto_classifier := auto_classifier g;
     denial_count := 0; total_denial_count := total_denial_count g |}.

Definition should_fallback_to_prompting (g : PermissionGate) : bool :=
  bool_decide (3 ≤ denial_count g)%Z || bool_decide (20 ≤ total_denial_count g)%Z.

(** ** Paths no mode opens, and paths no tool opens by itself *)

Definition BYPASS_IMMUNE_COMPONENTS : list str := [lit ".ssh"; lit ".aws"; lit ".gnupg"].
Definition CONFIRMATION_REQUIRED_COMPONENTS : list str :=
  [lit ".git"; lit ".claude"; lit ".atta"].
Definition SYSTEM_PATHS : list str := [lit "/etc/passwd"; lit "/etc/shadow"; lit "/etc/ssh/"].
Definition DESTRUCTIVE_PATTERNS : list str := [lit "rm -rf /"; lit "mkfs."; lit "dd if="].

Definition has_component (names : list str) (lowered : str) : bool :=
  contains_char slash lowered && existsb (λ c, bool_decide (c ∈ names)) (split slash lowered).

Definition is_path_confirmation_required (content : str) : bool :=
  has_component CONFIRMATION_REQUIRED_COMPONENTS (to_lowercase content).

(** The first occurrence of the pattern starts the text or follows a space. *)
Definition at_word_start (pattern lowered : str) : bool :=
  match find_sub pattern lowered with
  | Some before => bool_decide (before = []) || bool_decide (last before = Some 32%N)
  | None => false
  end.

Definition is_path_bypass_immune (content : str) : bool :=
  let lowered := to_lowercase content in
  if contains_char slash lowered &&
     (existsb (λ c, bool_decide (c ∈ BYPASS_IMMUNE_COMPONENTS)) (split slash lowered) ||
      existsb (λ p, contains p lowered) SYSTEM_PATHS)
  then true
  else existsb (λ p, at_word_start p lowered) DESTRUCTIVE_PATTERNS.

(** ** The decision *)

Definition mode_reason (m : PermissionMode) : option DecisionReason := Some (ReasonMode m).

(** [matches!(mode, ..)]. *)
Definition is_plan (m : PermissionMode) : bool :=
  match m with ModePlan => true | _ => false end.
Definition is_dont_ask (m : PermissionMode) : bool :=
  match m with ModeDontAsk => true | _ => false end.
Definition is_bypass (m : PermissionMode) : bool :=
  match m with ModeBypassPermissions => true | _ => false end.
Definition is_auto_or_yolo (m : PermissionMode) : bool :=
  match m with ModeAuto | ModeYolo => true | _ => false end.

Definition allow_because (why : DecisionReason) : PermissionDecision :=
  DecisionAllow None (Some why).

Section Gate.
Context {GS : Globset} {HE : HostEnv}.

(** The path of a path tool, resolved. *)
Definition resolved_path (tool : Tool) (input : value) (ctx : ToolContext)
    : option (str * ResolvedPath) :=
  match path_rule_group (permission_content_kind tool), permission_match_content tool input with
  | Some group, Some c => Some (group, resolve_path c (cwd ctx))
  | _, _ => None
  end.

(** Step 3: the rule engine's verdict on the call. *)
Definition rule_hit (rules : RuleSet) (tool : Tool) (input : value) (ctx : ToolContext)
    : RuleHit :=
  let content := permission_match_content tool input in
  match resolved_path tool input ctx, content with
  | Some (group, path), _ => evaluate_path rules (name tool) group path (cwd ctx)
  | None, Some line =>
      if decide (permission_content_kind tool = ShellCommand)
      then evaluate_shell rules (name tool) line
      else evaluate rules (name tool) content
  | None, None => evaluate rules (name tool) content
  end.

(** The content and every spelling of its path. *)
Definition checked_strings (tool : Tool) (input : value) (ctx : ToolContext) : list str :=
  (match permission_match_content tool input with Some c => [c] | None => [] end) ++
  match resolved_path tool input ctx with Some (_, path) => all_paths path | None => [] end.

(** Step 8: the mode decides. *)
Definition mode_dispatch (g : PermissionGate) (tool : Tool) (input : value)
    (mode : PermissionMode) : PermissionDecision :=
  let ask := DecisionAsk (lit "Allow " ++ name tool ++ lit "?") (mode_reason mode) in
  match mode with
  | ModeBypassPermissions => allow_because (ReasonMode mode)
  | ModeAcceptEdits =>
      if is_read_only tool input || bool_decide (name tool = lit "Edit")
         || bool_decide (name tool = lit "Write")
      then allow_because (ReasonMode mode)
      else ask
  | ModeDontAsk => DecisionDeny "dontAsk mode and no rule matched" (ReasonMode mode)
  | ModeBubble =>
      DecisionAsk "Bubble: forwarding permission request to parent agent" (mode_reason mode)
  | ModeDefault | ModePlan | ModeAuto | ModeYolo =>
      if is_plan mode && is_read_only tool input
      then allow_because (ReasonMode mode)
      else
        let decision :=
          if is_auto_or_yolo mode
          then match auto_classifier g with
               | Some c => classify c (name tool) (prompt tool) input
               | None => ClassifyDefer
               end
          else ClassifyDefer in
        match decision with
        | ClassifyAllow reason => allow_because (ReasonOther (lit "auto-classifier: " ++ reason))
        | ClassifyDeny reason =>
            DecisionDeny (lit "classifier denied: " ++ reason) (ReasonClassifier "llm")
        | ClassifyAllowWithEdit reason edits =>
            allow_because (ReasonOther (lit "auto-classifier: " ++ reason ++
              match edits with
              | [] => []
              | _ => lit " (suggested edits: " ++ edits ++ lit ")"
              end))
        | ClassifyDefer => ask
        end
  end.

(** Steps 5 to 8, once the rules and the immune paths let the call pass. *)
Definition after_rules (g : PermissionGate) (tool : Tool) (input : value) (ctx : ToolContext)
    (tool_self_allow : bool) (rule_allow rule_ask : option PermissionRule)
    : PermissionDecision :=
  let mode := permission_mode ctx in
  let mode_denials_apply := negb (tool_self_allow && self_allow_overrides_mode tool) in
  if mode_denials_apply && is_plan mode && negb (is_read_only tool input)
  then DecisionDeny "plan mode forbids non-readonly tools" (ReasonMode mode)
  else if mode_denials_apply && is_dont_ask mode && bool_decide (rule_allow = None)
  then DecisionDeny "dontAsk mode and no rule matched" (ReasonMode mode)
  else
    let go_on :=
      let needs_confirmation :=
        existsb is_path_confirmation_required (checked_strings tool input ctx) in
      if tool_self_allow && negb needs_confirmation
      then allow_because (ReasonOther "tool allowed")
      else match rule_allow with
           | Some rule => allow_because (ReasonRule rule)
           | None => mode_dispatch g tool input mode
           end in
    match rule_ask with
    | None => go_on
    | Some rule =>
        match mode with
        | ModeBypassPermissions => go_on
        | ModeDontAsk =>
            DecisionDeny (lit "dontAsk mode and an ask rule matched: " ++ format_rule_string rule)
              (ReasonRule rule)
        | _ =>
            DecisionAsk (name tool ++ lit " matches " ++ format_rule_string rule ++
                         lit ", which requires confirmation") (Some (ReasonRule rule))
        end
    end.

(** Steps 3 to 8. *)
Definition decide_call (g : PermissionGate) (tool : Tool) (input : value) (ctx : ToolContext)
    (tool_self_allow : bool) : PermissionDecision :=
  let hit := rule_hit (gate_rules g) tool input ctx in
  match hit with
  | HitDeny rule =>
      DecisionDeny (lit "denied by rule: " ++ format_rule_string rule) (ReasonRule rule)
  | _ =>
      match find_first is_path_bypass_immune (checked_strings tool input ctx) with
      | Some content =>
          DecisionDeny (lit "access to protected path '" ++ content ++
            lit "' is blocked regardless of permission mode — this path is bypass-immune")
            (ReasonToolBuiltin "bypass_immune")
      | None =>
          after_rules g tool input ctx tool_self_allow
            (match hit with HitAllow rule => Some rule | _ => None end)
            (match hit with HitAsk rule => Some rule | _ => None end)
      end
  end.

(** [PermissionGate::check]. *)
Definition gate_check (g : PermissionGate) (tool : Tool) (input : value) (ctx : ToolContext)
    : result PermissionDecision GateError :=
  match validate_input tool input ctx with
  | ValidationErr msg code => Err (InvalidInput msg code)
  | ValidationOk =>
      match check_permissions tool input ctx with
      | ToolDeny reason _ => Ok (DecisionDeny (default [] reason) (ReasonOther "tool denied"))
      | ToolAllow _ => Ok (decide_call g tool input ctx true)
      | ToolAsk _ _ => Ok (decide_call g tool input ctx false)
      end
  end.
End Gate.

(** ** What each verdict takes *)

Definition self_allows (tool : Tool) (input : value) (ctx : ToolContext) : bool :=
  match check_permissions tool input ctx with ToolAllow _ => true | _ => false end.

Definition self_denies (tool : Tool) (input : value) (ctx : ToolContext) : bool :=
  match check_permissions tool input ctx with ToolDeny _ _ => true | _ => false end.

(** The mode may refuse the call. *)
Definition mode_bound (tool : Tool) (input : value) (ctx : ToolContext) : bool :=
  negb (self_allows tool input ctx && self_allow_overrides_mode tool).

(** The classifier's word, in the modes that ask it. *)
Definition classifier_says (g : PermissionGate) (tool : Tool) (input : value)
    (mode : PermissionMode) : ClassifyDecision :=
  if is_auto_or_yolo mode
  then match auto_classifier g with
       | Some c => classify c (name tool) (prompt tool) input
       | None => ClassifyDefer
       end
  else ClassifyDefer.

Definition classifier_allows (d : ClassifyDecision) : bool :=
  match d with ClassifyAllow _ | ClassifyAllowWithEdit _ _ => true | _ => false end.
Definition classifier_denies (d : ClassifyDecision) : bool :=
  match d with ClassifyDeny _ => true | _ => false end.

(** The mode alone lets the call through. *)
Definition mode_allows (g : PermissionGate) (tool : Tool) (input : value) (mode : PermissionMode)
    : bool :=
  match mode with
  | ModeBypassPermissions => true
  | ModeAcceptEdits =>
      is_read_only tool input || bool_decide (name tool = lit "Edit")
      || bool_decide (name tool = lit "Write")
  | ModePlan => is_read_only tool input
  | ModeAuto | ModeYolo => classifier_allows (classifier_says g tool input mode)
  | ModeDefault | ModeDontAsk | ModeBubble => false
  end.

Lemma mode_dispatch_allow g tool input mode :
  is_allow (mode_dispatch g tool input mode) = mode_allows g tool input mode.
Proof.
  unfold mode_dispatch, mode_allows, classifier_says.
  destruct mode; cbn [is_allow is_plan is_auto_or_yolo andb allow_because]; try done;
    try (by case_match); destruct (auto_classifier g) as [c|]; try done;
    by destruct (classify c _ _ _).
Qed.

Lemma mode_dispatch_deny g tool input mode :
  is_deny (mode_dispatch g tool input mode) =
  is_dont_ask mode || classifier_denies (classifier_says g tool input mode).
Proof.
  unfold mode_dispatch, classifier_says.
  destruct mode; cbn [is_deny is_plan is_dont_ask is_auto_or_yolo andb orb allow_because
    classifier_denies]; try done;
    try (by case_match); destruct (auto_classifier g) as [c|]; try done;
    by destruct (classify c _ _ _).
Qed.

Section GateFacts.
Context {GS : Globset} {HE : HostEnv}.

Definition rule_verdict (g : PermissionGate) (tool : Tool) (input : value) (ctx : ToolContext)
    : option RuleBehavior :=
  hit_kind (rule_hit (gate_rules g) tool input ctx).

Definition touches_immune (tool : Tool) (input : value) (ctx : ToolContext) : bool :=
  existsb is_path_bypass_immune (checked_strings tool input ctx).

(** The tool's own allow counts. *)
Definition fast_path (tool : Tool) (input : value) (ctx : ToolContext) : bool :=
  self_allows tool input ctx &&
  negb (existsb is_path_confirmation_required (checked_strings tool input ctx)).

Definition allow_spec g tool input ctx : Prop :=
  validate_input tool input ctx = ValidationOk ∧
  self_denies tool input ctx = false ∧
  rule_verdict g tool input ctx ≠ Some BehaviorDeny ∧
  touches_immune tool input ctx = false ∧
  (mode_bound tool input ctx = true →
     (permission_mode ctx = ModePlan → is_read_only tool input = true) ∧
     (permission_mode ctx = ModeDontAsk → rule_verdict g tool input ctx = Some BehaviorAllow)) ∧
  (rule_verdict g tool input ctx = Some BehaviorAsk →
     permission_mode ctx = ModeBypassPermissions) ∧
  (fast_path tool input ctx = true ∨ rule_verdict g tool input ctx = Some BehaviorAllow ∨
   mode_allows g tool input (permission_mode ctx) = true).

Definition deny_spec g tool input ctx : Prop :=
  let mode := permission_mode ctx in
  let verdict := rule_verdict g tool input ctx in
  let bound := mode_bound tool input ctx = true in
  let undecided := fast_path tool input ctx = false ∧ verdict = None in
  self_denies tool input ctx = true ∨
  verdict = Some BehaviorDeny ∨
  touches_immune tool input ctx = true ∨
  (bound ∧ mode = ModePlan ∧ is_read_only tool input = false) ∨
  (bound ∧ mode = ModeDontAsk ∧ verdict ≠ Some BehaviorAllow) ∨
  (mode = ModeDontAsk ∧ (verdict = Some BehaviorAsk ∨ undecided)) ∨
  (undecided ∧ classifier_denies (classifier_says g tool input mode) = true).

Lemma find_first_existsb {A} (p : A → bool) l :
  existsb p l = match find_first p l with Some _ => true | None => false end.
Proof. induction l as [|x l IH]; cbn; [done|]. by destruct (p x). Qed.

(** What the steps after the rules come to, as booleans. *)
Lemma after_rules_allow g tool input ctx self ra rk :
  let mode := permission_mode ctx in
  let bound := negb (self && self_allow_overrides_mode tool) in
  is_allow (after_rules g tool input ctx self ra rk) =
  negb (bound && is_plan mode && negb (is_read_only tool input)) &&
  negb (bound && is_dont_ask mode && bool_decide (ra = None)) &&
  (bool_decide (rk = None) || is_bypass mode) &&
  (self && negb (existsb is_path_confirmation_required (checked_strings tool input ctx)) ||
   negb (bool_decide (ra = None)) || mode_allows g tool input mode).
Proof.
  cbv zeta. unfold after_rules. rewrite <-mode_dispatch_allow.
  destruct (negb (self && self_allow_overrides_mode tool)), (is_plan (permission_mode ctx)),
    (is_read_only tool input), (is_dont_ask (permission_mode ctx)); cbn [andb orb negb];
    try done; destruct ra as [a|]; cbn [andb orb negb]; try done;
    destruct (self && _); cbn [andb orb negb];
    destruct rk as [k|]; destruct (permission_mode ctx); done.
Qed.

Lemma after_rules_deny g tool input ctx self ra rk :
  let mode := permission_mode ctx in
  let bound := negb (self && self_allow_overrides_mode tool) in
  is_deny (after_rules g tool input ctx self ra rk) =
  (bound && is_plan mode && negb (is_read_only tool input)) ||
  (bound && is_dont_ask mode && bool_decide (ra = None)) ||
  is_dont_ask mode && negb (bool_decide (rk = None)) ||
  (bool_decide (rk = None) || is_bypass mode) && bool_decide (ra = None) &&
   negb (self && negb (existsb is_path_confirmation_required (checked_strings tool input ctx))) &&
   (is_dont_ask mode || classifier_denies (classifier_says g tool input mode)).
Proof.
  cbv zeta. unfold after_rules. rewrite <-mode_dispatch_deny.
  destruct (negb (self && self_allow_overrides_mode tool)), (is_plan (permission_mode ctx)),
    (is_read_only tool input), (is_dont_ask (permission_mode ctx)) eqn:Ed; cbn [andb orb negb];
    try done; destruct ra as [a|]; cbn [andb orb negb]; try done;
    destruct (self && _); cbn [andb orb negb];
    destruct rk as [k|]; destruct (permission_mode ctx); done.
Qed.

Definition allowed (r : result PermissionDecision GateError) : bool :=
  match r with Ok d => is_allow d | Err _ => false end.
Definition denied (r : result PermissionDecision GateError) : bool :=
  match r with Ok d => is_deny d | Err _ => false end.
Definition asked (r : result PermissionDecision GateError) : bool :=
  match r with Ok d => is_ask d | Err _ => false end.

(** A call that is valid and that the tool does not refuse. *)
Lemma gate_check_undenied g tool input ctx :
  validate_input tool input ctx = ValidationOk → self_denies tool input ctx = false →
  gate_check g tool input ctx = Ok (decide_call g tool input ctx (self_allows tool input ctx)).
Proof.
  unfold gate_check, self_denies, self_allows. intros ->. by destruct (check_permissions _ _ _).
Qed.

Lemma gate_check_self_denied g tool input ctx :
  validate_input tool input ctx = ValidationOk → self_denies tool input ctx = true →
  ∃ msg, gate_check g tool input ctx = Ok (DecisionDeny msg (ReasonOther "tool denied")).
Proof.
  unfold gate_check, self_denies. intros ->. destruct (check_permissions _ _ _); try done. eauto.
Qed.

(** [decide_call] in terms of the verdict's kind. *)
Lemma decide_call_cases g tool input ctx self :
  (rule_verdict g tool input ctx = Some BehaviorDeny ∨ touches_immune tool input ctx = true) ∧
    is_deny (decide_call g tool input ctx self) = true ∨
  touches_immune tool input ctx = false ∧
    ∃ ra rk, decide_call g tool input ctx self = after_rules g tool input ctx self ra rk ∧
      ((∃ r, ra = Some r ∧ rk = None ∧ rule_verdict g tool input ctx = Some BehaviorAllow) ∨
       (∃ r, ra = None ∧ rk = Some r ∧ rule_verdict g tool input ctx = Some BehaviorAsk) ∨
       (ra = None ∧ rk = None ∧ rule_verdict g tool input ctx = None)).
Proof.
  unfold decide_call, rule_verdict, touches_immune. rewrite find_first_existsb.
  destruct (rule_hit (gate_rules g) tool input ctx) as [r|r|r|]; cbn [hit_kind];
    [|by left; split; [left|]|..];
    (destruct (find_first _ _); [by left; split; [right|]|]; right; split; [done|]);
    eauto 10.
Qed.

Lemma is_plan_spec m : is_plan m = true ↔ m = ModePlan.
Proof. by destruct m. Qed.
Lemma is_dont_ask_spec m : is_dont_ask m = true ↔ m = ModeDontAsk.
Proof. by destruct m. Qed.
Lemma is_bypass_spec m : is_bypass m = true ↔ m = ModeBypassPermissions.
Proof. by destruct m. Qed.

(** When the gate allows a call. *)
Lemma gate_allow_iff g tool input ctx :
  allowed (gate_check g tool input ctx) = true ↔ allow_spec g tool input ctx.
Proof.
  unfold allow_spec.
  destruct (validate_input tool input ctx) eqn:Hv;
    [|by unfold gate_check; rewrite Hv; split; [|intros [? _]]].
  destruct (self_denies tool input ctx) eqn:Hd.
  { destruct (gate_check_self_denied g _ _ _ Hv Hd) as [msg ->]. by split; [|intros (_ & ? & _)]. }
  rewrite gate_check_undenied by done. cbn [allowed].
  destruct (decide_call_cases g tool input ctx (self_allows tool input ctx))
    as [[H Hdeny]|(Ht & ra & rk & -> & H)].
  { destruct (decide_call _ _ _ _ _); try done. split; [done|].
    intros (_ & _ & ? & ? & _). destruct H; congruence. }
  rewrite after_rules_allow. unfold mode_bound, fast_path. rewrite Ht.
  rewrite <-is_plan_spec, <-is_dont_ask_spec, <-is_bypass_spec.
  destruct (negb (_ && self_allow_overrides_mode tool)), (is_plan _), (is_dont_ask _),
    (is_bypass _), (is_read_only tool input), (self_allows _ _ _ && _), (mode_allows _ _ _ _),
    H as [(r & -> & -> & ->)|[(r & -> & -> & ->)|(-> & -> & ->)]];
    cbn; intuition congruence.
Qed.

(** When it denies a valid call, fails, and never asks. *)
Lemma gate_deny_iff g tool input ctx :
  (∀ msg code, gate_check g tool input ctx = Err (InvalidInput msg code) ↔
     validate_input tool input ctx = ValidationErr msg code) ∧
  (validate_input tool input ctx = ValidationOk →
     (denied (gate_check g tool input ctx) = true ↔ deny_spec g tool input ctx)) ∧
  (permission_mode ctx = ModeBypassPermissions ∨ permission_mode ctx = ModeDontAsk →
     asked (gate_check g tool input ctx) = false).
Proof.
  destruct (validate_input tool input ctx) as [|m c] eqn:Hv.
  2:{ assert (gate_check g tool input ctx = Err (InvalidInput m c)) as ->
        by (unfold gate_check; by rewrite Hv).
      split_and!; [intros ??; split; congruence|done..]. }
  destruct (self_denies tool input ctx) eqn:Hd.
  { destruct (gate_check_self_denied g _ _ _ Hv Hd) as [msg ->]. split_and!; [done| |done].
    intros _. split; [by left|done]. }
  rewrite gate_check_undenied by done. cbn [denied asked].
  split; [done|].
  destruct (decide_call_cases g tool input ctx (self_allows tool input ctx))
    as [[H Hdeny]|(Ht & ra & rk & -> & H)].
  { unfold deny_spec. destruct (decide_call _ _ _ _ _); try done. split; [|done]. intros _.
    split; [|done]. intros _. right. destruct H; eauto. }
  split.
  - intros _. rewrite after_rules_deny. unfold deny_spec, mode_bound, fast_path. rewrite Ht, Hd.
    rewrite <-is_plan_spec, <-is_dont_ask_spec.
    assert (classifier_denies (classifier_says g tool input (permission_mode ctx)) = true →
      is_dont_ask (permission_mode ctx) = false ∧ is_bypass (permission_mode ctx) = false) as Hc.
    { by destruct (permission_mode ctx). }
    assert (is_bypass (permission_mode ctx) = true → is_dont_ask (permission_mode ctx) = false) as Hb.
    { by destruct (permission_mode ctx). }
    destruct (negb (_ && self_allow_overrides_mode tool)), (is_plan _), (is_dont_ask _),
      (is_bypass _), (is_read_only tool input), (self_allows _ _ _ && _), (classifier_denies _),
      H as [(r & -> & -> & ->)|[(r & -> & -> & ->)|(-> & -> & ->)]];
      cbn; intuition congruence.
  - intros Hm. unfold after_rules, mode_dispatch, allow_because.
    destruct Hm as [-> | ->]; cbn [is_plan is_dont_ask];
      destruct rk, ra; repeat case_match; done.
Qed.

Lemma rule_hit_add_deny rs ds tool input ctx : all_deny ds →
  hit_kind (rule_hit (rs ++ ds) tool input ctx) = Some BehaviorDeny ∨
  rule_hit (rs ++ ds) tool input ctx = rule_hit rs tool input ctx.
Proof.
  intros Hds. unfold rule_hit.
  destruct (resolved_path tool input ctx) as [[group path]|].
  - by apply evaluate_path_add_deny.
  - destruct (permission_match_content tool input) as [line|]; [case_decide|].
    + by apply evaluate_shell_add_deny.
    + by apply evaluate_add_deny.
    + by apply evaluate_add_deny.
Qed.

Lemma rule_hit_add_allow rs more tool input ctx : all_allow more →
  same_refusals (hit_kind (rule_hit (rs ++ more) tool input ctx))
                (hit_kind (rule_hit rs tool input ctx)).
Proof.
  intros Hmore. unfold rule_hit.
  destruct (resolved_path tool input ctx) as [[group path]|].
  - by apply evaluate_path_add_allow.
  - destruct (permission_match_content tool input); [case_decide|].
    + by apply evaluate_shell_add_allow.
    + by apply decide_rules_add_allow.
    + by apply decide_rules_add_allow.
Qed.

Lemma rule_hit_reported rs tool input ctx : reported rs (rule_hit rs tool input ctx).
Proof.
  unfold rule_hit. destruct (resolved_path tool input ctx) as [[group path]|].
  - apply evaluate_path_reported.
  - destruct (permission_match_content tool input); [case_decide|];
      first [apply evaluate_shell_reported|apply decide_rules_reported].
Qed.

(** C13. Deny rules only restrict: adding deny rules to the gate leaves the
    answer to a call as it was, message and reason included, or turns it
    into a denial by one of the gate's deny rules - for every tool, input,
    mode and classifier. *)
Theorem deny_rules_only_restrict g ds tool input ctx :
  all_deny ds →
  gate_check (add_rules g ds) tool input ctx = gate_check g tool input ctx ∨
  ∃ msg r, gate_check (add_rules g ds) tool input ctx = Ok (DecisionDeny msg (ReasonRule r)) ∧
           r ∈ gate_rules (add_rules g ds) ∧ behavior r = BehaviorDeny.
Proof.
  intros Hds. unfold gate_check. destruct (validate_input tool input ctx); [|by left].
  assert (∀ self, decide_call (add_rules g ds) tool input ctx self = decide_call g tool input ctx self ∨
    ∃ msg r, decide_call (add_rules g ds) tool input ctx self = DecisionDeny msg (ReasonRule r) ∧
             r ∈ gate_rules (add_rules g ds) ∧ behavior r = BehaviorDeny) as H.
  { intros self. unfold decide_call. cbn [gate_rules add_rules with_rules]. unfold extend.
    pose proof (rule_hit_reported (gate_rules g ++ ds) tool input ctx) as Hrep.
    destruct (rule_hit_add_deny (gate_rules g) ds tool input ctx Hds) as [Hk|Hk].
    - right. destruct (rule_hit (gate_rules g ++ ds) tool input ctx) as [r|r|r|]; try done.
      destruct (Hrep r eq_refl) as [? [= ?]]. eauto 10.
    - left. by rewrite Hk. }
  destruct (check_permissions tool input ctx); [|by left|];
    (edestruct H as [->|(msg & r & -> & ? & ?)]; [by left|eauto 10]).
Qed.

(** Neither an immune path nor a denied call gets through or is asked about. *)
Lemma gate_hard_deny g tool input ctx :
  rule_verdict g tool input ctx = Some BehaviorDeny ∨ touches_immune tool input ctx = true →
  allowed (gate_check g tool input ctx) = false ∧ asked (gate_check g tool input ctx) = false.
Proof.
  intros H. destruct (validate_input tool input ctx) eqn:Hv;
    [|unfold gate_check; by rewrite Hv].
  destruct (self_denies tool input ctx) eqn:Hd.
  { by destruct (gate_check_self_denied g _ _ _ Hv Hd) as [msg ->]. }
  rewrite gate_check_undenied by done. cbn [allowed asked].
  destruct (decide_call_cases g tool input ctx (self_allows tool input ctx))
    as [[_ Hdeny]|(Ht & ra & rk & _ & Hc)]; [by destruct (decide_call _ _ _ _ _)|].
  exfalso. destruct H as [H|H]; [|congruence].
  destruct Hc as [(? & _ & _ & ?)|[(? & _ & _ & ?)|(_ & _ & ?)]]; congruence.
Qed.

Lemma immune_component p n :
  is_absolute p = true → Normal n ∈ components p → to_lowercase n ∈ BYPASS_IMMUNE_COMPONENTS →
  is_path_bypass_immune p = true.
Proof.
  intros Ha Hn Hi. unfold is_path_bypass_immune.
  assert (contains_char slash (to_lowercase p) = true) as ->.
  { apply bool_decide_eq_true, elem_of_to_lowercase; [done|]. by apply absolute_has_slash. }
  assert (existsb (λ c, bool_decide (c ∈ BYPASS_IMMUNE_COMPONENTS))
            (split slash (to_lowercase p)) = true) as ->; [|done].
  apply existsb_elem_of. exists (to_lowercase n). split; [|by apply bool_decide_eq_true].
  rewrite split_to_lowercase by done. by apply list_elem_of_fmap_2, component_piece.
Qed.

Definition path_tool (tool : Tool) : Prop :=
  permission_content_kind tool = ReadPath ∨ permission_content_kind tool = WritePath.

Lemma resolved_path_tool tool input ctx c :
  path_tool tool → permission_match_content tool input = Some c →
  ∃ group, resolved_path tool input ctx = Some (group, resolve_path c (cwd ctx)) ∧
           path_rule_group (permission_content_kind tool) = Some group.
Proof. intros Hk Hc. unfold resolved_path. destruct Hk as [-> | ->]; rewrite Hc; cbn; eauto. Qed.

Lemma absolute_not_nil p : is_absolute p = true → p ≠ [].
Proof. by intros H ->. Qed.

(** C14. No mode, rule, classifier or tool opinion opens a credential
    directory to a file tool: a path is refused whenever its absolute,
    dot-free form has a [.ssh], [.aws] or [.gnupg] component in any letter
    case, however the path is spelled, and the user is not asked. *)
Theorem credential_dirs_unreachable g tool input ctx c n :
  path_tool tool → permission_match_content tool input = Some c → is_absolute (cwd ctx) = true →
  Normal n ∈ norm_comps (absolute_comps c (cwd ctx)) →
  to_lowercase n ∈ BYPASS_IMMUNE_COMPONENTS →
  allowed (gate_check g tool input ctx) = false ∧ asked (gate_check g tool input ctx) = false.
Proof.
  intros Hk Hc Hcwd Hn Hi. apply gate_hard_deny. right. unfold touches_immune.
  apply existsb_elem_of. exists (primary (resolve_path c (cwd ctx))). split.
  - unfold checked_strings. destruct (resolved_path_tool _ _ ctx _ Hk Hc) as (group & -> & _).
    rewrite Hc. right. left.
  - pose proof (absolute_not_nil _ Hcwd).
    apply (immune_component _ n); [| |done]; cbn [primary resolve_path].
    + apply components_absolute. rewrite absolutize_components by done.
      unfold absolute_comps. destruct (is_absolute c) eqn:E; [apply components_absolute in E|
        apply components_absolute in Hcwd].
      * destruct (components c) as [|x l]; simplify_eq/=. apply norm_comps_root.
      * destruct (components (cwd ctx)) as [|x l]; simplify_eq/=. apply norm_comps_root.
    + by rewrite absolutize_components.
Qed.

(** A deny rule on a file or directory holds for every file tool of its
    group and every spelling of the paths below it, in every mode: nothing
    below it is opened or even asked about. *)
Theorem deny_rule_covers_directory g tool input ctx c r pattern :
  path_tool tool → permission_match_content tool input = Some c →
  r ∈ gate_rules g → behavior r = BehaviorDeny → rule_content r = Some pattern →
  (matches_tool_name (tool_name r) (name tool) = true ∨
   path_rule_group (permission_content_kind tool) = Some (tool_name r)) →
  literal_pattern pattern → has_glob (cwd ctx) = false → cwd ctx ≠ [] →
  norm_comps (absolute_comps pattern (cwd ctx)) `prefix_of`
    norm_comps (absolute_comps c (cwd ctx)) →
  allowed (gate_check g tool input ctx) = false ∧ asked (gate_check g tool input ctx) = false.
Proof.
  intros Hk Hc Hr Hb Hrc Hn Hp Hcwd Hne Hpre. apply gate_hard_deny. left.
  unfold rule_verdict, rule_hit.
  destruct (resolved_path_tool _ _ ctx _ Hk Hc) as (group & -> & Hg).
  rewrite evaluate_path_kind. cbv zeta. apply restrict_all_deny.
  rewrite decide_rules_kind. apply elem_of_cons. left. symmetry.
  apply strongest_deny, matching_behaviors. exists r. split_and!; [done..|].
  unfold path_rule_matches. rewrite Hrc.
  assert (matches_tool_name (tool_name r) (name tool) || bool_decide (tool_name r = group) = true)
    as ->.
  { apply orb_true_iff. destruct Hn as [Hn|Hn]; [by left|right].
    apply bool_decide_eq_true. congruence. }
  assert (path_matches (resolve_pattern pattern (cwd ctx))
            (primary (resolve_path c (cwd ctx))) = true) as ->; [|by eauto].
  apply literal_pattern_matches; [done..|]. cbn [primary resolve_path].
  by rewrite absolutize_components.
Qed.

(** A deny rule on a command holds for every line that runs it: a shell
    call is refused, in every mode, when one of the line's simple commands
    matches the rule, whatever the rest of the line is allowed to do. *)
Theorem deny_rule_covers_command_line g tool input ctx line command r rc :
  permission_content_kind tool = ShellCommand → permission_match_content tool input = Some line →
  command ∈ simple_commands line →
  r ∈ gate_rules g → behavior r = BehaviorDeny → rule_content r = Some rc →
  matches_tool_name (tool_name r) (name tool) = true → matches_content rc command = true →
  allowed (gate_check g tool input ctx) = false ∧ asked (gate_check g tool input ctx) = false.
Proof.
  intros Hk Hc Hcmd Hr Hb Hrc Hn Hm. apply gate_hard_deny. left.
  unfold rule_verdict, rule_hit, resolved_path. rewrite Hk, Hc. cbn [path_rule_group].
  rewrite decide_True by done. apply (evaluate_shell_deny _ _ _ command); [done|].
  unfold seg_kind, evaluate. rewrite decide_rules_kind. apply strongest_deny, matching_behaviors.
  exists r. split_and!; [done..|]. unfold rule_matches. rewrite Hn, Hrc, Hm. by eauto.
Qed.
End GateFacts.

(** ** Worked examples: a file tool and a shell tool that allow themselves *)

Definition input_field (k : str) (input : value) : option str := value_get k input ≫= as_str.

Definition write_tool : Tool :=
  {| name := lit "Write"; validate_input := λ _ _, ValidationOk;
     check_permissions := λ _ _, ToolAllow None;
     permission_match_content := input_field "file_path";
     permission_content_kind := WritePath; is_read_only := λ _, false;
     self_allow_overrides_mode := false; prompt := [] |}.

Definition bash_tool : Tool :=
  {| name := lit "Bash"; validate_input := λ _ _, ValidationOk;
     check_permissions := λ _ _, ToolAsk [] None;
     permission_match_content := input_field "command";
     permission_content_kind := ShellCommand; is_read_only := λ _, false;
     self_allow_overrides_mode := false; prompt := [] |}.

Definition proj_ctx (mode : PermissionMode) : ToolContext :=
  {| cwd := lit "/proj"; session_id := lit "s1"; sandbox := default_sandbox;
     permission_mode := mode |}.

Definition file_input (p : str) : value := VObject [(lit "file_path", VString p)].
Definition command_input (c : str) : value := VObject [(lit "command", VString c)].

Definition deny_env : PermissionRule :=
  {| source := ProjectSettings; behavior := BehaviorDeny; tool_name := lit "Edit";
     rule_content := Some (lit "secrets") |}.

Lemma deny_rules_only_restrict_witness :
  gate_check (GS := no_globset) (HE := plain_host) (add_rules (gate_new []) [deny_env])
    write_tool (file_input "notes.txt") (proj_ctx ModeDefault) =
  gate_check (GS := no_globset) (HE := plain_host) (gate_new [])
    write_tool (file_input "notes.txt") (proj_ctx ModeDefault).
Proof.
  destruct (deny_rules_only_restrict (GS := no_globset) (HE := plain_host) (gate_new []) [deny_env]
    write_tool (file_input "notes.txt") (proj_ctx ModeDefault)) as [H|(msg & r & H & _)].
  - by apply Forall_singleton.
  - exact H.
  - exfalso. vm_compute in H. discriminate H.
Defined.

Lemma credential_dirs_unreachable_witness :
  allowed (gate_check (GS := no_globset) (HE := plain_host) (gate_new [])
             write_tool (file_input "../home/u/x/../.SSH/config")
             (proj_ctx ModeBypassPermissions)) = false.
Proof.
  apply (credential_dirs_unreachable (GS := no_globset) (HE := plain_host) (gate_new []) write_tool
    (file_input "../home/u/x/../.SSH/config") (proj_ctx ModeBypassPermissions)
    "../home/u/x/../.SSH/config" ".SSH"); [by right|reflexivity|reflexivity|by_compute|by_compute].
Defined.

Lemma deny_rule_covers_directory_witness :
  allowed (gate_check (GS := no_globset) (HE := plain_host) (gate_new [deny_env])
             write_tool (file_input "src/.././secrets//key") (proj_ctx ModeBypassPermissions))
  = false.
Proof.
  apply (deny_rule_covers_directory (GS := no_globset) (HE := plain_host) (gate_new [deny_env])
    write_tool (file_input "src/.././secrets//key") (proj_ctx ModeBypassPermissions)
    "src/.././secrets//key" deny_env "secrets"); try reflexivity; try done.
  - by right.
  - left.
  - by right.
  - vm_compute. by eexists [_].
Defined.

Lemma deny_rule_covers_command_line_witness :
  allowed (gate_check (GS := no_globset) (HE := plain_host) (gate_new example_rules)
             bash_tool (command_input "git status && FOO=1 nohup rm -rf build")
             (proj_ctx ModeBypassPermissions)) = false.
Proof.
  apply (deny_rule_covers_command_line (GS := no_globset) (HE := plain_host)
    (gate_new example_rules) bash_tool (command_input "git status && FOO=1 nohup rm -rf build")
    (proj_ctx ModeBypassPermissions) "git status && FOO=1 nohup rm -rf build" "rm -rf build"
    (default deny_env (example_rules !! 2)) "rm:*"); try reflexivity; by_compute.
Defined.

(** ** The denial counters *)

Inductive GateEvent := Denial | Success.

#[export] Instance GateEvent_eq_dec : EqDecision GateEvent.
Proof. solve_decision. Defined.

Definition gate_event (g : PermissionGate) (e : GateEvent) : PermissionGate :=
  match e with Denial => record_denial g | Success => record_success g end.

(** The denials since the last success, and all of them. *)
Fixpoint trailing_denials (es : list GateEvent) : nat :=
  match es with
  | [] => 0
  | Denial :: es => S (trailing_denials es)
  | Success :: _ => 0
  end.

Definition total_denials (es : list GateEvent) : nat :=
  length (filter (λ e, e = Denial) es).

(** The number of denials is below the counter's range. *)
Lemma gate_counters rules es : (Z.of_nat (length es) < 2 ^ 64)%Z →
  let g := foldl gate_event (gate_new rules) es in
  denial_count g = Z.of_nat (trailing_denials (reverse es)) ∧
  total_denial_count g = Z.of_nat (total_denials es) ∧
  gate_rules g = rules ∧ (trailing_denials (reverse es) ≤ total_denials es ≤ length es).
Proof.
  induction es as [|e es IH] using rev_ind; [done|].
  rewrite length_app. cbn [length]. intros Hlen. destruct IH as (Hd & Ht & Hr & Hle); [lia|].
  cbv zeta. rewrite foldl_app, reverse_app. cbn [foldl reverse rev_append app].
  unfold total_denials in *. rewrite filter_app, length_app.
  destruct e; cbn [gate_event record_denial record_success denial_count total_denial_count
    gate_rules].
  - rewrite filter_cons_True, filter_nil by done. cbn [length].
    change (reverse [Denial] ++ reverse es) with (Denial :: reverse es). cbn [trailing_denials].
    rewrite Hd, Ht. unfold wrap_u64. rewrite !Z.mod_small by lia. split_and!; [lia|lia|done|lia|lia].
  - rewrite filter_cons_False, filter_nil by done. cbn [length].
    change (reverse [Success] ++ reverse es) with (Success :: reverse es). cbn [trailing_denials].
    split_and!; [done|lia|done|lia|lia].
Qed.

(** The circuit breaker: after any history of fewer than [2^64] events,
    the gate falls back to prompting exactly when the last three events were
    denials or twenty calls were denied in all; the history leaves the rules
    alone. *)
Theorem fallback_to_prompting rules es :
  (Z.of_nat (length es) < 2 ^ 64)%Z →
  let g := foldl gate_event (gate_new rules) es in
  (should_fallback_to_prompting g = true ↔
     (∃ es', es = es' ++ [Denial; Denial; Denial]) ∨ 20 ≤ total_denials es) ∧
  gate_rules g = rules.
Proof.
  intros Hlen g. destruct (gate_counters rules es Hlen) as (Hd & Ht & Hr & _). fold g in Hd, Ht, Hr.
  split; [|done]. unfold should_fallback_to_prompting.
  rewrite orb_true_iff, !bool_decide_eq_true, Hd, Ht.
  assert (3 ≤ trailing_denials (reverse es) ↔ ∃ es', es = es' ++ [Denial; Denial; Denial]) as H.
  { split.
    - intros H. destruct (reverse es) as [|[] [|[] [|[] l]]] eqn:E; cbn in H; try lia.
      exists (reverse l). rewrite <-(reverse_involutive es), E. by rewrite !reverse_cons, <-!app_assoc.
    - intros [es' ->]. rewrite reverse_app. cbn. lia. }
  rewrite <-H. lia.
Qed.

Lemma fallback_to_prompting_witness :
  should_fallback_to_prompting
    (foldl gate_event (gate_new []) [Denial; Success; Denial; Denial; Denial]) = true.
Proof.
  apply (fallback_to_prompting [] [Denial; Success; Denial; Denial; Denial]); [by_compute|].
  left. by exists [Denial; Success].
Defined.

(** ** The explanation *)

Definition extract_content_from_input (input : value) : option str :=
  match input_field "command" input with Some c => Some c | None =>
  match input_field "file_path" input with Some c => Some c | None =>
  match input_field "path" input with Some c => Some c | None =>
  match input_field "url" input with Some c => Some c | None =>
  match input_field "pattern" input with Some c => Some c | None =>
  input_field "query" input end end end end end.

Definition explain_decision {GS : Globset} (g : PermissionGate) (tool : str) (tool_input : value)
    : str :=
  let content := extract_content_from_input tool_input in
  let immune := match content with Some c => is_path_bypass_immune c | None => false end in
  if immune then
    lit "Denied by path safety: " ++ [c_dquote] ++ default [] content ++ [c_dquote] ++
    lit " is in the bypass-immune deny list"
  else
    let info := match content with
                | Some c => lit " matches " ++ [c_dquote] ++ c ++ [c_dquote]
                | None => []
                end in
    match evaluate (gate_rules g) tool content with
    | HitAllow rule => lit "Allowed by rule: " ++ format_rule_string rule ++ info
    | HitDeny rule => lit "Denied by rule: " ++ format_rule_string rule ++ info
    | HitAsk rule =>
        lit "Rule matches: " ++ format_rule_string rule ++ lit " [ask]" ++ info ++
        lit " — requires confirmation"
    | HitNone =>
        lit "Ask: no matching rule found for " ++ tool ++ lit "(" ++
        default (lit "<no content>") content ++
        (if existsb (λ r, matches_tool_name (tool_name r) tool) (gate_rules g)
         then lit ") — the tool has rules but none match this specific content"
         else lit ") — no rules have been configured for this tool")
    end.

Lemma starts_with_other p q s :
  head p ≠ head q → is_Some (head p) → is_Some (head q) → starts_with p (q ++ s) = false.
Proof.
  intros H [x Hx] [y Hy]. apply not_true_iff_false. rewrite starts_with_spec. intros [r Hr].
  destruct p, q; simplify_eq/=.
Qed.

(** The explainer does not cry wolf: when it says a call is denied - by a
    rule or by path safety - the gate refuses the call in every mode, for the
    tools whose content is the text the explainer reads and is not a path. *)
Theorem explained_denial_is_real {GS : Globset} {HE : HostEnv} g tool input ctx :
  permission_match_content tool input = extract_content_from_input input →
  permission_content_kind tool = Opaque ∨ permission_content_kind tool = ShellCommand →
  starts_with "Denied" (explain_decision g (name tool) input) = true →
  allowed (gate_check g tool input ctx) = false ∧ asked (gate_check g tool input ctx) = false.
Proof.
  intros Hc Hk. unfold explain_decision. rewrite <-Hc.
  assert (resolved_path tool input ctx = None) as Hres.
  { unfold resolved_path. by destruct Hk as [-> | ->]. }
  destruct (match permission_match_content tool input with
            | Some c => is_path_bypass_immune c | None => false end) eqn:Hi.
  - intros _. apply gate_hard_deny. right. unfold touches_immune, checked_strings. rewrite Hres.
    destruct (permission_match_content tool input) as [c|]; [|done]. cbn [app existsb].
    by rewrite Hi.
  - destruct (evaluate (gate_rules g) (name tool) (permission_match_content tool input))
      as [r|r|r|] eqn:E; intros H; try (rewrite starts_with_other in H; done || by_compute || by eexists).
    apply gate_hard_deny. left. unfold rule_verdict, rule_hit. rewrite Hres.
    destruct (permission_match_content tool input) as [c|]; [case_decide|]; rewrite ?E; try done.
    apply evaluate_shell_whole_deny. unfold seg_kind. by rewrite E.
Qed.

Lemma explained_denial_is_real_witness :
  allowed (gate_check (GS := no_globset) (HE := plain_host) (gate_new example_rules)
             bash_tool (command_input "rm -rf build") (proj_ctx ModeBypassPermissions)) = false.
Proof.
  apply (explained_denial_is_real (GS := no_globset) (HE := plain_host) (gate_new example_rules)
    bash_tool (command_input "rm -rf build") (proj_ctx ModeBypassPermissions));
    [reflexivity|by right|vm_compute; reflexivity].
Defined.

(** Only the first occurrence of a destructive pattern is looked at. *)
Example second_occurrence_missed :
  is_path_bypass_immune "sudo rm -rf /" = true ∧
  is_path_bypass_immune "norm -rf /x; rm -rf /" = false.
Proof. by split; vm_compute. Qed.
