(* ===== verification/Registry.v ===== *)
(** * Registries of named things ([crates/core/src/interface/tool.rs])

    [InMemoryToolRegistry]: registrations in order, looked up by name, the
    first one winning, each with an id its [Disposer] withdraws it by.  The
    registered thing is anything that has a name. *)

From stdpp Require Import base option numbers sets strings list.
From S2P Require Import Prelude RustStr.

(** What a registry needs of the things in it: [Tool::name]. *)
Class Named (T : Type) := name_of : T → str.

Definition RegistrationId := Z.

Record Entry (T : Type) := {
  entry_id : RegistrationId;
  entry_tool : T;
}.
Arguments Build_Entry {T} _ _.
Arguments entry_id {T} _.
Arguments entry_tool {T} _.

(** The registry and the process-wide id counter ([RegistrationId::next]). *)
Record Registry (T : Type) := {
  next_id : Z;
  entries : list (Entry T);
}.
Arguments Build_Registry {T} _ _.
Arguments next_id {T} _.
Arguments entries {T} _.

Definition registry_new {T} (next : Z) : Registry T := Build_Registry next [].

(** [fetch_add] on the counter. *)
Definition bump (n : Z) : Z := ((n + 1) mod 2 ^ 64)%Z.

Section Registry.
Context {T : Type} `{Named T}.

Definition register (r : Registry T) (t : T) : Registry T * RegistrationId :=
  let id := next_id r in
  (Build_Registry (bump id) (entries r ++ [Build_Entry id t]), id).

(** [Disposer::dispose]: withdraw exactly this registration. *)
Definition dispose (r : Registry T) (id : RegistrationId) : Registry T :=
  Build_Registry (next_id r) (filter (λ e, entry_id e ≠ id) (entries r)).

(** Put the entry in the place of the first one of that name, if any. *)
Fixpoint replace_first (es : list (Entry T)) (e : Entry T) : list (Entry T) :=
  match es with
  | [] => [e]
  | x :: es =>
      if decide (name_of (entry_tool x) = name_of (entry_tool e))
      then e :: es
      else x :: replace_first es e
  end.

Definition replace (r : Registry T) (t : T) : Registry T * RegistrationId :=
  let id := next_id r in
  (Build_Registry (bump id) (replace_first (entries r) (Build_Entry id t)), id).

(** How many registrations went. *)
Definition remove (r : Registry T) (name : str) : Registry T * nat :=
  let kept := filter (λ e, name_of (entry_tool e) ≠ name) (entries r) in
  (Build_Registry (next_id r) kept, length (entries r) - length kept).

Definition get (r : Registry T) (name : str) : option T :=
  entry_tool <$> find_first (λ e, bool_decide (name_of (entry_tool e) = name)) (entries r).

Definition names (r : Registry T) : list str := name_of ∘ entry_tool <$> entries r.

(** ** Abstract specification: for each name, the registrations under it,
    the one that answers first. *)
Definition under (r : Registry T) (name : str) : list (Entry T) :=
  filter (λ e, name_of (entry_tool e) = name) (entries r).

Lemma get_under r name : get r name = entry_tool <$> head (under r name).
Proof.
  unfold get, under. induction (entries r) as [|e es IH]; [done|]. cbn [find_first].
  case_bool_decide as E.
  - by rewrite filter_cons_True.
  - by rewrite filter_cons_False.
Qed.

Lemma under_replace_first es e name :
  filter (λ x, name_of (entry_tool x) = name) (replace_first es e) =
  if decide (name_of (entry_tool e) = name)
  then e :: tail (filter (λ x, name_of (entry_tool x) = name) es)
  else filter (λ x, name_of (entry_tool x) = name) es.
Proof.
  induction es as [|x es IH]; cbn [replace_first].
  - case_decide; [by rewrite filter_cons_True|by rewrite filter_cons_False].
  - destruct (decide (name_of (entry_tool x) = name_of (entry_tool e))) as [E|E].
    + rewrite !filter_cons, E. by case_decide.
    + rewrite !filter_cons, IH. destruct (decide (name_of (entry_tool e) = name)) as [E'|E'].
      * rewrite decide_False by congruence. by rewrite decide_False by congruence.
      * done.
Qed.

(** The registry refines its specification, a list of registrations per
    name whose first one answers: [register] appends to its name's list,
    [replace] takes the place of the first, [remove] empties the list and
    counts what went, a disposer takes out its own registration, and no
    operation touches the lists of other names. *)
Theorem registry_refines r t name :
  get r name = entry_tool <$> head (under r name) ∧
  (let '(r', id) := register r t in
   under r' name = under r name ++
     (if decide (name_of t = name) then [Build_Entry id t] else [])) ∧
  (let '(r', id) := replace r t in
   under r' name = if decide (name_of t = name)
                   then Build_Entry id t :: tail (under r name) else under r name) ∧
  (∀ gone, let '(r', n) := remove r gone in
   under r' name = (if decide (name = gone) then [] else under r name) ∧
   n = length (under r gone)) ∧
  (∀ id, under (dispose r id) name = filter (λ e, entry_id e ≠ id) (under r name)).
Proof.
  split_and!.
  - apply get_under.
  - cbn. unfold under. cbn [entries]. by rewrite filter_app.
  - cbn. unfold under. cbn [entries]. apply under_replace_first.
  - intros gone. cbn. unfold under. cbn [entries]. split.
    + case_decide as E.
      * apply elem_of_nil_inv. intros e [? [? _]%list_elem_of_filter]%list_elem_of_filter.
        congruence.
      * rewrite filter_filter_comm. apply list_filter_all. apply Forall_forall.
        intros e [-> _]%list_elem_of_filter. done.
    + induction (entries r) as [|e es IH]; [done|].
      rewrite !filter_cons. destruct (decide (name_of (entry_tool e) = gone)) as [E|E].
      * rewrite decide_False by auto. cbn [length].
        pose proof (length_filter (λ e, name_of (entry_tool e) ≠ gone) es). lia.
      * rewrite decide_True by done. cbn [length]. lia.
  - intros id. unfold under, dispose. cbn [entries]. apply filter_filter_comm.
Qed.

(** ** Disposers *)

Inductive reg_op :=
| OpRegister (t : T)
| OpReplace (t : T)
| OpRemove (name : str)
| OpDispose (id : RegistrationId).

Definition run_op (r : Registry T) (op : reg_op) : Registry T :=
  match op with
  | OpRegister t => fst (register r t)
  | OpReplace t => fst (replace r t)
  | OpRemove name => fst (remove r name)
  | OpDispose id => dispose r id
  end.

Definition run_ops (r : Registry T) (ops : list reg_op) : Registry T := foldl run_op r ops.

(** Ids are handed out once. *)
Definition ids_ok (r : Registry T) : Prop :=
  (0 ≤ next_id r)%Z ∧ NoDup (entry_id <$> entries r) ∧
  Forall (λ e, (entry_id e < next_id r)%Z) (entries r).

Lemma ids_filter (P : Entry T → Prop) `{∀ e, Decision (P e)} es :
  NoDup (entry_id <$> es) → NoDup (entry_id <$> filter P es).
Proof.
  intros Hn. refine (sublist_NoDup _ _ Hn _). apply fmap_sublist, sublist_filter.
Qed.

Lemma replace_first_elem es e x : x ∈ replace_first es e → x = e ∨ x ∈ es.
Proof.
  induction es as [|y es IH]; cbn [replace_first].
  - intros ->%list_elem_of_singleton. by left.
  - case_decide; rewrite !elem_of_cons; [tauto|]. intros [->|?%IH]; tauto.
Qed.

Lemma replace_first_NoDup es e : NoDup (entry_id <$> es) → (entry_id e) ∉ (entry_id <$> es) →
  NoDup (entry_id <$> replace_first es e).
Proof.
  induction es as [|y es IH]; cbn [replace_first fmap list_fmap].
  - intros _ _. apply NoDup_singleton.
  - rewrite NoDup_cons, not_elem_of_cons. intros [Hy Hn] [Hne He].
    case_decide; cbn [fmap list_fmap]; rewrite NoDup_cons; [done|].
    split; [|by apply IH]. intros (x & E & [->|Hx]%replace_first_elem)%list_elem_of_fmap.
    + congruence.
    + apply Hy, list_elem_of_fmap. eauto.
Qed.

Lemma ids_fresh r : ids_ok r → (next_id r) ∉ (entry_id <$> entries r).
Proof.
  intros (_ & _ & Hlt) (e & E & He)%list_elem_of_fmap.
  rewrite Forall_forall in Hlt. apply Hlt in He. lia.
Qed.

Lemma run_op_ids r op : (next_id r + 1 < 2 ^ 64)%Z → ids_ok r →
  ids_ok (run_op r op) ∧ (next_id r ≤ next_id (run_op r op) ≤ next_id r + 1)%Z.
Proof.
  intros Hb Hok. pose proof (ids_fresh _ Hok) as Hf. destruct Hok as (H0 & Hn & Hlt).
  assert (bump (next_id r) = next_id r + 1)%Z as Eb by (unfold bump; rewrite Z.mod_small; lia).
  unfold ids_ok. rewrite Forall_forall in *.
  destruct op as [t|t|name|id]; cbn; rewrite ?Eb; (split; [split_and!; [lia| |]|lia]).
  - rewrite fmap_app, NoDup_app. split_and!; [done| |apply NoDup_singleton].
    intros x Hx ->%list_elem_of_singleton. done.
  - intros e. rewrite elem_of_app, list_elem_of_singleton. intros [?%Hlt| ->]; cbn; lia.
  - by apply replace_first_NoDup.
  - intros e [->|?%Hlt]%replace_first_elem; cbn; lia.
  - by apply ids_filter.
  - intros e [_ ?%Hlt]%list_elem_of_filter. lia.
  - by apply ids_filter.
  - intros e [_ ?%Hlt]%list_elem_of_filter. lia.
Qed.

Lemma run_ops_ids r ops : (next_id r + Z.of_nat (length ops) < 2 ^ 64)%Z → ids_ok r →
  ids_ok (run_ops r ops) ∧
  (next_id r ≤ next_id (run_ops r ops) ≤ next_id r + Z.of_nat (length ops))%Z.
Proof.
  revert r. induction ops as [|op ops IH]; intros r Hb Hok; [split; [done|cbn; lia]|].
  cbn [length] in *. destruct (run_op_ids r op) as [Hok' Hn]; [lia|done|].
  change (run_ops r (op :: ops)) with (run_ops (run_op r op) ops).
  destruct (IH (run_op r op)) as [H1 H2]; [lia|done|]. split; [done|lia].
Qed.

(** Once given out, an id never names another registration. *)
Lemma run_ops_entry r ops e : (next_id r + Z.of_nat (length ops) < 2 ^ 64)%Z → ids_ok r →
  e ∈ entries (run_ops r ops) → (entry_id e < next_id r)%Z → e ∈ entries r.
Proof.
  revert r. induction ops as [|op ops IH]; intros r Hb Hok He Hlt; [done|].
  cbn [length] in Hb. destruct (run_op_ids r op) as [Hok' Hn]; [lia|done|].
  assert (e ∈ entries (run_op r op)) as Hin by (apply IH; [lia|done|done|lia]).
  destruct op as [t|t|name|id]; cbn in Hin.
  - apply elem_of_app in Hin as [?|Hin]; [done|]. apply list_elem_of_singleton in Hin as ->.
    cbn in Hlt. lia.
  - apply replace_first_elem in Hin as [->|?]; [cbn in Hlt; lia|done].
  - by apply list_elem_of_filter in Hin as [_ ?].
  - by apply list_elem_of_filter in Hin as [_ ?].
Qed.

(** A disposer withdraws exactly the registration it was given for:
    whatever happened before and since, the only entry it takes out is the
    thing registered then, under the id handed out then; everything else
    stays, in order.  (The id counter starts at 1 and has not wrapped.) *)
Theorem disposer_withdraws_its_own ops1 ops2 t :
  (Z.of_nat (length ops1 + length ops2) + 2 < 2 ^ 64)%Z →
  let '(r2, id) := register (run_ops (registry_new 1) ops1) t in
  let r3 := run_ops r2 ops2 in
  (∀ e, e ∈ entries r3 → entry_id e = id → e = Build_Entry id t) ∧
  (∀ e, e ∈ entries (dispose r3 id) ↔ e ∈ entries r3 ∧ e ≠ Build_Entry id t) ∧
  sublist (entries (dispose r3 id)) (entries r3) ∧
  length (entries r3) ≤ S (length (entries (dispose r3 id))).
Proof.
  intros Hb. cbn [register fst].
  assert (ids_ok (registry_new 1)) as H0 by (split_and!; [done|constructor|constructor]).
  destruct (run_ops_ids (registry_new 1) ops1) as [Hok1 Hn1]; [cbn; lia|done|].
  cbn [next_id registry_new] in Hn1. set (r1 := run_ops (registry_new 1) ops1) in *.
  destruct (run_op_ids r1 (OpRegister t)) as [Hok2 Hn2]; [lia|done|].
  cbn [run_op register fst] in Hok2, Hn2.
  set (r2 := Build_Registry (bump (next_id r1)) _) in *.
  assert (next_id r2 = bump (next_id r1)) as Eb by done.
  assert (next_id r2 = next_id r1 + 1)%Z as En.
  { rewrite Eb. unfold bump. rewrite Z.mod_small; lia. }
  destruct (run_ops_ids r2 ops2) as [Hok3 Hn3]; [lia|done|].
  cbv zeta. set (r3 := run_ops r2 ops2) in *.
  assert (∀ e, e ∈ entries r3 → entry_id e = next_id r1 → e = Build_Entry (next_id r1) t) as Huniq.
  { intros e He Eid. assert (e ∈ entries r2) as He2.
    { apply (run_ops_entry r2 ops2); [lia|done|done|lia]. }
    apply elem_of_app in He2 as [He2|He2]; [|by apply list_elem_of_singleton in He2].
    destruct Hok1 as (_ & _ & Hlt). rewrite Forall_forall in Hlt. apply Hlt in He2. lia. }
  split_and!; [done| | |].
  - intros e. cbn. rewrite list_elem_of_filter. split.
    + intros [Hid He]. split; [done|]. by intros ->.
    + intros [He Hne]. split; [|done]. intros Hid. by apply Hne, Huniq.
  - cbn. apply sublist_filter.
  - destruct Hok3 as (_ & Hnd & _). cbn. clear -Hnd.
    induction (entries r3) as [|e es IH]; [cbn; lia|]. cbn [fmap list_fmap] in Hnd.
    apply NoDup_cons in Hnd as [Hn Hnd]. rewrite filter_cons.
    destruct (decide (entry_id e = next_id r1)) as [E|E].
    2:{ rewrite decide_True by done. cbn. specialize (IH Hnd). lia. }
    rewrite decide_False by auto. cbn. rewrite list_filter_all; [done|].
    apply Forall_forall. intros x Hx Ex. apply Hn, list_elem_of_fmap.
    exists x. by rewrite E, Ex.
Qed.
End Registry.

(** A registry of names: the second [Read] is withdrawn, the first answers. *)
#[local] Instance str_named : Named str := id.

Lemma disposer_withdraws_its_own_witness :
  let ops1 := [OpRegister (lit "Read"); OpReplace (lit "Grep")] in
  let '(r2, id) := register (run_ops (registry_new 1) ops1) (lit "Read") in
  let r3 := run_ops r2 [OpRemove (lit "Grep")] in
  length (entries r3) ≤ S (length (entries (dispose r3 id))).
Proof.
  apply (disposer_withdraws_its_own [OpRegister (lit "Read"); OpReplace (lit "Grep")]
           [OpRemove (lit "Grep")] (lit "Read")).
  by_compute.
Defined.
