(* ===== verification/Permission.v ===== *)
(** * The session's permission handler ([permissions/src/rule_set_permission.rs])

    [RuleSetPermission]: the gate behind the [Permission] trait the engine
    calls.  It resolves the tool by name, builds the context the gate judges
    in, maps the gate's decision to an outcome, and lets skills and the user
    add allow rules while the session runs. *)

From stdpp Require Import base option numbers sets strings list.
From S2P Require Import Prelude RustStr PermTypes Rule Path PathRule Shell RuleSet RuleLint.
From S2P Require Import Gate Registry.

#[export] Instance tool_named : Named Tool := name.

Inductive PermissionOutcome :=
| Permit
| OutcomeDeny (reason : str)
| Prompt (message : str) (paths : list str).

(** The registry is the one bound last; the session's live mode, once bound,
    replaces the mode the handler was built with. *)
Record RuleSetPermission := {
  gate : PermissionGate;
  tools : Registry Tool;
  session : option PermissionMode;
  default_mode : PermissionMode;
  perm_sandbox : SandboxSettings;
}.

(** The sandbox section of the settings, and the rule tiers. *)
Record Settings := {
  rule_settings : RuleSettings;
  sandbox_settings : SandboxSettings;
}.

Definition perm_new (g : PermissionGate) (ts : Registry Tool) (mode : PermissionMode)
    : RuleSetPermission :=
  {| gate := g; tools := ts; session := None; default_mode := mode;
     perm_sandbox := default_sandbox |}.

Definition with_sandbox (p : RuleSetPermission) (sb : SandboxSettings) : RuleSetPermission :=
  {| gate := gate p; tools := tools p; session := session p; default_mode := default_mode p;
     perm_sandbox := sb |}.

Definition with_gate (p : RuleSetPermission) (g : PermissionGate) : RuleSetPermission :=
  {| gate := g; tools := tools p; session := session p; default_mode := default_mode p;
     perm_sandbox := perm_sandbox p |}.

(** [state_root] is never taken from the settings. *)
Definition from_settings {GS : Globset} (settings : Settings) (mode : PermissionMode)
    (ts : Registry Tool) (extra_rules : list PermissionRule) : RuleSetPermission :=
  let rules := rules_from_all_tiers (rule_settings settings) ++ extra_rules in
  let sb := sandbox_settings settings in
  with_sandbox (perm_new (gate_new (snd (ruleset_new rules))) ts mode)
    {| allow_read := allow_read sb; deny_read := deny_read sb;
       allowed_domains := allowed_domains sb; network_mode := network_mode sb;
       deny_write := deny_write sb; allow_write := allow_write sb;
       state_root := None; require_enforcement := require_enforcement sb |}.

Definition bind_tool_registry (p : RuleSetPermission) (ts : Registry Tool) : RuleSetPermission :=
  {| gate := gate p; tools := ts; session := session p; default_mode := default_mode p;
     perm_sandbox := perm_sandbox p |}.

(** The live session, as the mode it carries when it is read. *)
Definition bind_session_state (p : RuleSetPermission) (live : PermissionMode)
    : RuleSetPermission :=
  {| gate := gate p; tools := tools p; session := Some live; default_mode := default_mode p;
     perm_sandbox := perm_sandbox p |}.

Definition allow_rule (src : RuleSource) (tool : str) (content : option str) : PermissionRule :=
  {| source := src; behavior := BehaviorAllow; tool_name := tool; rule_content := content |}.

Definition add_temporary_allow (p : RuleSetPermission) (tool : str) (content : option str)
    : RuleSetPermission :=
  with_gate p (add_rules (gate p) [allow_rule Command tool content]).

Definition clear_temporary_allows (p : RuleSetPermission) : RuleSetPermission :=
  with_gate p (remove_rules_by_source (gate p) Command).

Definition add_persistent_allow (p : RuleSetPermission) (tool : str) (content : option str)
    : RuleSetPermission :=
  with_gate p (add_rules (gate p) [allow_rule Session tool content]).

Definition unknown_tool_message (tool_name : str) : str :=
  lit "`" ++ tool_name ++ lit "` is not registered in this session's permission registry. It is either an unknown tool, or a tool that reached dispatch without being registered for permission checks — approve only if you expected it.".

(** The message of a gate error, as [Display] prints it. *)
Definition gate_error_display (e : GateError) : str :=
  match e with
  | InvalidInput message code =>
      lit "invalid input: " ++ message ++ lit " (code " ++
      (if decide (code < 0)%Z then lit "-" ++ dec (Z.to_nat (- code)) else dec (Z.to_nat code)) ++
      lit ")"
  end.

Definition context_for (p : RuleSetPermission) (cwd session_id : str) : ToolContext :=
  {| cwd := cwd; session_id := session_id; sandbox := perm_sandbox p;
     permission_mode := default (default_mode p) (session p) |}.

Definition perm_check {GS : Globset} {HE : HostEnv} (p : RuleSetPermission) (tool_name : str)
    (tool_input : value) (cwd session_id : str) : PermissionOutcome :=
  match get (tools p) tool_name with
  | None => Prompt (unknown_tool_message tool_name) []
  | Some tool =>
      match gate_check (gate p) tool tool_input (context_for p cwd session_id) with
      | Ok (DecisionAllow _ _) => Permit
      | Ok (DecisionDeny message _) => OutcomeDeny message
      | Ok (DecisionAsk message _) => Prompt message []
      | Err e => OutcomeDeny (lit "permission check error: " ++ gate_error_display e)
      end
  end.

(** ** When a call is permitted, refused or put to the user *)

Section PermissionFacts.
Context {GS : Globset} {HE : HostEnv}.

Definition is_prompt (o : PermissionOutcome) : bool :=
  match o with Prompt _ _ => true | _ => false end.
Definition is_refusal (o : PermissionOutcome) : bool :=
  match o with OutcomeDeny _ => true | _ => false end.

Lemma perm_check_known p t tool input cwd sid : get (tools p) t = Some tool →
  let r := gate_check (gate p) tool input (context_for p cwd sid) in
  (perm_check p t input cwd sid = Permit ↔ allowed r = true) ∧
  (is_prompt (perm_check p t input cwd sid) = true ↔ asked r = true).
Proof.
  intros H. unfold perm_check. rewrite H. cbv zeta. by destruct (gate_check _ _ _ _) as [[]|].
Qed.

(** C1. When the engine may run a tool: exactly when the tool is registered,
    its input is valid, it does not refuse, no deny rule hits the call,
    nothing it names is an immune path, the session's live mode does not
    forbid it (plan allows only read-only tools, don't-ask only what a rule
    allows, unless the tool's own allow overrides modes), no ask rule stands
    in the way outside bypass mode, and something vouches for it: the tool
    itself away from configuration directories, an allow rule, or the mode. *)
Theorem permit_iff p t input cwd sid :
  perm_check p t input cwd sid = Permit ↔
  ∃ tool, get (tools p) t = Some tool ∧
          allow_spec (gate p) tool input (context_for p cwd sid).
Proof.
  destruct (get (tools p) t) as [tool|] eqn:E.
  - destruct (perm_check_known _ _ _ input cwd sid E) as [-> _]. rewrite gate_allow_iff.
    split; [eauto|]. by intros (? & [= ->] & ?).
  - unfold perm_check. rewrite E. split; [done|]. by intros (? & ? & _).
Qed.

(** C2. When a call is refused outright - never left to the user: exactly
    when the tool is registered and its input is invalid, or the tool
    refuses, or a deny rule or an immune path is hit, or the mode forbids
    it, or don't-ask mode has nothing that allows it, or the classifier
    refuses what nothing else decided - though its documentation says it
    cannot refuse.  An unregistered tool is put to the
    user, and bypass and don't-ask modes never prompt about a registered
    one. *)
Theorem refuse_iff p t input cwd sid :
  let ctx := context_for p cwd sid in
  (is_refusal (perm_check p t input cwd sid) = true ↔
   ∃ tool, get (tools p) t = Some tool ∧
     (validate_input tool input ctx ≠ ValidationOk ∨ deny_spec (gate p) tool input ctx)) ∧
  (get (tools p) t = None → is_prompt (perm_check p t input cwd sid) = true) ∧
  (is_Some (get (tools p) t) →
   permission_mode ctx = ModeBypassPermissions ∨ permission_mode ctx = ModeDontAsk →
   is_prompt (perm_check p t input cwd sid) = false).
Proof.
  intros ctx. destruct (get (tools p) t) as [tool|] eqn:E.
  2:{ unfold perm_check. rewrite E. split_and!; [|done|by intros []].
      split; [done|]. by intros (? & ? & _). }
  destruct (gate_deny_iff (gate p) tool input ctx) as (Herr & Hd & Ha).
  split_and!.
  - unfold perm_check. rewrite E. fold ctx. split.
    + intros H. exists tool. split; [done|].
      destruct (validate_input tool input ctx); [right|by left].
      apply Hd; [done|]. destruct (gate_check (gate p) tool input ctx) as [[]|[m c]]; try done.
      discriminate (proj1 (Herr m c) eq_refl).
    + intros (? & [= <-] & H).
      destruct (validate_input tool input ctx) as [|m c] eqn:Hv.
      * destruct H as [?|H]; [done|]. apply Hd in H; [|done].
        by destruct (gate_check (gate p) tool input ctx) as [[]|].
      * by rewrite (proj2 (Herr m c) eq_refl).
  - done.
  - intros _ Hm. destruct (perm_check_known _ _ _ input cwd sid E) as [_ Hp].
    apply not_true_iff_false. intros Ht. apply Hp in Ht. fold ctx in Ht. by rewrite Ha in Ht.
Qed.

(** ** Allow rules added while the session runs *)

Inductive perm_op :=
| AddTemporary (tool : str) (content : option str)
| AddPersistent (tool : str) (content : option str)
| ClearTemporary
| BindRegistry (ts : Registry Tool)
| BindSession (live : PermissionMode).

Definition run_perm_op (p : RuleSetPermission) (op : perm_op) : RuleSetPermission :=
  match op with
  | AddTemporary t c => add_temporary_allow p t c
  | AddPersistent t c => add_persistent_allow p t c
  | ClearTemporary => clear_temporary_allows p
  | BindRegistry ts => bind_tool_registry p ts
  | BindSession live => bind_session_state p live
  end.

Definition persistent_of (op : perm_op) : option PermissionRule :=
  match op with AddPersistent t c => Some (allow_rule Session t c) | _ => None end.

(** Skill cleanup is exact: after any interleaving of temporary and
    persistent grants, cleanups and rebinds, clearing the temporary grants
    leaves precisely the rules the session started with (less the ones of
    that same source) followed by the user's persistent grants in the order
    they were given. *)
Theorem clear_restores_rules p ops :
  gate_rules (gate (clear_temporary_allows (foldl run_perm_op p ops))) =
  remove_by_source (gate_rules (gate p)) Command ++ omap persistent_of ops.
Proof.
  induction ops as [|op ops IH] using rev_ind; [by rewrite app_nil_r|].
  rewrite foldl_app, omap_app. cbn [foldl omap list_omap].
  change (remove_by_source (gate_rules (gate (foldl run_perm_op p ops))) Command =
    remove_by_source (gate_rules (gate p)) Command ++ omap persistent_of ops) in IH.
  set (q := foldl run_perm_op p ops) in *.
  destruct op as [t c|t c| |ts|live]; cbn [persistent_of run_perm_op].
  - change (remove_by_source (gate_rules (gate q) ++ [allow_rule Command t c]) Command =
      remove_by_source (gate_rules (gate p)) Command ++ omap persistent_of ops ++ []).
    by rewrite remove_by_source_app, IH, app_nil_r, app_nil_r.
  - change (remove_by_source (gate_rules (gate q) ++ [allow_rule Session t c]) Command =
      remove_by_source (gate_rules (gate p)) Command ++
      omap persistent_of ops ++ [allow_rule Session t c]).
    by rewrite remove_by_source_app, IH, <-app_assoc.
  - change (remove_by_source (remove_by_source (gate_rules (gate q)) Command) Command =
      remove_by_source (gate_rules (gate p)) Command ++ omap persistent_of ops ++ []).
    by rewrite remove_by_source_idemp, IH, app_nil_r.
  - by rewrite app_nil_r.
  - by rewrite app_nil_r.
Qed.

(** A grant never lifts a refusal: whatever allow rules are added - by a
    skill, or by the user's answers - a call that the rules deny or put to
    the user beforehand is denied or put to the user after, in the same
    mode, and it is permitted only if it was before. *)
Theorem grants_never_lift_refusals p more t tool input cwd sid :
  all_allow more → get (tools p) t = Some tool →
  let ctx := context_for p cwd sid in
  let p' := with_gate p (add_rules (gate p) more) in
  (rule_verdict (gate p') tool input ctx = Some BehaviorDeny ↔
   rule_verdict (gate p) tool input ctx = Some BehaviorDeny) ∧
  (rule_verdict (gate p') tool input ctx = Some BehaviorAsk ↔
   rule_verdict (gate p) tool input ctx = Some BehaviorAsk) ∧
  (refusal (rule_verdict (gate p) tool input ctx) →
   perm_check p' t input cwd sid = Permit → perm_check p t input cwd sid = Permit).
Proof.
  intros Hmore Ht ctx p'.
  destruct (rule_hit_add_allow (gate_rules (gate p)) more tool input ctx Hmore) as [Hd Ha].
  split_and!; [exact Hd|exact Ha|]. intros Hr.
  assert (rule_verdict (gate p') tool input ctx = rule_verdict (gate p) tool input ctx) as Hv.
  { destruct Hr as [Hr|Hr]; rewrite Hr; [by apply Hd|by apply Ha]. }
  assert (get (tools p') t = Some tool) as Ht' by done.
  destruct (perm_check_known p' t tool input cwd sid Ht') as [-> _].
  destruct (perm_check_known p t tool input cwd sid Ht) as [-> _].
  change (context_for p' cwd sid) with ctx. fold ctx.
  rewrite !gate_allow_iff. unfold allow_spec. by rewrite Hv.
Qed.
End PermissionFacts.

(** ** Rules from the settings *)

(** The rules an entry of one of the two rule lists stands for. *)
Definition entry_rule (e : SettingsRule) (src : RuleSource) (r : PermissionRule) : Prop :=
  parse_rule_string (tool e) src (behavior_of_action (action e)) = Ok r.

Lemma elem_of_rules_from_settings es src r :
  r ∈ rules_from_settings es src ↔ ∃ e, e ∈ es ∧ entry_rule e src r.
Proof.
  unfold rules_from_settings, entry_rule. rewrite list_elem_of_omap.
  split; intros (e & He & Hr); exists e; (split; [done|]).
  - by destruct (parse_rule_string _ _ _); simplify_eq/=.
  - by rewrite Hr.
Qed.

(** Configured rules are in force: a handler built from settings holds
    exactly the rules that parse from the two rule lists - a project entry
    with project priority, a machine or scene one with user priority, a local
    one with local priority - and the extra ones, each with the behaviour its
    entry asks for; it starts in the given mode with no session bound, judges
    tools by the configured sandbox, and what it logs changes nothing. *)
Theorem from_settings_in_force {GS : Globset} s mode ts extra r :
  let p := from_settings s mode ts extra in
  (r ∈ gate_rules (gate p) ↔
     (∃ e, e ∈ permission_rules (rule_settings s) ∧ entry_rule e (tier_source (tier e)) r) ∨
     (∃ e, e ∈ local_permission_rules (rule_settings s) ∧ entry_rule e LocalSettings r) ∨
     r ∈ extra) ∧
  (∀ e src, entry_rule e src r →
     source r = src ∧ behavior r = behavior_of_action (action e)) ∧
  (∀ cwd sid, let ctx := context_for p cwd sid in
     permission_mode ctx = mode ∧ deny_write (sandbox ctx) = deny_write (sandbox_settings s) ∧
     allow_write (sandbox ctx) = allow_write (sandbox_settings s) ∧ state_root (sandbox ctx) = None).
Proof.
  cbv zeta. split_and!; [|intros e src; apply parse_rule_string_source|done].
  change (gate_rules (gate (from_settings s mode ts extra)))
    with (rules_from_all_tiers (rule_settings s) ++ extra).
  rewrite elem_of_app. unfold rules_from_all_tiers.
  rewrite elem_of_app, list_elem_of_bind, elem_of_rules_from_settings.
  setoid_rewrite elem_of_rules_from_settings. setoid_rewrite list_elem_of_singleton. split.
  - intros [[(e & (e' & -> & Hr) & He)|H]|H]; [left|right; by left|right; by right]. eauto.
  - intros [(e & He & Hr)|[H|H]]; [left; left|left; by right|by right]. eauto.
Qed.

(** ** Worked examples *)

Definition example_permission (rules : RuleSet) (mode : PermissionMode) : RuleSetPermission :=
  perm_new (gate_new rules)
    (run_ops (registry_new 1) [OpRegister write_tool; OpRegister bash_tool]) mode.

Lemma refuse_iff_witness :
  is_prompt (perm_check (GS := no_globset) (HE := plain_host)
    (example_permission [] ModeDontAsk) "Bash" (command_input "make") "/proj" "s1") = false.
Proof.
  apply (refuse_iff (GS := no_globset) (HE := plain_host)
    (example_permission [] ModeDontAsk) "Bash" (command_input "make") "/proj" "s1");
    [vm_compute; eauto|right; reflexivity].
Defined.

Definition allow_all_bash : PermissionRule := allow_rule Command "Bash" None.

Lemma grants_never_lift_refusals_witness :
  let p := example_permission example_rules ModeDefault in
  rule_verdict (GS := no_globset) (HE := plain_host)
    (add_rules (gate p) [allow_all_bash]) bash_tool (command_input "git push")
    (context_for p "/proj" "s1") = Some BehaviorAsk.
Proof.
  apply (grants_never_lift_refusals (GS := no_globset) (HE := plain_host)
    (example_permission example_rules ModeDefault) [allow_all_bash] "Bash" bash_tool
    (command_input "git push") "/proj" "s1").
  - by apply Forall_singleton.
  - reflexivity.
  - vm_compute. reflexivity.
Defined.

(** A grant can take a permission away: the rule that allows the exact line
    is outscored by a broader one, which does not count as exact. *)
Example broader_grant_withdraws :
  let exact := allow_rule Session "Bash" (Some (lit "make && ./run")) in
  let broader := allow_rule Session "Bash" (Some (lit "make && ./run:*")) in
  let check rules := perm_check (GS := no_globset) (HE := plain_host)
    (example_permission rules ModeDefault) "Bash" (command_input "make && ./run") "/proj" "s1" in
  check [exact] = Permit ∧ is_prompt (check [exact; broader]) = true.
Proof. by split; vm_compute. Qed.
