(* ===== verification/PathSafety.v ===== *)
(** * Where a tool may write ([permissions/src/path_safety.rs])

    [check_write] and its variants: the checks on the path that was asked
    for, on the file it resolves to, on the roots it must stay under, and on
    the symbolic links on the way there.  Canonicalization is the host's and
    Unicode normalization is a library's; both are parameters. *)

From stdpp Require Import base option numbers sets strings list.
From S2P Require Import Prelude RustStr PermTypes Path.

(** NFC normalization ([unicode_normalization]). *)
Class UnicodeNormalization := { nfc : str → str }.

Definition DEFAULT_FILENAME_BLACKLIST : list str :=
  [lit ".env"; lit ".env.local"; lit ".env.production"; lit "id_rsa"; lit "id_ed25519";
   lit ".ssh"; lit ".aws"; lit ".gnupg"; lit ".netrc"; lit ".pypirc"; lit ".npmrc"; lit ".pgpass"].
Definition GUARDED_FILENAMES : list str :=
  [lit ".gitignore"; lit "package-lock.json"; lit "Cargo.lock"].
Definition SETTINGS_FILENAMES : list str := [lit "settings.json"; lit "settings.local.json"].
Definition SETTINGS_DIRS : list str := [lit ".atta"; lit ".claude"].
Definition ABSOLUTE_DENY_PREFIXES : list str :=
  [lit "/etc"; lit "/System"; lit "/Library/Apple"; lit "/usr/bin"; lit "/usr/sbin";
   lit "/sbin"; lit "/bin"; lit "/boot"; lit "/proc"; lit "/sys"].

Record WritePolicy := {
  primary_root : str;
  additional_roots : list str;
  extra_blacklist : list str;
  allow : list str;
}.

Definition policy_new (root : str) : WritePolicy :=
  {| primary_root := root; additional_roots := []; extra_blacklist := []; allow := [] |}.

Inductive PathSafetyError :=
| UnresolvedTraversal (p : str)
| OutsideAllowedRoots (path primary : str) (additional : list str)
| BlacklistedFilename (path matched : str)
| SystemPathDenied (p : str)
| TildeExpansion (p : str)
| ShellExpansion (path matched : str)
| UncPathDetected (p : str)
| SymlinkEscape (symlink_path real_path primary : str)
| UnicodeNormalizationAttack (path normalized : str).

(** The error returned, or the slice [ancestors[1..len-1]] out of range. *)
Inductive WriteFault := Refused (e : PathSafetyError) | Panicked.

(** Component-wise prefix: as long, and equal place by place. *)
Definition starts_within (target root : str) : bool :=
  let tcomp := components target in
  let rcomp := components root in
  if decide (length tcomp < length rcomp) then false
  else forallb (λ '(a, b), bool_decide (a = b)) (zip tcomp rcomp).

Definition is_path_within_root (target root : str) : bool := starts_within target root.

(** The body is the one of [path_rule.rs]'s [normalize]. *)
Definition normalize_path_lexically (path : str) : str :=
  foldl normalize_step [] (components path).

Definition within_any (roots : list str) (p : str) : bool := existsb (starts_within p) roots.

(** Step 7a. *)
Definition settings_file (target : str) : option str :=
  match file_name target with
  | None => None
  | Some name =>
      let under_settings_dir := existsb
        (λ c, match c with Normal d => bool_decide (d ∈ SETTINGS_DIRS) | _ => false end)
        (components target) in
      if under_settings_dir && bool_decide (name ∈ SETTINGS_FILENAMES) then Some name else None
  end.

(** Step 7b, for one component. *)
Definition blacklist_hit (policy : WritePolicy) (c : Component) : option str :=
  match c with
  | Normal s =>
      find_first (λ b, bool_decide (s = b) || starts_with (b ++ lit ".") s)
        (DEFAULT_FILENAME_BLACKLIST ++ GUARDED_FILENAMES ++ extra_blacklist policy)
  | _ => None
  end.

(** Steps 1 to 3: the path as it was asked for. *)
Definition check_requested {UN : UnicodeNormalization} (requested : str)
    : option PathSafetyError :=
  if bool_decide (requested = lit "~") || starts_with "~/" requested || starts_with "~\" requested
  then Some (TildeExpansion requested)
  else if starts_with "\\" requested then Some (UncPathDetected requested)
  else if negb (bool_decide (nfc requested = requested))
  then Some (UnicodeNormalizationAttack requested (nfc requested))
  else None.

(** Step 4. *)
Definition check_target (target : str) : option PathSafetyError :=
  if negb (is_absolute target) then Some (UnresolvedTraversal target)
  else if existsb (λ c, bool_decide (c = ParentDir)) (components target)
  then Some (UnresolvedTraversal target)
  else None.

(** Step 5. *)
Definition check_expansion (requested : str) : option PathSafetyError :=
  if contains "$(" requested then Some (ShellExpansion requested "$(")
  else if contains_char (ch "`") requested then Some (ShellExpansion requested "`")
  else None.

(** Steps 6 and 7. *)
Definition check_names (policy : WritePolicy) (target : str) : option PathSafetyError :=
  if existsb (starts_within target) (allow policy) then None
  else if existsb (path_starts_with target) ABSOLUTE_DENY_PREFIXES
  then Some (SystemPathDenied target)
  else match settings_file target with
       | Some name =>
           Some (BlacklistedFilename target (name ++ lit " under an engine settings directory"))
       | None =>
           BlacklistedFilename target <$> find_map (blacklist_hit policy) (components target)
       end.

Definition policy_roots (policy : WritePolicy) : list str :=
  primary_root policy :: additional_roots policy.

(** Step 8. *)
Definition check_roots (policy : WritePolicy) (target : str) : option PathSafetyError :=
  if within_any (policy_roots policy) target then None
  else Some (OutsideAllowedRoots target (primary_root policy) (additional_roots policy)).

Section PathSafety.
Context {HE : HostEnv} {UN : UnicodeNormalization}.

(** Step 9, for one directory on the way. *)
Definition escapes (policy : WritePolicy) (component : str) : option PathSafetyError :=
  let roots := policy_roots policy in
  let canonical_roots := omap canonicalize roots in
  if existsb (λ r, path_eqb r component) roots then None
  else if negb (within_any roots component) then None
  else match canonicalize component with
       | Some real =>
           if negb (path_eqb real component) && negb (within_any roots real)
              && negb (within_any canonical_roots real)
           then Some (SymlinkEscape component real (primary_root policy))
           else None
       | None => None
       end.

(** The directories between the target and the root of the file system, from
    the top; [None] when there is no such slice. *)
Definition directories_above (target : str) : option (list str) :=
  match ancestors target with
  | [] | [_] => None
  | _ :: above => Some (reverse (removelast above))
  end.

Definition check_links (policy : WritePolicy) (target : str) : result unit WriteFault :=
  match directories_above target with
  | None => Err Panicked
  | Some dirs =>
      match find_map (escapes policy) dirs with
      | Some e => Err (Refused e)
      | None => Ok ()
      end
  end.

Definition refuse (e : option PathSafetyError) (k : result unit WriteFault)
    : result unit WriteFault :=
  match e with Some e => Err (Refused e) | None => k end.

Definition check_write_for (requested target : str) (policy : WritePolicy)
    : result unit WriteFault :=
  refuse (check_requested requested)
  (refuse (check_target target)
  (refuse (check_expansion requested)
  (refuse (check_names policy target)
  (refuse (check_roots policy target)
  (check_links policy target))))).

Definition check_write (target : str) (policy : WritePolicy) : result unit WriteFault :=
  check_write_for target target policy.

Definition check_write_resolve_symlinks (target : str) (resolved : option str)
    (policy : WritePolicy) : result unit WriteFault :=
  match check_write target policy with
  | Err e => Err e
  | Ok _ =>
      match resolved with
      | Some real =>
          if path_eqb real target then Ok ()
          else match check_write real policy with
               | Ok _ => Ok ()
               | Err (Refused _) => Err (Refused (SymlinkEscape target real (primary_root policy)))
               | Err Panicked => Err Panicked
               end
      | None => Ok ()
      end
  end.
End PathSafety.

(** ** The directories above a file *)

Lemma starts_within_spec target root :
  starts_within target root = true ↔ components root `prefix_of` components target.
Proof.
  unfold starts_within. generalize (components target) (components root).
  intros ts rs. revert rs. induction ts as [|t ts IH]; intros [|r rs].
  - by split; [exists []|].
  - rewrite decide_True by (cbn; lia). split; [done|]. by intros [k ?].
  - rewrite decide_False by (cbn; lia). split; [|done]. intros _. by exists (t :: ts).
  - specialize (IH rs). cbn [length zip zip_with forallb].
    destruct (decide (length ts < length rs)) as [Hl|Hl].
    + rewrite decide_True by lia. split; [done|]. intros [k Hk]. injection Hk as _ Hk.
      apply (f_equal length) in Hk. rewrite length_app in Hk. lia.
    + rewrite decide_False by lia.
      rewrite andb_true_iff, bool_decide_eq_true. split.
      * intros [-> H]. apply prefix_cons. by apply IH.
      * intros H. split; [by apply prefix_cons_inv_1 in H|].
        apply IH. by apply prefix_cons_inv_2 in H.
Qed.

(** The path of the first [k] names. *)
Definition dir_at (names : list str) (k : nat) : str :=
  of_components (RootDir :: (Normal <$> take k names)).

Lemma clean_names names : Forall name_ok names → clean_comps (RootDir :: (Normal <$> names)).
Proof. intros H. cbn. by apply Forall_fmap. Qed.

Lemma removelast_names names x :
  removelast (RootDir :: (Normal <$> names ++ [x])) = RootDir :: (Normal <$> names).
Proof.
  rewrite fmap_app. change (RootDir :: (Normal <$> names) ++ (Normal <$> [x]))
    with ((RootDir :: (Normal <$> names)) ++ [Normal x]). apply removelast_last.
Qed.

Lemma ancestors_names names p :
  Forall name_ok names → components p = RootDir :: (Normal <$> names) →
  ancestors_fuel (S (length names)) p =
  p :: reverse (dir_at names <$> seq 0 (length names)).
Proof.
  revert p. induction names as [|x names IH] using rev_ind; intros p Hok Hp.
  - cbn. unfold parent. by rewrite Hp.
  - apply Forall_app in Hok as [Hok Hx].
    assert (parent p = Some (dir_at names (length names))) as Hpar.
    { unfold parent. rewrite Hp, removelast_names, fmap_app.
      change (RootDir :: (Normal <$> names) ++ (Normal <$> [x]))
        with ((RootDir :: (Normal <$> names)) ++ [Normal x]). rewrite last_snoc.
      unfold dir_at. by rewrite take_ge. }
    rewrite length_app, Nat.add_1_r, seq_S, fmap_app, reverse_app.
    change (ancestors_fuel (S (S (length names))) p) with
      (p :: match parent p with Some q => ancestors_fuel (S (length names)) q | None => [] end).
    rewrite Hpar, IH; [|done|].
    + cbn [fmap list_fmap reverse rev_append app]. f_equal. cbn.
      change (reverse [?a]) with [a]. f_equal.
      * unfold dir_at. by rewrite take_app_length', take_ge.
      * f_equal. apply list_fmap_ext. intros i k Hk. apply lookup_seq in Hk as [-> Hk].
        unfold dir_at. by rewrite take_app_le by lia.
    + unfold dir_at. rewrite take_ge by done.
      by apply components_of_components, clean_names.
Qed.

Lemma directories_above_names names p :
  Forall name_ok names → components p = RootDir :: (Normal <$> names) →
  directories_above p =
  if decide (names = []) then None else Some (dir_at names <$> seq 1 (length names - 1)).
Proof.
  intros Hok Hp. unfold directories_above, ancestors. rewrite Hp. cbn [length].
  rewrite length_fmap, (ancestors_names names) by done.
  destruct names as [|x names]; [done|]. rewrite decide_False by done.
  set (f := dir_at (x :: names)).
  assert (reverse (f <$> seq 0 (length (x :: names))) =
          reverse (f <$> seq 1 (length (x :: names) - 1)) ++ [f 0]) as ->.
  { cbn [length seq fmap list_fmap]. rewrite reverse_cons, Nat.sub_1_r. done. }
  destruct (reverse (f <$> seq 1 (length (x :: names) - 1)) ++ [f 0]) as [|y l] eqn:E.
  { by apply app_eq_nil in E as [_ ?]. }
  rewrite <-E, removelast_last. by rewrite reverse_involutive.
Qed.

(** An absolute path without [..] is the root and names. *)
Lemma plain_absolute p : is_absolute p = true → ParentDir ∉ components p →
  ∃ names, components p = RootDir :: (Normal <$> names) ∧ Forall name_ok names.
Proof.
  intros Ha Hd. unfold components in *. rewrite Ha in *.
  assert (∀ qs, (∀ q, q ∈ qs → slash ∉ q) → ParentDir ∉ omap (M:=list) parse_piece qs →
    ∃ names, omap (M:=list) parse_piece qs = Normal <$> names ∧ Forall name_ok names) as H.
  { clear. induction qs as [|q qs IH]; intros Hs Hd; [by exists []|].
    destruct IH as (names & E & Hok); [set_solver| |].
    { intros H. apply Hd. cbn. destruct (parse_piece q); [by right|done]. }
    cbn in *. destruct (parse_piece q) as [c|] eqn:Eq.
    - destruct (parse_piece_ok q c) as [->|Hc]; [apply Hs; left|done| |].
      + destruct Hd. left.
      + destruct c as [| | |n]; try done. exists (n :: names).
        split; [by cbn; f_equal|by constructor].
    - by exists names. }
  destruct (H (split slash p)) as (names & -> & Hok); [| |by exists names].
  - intros q. apply split_elem_no_sep.
  - intros Hin. apply Hd. by right.
Qed.

(** ** What a permitted write is *)

(** The path as the caller asked for it hides nothing. *)
Definition requested_plain {UN : UnicodeNormalization} (req : str) : Prop :=
  req ≠ lit "~" ∧ starts_with "~/" req = false ∧ starts_with "~\" req = false ∧
  starts_with "\\" req = false ∧ nfc req = req ∧
  contains "$(" req = false ∧ (ch "`" ∉ req).

(** A name on the write blacklist, or such a name with an extension. *)
Definition guarded_name (policy : WritePolicy) (s : str) : Prop :=
  ∃ b, b ∈ DEFAULT_FILENAME_BLACKLIST ++ GUARDED_FILENAMES ++ extra_blacklist policy ∧
       (s = b ∨ (b ++ lit ".") `prefix_of` s).

Definition unguarded (policy : WritePolicy) (target : str) (names : list str) : Prop :=
  (∀ p, p ∈ ABSOLUTE_DENY_PREFIXES → ¬ components p `prefix_of` components target) ∧
  (∀ n, last names = Some n → n ∈ SETTINGS_FILENAMES →
        ∀ d, d ∈ names → d ∉ SETTINGS_DIRS) ∧
  (∀ n, n ∈ names → ¬ guarded_name policy n).

Definition under (policy : WritePolicy) (p : str) : Prop :=
  ∃ r, r ∈ policy_roots policy ∧ components r `prefix_of` components p.

(** Where a directory inside a root may really be. *)
Definition stays_inside {HE : HostEnv} (policy : WritePolicy) (dir : str) : Prop :=
  ∀ real, canonicalize dir = Some real →
    components real = components dir ∨ under policy real ∨
    ∃ r c, r ∈ policy_roots policy ∧ canonicalize r = Some c ∧
           components c `prefix_of` components real.

Definition writable {HE : HostEnv} (policy : WritePolicy) (target : str) : Prop :=
  ∃ names, components target = RootDir :: (Normal <$> names) ∧ Forall name_ok names ∧
    ((∃ a, a ∈ allow policy ∧ components a `prefix_of` components target) ∨
     unguarded policy target names) ∧
    under policy target ∧ names ≠ [] ∧
    (∀ k, 1 ≤ k < length names →
       under policy (dir_at names k) →
       (∀ r, r ∈ policy_roots policy → components r ≠ components (dir_at names k)) →
       stays_inside policy (dir_at names k)).

Section PathSafetyFacts.
Context {HE : HostEnv} {UN : UnicodeNormalization}.

Lemma within_any_spec roots p :
  within_any roots p = true ↔ ∃ r, r ∈ roots ∧ components r `prefix_of` components p.
Proof.
  unfold within_any. rewrite existsb_elem_of. by setoid_rewrite starts_within_spec.
Qed.

Lemma check_requested_spec req :
  (check_requested req = None ∧ check_expansion req = None) ↔ requested_plain req.
Proof.
  unfold check_requested, check_expansion, requested_plain, contains_char.
  destruct (bool_decide (req = lit "~")) eqn:E1; cbn [orb];
    [apply bool_decide_eq_true in E1; split; [by intros []|tauto]|].
  apply bool_decide_eq_false in E1.
  destruct (starts_with "~/" req), (starts_with "~\" req), (starts_with "\\" req);
    cbn [orb]; try (split; [by intros []|by intros (_ & ? & ? & ? & _)]).
  destruct (bool_decide (nfc req = req)) eqn:E2; cbn [negb];
    [apply bool_decide_eq_true in E2|apply bool_decide_eq_false in E2;
      split; [by intros []|tauto]].
  destruct (contains "$(" req); [split; [by intros []|by intros (_&_&_&_&_&?&_)]|].
  destruct (bool_decide (ch "`" ∈ req)) eqn:E3;
    [apply bool_decide_eq_true in E3; split; [by intros []|tauto]|].
  apply bool_decide_eq_false in E3. tauto.
Qed.

Lemma check_target_spec target :
  check_target target = None ↔
  ∃ names, components target = RootDir :: (Normal <$> names) ∧ Forall name_ok names.
Proof.
  unfold check_target. destruct (is_absolute target) eqn:Ea; cbn [negb].
  - destruct (existsb _ _) eqn:Ed.
    + split; [done|]. intros (names & E & _). apply existsb_elem_of in Ed as (c & Hc & ->%bool_decide_eq_true).
      rewrite E in Hc. by apply elem_of_cons in Hc as [?|(? & ? & _)%list_elem_of_fmap].
    + split; [|done]. intros _. apply plain_absolute; [done|].
      rewrite existsb_false_elem_of in Ed. intros H. apply Ed in H.
      by apply bool_decide_eq_false in H.
  - split; [done|]. intros (names & E & _).
    assert (is_absolute target = true) by (apply components_absolute; by rewrite E). congruence.
Qed.

Lemma blacklist_hit_spec policy n :
  blacklist_hit policy (Normal n) = None ↔ ¬ guarded_name policy n.
Proof.
  unfold blacklist_hit, guarded_name. rewrite find_first_None. split.
  - intros H (b & Hb & Hn). specialize (H b Hb). apply orb_false_iff in H as [H1 H2].
    destruct Hn as [->|[k ->]]; [by apply bool_decide_eq_false in H1|].
    by rewrite starts_with_app in H2.
  - intros H b Hb. apply orb_false_iff. split.
    + apply bool_decide_eq_false. intros ->. apply H. eauto.
    + apply not_true_iff_false. intros [k ->]%starts_with_spec. apply H.
      exists b. split; [done|]. right. by exists k.
Qed.

Lemma last_names names : last (RootDir :: (Normal <$> names)) =
  match last names with Some n => Some (Normal n) | None => Some RootDir end.
Proof.
  destruct names as [|x names _] using rev_ind; [done|].
  rewrite fmap_app. change (RootDir :: (Normal <$> names) ++ (Normal <$> [x]))
    with ((RootDir :: (Normal <$> names)) ++ [Normal x]). by rewrite !last_snoc.
Qed.

Lemma settings_file_spec target names : components target = RootDir :: (Normal <$> names) →
  settings_file target = None ↔
  ∀ n, last names = Some n → n ∈ SETTINGS_FILENAMES → ∀ d, d ∈ names → d ∉ SETTINGS_DIRS.
Proof.
  intros E. unfold settings_file, file_name. rewrite E, last_names.
  destruct (last names) as [n|]; [|by split; [intros _ ? ?|]].
  assert (existsb (λ c, match c with Normal d => bool_decide (d ∈ SETTINGS_DIRS) | _ => false end)
            (RootDir :: (Normal <$> names)) = true ↔ ∃ d, d ∈ names ∧ d ∈ SETTINGS_DIRS) as H.
  { rewrite existsb_elem_of. split.
    - intros (c & [->|(d & -> & Hd)%list_elem_of_fmap]%elem_of_cons & Hc); [done|].
      apply bool_decide_eq_true in Hc. eauto.
    - intros (d & Hd & Hs). exists (Normal d). split; [|by apply bool_decide_eq_true].
      right. by apply list_elem_of_fmap_2. }
  destruct (existsb _ _) eqn:Ee; cbn [andb].
  - destruct (proj1 H eq_refl) as (d & Hd & Hs). case_bool_decide as Hn.
    + split; [done|]. intros Hall. by destruct (Hall n eq_refl Hn d).
    + split; [|done]. intros _ n' [= <-]. done.
  - split; [|done]. intros _ n' [= <-] _ d Hd Hs. assert (false = true) by (apply H; eauto). done.
Qed.

Lemma check_names_spec policy target names :
  components target = RootDir :: (Normal <$> names) →
  check_names policy target = None ↔
  (∃ a, a ∈ allow policy ∧ components a `prefix_of` components target) ∨
  unguarded policy target names.
Proof.
  intros E. unfold check_names, unguarded.
  assert (existsb (starts_within target) (allow policy) = true ↔
    ∃ a, a ∈ allow policy ∧ components a `prefix_of` components target) as Hal.
  { rewrite existsb_elem_of. by setoid_rewrite starts_within_spec. }
  destruct (existsb (starts_within target) _); [split; [left; by apply Hal|done]|].
  rewrite <-Hal. clear Hal. transitivity (unguarded policy target names); unfold unguarded;
    [|split; [by right|by intros [?|?]]].
  destruct (existsb (path_starts_with target) _) eqn:Es.
  - split; [done|]. intros [H _]. apply existsb_elem_of in Es as (p & Hp & Hs%bool_decide_eq_true).
    by destruct (H p Hp).
  - rewrite existsb_false_elem_of in Es.
    assert (∀ p, p ∈ ABSOLUTE_DENY_PREFIXES → ¬ components p `prefix_of` components target) as Hs.
    { intros p Hp. apply Es in Hp. by apply bool_decide_eq_false in Hp. }
    rewrite <-(settings_file_spec target names E).
    destruct (settings_file target); [split; [done|by intros (_ & ? & _)]|].
    rewrite fmap_None, find_map_None. split.
    + intros H. split; [exact Hs|]. split; [done|]. intros n Hn.
      apply blacklist_hit_spec, H. rewrite E. right. by apply list_elem_of_fmap_2.
    + intros (_ & _ & H) c Hc. rewrite E in Hc.
      apply elem_of_cons in Hc as [->|(n & -> & Hn)%list_elem_of_fmap]; [done|].
      by apply blacklist_hit_spec, H.
Qed.

Lemma escapes_spec policy dir :
  escapes policy dir = None ↔
  (under policy dir → (∀ r, r ∈ policy_roots policy → components r ≠ components dir) →
   stays_inside policy dir).
Proof.
  unfold escapes, under, stays_inside.
  assert (existsb (λ r, path_eqb r dir) (policy_roots policy) = true ↔
    ∃ r, r ∈ policy_roots policy ∧ components r = components dir) as Hr.
  { rewrite existsb_elem_of. by setoid_rewrite bool_decide_eq_true. }
  destruct (existsb _ _).
  { split; [|done]. intros _ _ Hne. destruct (proj1 Hr eq_refl) as (r & ? & ?). by destruct (Hne r). }
  destruct (within_any (policy_roots policy) dir) eqn:Ew; cbn [negb].
  2:{ split; [|done]. intros _ Hu%within_any_spec. congruence. }
  apply within_any_spec in Ew.
  assert (∀ r, r ∈ policy_roots policy → components r ≠ components dir) as Hne.
  { intros r Hin E. assert (false = true) by (apply Hr; eauto). done. }
  transitivity (∀ real, canonicalize dir = Some real →
    components real = components dir ∨ under policy real ∨
    ∃ r c, r ∈ policy_roots policy ∧ canonicalize r = Some c ∧
           components c `prefix_of` components real); [|by unfold under; tauto].
  destruct (canonicalize dir) as [real|]; [|by split].
  assert (within_any (omap canonicalize (policy_roots policy)) real = true ↔
    ∃ r c, r ∈ policy_roots policy ∧ canonicalize r = Some c ∧
           components c `prefix_of` components real) as Hc.
  { rewrite within_any_spec. setoid_rewrite list_elem_of_omap. split.
    - intros (c & (r & ? & ?) & ?). eauto 10.
    - intros (r & c & ? & ? & ?). eauto 10. }
  pose proof (within_any_spec (policy_roots policy) real) as Hu.
  fold (under policy real) in Hu. unfold path_eqb. destruct (decide (components real = components dir)) as [E|E].
  { rewrite bool_decide_eq_true_2 by done. cbn [negb andb]. split; [|done]. intros _ ? [= <-]. by left. }
  rewrite bool_decide_eq_false_2 by done. cbn [negb andb].
  destruct (within_any (policy_roots policy) real); cbn [negb andb].
  { split; [|done]. intros _ ? [= <-]. right. left. by apply Hu. }
  destruct (within_any (omap canonicalize (policy_roots policy)) real); cbn [negb].
  { split; [|done]. intros _ ? [= <-]. right. right. by apply Hc. }
  split; [done|]. intros H. destruct (H real eq_refl) as [?|[?|?]]; [done| |].
  - by apply Hu in H0.
  - by apply Hc in H0.
Qed.

Lemma refuse_Ok e k : refuse e k = Ok () ↔ e = None ∧ k = Ok ().
Proof. destruct e; cbn; split; try done; by intros []. Qed.

Lemma check_links_spec policy target names :
  Forall name_ok names → components target = RootDir :: (Normal <$> names) →
  check_links policy target = Ok () ↔
  names ≠ [] ∧ (∀ k, 1 ≤ k < length names → under policy (dir_at names k) →
    (∀ r, r ∈ policy_roots policy → components r ≠ components (dir_at names k)) →
    stays_inside policy (dir_at names k)).
Proof.
  intros Hok E. unfold check_links. rewrite (directories_above_names names) by done.
  case_decide as Hn; [by split; [|intros []]|].
  destruct (find_map (escapes policy) _) as [e|] eqn:Ef.
  - split; [done|]. intros [_ H]. apply find_map_Some in Ef as (d & (k & -> & Hk)%list_elem_of_fmap & He).
    apply elem_of_seq in Hk. assert (escapes policy (dir_at names k) = None) as Hnone.
    { apply escapes_spec. apply H. lia. }
    congruence.
  - split; [|done]. intros _. split; [done|]. intros k Hk.
    apply escapes_spec. rewrite find_map_None in Ef. apply Ef. apply list_elem_of_fmap_2, elem_of_seq. lia.
Qed.

Lemma check_write_for_spec requested target policy :
  check_write_for requested target policy = Ok () ↔
  requested_plain requested ∧ writable policy target.
Proof.
  unfold check_write_for. rewrite !refuse_Ok, <-check_requested_spec. unfold writable.
  split.
  - intros (Hr & (names & E & Hok)%check_target_spec & Hx & Hn & Hroots & Hl).
    rewrite (check_names_spec _ _ names) in Hn by done.
    rewrite (check_links_spec _ _ names) in Hl by done. destruct Hl as [Hne Hl].
    split; [done|]. exists names. split_and!; try done.
    unfold check_roots in Hroots. destruct (within_any _ _) eqn:Ew; [|done].
    by apply within_any_spec in Ew.
  - intros ([Hr Hx] & names & E & Hok & Hn & Hu & Hne & Hl).
    split_and!; [done| |done| | |].
    + apply check_target_spec. eauto.
    + by apply (check_names_spec _ _ names).
    + unfold check_roots. by rewrite (proj2 (within_any_spec _ _) Hu).
    + by apply (check_links_spec _ _ names).
Qed.

(** C25. What a tool may write: the check passes exactly when the path asked
    for hides nothing (no [~], UNC share, unnormalized character or shell
    substitution) and the file - and, when the filesystem says it is really
    another one, that file too - is an absolute path without [..] below an
    allowed root, is not a system, settings or blacklisted name unless
    exempted, and is reached through no directory inside a root that is a
    link out of every root. *)
Theorem check_write_iff requested target resolved policy :
  (check_write_for requested target policy = Ok () ↔
     requested_plain requested ∧ writable policy target) ∧
  (check_write_resolve_symlinks target resolved policy = Ok () ↔
     (requested_plain target ∧ writable policy target) ∧
     ∀ real, resolved = Some real → components real ≠ components target →
       requested_plain real ∧ writable policy real).
Proof.
  split; [apply check_write_for_spec|].
  rewrite <-check_write_for_spec. fold (check_write target policy).
  unfold check_write_resolve_symlinks.
  destruct (check_write target policy) as [[]|e]; [|by split; [|intros []]].
  destruct resolved as [real|]; [|by split].
  unfold path_eqb. case_bool_decide as E; [split; [|done]; intros _; split; [done|]; by intros ? [= <-]|].
  pose proof (check_write_for_spec real real policy) as Hs. fold (check_write real policy) in Hs.
  split.
  - intros H. split; [done|]. intros ? [= <-] _. apply Hs.
    by destruct (check_write real policy) as [[]|[]].
  - intros [_ H]. specialize (H real eq_refl E). apply Hs in H. by rewrite H.
Qed.

(** Containment: a permitted write stays, after lexical normalization,
    below an allowed root, and a directory strictly inside a root on the way
    there really is where it seems to be, or inside a root. *)
Theorem permitted_write_contained target policy :
  check_write target policy = Ok () →
  components (normalize_path_lexically target) = components target ∧
  under policy (normalize_path_lexically target) ∧
  ∃ names, components target = RootDir :: (Normal <$> names) ∧
    ∀ k real, 1 ≤ k < length names → under policy (dir_at names k) →
      (∀ r, r ∈ policy_roots policy → components r ≠ components (dir_at names k)) →
      canonicalize (dir_at names k) = Some real → (∀ r, r ∈ policy_roots policy →
        ∀ c, canonicalize r = Some c → components c = components r) →
      under policy real.
Proof.
  unfold check_write. rewrite check_write_for_spec.
  intros (_ & names & E & Hok & _ & Hu & _ & Hl).
  assert (components (normalize_path_lexically target) = components target) as En.
  { change (normalize_path_lexically target) with (normalize target).
    rewrite components_normalize, E. apply norm_comps_clean_id. by apply clean_names. }
  split_and!; [done|by unfold under; rewrite En|].
  exists names. split; [done|]. intros k real Hk Hin Hne Hreal Hcanon.
  destruct (Hl k Hk Hin Hne real Hreal) as [Hsame|[?|(r & c & Hr & Hc & Hpre)]]; [|done|].
  - destruct Hin as (r & Hr & Hpre). exists r. by rewrite Hsame.
  - exists r. split; [done|]. by rewrite <-(Hcanon r Hr c Hc).
Qed.
End PathSafetyFacts.

(** ** Worked examples *)

(** A library that finds every text in normal form already. *)
Definition ascii_nfc : UnicodeNormalization := {| nfc := id |}.

Definition example_policy : WritePolicy :=
  {| primary_root := lit "/proj"; additional_roots := [lit "/tmp/out"];
     extra_blacklist := [lit "vendor"]; allow := [lit "/proj/.env.example"] |}.

Lemma permitted_write_contained_witness :
  under example_policy (normalize_path_lexically "/proj/src/./main.rs").
Proof.
  apply (permitted_write_contained (HE := plain_host) (UN := ascii_nfc)
           "/proj/src/./main.rs" example_policy).
  vm_compute. reflexivity.
Defined.

(** A link inside the project to a directory outside it. *)
Definition linked_host : HostEnv :=
  {| canonicalize := λ p, if decide (p = lit "/proj/link") then Some (lit "/home/u") else Some p;
     env_HOME := None; env_USERPROFILE := None |}.

Example writes_checked :
  let check p := check_write (HE := linked_host) (UN := ascii_nfc) p example_policy in
  check "/proj/.env.example" = Ok () ∧
  check "/proj/.env" = Err (Refused (BlacklistedFilename "/proj/.env" ".env")) ∧
  check "/proj/link/x" = Err (Refused (SymlinkEscape "/proj/link" "/home/u" "/proj")) ∧
  check "/proj/.atta/worktrees/a/main.rs" = Ok () ∧
  check "/proj2/x" = Err (Refused (OutsideAllowedRoots "/proj2/x" "/proj" [lit "/tmp/out"])).
Proof. by split_and!; vm_compute. Qed.

(** The root directory passes every check before the last one, and the last
    one slices its empty list of ancestors out of range. *)
Example root_directory_panics :
  check_write (HE := plain_host) (UN := ascii_nfc) "/" (policy_new "/") = Err Panicked.
Proof. by vm_compute. Qed.
