(* ===== verification/Yolo.v ===== *)
(** * The yolo classifier ([permissions/src/yolo.rs])

    The heuristic classifier of yolo mode: an instance of the gate's
    classifier interface that never refuses. *)

From stdpp Require Import base option numbers sets strings list.
From S2P Require Import Prelude RustStr PermTypes Rule Path PathRule Shell RuleSet Gate.

(** [input.get(k1).or_else(|| input.get(k2))...and_then(as_str).unwrap_or("")]:
    the first key that is present decides, string or not. *)
Definition first_field (ks : list str) (input : value) : str :=
  default [] (find_map (λ k, value_get k input) ks ≫= as_str).

Definition YOLO_READ_TOOLS : list str :=
  [lit "Read"; lit "Grep"; lit "Glob"; lit "ListFiles"; lit "Search"].
Definition YOLO_WEB_TOOLS : list str :=
  [lit "WebSearch"; lit "WebFetch"; lit "Fetch"; lit "Http"].
Definition YOLO_SHELL_TOOLS : list str := [lit "Bash"; lit "PowerShell"; lit "Shell"].
Definition YOLO_FILE_TOOLS : list str :=
  [lit "Edit"; lit "Write"; lit "NotebookEdit"; lit "FileWrite"; lit "FileEdit"].

Definition safe_patterns : list str :=
  [lit "git "; lit "cargo "; lit "npm "; lit "yarn "; lit "pnpm "; lit "bun "; lit "ls";
   lit "cat "; lit "echo "; lit "head "; lit "tail "; lit "wc "; lit "pwd"; lit "whoami";
   lit "uname"; lit "date"; lit "which "; lit "type "; lit "mkdir -p"; lit "cp "; lit "mv ";
   lit "touch "; lit "chmod +x"; lit "rustc"; lit "python"; lit "python3"; lit "node ";
   lit "deno "; lit "make "; lit "cmake"; lit "go "; lit "cargo test"; lit "npm test";
   lit "docker "; lit "docker-compose"].

Definition destructive_patterns : list str :=
  [lit "rm "; lit "rmdir "; lit "dd "; lit "mkfs"; lit "fdisk"; lit "parted"; lit "chmod 0";
   lit "chown "; lit "kill "; lit "pkill "; lit "sudo "; lit "passwd"; lit "shutdown";
   lit "reboot"; lit "init "; lit "> /dev/"; lit "> /etc/"; lit ":(){ :|:& };:"; lit "wget ";
   lit "curl -"; lit "curl --"; lit "chattr"].

Definition classify_command (cmd : str) : ClassifyDecision :=
  let trimmed := trim cmd in
  if bool_decide (trimmed = []) || bool_decide (len trimmed < 3)
  then ClassifyAllow "yolo: trivial command"
  else if existsb (λ p, starts_with p trimmed) safe_patterns
  then ClassifyAllow "yolo: safe command pattern"
  else if existsb (λ p, contains p trimmed) destructive_patterns then ClassifyDefer
  else ClassifyAllow "yolo: bash command".

Definition classify_write (path : str) : ClassifyDecision :=
  if negb (starts_with "/" path) && negb (contains ".." path)
  then ClassifyAllow "yolo: in-project file write"
  else if starts_with "/tmp" path || starts_with "/var/tmp" path
  then ClassifyAllow "yolo: temp directory write"
  else ClassifyDefer.

Definition yolo_classify (tool_name tool_description : str) (input : value) : ClassifyDecision :=
  if decide (tool_name ∈ YOLO_READ_TOOLS) then ClassifyAllow "yolo: read-only operation"
  else if decide (tool_name ∈ YOLO_WEB_TOOLS)
  then ClassifyAllow "yolo: network fetch always allowed"
  else if decide (tool_name ∈ YOLO_SHELL_TOOLS)
  then classify_command (first_field [lit "command"; lit "cmd"; lit "script"] input)
  else if decide (tool_name ∈ YOLO_FILE_TOOLS)
  then classify_write
         (first_field [lit "file_path"; lit "path"; lit "target_file"; lit "filename"] input)
  else ClassifyDefer.

Definition YoloClassifier : AutoClassifier := {| classify := yolo_classify |}.

(** ** A relative path without [..] stays where it is joined *)

Lemma no_dots_pieces p : contains ".." p = false → ParentDir ∉ components p.
Proof.
  intros Hn Hin. apply not_true_iff_false in Hn. apply Hn. clear Hn.
  assert (∀ qs, ParentDir ∈ omap (M:=list) parse_piece qs → lit ".." ∈ qs) as H.
  { intros qs (q & Hq & E)%list_elem_of_omap. unfold parse_piece in E.
    repeat case_decide; simplify_eq. done. }
  assert (lit ".." ∈ split slash p) as Hs.
  { rewrite components_pieces in Hin. apply elem_of_app in Hin as [Hin|Hin]; [|by apply H].
    exfalso. revert Hin. unfold comp_prefix. repeat case_match;
      by first [intros ?%list_elem_of_singleton|intros ?%not_elem_of_nil]. }
  apply contains_spec. clear -Hs. apply list_elem_of_split in Hs as (l1 & l2 & E).
  rewrite <-(split_join slash p), E. clear E. induction l1 as [|x l1 IH].
  - exists [], (match l2 with [] => [] | _ => slash :: join [slash] l2 end).
    by destruct l2.
  - destruct IH as (l & r & E). exists (x ++ slash :: l), r.
    assert (join [slash] ((x :: l1) ++ lit ".." :: l2) =
            x ++ [slash] ++ join [slash] (l1 ++ lit ".." :: l2)) as ->.
    { cbn [app]. destruct (l1 ++ lit ".." :: l2) as [|y ys] eqn:El; [by destruct l1|].
      apply join_cons2. }
    rewrite E. by rewrite <-!app_assoc.
Qed.

(** Yolo mode never refuses by itself, and it lets a file tool write
    without asking only inside the project or below the temporary
    directories' prefixes: any other path it allows is relative, without
    [..], and joined onto the working directory it stays below it. *)
Theorem yolo_writes_stay_in_project name description input cwd path :
  is_absolute cwd = true →
  classifier_denies (yolo_classify name description input) = false ∧
  (name ∈ YOLO_FILE_TOOLS →
   path = first_field [lit "file_path"; lit "path"; lit "target_file"; lit "filename"] input →
   classifier_allows (yolo_classify name description input) = true →
   lit "/tmp" `prefix_of` path ∨ lit "/var/tmp" `prefix_of` path ∨
   is_absolute path = false ∧
   components (normalize cwd) `prefix_of` components (normalize (path_join cwd path))).
Proof.
  intros Hcwd. split.
  { unfold yolo_classify, classify_command, classify_write. repeat case_match; done. }
  intros Hn Hp. unfold yolo_classify.
  assert (∀ l : list str, Forall (λ x, x ∉ l) YOLO_FILE_TOOLS → name ∉ l) as Hdis.
  { intros l Hl. rewrite Forall_forall in Hl. by apply Hl. }
  rewrite !decide_False by (apply Hdis; by_compute). rewrite decide_True by done.
  rewrite <-Hp. unfold classify_write.
  destruct (negb (starts_with "/" path) && negb (contains ".." path)) eqn:E.
  - bool_simpl. intros _. right. right. split; [done|].
    rewrite !components_normalize. unfold path_join.
    apply push_stays_below; [by intros ->|done|]. by intros ?%no_dots_pieces.
  - destruct (starts_with "/tmp" path) eqn:E1.
    { intros _. left. apply starts_with_spec in E1 as [r ->]. by exists r. }
    destruct (starts_with "/var/tmp" path) eqn:E2; [|done].
    intros _. right. left. apply starts_with_spec in E2 as [r ->]. by exists r.
Qed.

Lemma yolo_writes_stay_in_project_witness :
  components (normalize "/proj") `prefix_of` components (normalize (path_join "/proj" "src/a.rs")).
Proof.
  destruct (yolo_writes_stay_in_project "Write" [] (file_input "src/a.rs") "/proj" "src/a.rs")
    as [_ H]; [reflexivity|].
  destruct H as [H|[H|[_ H]]]; [by_compute|reflexivity|vm_compute; reflexivity|..|exact H];
    exfalso; revert H; by_compute.
Defined.

(** A destructive command behind a safe prefix is allowed, and so is a path
    that leaves the temporary directory. *)
Example yolo_prefixes_suffice :
  classifier_allows (classify_command "ls; rm -rf /") = true ∧
  classify_command "x; rm -rf /" = ClassifyDefer ∧
  classifier_allows (classify_write "/tmp/../etc/crontab") = true.
Proof. by split_and!; vm_compute. Qed.
