(* ===== verification/SettingsPatch.v ===== *)
(** * Remembering an answer ([permissions/src/settings_patch.rs])

    "Always allow": the rule string made from a call's content and the edit
    of the settings file that records it.  The file is its text, absent when
    it does not exist; JSON parsing and printing are [serde_json]'s and are
    parameters.  The process-wide lock makes the calls sequential; failing
    I/O is not modelled. *)

From stdpp Require Import base option numbers sets strings list.
From S2P Require Import Prelude RustStr PermTypes Rule Path PathRule Shell RuleSet RuleLint.

(** [serde_json::from_slice] and [to_string_pretty]. *)
Class SerdeJson := {
  from_slice : str → option value;
  to_string_pretty : value → str;
}.

Inductive AppendTarget := AppendAllow | AppendDeny | AppendAsk.

Definition target_action (t : AppendTarget) : str :=
  match t with AppendAllow => "allow" | AppendDeny => "deny" | AppendAsk => "ask" end.

(** [BadJson]: the file does not parse. *)
Inductive AppendError := BadJson | NotObject.

Definition key_permission_rules : str := lit "permission_rules".

(** Set a key of an object, in place or as a new entry. *)
Fixpoint obj_set (k : str) (v : value) (o : list (str * value)) : list (str * value) :=
  match o with
  | [] => [(k, v)]
  | (k', v') :: o => if decide (k = k') then (k, v) :: o else (k', v') :: obj_set k v o
  end.

Definition rule_entry (action rule_string : str) : value :=
  VObject [(lit "tool", VString rule_string); (lit "action", VString action)].

Definition is_entry (action rule_string : str) (v : value) : bool :=
  bool_decide ((value_get (lit "tool") v ≫= as_str) = Some rule_string) &&
  bool_decide ((value_get (lit "action") v ≫= as_str) = Some action).

(** [f.read()] of a file that exists and holds more than blanks. *)
Definition read_settings {SJ : SerdeJson} (file : option str) : result value AppendError :=
  match file with
  | None => Ok (VObject [])
  | Some text =>
      if forallb is_ascii_whitespace text then Ok (VObject [])
      else match from_slice text with Some v => Ok v | None => Err BadJson end
  end.

(** Whether the file was modified, and the file. *)
Definition append_permission_rule {SJ : SerdeJson} (file : option str) (target : AppendTarget)
    (rule_string : str) : result (bool * option str) AppendError :=
  (v ←? read_settings file;
   match v with
   | VObject root =>
       match default (VArray []) (obj_get key_permission_rules root) with
       | VArray arr =>
           let action := target_action target in
           if existsb (is_entry action rule_string) arr then Ok (false, file)
           else
             let arr' := arr ++ [rule_entry action rule_string] in
             Ok (true, Some (to_string_pretty
                               (VObject (obj_set key_permission_rules (VArray arr') root))))
       | _ => Err NotObject
       end
   | _ => Err NotObject
   end)%result.

(** [build_rule_string]. *)
Definition build_rule_string (tool_name : str) (match_content : option str) : option str :=
  match match_content with
  | None => None
  | Some c =>
      let content := trim c in
      if decide (content = []) then None
      else Some (tool_name ++ lit "(" ++ content ++ lit ")")
  end.

(** How the settings are read back. *)
Definition action_of_str (s : str) : option PermissionAction :=
  if decide (s = lit "allow") then Some ActionAllow
  else if decide (s = lit "deny") then Some ActionDeny
  else if decide (s = lit "ask") then Some ActionAsk
  else None.

Definition action_of_value (v : value) : option PermissionAction :=
  match v with
  | VString s | VObject [(s, VNull)] => action_of_str s
  | _ => None
  end.

(** A rule is read from an object, whatever else is in it, or from an array
    of its two fields. *)
Definition rule_of_value (v : value) : option SettingsRule :=
  match v with
  | VObject o =>
      t ← obj_get (lit "tool") o ≫= as_str;
      a ← obj_get (lit "action") o ≫= action_of_value;
      Some {| tool := t; action := a; tier := None |}
  | VArray [VString t; a] =>
      a ← action_of_value a; Some {| tool := t; action := a; tier := None |}
  | _ => None
  end.

Definition entries_of (v : value) : list value :=
  match value_get key_permission_rules v with Some (VArray arr) => arr | _ => [] end.

(** All of them, or none when one is not a rule. *)
Definition loaded_rules (v : value) : list SettingsRule := default [] (mapM rule_of_value (entries_of v)).

(** ** What an appended rule does *)

Lemma obj_get_set k k' v o :
  obj_get k (obj_set k' v o) = if decide (k = k') then Some v else obj_get k o.
Proof.
  induction o as [|[x w] o IH]; cbn [obj_set obj_get]; [done|].
  destruct (decide (k' = x)) as [->|Hx]; cbn [obj_get].
  - destruct (decide (k = x)); done.
  - rewrite IH. destruct (decide (k = x)) as [->|]; [|done]. by rewrite decide_False by congruence.
Qed.

(** The document with the rule appended. *)
Definition with_entry (v : value) (target : AppendTarget) (s : str) : value :=
  match v with
  | VObject root =>
      VObject (obj_set key_permission_rules
        (VArray (entries_of v ++ [rule_entry (target_action target) s])) root)
  | _ => v
  end.

(** The library prints this value as text that parses back to it. *)
Definition prints_back {SJ : SerdeJson} (v : value) : Prop :=
  from_slice (to_string_pretty v) = Some v ∧
  forallb is_ascii_whitespace (to_string_pretty v) = false.

Lemma read_settings_printed {SJ : SerdeJson} v :
  prints_back v → read_settings (Some (to_string_pretty v)) = Ok v.
Proof. intros [Hp Hb]. unfold read_settings. by rewrite Hb, Hp. Qed.

Lemma is_entry_rule_entry a s : is_entry a s (rule_entry a s) = true.
Proof. unfold is_entry, rule_entry. by rewrite andb_true_iff, !bool_decide_eq_true. Qed.

Lemma append_cases {SJ : SerdeJson} file target s :
  match append_permission_rule file target s with
  | Ok (modified, file') =>
      ∃ root arr, read_settings file = Ok (VObject root) ∧ entries_of (VObject root) = arr ∧
        modified = negb (existsb (is_entry (target_action target) s) arr) ∧
        file' = if modified
                then Some (to_string_pretty (VObject (obj_set key_permission_rules
                       (VArray (arr ++ [rule_entry (target_action target) s])) root)))
                else file
  | Err _ => True
  end.
Proof.
  unfold append_permission_rule. destruct (read_settings file) as [[]|] eqn:E; cbn [result_bind]; try done.
  assert (∀ arr, default (VArray []) (obj_get key_permission_rules o) = VArray arr →
    entries_of (VObject o) = arr) as Hen.
  { unfold entries_of. cbn [value_get]. intros arr. destruct (obj_get _ o) as [[]|]; cbn; congruence. }
  destruct (default _ _) as [| | | |arr|] eqn:Ed; try done.
  destruct (existsb _ arr) eqn:Ex; exists o, arr; rewrite Ex; auto.
Qed.

(** Appending a rule to a settings file keeps everything else: when the
    file is modified, reading it back gives the same value under every other
    key, and the old rule entries followed by the new one; when it is not, the
    rule was there; and appending the same rule again changes nothing.  The
    JSON library is assumed to print this document so that it parses back. *)
Theorem append_is_conservative {SJ : SerdeJson} file target s modified file' v :
  append_permission_rule file target s = Ok (modified, file') →
  read_settings file = Ok v → prints_back (with_entry v target s) →
  ∃ v', read_settings file' = Ok v' ∧
    (∀ k, k ≠ key_permission_rules → value_get k v' = value_get k v) ∧
    entries_of v' = entries_of v ++
      (if modified then [rule_entry (target_action target) s] else []) ∧
    (modified = false → file' = file ∧
       ∃ e, e ∈ entries_of v ∧ is_entry (target_action target) s e = true) ∧
    append_permission_rule file' target s = Ok (false, file').
Proof.
  intros Happ Hread Hjson. pose proof (append_cases file target s) as H. rewrite Happ in H.
  destruct H as (root & arr & Hr & Ha & Hm & Hf). rewrite Hread in Hr. injection Hr as ->.
  destruct modified.
  - cbn [with_entry] in Hjson. rewrite Ha in Hjson.
    pose proof (read_settings_printed _ Hjson) as Hback. rewrite <-Hf in Hback.
    set (arr' := arr ++ [rule_entry (target_action target) s]) in *.
    assert (entries_of (VObject (obj_set key_permission_rules (VArray arr') root)) = arr') as Hen.
    { unfold entries_of. cbn [value_get]. by rewrite obj_get_set, decide_True by done. }
    exists (VObject (obj_set key_permission_rules (VArray arr') root)). split_and!; [done| | |done|].
    + intros k Hk. cbn [value_get]. rewrite obj_get_set. by rewrite decide_False.
    + by rewrite Hen, Ha.
    + unfold append_permission_rule. rewrite Hback. cbn [result_bind].
      rewrite obj_get_set, decide_True by done. cbn [default from_option id]. cbv zeta.
      assert (existsb (is_entry (target_action target) s) arr' = true) as ->; [|done].
      apply existsb_elem_of. exists (rule_entry (target_action target) s).
      split; [subst arr'; apply elem_of_app; right; left|apply is_entry_rule_entry].
  - subst file'. exists (VObject root). symmetry in Hm. apply negb_false_iff in Hm.
    split_and!; [done|done|by rewrite app_nil_r| |done].
    intros _. split; [done|]. rewrite Ha. by apply existsb_elem_of in Hm.
Qed.

Lemma target_action_of_str : action_of_str (target_action AppendAllow) = Some ActionAllow.
Proof. done. Qed.

(** "Always allow" remembers the call that was answered, and only that
    call: for a tool with a proper name and content without wildcards, the
    rule string recorded, read back from the settings as a local rule, allows
    exactly the calls of the tool (or of tools below its name) whose content
    is the one recorded, less surrounding blanks. *)
Theorem permit_always_remembers {GS : Globset} name content s :
  trimmed name → name ≠ [] → ch "(" ∉ name → has_glob content = false →
  build_rule_string name (Some content) = Some s →
  ∃ r, rules_from_settings (loaded_rules (VObject [(key_permission_rules,
         VArray [rule_entry (target_action AppendAllow) s])])) LocalSettings = [r] ∧
    behavior r = BehaviorAllow ∧ source r = LocalSettings ∧
    ∀ t c, is_Some (rule_matches t c r) ↔ matches_tool_name name t = true ∧ c = Some (trim content).
Proof.
  intros Ht Hne Hp Hg. unfold build_rule_string. case_decide as Hc; [done|]. intros Hs.
  apply (inj Some) in Hs. set (r := {| source := LocalSettings; behavior := BehaviorAllow; tool_name := name;
               rule_content := Some (trim content) |}).
  exists r. split; [|split_and!; [done..|]].
  - assert (s = format_rule_string r) as -> by (by rewrite <-Hs).
    assert (parse_rule_string (format_rule_string r) LocalSettings BehaviorAllow = Ok r) as E
      by (by apply parse_format).
    assert (loaded_rules (VObject [(key_permission_rules,
      VArray [rule_entry (target_action AppendAllow) (format_rule_string r)])]) =
      [{| tool := format_rule_string r; action := ActionAllow; tier := None |}]) as -> by done.
    unfold rules_from_settings. cbn [omap list_omap tool action behavior_of_action].
    by rewrite E.
  - intros t c. unfold rule_matches. cbn [tool_name rule_content r].
    destruct (matches_tool_name name t); cbn [negb]; [|by split; [intros [? ?]|intros [? _]]].
    assert (has_glob (trim content) = false) as Hg'.
    { apply has_glob_false. intros x Hx. apply trim_sublist in Hx.
      by apply (proj1 (has_glob_false content) Hg). }
    destruct c as [c|]; [|by split; [intros [? ?]|intros [_ ?]]].
    rewrite matches_content_literal by done. case_bool_decide as E.
    + split; [|by eauto]. intros _. by rewrite E.
    + split; [by intros [? ?]|]. intros [_ [= ->]]. done.
Qed.

(** ** Worked examples *)

(** A JSON library that knows one document. *)
Definition one_document (v : value) : SerdeJson :=
  {| from_slice := λ _, Some v; to_string_pretty := λ _, lit "{...}" |}.

Lemma append_is_conservative_witness :
  let doc := with_entry (VObject []) AppendAllow "Bash(make)" in
  append_permission_rule (SJ := one_document doc) (Some (lit "{...}")) AppendAllow "Bash(make)"
  = Ok (false, Some (lit "{...}")).
Proof.
  destruct (append_is_conservative (SJ := one_document (with_entry (VObject []) AppendAllow "Bash(make)"))
    None AppendAllow "Bash(make)" true (Some (lit "{...}")) (VObject []))
    as (v' & _ & _ & _ & _ & H); [reflexivity|reflexivity|split; reflexivity|exact H].
Defined.

Lemma permit_always_remembers_witness :
  ∃ r, behavior r = BehaviorAllow ∧
    is_Some (rule_matches (GS := no_globset) "Bash" (Some (lit "make test")) r).
Proof.
  destruct (permit_always_remembers (GS := no_globset) "Bash" " make test " "Bash(make test)")
    as (r & _ & Hb & _ & H); [by_compute|done|by_compute|reflexivity|reflexivity|].
  exists r. split; [exact Hb|]. apply H. split; reflexivity.
Defined.
