(* ===== verification/SettingsTiers.v ===== *)
(** * Loading the settings ([Settings::load_from], [merge_json_values] and the
      accessors of [crates/core/src/settings.rs];
      [core/src/interface/config_source.rs])

    Layers of JSON in order of priority, merged into one value that is read
    as [Settings].  The rules of all layers are put side by side, the paths
    come from the caller.

    What serde derives for the fields other than [permission_mode] is a
    parameter ([SettingsFields]), as is what it prints for the defaults. *)

From stdpp Require Import base option numbers sets strings list.
From S2P Require Import Prelude RustStr PermTypes Rule Path PathRule Shell RuleSet RuleLint Gate Registry Permission.
From S2P Require Import SettingsPatch.

(** ** Merging *)

(** A key that both have is merged in place, another is added; what is not an
    object replaces. *)
Fixpoint merge_json_values (base over : value) {struct over} : value :=
  match base, over with
  | VObject base_map, VObject over_map =>
      VObject (foldl (λ b '(k, v),
        obj_set k (match obj_get k b with Some existing => merge_json_values existing v | None => v end) b)
        base_map over_map)
  | _, _ => over
  end.

(** ** Layers *)

Record ConfigLayer := {
  layer_tier : Tier;
  machine_local : bool;
  origin : str;
  layer_value : value;
}.

(** [ConfigSource::layers] and the sources that hold what they give. *)
Definition ConfigSource := list ConfigLayer.

Definition with_layer (s : ConfigSource) (tier : Tier) (local : bool) (from : str) (v : value) : ConfigSource :=
  s ++ [Build_ConfigLayer tier local from v].

Definition chain (sources : list ConfigSource) : ConfigSource := concat sources.

Definition SETTINGS_FILE : str := lit "settings.json".
Definition SETTINGS_LOCAL_FILE : str := lit "settings.local.json".

Section Files.
Context {SJ : SerdeJson}.

(** [files] is [read_to_string] on what exists. *)
Definition read_settings_file (files : str → option str) (path : str) : option value :=
  files path ≫= from_slice.

Definition tier_layers (files : str → option str) (tier : Tier) (dir : str) : list ConfigLayer :=
  omap (λ '(file, local), Build_ConfigLayer tier local (path_join dir file) <$>
          read_settings_file files (path_join dir file))
    [(SETTINGS_FILE, false); (SETTINGS_LOCAL_FILE, true)].

(** A directory that is also that of a later tier is read there. *)
Fixpoint file_tiers (files : str → option str) (tiers : list (Tier * str)) : list ConfigLayer :=
  match tiers with
  | [] => []
  | (tier, dir) :: later =>
      (if existsb (λ '(_, d), path_eqb d dir) later then [] else tier_layers files tier dir) ++
      file_tiers files later
  end.

Definition FileTiers (files : str → option str) (global_dir scene_dir local_dir : str) : ConfigSource :=
  file_tiers files [(Global, global_dir); (Scene, scene_dir); (Project, local_dir)].
End Files.

(** ** The settings *)

Record PathSettings := {
  user_data_dir : str;
  global_data_dir : str;
  local_data_dir : str;
  scope : str;
}.

Definition project_root (p : PathSettings) : str := default (local_data_dir p) (parent (local_data_dir p)).

Definition local_settings_file (p : PathSettings) : str := path_join (local_data_dir p) SETTINGS_LOCAL_FILE.

Record Settings (R : Type) := {
  permission_mode : PermissionMode;
  rules : RuleSettings;
  paths : PathSettings;
  rest : R;
}.
Arguments Build_Settings {R} _ _ _ _.
Arguments permission_mode {R} _.
Arguments rules {R} _.
Arguments paths {R} _.
Arguments rest {R} _.

(** [rest_of_object] and [of_array]: the derived [Deserialize] of the other
    fields, and of all of them written as an array. *)
Class SettingsFields (R : Type) := {
  rest_of_object : list (str * value) → option R;
  of_array : list value → option (PermissionMode * R);
  default_rest : str → R;
  default_object : str → list (str * value);
}.

Definition key_permission_mode : str := lit "permission_mode".
Definition key_paths : str := lit "paths".

Definition mode_of_str (s : str) : option PermissionMode :=
  if decide (s = lit "default") then Some ModeDefault
  else if decide (s = lit "acceptEdits") then Some ModeAcceptEdits
  else if decide (s = lit "bypassPermissions") then Some ModeBypassPermissions
  else if decide (s = lit "plan") then Some ModePlan
  else if decide (s = lit "auto") then Some ModeAuto
  else if decide (s = lit "dontAsk") then Some ModeDontAsk
  else if decide (s = lit "bubble") then Some ModeBubble
  else if decide (s = lit "yolo") then Some ModeYolo
  else None.

Definition mode_of_value (v : value) : option PermissionMode :=
  match v with VString s | VObject [(s, VNull)] => mode_of_str s | _ => None end.

(** [#[serde(default)]]. *)
Definition mode_of_object (o : list (str * value)) : option PermissionMode :=
  match obj_get key_permission_mode o with None => Some ModeDefault | Some v => mode_of_value v end.

Section Load.
Context {R : Type} `{SettingsFields R}.

Definition settings_of_value (v : value) : option (PermissionMode * R) :=
  match v with
  | VObject o => m ← mode_of_object o; r ← rest_of_object o; Some (m, r)
  | VArray l => of_array l
  | _ => None
  end.

Definition obj_remove (k : str) (o : list (str * value)) : list (str * value) := filter (λ kv, kv.1 ≠ k) o.

(** What a layer says of the rules, tagged; nothing when one is not a rule. *)
Definition layer_rules (l : ConfigLayer) : list SettingsRule :=
  (λ r, {| tool := tool r; action := action r; tier := Some (layer_tier l) |}) <$> loaded_rules (layer_value l).

(** What is merged of a layer. *)
Definition layer_rest (l : ConfigLayer) : value :=
  match layer_value l with
  | VObject o => VObject (obj_remove key_permission_rules (obj_remove key_paths o))
  | v => v
  end.

Definition load_layer (acc : value * RuleSettings) (l : ConfigLayer) : value * RuleSettings :=
  let '(merged, rs) := acc in
  (merge_json_values merged (layer_rest l),
   if machine_local l
   then {| permission_rules := permission_rules rs;
           local_permission_rules := local_permission_rules rs ++ layer_rules l |}
   else {| permission_rules := permission_rules rs ++ layer_rules l;
           local_permission_rules := local_permission_rules rs |}).

Definition load_layers (default_model : str) (source : ConfigSource) : value * RuleSettings :=
  foldl load_layer (VObject (default_object default_model), {| permission_rules := []; local_permission_rules := [] |})
    source.

(** [validate] and what follows from it. *)
Definition validated (m : PermissionMode) : PermissionMode := if is_user_settable m then m else ModeDefault.

Definition load_from (source : ConfigSource) (global_dir scene_dir local_dir scope default_model : str)
    : Settings R :=
  let '(merged, rs) := load_layers default_model source in
  let '(m, r) := default (ModeDefault, default_rest default_model) (settings_of_value merged) in
  {| permission_mode := validated m; rules := rs;
     paths := {| user_data_dir := scene_dir; global_data_dir := global_dir; local_data_dir := local_dir;
                 scope := scope |};
     rest := r |}.

Definition load {SJ : SerdeJson} (files : str → option str)
    (global_dir scene_dir local_dir scope default_model : str) : Settings R :=
  load_from (FileTiers files global_dir scene_dir local_dir) global_dir scene_dir local_dir scope default_model.
End Load.

(** ** What a merge gives *)

(** Objects of [serde_json] have each key once. *)
Fixpoint unique_keys (v : value) : bool :=
  match v with
  | VObject o => bool_decide (NoDup o.*1) && forallb (λ '(_, v), unique_keys v) o
  | _ => true
  end.

Fixpoint at_path (p : list str) (v : value) : option value :=
  match p with
  | [] => Some v
  | k :: p => value_get k v ≫= at_path p
  end.

(** What a layer has to say about a path. *)
Inductive Reach :=
| Missing
| Found (v : value)
| Blocked.

Fixpoint reach (p : list str) (v : value) : Reach :=
  match p, v with
  | [], _ => Found v
  | k :: p, VObject o => match obj_get k o with Some v => reach p v | None => Missing end
  | _ :: _, _ => Blocked
  end.

Definition is_object (v : value) : bool := match v with VObject _ => true | _ => false end.

Lemma obj_get_elem k v o : obj_get k o = Some v → (k, v) ∈ o.
Proof.
  induction o as [|[k' v'] o IH]; cbn [obj_get]; [done|]. case_decide; [|by right; apply IH].
  intros [= ->]. subst. left.
Qed.

Lemma obj_get_none k (o : list (str * value)) : k ∉ o.*1 → obj_get k o = None.
Proof. induction o as [|[k' v'] o IH]; cbn; [done|]. intros H. rewrite decide_False by set_solver. set_solver. Qed.

Definition merge_entries (b o : list (str * value)) : list (str * value) :=
  foldl (λ b '(k, v),
    obj_set k (match obj_get k b with Some existing => merge_json_values existing v | None => v end) b) b o.

Lemma merge_objects b o : merge_json_values (VObject b) (VObject o) = VObject (merge_entries b o).
Proof. done. Qed.

Lemma merged_entry k b o : NoDup o.*1 →
  obj_get k (merge_entries b o) =
  match obj_get k o with
  | None => obj_get k b
  | Some v => Some (match obj_get k b with Some existing => merge_json_values existing v | None => v end)
  end.
Proof.
  unfold merge_entries. revert b. induction o as [|[k' v] o IH]; intros b; cbn [foldl obj_get]; [done|].
  cbn [fmap list_fmap fst]. intros [Hk Ho]%NoDup_cons. rewrite IH by done. rewrite !obj_get_set. cbn [fst] in Hk.
  destruct (decide (k = k')) as [->|Hne]; [|done]. by rewrite obj_get_none.
Qed.

Lemma unique_entry k o v : unique_keys (VObject o) = true → obj_get k o = Some v →
  NoDup o.*1 ∧ unique_keys v = true.
Proof.
  cbn [unique_keys]. rewrite andb_true_iff, bool_decide_eq_true, forallb_elem_of.
  intros [Hn Hf] Hk. split; [done|]. exact (Hf _ (obj_get_elem _ _ _ Hk)).
Qed.

Lemma unique_top o : unique_keys (VObject o) = true → NoDup o.*1.
Proof. cbn [unique_keys]. rewrite andb_true_iff, bool_decide_eq_true. by intros []. Qed.

(** At every path a merge has what the layer above has there, merged with
    what was there before; what was there before where the layer does not
    mention the path; and nothing where the layer has cut the path off by
    something that is not an object. *)
Theorem merge_at p base over : unique_keys over = true →
  at_path p (merge_json_values base over) =
  match reach p over with
  | Found v => Some (match at_path p base with Some b => merge_json_values b v | None => v end)
  | Missing => at_path p base
  | Blocked => None
  end.
Proof.
  revert base over. induction p as [|k p IH]; intros base over Hu; [done|].
  destruct over as [| | | | |o]; [by destruct base..|].
  assert (∀ v, obj_get k o = Some v → match reach p v with Found v' => at_path p v = Some v' | _ => at_path p v = None end)
    as Hself.
  { intros v _. clear. revert v. induction p as [|k p IH]; intros v; [done|]. cbn [reach at_path].
    destruct v as [| | | | |o]; try done. cbn [value_get]. destruct (obj_get k o); cbn; [apply IH|done]. }
  destruct base as [| | | | |b];
    try (cbn [merge_json_values reach at_path value_get]; destruct (obj_get k o) as [v|] eqn:E; cbn [mbind option_bind];
         [specialize (Hself v eq_refl); by destruct (reach p v)|done]).
  rewrite merge_objects. cbn [at_path reach value_get]. rewrite merged_entry by (by apply unique_top).
  destruct (obj_get k o) as [v|] eqn:E; [|done]. cbn [mbind option_bind].
  destruct (obj_get k b) as [e|] eqn:Eb; cbn [mbind option_bind].
  - apply IH. by eapply unique_entry.
  - specialize (Hself v eq_refl). by destruct (reach p v).
Qed.

(** ** Loading *)

Section Loaded.
Context {R : Type} `{SettingsFields R} {GS : Globset} {HE : HostEnv}.

Lemma load_layers_rules ls acc :
  (foldl load_layer acc ls).2 =
  {| permission_rules := permission_rules acc.2 ++ (filter (λ l, machine_local l = false) ls ≫= layer_rules);
     local_permission_rules := local_permission_rules acc.2 ++ (filter (λ l, machine_local l = true) ls ≫= layer_rules) |}.
Proof.
  revert acc. induction ls as [|l ls IH]; intros [v [s o]]; cbn [foldl].
  - cbn. by rewrite !app_nil_r.
  - rewrite IH. unfold load_layer. cbn [snd]. rewrite !filter_cons.
    destruct (machine_local l); cbn [snd permission_rules local_permission_rules];
      repeat case_decide; try done; cbn [mbind list_bind]; by rewrite ?app_assoc.
Qed.

Lemma loaded_rules_all (ls : ConfigSource) g s p sc dm :
  rules (load_from ls g s p sc dm) =
  {| permission_rules := filter (λ l, machine_local l = false) ls ≫= layer_rules;
     local_permission_rules := filter (λ l, machine_local l = true) ls ≫= layer_rules |}.
Proof.
  unfold load_from, load_layers. pose proof (load_layers_rules ls
    (VObject (default_object dm), {| permission_rules := []; local_permission_rules := [] |})) as E.
  destruct (foldl load_layer _ ls) as [merged rs]. cbn [snd] in E. subst rs.
  by destruct (default _ _).
Qed.

Lemma rules_of_more_layers ls ls' g s p sc dm g' s' p' sc' dm' r : ls ⊆ ls' →
  r ∈ rules_from_all_tiers (rules (load_from ls g s p sc dm)) →
  r ∈ rules_from_all_tiers (rules (load_from ls' g' s' p' sc' dm')).
Proof.
  intros Hs. rewrite !loaded_rules_all. unfold rules_from_all_tiers. cbn [permission_rules local_permission_rules].
  assert (∀ b e, e ∈ filter (λ l, machine_local l = b) ls ≫= layer_rules →
                 e ∈ filter (λ l, machine_local l = b) ls' ≫= layer_rules) as Hm.
  { intros b e. rewrite !list_elem_of_bind. intros (l & He & Hl). exists l. split; [done|].
    rewrite list_elem_of_filter in *. naive_solver. }
  rewrite !elem_of_app. intros [Hr|Hr]; [left|right].
  - rewrite list_elem_of_bind in *. naive_solver.
  - unfold rules_from_settings in *. rewrite list_elem_of_omap in *. naive_solver.
Qed.

(** What a rule set denies, a larger one denies. *)
Lemma decide_rules_deny_mono matches rs rs' : rs ⊆ rs' →
  hit_kind (decide_rules rs matches) = Some BehaviorDeny →
  hit_kind (decide_rules rs' matches) = Some BehaviorDeny.
Proof. rewrite !decide_rules_kind, !strongest_deny, !matching_behaviors. intros Hs (r & Hr & ?). exists r. auto. Qed.

Lemma evaluate_shell_deny_iff rs tool line :
  hit_kind (evaluate_shell rs tool line) = Some BehaviorDeny ↔
  seg_kind rs tool line = Some BehaviorDeny ∨
  ∃ c, c ∈ simple_commands line ∧ seg_kind rs tool c = Some BehaviorDeny.
Proof.
  destruct (decide (simple_commands line = [])) as [E|E].
  - unfold evaluate_shell. rewrite E, decide_True by done. fold (seg_kind rs tool line).
    split; [by left|]. intros [?|(c & Hc & _)]; [done|]. by apply elem_of_nil in Hc.
  - destruct (evaluate_shell_kinds rs tool line E) as [-> _]. rewrite elem_of_cons, list_elem_of_fmap. naive_solver.
Qed.

Lemma rule_hit_deny_mono rs rs' tool input ctx : rs ⊆ rs' →
  hit_kind (rule_hit rs tool input ctx) = Some BehaviorDeny →
  hit_kind (rule_hit rs' tool input ctx) = Some BehaviorDeny.
Proof.
  intros Hs. unfold rule_hit. destruct (resolved_path tool input ctx) as [[group path]|].
  - rewrite !evaluate_path_kind, !restrict_all_deny, !elem_of_cons, !list_elem_of_fmap.
    intros [Hd|(a & Hd & Ha)]; [left|right; exists a; split; [|done]]; symmetry;
      (eapply decide_rules_deny_mono; [done|by symmetry]).
  - destruct (permission_match_content tool input); [case_decide|];
      try by apply decide_rules_deny_mono.
    rewrite !evaluate_shell_deny_iff. unfold seg_kind.
    intros [Hd|(c & Hc & Hd)]; [left|right; exists c; split; [done|]]; by eapply decide_rules_deny_mono.
Qed.

(** C15. A denial outlives every further layer: what the rules of some layers deny
    is neither allowed nor asked about when layers are added, in whatever
    place and whatever they say, whether or not the settings can still be
    read, and whatever the mode. *)
Theorem denials_survive_further_layers ls ls' g s p sc dm g' s' p' sc' dm' sb sb' mode mode' ts ts' extra tool input ctx :
  let handler ls g s p sc dm sb mode ts :=
    from_settings (Permission.Build_Settings (rules (load_from ls g s p sc dm)) sb) mode ts extra in
  ls ⊆ ls' →
  rule_verdict (gate (handler ls g s p sc dm sb mode ts)) tool input ctx = Some BehaviorDeny →
  allowed (gate_check (gate (handler ls' g' s' p' sc' dm' sb' mode' ts')) tool input ctx) = false ∧
  asked (gate_check (gate (handler ls' g' s' p' sc' dm' sb' mode' ts')) tool input ctx) = false.
Proof.
  intros handler Hs Hd. apply gate_hard_deny. left. revert Hd. unfold rule_verdict.
  apply rule_hit_deny_mono. intros r. unfold handler, from_settings. cbn [gate with_sandbox perm_new gate_new gate_rules].
  change (snd (ruleset_new ?rs)) with rs. cbn [rule_settings].
  rewrite !elem_of_app. intros [Hr|Hr]; [left|by right]. by eapply rules_of_more_layers.
Qed.

(** ** The mode *)

Definition says (l : ConfigLayer) : option value := value_get key_permission_mode (layer_value l).

Lemma obj_get_remove k k' o : obj_get k (obj_remove k' o) = if decide (k = k') then None else obj_get k o.
Proof.
  unfold obj_remove. induction o as [|[x v] o IH]; [by case_decide|]. rewrite filter_cons. cbn [fst].
  destruct (decide (x ≠ k')) as [Hx|Hx]; cbn [obj_get]; rewrite IH.
  - destruct (decide (k = x)) as [->|]; [by rewrite decide_False|done].
  - apply dec_stable in Hx. subst x. by destruct (decide (k = k')).
Qed.

Lemma obj_remove_keys k (o : list (str * value)) : NoDup o.*1 → NoDup (obj_remove k o).*1.
Proof.
  unfold obj_remove. induction o as [|[x v] o IH]; [done|]. rewrite filter_cons, fmap_cons. intros [Hx Ho]%NoDup_cons.
  case_decide; [|by apply IH]. rewrite fmap_cons. apply NoDup_cons. split; [|by apply IH].
  intros (y & E & [_ Hy]%list_elem_of_filter)%list_elem_of_fmap. apply Hx, list_elem_of_fmap. eauto.
Qed.

Lemma layer_rest_mode l : unique_keys (layer_value l) = true → is_object (layer_value l) = true →
  ∃ o, layer_rest l = VObject o ∧ NoDup o.*1 ∧ obj_get key_permission_mode o = says l.
Proof.
  unfold layer_rest, says. destruct (layer_value l) as [| | | | |o]; try done. intros Hu _.
  eexists. split; [done|]. split.
  - by apply obj_remove_keys, obj_remove_keys, unique_top.
  - rewrite !obj_get_remove. rewrite !decide_False by (by compute). done.
Qed.

Lemma merged_mode ls v rs o : v = VObject o →
  Forall (λ l, unique_keys (layer_value l) = true ∧ is_object (layer_value l) = true ∧
               ∀ x, says l = Some x → is_object x = false) ls →
  ∃ o', (foldl load_layer (v, rs) ls).1 = VObject o' ∧
    obj_get key_permission_mode o' =
      match last (omap says ls) with Some x => Some x | None => obj_get key_permission_mode o end.
Proof.
  revert v rs o. induction ls as [|l ls IH]; intros v rs o -> Hf; [by exists o|].
  apply Forall_cons in Hf as [(Hu & Ho & Hx) Hf]. cbn [foldl]. unfold load_layer at 2.
  destruct (layer_rest_mode l Hu Ho) as (ol & -> & Hn & Hs). rewrite merge_objects.
  pose proof (merged_entry key_permission_mode o ol Hn) as Hm. set (om := merge_entries o ol) in *. clearbody om.
  edestruct (IH (VObject om)) as (o' & E & Hget); [done|exact Hf|]. exists o'. split; [exact E|].
  rewrite Hget, Hm, Hs. cbn [omap list_omap]. destruct (says l) as [x|] eqn:Es; [|done].
  rewrite last_cons. destruct (last (omap says ls)); [done|].
  destruct (obj_get key_permission_mode o); [|done]. specialize (Hx x eq_refl). by destruct x, v.
Qed.

(** C16. When every layer is an object that has each key once and says the mode
    with anything but an object - otherwise it fails, see
    [a_project_file_lifts_plan_mode] -: the mode of loaded settings is never
    one that only the program may set; while the merged settings can be read
    it is what the last layer says that says anything of it, and the default
    when that is such a mode; and when they cannot, it is the default,
    whatever any layer says. *)
Theorem the_last_word_on_the_mode ls g s p sc dm :
  Forall (λ l, unique_keys (layer_value l) = true ∧ is_object (layer_value l) = true ∧
               ∀ x, says l = Some x → is_object x = false) ls →
  obj_get key_permission_mode (default_object dm) = Some (VString (lit "default")) →
  let mode := permission_mode (load_from ls g s p sc dm) in
  is_user_settable mode = true ∧
  match settings_of_value (load_layers dm ls).1 with
  | None => mode = ModeDefault
  | Some _ => ∃ m, default (Some ModeDefault) (mode_of_value <$> last (omap says ls)) = Some m ∧ mode = validated m
  end.
Proof.
  intros Hf Hd mode. subst mode. unfold load_from.
  destruct (merged_mode ls (VObject (default_object dm)) {| permission_rules := []; local_permission_rules := [] |} _
    eq_refl Hf) as (o & Eo & Hm).
  fold (load_layers dm ls) in Eo. destruct (load_layers dm ls) as [merged rs]. cbn [fst] in *. subst merged.
  assert (∀ m, is_user_settable (validated m) = true) as Hv by (by intros []).
  destruct (settings_of_value (VObject o)) as [[m r]|] eqn:E; cbn [default permission_mode]; [|done].
  split; [apply Hv|]. exists m. split; [|done]. cbn [settings_of_value] in E. unfold mode_of_object in E.
  rewrite Hm in E. destruct (last (omap says ls)) as [x|]; cbn.
  - destruct (mode_of_value x) as [m'|]; [|done]. cbn in E. destruct (rest_of_object o); [|done]. by injection E as -> _.
  - rewrite Hd in E. cbn [mode_of_value] in E. assert (mode_of_str (lit "default") = Some ModeDefault) as Ed by done.
    rewrite Ed in E. cbn in E. destruct (rest_of_object o); [|done]. by injection E as <- _.
Qed.
End Loaded.

(** ** Samples *)

(** Settings with one other field, a model that must be an object. *)
#[local] Instance model_field : SettingsFields (list (str * value)) := {|
  rest_of_object := λ o, match obj_get (lit "model") o with Some (VObject m) => Some m | _ => None end;
  of_array := λ _, None;
  default_rest := λ m, [(lit "model_name", VString m)];
  default_object := λ m, [(key_permission_mode, VString (lit "default"));
                          (lit "model", VObject [(lit "model_name", VString m)])];
|}.

Definition rule_json (t a : str) : value := VObject [(lit "tool", VString t); (lit "action", VString a)].

Definition global_layer : ConfigLayer := Build_ConfigLayer Global false (lit "g")
  (VObject [(key_permission_mode, VString (lit "plan"));
            (key_permission_rules, VArray [rule_json (lit "Bash") (lit "deny")])]).

Definition project_layer (v : value) : ConfigLayer := Build_ConfigLayer Project false (lit "p") v.

Definition loaded (ls : ConfigSource) : Settings (list (str * value)) :=
  load_from ls (lit "/g") (lit "/s") (lit "/p/.atta") (lit "code") (lit "m").

Definition allow_and_break : value :=
  VObject [(lit "model", VNumber 5); (key_permission_rules, VArray [rule_json (lit "Bash") (lit "allow")])].

Lemma merge_at_witness :
  let over := VObject [(lit "model", VObject [(lit "max_tokens", VNumber 9)])] in
  at_path [lit "model"; lit "model_name"] (merge_json_values (VObject (default_object (lit "m"))) over) =
    Some (VString (lit "m")) ∧
  at_path [lit "model"; lit "max_tokens"] (merge_json_values (VObject (default_object (lit "m"))) over) =
    Some (VNumber 9) ∧
  at_path [lit "model"; lit "model_name"]
    (merge_json_values (VObject (default_object (lit "m"))) (VObject [(lit "model", VNull)])) = None.
Proof. split_and!; (rewrite merge_at; [vm_compute; reflexivity|vm_compute; reflexivity]). Defined.

Lemma denials_survive_further_layers_witness :
  allowed (gate_check (GS := no_globset) (HE := plain_host)
    (gate (from_settings (GS := no_globset)
       (Permission.Build_Settings (rules (loaded [global_layer; project_layer allow_and_break])) default_sandbox)
       ModeBypassPermissions (registry_new 1) []))
    bash_tool (command_input (lit "ls")) (context_for (example_permission [] ModeDefault) (lit "/p") (lit "s"))) = false.
Proof.
  apply (denials_survive_further_layers (GS := no_globset) (HE := plain_host) [global_layer] _
    (lit "/g") (lit "/s") (lit "/p") (lit "code") (lit "m") _ _ _ _ _ default_sandbox _ ModeDefault _ (registry_new 1)).
  - intros l Hl. apply list_elem_of_singleton in Hl as ->. left.
  - vm_compute. reflexivity.
Defined.

Lemma the_last_word_on_the_mode_witness :
  permission_mode (loaded [global_layer; project_layer (VObject [(key_permission_mode, VString (lit "yolo"))])])
  = ModeYolo.
Proof.
  destruct (the_last_word_on_the_mode
    [global_layer; project_layer (VObject [(key_permission_mode, VString (lit "yolo"))])]
    (lit "/g") (lit "/s") (lit "/p/.atta") (lit "code") (lit "m")) as [_ H].
  - repeat constructor; intros x [= <-]; done.
  - done.
  - destruct (settings_of_value _) as [|] eqn:E in H; [|vm_compute in E; discriminate E].
    destruct H as (m & Hm & Hmode). vm_compute in Hm. injection Hm as <-. exact Hmode.
Defined.

(** A project's file lifts the mode of the user's own settings: by a value
    that no longer decodes, by an array instead of an object, and by a mode
    that is then rejected. *)
Example a_project_file_lifts_plan_mode :
  permission_mode (loaded [global_layer]) = ModePlan ∧
  permission_mode (loaded [global_layer; project_layer allow_and_break]) = ModeDefault ∧
  permission_mode (loaded [global_layer; project_layer (VArray [])]) = ModeDefault ∧
  permission_mode (loaded [global_layer; project_layer (VObject [(key_permission_mode, VString (lit "auto"))])])
    = ModeDefault.
Proof. split_and!; vm_compute; reflexivity. Qed.

(** One entry that is not a rule takes the others of its file along. *)
Example one_bad_rule_drops_the_others :
  permission_rules (rules (loaded [project_layer (VObject [(key_permission_rules,
    VArray [rule_json (lit "Bash") (lit "deny"); rule_json (lit "Read") (lit "refuse")])])])) = [].
Proof. vm_compute. reflexivity. Qed.

(** A project in the home directory shares the global tier's directory. *)
Example shared_directories_are_read_once :
  origin <$> FileTiers (SJ := one_document (VObject [])) (λ _, Some (lit "{}"))
    (lit "/h/.atta") (lit "/h/.atta/scenes/x") (lit "/h/.atta/") =
  [lit "/h/.atta/scenes/x/settings.json"; lit "/h/.atta/scenes/x/settings.local.json";
   lit "/h/.atta/settings.json"; lit "/h/.atta/settings.local.json"].
Proof. vm_compute. reflexivity. Qed.
