(* ===== verification/Cron.v ===== *)
(** * Cron expressions ([crates/tools/src/cron/parser.rs])

    Matching a five-field expression against a time and validating one, with
    an abstract syntax of fields, its printer, and what a field means. *)

From stdpp Require Import base option numbers sets strings pretty list.
From S2P Require Import Prelude RustStr RuleLint.

(** The parts of [OffsetDateTime] that are read; Sunday is 0. *)
Record DateTime := {
  minute : nat;
  hour : nat;
  day : nat;
  month : nat;
  weekday : nat;
}.

Definition MONTH_NAMES : list (str * str) :=
  [(lit "JAN", lit "1"); (lit "FEB", lit "2"); (lit "MAR", lit "3"); (lit "APR", lit "4");
   (lit "MAY", lit "5"); (lit "JUN", lit "6"); (lit "JUL", lit "7"); (lit "AUG", lit "8");
   (lit "SEP", lit "9"); (lit "OCT", lit "10"); (lit "NOV", lit "11"); (lit "DEC", lit "12")].

Definition DAY_NAMES : list (str * str) :=
  [(lit "SUN", lit "0"); (lit "MON", lit "1"); (lit "TUE", lit "2"); (lit "WED", lit "3");
   (lit "THU", lit "4"); (lit "FRI", lit "5"); (lit "SAT", lit "6")].

(** [month_name_to_num] and [day_name_to_num]. *)
Definition name_to_num (names : list (str * str)) (s : str) : option nat :=
  match find_first (λ '(name, _), bool_decide (to_uppercase s = name)) names with
  | Some (_, num) => parse_u8 num
  | None => None
  end.

Definition expand_names (field : str) (names : list (str * str)) : str :=
  foldl (λ result '(name, num), replace name num result) (to_uppercase field) names.

Definition any_value (s : str) : bool := bool_decide (s = lit "*") || bool_decide (s = lit "?").

(** One item of a comma-separated list. *)
Definition value_in_item (item : str) (value default_min default_max : nat) : bool :=
  let item := trim item in
  match name_to_num MONTH_NAMES item with
  | Some num => bool_decide (value = num)
  | None =>
      match name_to_num DAY_NAMES item with
      | Some num => bool_decide (value = num)
      | None =>
          if any_value item then true
          else match split_once (ch "-") item with
          | Some (lo, hi) =>
              let lo := default default_min (parse_u8 (trim lo)) in
              let hi := default default_max (parse_u8 (trim hi)) in
              bool_decide (lo ≤ value) && bool_decide (value ≤ hi)
          | None =>
              match parse_u8 item with
              | Some v => bool_decide (value = v)
              | None => false
              end
          end
      end
  end.

Definition value_in_list (expr : str) (value default_min default_max : nat) : bool :=
  existsb (λ item, value_in_item item value default_min default_max) (split (ch ",") expr).

Definition range_start_value (expr : str) (dflt : nat) : nat :=
  let first := trim (default expr (head (split (ch ",") expr))) in
  match split_once (ch "-") first with
  | Some (lo, _) => default dflt (parse_u8 (trim lo))
  | None => default dflt (parse_u8 first)
  end.

Definition field_matches (field : str) (value default_min default_max : nat) : bool :=
  let field := trim field in
  if any_value field then true
  else
    let '(range_expr, step) :=
      match split_once (ch "/") field with
      | Some (range, step) => (trim range, default 1 (parse_u8 (trim step)))
      | None => (field, 1)
      end in
    if decide (step = 0) then false
    else if decide (step = 1) then value_in_list range_expr value default_min default_max
    else if negb (value_in_list range_expr value default_min default_max) then false
    else
      let start := range_start_value range_expr default_min in
      if decide (value < start) then false
      else bool_decide ((value - start) mod step = 0).

Definition field_matches_month (field : str) (value : nat) : bool :=
  field_matches (expand_names field MONTH_NAMES) value 1 12.

Definition field_matches_dow (field : str) (value : nat) : bool :=
  field_matches (expand_names field DAY_NAMES) value 0 7.

Definition cron_matches (expr : str) (now : DateTime) : bool :=
  match split_whitespace expr with
  | [p0; p1; p2; p3; p4] =>
      field_matches p0 (minute now) 0 59 && field_matches p1 (hour now) 0 23 &&
      field_matches p2 (day now) 1 31 && field_matches_month p3 (month now) &&
      field_matches_dow p4 (weekday now)
  | _ => false
  end.

(** ** Validation *)

Definition valid_base (base : str) : bool :=
  any_value base || bool_decide (base = []) ||
  match split_once (ch "-") base with
  | Some (lo, hi) =>
      bool_decide (is_Some (parse_u8 (trim lo))) && bool_decide (is_Some (parse_u8 (trim hi)))
  | None => bool_decide (is_Some (parse_u8 base))
  end.

Definition valid_item (item : str) : bool :=
  let item := trim item in
  match split_once (ch "/") item with
  | Some (base, step) =>
      if decide (default 0 (parse_u8 step) = 0) then false else valid_base base
  | None => valid_base item
  end.

Definition valid_field (f : str) : bool :=
  any_value f || forallb valid_item (split (ch ",") f).

Definition cron_expression_valid (expr : str) : bool :=
  match split_whitespace expr with
  | [p0; p1; p2; p3; p4] =>
      valid_field (trim p0) && valid_field (trim p1) && valid_field (trim p2) &&
      valid_field (expand_names (trim p3) MONTH_NAMES) &&
      valid_field (expand_names (trim p4) DAY_NAMES)
  | _ => false
  end.

(** ** Fields, abstractly *)

Inductive item :=
| IStar
| INum (n : nat)
| IRange (lo hi : nat).

#[export] Instance item_eq_dec : EqDecision item.
Proof. solve_decision. Defined.

(** A list of items, the first one apart, and a step for the whole field. *)
Record field := {
  first_item : item;
  more_items : list item;
  step : option nat;
}.

Definition item_ok (i : item) : Prop :=
  match i with IStar => True | INum n => n < 256 | IRange lo hi => lo < 256 ∧ hi < 256 end.

Definition field_ok (f : field) : Prop :=
  item_ok (first_item f) ∧ Forall item_ok (more_items f) ∧
  match step f with Some s => 0 < s < 256 | None => True end.

Definition print_item (i : item) : str :=
  match i with
  | IStar => lit "*"
  | INum n => dec n
  | IRange lo hi => dec lo ++ lit "-" ++ dec hi
  end.

Definition print_items (f : field) : str :=
  join (lit ",") (print_item <$> first_item f :: more_items f).

Definition print_field (f : field) : str :=
  print_items f ++ match step f with Some s => lit "/" ++ dec s | None => [] end.

Definition in_item (v : nat) (i : item) : bool :=
  match i with
  | IStar => true
  | INum n => bool_decide (v = n)
  | IRange lo hi => bool_decide (lo ≤ v) && bool_decide (v ≤ hi)
  end.

(** Where the steps are counted from. *)
Definition item_start (dflt : nat) (i : item) : nat :=
  match i with IStar => dflt | INum n => n | IRange lo _ => lo end.

Definition in_field (dflt v : nat) (f : field) : Prop :=
  existsb (in_item v) (first_item f :: more_items f) = true ∧
  match step f with
  | None => True
  | Some s => s = 1 ∨ item_start dflt (first_item f) ≤ v ∧
                      (v - item_start dflt (first_item f)) mod s = 0
  end.

(** ** The characters of a printed field *)

Definition cron_chars : list char := lit "0123456789*,-/".

Definition cron_text (s : str) : Prop := Forall (λ c, c ∈ cron_chars) s.

Lemma cron_char_plain c : c ∈ cron_chars → is_whitespace c = false ∧ char_to_uppercase c = [c].
Proof.
  revert c. apply (Forall_forall (λ c, is_whitespace c = false ∧ char_to_uppercase c = [c])).
  by_compute.
Qed.

Lemma cron_text_uppercase s : cron_text s → to_uppercase s = s.
Proof.
  induction 1 as [|c s Hc _ IH]; [done|]. cbn. rewrite (proj2 (cron_char_plain c Hc)).
  cbn. f_equal. exact IH.
Qed.

Lemma cron_text_trim s : cron_text s → trim s = s.
Proof.
  intros H. unfold cron_text in H. rewrite Forall_forall in H. apply trim_id. split; intros c Hc.
  - apply cron_char_plain, H. destruct s; simplify_eq/=. left.
  - apply cron_char_plain, H. by apply last_Some_elem_of in Hc.
Qed.

(** A table of names, none of which starts like a printed field. *)
Definition letter_names (names : list (str * str)) : Prop :=
  Forall (λ p : str * str, match head p.1 with Some c => c ∉ cron_chars | None => False end) names.

Lemma months_letters : letter_names MONTH_NAMES.
Proof. repeat (constructor; [by_compute|]). constructor. Qed.
Lemma days_letters : letter_names DAY_NAMES.
Proof. repeat (constructor; [by_compute|]). constructor. Qed.

Lemma cron_text_expand s names : cron_text s → letter_names names → expand_names s names = s.
Proof.
  intros Hs Hn. unfold expand_names. rewrite cron_text_uppercase by done.
  induction Hn as [|[name num] names Hh _ IH]; [done|]. cbn [foldl fst] in *.
  destruct (head name) as [c|] eqn:E; [|done].
  rewrite (replace_absent _ _ _ c); [exact IH|done|].
  intros Hc. apply Hh. unfold cron_text in Hs. rewrite Forall_forall in Hs. by apply Hs.
Qed.

Lemma cron_text_no_name s names : cron_text s → letter_names names → name_to_num names s = None.
Proof.
  intros Hs Hn. unfold name_to_num. rewrite cron_text_uppercase by done.
  induction Hn as [|[name num] names Hh _ IH]; [done|]. cbn [find_first fst] in *.
  rewrite bool_decide_eq_false_2; [done|]. intros ->.
  destruct name as [|c name]; [done|]. apply Hh. by apply Forall_cons in Hs as [? _].
Qed.

(** Decimal digits, up to the range of a byte. *)
Lemma dec_byte n : n < 256 →
  parse_u8 (dec n) = Some n ∧ dec n ≠ [] ∧ Forall (λ c, c ∈ lit "0123456789") (dec n).
Proof.
  intros Hn. assert (n ∈ seq 0 256) as Hin by (apply elem_of_seq; lia). revert n Hin Hn.
  assert (Forall (λ n, parse_u8 (dec n) = Some n ∧ dec n ≠ [] ∧
    Forall (λ c, c ∈ lit "0123456789") (dec n)) (seq 0 256)) as H by by_compute.
  rewrite Forall_forall in H. intros n Hin _. by apply H.
Qed.

Lemma digit_facts c : c ∈ lit "0123456789" →
  c ∈ cron_chars ∧ c ≠ ch "," ∧ c ≠ ch "/" ∧ c ≠ ch "-" ∧ c ≠ ch "*".
Proof.
  revert c. apply (Forall_forall (λ c, c ∈ cron_chars ∧ c ≠ ch "," ∧ c ≠ ch "/" ∧
    c ≠ ch "-" ∧ c ≠ ch "*")). by_compute.
Qed.

Lemma dec_text n : n < 256 → cron_text (dec n).
Proof.
  intros (_ & _ & H)%dec_byte. eapply Forall_impl; [exact H|]. intros c Hc.
  by apply digit_facts in Hc as [? _].
Qed.

Lemma dec_no n c : n < 256 → c = ch "," ∨ c = ch "/" ∨ c = ch "-" → c ∉ dec n.
Proof.
  intros (_ & _ & H)%dec_byte Hc Hin. rewrite Forall_forall in H. apply H, digit_facts in Hin.
  intuition congruence.
Qed.

Lemma print_item_text i : item_ok i →
  cron_text (print_item i) ∧ (ch "," ∉ print_item i) ∧ (ch "/" ∉ print_item i) ∧ print_item i ≠ [].
Proof.
  destruct i as [|n|lo hi]; cbn [item_ok print_item].
  - intros _. by_compute.
  - intros Hn. split_and!; [by apply dec_text|apply dec_no; auto|apply dec_no; auto|].
    by apply dec_byte.
  - intros [Hl Hh]. unfold cron_text. rewrite !Forall_app, !not_elem_of_app.
    split; [split; [by apply dec_text|split; [by_compute|by apply dec_text]]|].
    split; [split; [apply dec_no; auto|split; [by_compute|apply dec_no; auto]]|].
    split; [split; [apply dec_no; auto|split; [by_compute|apply dec_no; auto]]|].
    destruct (dec_byte lo Hl) as (_ & Hne & _). by destruct (dec lo).
Qed.

Lemma print_item_not_any i : item_ok i → i ≠ IStar → head (print_item i) ≠ Some (ch "*").
Proof.
  assert (∀ n t, n < 256 → head (dec n ++ t) ≠ Some (ch "*")) as H.
  { intros n t (_ & Hne & Hd)%dec_byte. destruct (dec n) as [|c s]; [done|].
    apply Forall_cons in Hd as [Hc _]. apply digit_facts in Hc. cbn. intros [= ->]. tauto. }
  destruct i as [|n|lo hi]; [done| |]; cbn [item_ok print_item]; intros Hok _.
  - rewrite <-(app_nil_r (dec n)). by apply H.
  - apply H. tauto.
Qed.

Lemma any_value_spec s : any_value s = true ↔ s = lit "*" ∨ s = lit "?".
Proof. unfold any_value. by rewrite orb_true_iff, !bool_decide_eq_true. Qed.

Lemma print_item_any i : item_ok i → i ≠ IStar → any_value (print_item i) = false.
Proof.
  intros Hok Hi. apply not_true_iff_false. rewrite any_value_spec. intros [E|E].
  - apply (print_item_not_any i Hok Hi). by rewrite E.
  - destruct (print_item_text i Hok) as [Ht _]. rewrite E in Ht.
    apply Forall_cons in Ht as [Hc _]. revert Hc. by_compute.
Qed.

(** ** Reading a printed field back *)

Lemma value_in_item_print i v dmin dmax : item_ok i →
  value_in_item (print_item i) v dmin dmax = in_item v i.
Proof.
  intros Hok. destruct (print_item_text i Hok) as (Ht & _). unfold value_in_item.
  rewrite cron_text_trim by done.
  rewrite !cron_text_no_name by auto using months_letters, days_letters.
  destruct (decide (i = IStar)) as [->|Hi]; [done|].
  rewrite print_item_any by done. destruct i as [|n|lo hi]; [done| |]; cbn [print_item item_ok] in *.
  - rewrite (proj2 (split_once_None _ _)) by (apply dec_no; auto).
    by rewrite (proj1 (dec_byte n Hok)).
  - destruct Hok as [Hl Hh].
    assert (split_once (ch "-") (dec lo ++ lit "-" ++ dec hi) = Some (dec lo, dec hi)) as ->.
    { apply split_once_Some. split; [done|apply dec_no; auto]. }
    rewrite !cron_text_trim by (by apply dec_text).
    by rewrite (proj1 (dec_byte lo Hl)), (proj1 (dec_byte hi Hh)).
Qed.

Lemma split_join_back c ps : ps ≠ [] → Forall (λ p, c ∉ p) ps → split c (join [c] ps) = ps.
Proof.
  intros Hne H. induction H as [|p ps Hp H IH]; [done|]. destruct ps as [|q ps].
  - by apply split_no_sep.
  - rewrite join_cons2. cbn [app]. rewrite split_app by done. f_equal. by apply IH.
Qed.

Lemma split_print_items f : field_ok f →
  split (ch ",") (print_items f) = print_item <$> first_item f :: more_items f.
Proof.
  intros (H1 & H2 & _). apply split_join_back; [done|].
  apply Forall_fmap. apply Forall_forall. intros i Hi.
  assert (item_ok i) as Hok.
  { apply elem_of_cons in Hi as [->|Hi]; [done|]. rewrite Forall_forall in H2. by apply H2. }
  by apply print_item_text in Hok as (_ & ? & _).
Qed.

Lemma join_text sep ps (P : char → Prop) :
  Forall P sep → Forall (Forall P) ps → Forall P (join sep ps).
Proof.
  intros Hs. induction 1 as [|p ps Hp H IH]; [constructor|]. destruct ps as [|q ps]; [done|].
  rewrite join_cons2, !Forall_app. done.
Qed.

Lemma field_items_ok f i : field_ok f → i ∈ first_item f :: more_items f → item_ok i.
Proof.
  intros (H1 & H2 & _) [->|Hi]%elem_of_cons; [done|]. rewrite Forall_forall in H2. by apply H2.
Qed.

Lemma print_items_text f : field_ok f →
  cron_text (print_items f) ∧ (ch "/" ∉ print_items f).
Proof.
  intros Hf. assert (Forall (λ c, c ∈ cron_chars ∧ c ≠ ch "/") (print_items f)) as H.
  { apply join_text; [by_compute|]. apply Forall_fmap, Forall_forall. intros i Hi.
    pose proof (field_items_ok _ _ Hf Hi) as Hok.
    change (Forall (λ c, c ∈ cron_chars ∧ c ≠ ch "/") (print_item i)).
    destruct (print_item_text i Hok) as (Ht & _ & Hs & _).
    apply Forall_forall. intros c Hc. unfold cron_text in Ht. rewrite Forall_forall in Ht.
    split; [by apply Ht|]. by intros ->. }
  split.
  - eapply Forall_impl; [exact H|]. by intros c [? _].
  - rewrite Forall_forall in H. intros Hin. by apply H in Hin as [_ ?].
Qed.

Lemma value_in_list_print f v dmin dmax : field_ok f →
  value_in_list (print_items f) v dmin dmax = existsb (in_item v) (first_item f :: more_items f).
Proof.
  intros Hf. unfold value_in_list. rewrite split_print_items by done.
  assert (∀ l, (∀ i, i ∈ l → item_ok i) →
    existsb (λ item, value_in_item item v dmin dmax) (print_item <$> l) = existsb (in_item v) l) as H.
  { induction l as [|i l IH]; intros Hl; [done|]. cbn.
    rewrite value_in_item_print by (apply Hl; left). f_equal. apply IH. intros j ?. apply Hl. by right. }
  apply H. intros i. by apply field_items_ok.
Qed.

Lemma range_start_print f dflt : field_ok f →
  range_start_value (print_items f) dflt = item_start dflt (first_item f).
Proof.
  intros Hf. unfold range_start_value. rewrite split_print_items by done. cbn [fmap list_fmap head default from_option].
  destruct Hf as (Hok & _). destruct (print_item_text _ Hok) as (Ht & _). unfold id.
  rewrite cron_text_trim by done.
  destruct (first_item f) as [|n|lo hi]; cbn [print_item item_ok item_start] in *.
  - by vm_compute.
  - rewrite (proj2 (split_once_None _ _)) by (apply dec_no; auto).
    by rewrite (proj1 (dec_byte n Hok)).
  - destruct Hok as [Hl Hh].
    assert (split_once (ch "-") (dec lo ++ lit "-" ++ dec hi) = Some (dec lo, dec hi)) as ->.
    { apply split_once_Some. split; [done|apply dec_no; auto]. }
    rewrite cron_text_trim by (by apply dec_text). by rewrite (proj1 (dec_byte lo Hl)).
Qed.

Lemma print_field_text f : field_ok f → cron_text (print_field f) ∧ print_field f ≠ [].
Proof.
  intros Hf. destruct (print_items_text f Hf) as [Ht _]. unfold print_field. split.
  - unfold cron_text in *. apply Forall_app. split; [done|].
    destruct Hf as (_ & _ & Hs). destruct (step f) as [s|]; [|constructor].
    apply Forall_app. split; [by_compute|]. apply dec_text. lia.
  - assert (print_items f ≠ []) as Hne; [|by destruct (print_items f)].
    intros E. pose proof (split_print_items f Hf) as H. rewrite E in H. cbn in H.
    destruct (print_item_text _ (field_items_ok f (first_item f) Hf ltac:(left))) as (_ & _ & _ & Hi).
    injection H as H _. by destruct (print_item (first_item f)).
Qed.

Lemma print_field_any f v dmin : field_ok f → any_value (print_field f) = true → in_field dmin v f.
Proof.
  intros Hf Ha. apply any_value_spec in Ha.
  assert (item_ok (first_item f)) as Hok by apply Hf.
  assert (print_field f = lit "*") as E.
  { destruct Ha as [?|E]; [done|]. destruct (print_field_text f Hf) as [Ht _].
    rewrite E in Ht. apply Forall_cons in Ht as [Hc _]. revert Hc. by_compute. }
  assert (step f = None) as Hs.
  { unfold print_field in E. destruct (step f) as [s|]; [|done]. exfalso.
    assert (ch "/" ∈ lit "*") as H; [|revert H; by_compute]. rewrite <-E, !elem_of_app. right. left. left. }
  assert (first_item f = IStar) as Hi.
  { apply dec_stable. intros Hi. apply (print_item_not_any _ Hok Hi).
    destruct (print_item_text _ Hok) as (_ & _ & _ & Hne).
    assert (head (print_items f) = head (print_item (first_item f))) as Hh.
    { unfold print_items. cbn [fmap list_fmap]. destruct (more_items f) as [|j l]; [done|].
      cbn [fmap list_fmap]. rewrite join_cons2. by destruct (print_item (first_item f)). }
    rewrite <-Hh. unfold print_field in E. rewrite Hs, app_nil_r in E. by rewrite E. }
  unfold in_field. rewrite Hi, Hs. done.
Qed.

Lemma field_matches_print f v dmin dmax : field_ok f →
  field_matches (print_field f) v dmin dmax = true ↔ in_field dmin v f.
Proof.
  intros Hf. destruct (print_field_text f Hf) as [Ht _]. unfold field_matches.
  rewrite cron_text_trim by done. destruct (any_value (print_field f)) eqn:Ea.
  { split; [|done]. intros _. by apply print_field_any. }
  destruct (print_items_text f Hf) as [Hti Hsl].
  pose proof (value_in_list_print f v dmin dmax Hf) as Hv.
  pose proof (range_start_print f dmin Hf) as Hr.
  destruct Hf as (_ & _ & Hs). unfold in_field, print_field. destruct (step f) as [s|].
  - assert (split_once (ch "/") (print_items f ++ lit "/" ++ dec s) = Some (print_items f, dec s)) as ->.
    { by apply split_once_Some. }
    rewrite !cron_text_trim by (done || (apply dec_text; lia)).
    rewrite (proj1 (dec_byte s ltac:(lia))). cbn [default from_option]. unfold id.
    rewrite decide_False by lia. rewrite Hv, Hr.
    case_decide as E; [by split; [split; [done|by left]|intros [? _]]|].
    destruct (existsb _ _); cbn [negb]; [|by split; [|intros []]].
    case_decide as Hlt.
    + split; [done|]. intros [_ [?|[? _]]]; lia.
    + rewrite bool_decide_eq_true. split; [intros ?; split; [done|right; split; [lia|done]]|].
      intros [_ [?|[_ ?]]]; [done|done].
  - rewrite app_nil_r, (proj2 (split_once_None _ _)) by done.
    rewrite decide_False by done. rewrite decide_True by done. rewrite Hv.
    split; [by split|by intros []].
Qed.

(** ** Validation accepts what is printed *)

Lemma valid_base_item i : item_ok i → valid_base (print_item i) = true.
Proof.
  intros Hok. unfold valid_base. destruct (decide (i = IStar)) as [->|Hi]; [done|].
  rewrite print_item_any by done. destruct (print_item_text i Hok) as (_ & _ & _ & Hne).
  rewrite bool_decide_eq_false_2 by done. cbn [orb].
  destruct i as [|n|lo hi]; [done| |]; cbn [print_item item_ok] in *.
  - rewrite (proj2 (split_once_None _ _)) by (apply dec_no; auto).
    by rewrite (proj1 (dec_byte n Hok)), bool_decide_eq_true_2 by eauto.
  - destruct Hok as [Hl Hh].
    assert (split_once (ch "-") (dec lo ++ lit "-" ++ dec hi) = Some (dec lo, dec hi)) as ->.
    { apply split_once_Some. split; [done|apply dec_no; auto]. }
    rewrite !cron_text_trim by (by apply dec_text).
    by rewrite (proj1 (dec_byte lo Hl)), (proj1 (dec_byte hi Hh)), !bool_decide_eq_true_2 by eauto.
Qed.

Lemma valid_item_plain i : item_ok i → valid_item (print_item i) = true.
Proof.
  intros Hok. destruct (print_item_text i Hok) as (Ht & _ & Hs & _). unfold valid_item.
  rewrite cron_text_trim by done. rewrite (proj2 (split_once_None _ _)) by done.
  by apply valid_base_item.
Qed.

Lemma valid_item_step i s : item_ok i → 0 < s < 256 →
  valid_item (print_item i ++ lit "/" ++ dec s) = true.
Proof.
  intros Hok Hs. destruct (print_item_text i Hok) as (Ht & _ & Hsl & _). unfold valid_item.
  rewrite cron_text_trim.
  2:{ unfold cron_text in *. rewrite !Forall_app. split_and!; [done|by_compute|apply dec_text; lia]. }
  assert (split_once (ch "/") (print_item i ++ lit "/" ++ dec s) = Some (print_item i, dec s)) as ->
    by (by apply split_once_Some).
  rewrite (proj1 (dec_byte s ltac:(lia))). cbn [default from_option]. unfold id.
  rewrite decide_False by lia. by apply valid_base_item.
Qed.

Lemma join_snoc_app sep ps p t : join sep (ps ++ [p]) ++ t = join sep (ps ++ [p ++ t]).
Proof.
  induction ps as [|q ps IH]; [done|]. cbn [app].
  destruct (ps ++ [p]) as [|x xs] eqn:E; [by apply app_eq_nil in E as [_ ?]|].
  destruct (ps ++ [p ++ t]) as [|y ys] eqn:E'; [by apply app_eq_nil in E' as [_ ?]|].
  rewrite !join_cons2, <-!app_assoc. by rewrite IH.
Qed.

Lemma valid_field_print f : field_ok f → valid_field (print_field f) = true.
Proof.
  intros Hf. unfold valid_field. apply orb_true_iff. right. apply forallb_elem_of.
  intros x Hx. unfold print_field, print_items in Hx.
  pose proof (λ i, field_items_ok f i Hf) as Hok. destruct Hf as (_ & _ & Hs).
  set (l := first_item f :: more_items f) in *.
  destruct (step f) as [s|].
  - assert (∃ l' i, l = l' ++ [i]) as (l' & i & El).
    { destruct l as [|i l' _] eqn:E using rev_ind; [done|]. eauto. }
    rewrite El, fmap_app in Hx. cbn [fmap list_fmap] in Hx. rewrite join_snoc_app in Hx.
    assert (∀ j, j ∈ l' → item_ok j) as Hl by (intros j ?; apply Hok; rewrite El; set_solver).
    assert (item_ok i) as Hi by (apply Hok; rewrite El; set_solver).
    rewrite split_join_back in Hx.
    + apply elem_of_app in Hx as [(j & -> & Hj)%list_elem_of_fmap|Hx].
      * by apply valid_item_plain, Hl.
      * apply list_elem_of_singleton in Hx as ->. by apply valid_item_step.
    + by destruct l'.
    + apply Forall_app. split.
      * apply Forall_fmap, Forall_forall. intros j Hj. by apply (print_item_text j), Hl.
      * apply Forall_singleton. rewrite !not_elem_of_app. split_and!.
        -- by apply (print_item_text i).
        -- by_compute.
        -- apply dec_no; [lia|auto].
  - rewrite app_nil_r, split_join_back in Hx.
    + apply list_elem_of_fmap in Hx as (j & -> & Hj). by apply valid_item_plain, Hok.
    + done.
    + apply Forall_fmap, Forall_forall. intros j Hj. by apply (print_item_text j), Hok.
Qed.

(** The meaning of a cron expression: for five fields of stars, numbers
    and ranges of bytes, listed and optionally stepped, the printed expression
    is valid, and it matches a time exactly when every field holds its part:
    some item of the list contains the value and, with a step above one, the
    value lies a multiple of the step after the first item's start. *)
Theorem cron_matches_spec f0 f1 f2 f3 f4 now :
  field_ok f0 → field_ok f1 → field_ok f2 → field_ok f3 → field_ok f4 →
  let expr := join [32%N] [print_field f0; print_field f1; print_field f2;
                           print_field f3; print_field f4] in
  cron_expression_valid expr = true ∧
  (cron_matches expr now = true ↔
     in_field 0 (minute now) f0 ∧ in_field 0 (hour now) f1 ∧ in_field 1 (day now) f2 ∧
     in_field 1 (month now) f3 ∧ in_field 0 (weekday now) f4).
Proof.
  intros H0 H1 H2 H3 H4 expr.
  assert (split_whitespace expr = [print_field f0; print_field f1; print_field f2;
    print_field f3; print_field f4]) as E.
  { apply split_whitespace_join.
    assert (∀ f, field_ok f → print_field f ≠ [] ∧ Forall (λ c, is_whitespace c = false) (print_field f)) as Hw.
    { intros f Hf. destruct (print_field_text f Hf) as [Ht Hne]. split; [done|].
      eapply Forall_impl; [exact Ht|]. intros c Hc. by apply cron_char_plain. }
    repeat (constructor; [by apply Hw|]). constructor. }
  unfold cron_expression_valid, cron_matches. rewrite E.
  assert (∀ f, field_ok f → trim (print_field f) = print_field f) as Htrim.
  { intros f Hf. by apply cron_text_trim, print_field_text. }
  assert (∀ f names, field_ok f → letter_names names → expand_names (print_field f) names = print_field f) as Hexp.
  { intros f names Hf Hn. by apply cron_text_expand; [apply print_field_text|]. }
  unfold field_matches_month, field_matches_dow.
  rewrite !Htrim, !Hexp by auto using months_letters, days_letters. split.
  - by rewrite !valid_field_print by done.
  - rewrite !andb_true_iff, !field_matches_print by done. tauto.
Qed.

Definition every_quarter : field := {| first_item := IStar; more_items := []; step := Some 15 |}.
Definition any_field : field := {| first_item := IStar; more_items := []; step := None |}.
Definition office_hours : field := {| first_item := IRange 9 17; more_items := []; step := None |}.
Definition working_days : field := {| first_item := IRange 1 5; more_items := []; step := None |}.

Lemma cron_matches_spec_witness :
  cron_matches "*/15 9-17 * * 1-5"
    {| minute := 30; hour := 9; day := 1; month := 2; weekday := 3 |} = true.
Proof.
  change (lit "*/15 9-17 * * 1-5") with (join [32%N] [print_field every_quarter;
    print_field office_hours; print_field any_field; print_field any_field; print_field working_days]).
  apply cron_matches_spec; [..|repeat split; cbn; auto; right; by_compute];
    repeat split; cbn; try lia; constructor.
Defined.

(** ** Names *)

(** Every range of named days, and of named months, in any mix of cases. *)
Definition name_ranges_ok (names : list (str * str)) (base : nat)
    (matches : str → nat → bool) : bool :=
  forallb (λ i, forallb (λ j, forallb (λ v,
    match names !! i, names !! j with
    | Some (a, _), Some (b, _) =>
        bool_decide (matches (to_lowercase a ++ lit "-" ++ b) (base + v) =
                     bool_decide (i ≤ v) && bool_decide (v ≤ j)) &&
        bool_decide (matches (to_lowercase a) (base + v) = bool_decide (v = i))
    | _, _ => true
    end) (seq 0 (length names))) (seq 0 (length names))) (seq 0 (length names)).

Lemma name_ranges names base matches i j v a b x y :
  name_ranges_ok names base matches = true →
  names !! i = Some (a, x) → names !! j = Some (b, y) → v < length names →
  matches (to_lowercase a ++ lit "-" ++ b) (base + v) = bool_decide (i ≤ v) && bool_decide (v ≤ j) ∧
  matches (to_lowercase a) (base + v) = bool_decide (v = i).
Proof.
  intros H Hi Hj Hv. unfold name_ranges_ok in H.
  assert (∀ k, k < length names → k ∈ seq 0 (length names)) as Hs
    by (intros k Hk; apply elem_of_seq; lia).
  rewrite forallb_elem_of in H. specialize (H i (Hs i (lookup_lt_Some _ _ _ Hi))).
  rewrite forallb_elem_of in H. specialize (H j (Hs j (lookup_lt_Some _ _ _ Hj))).
  rewrite forallb_elem_of in H. specialize (H v (Hs v Hv)).
  rewrite Hi, Hj in H. apply andb_true_iff in H as [H1 H2].
  by apply bool_decide_eq_true in H1, H2.
Qed.

(** Names stand for their numbers: a three-letter day or month matches
    exactly its own value and a range of two of them exactly the values
    between, lower case or upper. *)
Theorem cron_names i j v a b x y :
  (DAY_NAMES !! i = Some (a, x) → DAY_NAMES !! j = Some (b, y) → v < 7 →
   field_matches_dow (to_lowercase a ++ lit "-" ++ b) v = bool_decide (i ≤ v) && bool_decide (v ≤ j) ∧
   field_matches_dow (to_lowercase a) v = bool_decide (v = i)) ∧
  (MONTH_NAMES !! i = Some (a, x) → MONTH_NAMES !! j = Some (b, y) → v < 12 →
   field_matches_month (to_lowercase a ++ lit "-" ++ b) (1 + v) = bool_decide (i ≤ v) && bool_decide (v ≤ j) ∧
   field_matches_month (to_lowercase a) (1 + v) = bool_decide (v = i)).
Proof.
  split; intros Hi Hj Hv.
  - apply (name_ranges DAY_NAMES 0 field_matches_dow i j v a b x y); [|exact Hi|exact Hj|exact Hv].
    vm_compute. reflexivity.
  - apply (name_ranges MONTH_NAMES 1 field_matches_month i j v a b x y); [|exact Hi|exact Hj|exact Hv].
    vm_compute. reflexivity.
Qed.

Lemma cron_names_witness : field_matches_dow "mon-FRI" 3 = true.
Proof.
  assert (3 < 7) as Hv by lia.
  exact (proj1 (proj1 (cron_names 1 5 3 (lit "MON") (lit "FRI") (lit "1") (lit "5")) eq_refl eq_refl Hv)).
Defined.

(** Sunday is 0 on both sides, so a 7 is accepted and never matches. *)
Example sunday_as_seven_never_matches now : weekday now < 7 →
  cron_expression_valid "0 0 * * 7" = true ∧ cron_matches "0 0 * * 7" now = false.
Proof.
  intros Hw. split; [by vm_compute|]. destruct now as [m h d mo w]. cbn [weekday] in Hw.
  unfold cron_matches. assert (split_whitespace "0 0 * * 7" =
    [lit "0"; lit "0"; lit "*"; lit "*"; lit "7"]) as -> by by_compute.
  cbn [weekday]. assert (field_matches_dow "7" w = false) as ->; [|by rewrite andb_false_r].
  do 7 (destruct w as [|w]; [by vm_compute|]). lia.
Qed.

(** A step before a comma takes the rest of the list for its number, which
    does not parse, and the field matches every value. *)
Example step_in_a_list_matches_always :
  cron_expression_valid "*/15,7 * * * *" = true ∧
  forallb (λ m, cron_matches "*/15,7 * * * *"
    {| minute := m; hour := 0; day := 1; month := 1; weekday := 0 |}) (seq 0 60) = true.
Proof. by split; vm_compute. Qed.
