(* ===== verification/Policies.v ===== *)
(** * The turn's policies ([crates/core/src/interface])

    What a turn may spend ([budget_policy.rs]), how long it may run
    ([turn_policy.rs]), what it does when a model call goes wrong
    ([recovery_policy.rs]), and the health report ([health.rs]).  Each trait
    is a record of its methods, so that a policy made of policies is a
    function on such records.  Token counts are 64-bit: additions saturate
    where the code saturates and the one product wraps, as a release build
    does. *)

From stdpp Require Import base option numbers sets strings pretty list.
From S2P Require Import Prelude RustStr PermTypes Float RuleLint.

(** ** [turn_policy.rs] *)

Record TurnProgress := {
  api_calls : Z;
  tool_calls : Z;
  structured_output_calls : Z;
  stop_reason : str;
}.

Inductive TurnStep := Continue | Stop (reason : str).

Definition is_stop (s : TurnStep) : bool := match s with Stop _ => true | Continue => false end.

(** The trait, its default methods answering [Continue]. *)
Record TurnPolicy := {
  before_model_call : TurnProgress → TurnStep;
  after_model_call : TurnProgress → TurnStep;
}.

Record LimitsPolicy := {
  max_api_calls : Z;
  max_structured_output_retries : Z;
}.

Definition limits_new (settings_max_api_calls scene_max_api_calls max_retries : Z) : LimitsPolicy :=
  {| max_api_calls := settings_max_api_calls `min` scene_max_api_calls;
     max_structured_output_retries := max_retries |}.

Definition limits_policy (l : LimitsPolicy) : TurnPolicy :=
  {| before_model_call := λ p,
       if bool_decide (max_api_calls l ≤ api_calls p)%Z then Stop "max_turns" else Continue;
     after_model_call := λ p,
       if bool_decide (max_structured_output_retries l ≤ structured_output_calls p)%Z
       then Stop "max_structured_output_retries" else Continue |}.

(** The loop of [FirstOf]: the first policy that stops. *)
Fixpoint first_stop (steps : list TurnStep) : TurnStep :=
  match steps with
  | [] => Continue
  | s :: steps => if is_stop s then s else first_stop steps
  end.

Definition first_of (ps : list TurnPolicy) : TurnPolicy :=
  {| before_model_call := λ p, first_stop ((λ q, before_model_call q p) <$> ps);
     after_model_call := λ p, first_stop ((λ q, after_model_call q p) <$> ps) |}.

Lemma first_stop_spec steps r : first_stop steps = Stop r ↔
  ∃ before after, steps = before ++ Stop r :: after ∧ Forall (λ s, s = Continue) before.
Proof.
  induction steps as [|s steps IH]; cbn [first_stop].
  - split; [done|]. intros ([] & ? & ? & _); done.
  - destruct s as [|r']; cbn [is_stop].
    + rewrite IH. split.
      * intros (l & l' & -> & H). exists (Continue :: l), l'. split; [done|by constructor].
      * intros ([|s l] & l' & E & H); [done|]. injection E as <- ->. apply Forall_cons in H as [_ H].
        by exists l, l'.
    + split.
      * intros [= ->]. by exists [], steps.
      * intros ([|s l] & l' & E & H); [by injection E as ->|].
        injection E as <- _. by apply Forall_cons in H as [? _].
Qed.

Lemma first_stop_continue steps : first_stop steps = Continue ↔ Forall (λ s, s = Continue) steps.
Proof.
  induction steps as [|s steps IH]; cbn [first_stop]; [by split; [constructor|]|].
  rewrite Forall_cons, <-IH. destruct s; cbn [is_stop]; [tauto|]. split; [done|by intros []].
Qed.

(** Limits compose: a turn under several policies ends exactly when one of
    them says so, for the reason of the first that does, at both points it is
    asked; nesting lists of policies changes nothing; and the engine's own
    policy stops the call that would reach the lower of its two ceilings. *)
Theorem first_of_stops ps qs p settings scene retries :
  (∀ r, before_model_call (first_of ps) p = Stop r ↔
     ∃ l q l', ps = l ++ q :: l' ∧ before_model_call q p = Stop r ∧
               Forall (λ q, before_model_call q p = Continue) l) ∧
  (∀ r, after_model_call (first_of ps) p = Stop r ↔
     ∃ l q l', ps = l ++ q :: l' ∧ after_model_call q p = Stop r ∧
               Forall (λ q, after_model_call q p = Continue) l) ∧
  before_model_call (first_of [first_of ps; first_of qs]) p = before_model_call (first_of (ps ++ qs)) p ∧
  (before_model_call (limits_policy (limits_new settings scene retries)) p = Continue ↔
     (api_calls p < settings ∧ api_calls p < scene)%Z).
Proof.
  assert (∀ (f : TurnPolicy → TurnStep) r, first_stop (f <$> ps) = Stop r ↔
    ∃ l q l', ps = l ++ q :: l' ∧ f q = Stop r ∧ Forall (λ q, f q = Continue) l) as H.
  { intros f r. rewrite first_stop_spec. split.
    - intros (b & a & E & Hb). apply fmap_app_inv in E as (l & l'' & -> & E & ->).
      symmetry in E. apply fmap_cons_inv in E as (q & l' & Hq & -> & ->).
      exists l, q, l'. apply Forall_fmap in Hb. done.
    - intros (l & q & l' & -> & Hq & Hl). exists (f <$> l), (f <$> l').
      rewrite fmap_app. cbn. rewrite Hq. split; [done|]. by apply Forall_fmap. }
  split_and!; [intros r; apply H|intros r; apply H| |].
  - cbn. rewrite fmap_app. generalize ((λ q, before_model_call q p) <$> ps) as xs.
    generalize ((λ q, before_model_call q p) <$> qs) as ys. intros ys xs.
    induction xs as [|x xs IH]; cbn; [by destruct (first_stop ys)|]. by destruct x.
  - cbn. case_bool_decide; (split; [try done; lia|]); [lia|done].
Qed.

(** ** [recovery_policy.rs] *)

Inductive ModelFailure :=
| Overloaded
| ContextTooLong (message : str)
| OtherFailure (message : str).

Inductive Recovery :=
| RecoveryFail
| RetryWith (model : str)
| CompactAndRetry.

Inductive StopRecovery :=
| Accept
| RaiseOutputLimit (max_tokens : Z) (nudge : option str).

Record RecoveryAttempt := {
  output_limit_escalations : Z;
  current_max_tokens : Z;
}.

Record RecoveryPolicy := {
  on_failure : ModelFailure → Recovery;
  on_early_stop : str → RecoveryAttempt → StopRecovery;
}.

Record DefaultRecovery := {
  fallback_model : option str;
  max_output_escalations : Z;
}.

Definition FIRST_ESCALATION : Z := 64000.
Definition LATER_ESCALATION : Z := 8000.
Definition NUDGE : str :=
  "Output token limit hit. Resume directly — no apology, no recap of what you were doing. Pick up mid-thought if that is where the cut happened. Break remaining work into smaller pieces.".

Definition default_recovery_new (fallback : option str) : DefaultRecovery :=
  {| fallback_model := fallback; max_output_escalations := 3 |}.

Definition default_on_failure (d : DefaultRecovery) (failure : ModelFailure) : Recovery :=
  match failure with
  | Overloaded =>
      match fallback_model d with Some model => RetryWith model | None => RecoveryFail end
  | ContextTooLong _ => CompactAndRetry
  | OtherFailure _ => RecoveryFail
  end.

Definition default_on_early_stop (d : DefaultRecovery) (reason : str) (attempt : RecoveryAttempt)
    : StopRecovery :=
  if negb (bool_decide (reason = lit "max_tokens"))
     || bool_decide (max_output_escalations d ≤ output_limit_escalations attempt)%Z
  then Accept
  else if bool_decide (output_limit_escalations attempt = 0)%Z
          && bool_decide (current_max_tokens attempt < FIRST_ESCALATION)%Z
  then RaiseOutputLimit FIRST_ESCALATION None
  else RaiseOutputLimit (current_max_tokens attempt `max` LATER_ESCALATION) (Some NUDGE).

Definition default_recovery (d : DefaultRecovery) : RecoveryPolicy :=
  {| on_failure := default_on_failure d; on_early_stop := default_on_early_stop d |}.

Definition never_recover : RecoveryPolicy :=
  {| on_failure := λ _, RecoveryFail; on_early_stop := λ _ _, Accept |}.

(** [handle_max_tokens_recovery] ([runtime/src/turn.rs]): the state of the
    next round and the message pushed, or [None] to accept the response. *)
Definition handle_max_tokens_recovery (p : RecoveryPolicy) (stop_reason : str)
    (a : RecoveryAttempt) : option (RecoveryAttempt * option str) :=
  match on_early_stop p stop_reason a with
  | RaiseOutputLimit m nudge =>
      Some ({| output_limit_escalations := output_limit_escalations a + 1;
               current_max_tokens := m |}, nudge)
  | Accept => None
  end.

(** The escalations of one turn. *)
Inductive escalates (p : RecoveryPolicy) : RecoveryAttempt → RecoveryAttempt → Prop :=
| escalates_refl a : escalates p a a
| escalates_step a reason a' nudge b :
    handle_max_tokens_recovery p reason a = Some (a', nudge) →
    escalates p a' b → escalates p a b.

(** Output-limit recovery ends and never shrinks the limit: from a fresh
    turn at any limit, the default policy raises at most
    [max_output_escalations] times, only on the stop reason [max_tokens]; the
    limit in force never falls, is at least 8000 after the first escalation,
    and once the budget is spent the answer is accepted as it stands. *)
Theorem escalation_bounded d a b :
  (0 ≤ max_output_escalations d)%Z → output_limit_escalations a = 0%Z →
  escalates (default_recovery d) a b →
  (0 ≤ output_limit_escalations b ≤ max_output_escalations d)%Z ∧
  (current_max_tokens a ≤ current_max_tokens b)%Z ∧
  (0 < output_limit_escalations b → LATER_ESCALATION ≤ current_max_tokens b)%Z ∧
  (output_limit_escalations b = max_output_escalations d →
     ∀ reason, on_early_stop (default_recovery d) reason b = Accept) ∧
  (∀ reason, reason ≠ lit "max_tokens" → on_early_stop (default_recovery d) reason b = Accept).
Proof.
  intros Hmax Ha Hesc.
  assert ((output_limit_escalations a ≤ output_limit_escalations b ≤ max_output_escalations d)%Z ∧
    (current_max_tokens a ≤ current_max_tokens b)%Z ∧
    (output_limit_escalations a < output_limit_escalations b →
       LATER_ESCALATION ≤ current_max_tokens b)%Z) as (He & Hc & Hl).
  { assert (output_limit_escalations a ≤ max_output_escalations d)%Z as Hle by lia.
    clear Ha. induction Hesc as [a|a reason a' nudge b Hstep _ IH]; [lia|].
    unfold handle_max_tokens_recovery in Hstep. cbn [on_early_stop default_recovery] in Hstep.
    unfold default_on_early_stop in Hstep.
    destruct (negb _ || _) eqn:E1; [done|]. bool_simpl.
    assert (output_limit_escalations a' = output_limit_escalations a + 1 ∧
            (current_max_tokens a' = FIRST_ESCALATION ∧ current_max_tokens a < FIRST_ESCALATION ∨
             current_max_tokens a' = current_max_tokens a `max` LATER_ESCALATION))%Z as Hm.
    { destruct (_ && _) eqn:E2; bool_simpl; injection Hstep as <- _;
        cbn [output_limit_escalations current_max_tokens]; [split; [lia|left; lia]|split; [lia|by right]]. }
    unfold FIRST_ESCALATION, LATER_ESCALATION in *. lia. }
  split_and!; [lia|lia|done|lia| |].
  - intros Hb reason. cbn. unfold default_on_early_stop.
    rewrite (bool_decide_eq_true_2 (_ ≤ _)%Z) by lia. by rewrite orb_true_r.
  - intros reason Hr. cbn. unfold default_on_early_stop. by rewrite bool_decide_eq_false_2.
Qed.

Lemma escalation_bounded_witness :
  (LATER_ESCALATION ≤ 64000)%Z ∧
  on_early_stop (default_recovery (default_recovery_new None)) (lit "end_turn")
    {| output_limit_escalations := 1; current_max_tokens := 64000 |} = Accept.
Proof.
  destruct (escalation_bounded (default_recovery_new None)
    {| output_limit_escalations := 0; current_max_tokens := 4096 |}
    {| output_limit_escalations := 1; current_max_tokens := 64000 |}) as (_ & _ & H & _ & Hr).
  - cbn. lia.
  - reflexivity.
  - eapply (escalates_step _ _ (lit "max_tokens")); [reflexivity|apply escalates_refl].
  - split; [apply H; cbn; lia|]. apply Hr. by_compute.
Defined.

(** ** [budget_policy.rs] *)

Record Spend := {
  input_tokens : Z;
  output_tokens : Z;
  cache_creation_tokens : Z;
  cache_read_tokens : Z;
}.

Definition total_tokens (s : Spend) : Z := sat_add_u64 (input_tokens s) (output_tokens s).
Definition all_tokens (s : Spend) : Z :=
  sat_add_u64 (sat_add_u64 (total_tokens s) (cache_creation_tokens s)) (cache_read_tokens s).

Inductive Spending :=
| WithinBudget
| WarnBudget (reminder : str) (limit : Z)
| Exhausted (limit : Z).

Record TokenBudget := {
  scene_compact_threshold : Z;
  scene_compact_keep_recent : Z;
}.

Record ContextBudget := {
  compact_threshold : Z;
  compact_keep_recent : Z;
  hard_cap : option Z;
}.

Record OutputProgress := {
  accumulated : Z;
  target : Z;
  continuations : Z;
  this_delta : Z;
  last_delta : Z;
}.

Inductive OutputTarget := Reached | KeepGoing (nudge : str).

Record BudgetPolicy := {
  on_usage : Spend → Spending;
  on_output_target : OutputProgress → OutputTarget;
  context_budget : TokenBudget → ContextBudget;
}.

Definition default_context_budget (scene : TokenBudget) : ContextBudget :=
  {| compact_threshold := scene_compact_threshold scene;
     compact_keep_recent := scene_compact_keep_recent scene; hard_cap := None |}.

Definition budget_reminder : str :=
  lit "<system-reminder>" ++ [10%N] ++
  lit "Output token budget nearly exhausted. Keep your response concise and wrap up." ++ [10%N] ++
  lit "</system-reminder>".

(** [budget * 9 / 10]. *)
Definition warn_threshold (budget : Z) : Z := ((budget * 9) mod 2 ^ 64 / 10)%Z.

Definition engine_on_usage (max_total_tokens : option Z) (spend : Spend) : Spending :=
  match max_total_tokens with
  | None => WithinBudget
  | Some budget =>
      let spent := total_tokens spend in
      if bool_decide (budget ≤ spent)%Z then Exhausted budget
      else if bool_decide (warn_threshold budget ≤ spent)%Z
      then WarnBudget budget_reminder budget
      else WithinBudget
  end.

(** [(target as f64 * 0.9) as u64]. *)
Definition met_at (target : Z) : Z := f64_to_u64 (f64_mul (f64_of target) f64_0_9).

Definition output_nudge (p : OutputProgress) : str :=
  lit "<system-reminder>" ++ [10%N] ++ lit "Continue working. Used " ++ lit (pretty (accumulated p)) ++
  lit "/" ++ lit (pretty (target p)) ++ lit " output tokens (" ++
  lit (pretty (0 `max` (target p - accumulated p))%Z) ++ lit " remaining)." ++ [10%N] ++
  lit "</system-reminder>".

Definition engine_on_output_target (p : OutputProgress) : OutputTarget :=
  let diminishing :=
    bool_decide (3 ≤ continuations p)%Z && bool_decide (this_delta p < 500)%Z &&
    bool_decide (last_delta p < 500)%Z in
  if diminishing || bool_decide (met_at (target p) ≤ accumulated p)%Z then Reached
  else KeepGoing (output_nudge p).

Definition engine_budget (max_total_tokens : option Z) : BudgetPolicy :=
  {| on_usage := engine_on_usage max_total_tokens; on_output_target := engine_on_output_target;
     context_budget := default_context_budget |}.

Definition capped (inner : BudgetPolicy) (context_hard_cap : Z) : BudgetPolicy :=
  {| on_usage := on_usage inner; on_output_target := on_output_target inner;
     context_budget := λ scene,
       let b := context_budget inner scene in
       {| compact_threshold := compact_threshold b;
          compact_keep_recent := compact_keep_recent b; hard_cap := Some context_hard_cap |} |}.

(** How far a verdict has gone. *)
Definition spending_level (s : Spending) : Z :=
  match s with WithinBudget => 0 | WarnBudget _ _ => 1 | Exhausted _ => 2 end.

(** The counters of one turn only grow. *)
Definition spend_le (a b : Spend) : Prop :=
  (input_tokens a ≤ input_tokens b ∧ output_tokens a ≤ output_tokens b)%Z.

Definition spend_ok (s : Spend) : Prop :=
  (0 ≤ input_tokens s ≤ u64_max ∧ 0 ≤ output_tokens s ≤ u64_max)%Z.

(** The budget is a ceiling: for a budget whose ninefold fits in 64 bits,
    the turn is ended exactly when input plus output reach it - also when the
    sum no longer fits in 64 bits - and warned exactly in the last tenth;
    as a turn spends more its verdict never relaxes; and a hard cap changes
    the context budget's cap and nothing else. *)
Theorem budget_is_a_ceiling budget a b scene cap :
  (0 < budget)%Z → (budget * 9 < 2 ^ 64)%Z → spend_ok a → spend_ok b → spend_le a b →
  let spent := (input_tokens a + output_tokens a)%Z in
  (on_usage (engine_budget (Some budget)) a = Exhausted budget ↔ (budget ≤ spent)%Z) ∧
  (on_usage (engine_budget (Some budget)) a = WarnBudget budget_reminder budget ↔
     (spent < budget ∧ budget * 9 / 10 ≤ spent)%Z) ∧
  (on_usage (engine_budget (Some budget)) a = WithinBudget ↔ (spent < budget * 9 / 10)%Z) ∧
  (spending_level (on_usage (engine_budget (Some budget)) a) ≤
   spending_level (on_usage (engine_budget (Some budget)) b))%Z ∧
  on_usage (capped (engine_budget (Some budget)) cap) = on_usage (engine_budget (Some budget)) ∧
  context_budget (capped (engine_budget (Some budget)) cap) scene =
    {| compact_threshold := scene_compact_threshold scene;
       compact_keep_recent := scene_compact_keep_recent scene; hard_cap := Some cap |}.
Proof.
  intros Hb0 Hb Ha Hb' Hle spent.
  assert (warn_threshold budget = budget * 9 / 10)%Z as Hw.
  { unfold warn_threshold. by rewrite Z.mod_small by lia. }
  assert (budget * 9 / 10 < budget)%Z as Hlt by (apply Z.div_lt_upper_bound; lia).
  assert (∀ s, spend_ok s → (total_tokens s = (input_tokens s + output_tokens s) `min` u64_max)%Z) as Ht.
  { intros s [? ?]. unfold total_tokens, sat_add_u64. lia. }
  unfold spend_ok, spend_le, u64_max in *.
  cbn [on_usage engine_budget capped context_budget]. unfold engine_on_usage. rewrite Hw, !Ht by done.
  subst spent. generalize dependent (budget * 9 / 10)%Z. intros w Hw Hlt.
  split_and!; repeat case_bool_decide; cbn [spending_level];
    first [done|lia|split; first [done|lia|intros; first [done|lia]]].
Qed.

Lemma budget_is_a_ceiling_witness :
  spending_level (on_usage (engine_budget (Some 1000%Z))
    {| input_tokens := 100; output_tokens := 200; cache_creation_tokens := 0; cache_read_tokens := 9999 |})
  = 0%Z.
Proof.
  destruct (budget_is_a_ceiling 1000%Z
    {| input_tokens := 100; output_tokens := 200; cache_creation_tokens := 0; cache_read_tokens := 9999 |}
    {| input_tokens := 100; output_tokens := 900; cache_creation_tokens := 0; cache_read_tokens := 9999 |}
    {| scene_compact_threshold := 0; scene_compact_keep_recent := 0 |} 0%Z)
    as (_ & _ & H & _); [lia|lia|..|rewrite (proj2 H); [reflexivity|by_compute]];
    unfold spend_ok, spend_le, u64_max; cbn; lia.
Defined.

(** Past a ninth of the 64-bit range the product wraps, and a nearly
    unlimited budget warns from the first token. *)
Example huge_budget_warns_early :
  on_usage (engine_budget (Some (2 ^ 64 / 9 + 1)%Z))
    {| input_tokens := 1; output_tokens := 0; cache_creation_tokens := 0; cache_read_tokens := 0 |}
  = WarnBudget budget_reminder (2 ^ 64 / 9 + 1)%Z.
Proof. by vm_compute. Qed.

(** ** [health.rs] *)

(** Worst last. *)
Inductive HealthStatus := HealthOk | Degraded | Failing.

Definition health_rank (s : HealthStatus) : nat :=
  match s with HealthOk => 0 | Degraded => 1 | Failing => 2 end.

Definition health_label (s : HealthStatus) : str :=
  match s with HealthOk => "ok" | Degraded => "degraded" | Failing => "failing" end.

Record CheckResult := {
  check_status : HealthStatus;
  summary : str;
  details : value;
}.

(** The [HealthCheck] trait. *)
Record HealthCheck := {
  check_name : str;
  check : unit → CheckResult;
}.

Record NamedResult := {
  result_name : str;
  named_result : CheckResult;
}.

Record HealthReport := {
  report_status : HealthStatus;
  report_checks : list NamedResult;
}.

Definition worse (a b : HealthStatus) : HealthStatus :=
  if decide (health_rank a < health_rank b) then b else a.

(** [.max()]. *)
Definition worst (ss : list HealthStatus) : option HealthStatus :=
  match ss with [] => None | s :: ss => Some (foldl worse s ss) end.

Definition report (checks : list HealthCheck) : HealthReport :=
  let results := (λ c, {| result_name := check_name c; named_result := check c tt |}) <$> checks in
  {| report_status := default HealthOk (worst (check_status ∘ named_result <$> results));
     report_checks := results |}.

Definition report_is_ok (r : HealthReport) : bool :=
  match report_status r with HealthOk => true | _ => false end.

Definition report_find (r : HealthReport) (n : str) : option NamedResult :=
  find_first (λ c, bool_decide (result_name c = n)) (report_checks r).

Definition report_to_json (r : HealthReport) : value :=
  VObject [(lit "status", VString (health_label (report_status r)));
           (lit "checks", VArray ((λ c, VObject
              [(lit "name", VString (result_name c));
               (lit "status", VString (health_label (check_status (named_result c))));
               (lit "summary", VString (summary (named_result c)));
               (lit "details", details (named_result c))]) <$> report_checks r))].

Lemma worse_rank a b : health_rank (worse a b) = health_rank a `max` health_rank b.
Proof. unfold worse. case_decide; lia. Qed.

Lemma foldl_worse_rank s ss :
  health_rank (foldl worse s ss) = foldl max (health_rank s) (health_rank <$> ss).
Proof.
  revert s. induction ss as [|x ss IH]; intros s; [done|]. cbn. by rewrite IH, worse_rank.
Qed.

Lemma foldl_max_spec n ns k : k ≤ foldl max n ns ↔ k ≤ n ∨ ∃ m, m ∈ ns ∧ k ≤ m.
Proof.
  revert n. induction ns as [|m ns IH]; intros n; cbn.
  - split; [by left|]. by intros [?|(? & ?%not_elem_of_nil & _)].
  - rewrite IH. setoid_rewrite elem_of_cons. split.
    + intros [H|(x & ? & ?)]; [|right; eauto].
      destruct (decide (k ≤ n)); [by left|right]. exists m. split; [by left|lia].
    + intros [H|(x & [->|?] & ?)]; [left; lia|left; lia|right; eauto].
Qed.

Lemma health_rank_inj a b : health_rank a = health_rank b → a = b.
Proof. by destruct a, b. Qed.

(** A report is as bad as its worst check: it keeps every check's answer
    in order, its status is at least [s] exactly when some check's is, it is
    fine exactly when all checks are - so with no checks at all - and the JSON
    carries the same verdict. *)
Theorem report_is_worst checks s :
  (health_rank s ≤ health_rank (report_status (report checks)) ↔
     s = HealthOk ∨ ∃ c, c ∈ checks ∧ health_rank s ≤ health_rank (check_status (check c tt))) ∧
  (report_is_ok (report checks) = true ↔
     ∀ c, c ∈ checks → check_status (check c tt) = HealthOk) ∧
  (result_name <$> report_checks (report checks) = check_name <$> checks) ∧
  value_get (lit "status") (report_to_json (report checks)) =
    Some (VString (health_label (report_status (report checks)))).
Proof.
  assert (∀ s, health_rank s ≤ health_rank (report_status (report checks)) ↔
     s = HealthOk ∨ ∃ c, c ∈ checks ∧ health_rank s ≤ health_rank (check_status (check c tt))) as H.
  { clear s. intros s. cbn [report report_status]. rewrite <-list_fmap_compose.
    destruct checks as [|c cs]; cbn [fmap list_fmap worst default from_option].
    - unfold id. destruct s; cbn; (split; [|intros [?|(? & ?%not_elem_of_nil & _)]]); auto; try lia; try done.
    - unfold id. rewrite foldl_worse_rank, foldl_max_spec. setoid_rewrite list_elem_of_fmap. split.
      + intros [Hc|(m & (x & -> & Hx) & Hm)]; [right; exists c; split; [left|done]|].
        apply list_elem_of_fmap in Hx as (d & -> & Hd). right. exists d. split; [by right|done].
      + intros [->|(d & [->|Hd]%elem_of_cons & Hr)]; [left; cbn; lia|by left|right].
        eexists. split; [|exact Hr]. eexists. split; [reflexivity|].
        apply list_elem_of_fmap. by exists d. }
  split; [apply H|]. split_and!; [| |done].
  - unfold report_is_ok. split.
    + intros Hok c Hc. apply health_rank_inj.
      assert (health_rank (check_status (check c tt)) ≤ health_rank (report_status (report checks))) as Hle.
      { apply H. right. eauto. }
      destruct (report_status (report checks)); try done. cbn in *. lia.
    + intros Hall.
      destruct (proj1 (H (report_status (report checks))) (le_n _)) as [E|(c & Hc & Hr)];
        [by rewrite E|].
      rewrite (Hall c Hc) in Hr. destruct (report_status (report checks)); cbn in Hr; [done|lia|lia].
  - cbn [report report_checks]. by rewrite <-list_fmap_compose.
Qed.
