(* ===== verification/Mailbox.v ===== *)
(** * Mailboxes of a team ([crates/team/src/mailbox.rs], [polling.rs])

    [MailboxStore]: a queue of messages per peer label, with an optional copy
    of every queue in a file of JSON lines.  A store runs against the files of
    the machine ([Files]); each operation makes at most one call that changes
    a file, whose outcome is the operation's [Io] argument.  The store's
    [Mutex] makes an operation one step, so a history is a list of operations
    in the order they took the lock.

    [serde_json] is the parameters [to_string] and [from_str] with
    [JsonLines], what it documents of a compact rendering. *)

From stdpp Require Import base option numbers sets gmap strings pretty list.
From S2P Require Import Prelude RustStr Lines Path.

Record MailboxMessage := {
  from : str;
  timestamp_ms : Z;
  content : str;
}.

#[export] Instance MailboxMessage_eq_dec : EqDecision MailboxMessage.
Proof. solve_decision. Defined.

Definition Mail := list MailboxMessage.

Record MailboxStore := {
  mailboxes : gmap str Mail;
  peers : list str;
  persist_dir : option str;
}.

(** The text of each file, by the path it is opened with. *)
Notation Files := (gmap str str).

(** How a call that changes a file ends: done, or failed before ([None]) or
    after writing the first characters of its text. *)
Inductive Io := IoOk | IoFailed (written : option nat).

Definition append_file (io : Io) (path text : str) (fs : Files) : Files :=
  match io with
  | IoOk => <[path := default [] (fs !! path) ++ text]> fs
  | IoFailed None => fs
  | IoFailed (Some n) => <[path := default [] (fs !! path) ++ take n text]> fs
  end.

(** [std::fs::write] truncates, then writes. *)
Definition write_file (io : Io) (path text : str) (fs : Files) : Files :=
  match io with
  | IoOk => <[path := text]> fs
  | IoFailed None => fs
  | IoFailed (Some n) => <[path := take n text]> fs
  end.

Definition remove_file (io : Io) (path : str) (fs : Files) : Files :=
  match io with
  | IoOk => delete path fs
  | IoFailed _ => fs
  end.

(** [format!("{peer}.jsonl")] joined to the directory. *)
Definition mail_file (dir peer : str) : str := path_join dir (peer ++ lit ".jsonl").

Section Mailbox.
Context (to_string : MailboxMessage → option str) (from_str : str → option MailboxMessage).

(** The loop of [with_persistence] over the lines of one file. *)
Definition load_mail (contents : str) : Mail := omap from_str (lines contents).

Definition load_peer (dir : str) (readable : str → bool) (fs : Files)
    (boxes : gmap str Mail) (peer : str) : gmap str Mail :=
  let file_path := mail_file dir peer in
  match (if readable file_path then fs !! file_path else None) with
  | Some contents =>
      let msgs := load_mail contents in
      match msgs with
      | [] => boxes
      | _ => <[peer := msgs]> boxes
      end
  | None => boxes
  end.

Definition store_new (peers : list str) : MailboxStore :=
  Build_MailboxStore ∅ peers None.

(** [readable] tells the files [read_to_string] can read. *)
Definition with_persistence (peers : list str) (dir : str) (readable : str → bool)
    (fs : Files) : MailboxStore :=
  Build_MailboxStore (foldl (load_peer dir readable fs) ∅ peers) peers (Some dir).

Definition set_mailboxes (st : MailboxStore) (m : gmap str Mail) : MailboxStore :=
  Build_MailboxStore m (peers st) (persist_dir st).

(** The clock as [duration_since(UNIX_EPOCH)]: milliseconds, or an error. *)
Definition message (now : option Z) (sender text : str) : MailboxMessage :=
  Build_MailboxMessage sender (default 0%Z (as_i64 <$> now)) text.

Definition send (io : Io) (now : option Z) (sender to text : str)
    (w : MailboxStore * Files) : MailboxStore * Files :=
  let (st, fs) := w in
  let msg := message now sender text in
  let boxes := <[to := default [] (mailboxes st !! to) ++ [msg]]> (mailboxes st) in
  let fs :=
    match persist_dir st with
    | None => fs
    | Some dir =>
        match to_string msg with
        | Some json => append_file io (mail_file dir to) (json ++ [newline]) fs
        | None => fs
        end
    end in
  (set_mailboxes st boxes, fs).

Definition drain (io : Io) (peer : str) (max : nat) (w : MailboxStore * Files)
    : MailboxStore * Files * option Mail :=
  let (st, fs) := w in
  match mailboxes st !! peer with
  | None => (w, None)
  | Some msgs =>
      let drain_end := Nat.min max (length msgs) in
      let drained := take drain_end msgs in
      let msgs := drop drain_end msgs in
      let is_empty := bool_decide (msgs = []) in
      let boxes :=
        if is_empty then delete peer (mailboxes st) else <[peer := msgs]> (mailboxes st) in
      let fs :=
        match persist_dir st with
        | None => fs
        | Some dir =>
            if is_empty then remove_file io (mail_file dir peer) fs
            else write_file io (mail_file dir peer)
                   (join [newline] (omap to_string msgs) ++ [newline]) fs
        end in
      (set_mailboxes st boxes, fs, Some drained)
  end.

(** ** Histories *)

Inductive Op :=
  | Send (io : Io) (now : option Z) (sender to text : str)
  | Drain (io : Io) (peer : str) (max : nat).

(** One operation and what it answers; a send answers nothing. *)
Definition exec (w : MailboxStore * Files) (op : Op) : MailboxStore * Files * option Mail :=
  match op with
  | Send io now sender to text => (send io now sender to text w, None)
  | Drain io peer max => drain io peer max w
  end.

Fixpoint run (w : MailboxStore * Files) (ops : list Op)
    : MailboxStore * Files * list (option Mail) :=
  match ops with
  | [] => (w, [])
  | op :: ops =>
      let '(w, out) := exec w op in
      let '(w, outs) := run w ops in
      (w, out :: outs)
  end.

End Mailbox.

(** ** The abstract queues

    What the store promises: one queue per label; a send appends, a drain
    takes from the front, and an empty queue answers nothing. *)

Definition Queues := str → Mail.

Definition queue_step (q : Queues) (op : Op) : Queues * option Mail :=
  match op with
  | Send _ now sender to text =>
      (λ p, if decide (p = to) then q p ++ [message now sender text] else q p, None)
  | Drain _ peer max =>
      (λ p, if decide (p = peer) then drop max (q p) else q p,
       match q peer with [] => None | msgs => Some (take max msgs) end)
  end.

Fixpoint queue_run (q : Queues) (ops : list Op) : Queues * list (option Mail) :=
  match ops with
  | [] => (q, [])
  | op :: ops =>
      let '(q, out) := queue_step q op in
      let '(q, outs) := queue_run q ops in
      (q, out :: outs)
  end.

(** The messages sent to a label, and those its drains returned. *)
Definition sent_to (p : str) (ops : list Op) : Mail :=
  omap (λ op, match op with
              | Send _ now sender to text =>
                  if decide (to = p) then Some (message now sender text) else None
              | Drain _ _ _ => None
              end) ops.

Definition received_by (p : str) (ops : list Op) (outs : list (option Mail)) : Mail :=
  concat (zip_with (λ op out, match op with
                              | Drain _ peer _ => if decide (peer = p) then default [] out else []
                              | Send _ _ _ _ _ => []
                              end) ops outs).

(** ** Refinement *)

Definition queue_of (st : MailboxStore) : Queues := λ p, default [] (mailboxes st !! p).

(** No label has an empty queue in the map. *)
Definition no_empty_boxes (st : MailboxStore) : Prop := ∀ p, mailboxes st !! p ≠ Some [].

Lemma queue_of_nil st p : no_empty_boxes st → queue_of st p = [] → mailboxes st !! p = None.
Proof.
  unfold queue_of. intros Hst Hq. specialize (Hst p).
  destruct (mailboxes st !! p) eqn:E; naive_solver.
Qed.

(** [drain]'s bound, the smaller of [max] and the length. *)
Lemma take_min_length {A} n (l : list A) : take (Nat.min n (length l)) l = take n l.
Proof.
  destruct (decide (n ≤ length l)).
  - by rewrite Nat.min_l.
  - rewrite Nat.min_r, !take_ge by lia. done.
Qed.

Lemma drop_min_length {A} n (l : list A) : drop (Nat.min n (length l)) l = drop n l.
Proof.
  destruct (decide (n ≤ length l)).
  - by rewrite Nat.min_l.
  - rewrite Nat.min_r, !drop_ge by lia. done.
Qed.

Section Refinement.
Context (to_string : MailboxMessage → option str) (from_str : str → option MailboxMessage).

Lemma send_queues io now sender to text st fs st' fs' :
  send to_string io now sender to text (st, fs) = (st', fs') →
  (∀ p, queue_of st' p = if decide (p = to) then queue_of st p ++ [message now sender text]
                         else queue_of st p) ∧
  (no_empty_boxes st → no_empty_boxes st').
Proof.
  unfold send, queue_of, no_empty_boxes. intros [= <- _]. simpl. split.
  - intros p. destruct (decide (p = to)) as [->|Hp].
    + by rewrite lookup_insert_eq.
    + by rewrite lookup_insert_ne.
  - intros Hst p. destruct (decide (p = to)) as [->|Hp].
    + rewrite lookup_insert_eq. intros [= E]. by apply app_nil in E as [_ ?].
    + by rewrite lookup_insert_ne.
Qed.

Lemma drain_queues io peer max st fs st' fs' out :
  no_empty_boxes st →
  drain to_string io peer max (st, fs) = (st', fs', out) →
  (∀ p, queue_of st' p = if decide (p = peer) then drop max (queue_of st p) else queue_of st p) ∧
  out = (match queue_of st peer with [] => None | msgs => Some (take max msgs) end) ∧
  no_empty_boxes st'.
Proof.
  intros Hst. unfold drain. destruct (mailboxes st !! peer) as [msgs|] eqn:E; cycle 1.
  { intros [= <- _ <-]. unfold queue_of. rewrite E. split_and!; try done.
    intros p. destruct (decide (p = peer)) as [->|]; [rewrite E; by destruct max|done]. }
  assert (Hmsgs : msgs ≠ []) by (intros ->; by apply (Hst peer)).
  rewrite take_min_length, drop_min_length.
  intros [= <- _ <-]. unfold queue_of, no_empty_boxes; simpl. rewrite E; simpl. split_and!.
  - intros p. destruct (decide (p = peer)) as [->|Hp]; rewrite ?E; simpl.
    + case_bool_decide as Hd; [by rewrite lookup_delete_eq|by rewrite lookup_insert_eq].
    + case_bool_decide; [by rewrite lookup_delete_ne|by rewrite lookup_insert_ne].
  - by destruct msgs.
  - intros p. destruct (decide (p = peer)) as [->|Hp]; case_bool_decide as Hd.
    + by rewrite lookup_delete_eq.
    + rewrite lookup_insert_eq. by intros [= ?].
    + rewrite lookup_delete_ne by done. apply Hst.
    + rewrite lookup_insert_ne by done. apply Hst.
Qed.

Lemma exec_queues op st fs st' fs' out q :
  no_empty_boxes st → (∀ p, queue_of st p = q p) →
  exec to_string (st, fs) op = (st', fs', out) →
  no_empty_boxes st' ∧ (∀ p, queue_of st' p = (queue_step q op).1 p) ∧
  out = (queue_step q op).2.
Proof.
  intros Hst Hq. destruct op as [io now sender to text|io peer max]; cbn [exec queue_step fst snd].
  - destruct (send _ _ _ _ _ _ _) as [st1 fs1] eqn:E. intros [= <- <- <-].
    apply send_queues in E as [E1 E2]. split_and!; [by apply E2| |done].
    intros p. by rewrite E1, Hq.
  - intros E. apply drain_queues in E as (E1&E2&E3); [|done].
    split_and!; [done| |by rewrite <-Hq].
    intros p. by rewrite E1, Hq.
Qed.

Lemma run_queues ops st fs st' fs' outs q :
  no_empty_boxes st → (∀ p, queue_of st p = q p) →
  run to_string (st, fs) ops = (st', fs', outs) →
  no_empty_boxes st' ∧ (∀ p, queue_of st' p = (queue_run q ops).1 p) ∧
  outs = (queue_run q ops).2.
Proof.
  revert st fs outs q. induction ops as [|op ops IH]; intros st fs outs q Hst Hq;
    cbn [run queue_run].
  { by intros [= <- <- <-]. }
  destruct (exec _ _ _) as [[st1 fs1] out] eqn:E1.
  destruct (run _ _ _) as [[st2 fs2] outs2] eqn:E2. intros [= <- <- <-].
  apply (exec_queues _ _ _ _ _ _ q) in E1 as (H1&H2&->); [|done..].
  destruct (queue_step q op) as [q1 out1]; simpl in *.
  apply (IH _ _ _ q1) in E2 as (?&?&->); [|done..].
  by destruct (queue_run q1 ops).
Qed.

End Refinement.

(** One step of the queues delivers in order: what was received, followed by
    what waits, is what waited followed by what was sent. *)
Lemma queue_run_fifo ops q p :
  received_by p ops (queue_run q ops).2 ++ (queue_run q ops).1 p = q p ++ sent_to p ops.
Proof.
  unfold received_by. revert q. induction ops as [|op ops IH]; intros q; simpl.
  { by rewrite app_nil_r. }
  destruct (queue_step q op) as [q1 out] eqn:E. specialize (IH q1).
  destruct (queue_run q1 ops) as [q2 outs]; simpl in *.
  rewrite <-app_assoc, IH.
  destruct op as [io now sender to text|io peer max]; simplify_eq/=.
  - destruct (decide (p = to)) as [->|].
    + by rewrite decide_True, <-app_assoc.
    + by rewrite decide_False.
  - destruct (decide (p = peer)) as [->|].
    + rewrite decide_True by done. rewrite app_assoc. f_equal.
      destruct (q peer) as [|m ms] eqn:Eq; [by rewrite drop_nil|]. apply (take_drop max (m :: ms)).
    + by rewrite decide_False.
Qed.

(** Distinct plain labels have distinct files. *)
Definition plain_label (p : str) : Prop := slash ∉ p.

Lemma plain_relative p : plain_label p → is_absolute (p ++ lit ".jsonl") = false.
Proof.
  unfold plain_label, is_absolute. intros Hp. apply not_true_iff_false.
  rewrite starts_with_spec. intros [r Hr]. destruct p as [|x p]; [by inversion Hr|].
  apply Hp.
  injection Hr as -> _. left.
Qed.

Lemma mail_file_inj dir p q :
  plain_label p → plain_label q → mail_file dir p = mail_file dir q → p = q.
Proof.
  intros Hp Hq. unfold mail_file, path_join, push. rewrite !plain_relative by done.
  intros E. apply app_inv_head in E. apply app_inv_head in E. by apply app_inv_tail in E.
Qed.

(** ** Restarts *)

(** What the store relies on of [serde_json]: a message renders to one line
    and reads back from it, and a timestamp read is an [i64]. *)
Record JsonLines (to_string : MailboxMessage → option str)
    (from_str : str → option MailboxMessage) : Prop := {
  renders_one_line : ∀ m, in_i64 (timestamp_ms m) → ∃ j,
    to_string m = Some j ∧ newline ∉ j ∧ carriage_return ∉ j ∧ from_str j = Some m;
  reads_i64 : ∀ j m, from_str j = Some m → in_i64 (timestamp_ms m);
}.

(** An operation on a plain label whose call on the files succeeds. *)
Definition persisted (op : Op) : Prop :=
  match op with
  | Send io _ _ to _ => io = IoOk ∧ plain_label to
  | Drain io peer _ => io = IoOk ∧ plain_label peer
  end.

Definition sendable (m : MailboxMessage) : Prop := in_i64 (timestamp_ms m).

Lemma message_sendable now sender text : sendable (message now sender text).
Proof.
  unfold sendable, message; simpl. destruct now; simpl; [apply as_i64_in|].
  unfold in_i64. lia.
Qed.

Section Restart.
Context (to_string : MailboxMessage → option str) (from_str : str → option MailboxMessage).
Context (Hjson : JsonLines to_string from_str).

Lemma load_mail_app s t :
  whole_lines s → load_mail from_str (s ++ t) = load_mail from_str s ++ load_mail from_str t.
Proof. intros Hs. unfold load_mail. by rewrite lines_app, omap_app. Qed.

Lemma load_mail_line m j rest :
  to_string m = Some j → sendable m →
  load_mail from_str (j ++ newline :: rest) = m :: load_mail from_str rest.
Proof.
  intros Hj Hm. destruct (renders_one_line _ _ Hjson m Hm) as (j'&Hj'&Hn&Hc&Hr).
  simplify_eq. change (newline :: rest) with ([newline] ++ rest). rewrite app_assoc.
  rewrite load_mail_app by (right; by exists j).
  unfold load_mail at 1. rewrite lines_line; [simpl; by rewrite Hr|done|].
  intros Hl. apply Hc. apply last_Some in Hl as [l ->]. set_solver.
Qed.

Lemma load_mail_all ms :
  ms ≠ [] → Forall sendable ms →
  load_mail from_str (join [newline] (omap to_string ms) ++ [newline]) = ms.
Proof.
  intros Hne Hms. induction Hms as [|m ms Hm Hms IH]; [done|].
  destruct (renders_one_line _ _ Hjson m Hm) as (j&Hj&_).
  assert (Hcons : ∀ x y ys, to_string x = Some y →
    omap to_string (x :: ys) = y :: omap to_string ys) by (by simpl; intros ??? ->).
  rewrite (Hcons _ _ _ Hj). destruct ms as [|m' ms].
  { simpl. by rewrite (load_mail_line m). }
  inversion Hms; subst. destruct (renders_one_line _ _ Hjson m') as (j'&Hj'&_); [done|].
  rewrite (Hcons _ _ _ Hj'), join_cons2, <-!app_assoc, <-(Hcons _ _ _ Hj').
  cbn [app]. rewrite (load_mail_line m) by done. by rewrite IH.
Qed.

Lemma load_mail_sendable s : Forall sendable (load_mail from_str s).
Proof.
  apply Forall_forall. intros m. unfold load_mail. rewrite list_elem_of_omap.
  intros (j&_&Hj). by eapply reads_i64.
Qed.

(** The box of a queue: none when it is empty. *)
Definition box (m : Mail) : option Mail := match m with [] => None | _ => Some m end.

Definition stored (dir : str) (fs : Files) (p : str) : str := default [] (fs !! mail_file dir p).

Lemma load_peer_lookup dir readable fs boxes q p :
  readable (mail_file dir q) = true →
  load_peer from_str dir readable fs boxes q !! p =
  if decide (p = q) then
    match load_mail from_str (stored dir fs q) with [] => boxes !! p | m => Some m end
  else boxes !! p.
Proof.
  intros Hr. unfold load_peer, stored. rewrite Hr.
  destruct (fs !! mail_file dir q) as [s|]; simpl.
  - destruct (load_mail from_str s); destruct (decide (p = q)) as [->|];
      by rewrite ?lookup_insert_eq, ?lookup_insert_ne.
  - by destruct (decide (p = q)).
Qed.

Lemma load_peers_lookup dir readable fs ps boxes p :
  Forall (λ q, readable (mail_file dir q) = true) ps →
  foldl (load_peer from_str dir readable fs) boxes ps !! p =
  if decide (p ∈ ps) then
    match load_mail from_str (stored dir fs p) with [] => boxes !! p | m => Some m end
  else boxes !! p.
Proof.
  intros Hps. revert boxes. induction Hps as [|q ps Hq Hps IH]; intros boxes; simpl; [done|].
  rewrite IH, load_peer_lookup by done.
  destruct (decide (p = q)) as [->|Hp].
  - rewrite (decide_True (P := q ∈ q :: ps)) by set_solver.
    destruct (load_mail from_str (stored dir fs q)); by destruct (decide _).
  - destruct (decide (p ∈ ps)), (decide (p ∈ q :: ps)); set_solver.
Qed.

Lemma with_persistence_lookup ps dir readable fs p :
  Forall (λ q, readable (mail_file dir q) = true) ps →
  mailboxes (with_persistence from_str ps dir readable fs) !! p =
  if decide (p ∈ ps) then box (load_mail from_str (stored dir fs p)) else None.
Proof.
  intros Hps. simpl. rewrite load_peers_lookup by done. rewrite lookup_empty.
  by destruct (load_mail from_str (stored dir fs p)).
Qed.

(** The files of the listed peers hold their queues. *)
Record in_step (dir : str) (st : MailboxStore) (fs : Files) : Prop := {
  step_dir : persist_dir st = Some dir;
  step_mail : ∀ p, p ∈ peers st →
    load_mail from_str (stored dir fs p) = queue_of st p ∧ whole_lines (stored dir fs p);
  step_sendable : ∀ p, Forall sendable (queue_of st p);
}.

(** An operation on the queue and the file of one label. *)
Lemma in_step_update dir st fs st' fs' t :
  in_step dir st fs →
  Forall plain_label (peers st) → plain_label t →
  peers st' = peers st → persist_dir st' = persist_dir st →
  (∀ p, p ≠ t → queue_of st' p = queue_of st p) →
  (∀ f, f ≠ mail_file dir t → fs' !! f = fs !! f) →
  Forall sendable (queue_of st' t) →
  (t ∈ peers st →
   load_mail from_str (stored dir fs' t) = queue_of st' t ∧ whole_lines (stored dir fs' t)) →
  in_step dir st' fs'.
Proof.
  intros [Hd Hm Hs] Hps Ht Hp1 Hp2 Hq Hf Hst Hload. split.
  - by rewrite Hp2.
  - rewrite Hp1. intros p Hp. destruct (decide (p = t)) as [->|Hne]; [by apply Hload|].
    rewrite Hq by done. specialize (Hm p Hp).
    unfold stored in *. rewrite Hf; [done|].
    intros E. apply Hne. rewrite Forall_forall in Hps. eapply mail_file_inj; [| |exact E]; auto.
  - intros p. destruct (decide (p = t)) as [->|Hne]; [done|]. by rewrite Hq.
Qed.

Lemma send_in_step dir now sender to text st fs st' fs' :
  in_step dir st fs → Forall plain_label (peers st) → plain_label to →
  send to_string IoOk now sender to text (st, fs) = (st', fs') →
  peers st' = peers st ∧ in_step dir st' fs'.
Proof.
  intros Hin Hps Hto Hsend. pose proof (send_queues _ _ _ _ _ _ _ _ _ _ Hsend) as [Hq _].
  pose proof (message_sendable now sender text) as Hm.
  destruct (renders_one_line _ _ Hjson _ Hm) as (j&Hj&_).
  unfold send in Hsend. rewrite (step_dir _ _ _ Hin), Hj in Hsend. injection Hsend as <- <-.
  split; [done|]. eapply in_step_update; try done.
  - intros p Hp. by rewrite Hq, decide_False.
  - intros f Hf. by rewrite lookup_insert_ne.
  - rewrite Hq, decide_True by done. apply Forall_app; split; [apply Hin|]. by constructor.
  - intros Hp. apply (step_mail _ _ _ Hin) in Hp as [Hl Hw].
    rewrite Hq, decide_True by done. unfold stored in *. rewrite lookup_insert_eq. cbn [default from_option id].
    split; [|by apply whole_lines_app].
    rewrite load_mail_app, Hl by done. f_equal. by rewrite (load_mail_line _ _ [] Hj).
Qed.

Lemma drain_in_step dir peer max st fs st' fs' out :
  in_step dir st fs → no_empty_boxes st → Forall plain_label (peers st) → plain_label peer →
  drain to_string IoOk peer max (st, fs) = (st', fs', out) →
  peers st' = peers st ∧ in_step dir st' fs'.
Proof.
  intros Hin Hne Hps Hto Hdrain.
  pose proof (drain_queues _ _ _ _ _ _ _ _ _ Hne Hdrain) as (Hq&_&_).
  unfold drain in Hdrain. destruct (mailboxes st !! peer) as [msgs|] eqn:E; [|by simplify_eq].
  rewrite (step_dir _ _ _ Hin), drop_min_length in Hdrain.
  assert (Hs : Forall sendable (drop max msgs)).
  { apply Forall_drop. pose proof (step_sendable _ _ _ Hin peer) as Hs.
    unfold queue_of in Hs. by rewrite E in Hs. }
  assert (Hqp : queue_of st' peer = drop max msgs).
  { rewrite Hq, decide_True by done. unfold queue_of. by rewrite E. }
  injection Hdrain as <- <- _. split; [done|].
  eapply in_step_update; try done.
  - intros p Hp. by rewrite Hq, decide_False.
  - intros f Hf. case_bool_decide; [by rewrite lookup_delete_ne|by rewrite lookup_insert_ne].
  - by rewrite Hqp.
  - intros _. rewrite Hqp. unfold stored. case_bool_decide as Hd.
    + rewrite lookup_delete_eq, Hd. split; [done|by left].
    + rewrite lookup_insert_eq. split; [by apply load_mail_all|].
      right. by eexists.
Qed.

Lemma run_in_step dir ops st fs st' fs' outs :
  in_step dir st fs → no_empty_boxes st → Forall plain_label (peers st) →
  Forall persisted ops →
  run to_string (st, fs) ops = (st', fs', outs) →
  peers st' = peers st ∧ no_empty_boxes st' ∧ in_step dir st' fs'.
Proof.
  intros Hin Hne Hps Hops. revert st fs outs Hin Hne Hps.
  induction Hops as [|op ops Hop Hops IH]; intros st fs outs Hin Hne Hps; cbn [run].
  { by intros [= <- <- _]. }
  destruct (exec _ _ _) as [[st1 fs1] out] eqn:E1.
  destruct (run _ _ _) as [[st2 fs2] outs2] eqn:E2. intros [= <- <- _].
  pose proof (exec_queues _ _ _ _ _ _ _ _ Hne (λ p, eq_refl) E1) as (Hne1&_&_).
  assert (peers st1 = peers st ∧ in_step dir st1 fs1) as [Hp1 Hin1].
  { destruct op as [io now sender to text|io peer max]; destruct Hop as [-> Ht];
      cbn [exec] in E1.
    - destruct (send _ _ _ _ _ _ _) eqn:E; injection E1 as <- <- _. by eapply send_in_step.
    - by eapply drain_in_step. }
  rewrite <-Hp1 in Hps |- *. by eapply IH.
Qed.

Lemma with_persistence_in_step dir ps readable fs :
  Forall (λ q, readable (mail_file dir q) = true) ps →
  Forall (λ q, whole_lines (stored dir fs q)) ps →
  no_empty_boxes (with_persistence from_str ps dir readable fs) ∧
  in_step dir (with_persistence from_str ps dir readable fs) fs.
Proof.
  intros Hr Hw. split; [|split].
  - intros p. rewrite with_persistence_lookup by done.
    destruct (decide _); [|done]. by destruct (load_mail _ _).
  - done.
  - intros p Hp. change (p ∈ ps) in Hp. split; [|by eapply (proj1 (Forall_forall _ _) Hw)].
    unfold queue_of. rewrite with_persistence_lookup, decide_True by done.
    by destruct (load_mail _ _).
  - intros p. unfold queue_of. rewrite with_persistence_lookup by done.
    destruct (decide _); simpl; [|constructor].
    pose proof (load_mail_sendable (stored dir fs p)). by destruct (load_mail _ _).
Qed.

End Restart.

(** ** The tools over the store *)

(** The validations' error codes. *)
Definition send_validate (peer text : str) : option Z :=
  if bool_decide (trim peer = []) then Some 1%Z
  else if bool_decide (trim text = []) then Some 2%Z
  else None.

Definition send_call (to_string : MailboxMessage → option str) (io : Io) (now : option Z)
    (from_label peer text : str) (w : MailboxStore * Files) : MailboxStore * Files * str :=
  (send to_string io now from_label peer text w, lit "Message sent to " ++ peer).

Definition default_read_max : nat := 10.

Definition read_validate (max : nat) : option Z :=
  if bool_decide (max = 0) then Some 1%Z else None.

Definition read_text (msgs : Mail) : str :=
  foldl (λ s msg, s ++ lit "**From " ++ from msg ++ lit "** (at "
                    ++ lit (pretty (timestamp_ms msg)) ++ lit "):" ++ [newline]
                    ++ content msg ++ [newline; newline]) [] msgs.

Definition read_call (to_string : MailboxMessage → option str) (io : Io) (my_label : str)
    (max : nat) (w : MailboxStore * Files) : MailboxStore * Files * str * option Mail :=
  let '(w, msgs) := drain to_string io my_label max w in
  match msgs with
  | None => (w, lit "(no new messages)", None)
  | Some msgs => (w, read_text msgs, Some msgs)
  end.

Definition list_call (st : MailboxStore) : str * option (list str) :=
  match peers st with
  | [] => (lit "(no peers in current team)", None)
  | ps => (join [newline] ps, Some ps)
  end.

(** [polling.rs]: one tick of the poller hands the handler every drained
    message that reads as a protocol message. *)
Section Polling.
Context {P : Type} (deserialize_from_json : str → option P).

Definition DEFAULT_DRAIN_MAX : nat := 100.

Definition tick (to_string : MailboxMessage → option str) (io : Io) (my_label : str) (max : nat)
    (w : MailboxStore * Files) : MailboxStore * Files * list (str * P) :=
  let '(w, msgs) := drain to_string io my_label max w in
  match msgs with
  | None => (w, [])
  | Some msgs =>
      (w, omap (λ msg, pair (from msg) <$> deserialize_from_json (content msg)) msgs)
  end.

End Polling.

(** ** Properties *)

(** C35. Whatever the interleaving of sends and drains and whatever happens
    to the files, the store answers as one queue per label does, and nothing
    is lost, repeated or reordered: what a label received, followed by what
    still waits for it, is what waited at first followed by what was sent to
    it. *)
Theorem mailbox_refines_queues to_string st fs ops st' fs' outs :
  no_empty_boxes st →
  run to_string (st, fs) ops = (st', fs', outs) →
  outs = (queue_run (queue_of st) ops).2 ∧
  ∀ p, queue_of st' p = (queue_run (queue_of st) ops).1 p ∧
       received_by p ops outs ++ queue_of st' p = queue_of st p ++ sent_to p ops.
Proof.
  intros Hst Hrun.
  destruct (run_queues to_string ops st fs st' fs' outs (queue_of st)) as (_&Hq&->); [done..|].
  split; [done|]. intros p. rewrite Hq. split; [done|apply queue_run_fifo].
Qed.

(** A restart keeps the mail: when every call on the files succeeded
    and labels hold no separator, a store opened on the directory has, for
    every listed peer, the very queue the old store had; mail for a label
    that is not listed is not read back. *)
Theorem mailbox_survives_restart to_string from_str ps dir readable fs ops st fs' outs :
  JsonLines to_string from_str →
  Forall plain_label ps →
  Forall (λ q, readable (mail_file dir q) = true) ps →
  Forall (λ q, whole_lines (stored dir fs q)) ps →
  Forall persisted ops →
  run to_string (with_persistence from_str ps dir readable fs, fs) ops = (st, fs', outs) →
  ∀ p, mailboxes (with_persistence from_str ps dir readable fs') !! p =
       if decide (p ∈ ps) then mailboxes st !! p else None.
Proof.
  intros Hjson Hps Hr Hw Hops Hrun p.
  destruct (with_persistence_in_step _ _ Hjson dir ps readable fs Hr Hw) as [Hne Hin].
  destruct (run_in_step _ _ Hjson dir ops _ _ _ _ _ Hin Hne Hps Hops Hrun) as (Hp&Hne'&Hin').
  rewrite (with_persistence_lookup to_string from_str Hjson) by done. destruct (decide (p ∈ ps)) as [Hmem|]; [|done].
  destruct (step_mail _ _ _ _ Hin' p) as [-> _]; [by rewrite Hp|].
  unfold queue_of. specialize (Hne' p).
  destruct (mailboxes st !! p) as [[|]|]; done.
Qed.

(** ** Witnesses *)

(** A rendering with the laws of [JsonLines]. *)
Module BitLines.

#[export] Instance MailboxMessage_countable : Countable MailboxMessage.
Proof.
  refine (inj_countable' (λ m, (from m, timestamp_ms m, content m))
            (λ x, Build_MailboxMessage x.1.1 x.1.2 x.2) _).
  by intros [].
Defined.

Definition to_string (m : MailboxMessage) : option str := Some (BitText.to_text m).

Definition from_str (s : str) : option MailboxMessage :=
  m ← BitText.of_text s;
  if decide (- 2 ^ 63 ≤ timestamp_ms m < 2 ^ 63)%Z then Some m else None.

Lemma json_lines : JsonLines to_string from_str.
Proof.
  split.
  - intros m Hm. exists (BitText.to_text m). split_and!; [done| | |].
    + by intros [|[|]]%BitText.to_text_chars.
    + by intros [|[|]]%BitText.to_text_chars.
    + unfold from_str. rewrite BitText.of_to_text. simpl. by rewrite decide_True.
  - intros j m. unfold from_str. intros (m'&_&H)%bind_Some.
    by destruct (decide _); simplify_eq.
Qed.

End BitLines.

Definition sample_ops : list Op :=
  [Send IoOk (Some 5%Z) "alice" "bob" "one"; Send IoOk (Some 6%Z) "alice" "carol" "two";
   Send IoOk None "carol" "bob" "three"; Drain IoOk "bob" 1; Drain IoOk "dave" 1].

Lemma mailbox_refines_queues_witness :
  ∃ w, run BitLines.to_string (store_new [], ∅) sample_ops = w ∧
  w.2 = (queue_run (queue_of (store_new [])) sample_ops).2 ∧ length (queue_of w.1.1 "bob") = 1.
Proof.
  eexists. split; [by vm_compute|]. split; [|by vm_compute].
  refine (proj1 (mailbox_refines_queues BitLines.to_string (store_new []) ∅ sample_ops _ _ _ _ _)).
  - intros p. by vm_compute.
  - vm_compute. reflexivity.
Defined.

Lemma mailbox_survives_restart_witness :
  ∃ w, run BitLines.to_string
         (with_persistence BitLines.from_str ["bob" : str] "/team" (λ _, true) ∅, ∅) sample_ops = w ∧
  mailboxes (with_persistence BitLines.from_str ["bob" : str] "/team" (λ _, true) w.1.2) !! lit "bob"
  = mailboxes w.1.1 !! lit "bob" ∧
  mailboxes (with_persistence BitLines.from_str ["bob" : str] "/team" (λ _, true) w.1.2) !! lit "carol"
  = None.
Proof.
  eexists. split; [reflexivity|].
  pose proof (mailbox_survives_restart BitLines.to_string BitLines.from_str
    ["bob" : str] "/team" (λ _, true) ∅ sample_ops _ _ _ BitLines.json_lines
    ltac:(by_compute) ltac:(by repeat constructor) ltac:(repeat constructor; by left)
    ltac:(repeat constructor; by_compute) (surjective_pairing _)) as H.
  split; [exact (H (lit "bob"))|exact (H (lit "carol"))].
Defined.
