(* ===== verification/Lock.v ===== *)
(** * Process identity and the team directory's lock
    ([crates/core/src/process_identity.rs], [crates/team/src/lock.rs])

    Who holds a lock file is a pid with its start time; whether that process
    is still there is read from the operating system ([Os]: [kill -0], the
    output of [ps], the clock).  [write_lock_file] is modelled twice: as the
    function the code is, and as the system calls it makes one at a time
    ([advance]), so that several processes can be interleaved; the first is
    the second run alone ([write_lock_file_alone]).

    [serde_json] is the parameters [to_string_pretty] and [from_slice] with
    [LockJson].  Arithmetic is what a release build does: it wraps. *)

From stdpp Require Import base option numbers sets gmap strings list.
From S2P Require Import Prelude RustStr.

(** ** The operating system *)

Record Os := {
  unix : bool;
  kill : Z → option Z;         (* [kill(pid, 0)]: [None], or the errno *)
  ps_etime : Z → option str;   (* [ps -o etime= -p pid], when it succeeds *)
  clock : option Z;            (* seconds since the epoch *)
}.

Definition ESRCH : Z := 3.

(** ** [process_identity.rs] *)

Record ProcessIdentity := {
  pid : Z;
  started_at : Z;
}.

Inductive ProcessLiveness := Alive | Reused | Dead | Unknown.
Inductive StaleLockDecision := KeepExisting | Reclaim.

#[export] Instance ProcessLiveness_eq_dec : EqDecision ProcessLiveness.
Proof. solve_decision. Defined.
#[export] Instance StaleLockDecision_eq_dec : EqDecision StaleLockDecision.
Proof. solve_decision. Defined.

Definition pid_alive (os : Os) (p : Z) : option bool :=
  if unix os then
    match kill os (as_i32 p) with
    | None => Some true
    | Some errno => Some (negb (bool_decide (errno = ESRCH)))
    end
  else None.

(** [parse::<i64>]: a sign, decimal digits, no overflow. *)
Fixpoint digits_Z (acc : Z) (s : str) : option Z :=
  match s with
  | [] => Some acc
  | c :: s =>
      if is_ascii_digit c then digits_Z (acc * 10 + (Z.of_N c - 48)) s else None
  end.

Definition parse_i64 (s : str) : option Z :=
  let '(sign, s) :=
    match strip_prefix "-" s with
    | Some r => ((-1)%Z, r)
    | None => (1%Z, match strip_prefix "+" s with Some r => r | None => s end)
    end in
  match s with
  | [] => None
  | _ =>
      v ← digits_Z 0 s;
      let v := (sign * v)%Z in
      if decide (- 2 ^ 63 ≤ v < 2 ^ 63)%Z then Some v else None
  end.

Definition parse_elapsed (s : str) : option Z :=
  '(days, rest) ←
    match split_once (ch "-") s with
    | Some (d, r) => days ← parse_i64 d; Some (days, r)
    | None => Some (0%Z, s)
    end;
  '(hours, minutes, seconds) ←
    match split (ch ":") rest with
    | [h; m; s] => h ← parse_i64 h; m ← parse_i64 m; s ← parse_i64 s; Some (h, m, s)
    | [m; s] => m ← parse_i64 m; s ← parse_i64 s; Some (0%Z, m, s)
    | _ => None
    end;
  Some (as_i64 (days * 86400 + hours * 3600 + minutes * 60 + seconds)).

(** 2000-01-01. *)
Definition FLOOR : Z := 946684800.

Definition plausible (os : Os) (start : Z) : option Z :=
  now ← as_i64 <$> clock os;
  if decide (FLOOR ≤ start ≤ as_i64 (now + 60))%Z then Some start else None.

Definition process_start_time (os : Os) (p : Z) : option Z :=
  if unix os then
    stdout ← ps_etime os p;
    elapsed_secs ← parse_elapsed (trim stdout);
    now ← as_i64 <$> clock os;
    plausible os (as_i64 (now - elapsed_secs))
  else None.

(** [ProcessIdentity::current] in the process [my_pid]. *)
Definition current (os : Os) (my_pid : Z) : ProcessIdentity :=
  Build_ProcessIdentity my_pid (default 0%Z (process_start_time os my_pid)).

Definition START_TIME_TOLERANCE_SECS : Z := 2.

(** [i64::abs]. *)
Definition abs_i64 (x : Z) : Z := as_i64 (Z.abs x).

Definition check (os : Os) (recorded : ProcessIdentity) : ProcessLiveness :=
  match pid_alive os (pid recorded) with
  | Some false => Dead
  | None => Unknown
  | Some true =>
      if decide (started_at recorded = 0)%Z then Unknown
      else match process_start_time os (pid recorded) with
           | Some current_start =>
               if decide (abs_i64 (as_i64 (current_start - started_at recorded))
                          ≤ START_TIME_TOLERANCE_SECS)%Z
               then Alive else Reused
           | None => Unknown
           end
  end.

Definition decide_stale_lock (os : Os) (recorded : ProcessIdentity) : StaleLockDecision :=
  match check os recorded with
  | Alive => KeepExisting
  | Unknown => KeepExisting
  | Reused => Reclaim
  | Dead => Reclaim
  end.

(** ** [lock.rs]: data *)

Record TeamsDirLock := {
  lock_pid : Z;
  pid_start_time : Z;
  instance : str;
  acquired_at : str;
}.

Inductive TeamsDirLockError :=
  | ErrIo
  | ErrLocked (holder_pid : Z) (holder_instance holder_acquired_at : str).

#[export] Instance TeamsDirLock_eq_dec : EqDecision TeamsDirLock.
Proof. solve_decision. Defined.

(** The directory: what [.lock] names, and the files there are.  A file that
    is open stays a file when the name moves to another one. *)
Record LockFile := {
  bytes : str;
  owner_only : bool;
}.

Record LockDir := {
  lock_path : option nat;
  inodes : gmap nat LockFile;
  fresh_inode : nat;
}.

Definition empty_dir : LockDir := Build_LockDir None ∅ 0.

(** The calls that can fail. *)
Inductive Call :=
  | CreateDir | OpenExclusive | WriteBody | ChmodFile | ReadLock
  | WriteTmp | ChmodTmp | Rename | RemoveLock.

(** What one process sees of its surroundings while it takes the lock:
    the system, the time as text, which of its calls fail, and how much a
    failing [write_all] wrote. *)
Record Env := {
  env_os : Os;
  iso_now : str;
  fails : Call → bool;
  short_write : nat;
}.

(** The inode [i] with these contents. *)
Definition set_inode (d : LockDir) (i : nat) (f : LockFile) : LockDir :=
  Build_LockDir (lock_path d) (<[i := f]> (inodes d)) (fresh_inode d).

(** The name moved to a new inode. *)
Definition link_new (d : LockDir) (f : LockFile) : LockDir :=
  Build_LockDir (Some (fresh_inode d)) (<[fresh_inode d := f]> (inodes d)) (S (fresh_inode d)).

Definition unlink (d : LockDir) : LockDir :=
  Build_LockDir None (inodes d) (fresh_inode d).

(** What opening with [create_new] gives. *)
Inductive Opened := OpenedNew (i : nat) | AlreadyExists | OpenFailed.

Definition open_lock_exclusive (env : Env) (d : LockDir) : Opened * LockDir :=
  if fails env OpenExclusive then (OpenFailed, d)
  else match lock_path d with
       | Some _ => (AlreadyExists, d)
       | None => (OpenedNew (fresh_inode d), link_new d (Build_LockFile [] false))
       end.

Definition read_lock (env : Env) (d : LockDir) : option str :=
  if fails env ReadLock then None
  else i ← lock_path d; bytes <$> inodes d !! i.

Section TeamLock.
Context (to_string_pretty : TeamsDirLock → str) (from_slice : str → option TeamsDirLock).

(** The record a process writes. *)
Definition my_lock (env : Env) (my_pid : Z) (inst : str) : TeamsDirLock :=
  let identity := current (env_os env) my_pid in
  Build_TeamsDirLock (pid identity) (started_at identity) inst (iso_now env).

(** The match on what [.lock] holds: the holder to respect, if any. *)
Definition respected_holder (env : Env) (my_pid : Z) (d : LockDir) : option TeamsDirLock :=
  match read_lock env d with
  | Some b =>
      match from_slice b with
      | Some prev =>
          if decide (lock_pid prev ≠ my_pid) then
            match decide_stale_lock (env_os env)
                    (Build_ProcessIdentity (lock_pid prev) (pid_start_time prev)) with
            | KeepExisting => Some prev
            | Reclaim => None
            end
          else None
      | None => None
      end
  | None => None
  end.

(** The temporary file has the process's own name, so only the rename shows. *)
Definition write_lock_file_replacing (env : Env) (body : str) (d : LockDir)
    : bool * LockDir :=
  if fails env WriteTmp then (false, d)
  else if fails env ChmodTmp then (false, d)
  else if fails env Rename then (false, d)
  else (true, link_new d (Build_LockFile body true)).

Definition locked_error (prev : TeamsDirLock) : TeamsDirLockError :=
  ErrLocked (lock_pid prev) (instance prev) (acquired_at prev).

Definition write_lock_file (env : Env) (my_pid : Z) (inst : str) (d : LockDir)
    : result TeamsDirLock TeamsDirLockError * LockDir :=
  if fails env CreateDir then (Err ErrIo, d)
  else
    let lock := my_lock env my_pid inst in
    let body := to_string_pretty lock in
    match open_lock_exclusive env d with
    | (OpenedNew i, d) =>
        if fails env WriteBody
        then (Err ErrIo, set_inode d i (Build_LockFile (take (short_write env) body) false))
        else if fails env ChmodFile
        then (Err ErrIo, set_inode d i (Build_LockFile body false))
        else (Ok lock, set_inode d i (Build_LockFile body true))
    | (OpenFailed, d) => (Err ErrIo, d)
    | (AlreadyExists, d) =>
        match respected_holder env my_pid d with
        | Some prev => (Err (locked_error prev), d)
        | None =>
            match write_lock_file_replacing env body d with
            | (true, d) => (Ok lock, d)
            | (false, d) => (Err ErrIo, d)
            end
        end
    end.

Definition release_lock_file (env : Env) (d : LockDir) : bool * LockDir :=
  if fails env RemoveLock then (false, d)
  else (true, unlink d).

(** ** The same, one system call at a time *)

(** Where a process is in [write_lock_file]. *)
Inductive Pc :=
  | Starting
  | Created (i : nat)      (* [create_new] succeeded; nothing written *)
  | Written (i : nat)      (* the body is written *)
  | Contended              (* the file existed; about to read it *)
  | Taking                 (* decided to overwrite *)
  | Finished (r : result TeamsDirLock TeamsDirLockError).

Definition advance (env : Env) (my_pid : Z) (inst : str) (s : Pc * LockDir) : Pc * LockDir :=
  let '(pc, d) := s in
  let lock := my_lock env my_pid inst in
  let body := to_string_pretty lock in
  match pc with
  | Starting =>
      if fails env CreateDir then (Finished (Err ErrIo), d)
      else match open_lock_exclusive env d with
           | (OpenedNew i, d) => (Created i, d)
           | (OpenFailed, d) => (Finished (Err ErrIo), d)
           | (AlreadyExists, d) => (Contended, d)
           end
  | Created i =>
      if fails env WriteBody
      then (Finished (Err ErrIo),
            set_inode d i (Build_LockFile (take (short_write env) body) false))
      else (Written i, set_inode d i (Build_LockFile body false))
  | Written i =>
      if fails env ChmodFile then (Finished (Err ErrIo), d)
      else (Finished (Ok lock), set_inode d i (Build_LockFile body true))
  | Contended =>
      match respected_holder env my_pid d with
      | Some prev => (Finished (Err (locked_error prev)), d)
      | None => (Taking, d)
      end
  | Taking =>
      match write_lock_file_replacing env body d with
      | (true, d) => (Finished (Ok lock), d)
      | (false, d) => (Finished (Err ErrIo), d)
      end
  | Finished r => (Finished r, d)
  end.

End TeamLock.

(** ** Reading [ps] *)

(** How [ps -o etime=] prints [e] seconds: [[[dd-]hh:]mm:ss]. *)
Fixpoint decimal (fuel : nat) (n : Z) : str :=
  match fuel with
  | 0 => []
  | S fuel =>
      if decide (n < 10)%Z then [Z.to_N (48 + n)]
      else decimal fuel (n / 10) ++ [Z.to_N (48 + n `mod` 10)]
  end.

Definition pad2 (n : Z) : str :=
  if decide (n < 10)%Z then [48%N; Z.to_N (48 + n)] else decimal 20 n.

Definition show_etime (e : Z) : str :=
  let days := (e / 86400)%Z in
  let hours := ((e / 3600) `mod` 24)%Z in
  let minutes := ((e / 60) `mod` 60)%Z in
  let seconds := (e `mod` 60)%Z in
  let mmss := pad2 minutes ++ ch ":" :: pad2 seconds in
  if decide (0 < days)%Z then pad2 days ++ ch "-" :: pad2 hours ++ ch ":" :: mmss
  else if decide (0 < hours)%Z then pad2 hours ++ ch ":" :: mmss
  else mmss.

Definition digits (s : str) : Prop := Forall (λ c, is_ascii_digit c = true) s.

Lemma digits_Z_snoc acc s c :
  is_ascii_digit c = true →
  digits_Z acc (s ++ [c]) = (λ v, v * 10 + (Z.of_N c - 48))%Z <$> digits_Z acc s.
Proof.
  intros Hc. revert acc. induction s as [|x s IH]; intros acc; simpl.
  - by rewrite Hc.
  - destruct (is_ascii_digit x); [apply IH|done].
Qed.

Lemma digit_char n : (0 ≤ n < 10)%Z →
  is_ascii_digit (Z.to_N (48 + n)) = true ∧ (Z.of_N (Z.to_N (48 + n)) - 48 = n)%Z.
Proof. intros Hn. unfold is_ascii_digit. split; [apply bool_decide_eq_true|]; lia. Qed.

Lemma decimal_digits fuel n : (0 ≤ n < 10 ^ Z.of_nat fuel)%Z →
  digits (decimal fuel n) ∧ digits_Z 0 (decimal fuel n) = Some n.
Proof.
  revert n. induction fuel as [|fuel IH]; intros n Hn.
  { simpl in *. split; [constructor|]. f_equal. lia. }
  rewrite Nat2Z.inj_succ, Z.pow_succ_r in Hn by lia. simpl.
  destruct (decide (n < 10)%Z).
  - destruct (digit_char n) as [Hd Hv]; [lia|].
    split; [by repeat constructor|]. cbn [digits_Z]. rewrite Hd. f_equal. lia.
  - pose proof (Z.mod_pos_bound n 10 ltac:(lia)).
    destruct (digit_char (n `mod` 10)) as [Hd Hv]; [lia|].
    destruct (IH (n / 10)%Z) as [Hds Hval]; [split; [apply Z.div_pos|apply Z.div_lt_upper_bound]; lia|].
    split; [apply Forall_app; by repeat constructor|].
    rewrite digits_Z_snoc, Hval, Hv by done. simpl. f_equal.
    pose proof (Z.div_mod n 10 ltac:(lia)). lia.
Qed.

Lemma pad2_digits n : (0 ≤ n < 10 ^ 20)%Z →
  digits (pad2 n) ∧ digits_Z 0 (pad2 n) = Some n.
Proof.
  intros Hn. unfold pad2. destruct (decide (n < 10)%Z); [|by apply (decimal_digits 20)].
  destruct (digit_char n) as [Hd Hv]; [lia|].
  split; [repeat constructor; done|]. cbn [digits_Z]. rewrite Hd.
  change (is_ascii_digit 48%N) with true. cbn [digits_Z]. f_equal. lia.
Qed.

Lemma pad2_not_nil n : pad2 n ≠ [].
Proof.
  unfold pad2. destruct (decide _); [done|]. cbn [decimal].
  destruct (decide _); [done|]. by intros [_ ?]%app_nil.
Qed.

Lemma digits_not_elem c s : is_ascii_digit c = false → digits s → c ∉ s.
Proof. intros Hc Hs Hin. unfold digits in Hs. rewrite Forall_forall in Hs. specialize (Hs c Hin). congruence. Qed.

Lemma strip_char_digits c s : is_ascii_digit c = false → digits s → strip_prefix [c] s = None.
Proof.
  intros Hc Hs. destruct (strip_prefix [c] s) as [r|] eqn:E; [|done].
  apply strip_prefix_Some in E. subst. apply (digits_not_elem _ _ Hc) in Hs. destruct Hs. left.
Qed.

Lemma parse_i64_pad2 n : (0 ≤ n < 2 ^ 63)%Z → parse_i64 (pad2 n) = Some n.
Proof.
  intros Hn. destruct (pad2_digits n) as [Hd Hv]; [lia|].
  unfold parse_i64. change (lit "-") with [45%N]. change (lit "+") with [43%N].
  rewrite !strip_char_digits by done.
  pose proof (pad2_not_nil n). destruct (pad2 n) as [|x s] eqn:E; [done|].
  rewrite Hv. cbn [mbind option_bind].
  rewrite decide_True by lia. f_equal. lia.
Qed.

(** The shape [parse_elapsed] splits. *)
Lemma parse_elapsed_parts (o : option Z) (h m sec : Z) (ho : option Z) :
  h = default 0%Z ho →
  (0 ≤ default 0%Z o < 2 ^ 63 ∧ 0 ≤ h < 2 ^ 63 ∧ 0 ≤ m < 2 ^ 63 ∧ 0 ≤ sec < 2 ^ 63)%Z →
  parse_elapsed ((match o with Some d => pad2 d ++ [ch "-"] | None => [] end) ++
                 (match ho with Some h => pad2 h ++ [ch ":"] | None => [] end) ++
                 pad2 m ++ ch ":" :: pad2 sec)
  = Some (as_i64 (default 0%Z o * 86400 + h * 3600 + m * 60 + sec)).
Proof.
  intros -> (Ho&Hh&Hm&Hs).
  assert (Hno : ∀ c n, is_ascii_digit c = false → (0 ≤ n < 2 ^ 63)%Z → c ∉ pad2 n).
  { intros c n Hc Hn. apply digits_not_elem; [done|]. apply pad2_digits. lia. }
  assert (Hd : is_ascii_digit (ch "-") = false) by done.
  assert (Hc : is_ascii_digit (ch ":") = false) by done.
  assert (Hdc : ch "-" ≠ ch ":") by done.
  unfold parse_elapsed.
  set (rest := (match ho with Some h => _ | None => _ end) ++ _).
  assert (Hrest : ch "-" ∉ rest).
  { unfold rest. destruct ho; rewrite ?elem_of_app, ?elem_of_cons, ?elem_of_nil;
      naive_solver. }
  assert (Hsplit : match split (ch ":") rest with
    | [h; m; s] => h ← parse_i64 h; m ← parse_i64 m; s ← parse_i64 s; Some (h, m, s)
    | [m; s] => m ← parse_i64 m; s ← parse_i64 s; Some (0%Z, m, s)
    | _ => None
    end = Some (default 0%Z ho, m, sec)).
  { unfold rest. destruct ho as [h|]; simpl in Hh.
    - rewrite <-app_assoc. cbn [app]. rewrite split_app, split_app, split_no_sep by auto.
      rewrite !parse_i64_pad2 by done. done.
    - cbn [app]. rewrite split_app, split_no_sep by auto.
      rewrite !parse_i64_pad2 by done. done. }
  destruct o as [d|]; simpl in Ho.
  - rewrite <-app_assoc. cbn [app].
    rewrite (proj2 (split_once_Some _ _ (pad2 d) rest)) by auto.
    rewrite parse_i64_pad2 by done. cbn [mbind option_bind]. rewrite Hsplit. done.
  - cbn [app]. rewrite (proj2 (split_once_None _ rest)) by done.
    cbn [mbind option_bind]. rewrite Hsplit. done.
Qed.

(** Reading back what [ps] printed. *)
Lemma parse_elapsed_show e : (0 ≤ e < 2 ^ 62)%Z → parse_elapsed (show_etime e) = Some e.
Proof.
  intros He.
  pose proof (Z.mod_pos_bound e 60 ltac:(lia)).
  pose proof (Z.mod_pos_bound (e / 60) 60 ltac:(lia)).
  pose proof (Z.mod_pos_bound (e / 3600) 24 ltac:(lia)).
  assert (Hd : (0 ≤ e / 86400 < 2 ^ 62)%Z)
    by (split; [apply Z.div_pos|apply Z.div_lt_upper_bound]; lia).
  assert (Hsum : (e = e / 86400 * 86400 + (e / 3600) mod 24 * 3600 + (e / 60) mod 60 * 60 + e mod 60)%Z).
  { replace (e / 86400)%Z with (e / 60 / 60 / 24)%Z by (rewrite !Z.div_div by lia; done).
    replace (e / 3600)%Z with (e / 60 / 60)%Z by (rewrite Z.div_div by lia; done).
    pose proof (Z.div_mod e 60 ltac:(lia)). pose proof (Z.div_mod (e / 60) 60 ltac:(lia)).
    pose proof (Z.div_mod (e / 60 / 60) 24 ltac:(lia)). lia. }
  unfold show_etime. destruct (decide (0 < _)%Z) as [Hpos|Hz]; [|destruct (decide (0 < (e / 3600) mod 24)%Z)].
  - pose proof (parse_elapsed_parts (Some (e / 86400)) _ ((e / 60) mod 60) (e mod 60)
      (Some ((e / 3600) mod 24)) eq_refl)%Z as Hp.
    cbv beta iota in Hp. rewrite <-!app_assoc in Hp. cbn [app] in Hp. rewrite Hp by (simpl; lia).
    cbn [default from_option id]. rewrite <-Hsum. f_equal. apply as_i64_id. unfold in_i64. lia.
  - pose proof (parse_elapsed_parts None _ ((e / 60) mod 60) (e mod 60)
      (Some ((e / 3600) mod 24)) eq_refl)%Z as Hp.
    cbv beta iota in Hp. rewrite <-!app_assoc in Hp. cbn [app] in Hp. rewrite Hp by (simpl; lia).
    cbn [default from_option id]. f_equal. rewrite as_i64_id; unfold in_i64; lia.
  - pose proof (parse_elapsed_parts None _ ((e / 60) mod 60) (e mod 60) None eq_refl)%Z as Hp.
    cbn [app] in Hp. rewrite Hp by (simpl; lia).
    cbn [default from_option id]. f_equal. rewrite as_i64_id; unfold in_i64; lia.
Qed.

(** ** Staleness *)

Lemma plausible_Some os start cur :
  plausible os start = Some cur → cur = start ∧ (FLOOR ≤ cur)%Z.
Proof.
  unfold plausible. intros (now&_&H)%bind_Some. destruct (decide _); [|done].
  simplify_eq. lia.
Qed.

Lemma process_start_time_range os p cur :
  process_start_time os p = Some cur → (FLOOR ≤ cur < 2 ^ 63)%Z.
Proof.
  unfold process_start_time. destruct (unix os); [|done].
  intros (out&_&(e&_&(now&_&H)%bind_Some)%bind_Some)%bind_Some.
  apply plausible_Some in H as [-> ?]. split; [done|]. apply as_i64_in.
Qed.

Lemma current_range os p : in_i64 (started_at (current os p)).
Proof.
  unfold current, in_i64; simpl. destruct (process_start_time os p) eqn:E; simpl; [|lia].
  apply process_start_time_range in E. unfold FLOOR in E. lia.
Qed.

(** No wrap-around happens between two start times. *)
Lemma start_difference cur start :
  (FLOOR ≤ cur < 2 ^ 63)%Z → (0 ≤ start < 2 ^ 63)%Z →
  abs_i64 (as_i64 (cur - start)) = Z.abs (cur - start).
Proof.
  unfold FLOOR, abs_i64. intros. rewrite (as_i64_id (cur - start)) by (unfold in_i64; lia).
  apply as_i64_id. unfold in_i64. lia.
Qed.

(** The system's view of a process that started at [start] and still runs:
    it can be signalled, and [ps], if it answers, prints the time since, up
    to the tolerance. *)
Definition seen_running (os : Os) (p start : Z) : Prop :=
  unix os = true →
  kill os (as_i32 p) = None ∧
  (start = 0%Z ∨ ps_etime os p = None ∨
   ∃ now e l r,
     clock os = Some now ∧
     ps_etime os p = Some (l ++ show_etime e ++ r) ∧
     Forall (λ c, is_whitespace c = true) l ∧ Forall (λ c, is_whitespace c = true) r ∧
     (0 ≤ e ≤ now)%Z ∧ (now < 2 ^ 62)%Z ∧
     (Z.abs (now - e - start) ≤ START_TIME_TOLERANCE_SECS)%Z ∧ (0 ≤ start)%Z).

Lemma pad2_visible n : (0 ≤ n < 10 ^ 20)%Z → Forall (λ c, is_whitespace c = false) (pad2 n).
Proof.
  intros Hn. eapply Forall_impl; [exact (proj1 (pad2_digits n Hn))|].
  intros c Hc. unfold is_ascii_digit in Hc. apply bool_decide_eq_true in Hc.
  unfold is_whitespace. rewrite !bool_decide_eq_false_2 by lia. done.
Qed.

Lemma show_etime_visible e : (0 ≤ e < 2 ^ 62)%Z →
  show_etime e ≠ [] ∧ Forall (λ c, is_whitespace c = false) (show_etime e).
Proof.
  intros He.
  pose proof (Z.mod_pos_bound e 60 ltac:(lia)).
  pose proof (Z.mod_pos_bound (e / 60) 60 ltac:(lia)).
  pose proof (Z.mod_pos_bound (e / 3600) 24 ltac:(lia)).
  assert (Hd : (0 ≤ e / 86400 < 2 ^ 62)%Z)
    by (split; [apply Z.div_pos|apply Z.div_lt_upper_bound]; lia).
  unfold show_etime. split.
  - repeat case_decide; intros [Hp _]%app_nil; by apply pad2_not_nil in Hp.
  - assert (Hdash : is_whitespace (ch "-") = false) by done.
    assert (Hcolon : is_whitespace (ch ":") = false) by done.
    repeat case_decide; repeat (rewrite Forall_app || rewrite Forall_cons);
      split_and!; first [done|apply pad2_visible; lia].
Qed.

Lemma seen_running_start os p now e l r :
  unix os = true → clock os = Some now →
  ps_etime os p = Some (l ++ show_etime e ++ r) →
  Forall (λ c, is_whitespace c = true) l → Forall (λ c, is_whitespace c = true) r →
  (0 ≤ e ≤ now)%Z → (now < 2 ^ 62)%Z →
  process_start_time os p = plausible os (now - e).
Proof.
  intros Hu Hc Hps Hl Hr He Hn. unfold process_start_time. rewrite Hu, Hps, Hc.
  destruct (show_etime_visible e) as [Hne Hvis]; [lia|].
  cbn [mbind option_bind]. rewrite trim_surrounded, parse_elapsed_show by (done || lia).
  cbn [mbind option_bind fmap option_fmap option_map].
  rewrite !as_i64_id; [done|unfold in_i64; lia..| ].
  rewrite as_i64_id; unfold in_i64; lia.
Qed.

(** A holder that runs is not taken for a stale one. *)
Lemma running_is_kept os p start :
  seen_running os p start → decide_stale_lock os (Build_ProcessIdentity p start) = KeepExisting.
Proof.
  intros Hrun. unfold decide_stale_lock, check, pid_alive; simpl.
  destruct (unix os) eqn:Hu; [|done].
  destruct (Hrun Hu) as [-> Hps].
  destruct (decide (start = 0%Z)); [done|].
  destruct Hps as [?|[Hps|(now&e&l&r&Hc&Hps&Hl&Hr&He&Hn&Hnear&Hs)]]; [done| |].
  - unfold process_start_time. by rewrite Hu, Hps.
  - rewrite (seen_running_start os p now e l r) by done.
    destruct (plausible os (now - e)) as [cur|] eqn:E; [|done].
    apply plausible_Some in E as [-> Hf].
    unfold START_TIME_TOLERANCE_SECS in *.
    rewrite start_difference by lia. by rewrite decide_True.
Qed.

(** ** One process running alone *)

Section Exclusion.
Context (to_string_pretty : TeamsDirLock → str) (from_slice : str → option TeamsDirLock).

Lemma set_inode_twice d i f g : set_inode (set_inode d i f) i g = set_inode d i g.
Proof. unfold set_inode; simpl. by rewrite insert_insert_eq. Qed.

(** The system calls of one process, uninterrupted, are [write_lock_file]. *)
Lemma write_lock_file_alone env my_pid inst d :
  Nat.iter 3 (advance to_string_pretty from_slice env my_pid inst) (Starting, d) =
  let '(r, d') := write_lock_file to_string_pretty from_slice env my_pid inst d in
  (Finished r, d').
Proof.
  unfold write_lock_file, advance. cbn [Nat.iter nat_rect].
  destruct (fails env CreateDir); [done|].
  destruct (open_lock_exclusive env d) as [[i| |] d1]; [|  |done].
  - destruct (fails env WriteBody); [done|].
    destruct (fails env ChmodFile); [done|]. by rewrite set_inode_twice.
  - destruct (respected_holder _ _ _ _); [done|].
    destruct (write_lock_file_replacing _ _ _) as [[] ?]; done.
Qed.

(** ** A team of processes *)

(** The directory, and the processes that hold the lock with their records. *)
Record Team := {
  team_dir : LockDir;
  holders : gmap Z TeamsDirLock;
}.

Definition new_team : Team := Build_Team empty_dir ∅.

Inductive Event :=
  | Acquire (p : Z) (env : Env) (inst : str)
  | Release (p : Z) (env : Env)
  | Exit (p : Z).

(** One event, each call of [lock.rs] uninterrupted.  Only a holder
    releases; a process that exits leaves its file behind. *)
Definition team_step (t : Team) (e : Event) : Team :=
  match e with
  | Acquire p env inst =>
      match write_lock_file to_string_pretty from_slice env p inst (team_dir t) with
      | (Ok l, d) => Build_Team d (<[p := l]> (holders t))
      | (Err _, d) => Build_Team d (holders t)
      end
  | Release p env =>
      match holders t !! p with
      | Some _ =>
          match release_lock_file env (team_dir t) with
          | (true, d) => Build_Team d (delete p (holders t))
          | (false, d) => Build_Team d (holders t)
          end
      | None => t
      end
  | Exit p => Build_Team (team_dir t) (delete p (holders t))
  end.

(** A process that takes the lock has a pid, can read the file, and sees the
    other holders running. *)
Definition sound_event (t : Team) (e : Event) : Prop :=
  match e with
  | Acquire p env _ =>
      (0 ≤ p < 2 ^ 32)%Z ∧ fails env ReadLock = false ∧
      ∀ q l, holders t !! q = Some l → q ≠ p →
        seen_running (env_os env) q (pid_start_time l)
  | _ => True
  end.

Inductive team_reachable : Team → Prop :=
  | team_start : team_reachable new_team
  | team_next t e : team_reachable t → sound_event t e → team_reachable (team_step t e).

End Exclusion.

(** What the lock relies on of [serde_json]: records read back, and no
    record is the empty text. *)
Record LockJson (to_string_pretty : TeamsDirLock → str)
    (from_slice : str → option TeamsDirLock) : Prop := {
  lock_roundtrip : ∀ l, (0 ≤ lock_pid l < 2 ^ 32)%Z → in_i64 (pid_start_time l) →
    from_slice (to_string_pretty l) = Some l;
  empty_is_no_record : from_slice [] = None;
}.

Section ExclusionProof.
Context (to_string_pretty : TeamsDirLock → str) (from_slice : str → option TeamsDirLock).
Context (Hjson : LockJson to_string_pretty from_slice).

(** The file holds this record. *)
Definition recorded (d : LockDir) (l : TeamsDirLock) : Prop :=
  ∃ i f, lock_path d = Some i ∧ inodes d !! i = Some f ∧ bytes f = to_string_pretty l.

Definition holder_ok (d : LockDir) (p : Z) (l : TeamsDirLock) : Prop :=
  lock_pid l = p ∧ (0 ≤ p < 2 ^ 32)%Z ∧ in_i64 (pid_start_time l) ∧ recorded d l.

Definition team_ok (t : Team) : Prop :=
  ∀ p l, holders t !! p = Some l → holder_ok (team_dir t) p l.

Lemma recorded_unique d l m :
  (0 ≤ lock_pid l < 2 ^ 32)%Z → in_i64 (pid_start_time l) →
  (0 ≤ lock_pid m < 2 ^ 32)%Z → in_i64 (pid_start_time m) →
  recorded d l → recorded d m → l = m.
Proof.
  intros ???? (i&f&Hi&Hf&Hl) (i'&f'&Hi'&Hf'&Hm). simplify_eq.
  assert (Some l = Some m) as [= ->]; [|done].
  rewrite <-(lock_roundtrip _ _ Hjson l), <-(lock_roundtrip _ _ Hjson m) by done. congruence.
Qed.

Lemma team_ok_unique t p q l m :
  team_ok t → holders t !! p = Some l → holders t !! q = Some m → p = q.
Proof.
  intros Ht Hp Hq. apply Ht in Hp as (<-&?&?&?), Hq as (<-&?&?&?).
  by rewrite (recorded_unique (team_dir t) l m).
Qed.

(** A process that meets another running holder's record is refused. *)
Lemma other_holder_refuses env p inst d q l r d' :
  holder_ok d q l → q ≠ p → fails env ReadLock = false →
  seen_running (env_os env) q (pid_start_time l) →
  write_lock_file to_string_pretty from_slice env p inst d = (r, d') →
  (∃ e, r = Err e) ∧ d' = d.
Proof.
  intros (Hpid&Hq&Hst&(i&f&Hi&Hf&Hb)) Hne Hread Hrun. unfold write_lock_file, open_lock_exclusive.
  destruct (fails env CreateDir); [intros [= <- <-]; eauto|].
  destruct (fails env OpenExclusive); [intros [= <- <-]; eauto|]. rewrite Hi.
  unfold respected_holder, read_lock. rewrite Hread, Hi. cbn [mbind option_bind].
  rewrite Hf. cbn [fmap option_fmap option_map].
  rewrite Hb, (lock_roundtrip _ _ Hjson) by (by rewrite ?Hpid).
  rewrite decide_True by (by rewrite Hpid).
  rewrite Hpid, running_is_kept by done. intros [= <- <-]. eauto.
Qed.

Lemma my_lock_ok env p inst d :
  (0 ≤ p < 2 ^ 32)%Z → recorded d (my_lock env p inst) → holder_ok d p (my_lock env p inst).
Proof. intros Hp Hd. split_and!; [done|lia..|apply current_range|done]. Qed.

(** A process that got the lock wrote its record; one that did not left a
    record that was there. *)
Lemma write_lock_file_records env p inst d r d' :
  write_lock_file to_string_pretty from_slice env p inst d = (r, d') →
  match r with
  | Ok l => l = my_lock env p inst ∧ recorded d' l
  | Err _ => ∀ l, recorded d l → recorded d' l
  end.
Proof.
  unfold write_lock_file, open_lock_exclusive, write_lock_file_replacing.
  destruct (fails env CreateDir); [by intros [= <- <-]|].
  destruct (fails env OpenExclusive); [by intros [= <- <-]|].
  destruct (lock_path d) as [i|] eqn:Hi.
  - destruct (respected_holder _ _ _ _); [by intros [= <- <-]|].
    destruct (fails env WriteTmp); [by intros [= <- <-]|].
    destruct (fails env ChmodTmp); [by intros [= <- <-]|].
    destruct (fails env Rename); [by intros [= <- <-]|].
    intros [= <- <-]. split; [done|]. eexists _, _. split_and!; [done|apply lookup_insert_eq|done].
  - assert (Hno : ∀ l, ¬ recorded d l) by (intros l (i&f&H&_); congruence).
    destruct (fails env WriteBody); [intros [= <- <-] l Hl; by apply Hno in Hl|].
    destruct (fails env ChmodFile); [intros [= <- <-] l Hl; by apply Hno in Hl|].
    intros [= <- <-]. split; [done|]. eexists _, _. split_and!; [done|apply lookup_insert_eq|done].
Qed.

Lemma team_step_ok t e :
  team_ok t → sound_event t e → team_ok (team_step to_string_pretty from_slice t e).
Proof.
  intros Ht He. destruct e as [p env inst|p env|p]; cbn [team_step].
  - destruct He as (Hp&Hread&Hrun).
    destruct (write_lock_file _ _ _ _ _ _) as [r d'] eqn:E.
    destruct (decide (map_Forall (λ q _, q = p) (holders t))) as [Hall|Hother].
    + pose proof (write_lock_file_records _ _ _ _ _ _ E) as Hrec. destruct r as [l|err].
      * destruct Hrec as [-> Hrec]. intros q m Hq. simpl in Hq.
        destruct (decide (q = p)) as [->|Hne].
        { rewrite lookup_insert_eq in Hq. simplify_eq. by apply my_lock_ok. }
        rewrite lookup_insert_ne in Hq by done. by apply Hall in Hq.
      * intros q m Hq. destruct (Ht q m Hq) as (?&?&?&?). split_and!; auto; lia.
    + apply map_not_Forall in Hother as (q&l&Hq&Hne); [|intros ??; apply _].
      apply (other_holder_refuses _ _ _ _ q l) in E as [[err ->] ->]; auto.
  - destruct (holders t !! p) eqn:Hp; [|done].
    unfold release_lock_file. destruct (fails env RemoveLock); [done|].
    intros q m Hq. cbn [holders] in Hq. apply lookup_delete_Some in Hq as [Hne Hq].
    destruct Hne. by eapply team_ok_unique.
  - intros q m Hq. cbn [holders] in Hq. apply lookup_delete_Some in Hq as [_ Hq]. by apply Ht.
Qed.

Lemma team_reachable_ok t : team_reachable to_string_pretty from_slice t → team_ok t.
Proof. induction 1; [done|by apply team_step_ok]. Qed.

End ExclusionProof.

(** ** Several processes at once *)

Section Interleaving.
Context (to_string_pretty : TeamsDirLock → str) (from_slice : str → option TeamsDirLock).
Context (procs : Z → Env * str).

(** One system call of process [p]. *)
Definition proc_step (s : gmap Z Pc * LockDir) (p : Z) : gmap Z Pc * LockDir :=
  let '(pcs, d) := s in
  let '(env, inst) := procs p in
  let '(pc, d) :=
    advance to_string_pretty from_slice env p inst (default Starting (pcs !! p), d) in
  (<[p := pc]> pcs, d).

Definition run_schedule (sched : list Z) (d : LockDir) : gmap Z Pc * LockDir :=
  foldl proc_step (∅, d) sched.

Definition holds (s : gmap Z Pc * LockDir) (p : Z) : Prop :=
  ∃ l, s.1 !! p = Some (Finished (Ok l)).

Lemma proc_step_to pcs d p pc d' :
  advance to_string_pretty from_slice (procs p).1 p (procs p).2
    (default Starting (pcs !! p), d) = (pc, d') →
  proc_step (pcs, d) p = (<[p := pc]> pcs, d').
Proof. unfold proc_step. destruct (procs p); simpl. by intros ->. Qed.

(** The system calls of a process none of whose calls fails. *)
Section NoFailure.
Context (p : Z) (Hio : ∀ c, fails (procs p).1 c = false).

Local Notation step_p := (advance to_string_pretty from_slice (procs p).1 p (procs p).2).
Local Notation lock_p := (my_lock (procs p).1 p (procs p).2).

Lemma advance_free d :
  lock_path d = None →
  step_p (Starting, d) = (Created (fresh_inode d), link_new d (Build_LockFile [] false)).
Proof. intros Hd. unfold advance, open_lock_exclusive. by rewrite !Hio, Hd. Qed.

Lemma advance_taken d i : lock_path d = Some i → step_p (Starting, d) = (Contended, d).
Proof. intros Hd. unfold advance, open_lock_exclusive. by rewrite !Hio, Hd. Qed.

Lemma advance_torn d i f :
  lock_path d = Some i → inodes d !! i = Some f → from_slice (bytes f) = None →
  step_p (Contended, d) = (Taking, d).
Proof.
  intros Hd Hf Hb. unfold advance, respected_holder, read_lock. rewrite !Hio, Hd.
  cbn [mbind option_bind]. rewrite Hf. cbn [fmap option_fmap option_map]. by rewrite Hb.
Qed.

Lemma advance_replace d :
  step_p (Taking, d) =
  (Finished (Ok lock_p), link_new d (Build_LockFile (to_string_pretty lock_p) true)).
Proof. unfold advance, write_lock_file_replacing. by rewrite !Hio. Qed.

Lemma advance_write d i :
  step_p (Created i, d) =
  (Written i, set_inode d i (Build_LockFile (to_string_pretty lock_p) false)).
Proof. unfold advance. by rewrite !Hio. Qed.

Lemma advance_chmod d i :
  step_p (Written i, d) =
  (Finished (Ok lock_p), set_inode d i (Build_LockFile (to_string_pretty lock_p) true)).
Proof. unfold advance. by rewrite !Hio. Qed.

End NoFailure.

End Interleaving.

(** ** Properties *)

(** A recorded holder is displaced exactly when the system confirms it
    gone: its pid does not exist, or belongs to a process whose start time,
    read from [ps], is more than two seconds off the recorded one.  Whatever
    cannot be determined keeps the holder. *)
Theorem reclaimed_iff_gone os r :
  (0 ≤ started_at r < 2 ^ 63)%Z →
  decide_stale_lock os r = Reclaim ↔
  unix os = true ∧
  (kill os (as_i32 (pid r)) = Some ESRCH ∨
   kill os (as_i32 (pid r)) ≠ Some ESRCH ∧ started_at r ≠ 0%Z ∧
   ∃ cur, process_start_time os (pid r) = Some cur ∧ (2 < Z.abs (cur - started_at r))%Z).
Proof.
  intros Hr. unfold decide_stale_lock, check, pid_alive.
  destruct (unix os); [|naive_solver].
  assert (Hlive : ∀ o : option Z,
    match o with None => Some true | Some e => Some (negb (bool_decide (e = ESRCH))) end =
    Some (negb (bool_decide (o = Some ESRCH)))).
  { intros [e|]; [|done]. do 2 f_equal. apply bool_decide_ext. naive_solver. }
  rewrite Hlive. case_bool_decide as Hk; simpl; [naive_solver|].
  destruct (decide (started_at r = 0%Z)); [naive_solver|].
  destruct (process_start_time os (pid r)) as [cur|] eqn:E; [|naive_solver].
  apply process_start_time_range in E. rewrite start_difference by done.
  unfold START_TIME_TOLERANCE_SECS. destruct (decide _); [|naive_solver lia].
  split; [done|]. intros (_&[|(_&_&cur'&[= <-]&?)]); [done|lia].
Qed.

(** Run one at a time, the calls of [lock.rs] exclude each other: from
    an empty directory, through any acquisitions, releases, failed calls and
    exits without a release, at most one running process holds the lock, and
    the file is its record. *)
Theorem one_holder_at_a_time to_string_pretty from_slice t p q l m :
  LockJson to_string_pretty from_slice →
  team_reachable to_string_pretty from_slice t →
  holders t !! p = Some l → holders t !! q = Some m →
  p = q ∧ recorded to_string_pretty (team_dir t) l.
Proof.
  intros Hjson Ht%team_reachable_ok Hp Hq; [|done]. split.
  - by eapply team_ok_unique.
  - by apply Ht in Hp as (_&_&_&?).
Qed.

(** Interleaved, they do not: two processes that start together on an
    empty directory, in whatever surroundings their calls do not fail in, can
    both be told they hold the lock.  The second meets the file the first
    created and has not written, takes the empty text for a stale record and
    replaces it; the first then writes to the file it still has open. *)
Theorem two_processes_can_hold to_string_pretty from_slice procs p q :
  p ≠ q → from_slice [] = None →
  (∀ r c, fails (procs r).1 c = false) →
  let s := run_schedule to_string_pretty from_slice procs [p; q; q; q; p; p] empty_dir in
  holds s p ∧ holds s q ∧
  recorded to_string_pretty s.2 (my_lock (procs q).1 q (procs q).2).
Proof.
  intros Hpq Hempty Hio s.
  assert (Hs : s = (<[p := Finished (Ok (my_lock (procs p).1 p (procs p).2))]>
                    (<[p := Written 0]>
                     (<[q := Finished (Ok (my_lock (procs q).1 q (procs q).2))]>
                      (<[q := Taking]> (<[q := Contended]> {[p := Created 0]})))),
                    s.2) ∧
               lock_path s.2 = Some 1 ∧
               inodes s.2 !! 1 =
                 Some (Build_LockFile (to_string_pretty (my_lock (procs q).1 q (procs q).2)) true)).
  { unfold s, run_schedule. cbn [foldl].
    erewrite proc_step_to by (rewrite lookup_empty; by apply advance_free).
    erewrite proc_step_to by (rewrite lookup_insert_ne, lookup_empty by done;
      by apply advance_taken with 0).
    erewrite proc_step_to by (rewrite lookup_insert_eq; eapply advance_torn; done).
    erewrite proc_step_to by (rewrite lookup_insert_eq; by apply advance_replace).
    erewrite proc_step_to by (rewrite !lookup_insert_ne, lookup_insert_eq by done;
      by apply advance_write).
    erewrite proc_step_to by (rewrite lookup_insert_eq; by apply advance_chmod).
    split; [done|]. split; [done|]. cbn [set_inode link_new inodes fresh_inode empty_dir snd].
    by rewrite !lookup_insert_ne, lookup_insert_eq by done. }
  destruct Hs as (Hs&Hpath&Hino). split_and!.
  - rewrite Hs. eexists. apply lookup_insert_eq.
  - rewrite Hs. eexists. cbn [fst]. rewrite !lookup_insert_ne by done. apply lookup_insert_eq.
  - by eexists 1, _.
Qed.

(** ** Witnesses *)

Module BitLock.

#[export] Instance TeamsDirLock_countable : Countable TeamsDirLock.
Proof.
  refine (inj_countable' (λ l, (lock_pid l, pid_start_time l, instance l, acquired_at l))
            (λ x, Build_TeamsDirLock x.1.1.1 x.1.1.2 x.1.2 x.2) _).
  by intros [].
Defined.

Definition to_string_pretty (l : TeamsDirLock) : str := BitText.to_text l.
Definition from_slice (s : str) : option TeamsDirLock := BitText.of_text s.

Lemma lock_json : LockJson to_string_pretty from_slice.
Proof. split; [|done]. intros l _ _. apply BitText.of_to_text. Qed.

End BitLock.

(** Everybody runs and started a minute ago. *)
Definition quiet_os : Os :=
  Build_Os true (λ _, None) (λ _, Some (lit "   01:00")) (Some 1700000000%Z).

Definition quiet_env : Env := Build_Env quiet_os "2024-01-01T00:00:00Z" (λ _, false) 0.

Lemma reclaimed_iff_gone_witness :
  decide_stale_lock quiet_os (Build_ProcessIdentity 7 1600000000) = Reclaim.
Proof.
  refine (proj2 (reclaimed_iff_gone quiet_os (Build_ProcessIdentity 7 1600000000) _) _).
  - by_compute.
  - split; [done|]. right. split; [done|]. split; [done|].
    exists 1699999940%Z. split; [vm_compute; reflexivity|by_compute].
Defined.

Definition sample_team : Team :=
  team_step BitLock.to_string_pretty BitLock.from_slice
    (team_step BitLock.to_string_pretty BitLock.from_slice new_team
       (Acquire 7 quiet_env "desktop"))
    (Acquire 8 quiet_env "cli").

Lemma one_holder_at_a_time_witness :
  ∃ l, holders sample_team !! 7%Z = Some l ∧ holders sample_team !! 8%Z = None ∧
       recorded BitLock.to_string_pretty (team_dir sample_team) l.
Proof.
  eexists. split; [vm_compute; reflexivity|]. split; [vm_compute; reflexivity|].
  refine (proj2 (one_holder_at_a_time BitLock.to_string_pretty BitLock.from_slice sample_team
    7 7 _ _ BitLock.lock_json _ _ _)); [|vm_compute; reflexivity..].
  apply team_next; [apply team_next; [apply team_start|]|].
  - split; [lia|]. split; [done|]. by intros q l Hq.
  - split; [lia|]. split; [done|]. intros q l Hq _ _. split; [done|]. right. right.
    exists 1700000000%Z, 60%Z, (lit "   "), []. split; [done|]. split; [by vm_compute|].
    split; [by repeat constructor|]. split; [constructor|].
    assert (q = 7%Z ∧ pid_start_time l = 1699999940%Z) as [-> ->].
    { destruct (decide (q = 7%Z)) as [->|Hne].
      - vm_compute in Hq. by injection Hq as <-.
      - change (holders _) with
          (<[7%Z := my_lock quiet_env 7 "desktop"]> (∅ : gmap Z TeamsDirLock)) in Hq.
        by rewrite lookup_insert_ne in Hq. }
    unfold START_TIME_TOLERANCE_SECS. lia.
Defined.

Lemma two_processes_can_hold_witness :
  holds (run_schedule BitLock.to_string_pretty BitLock.from_slice
           (λ _, (quiet_env, lit "cli")) [7; 8; 8; 8; 7; 7]%Z empty_dir) 8.
Proof.
  refine (proj1 (proj2 (two_processes_can_hold BitLock.to_string_pretty BitLock.from_slice
    (λ _, (quiet_env, lit "cli")) 7 8 _ _ _))); done.
Defined.
