(* ===== verification/Conversation.v ===== *)
(** * Conversations ([crates/core/src/interface/model.rs],
    [token_counter.rs], [text.rs], [crates/model/src/tokens.rs])

    The messages the engine and the model exchange, the counters that say how
    big a conversation is, and truncation at a character boundary.

    [well_paired] is the shape the provider asks of a request: the results of
    tool calls lead the user message right after the assistant message that
    made the calls. *)

From stdpp Require Import base option numbers sets gmap strings list.
From S2P Require Import Prelude RustStr PermTypes.

(** ** Messages *)

Inductive MessageRole := RoleUser | RoleAssistant | RoleSystem.

#[export] Instance MessageRole_eq_dec : EqDecision MessageRole.
Proof. solve_decision. Defined.

Inductive ModelContentBlock :=
  | Text (text : str)
  | Image (media_type data : str)
  | Thinking (text : str) (signature provider : option str)
  | RedactedThinking (data : str) (provider : option str)
  | ToolUse (id name : str) (input : value)
  | ToolResult (tool_use_id content : str) (is_error : option bool).

Record ModelMessage := {
  role : MessageRole;
  content : list ModelContentBlock;
}.

Definition is_text (b : ModelContentBlock) : bool :=
  match b with Text _ => true | _ => false end.

Definition is_tool_use (b : ModelContentBlock) : bool :=
  match b with ToolUse _ _ _ => true | _ => false end.

Definition is_tool_result (b : ModelContentBlock) : bool :=
  match b with ToolResult _ _ _ => true | _ => false end.

Definition tool_use_id_of (b : ModelContentBlock) : option str :=
  match b with ToolUse id _ _ => Some id | _ => None end.

Definition tool_result_id_of (b : ModelContentBlock) : option str :=
  match b with ToolResult id _ _ => Some id | _ => None end.

(** The calls a message makes and the calls it answers. *)
Definition tool_uses (m : ModelMessage) : list str := omap tool_use_id_of (content m).
Definition tool_results (m : ModelMessage) : list str := omap tool_result_id_of (content m).

Definition user_text (text : str) : ModelMessage := Build_ModelMessage RoleUser [Text text].

(** [ModelContentBlock::is_foreign_reasoning]. *)
Definition is_foreign_reasoning (b : ModelContentBlock) (provenance : option str) : bool :=
  let produced_by :=
    match b with
    | Thinking _ _ provider => provider
    | RedactedThinking _ provider => provider
    | _ => None
    end in
  match produced_by, provenance with
  | Some a, Some b => bool_decide (a ≠ b)
  | _, _ => false
  end.

(** ** Token counters *)

(** [TokenCounter]; [count_messages] is the trait's default. *)
Class TokenCounter := {
  count_text : str → nat;
  count_block : ModelContentBlock → nat;
}.

Definition count_blocks `{TokenCounter} (bs : list ModelContentBlock) : nat :=
  sum_list (count_block <$> bs).

Definition count_messages `{TokenCounter} (ms : list ModelMessage) : nat :=
  count_blocks (ms ≫= content).

Definition IMAGE_TOKEN_ESTIMATE : nat := 1600.

(** [estimate_model_block_tokens_with], over what counts a text and what
    renders a tool's input. *)
Definition estimate_block (count : str → nat) (render : value → str)
    (b : ModelContentBlock) : nat :=
  match b with
  | Text text => count text
  | Image _ _ => IMAGE_TOKEN_ESTIMATE
  | Thinking text _ _ => count text
  | RedactedThinking data _ => count data
  | ToolResult tool_use_id content _ => count tool_use_id + count content
  | ToolUse id name input => count id + count name + count (render input)
  end.

(** [TiktokenCounter]: [encode] is the length of the byte-pair encoding. *)
Definition TiktokenCounter (encode : str → nat) (render : value → str) : TokenCounter :=
  {| count_text := encode; count_block := estimate_block encode render |}.

(** [FixedTokenCounter]. *)
Definition FixedTokenCounter (render : value → str) (per_char per_block : nat) : TokenCounter :=
  {| count_text text := len text * per_char;
     count_block b :=
       let text :=
         match b with
         | Text text => len text
         | Thinking text _ _ => len text
         | RedactedThinking data _ => len data
         | ToolResult tool_use_id content _ => len tool_use_id + len content
         | ToolUse id name input => len id + len name + len (render input)
         | Image _ _ => 0
         end in
       per_block + text * per_char |}.

(** ** The memoized counter *)

Section Memo.
Context (encode : str → nat) (hash : str → Z).

Definition CACHE_MIN_LEN : nat := 512.
Definition CACHE_MAX_ENTRIES : nat := 4096.

(** [count_text] with the process-wide cache as its state; [lock_ok] tells
    whether each of the two locks could be taken. *)
Definition memo_count_text (lock_ok : bool * bool) (s : str) (cache : gmap Z nat)
    : nat * gmap Z nat :=
  if bool_decide (len s < CACHE_MIN_LEN) then (encode s, cache)
  else
    let key := hash s in
    match (if lock_ok.1 then cache !! key else None) with
    | Some n => (n, cache)
    | None =>
        let n := encode s in
        let cache :=
          if lock_ok.2 then
            <[key := n]> (if bool_decide (CACHE_MAX_ENTRIES ≤ size cache) then ∅ else cache)
          else cache in
        (n, cache)
    end.

(** Counting one text after another. *)
Fixpoint memo_count_all (calls : list ((bool * bool) * str)) (cache : gmap Z nat)
    : list nat * gmap Z nat :=
  match calls with
  | [] => ([], cache)
  | (lock_ok, s) :: calls =>
      let '(n, cache) := memo_count_text lock_ok s cache in
      let '(ns, cache) := memo_count_all calls cache in
      (n :: ns, cache)
  end.

End Memo.

(** ** Truncation at a character boundary *)

(** [s.get(..n)]: the first [n] bytes, if a character ends there. *)
Fixpoint slice_to (n : nat) (s : str) : option str :=
  match n, s with
  | 0, _ => Some []
  | _, [] => None
  | _, c :: s =>
      if bool_decide (n < len_utf8 c) then None else cons c <$> slice_to (n - len_utf8 c) s
  end.

(** The loop of [truncate_at_char_boundary]: step back to a boundary. *)
Fixpoint back_off (n : nat) (s : str) : str :=
  match slice_to n s with
  | Some p => p
  | None => match n with 0 => [] | S n => back_off n s end
  end.

Definition truncate_at_char_boundary (s : str) (max_bytes : nat) : str :=
  if bool_decide (len s ≤ max_bytes) then s else back_off max_bytes s.

Lemma len_app s t : len (s ++ t) = len s + len t.
Proof. unfold len. induction s as [|c s IH]; simpl; [done|]. rewrite IH. lia. Qed.

Lemma slice_to_Some n s p : slice_to n s = Some p → len p = n ∧ p `prefix_of` s.
Proof.
  revert n p. induction s as [|c s IH]; intros [|n] p; simpl; try done.
  - intros [= <-]. split; [done|]. apply prefix_nil.
  - intros [= <-]. split; [done|]. apply prefix_nil.
  - case_bool_decide as Hc; [done|].
    intros (q&Hq&->)%fmap_Some. apply IH in Hq as [Hlen Hp].
    split; [|by apply prefix_cons].
    change (len (c :: q)) with (len_utf8 c + len q). rewrite Hlen. lia.
Qed.

Lemma back_off_spec n s : len (back_off n s) ≤ n ∧ back_off n s `prefix_of` s.
Proof.
  induction n as [|n IH]; unfold back_off; fold back_off.
  - destruct (slice_to 0 s) as [p|] eqn:E; [|by split; [simpl; lia|apply prefix_nil]].
    apply slice_to_Some in E as [<- ?]. by split.
  - destruct (slice_to (S n) s) as [p|] eqn:E.
    + apply slice_to_Some in E as [<- ?]. by split.
    + destruct IH. split; [lia|done].
Qed.

Lemma truncate_len s n : len (truncate_at_char_boundary s n) ≤ n.
Proof. unfold truncate_at_char_boundary. case_bool_decide; [done|]. apply back_off_spec. Qed.

Lemma truncate_prefix s n : truncate_at_char_boundary s n `prefix_of` s.
Proof. unfold truncate_at_char_boundary. case_bool_decide; [done|]. apply back_off_spec. Qed.

Lemma slice_to_prefix p s : p `prefix_of` s → slice_to (len p) s = Some p.
Proof.
  intros [k ->]. induction p as [|c p IH]; [by destruct k|].
  change (len (c :: p)) with (len_utf8 c + len p).
  assert (1 ≤ len_utf8 c) as Hc by (unfold len_utf8; repeat case_match; lia).
  destruct (len_utf8 c + len p) as [|n] eqn:E; [lia|]. cbn [slice_to app].
  rewrite bool_decide_eq_false_2 by lia.
  replace (S n - len_utf8 c) with (len p) by lia. by rewrite IH.
Qed.

(** The longest prefix that fits. *)
Lemma truncate_longest s n p :
  p `prefix_of` s → len p ≤ n → p `prefix_of` truncate_at_char_boundary s n.
Proof.
  intros Hp Hn. unfold truncate_at_char_boundary. case_bool_decide; [done|].
  induction n as [|n IH]; unfold back_off; fold back_off.
  - replace 0 with (len p) by lia. rewrite slice_to_prefix by done. done.
  - destruct (decide (len p = S n)) as [<-|Hne]; [by rewrite slice_to_prefix|].
    destruct (slice_to (S n) s) as [q|] eqn:E; [|apply IH; lia].
    apply slice_to_Some in E as [Hq Hqs]. destruct (prefix_weak_total p q s Hp Hqs) as [?|[k ->]]; [done|].
    rewrite len_app in *. lia.
Qed.

(** ** Additivity *)

Section Counting.
Context `{TokenCounter}.

Lemma count_blocks_app bs cs : count_blocks (bs ++ cs) = count_blocks bs + count_blocks cs.
Proof.
  unfold count_blocks. rewrite fmap_app. apply sum_list_with_app.
Qed.

Lemma count_messages_app ms ns : count_messages (ms ++ ns) = count_messages ms + count_messages ns.
Proof. unfold count_messages. by rewrite bind_app, count_blocks_app. Qed.

Lemma count_messages_cons m ms :
  count_messages (m :: ms) = count_blocks (content m) + count_messages ms.
Proof. unfold count_messages. by rewrite bind_cons, count_blocks_app. Qed.

End Counting.

(** ** The memo cache *)

Section MemoCache.
Context (encode : str → nat) (hash : str → Z).

(** The cache answers only what encoding answers, for the texts of [P]. *)
Definition cache_ok (P : str → Prop) (cache : gmap Z nat) : Prop :=
  ∀ s n, P s → cache !! hash s = Some n → n = encode s.

Lemma memo_count_text_ok P lock_ok s cache n cache' :
  (∀ s t, P s → P t → hash s = hash t → encode s = encode t) →
  P s → cache_ok P cache →
  memo_count_text encode hash lock_ok s cache = (n, cache') →
  n = encode s ∧ cache_ok P cache'.
Proof.
  intros Hinj Hs Hc. unfold memo_count_text.
  case_bool_decide; [by intros [= <- <-]|].
  destruct (if lock_ok.1 then cache !! hash s else None) as [k|] eqn:Hk.
  { intros [= <- <-]. destruct lock_ok.1; [|done]. split; [by apply Hc|done]. }
  destruct lock_ok.2; intros [= <- <-]; split; try done.
  intros t m Ht. destruct (decide (hash s = hash t)) as [Heq|Hne].
  - rewrite Heq, lookup_insert_eq. intros [= <-]. by apply Hinj.
  - rewrite lookup_insert_ne by done. case_bool_decide; [by rewrite lookup_empty|by apply Hc].
Qed.

Lemma memo_count_all_ok P calls cache ns cache' :
  (∀ s t, P s → P t → hash s = hash t → encode s = encode t) →
  Forall P calls.*2 → cache_ok P cache →
  memo_count_all encode hash calls cache = (ns, cache') →
  ns = encode <$> calls.*2.
Proof.
  intros Hinj. revert cache ns. induction calls as [|[l s] calls IH]; intros cache ns HP Hc;
    cbn [memo_count_all fmap list_fmap fst snd].
  { by intros [= <- _]. }
  cbn [fmap list_fmap snd] in HP. inversion HP; subst.
  destruct (memo_count_text _ _ _ _ _) as [n c] eqn:E1.
  destruct (memo_count_all _ _ _ _) as [ns' c'] eqn:E2. intros [= <- <-].
  eapply memo_count_text_ok in E1 as [-> ?]; [|done..].
  f_equal. by eapply IH.
Qed.

End MemoCache.

(** ** Paired conversations *)

(** What answers calls comes first in its message, and answers calls of the
    assistant message right before it. *)
Definition answered (prev : option ModelMessage) (m : ModelMessage) : Prop :=
  tool_results m = [] ∨
  role m = RoleUser ∧
  (∃ b, head (content m) = Some b ∧ is_tool_result b = true) ∧
  ∃ p, prev = Some p ∧ role p = RoleAssistant ∧ tool_results m ⊆ tool_uses p.

Fixpoint well_paired_after (prev : option ModelMessage) (ms : list ModelMessage) : Prop :=
  match ms with
  | [] => True
  | m :: ms => answered prev m ∧ well_paired_after (Some m) ms
  end.

Definition well_paired (ms : list ModelMessage) : Prop := well_paired_after None ms.

(** A conversation can start, or go on after anything, at a message that
    answers nothing. *)
Definition can_start (ms : list ModelMessage) : Prop :=
  match ms with [] => True | m :: _ => tool_results m = [] end.

(** The message before the next one, after [ms]. *)
Definition last_or (prev : option ModelMessage) (ms : list ModelMessage) : option ModelMessage :=
  match last ms with Some m => Some m | None => prev end.

Lemma well_paired_app prev ms ns :
  well_paired_after prev (ms ++ ns) ↔
  well_paired_after prev ms ∧ well_paired_after (last_or prev ms) ns.
Proof.
  revert prev. induction ms as [|m ms IH]; intros prev; simpl; [naive_solver|].
  rewrite IH. assert (last_or (Some m) ms = last_or prev (m :: ms)) as ->.
  { unfold last_or. rewrite last_cons. by destruct (last ms). }
  naive_solver.
Qed.

Lemma well_paired_start prev prev' ms :
  can_start ms → well_paired_after prev ms → well_paired_after prev' ms.
Proof. destruct ms as [|m ms]; simpl; [done|]. intros Hm [_ ?]. split; [by left|done]. Qed.

(** Messages that make and answer the same calls are interchangeable. *)
Definition same_calls (m n : ModelMessage) : Prop :=
  role m = role n ∧ tool_uses m = tool_uses n ∧ tool_results m = tool_results n ∧
  (is_tool_result <$> head (content m)) = (is_tool_result <$> head (content n)).

#[export] Instance same_calls_equiv : Equivalence same_calls.
Proof.
  split; [by intros m|by intros m n (?&?&?&?)|].
  intros m n o (?&?&?&?) (?&?&?&?). split_and!; congruence.
Qed.

Lemma answered_same prev prev' m m' :
  (∀ p, prev = Some p → ∃ p', prev' = Some p' ∧ same_calls p p') → same_calls m m' →
  answered prev m → answered prev' m'.
Proof.
  intros Hp (Hr&_&Hres&Hh) [Hnone|(Hrole&(b&Hb&Hbt)&p&Hprev&Hprole&Hsub)].
  - left. congruence.
  - right. split; [congruence|]. split.
    + rewrite Hb in Hh. simpl in Hh. rewrite Hbt in Hh.
      symmetry in Hh. apply fmap_Some in Hh as (b'&?&?). eauto.
    + destruct (Hp p Hprev) as (p'&->&(Hpr&Hpu&_)). exists p'. split; [done|].
      split; [congruence|]. by rewrite <-Hres, <-Hpu.
Qed.

Lemma well_paired_same prev prev' ms ns :
  (∀ p, prev = Some p → ∃ p', prev' = Some p' ∧ same_calls p p') →
  Forall2 same_calls ms ns → well_paired_after prev ms → well_paired_after prev' ns.
Proof.
  intros Hp Hms. revert prev prev' Hp. induction Hms as [|m n ms ns Hm Hms IH]; simpl; [done|].
  intros prev prev' Hp [Ha Hw]. split; [by eapply answered_same|].
  eapply IH; [|done]. intros p [= <-]. eauto.
Qed.
