(* ===== verification/Rounds.v ===== *)
(** * API rounds ([crates/compaction/src/grouping.rs])

    Compaction works on rounds, one per call of the model: a round starts at
    a user's text, or at an assistant message that follows tool results.
    [cut_at_rounds] is what every strategy relies on: whatever is cut off at a
    round's start, the rest can stand on its own. *)

From stdpp Require Import base option numbers sets gmap strings list.
From S2P Require Import Prelude RustStr PermTypes Conversation.

Record ApiRound := {
  start : nat;
  messages : list ModelMessage;
  estimated_tokens : nat;
}.

(** The messages of some rounds, in order. *)
Definition round_messages (rs : list ApiRound) : list ModelMessage := rs ≫= messages.

Section Grouping.
Context `{TokenCounter}.

Definition estimate_tokens (ms : list ModelMessage) : nat := count_messages ms.

Definition finish_round (ms : list ModelMessage) (start : nat) : ApiRound :=
  Build_ApiRound start ms (estimate_tokens ms).

Definition first_is (p : ModelContentBlock → bool) (m : ModelMessage) : bool :=
  match head (content m) with Some b => p b | None => false end.

Definition is_user_text (m : ModelMessage) : bool :=
  bool_decide (role m = RoleUser) && first_is is_text m.

Definition is_tool_answer (m : ModelMessage) : bool :=
  bool_decide (role m = RoleUser) && first_is is_tool_result m.

(** The variables of the loop. *)
Record Grouping := {
  rounds : list ApiRound;
  current : list ModelMessage;
  start_idx : nat;
  prev_was_tool_result : bool;
}.

Definition is_round_start (prev_was_tool_result : bool) (m : ModelMessage) : bool :=
  is_user_text m || (bool_decide (role m = RoleAssistant) && prev_was_tool_result).

Definition group_step (g : Grouping) (im : nat * ModelMessage) : Grouping :=
  let '(i, msg) := im in
  let is_tool_result := is_tool_answer msg in
  if is_round_start (prev_was_tool_result g) msg && negb (bool_decide (current g = []))
  then Build_Grouping (rounds g ++ [finish_round (current g) (start_idx g)]) [msg] i
         is_tool_result
  else Build_Grouping (rounds g) (current g ++ [msg]) (start_idx g) is_tool_result.

Definition group_by_api_round (ms : list ModelMessage) : list ApiRound :=
  let g := foldl group_step (Build_Grouping [] [] 0 false) (enumerate ms) in
  match current g with
  | [] => rounds g
  | _ => rounds g ++ [finish_round (current g) (start_idx g)]
  end.

(** ** The loop's invariant *)

(** Between [pre] and [post] a round starts. *)
Definition cut_at (pre post : list ModelMessage) : Prop :=
  ∃ p m rest, last pre = Some p ∧ post = m :: rest ∧
              is_round_start (is_tool_answer p) m = true.

Lemma cut_at_app pre post more : cut_at pre post → cut_at pre (post ++ more).
Proof. intros (p&m&rest&?&->&?). exists p, m, (rest ++ more). done. Qed.

Definition round_ok (r : ApiRound) : Prop :=
  messages r ≠ [] ∧ estimated_tokens r = estimate_tokens (messages r).

(** After the messages [pre]. *)
Record grouped (pre : list ModelMessage) (g : Grouping) : Prop := {
  grouped_messages : round_messages (rounds g) ++ current g = pre;
  grouped_current : current g = [] → pre = [];
  grouped_prev : prev_was_tool_result g =
    match last pre with Some m => is_tool_answer m | None => false end;
  grouped_rounds : Forall round_ok (rounds g);
  grouped_cuts : ∀ a b, rounds g = a ++ b → a ≠ [] →
    cut_at (round_messages a) (round_messages b ++ current g);
}.

Lemma round_messages_app a b : round_messages (a ++ b) = round_messages a ++ round_messages b.
Proof. apply bind_app. Qed.

Lemma round_messages_single ms i : round_messages [finish_round ms i] = ms.
Proof. unfold round_messages. simpl. apply app_nil_r. Qed.

Lemma group_step_ok pre g i m : grouped pre g → grouped (pre ++ [m]) (group_step g (i, m)).
Proof.
  intros [Hms Hcur Hprev Hrs Hcuts]. unfold group_step.
  destruct (is_round_start _ _ && _) eqn:E; split; simpl.
  - rewrite round_messages_app, round_messages_single. by rewrite Hms.
  - done.
  - by rewrite last_snoc.
  - apply andb_true_iff in E as [_ E%negb_true_iff%bool_decide_eq_false].
    apply Forall_app; split; [done|]. repeat constructor. done.
  - apply andb_true_iff in E as [Hstart E%negb_true_iff%bool_decide_eq_false].
    intros a b Hab Ha. destruct b as [|r b _] using rev_ind.
    + rewrite app_nil_r in Hab. subst a. simpl.
      rewrite round_messages_app, round_messages_single, Hms.
      destruct (last pre) as [p|] eqn:Hp; [|apply last_None in Hp; subst pre;
        by apply app_nil in Hp as [_ ?]].
      rewrite Hprev in Hstart. by exists p, m, [].
    + rewrite app_assoc in Hab. apply app_inj_tail in Hab as [Hab <-].
      rewrite round_messages_app, round_messages_single. apply cut_at_app.
      by apply Hcuts.
  - by rewrite app_assoc, Hms.
  - by intros [_ ?]%app_nil.
  - by rewrite last_snoc.
  - done.
  - intros a b Hab Ha. rewrite app_assoc. apply cut_at_app. by apply Hcuts.
Qed.

Lemma grouped_fold ms k pre g :
  grouped pre g → grouped (pre ++ ms) (foldl group_step g (imap (λ i x, (k + i, x)) ms)).
Proof.
  revert k pre g. induction ms as [|m ms IH]; intros k pre g Hg; simpl.
  { by rewrite app_nil_r. }
  replace (pre ++ m :: ms) with ((pre ++ [m]) ++ ms) by (by rewrite <-app_assoc).
  rewrite (imap_ext _ (λ i x, (S k + i, x))) by (intros; simpl; f_equal; lia).
  apply IH. by apply group_step_ok.
Qed.

Lemma grouped_all ms :
  grouped ms (foldl group_step (Build_Grouping [] [] 0 false) (enumerate ms)).
Proof.
  apply (grouped_fold ms 0 []). split; simpl; try done.
  intros a b Hab Ha. by destruct a.
Qed.

(** ** What a grouping is *)

Lemma group_messages ms : round_messages (group_by_api_round ms) = ms.
Proof.
  unfold group_by_api_round. destruct (grouped_all ms) as [Hms _ _ _ _].
  destruct (current _) as [|m cur] eqn:E.
  - by rewrite app_nil_r in Hms.
  - rewrite round_messages_app. by rewrite round_messages_single.
Qed.

Lemma group_rounds_ok ms : Forall round_ok (group_by_api_round ms).
Proof.
  unfold group_by_api_round. destruct (grouped_all ms) as [_ _ _ Hrs _].
  destruct (current _) as [|m cur] eqn:E; [done|].
  apply Forall_app; split; [done|]. by repeat constructor.
Qed.

Lemma group_nil ms : group_by_api_round ms = [] ↔ ms = [].
Proof.
  split; [|by intros ->]. intros E. rewrite <-(group_messages ms), E. done.
Qed.

Lemma cut_at_rounds ms a b :
  group_by_api_round ms = a ++ b → a ≠ [] → b ≠ [] →
  cut_at (round_messages a) (round_messages b).
Proof.
  unfold group_by_api_round. destruct (grouped_all ms) as [_ _ _ _ Hcuts].
  destruct (current _) as [|m cur] eqn:E; intros Hab Ha Hb.
  - specialize (Hcuts a b Hab Ha). by rewrite app_nil_r in Hcuts.
  - destruct b as [|r b _] using rev_ind; [done|].
    rewrite app_assoc in Hab. apply app_inj_tail in Hab as [Hab <-].
    rewrite round_messages_app, round_messages_single. by apply Hcuts.
Qed.

(** ** Cutting a paired conversation *)

Lemma round_start_answers_nothing prev p m :
  is_round_start p m = true → answered prev m → tool_results m = [].
Proof.
  intros Hs [?|(Hr&(b&Hb&Hbt)&_)]; [done|]. exfalso.
  unfold is_round_start, is_user_text, first_is in Hs. rewrite Hb, Hr in Hs.
  by destruct b.
Qed.

Lemma cut_can_start pre post prev :
  cut_at pre post → well_paired_after prev (pre ++ post) → can_start post.
Proof.
  intros (p&m&rest&_&->&Hs) [_ [Ha _]]%well_paired_app. simpl.
  by eapply round_start_answers_nothing.
Qed.

(** Dropping rounds from the front leaves a conversation that can stand
    after anything. *)
Lemma drop_rounds_can_start ms k :
  well_paired ms → k ≠ 0 → can_start (round_messages (drop k (group_by_api_round ms))).
Proof.
  intros Hw Hk. pose proof (group_messages ms) as Hms.
  destruct (group_by_api_round ms) as [|r rs] eqn:E; [by rewrite drop_nil|].
  destruct k as [|k]; [done|]. simpl.
  destruct (drop k rs) as [|r' rs'] eqn:Hd; [done|].
  assert (Hcut : cut_at (round_messages (r :: take k rs)) (round_messages (r' :: rs'))).
  { apply (cut_at_rounds ms); [|done..]. by rewrite E, <-Hd; simpl; rewrite take_drop. }
  apply (cut_can_start _ _ None Hcut). unfold well_paired in Hw.
  rewrite <-round_messages_app, <-Hd. change ((r :: take k rs) ++ drop k rs) with
    (r :: (take k rs ++ drop k rs)). rewrite take_drop. by rewrite Hms.
Qed.

Lemma drop_rounds_paired ms k :
  well_paired ms → well_paired (round_messages (drop k (group_by_api_round ms))).
Proof.
  intros Hw. destruct k as [|k]; [by rewrite drop_0, group_messages|].
  eapply (well_paired_start (last_or None (round_messages (take (S k) (group_by_api_round ms))))).
  - by apply drop_rounds_can_start.
  - apply (well_paired_app None). rewrite <-round_messages_app, take_drop.
    by rewrite group_messages.
Qed.

Lemma estimate_rounds rs :
  Forall round_ok rs →
  estimate_tokens (round_messages rs) = sum_list (estimated_tokens <$> rs).
Proof.
  induction 1 as [|r rs [_ Hr] _ IH]; [done|].
  unfold estimate_tokens in *. unfold round_messages. rewrite bind_cons, count_messages_app.
  cbn [fmap list_fmap sum_list sum_list_with]. unfold id. rewrite Hr. f_equal. apply IH.
Qed.

End Grouping.
