(* ===== verification/Compaction.v ===== *)
(** * Compaction ([crates/compaction/src/compact.rs], [llm_summary.rs])

    The strategies that shorten a conversation: [snip] drops the oldest
    rounds, [micro_compact] clears old tool results in place,
    [collapse_context] folds old rounds into a digest, and [full_compact] has
    a model summarize what is dropped.  What the model answers is the
    parameter [call_model]. *)

From stdpp Require Import base option numbers sets gmap strings pretty list.
From S2P Require Import Prelude RustStr PermTypes Conversation Rounds.

#[local] Open Scope result_scope.

Inductive CompactStrategy := NoOp | Snip | MicroCompact | CollapseContext | FullCompact | SessionMemory.

#[export] Instance CompactStrategy_eq_dec : EqDecision CompactStrategy.
Proof. solve_decision. Defined.

Record SnipProjection := {
  dropped_rounds : nat;
  dropped_messages : nat;
  estimated_tokens_saved : nat;
}.

Record CompactResult := {
  strategy : CompactStrategy;
  messages_before : nat;
  messages_after : nat;
  tokens_before : nat;
  tokens_after : nat;
  projection : option SnipProjection;
}.

Inductive CompactError :=
  | Exhausted
  | NotApplicable (why : str)
  | Internal (why : str).

Definition COMPACTABLE_TOOLS : list str :=
  [lit "Read"; lit "Bash"; lit "Grep"; lit "Glob"; lit "WebSearch"; lit "WebFetch"; lit "Edit";
   lit "Write"].

Definition CLEARED : str := "[Old tool result content cleared]".

(** [usize::clamp]. *)
Definition clamp (x lo hi : nat) : nat := if bool_decide (x < lo) then lo else Nat.min x hi.

Section Strategies.
Context `{TokenCounter}.

(** ** Snip *)

(** The loop of [snip] over the rounds, newest first. *)
Fixpoint keep_loop (max_tokens target_keep : nat) (newest_first : list ApiRound)
    (keep tokens : nat) : nat * nat :=
  match newest_first with
  | [] => (keep, tokens)
  | round :: rest =>
      let next := tokens + estimated_tokens round in
      if bool_decide (0 < keep) &&
         (bool_decide (max_tokens < next) || bool_decide (target_keep ≤ keep))
      then (keep, tokens)
      else keep_loop max_tokens target_keep rest (S keep) next
  end.

(** The messages, and how many rounds, messages and tokens were dropped. *)
Definition snip (ms : list ModelMessage) (max_tokens keep_rounds : nat)
    : list ModelMessage * CompactStrategy * nat * nat * nat :=
  let rounds := group_by_api_round ms in
  let total_rounds := length rounds in
  let total_messages := length ms in
  if bool_decide (total_rounds = 0) then (ms, Snip, 0, 0, 0)
  else
    let tokens_before := estimate_tokens ms in
    let target_keep := clamp keep_rounds 1 total_rounds in
    let '(keep, tokens) := keep_loop max_tokens target_keep (reverse rounds) 0 0 in
    let result := round_messages (drop (total_rounds - keep) rounds) in
    (result, Snip, total_rounds - keep, total_messages - length result, tokens_before - tokens).

(** ** MicroCompact *)

(** The name of the last tool a list of blocks calls. *)
Definition track_tool (last : option str) (bs : list ModelContentBlock) : option str :=
  foldl (λ last b, match b with ToolUse _ name _ => Some name | _ => last end) last bs.

Definition is_compactable (last : option str) : bool :=
  match last with Some n => bool_decide (n ∈ COMPACTABLE_TOOLS) | None => false end.

Definition clear_result (last : option str) (b : ModelContentBlock) : ModelContentBlock :=
  match b with
  | ToolResult id _ is_error =>
      if is_compactable last then ToolResult id CLEARED (Some false) else b
  | _ => b
  end.

Fixpoint clear_messages (last : option str) (ms : list ModelMessage) : list ModelMessage :=
  match ms with
  | [] => []
  | m :: ms =>
      let last := track_tool last (content m) in
      Build_ModelMessage (role m) (clear_result last <$> content m) :: clear_messages last ms
  end.

Definition micro_compact (ms : list ModelMessage) (keep_rounds : nat) : list ModelMessage :=
  let rounds := group_by_api_round ms in
  if bool_decide (length rounds ≤ keep_rounds) then ms
  else
    let keep_start := length rounds - keep_rounds in
    clear_messages None (round_messages (take keep_start rounds)) ++
    round_messages (drop keep_start rounds).

(** ** CollapseContext *)

Definition summary_part (b : ModelContentBlock) : option str :=
  match b with
  | Text text =>
      Some (if bool_decide (200 < len text)
            then truncate_at_char_boundary text 200 ++ lit "..." else text)
  | ToolUse _ name _ => Some (lit "[tool: " ++ name ++ lit "]")
  | _ => None
  end.

Definition collapse_context (ms : list ModelMessage) (keep_rounds : nat) : list ModelMessage :=
  let rounds := group_by_api_round ms in
  if bool_decide (length rounds ≤ keep_rounds) then ms
  else
    let keep_start := length rounds - keep_rounds in
    let parts := omap summary_part (round_messages (take keep_start rounds) ≫= content) in
    let summary := join (lit " | ") parts in
    user_text "[Earlier conversation collapsed for context]"
    :: user_text (lit "[Summary of earlier conversation]: " ++ summary)
    :: round_messages (drop keep_start rounds).

(** ** [DefaultCompactor::compact] *)

Definition compact (ms : list ModelMessage) (max_tokens keep_rounds : nat)
    : list ModelMessage * CompactResult :=
  let tokens_before := estimate_tokens ms in
  let count_before := length ms in
  if bool_decide (tokens_before ≤ max_tokens) then
    (ms, Build_CompactResult NoOp count_before count_before tokens_before tokens_before None)
  else
    let '(result, strategy, dropped_rounds, dropped_messages, tokens_saved) :=
      let '(r, s, dr, dm, ts) := snip ms max_tokens keep_rounds in
      if bool_decide (estimate_tokens r ≤ max_tokens) then (r, s, dr, dm, ts)
      else
        let r := micro_compact ms keep_rounds in
        if bool_decide (estimate_tokens r ≤ max_tokens) then (r, MicroCompact, 0, 0, 0)
        else (collapse_context ms keep_rounds, CollapseContext, 0, 0, 0) in
    let projection :=
      if bool_decide (strategy = Snip) && bool_decide (0 < dropped_rounds)
      then Some (Build_SnipProjection dropped_rounds dropped_messages tokens_saved)
      else None in
    (result, Build_CompactResult strategy count_before (length result) tokens_before
               (estimate_tokens result) projection).

(** ** FullCompact *)

Definition MIN_SUMMARIZED_TOKENS : nat := 2000.

Definition should_summarize (ms : list ModelMessage) (max_tokens keep_rounds : nat) : bool :=
  if bool_decide (estimate_tokens ms ≤ max_tokens) then false
  else
    let rounds := group_by_api_round ms in
    let keep := clamp keep_rounds 1 (Nat.max (length rounds) 1) in
    if bool_decide (length rounds ≤ keep) then false
    else
      let dropped := sum_list (estimated_tokens <$> take (length rounds - keep) rounds) in
      bool_decide (MIN_SUMMARIZED_TOKENS ≤ dropped).

Definition MAX_RENDERED_BLOCK_CHARS : nat := 2000.
Definition MAX_RENDERED_TRANSCRIPT_CHARS : nat := Z.to_nat 120000.

Definition cap (s : str) : str :=
  if bool_decide (len s ≤ MAX_RENDERED_BLOCK_CHARS) then s
  else truncate_at_char_boundary s MAX_RENDERED_BLOCK_CHARS ++ lit "… [" ++
       lit (pretty (len s - MAX_RENDERED_BLOCK_CHARS)) ++ lit " bytes truncated]".

(** What comes of the summarizing call: it fails, it takes too long, or it
    streams; of the stream only texts and errors matter. *)
Inductive SummaryEvent :=
  | SummaryText (text : str)
  | OtherEvent
  | StreamBroke (e : str).

Inductive SummaryCall :=
  | CallFailed (e : str)
  | TimedOut
  | Streamed (events : list SummaryEvent).

(** [summary_prompt] is the text of [SUMMARY_PROMPT], [timeout] the printed
    time limit and [call_model] the model asked with the request's texts. *)
Section Summarizer.
Context (render_input : value → str) (summary_prompt timeout : str)
  (call_model : ModelMessage → SummaryCall).

Definition who (r : MessageRole) : str :=
  match r with RoleUser => "User" | RoleAssistant => "Assistant" | RoleSystem => "System" end.

Definition render_block (r : MessageRole) (b : ModelContentBlock) : option str :=
  match b with
  | Text text =>
      if bool_decide (trim text = []) then None else Some (who r ++ lit ": " ++ cap text)
  | Thinking _ _ _ | RedactedThinking _ _ => None
  | Image media_type _ => Some (who r ++ lit ": [image: " ++ media_type ++ lit "]")
  | ToolUse _ name input =>
      Some (who r ++ lit " called " ++ name ++ lit "(" ++ cap (render_input input) ++ lit ")")
  | ToolResult _ content is_error =>
      let tag := if bool_decide (is_error = Some true) then lit "tool error"
                 else lit "tool result" in
      Some (lit "[" ++ tag ++ lit "] " ++ cap content)
  end.

(** The lines that fit, newest kept: the loop that trims from the front. *)
Fixpoint trim_lines (total : nat) (lines : list str) : list str :=
  match lines with
  | [] => []
  | l :: ls =>
      if bool_decide (MAX_RENDERED_TRANSCRIPT_CHARS < total)
      then trim_lines (total - (len l + 1)) ls
      else lines
  end.

Definition render_transcript (ms : list ModelMessage) : str :=
  let lines := ms ≫= (λ m, omap (render_block (role m)) (content m)) in
  let total := sum_list ((λ l, len l + 1) <$> lines) in
  join [10%N] (trim_lines total lines).

Fixpoint read_summary (out : str) (events : list SummaryEvent) : result str CompactError :=
  match events with
  | [] => Ok out
  | SummaryText text :: events => read_summary (out ++ text) events
  | OtherEvent :: events => read_summary out events
  | StreamBroke e :: _ => Err (Internal (lit "summarization stream failed: " ++ e))
  end.

Definition summary_request (transcript : str) : ModelMessage :=
  Build_ModelMessage RoleUser
    [Text summary_prompt;
     Text (lit "<conversation-to-summarize>" ++ [10%N] ++ transcript ++ [10%N] ++
           lit "</conversation-to-summarize>")].

Definition summarize (ms : list ModelMessage) : result str CompactError :=
  let transcript := render_transcript ms in
  if bool_decide (trim transcript = [])
  then Err (NotApplicable "no summarizable content in the rounds being dropped")
  else
    summary ←?
      match call_model (summary_request transcript) with
      | CallFailed e => Err (Internal (lit "summarization call failed: " ++ e))
      | TimedOut => Err (Internal (lit "summarization timed out after " ++ timeout))
      | Streamed events => read_summary [] events
      end;
    let summary := trim summary in
    if bool_decide (summary = []) then Err (Internal "summarization returned an empty response")
    else Ok summary.

Definition summary_message (summary : str) : ModelMessage :=
  user_text (lit "<system-reminder>" ++ [10%N] ++
    lit "The earlier part of this conversation was removed to free context. " ++
    lit "It is gone — you cannot scroll back to it. The structured summary " ++
    lit "below is all that remains of it; treat it as an accurate record of " ++
    lit "what happened and continue from its " ++ [34%N] ++ lit "Current work and next step" ++
    [34%N] ++ lit " section. Anything not in the summary and not in the messages after " ++
    lit "it must be re-established (re-read the file, re-run the command) " ++
    lit "rather than assumed." ++ [10%N; 10%N] ++
    lit "<compacted-context>" ++ [10%N] ++ summary ++ [10%N] ++ lit "</compacted-context>" ++
    [10%N] ++ lit "</system-reminder>").

(** The loop that sheds kept rounds from the oldest end. *)
Fixpoint shed_rounds (rounds : list ApiRound) (summary : ModelMessage) (max_tokens : nat)
    (kept_rounds : nat) (result : list ModelMessage) : list ModelMessage * nat :=
  match kept_rounds with
  | S (S _ as fewer) =>
      if bool_decide (max_tokens < estimate_tokens result) then
        shed_rounds rounds summary max_tokens fewer
          (summary :: round_messages (drop (length rounds - fewer) rounds))
      else (result, kept_rounds)
  | _ => (result, kept_rounds)
  end.

Definition full_compact (ms : list ModelMessage) (max_tokens keep_rounds : nat)
    : result (list ModelMessage * CompactResult) CompactError :=
  let tokens_before := estimate_tokens ms in
  let count_before := length ms in
  let rounds := group_by_api_round ms in
  let keep := clamp keep_rounds 1 (Nat.max (length rounds) 1) in
  if bool_decide (length rounds ≤ keep)
  then Err (NotApplicable "fewer rounds than the keep floor — nothing to summarize")
  else
    let split := length rounds - keep in
    summary ←? summarize (round_messages (take split rounds));
    let '(result, kept_rounds) :=
      shed_rounds rounds (summary_message summary) max_tokens keep
        (summary_message summary :: round_messages (drop split rounds)) in
    let tokens_after := estimate_tokens result in
    Ok (result,
        Build_CompactResult FullCompact count_before (length result) tokens_before tokens_after
          (Some (Build_SnipProjection (length rounds - kept_rounds)
                   (count_before - length result) (tokens_before - tokens_after)))).

End Summarizer.
End Strategies.

(** ** How many rounds [snip] keeps *)

Section Snip.
Context `{TokenCounter}.

Definition rounds_cost (rs : list ApiRound) : nat := sum_list (estimated_tokens <$> rs).

Lemma rounds_cost_cons r rs : rounds_cost (r :: rs) = estimated_tokens r + rounds_cost rs.
Proof. done. Qed.

(** The loop takes [j] more rounds: every one of them was owed and fitted, and
    the next one was not or did not. *)
Lemma keep_loop_spec max target rs keep tokens :
  ∃ j, j ≤ length rs ∧
    keep_loop max target rs keep tokens = (keep + j, tokens + rounds_cost (take j rs)) ∧
    (keep = 0 → rs ≠ [] → 0 < j) ∧
    (∀ i, i < j → 0 < keep + i → tokens + rounds_cost (take (S i) rs) ≤ max ∧ keep + i < target) ∧
    (j < length rs → max < tokens + rounds_cost (take (S j) rs) ∨ target ≤ keep + j).
Proof.
  revert keep tokens. induction rs as [|r rs IH]; intros keep tokens; cbn [keep_loop].
  { exists 0. simpl. split_and!; try lia; [f_equal; unfold rounds_cost; simpl; lia|done]. }
  destruct (bool_decide _ && _) eqn:E.
  - exists 0. apply andb_true_iff in E as [E1%bool_decide_eq_true E2].
    apply orb_true_iff in E2. rewrite !bool_decide_eq_true in E2.
    split_and!; [lia|f_equal; unfold rounds_cost; simpl; lia|lia|lia|].
    intros _. cbn [take]. rewrite take_0, rounds_cost_cons. unfold rounds_cost; simpl. lia.
  - destruct (IH (S keep) (tokens + estimated_tokens r)) as (j&Hj&->&_&Htook&Hnext).
    exists (S j). cbn [take length]. rewrite rounds_cost_cons.
    split_and!; [lia|f_equal; lia|lia| |].
    + intros [|i] Hi Hk.
      * rewrite take_0, rounds_cost_cons. unfold rounds_cost; simpl.
        apply andb_false_iff in E. rewrite orb_false_iff, !bool_decide_eq_false in E. lia.
      * rewrite rounds_cost_cons. destruct (Htook i) as [? ?]; [lia..|]. split; lia.
    + intros Hlen. rewrite rounds_cost_cons. destruct Hnext; [lia|left; lia|right; lia].
Qed.

Lemma rounds_cost_estimate rs :
  Forall round_ok rs → rounds_cost rs = estimate_tokens (round_messages rs).
Proof. intros. by rewrite estimate_rounds. Qed.

Lemma rounds_cost_newest k (rs : list ApiRound) :
  rounds_cost (take k (reverse rs)) = rounds_cost (drop (length rs - k) rs).
Proof.
  rewrite take_reverse. unfold rounds_cost. rewrite fmap_reverse. apply sum_list_with_reverse.
Qed.

(** [snip] keeps a longest suffix of rounds. *)
Lemma snip_spec ms max keep_rounds r s dr dm saved :
  snip ms max keep_rounds = (r, s, dr, dm, saved) → ms ≠ [] →
  let rounds := group_by_api_round ms in
  ∃ k, 1 ≤ k ≤ clamp keep_rounds 1 (length rounds) ∧ k ≤ length rounds ∧
    r = round_messages (drop (length rounds - k) rounds) ∧
    s = Snip ∧ dr = length rounds - k ∧ dm = length ms - length r ∧
    saved = estimate_tokens ms - estimate_tokens r ∧
    (1 < k → estimate_tokens r ≤ max) ∧
    (k < clamp keep_rounds 1 (length rounds) →
     max < estimate_tokens (round_messages (drop (length rounds - S k) rounds))).
Proof.
  intros Hsnip Hne rounds. unfold snip in Hsnip. fold rounds in Hsnip.
  assert (Hrs : rounds ≠ []) by (unfold rounds; by rewrite group_nil).
  assert (Hpos : 0 < length rounds) by (destruct rounds; [done|simpl; lia]).
  assert (Hok : ∀ i, Forall round_ok (drop i rounds))
    by (intros i; apply Forall_drop, group_rounds_ok).
  rewrite bool_decide_eq_false_2 in Hsnip by lia.
  destruct (keep_loop_spec max (clamp keep_rounds 1 (length rounds)) (reverse rounds) 0 0)
    as (k&Hk&Hloop&Hk0&Htook&Hnext).
  rewrite Hloop in Hsnip. cbn [Nat.add] in Hsnip.
  rewrite length_reverse in Hk, Hnext.
  assert (1 ≤ k). { apply Hk0; [done|]. intros E. apply Hrs. rewrite <-(reverse_involutive rounds), E. done. }
  injection Hsnip as <- <- <- <- <-. exists k.
  rewrite rounds_cost_newest, rounds_cost_estimate in * by done.
  assert (Htarget : 1 ≤ clamp keep_rounds 1 (length rounds))
    by (unfold clamp; case_bool_decide; lia).
  split_and!; try done; try lia.
  - destruct (decide (k = 1)) as [->|]; [done|]. destruct (Htook (k - 1)); lia.
  - intros Hk1. destruct (Htook (k - 1)) as [Hc _]; [lia..|].
    replace (S (k - 1)) with k in Hc by lia.
    rewrite rounds_cost_newest, rounds_cost_estimate in Hc by done. lia.
  - intros Hlt. assert (k < length rounds) by (unfold clamp in Hlt; case_bool_decide; lia).
    destruct Hnext; lia.
Qed.

End Snip.

(** ** Pairing *)

Section Pairing.
Context `{TokenCounter}.

Lemma clear_result_calls last b :
  tool_use_id_of (clear_result last b) = tool_use_id_of b ∧
  tool_result_id_of (clear_result last b) = tool_result_id_of b ∧
  is_tool_result (clear_result last b) = is_tool_result b.
Proof. destruct b; simpl; try done. by destruct (is_compactable last). Qed.

Lemma clear_omap {A} (f : ModelContentBlock → option A) last (bs : list ModelContentBlock) :
  (∀ b, f (clear_result last b) = f b) → omap f (clear_result last <$> bs) = omap f bs.
Proof.
  intros Hf. induction bs as [|b bs IH]; [done|].
  rewrite fmap_cons. simpl. rewrite Hf. destruct (f b); rewrite ?IH; [f_equal|]; exact IH.
Qed.

Lemma clear_blocks_calls last m :
  same_calls m (Build_ModelMessage (role m) (clear_result last <$> content m)).
Proof.
  unfold same_calls, tool_uses, tool_results. cbn [role content].
  rewrite !clear_omap by (intros b; apply clear_result_calls).
  split_and!; try done. destruct (content m) as [|b bs]; [done|]. simpl. f_equal.
  symmetry. apply clear_result_calls.
Qed.

Lemma clear_messages_calls last ms : Forall2 same_calls ms (clear_messages last ms).
Proof.
  revert last. induction ms as [|m ms IH]; intros last; simpl; constructor; [|done].
  apply clear_blocks_calls.
Qed.

Lemma same_calls_refl_list ms : Forall2 same_calls ms ms.
Proof. induction ms; by constructor. Qed.

Lemma micro_compact_calls ms keep_rounds : Forall2 same_calls ms (micro_compact ms keep_rounds).
Proof.
  unfold micro_compact. case_bool_decide; [apply same_calls_refl_list|].
  rewrite <-(group_messages ms) at 1.
  rewrite <-(take_drop (length (group_by_api_round ms) - keep_rounds) (group_by_api_round ms)) at 1.
  rewrite round_messages_app. apply Forall2_app; [apply clear_messages_calls|].
  apply same_calls_refl_list.
Qed.

Lemma micro_compact_paired ms keep_rounds :
  well_paired ms → well_paired (micro_compact ms keep_rounds).
Proof. apply well_paired_same; [done|]. apply micro_compact_calls. Qed.

Lemma user_text_after prev t ms :
  well_paired_after (Some (user_text t)) ms → well_paired_after prev (user_text t :: ms).
Proof. intros Hms. split; [by left|done]. Qed.

Lemma kept_after_text ms k t :
  well_paired ms → k ≠ 0 →
  well_paired_after (Some (user_text t)) (round_messages (drop k (group_by_api_round ms))).
Proof.
  intros Hw Hk. eapply well_paired_start; [by apply drop_rounds_can_start|].
  by apply drop_rounds_paired.
Qed.

Lemma collapse_context_paired ms keep_rounds :
  well_paired ms → well_paired (collapse_context ms keep_rounds).
Proof.
  intros Hw. unfold collapse_context. case_bool_decide; [done|].
  apply user_text_after, user_text_after, kept_after_text; [done|lia].
Qed.

Lemma snip_paired ms max keep_rounds :
  well_paired ms → well_paired (snip ms max keep_rounds).1.1.1.1.
Proof.
  intros Hw. unfold snip. case_bool_decide; [done|].
  destruct (keep_loop _ _ _ _ _). simpl. by apply drop_rounds_paired.
Qed.

Lemma compact_paired ms max keep_rounds :
  well_paired ms → well_paired (compact ms max keep_rounds).1.
Proof.
  intros Hw. unfold compact. case_bool_decide; [done|].
  pose proof (snip_paired ms max keep_rounds Hw) as Hs.
  destruct (snip ms max keep_rounds) as [[[[r s] dr] dm] ts]; simpl in Hs.
  case_bool_decide; [done|]. case_bool_decide; simpl.
  - by apply micro_compact_paired.
  - by apply collapse_context_paired.
Qed.

Lemma shed_rounds_spec rounds summary max kept result :
  ∃ k, k ≤ kept ∧ (1 ≤ kept → 1 ≤ k) ∧
    (shed_rounds rounds summary max kept result).2 = k ∧
    (shed_rounds rounds summary max kept result).1 =
      (if decide (k = kept) then result
       else summary :: round_messages (drop (length rounds - k) rounds)) ∧
    (1 < k → estimate_tokens (shed_rounds rounds summary max kept result).1 ≤ max).
Proof.
  revert result. induction kept as [|kept IH]; intros result.
  { exists 0. split_and!; try done; lia. }
  cbn [shed_rounds]. destruct kept as [|kept].
  { exists 1. split_and!; try done; lia. }
  case_bool_decide as Hm.
  - destruct (IH (summary :: round_messages (drop (length rounds - S kept) rounds)))
      as (k&Hk&Hk1&Hk2&Hr&He).
    exists k. split_and!; [lia|lia|done| |done]. rewrite Hr.
    rewrite (decide_False (P := k = S (S kept))) by lia. by destruct (decide _) as [->|].
  - exists (S (S kept)). rewrite decide_True by done. split_and!; try done; cbn [fst snd]; lia.
Qed.

Lemma full_compact_spec render prompt timeout call_model ms max keep_rounds r res :
  full_compact render prompt timeout call_model ms max keep_rounds = Ok (r, res) →
  ∃ summary k, let rounds := group_by_api_round ms in
    1 ≤ k < length rounds ∧ k ≤ Nat.max 1 keep_rounds ∧
    r = summary_message summary :: round_messages (drop (length rounds - k) rounds) ∧
    (1 < k → estimate_tokens r ≤ max) ∧ tokens_after res = estimate_tokens r.
Proof.
  unfold full_compact. case_bool_decide as Hlen; [done|].
  destruct (summarize _ _ _ _ _) as [summary|]; [|done]. cbn [result_bind].
  destruct (shed_rounds_spec (group_by_api_round ms) (summary_message summary) max
    (clamp keep_rounds 1 (length (group_by_api_round ms) `max` 1))
    (summary_message summary :: round_messages
       (drop (length (group_by_api_round ms) -
              clamp keep_rounds 1 (length (group_by_api_round ms) `max` 1))
          (group_by_api_round ms)))) as (k&Hk&Hk1&Hk2&Hr&He).
  destruct (shed_rounds _ _ _ _ _) as [r' k']; simpl in Hk2, Hr, He. subst k'.
  intros [= <- <-]. exists summary, k.
  assert (1 ≤ clamp keep_rounds 1 (length (group_by_api_round ms) `max` 1) ≤ Nat.max 1 keep_rounds)
    by (unfold clamp; case_bool_decide; lia).
  split_and!; [lia|lia|lia| |done|done].
  rewrite Hr. by destruct (decide _) as [->|].
Qed.

Lemma full_compact_paired render prompt timeout call_model ms max keep_rounds r res :
  full_compact render prompt timeout call_model ms max keep_rounds = Ok (r, res) →
  well_paired ms → well_paired r.
Proof.
  intros (summary&k&Hk&_&->&_)%full_compact_spec Hw.
  unfold summary_message. apply user_text_after, kept_after_text; [done|lia].
Qed.

End Pairing.

(** ** The newest round *)

Section Newest.
Context `{TokenCounter}.

Definition newest_round (ms : list ModelMessage) : list ModelMessage :=
  round_messages (drop (length (group_by_api_round ms) - 1) (group_by_api_round ms)).

Lemma drop_keeps_newest ms i :
  i ≤ length (group_by_api_round ms) - 1 →
  newest_round ms `suffix_of` round_messages (drop i (group_by_api_round ms)).
Proof.
  intros Hi. unfold newest_round. set (rs := group_by_api_round ms) in *.
  exists (round_messages (take (length rs - 1 - i) (drop i rs))).
  rewrite <-round_messages_app. f_equal.
  replace (drop (length rs - 1) rs) with (drop (length rs - 1 - i) (drop i rs))
    by (rewrite drop_drop; f_equal; lia).
  by rewrite take_drop.
Qed.

Lemma whole_keeps_newest ms : newest_round ms `suffix_of` ms.
Proof.
  rewrite <-(group_messages ms) at 2. rewrite <-(drop_0 (group_by_api_round ms)).
  apply drop_keeps_newest. lia.
Qed.

Lemma suffix_cons_more (m : ModelMessage) a b : a `suffix_of` b → a `suffix_of` m :: b.
Proof. apply suffix_cons_r. Qed.

Lemma micro_compact_newest ms keep_rounds :
  1 ≤ keep_rounds → newest_round ms `suffix_of` micro_compact ms keep_rounds.
Proof.
  intros Hk. unfold micro_compact. case_bool_decide; [apply whole_keeps_newest|].
  apply suffix_app_r, drop_keeps_newest. lia.
Qed.

Lemma collapse_context_newest ms keep_rounds :
  1 ≤ keep_rounds → newest_round ms `suffix_of` collapse_context ms keep_rounds.
Proof.
  intros Hk. unfold collapse_context. case_bool_decide; [apply whole_keeps_newest|].
  apply suffix_cons_more, suffix_cons_more, drop_keeps_newest. lia.
Qed.

End Newest.

(** ** Properties *)

Section Properties.
Context `{TokenCounter}.

(** C31. Compaction never parts the results of tool calls from the calls:
    whatever strategy shortens a conversation in which every message that
    carries results directly follows the message that made the calls, the
    shorter one has that shape too, a model's summary included. *)
Theorem compaction_keeps_pairing render prompt timeout call_model ms max_tokens keep_rounds :
  well_paired ms →
  well_paired (compact ms max_tokens keep_rounds).1 ∧
  well_paired (micro_compact ms keep_rounds) ∧
  ∀ r res, full_compact render prompt timeout call_model ms max_tokens keep_rounds = Ok (r, res) →
           well_paired r.
Proof.
  intros Hw. split_and!.
  - by apply compact_paired.
  - by apply micro_compact_paired.
  - intros r res Hr. by eapply full_compact_paired.
Qed.

(** What [compact] answers: a conversation within the budget unchanged;
    otherwise one within the budget, unless the last resort was reached; by
    dropping, if that suffices, no more rounds than the budget and
    [keep_rounds] force; and with the newest round verbatim at its end.  The
    counts it reports are those of its answer. *)
Theorem compact_spec ms max_tokens keep_rounds r res :
  compact ms max_tokens keep_rounds = (r, res) →
  let rounds := group_by_api_round ms in
  tokens_before res = estimate_tokens ms ∧ tokens_after res = estimate_tokens r ∧
  messages_before res = length ms ∧ messages_after res = length r ∧
  (estimate_tokens ms ≤ max_tokens → r = ms ∧ strategy res = NoOp) ∧
  (max_tokens < estimate_tokens ms →
   (strategy res = CollapseContext ∨ estimate_tokens r ≤ max_tokens) ∧
   (1 ≤ keep_rounds → newest_round ms `suffix_of` r) ∧
   (strategy res = Snip → ∃ k, 1 ≤ k ≤ length rounds ∧
     r = round_messages (drop (length rounds - k) rounds) ∧
     (k < clamp keep_rounds 1 (length rounds) →
      max_tokens < estimate_tokens (round_messages (drop (length rounds - S k) rounds))))).
Proof.
  intros Hc rounds. unfold compact in Hc. case_bool_decide as Hfit.
  { injection Hc as <- <-. split_and!; try done. lia. }
  assert (Hne : ms ≠ []) by (intros ->; apply Hfit, Nat.le_0_l).
  destruct (snip ms max_tokens keep_rounds) as [[[[r1 s1] dr] dm] ts] eqn:Hs.
  destruct (snip_spec _ _ _ _ _ _ _ _ Hs Hne) as (k&Hk&Hkl&Hr1&->&_&_&_&_&Hmax).
  fold rounds in Hk, Hkl, Hr1, Hmax.
  case_bool_decide as H1; [|case_bool_decide as H2];
    injection Hc as <- <-; cbn [tokens_before tokens_after messages_before messages_after strategy];
    (split_and!; [done|done|done|done|intros; lia|]); intros _.
  - split; [by right|]. split.
    + intros _. rewrite Hr1. apply drop_keeps_newest. fold rounds. lia.
    + intros _. exists k. split_and!; [lia|lia|done|done].
  - split; [by right|]. split; [by apply micro_compact_newest|done].
  - split; [by left|]. split; [by apply collapse_context_newest|done].
Qed.

End Properties.

(** ** Witnesses *)

(** A character a token. *)
Definition char_counter : TokenCounter := FixedTokenCounter (λ _, []) 1 0.

Definition sample_conversation : list ModelMessage :=
  [user_text "read it";
   Build_ModelMessage RoleAssistant [ToolUse "t1" "Read" VNull];
   Build_ModelMessage RoleUser [ToolResult "t1" "a rather long file" (Some false)];
   Build_ModelMessage RoleAssistant [Text "done"];
   user_text "and now?"; Build_ModelMessage RoleAssistant [Text "nothing"]].

Lemma sample_paired : well_paired sample_conversation.
Proof.
  repeat split; try (by left). right. split; [done|]. split; [eexists; by split|].
  eexists. split; [done|]. split; [done|]. vm_compute. set_solver.
Defined.

Lemma compaction_keeps_pairing_witness :
  well_paired (@compact char_counter sample_conversation 20 2).1 ∧
  length (@compact char_counter sample_conversation 20 2).1 = 3.
Proof.
  split; [|by vm_compute].
  apply (@compaction_keeps_pairing char_counter (λ _, []) [] [] (λ _, TimedOut)).
  exact sample_paired.
Defined.

Lemma compact_spec_witness :
  @newest_round char_counter sample_conversation `suffix_of`
    (@compact char_counter sample_conversation 20 2).1.
Proof.
  destruct (@compact_spec char_counter sample_conversation 20 2 _ _ (surjective_pairing _))
    as (_&_&_&_&_&Hover).
  apply Hover; [by_compute|lia].
Defined.
