(* ===== verification/Aging.v ===== *)
(** * Clearing old tool results ([crates/compaction/src/time_based_mc.rs],
    [cached.rs], and [enforce_tool_result_budget] of [compact.rs])

    Three passes that blank tool results before the token budget is looked
    at: by age, by count, and by the bytes they hold together.  Instants are
    milliseconds; one reading of the clock serves a whole pass. *)

From stdpp Require Import base option numbers sets gmap strings pretty list.
From S2P Require Import Prelude RustStr PermTypes Conversation Rounds Compaction.

(** ** By age *)

Record TimeBasedMcConfig := {
  max_age : option Z;
  min_messages : nat;
}.

Record TimeBasedMcResult := {
  cleared : nat;
  skipped : nat;
}.

Definition CLEARED_BY_AGE : str := "[Old tool result content cleared by time-based MC]".

(** [t.elapsed()], which saturates. *)
Definition elapsed (now t : Z) : Z := Z.max 0 (now - t).

(** The inner loop over the blocks of an old message. *)
Definition clear_aged_block (last : option str) (n : nat) (b : ModelContentBlock)
    : nat * ModelContentBlock :=
  match b with
  | ToolResult id content is_error =>
      if is_compactable last && negb (bool_decide (content = CLEARED)) &&
         negb (bool_decide (content = CLEARED_BY_AGE))
      then (S n, ToolResult id CLEARED_BY_AGE is_error)
      else (n, b)
  | _ => (n, b)
  end.

(** Run a state through the blocks of a message, rewriting each. *)
Fixpoint traverse {S} (f : S → ModelContentBlock → S * ModelContentBlock) (s : S)
    (bs : list ModelContentBlock) : S * list ModelContentBlock :=
  match bs with
  | [] => (s, [])
  | b :: bs =>
      let '(s, b) := f s b in
      let '(s, bs) := traverse f s bs in
      (s, b :: bs)
  end.

Fixpoint age_messages (max_age now : Z) (ages : gmap nat Z) (last : option str)
    (res : TimeBasedMcResult) (ms : list (nat * ModelMessage))
    : list ModelMessage * TimeBasedMcResult :=
  match ms with
  | [] => ([], res)
  | (idx, m) :: ms =>
      let last := track_tool last (content m) in
      let age := default 0%Z (elapsed now <$> ages !! idx) in
      let '(m, res) :=
        if bool_decide (age < max_age)%Z
        then (m, Build_TimeBasedMcResult (cleared res) (S (skipped res)))
        else
          let '(n, bs) := traverse (clear_aged_block last) (cleared res) (content m) in
          (Build_ModelMessage (role m) bs, Build_TimeBasedMcResult n (skipped res)) in
      let '(ms, res) := age_messages max_age now ages last res ms in
      (m :: ms, res)
  end.

(** [message_ages] as the map it is collected into. *)
Definition age_map (message_ages : list (nat * Z)) : gmap nat Z :=
  foldl (λ ages it, <[it.1 := it.2]> ages) ∅ message_ages.

Definition apply_time_based_mc (now : Z) (ms : list ModelMessage) (config : TimeBasedMcConfig)
    (message_ages : list (nat * Z)) : list ModelMessage * TimeBasedMcResult :=
  match max_age config with
  | None => (ms, Build_TimeBasedMcResult 0 0)
  | Some max_age =>
      if bool_decide (length ms < min_messages config) then (ms, Build_TimeBasedMcResult 0 0)
      else age_messages max_age now (age_map message_ages) None (Build_TimeBasedMcResult 0 0)
             (enumerate ms)
  end.

(** ** By count *)

(** The positions of the tool results of user messages, newest message first. *)
Definition result_positions (ms : list ModelMessage) : list (nat * nat) :=
  reverse (enumerate ms) ≫= λ im,
    if decide (role im.2 = RoleUser)
    then omap (λ jb : nat * ModelContentBlock,
                 if is_tool_result jb.2 then Some (im.1, jb.1) else None)
           (enumerate (content im.2))
    else [].

(** [*block = ToolResult { tool_use_id: String::new(), .. }]. *)
Definition blanked : ModelContentBlock := ToolResult [] CLEARED (Some false).

Definition set_block (ij : nat * nat) (b : ModelContentBlock) (ms : list ModelMessage)
    : list ModelMessage :=
  alter (λ m, Build_ModelMessage (role m) (<[ij.2 := b]> (content m))) ij.1 ms.

Definition block_at (ms : list ModelMessage) (ij : nat * nat) : option ModelContentBlock :=
  m ← ms !! ij.1; content m !! ij.2.

Definition blank_step (s : list ModelMessage * list str) (ij : nat * nat)
    : list ModelMessage * list str :=
  let '(ms, ids) := s in
  match block_at ms ij with
  | Some b =>
      let ids :=
        match tool_result_id_of b with
        | Some id => if decide (id = []) then ids else ids ++ [id]
        | None => ids
        end in
      (set_block ij blanked ms, ids)
  | None => s
  end.

Definition clear_stale_tool_results (ms : list ModelMessage) (keep_recent : nat)
    : list ModelMessage * nat * list str :=
  let positions := result_positions ms in
  let to_keep := Nat.min keep_recent (length positions) in
  let to_clear := length positions - to_keep in
  let '(ms, ids) := foldl blank_step (ms, []) (drop to_keep positions) in
  (ms, to_clear, ids).

(** ** By size *)

Record ToolResultBudget := {
  max_per_result : nat;
  max_total : nat;
}.

Definition ToolResultBudget_default : ToolResultBudget :=
  Build_ToolResultBudget (Z.to_nat 50000) (Z.to_nat 500000).

Fixpoint traverse_messages {S} (f : S → ModelContentBlock → S * ModelContentBlock) (s : S)
    (ms : list ModelMessage) : S * list ModelMessage :=
  match ms with
  | [] => (s, [])
  | m :: ms =>
      let '(s, bs) := traverse f s (content m) in
      let '(s, ms) := traverse_messages f s ms in
      (s, Build_ModelMessage (role m) bs :: ms)
  end.

(** The locals of the two passes. *)
Record Sizes := {
  total_size : nat;
  modified : nat;
}.

Definition truncation_notice (max_per_result : nat) (content : str) : str :=
  lit "[Tool result truncated: " ++ lit (pretty (len content)) ++ lit " bytes > " ++
  lit (pretty max_per_result) ++ lit " max; first 1000 bytes preserved]" ++ [10%N] ++
  truncate_at_char_boundary content 1000 ++ lit "...".

(** Pass 1: truncate an oversized result. *)
Definition truncate_result (max_per_result : nat) (z : Sizes) (b : ModelContentBlock)
    : Sizes * ModelContentBlock :=
  match b with
  | ToolResult id content is_error =>
      if bool_decide (max_per_result < len content) then
        let truncated := truncation_notice max_per_result content in
        (Build_Sizes (total_size z + len truncated) (S (modified z)),
         ToolResult id truncated is_error)
      else (Build_Sizes (total_size z + len content) (modified z), b)
  | _ => (z, b)
  end.

(** Pass 2, at one position: clear unless the total fits already. *)
Definition clear_oldest (max_total : nat) (z : Sizes) (b : ModelContentBlock)
    : Sizes * ModelContentBlock :=
  match b with
  | ToolResult id content is_error =>
      if bool_decide (total_size z ≤ max_total) then (z, b)
      else if bool_decide (content = CLEARED) then (z, b)
      else (Build_Sizes (total_size z - len content + len CLEARED) (S (modified z)),
            ToolResult id CLEARED is_error)
  | _ => (z, b)
  end.

Definition enforce_tool_result_budget (ms : list ModelMessage) (budget : ToolResultBudget)
    : list ModelMessage * nat :=
  let '(z, ms) := traverse_messages (truncate_result (max_per_result budget))
                    (Build_Sizes 0 0) ms in
  if bool_decide (max_total budget < total_size z) then
    let '(z, ms) := traverse_messages (clear_oldest (max_total budget)) z ms in
    (ms, modified z)
  else (ms, modified z).

(** ** What a pass may change *)

(** The texts of the tool results, in order. *)
Definition result_text (b : ModelContentBlock) : option str :=
  match b with ToolResult _ content _ => Some content | _ => None end.

Definition result_texts (bs : list ModelContentBlock) : list str := omap result_text bs.

(** Only the text of a tool result differs. *)
Definition same_but_text (b b' : ModelContentBlock) : Prop :=
  match b with
  | ToolResult id _ is_error => ∃ content, b' = ToolResult id content is_error
  | _ => b' = b
  end.

Definition only_texts (m m' : ModelMessage) : Prop :=
  role m' = role m ∧ Forall2 same_but_text (content m) (content m').

#[export] Instance same_but_text_preorder : PreOrder same_but_text.
Proof.
  split.
  - intros b. destruct b; simpl; eauto.
  - intros b c d. destruct b; simpl; try (by intros ->); intros [? ->] [? ->]; eauto.
Qed.

#[export] Instance only_texts_preorder : PreOrder only_texts.
Proof.
  split.
  - intros m. split; [done|]. reflexivity.
  - intros m n o [? Hmn] [? Hno]. split; [congruence|]. by etrans.
Qed.

Lemma same_but_text_omap {A} (f : ModelContentBlock → option A) bs bs' :
  (∀ b b', same_but_text b b' → f b' = f b) →
  Forall2 same_but_text bs bs' → omap f bs' = omap f bs.
Proof.
  intros Hf. induction 1 as [|b b' bs bs' Hb _ IH]; [done|]. simpl.
  rewrite (Hf _ _ Hb). destruct (f b); [f_equal|]; exact IH.
Qed.

Lemma only_texts_calls m m' : only_texts m m' → same_calls m m'.
Proof.
  intros [Hr Hbs]. split_and!; [done|..].
  - symmetry. apply same_but_text_omap; [|done].
    intros b b'. destruct b; simpl; try (by intros ->). by intros [? ->].
  - symmetry. apply same_but_text_omap; [|done].
    intros b b'. destruct b; simpl; try (by intros ->). by intros [? ->].
  - destruct Hbs as [|b b' ? ? Hb]; [done|]. simpl. f_equal. symmetry.
    destruct b; simpl in Hb; try (by rewrite Hb). by destruct Hb as [? ->].
Qed.

Lemma only_texts_paired ms ms' :
  Forall2 only_texts ms ms' → well_paired ms → well_paired ms'.
Proof.
  intros Hms. apply well_paired_same; [done|].
  eapply Forall2_impl; [done|]. apply only_texts_calls.
Qed.

(** ** Traversals *)

Section Traverse.
Context {S : Type} (f : S → ModelContentBlock → S * ModelContentBlock).

Lemma traverse_app s bs cs s1 bs1 s2 cs2 :
  traverse f s bs = (s1, bs1) → traverse f s1 cs = (s2, cs2) →
  traverse f s (bs ++ cs) = (s2, bs1 ++ cs2).
Proof.
  revert s s1 bs1. induction bs as [|b bs IH]; intros s s1 bs1; simpl.
  - intros [= -> <-] H. by rewrite H.
  - destruct (f s b) as [s0 b'] eqn:Hb. destruct (traverse f s0 bs) as [s3 bs'] eqn:Ht.
    intros [= <- <-] H. by rewrite (IH _ _ _ Ht H).
Qed.

Lemma traverse_messages_blocks s ms s' ms' :
  traverse_messages f s ms = (s', ms') →
  traverse f s (ms ≫= content) = (s', ms' ≫= content).
Proof.
  revert s ms'. induction ms as [|m ms IH]; intros s ms'; cbn [traverse_messages].
  - by intros [= <- <-].
  - destruct (traverse f s (content m)) as [s1 bs] eqn:Hb.
    destruct (traverse_messages f s1 ms) as [s2 ms1] eqn:Hms. intros [= <- <-].
    rewrite !bind_cons. by eapply traverse_app; [|apply IH].
Qed.

Hypothesis f_text : ∀ s b, same_but_text b (f s b).2.

Lemma traverse_text s bs : Forall2 same_but_text bs (traverse f s bs).2.
Proof using f_text.
  revert s. induction bs as [|b bs IH]; intros s; simpl; [constructor|].
  pose proof (f_text s b) as Hb. destruct (f s b) as [s1 b1].
  specialize (IH s1). destruct (traverse f s1 bs). by constructor.
Qed.

Lemma traverse_messages_text s ms : Forall2 only_texts ms (traverse_messages f s ms).2.
Proof using f_text.
  revert s. induction ms as [|m ms IH]; intros s; cbn [traverse_messages]; [constructor|].
  pose proof (traverse_text s (content m)) as Hb.
  destruct (traverse f s (content m)) as [s1 bs].
  specialize (IH s1). destruct (traverse_messages f s1 ms). by constructor.
Qed.

End Traverse.

(** ** By age: only texts change *)

Lemma clear_aged_text last n b : same_but_text b (clear_aged_block last n b).2.
Proof. destruct b; simpl; try done. case_match; simpl; eauto. Qed.

Lemma age_messages_text max_age now ages last res ims :
  Forall2 only_texts ims.*2 (age_messages max_age now ages last res ims).1.
Proof.
  revert last res. induction ims as [|[i m] ims IH]; intros last res;
    cbn [age_messages fmap list_fmap snd]; [constructor|].
  case_bool_decide.
  - specialize (IH (track_tool last (content m))
                  (Build_TimeBasedMcResult (cleared res) (S (skipped res)))).
    destruct (age_messages _ _ _ _ _ _). constructor; [reflexivity|done].
  - pose proof (traverse_text _ (clear_aged_text (track_tool last (content m)))
                  (cleared res) (content m)) as Hb.
    destruct (traverse _ _ _) as [n bs].
    specialize (IH (track_tool last (content m)) (Build_TimeBasedMcResult n (skipped res))).
    destruct (age_messages _ _ _ _ _ _). by constructor.
Qed.

Lemma apply_time_based_mc_text now ms config ages :
  Forall2 only_texts ms (apply_time_based_mc now ms config ages).1.
Proof.
  unfold apply_time_based_mc. destruct (max_age config); [|reflexivity].
  case_bool_decide; [reflexivity|].
  rewrite <-(enumerate_snd ms) at 1. apply age_messages_text.
Qed.

(** ** By size: what the passes leave *)

Definition total_len (texts : list str) : nat := sum_list (len <$> texts).

(** What the first pass makes of one text. *)
Definition capped (max_per_result : nat) (text : str) : str :=
  if bool_decide (max_per_result < len text) then truncation_notice max_per_result text
  else text.

(** The [k] oldest texts cleared. *)
Definition oldest_cleared (k : nat) (texts : list str) : list str :=
  ((λ _, CLEARED) <$> take k texts) ++ drop k texts.

(** A result within the cap stays; of another the longest beginning of at
    most 1000 bytes is shown, behind a line with its length. *)
Definition shown_capped (max_per_result : nat) (text shown : str) : Prop :=
  (len text ≤ max_per_result ∧ shown = text) ∨
  (max_per_result < len text ∧ ∃ kept, kept `prefix_of` text ∧ len kept ≤ 1000 ∧
     (∀ p, p `prefix_of` text → len p ≤ 1000 → p `prefix_of` kept) ∧
     shown = lit "[Tool result truncated: " ++ lit (pretty (len text)) ++ lit " bytes > " ++
             lit (pretty max_per_result) ++ lit " max; first 1000 bytes preserved]" ++ [10%N] ++ kept ++ lit "...").

Lemma capped_shown max_per_result text : shown_capped max_per_result text (capped max_per_result text).
Proof.
  unfold capped, shown_capped. case_bool_decide; [right|left; split; [lia|done]]. split; [done|].
  exists (truncate_at_char_boundary text 1000).
  split_and!; [apply truncate_prefix|apply truncate_len|apply truncate_longest|done].
Qed.

(** How many texts each pass rewrites. *)
Definition count_over (max_per_result : nat) (texts : list str) : nat :=
  length (filter (λ t, max_per_result < len t) texts).
Definition count_uncleared (texts : list str) : nat := length (filter (λ t, t ≠ CLEARED) texts).

Lemma total_len_app ts us : total_len (ts ++ us) = total_len ts + total_len us.
Proof. unfold total_len. rewrite fmap_app. apply sum_list_with_app. Qed.

Lemma oldest_cleared_0 ts : oldest_cleared 0 ts = ts.
Proof. done. Qed.

Lemma total_len_cons t ts : total_len (t :: ts) = len t + total_len ts.
Proof. done. Qed.

Lemma result_texts_cons b bs :
  result_texts (b :: bs) = from_option (λ t, [t]) [] (result_text b) ++ result_texts bs.
Proof. unfold result_texts. cbn [omap list_omap]. by destruct (result_text b). Qed.

Lemma truncate_result_pass max_per z bs z' bs' :
  traverse (truncate_result max_per) z bs = (z', bs') →
  result_texts bs' = capped max_per <$> result_texts bs ∧
  total_size z' = total_size z + total_len (capped max_per <$> result_texts bs) ∧
  modified z' = modified z + count_over max_per (result_texts bs).
Proof.
  revert z bs'. induction bs as [|b bs IH]; intros z bs'.
  { intros [= <- <-]. split_and!; [done| |]; unfold total_len, count_over; simpl; lia. }
  cbn [traverse]. destruct (truncate_result max_per z b) as [z1 b1] eqn:Hb.
  destruct (traverse _ z1 bs) as [z2 bs2] eqn:Hbs. intros [= <- <-].
  destruct (IH _ _ Hbs) as (Ht&Hz&Hm).
  assert (∀ ts us, count_over max_per (ts ++ us) = count_over max_per ts + count_over max_per us) as Hadd
    by (intros; unfold count_over; by rewrite filter_app, length_app).
  rewrite !result_texts_cons, fmap_app, total_len_app, Hadd, Ht, Hz, Hm.
  assert (from_option (λ t, [t]) [] (result_text b1) =
            capped max_per <$> from_option (λ t, [t]) [] (result_text b) ∧
          total_size z1 = total_size z +
            total_len (capped max_per <$> from_option (λ t, [t]) [] (result_text b)) ∧
          modified z1 = modified z + count_over max_per (from_option (λ t, [t]) [] (result_text b)))
    as (->&->&->); [|split_and!; [done|lia|lia]].
  unfold truncate_result in Hb. unfold total_len, capped, count_over.
  destruct b; try (injection Hb as <- <-; cbn; split_and!; [done|lia|lia]).
  cbn [result_text from_option fmap list_fmap sum_list sum_list_with].
  case_bool_decide as Hover; apply pair_equal_spec in Hb as [<- <-];
    [rewrite filter_cons_True by done|rewrite filter_cons_False by done];
    cbn [result_text from_option total_size modified length];
    rewrite filter_nil; cbn [length]; (split_and!; [done|unfold id; lia|lia]).
Qed.

Lemma clear_oldest_pass max_total z bs z' bs' (before : nat) :
  total_size z = before + total_len (result_texts bs) →
  traverse (clear_oldest max_total) z bs = (z', bs') →
  ∃ k, k ≤ length (result_texts bs) ∧
    result_texts bs' = oldest_cleared k (result_texts bs) ∧
    (before + total_len (oldest_cleared k (result_texts bs)) ≤ max_total ∨
     k = length (result_texts bs)) ∧
    (∀ i, i < k → max_total < before + total_len (oldest_cleared i (result_texts bs))) ∧
    modified z' = modified z + count_uncleared (take k (result_texts bs)).
Proof.
  revert z bs' before. induction bs as [|b bs IH]; intros z bs' before Hz.
  { intros [= <- <-]. exists 0. split_and!; [done..|by right|lia|]. unfold count_uncleared. cbn. lia. }
  cbn [traverse]. destruct (clear_oldest max_total z b) as [z1 b1] eqn:Hb.
  destruct (traverse _ z1 bs) as [z2 bs2] eqn:Hbs. intros [= <- <-].
  destruct (is_tool_result b) eqn:Hres.
  2: { assert (z1 = z ∧ b1 = b) as [-> ->] by (destruct b; try done; by injection Hb as <- <-).
       rewrite !result_texts_cons in *.
       assert (result_text b = None) as E by (by destruct b). rewrite E in *. by apply (IH z). }
  destruct b as [| | | | |id t is_error]; try done. rewrite !result_texts_cons in *.
  cbn [result_text from_option app length] in *. unfold clear_oldest in Hb.
  rewrite total_len_cons in Hz.
  case_bool_decide as Hfits.
  { apply pair_equal_spec in Hb as [<- <-].
    destruct (IH z bs2 (before + len t)) as (k&_&Hk&_&Hmin&Hm); [lia|done|].
    exists 0. destruct k as [|k]; [|specialize (Hmin 0 ltac:(lia)); rewrite oldest_cleared_0 in Hmin; lia].
    rewrite Hk, !oldest_cleared_0. cbn [length]. rewrite total_len_cons. split_and!; [lia|done|left; lia|lia|done]. }
  assert (result_text b1 = Some CLEARED ∧
          total_size z1 = before + len CLEARED + total_len (result_texts bs) ∧
          modified z1 = modified z + count_uncleared [t]) as (->&Hz1&Hm1).
  { unfold count_uncleared. case_bool_decide as Ht; apply pair_equal_spec in Hb as [<- <-];
      [rewrite filter_cons_False by (by intros ?)|rewrite filter_cons_True by done];
      rewrite filter_nil; subst; cbn [result_text total_size modified length]; (split_and!; [done|lia|lia]). }
  destruct (IH z1 bs2 (before + len CLEARED)) as (k&Hk&Ht&Hend&Hmin&Hm); [done..|].
  exists (S k). cbn [from_option app]. rewrite Ht.
  change (oldest_cleared (S k) (t :: result_texts bs)) with
    (CLEARED :: oldest_cleared k (result_texts bs)).
  rewrite total_len_cons. split_and!; [lia|done|destruct Hend; [left|right]; lia| |].
  2: { cbn [take]. change (t :: take k (result_texts bs)) with ([t] ++ take k (result_texts bs)).
       unfold count_uncleared in *. rewrite filter_app, length_app. lia. }
  intros [|i] Hi.
  - rewrite oldest_cleared_0, total_len_cons. lia.
  - change (oldest_cleared (S i) (t :: result_texts bs)) with
      (CLEARED :: oldest_cleared i (result_texts bs)).
    rewrite total_len_cons. specialize (Hmin i ltac:(lia)). lia.
Qed.

Lemma truncate_result_text max_per z b : same_but_text b (truncate_result max_per z b).2.
Proof. destruct b; simpl; try done. case_bool_decide; simpl; eauto. Qed.

Lemma clear_oldest_text max_total z b : same_but_text b (clear_oldest max_total z b).2.
Proof. destruct b; simpl; try done. repeat case_bool_decide; simpl; eauto. Qed.

Lemma enforce_text ms budget : Forall2 only_texts ms (enforce_tool_result_budget ms budget).1.
Proof.
  unfold enforce_tool_result_budget.
  pose proof (traverse_messages_text _ (truncate_result_text (max_per_result budget))
                (Build_Sizes 0 0) ms) as H1.
  destruct (traverse_messages _ _ ms) as [z ms1]. case_bool_decide; [|done].
  pose proof (traverse_messages_text _ (clear_oldest_text (max_total budget)) z ms1) as H2.
  destruct (traverse_messages _ z ms1) as [z' ms2]. by etrans.
Qed.

(** ** By count *)

Lemma enumerate_lookup_map {A} (l : list A) i : enumerate l !! i = (λ x, (i, x)) <$> l !! i.
Proof. unfold enumerate. by rewrite list_lookup_imap. Qed.

Lemma elem_of_result_positions ms i j :
  (i, j) ∈ result_positions ms ↔
  ∃ m b, ms !! i = Some m ∧ role m = RoleUser ∧ content m !! j = Some b ∧
         is_tool_result b = true.
Proof.
  unfold result_positions. rewrite list_elem_of_bind. split.
  - intros ([i' m]&Hin&Hm). cbn [fst snd] in *.
    rewrite elem_of_reverse in Hm. apply elem_of_enumerate in Hm. destruct (decide _) as [Hr|]; [|by apply not_elem_of_nil in Hin].
    apply list_elem_of_omap in Hin as ([j' b]&Hb%elem_of_enumerate&Hsome). cbn in Hsome.
    destruct (is_tool_result b) eqn:E; simplify_eq. eauto 10.
  - intros (m&b&Hm&Hr&Hb&Ht). exists (i, m). cbn [fst snd]. split.
    + rewrite decide_True by done. apply list_elem_of_omap. exists (j, b).
      rewrite elem_of_enumerate. cbn. by rewrite Ht.
    + rewrite elem_of_reverse. by apply elem_of_enumerate.
Qed.

Lemma block_at_set ms ij kl b :
  is_Some (block_at ms ij) →
  block_at (set_block ij b ms) kl = if decide (kl = ij) then Some b else block_at ms kl.
Proof.
  intros [c Hc]. unfold block_at, set_block in *. destruct ij as [i j], kl as [k l].
  cbn [fst snd] in *. apply bind_Some in Hc as (m&Hm&Hc).
  assert (Hj : j < length (content m)) by (by eapply lookup_lt_Some).
  destruct (decide (k = i)) as [->|Hne].
  - rewrite list_lookup_alter_eq, Hm. cbn [fmap option_fmap option_map mbind option_bind content].
    destruct (decide (l = j)) as [->|].
    + rewrite decide_True by done. by rewrite list_lookup_insert_eq.
    + rewrite decide_False by congruence. by rewrite list_lookup_insert_ne.
  - rewrite decide_False by congruence. by rewrite list_lookup_alter_ne by done.
Qed.

Lemma set_block_roles ij b ms : role <$> set_block ij b ms = role <$> ms.
Proof.
  apply list_eq. intros k. unfold set_block. rewrite !list_lookup_fmap.
  destruct (decide (k = ij.1)) as [->|]; [|by rewrite list_lookup_alter_ne].
  rewrite list_lookup_alter_eq. by destruct (ms !! ij.1).
Qed.

(** The id that clearing a position reports. *)
Definition reported (ms : list ModelMessage) (ij : nat * nat) : option str :=
  b ← block_at ms ij;
  id ← tool_result_id_of b;
  if decide (id = []) then None else Some id.

(** The pass blanks exactly the blocks at the positions it goes through, and
    reports the nonempty ids they answered. *)
Lemma blank_steps ps ms ids ms' ids' :
  NoDup ps →
  (∀ ij, ij ∈ ps → ∃ b, block_at ms ij = Some b) →
  foldl blank_step (ms, ids) ps = (ms', ids') →
  role <$> ms' = role <$> ms ∧
  (∀ kl, block_at ms' kl = if decide (kl ∈ ps) then Some blanked else block_at ms kl) ∧
  ids' = ids ++ omap (reported ms) ps.
Proof.
  revert ms ids. induction ps as [|ij ps IH]; intros ms ids Hnd Hps; cbn [foldl].
  { intros [= <- <-]. rewrite app_nil_r. split_and!; [done| |done].
    intros kl. by rewrite decide_False by apply not_elem_of_nil. }
  apply NoDup_cons in Hnd as [Hij Hnd].
  destruct (Hps ij) as [b Hb]; [by left|]. unfold blank_step at 2. rewrite Hb. intros Hf.
  apply IH in Hf as (Hroles&Hblk&Hids); [|done|].
  - split_and!.
    + by rewrite Hroles, set_block_roles.
    + intros kl. rewrite Hblk, block_at_set by eauto. repeat case_decide; try done; set_solver.
    + assert (E : omap (reported (set_block ij blanked ms)) ps = omap (reported ms) ps).
      { apply list_omap_ext, Forall_Forall2_diag, Forall_forall. intros kl Hkl. unfold reported.
        rewrite block_at_set by eauto. rewrite decide_False by set_solver. done. }
      rewrite Hids, E. cbn [omap list_omap].
      assert (reported ms ij = id ← tool_result_id_of b; if decide (id = []) then None else Some id)
        as -> by (unfold reported; by rewrite Hb).
      destruct (tool_result_id_of b) as [id|]; [|done]. cbn [mbind option_bind].
      repeat case_decide; try done. by rewrite <-app_assoc.
  - intros kl Hkl. rewrite block_at_set by eauto. case_decide; [eauto|]. apply Hps. by right.
Qed.

Lemma result_positions_NoDup ms : NoDup (result_positions ms).
Proof.
  apply NoDup_bind.
  - intros [i1 m1] [i2 m2] [i j] Hin1 Hin2. rewrite elem_of_reverse in Hin1, Hin2.
    apply elem_of_enumerate in Hin1, Hin2. cbn [fst snd].
    destruct (decide (role m1 = _)); [|by intros ?%not_elem_of_nil].
    destruct (decide (role m2 = _)); [|by intros _ ?%not_elem_of_nil].
    intros ([??]&_&H1)%list_elem_of_omap ([??]&_&H2)%list_elem_of_omap. cbn in H1, H2.
    destruct (is_tool_result _), (is_tool_result _); simplify_eq. congruence.
  - intros [i m] _. cbn [fst snd]. destruct (decide _); [|constructor].
    eapply (NoDup_fmap_1 snd), NoDup_omap_imap. intros j b [??]. cbn. by case_match; intros [= _ <-].
  - rewrite reverse_Permutation. apply (NoDup_fmap_1 fst).
    replace (enumerate ms).*1 with (seq 0 (length ms)); [apply NoDup_seq|].
    apply list_eq. intros i. unfold enumerate. rewrite list_lookup_fmap, list_lookup_imap.
    destruct (ms !! i) eqn:E.
    + rewrite lookup_seq_lt by (by eapply lookup_lt_Some). done.
    + rewrite lookup_seq_ge by (by apply lookup_ge_None). done.
Qed.

Lemma clear_stale_blocks ms keep ms' n ids :
  clear_stale_tool_results ms keep = (ms', n, ids) →
  let stale := drop keep (result_positions ms) in
  n = length stale ∧ ids = omap (reported ms) stale ∧ role <$> ms' = role <$> ms ∧
  ∀ ij, block_at ms' ij = if decide (ij ∈ stale) then Some blanked else block_at ms ij.
Proof.
  unfold clear_stale_tool_results.
  assert (drop (Nat.min keep (length (result_positions ms))) (result_positions ms) =
          drop keep (result_positions ms)) as Hd.
  { destruct (decide (keep ≤ length (result_positions ms))); [f_equal; lia|].
    rewrite !drop_ge by lia. done. }
  rewrite Hd. destruct (foldl _ _ _) as [ms1 ids1] eqn:Hf. intros [= <- <- <-].
  apply blank_steps in Hf as (Hroles&Hblk&Hids).
  - split_and!; [rewrite length_drop; lia|done..].
  - eapply sublist_NoDup; [apply result_positions_NoDup|apply sublist_drop].
  - intros [i j] (k&Hk)%list_elem_of_lookup. rewrite lookup_drop in Hk.
    apply list_elem_of_lookup_2, elem_of_result_positions in Hk as (m&b&Hm&_&Hb&_).
    exists b. unfold block_at. cbn. by rewrite Hm.
Qed.

(** The conversation makes some call with an empty id. *)
Definition has_empty_call (ms : list ModelMessage) : Prop :=
  ∃ m, m ∈ ms ∧ [] ∈ tool_uses m.

Lemma blanked_unpaired ms prev i j :
  block_at ms (i, j) = Some blanked → ¬ has_empty_call ms →
  (∀ p, prev = Some p → [] ∉ tool_uses p) → ¬ well_paired_after prev ms.
Proof.
  intros Hb Hne. revert i prev Hb. induction ms as [|m ms IH]; intros i prev Hb Hprev; [done|].
  intros [Ha Hw]. destruct i as [|i].
  - cbn in Hb. assert ([] ∈ tool_results m) as Hres.
    { apply list_elem_of_omap. exists blanked. split; [by eapply list_elem_of_lookup_2|done]. }
    destruct Ha as [Hnil|(_&_&p&->&_&Hsub)]; [by rewrite Hnil in Hres; apply not_elem_of_nil in Hres|].
    apply (Hprev p); [done|]. by apply Hsub.
  - eapply (IH ltac:(intros (m'&?&?); apply Hne; exists m'; split; [by right|done]) i (Some m));
      [done| |done].
    intros p [= <-] Hin. apply Hne. exists m. split; [left|done].
Qed.

Lemma cached_keeps_calls ms ms' :
  role <$> ms' = role <$> ms →
  (∀ ij, block_at ms' ij = Some blanked ∨ block_at ms' ij = block_at ms ij) →
  ¬ has_empty_call ms → ¬ has_empty_call ms'.
Proof.
  intros _ Hblk Hne (m&(i&Hi)%list_elem_of_lookup&Hm). apply Hne.
  apply list_elem_of_omap in Hm as (b&(j&Hj)%list_elem_of_lookup&Hb).
  assert (block_at ms' (i, j) = Some b) as Hij by (unfold block_at; cbn; by rewrite Hi).
  destruct (Hblk (i, j)) as [E|E]; rewrite Hij in E; [by simplify_eq|].
  symmetry in E. apply bind_Some in E as (m'&Hm'&Hb'). cbn in Hm', Hb'.
  exists m'. split; [by eapply list_elem_of_lookup_2|].
  apply list_elem_of_omap. exists b. split; [by eapply list_elem_of_lookup_2|done].
Qed.

(** ** Theorems *)

(** C32. The size pass changes nothing but the texts of tool results.  First
    each is cut to its cap: one within it stays as it is, of another its
    first 1000 bytes - less, if a character ends beyond - stay behind a line
    that says its length, so that a cap below what this takes can lengthen a
    result.  Then the oldest are cleared, one after the other and no more than
    needed, until the texts together fit [max_total] or all are cleared.  The
    number it answers is how many times it cut or cleared. *)
Theorem tool_result_budget_enforced ms budget ms' n :
  enforce_tool_result_budget ms budget = (ms', n) →
  let texts := result_texts (ms ≫= content) in
  Forall2 only_texts ms ms' ∧
  ∃ cut k, Forall2 (shown_capped (max_per_result budget)) texts cut ∧
    k ≤ length cut ∧ result_texts (ms' ≫= content) = oldest_cleared k cut ∧
    (total_len (result_texts (ms' ≫= content)) ≤ max_total budget ∨ k = length cut) ∧
    (∀ i, i < k → max_total budget < total_len (oldest_cleared i cut)) ∧
    n = count_over (max_per_result budget) texts + count_uncleared (take k cut).
Proof.
  intros He. split.
  { pose proof (enforce_text ms budget) as H. by rewrite He in H. }
  exists (capped (max_per_result budget) <$> result_texts (ms ≫= content)).
  unfold enforce_tool_result_budget in He.
  destruct (traverse_messages _ _ ms) as [z ms1] eqn:H1.
  apply traverse_messages_blocks, truncate_result_pass in H1 as (Ht&Hz&Hm). cbn [total_size modified] in Hz, Hm.
  assert (Forall2 (shown_capped (max_per_result budget)) (result_texts (ms ≫= content))
    (capped (max_per_result budget) <$> result_texts (ms ≫= content))) as Hcut.
  { apply Forall2_fmap_r, Forall_Forall2_diag, Forall_true. intros t. apply capped_shown. }
  rewrite <-Ht in *. case_bool_decide as Hover.
  - destruct (traverse_messages _ z ms1) as [z' ms2] eqn:H2. injection He as <- <-.
    apply traverse_messages_blocks, (clear_oldest_pass _ _ _ _ _ 0) in H2
      as (k&Hk&Ht2&Hend&Hmin&Hm2); [|lia].
    exists k. rewrite Ht2. split_and!; [exact Hcut|exact Hk|reflexivity|exact Hend|exact Hmin|]. rewrite Hm2, Hm. lia.
  - injection He as <- <-. exists 0. rewrite oldest_cleared_0.
    split_and!; [exact Hcut|lia|reflexivity|left; lia|lia|]. rewrite Hm.
    change (count_uncleared (take 0 (result_texts (ms1 ≫= content)))) with 0. lia.
Qed.

(** The count pass blanks every tool result of the user messages but the
    [keep] newest ones, reports the ids the blanked ones answered, and
    touches nothing else. *)
Theorem clear_stale_spec ms keep ms' n ids :
  clear_stale_tool_results ms keep = (ms', n, ids) →
  let stale := drop keep (result_positions ms) in
  n = length stale ∧ ids = omap (reported ms) stale ∧ role <$> ms' = role <$> ms ∧
  ∀ ij, block_at ms' ij = if decide (ij ∈ stale) then Some blanked else block_at ms ij.
Proof. apply clear_stale_blocks. Qed.

(** The count pass takes the id off a result it blanks, so whenever it
    clears anything the conversation it leaves is not paired any more: the
    result answers no call.  ([micro_compact] keeps the id for that reason.) *)
Theorem cached_pass_orphans_results ms keep ms' n ids :
  clear_stale_tool_results ms keep = (ms', n, ids) →
  0 < n → ¬ has_empty_call ms → ¬ well_paired ms'.
Proof.
  intros (Hn&_&Hroles&Hblk)%clear_stale_blocks Hpos Hne.
  destruct (drop keep (result_positions ms)) as [|[i j] stale] eqn:E; [simpl in Hn; lia|].
  apply (blanked_unpaired ms' None i j); [| |done].
  - rewrite Hblk, decide_True; [done|left].
  - apply (cached_keeps_calls ms); [done| |done]. intros ij. rewrite Hblk. case_decide; auto.
Qed.

(** Clearing by age, too, changes nothing but texts of tool results, so a
    paired conversation stays paired. *)
Theorem age_pass_keeps_pairing now ms config ages ms' r :
  apply_time_based_mc now ms config ages = (ms', r) →
  Forall2 only_texts ms ms' ∧ (well_paired ms → well_paired ms').
Proof.
  intros E. pose proof (apply_time_based_mc_text now ms config ages) as H. rewrite E in H.
  split; [done|]. by apply only_texts_paired.
Qed.

(** ** At work *)

Definition aged_conversation : list ModelMessage :=
  [user_text "go";
   Build_ModelMessage RoleAssistant [ToolUse (lit "a") (lit "Read") VNull];
   Build_ModelMessage RoleUser [ToolResult (lit "a") (lit "0123456789012345678901234567890123456789") None];
   Build_ModelMessage RoleAssistant [ToolUse (lit "b") (lit "Read") VNull];
   Build_ModelMessage RoleUser [ToolResult (lit "b") (lit "done") None]].

Lemma answered_intro p m b :
  role m = RoleUser → head (content m) = Some b → is_tool_result b = true →
  role p = RoleAssistant → forallb (λ id, bool_decide (id ∈ tool_uses p)) (tool_results m) = true →
  answered (Some p) m.
Proof.
  intros ? ? ? ? Hsub. right. split_and!; eauto. exists p. split_and!; try done.
  intros id Hid. rewrite forallb_elem_of in Hsub. by apply Hsub, bool_decide_eq_true in Hid.
Qed.

Lemma aged_paired : well_paired aged_conversation.
Proof.
  repeat split; try (by left); eapply answered_intro; try done; by vm_compute.
Defined.

Lemma tool_result_budget_enforced_witness :
  ∃ ms' n, enforce_tool_result_budget aged_conversation (Build_ToolResultBudget 50 40) = (ms', n) ∧
    n = 1 ∧ Forall2 only_texts aged_conversation ms' ∧
    result_texts (ms' ≫= content) = [CLEARED; lit "done"].
Proof.
  destruct (enforce_tool_result_budget aged_conversation (Build_ToolResultBudget 50 40))
    as [ms' n] eqn:E.
  pose proof (tool_result_budget_enforced _ _ _ _ E) as [H _].
  exists ms', n. split_and!; [done| |done|]; vm_compute in E; by injection E as <- <-.
Defined.

Lemma clear_stale_spec_witness :
  ∃ ms' n ids, clear_stale_tool_results aged_conversation 1 = (ms', n, ids) ∧
    n = 1 ∧ ids = [lit "a"] ∧ block_at ms' (2, 0) = Some blanked.
Proof.
  destruct (clear_stale_tool_results aged_conversation 1) as [[ms' n] ids] eqn:E.
  pose proof (clear_stale_spec _ _ _ _ _ E) as (Hn&Hids&_&Hblk).
  exists ms', n, ids. split_and!; [done|by rewrite Hn; vm_compute|by rewrite Hids; vm_compute|].
  rewrite Hblk. by vm_compute.
Defined.

Lemma cached_pass_orphans_results_witness :
  ∃ ms' n ids, clear_stale_tool_results aged_conversation 1 = (ms', n, ids) ∧
    well_paired aged_conversation ∧ ¬ well_paired ms'.
Proof.
  destruct (clear_stale_tool_results aged_conversation 1) as [[ms' n] ids] eqn:E.
  exists ms', n, ids. split; [done|]. split.
  - exact aged_paired.
  - apply (cached_pass_orphans_results _ _ _ _ _ E).
    + vm_compute in E. injection E as _ <- _. lia.
    + assert (Forall (λ m, [] ∉ tool_uses m) aged_conversation) as Hall by by_compute.
      rewrite Forall_forall in Hall. intros (m&Hm&Hin). by apply (Hall m).
Defined.

Lemma age_pass_keeps_pairing_witness :
  ∃ ms' r, apply_time_based_mc 1000000 aged_conversation
             (Build_TimeBasedMcConfig (Some 900000%Z) 5) [(2, 5%Z); (4, 999999%Z)] = (ms', r) ∧
    cleared r = 1 ∧ Forall2 only_texts aged_conversation ms'.
Proof.
  destruct (apply_time_based_mc 1000000 aged_conversation
             (Build_TimeBasedMcConfig (Some 900000%Z) 5) [(2, 5%Z); (4, 999999%Z)])
    as [ms' r] eqn:E.
  pose proof (age_pass_keeps_pairing _ _ _ _ _ _ E) as [H _].
  exists ms', r. split_and!; [done| |done]. vm_compute in E. by injection E as <- <-.
Defined.
