(* ===== verification/Compactor.v ===== *)
(** * When to compact ([crates/compaction/src/compact.rs], [reactive.rs],
    [cached.rs])

    The compactor's interface: the transformation, and the judgements about
    when - the two passes that clear what is old, the predictive pass, the
    warning and the threshold - with the engine's own answers as defaults.

    Printing a percentage is the parameter [show_percent]. *)

From stdpp Require Import base option numbers sets gmap strings pretty list.
From Stdlib Require Import SpecFloat.
From S2P Require Import Prelude RustStr PermTypes Float Conversation Rounds Compaction Aging.

(** ** The predictive pass ([reactive.rs]) *)

Definition AUTOCOMPACT_BUFFER_TOKENS : nat := Z.to_nat 13000.
Definition WARNING_BUFFER_TOKENS : nat := Z.to_nat 20000.
Definition ERROR_BUFFER_TOKENS : nat := Z.to_nat 20000.
Definition BLOCK_BUFFER_TOKENS : nat := Z.to_nat 3000.
Definition MAX_CONSECUTIVE_FAILURES : nat := 3.

Inductive CompactionLevel := Normal | Auto | Warning | Error | Blocking.

#[export] Instance CompactionLevel_eq_dec : EqDecision CompactionLevel.
Proof. solve_decision. Defined.

Record CompactionState := {
  consecutive_failures : nat;
  last_compact_turn : nat;
  circuit_open : bool;
}.

Definition CompactionState_default : CompactionState := Build_CompactionState 0 0 false.

Definition record_success (s : CompactionState) : CompactionState :=
  Build_CompactionState 0 (last_compact_turn s) false.

Definition record_failure (s : CompactionState) : CompactionState :=
  let n := consecutive_failures s + 1 in
  Build_CompactionState n (last_compact_turn s)
    (if bool_decide (MAX_CONSECUTIVE_FAILURES ≤ n) then true else circuit_open s).

Definition calculate_thresholds (context_window : nat) : nat * nat * nat * nat :=
  let auto := context_window - AUTOCOMPACT_BUFFER_TOKENS in
  let warn := auto - WARNING_BUFFER_TOKENS in
  let error := auto - ERROR_BUFFER_TOKENS in
  let block := context_window - BLOCK_BUFFER_TOKENS in
  (auto, warn, error, block).

Definition compaction_level (current_tokens context_window : nat) : CompactionLevel :=
  let '(auto, warn, _, block) := calculate_thresholds context_window in
  if bool_decide (block ≤ current_tokens) then Blocking
  else if bool_decide (auto ≤ current_tokens) then Auto
  else if bool_decide (warn ≤ current_tokens) then Warning
  else Normal.

Definition should_compact_reactively (current_tokens context_limit : nat)
    (token_usage_velocity : option spec_float) : bool :=
  let trigger := Z.to_nat 50000 in
  let remaining := context_limit - current_tokens in
  if bool_decide (remaining ≤ trigger) then true
  else
    match token_usage_velocity with
    | Some velocity =>
        SFltb (S754_zero false) velocity &&
        SFleb (f64_div (f64_of (Z.of_nat remaining)) velocity) (f64_of 3)
    | None => false
    end.

Definition should_compact_with_state (current_tokens context_limit : nat)
    (token_usage_velocity : option spec_float) (s : CompactionState) : bool :=
  if circuit_open s then false
  else should_compact_reactively current_tokens context_limit token_usage_velocity.

(** ** The timer of the count pass ([cached.rs]) *)

Record CachedMcConfig := {
  cached_enabled : bool;
  interval : Z;
  cached_keep : nat;
}.

Record CachedMicroCompact := {
  config : CachedMcConfig;
  last_run : Z;
  run_count : Z;
  pending_edits : list str;
}.

Definition cached_new (now : Z) (c : CachedMcConfig) : CachedMicroCompact :=
  Build_CachedMicroCompact c now 0 [].

Definition should_run (now : Z) (c : CachedMicroCompact) : bool :=
  cached_enabled (config c) && bool_decide (interval (config c) ≤ elapsed now (last_run c))%Z.

Definition record_pass (now : Z) (c : CachedMicroCompact) (ids : list str) : CachedMicroCompact :=
  Build_CachedMicroCompact (config c) now (run_count c + 1) ids.

Definition keep_recent (c : CachedMicroCompact) : nat := cached_keep (config c).

Definition consume_pending_edits (c : CachedMicroCompact) : list str * CachedMicroCompact :=
  (pending_edits c, Build_CachedMicroCompact (config c) (last_run c) (run_count c) []).

Definition get_pinned_cache_edits (c : CachedMicroCompact) : list str := pending_edits c.

(** [run]: the pass and its record at once. *)
Definition cached_run (now : Z) (c : CachedMicroCompact) (ms : list ModelMessage)
    : list ModelMessage * CachedMicroCompact * nat :=
  if negb (cached_enabled (config c)) then (ms, c, 0)
  else
    let '(ms, cleared, ids) := clear_stale_tool_results ms (cached_keep (config c)) in
    (ms, record_pass now c ids, cleared).

(** The scan of [build_cache_edits]: the ids past the newest [keep_recent]
    results, once each. *)
Definition edit_step (keep_recent : nat) (s : nat * list str) (id : str) : nat * list str :=
  let '(count, ids) := s in
  let count := S count in
  if bool_decide (keep_recent < count) && negb (bool_decide (id = [])) &&
     negb (bool_decide (id ∈ ids))
  then (count, ids ++ [id]) else (count, ids).

Definition build_cache_edits (ms : list ModelMessage) (keep_recent : nat) : list str :=
  (foldl (edit_step keep_recent) (0, [])
     (reverse ms ≫= λ m, if decide (role m = RoleUser) then tool_results m else [])).2.

Definition format_cache_edit (tool_use_ids : list str) : option value :=
  if bool_decide (tool_use_ids = []) then None
  else
    Some (VObject
      [(lit "type", VString "cache_edits");
       (lit "cache_edits",
        VArray ((λ id, VObject [(lit "type", VString "delete_tool_result");
                                (lit "tool_use_id", VString id)]) <$> tool_use_ids))]).

(** ** The interface *)

Record AgingInput := {
  ages : list (nat * Z);
  time_based_config : TimeBasedMcConfig;
  cached_due : bool;
  cached_keep_recent : nat;
}.

(** [Aging]. *)
Record Aged := {
  time_based : TimeBasedMcResult;
  cached_cleared : nat;
  cache_edits : option (list str);
}.

Definition Aged_default : Aged := Build_Aged (Build_TimeBasedMcResult 0 0) 0 None.

Definition aged_cleared (a : Aged) : nat := cleared (time_based a) + cached_cleared a.

Record ReactiveInput := {
  context_tokens : nat;
  context_limit : nat;
  reactive_keep : nat;
  enabled : bool;
  input_circuit_open : bool;
}.

Inductive ReactiveOutcome := NotTriggered | Compacted | NoEffect.

#[export] Instance ReactiveOutcome_eq_dec : EqDecision ReactiveOutcome.
Proof. solve_decision. Defined.

Record BudgetState := {
  budget_tokens : nat;
  threshold : nat;
  warned_already : bool;
}.

(** [Compactor]. *)
Class Compactor := {
  transform : list ModelMessage → nat → nat →
    result (list ModelMessage * CompactResult) CompactError;
  age : Z → list ModelMessage → AgingInput → list ModelMessage * Aged;
  reactive : list ModelMessage → ReactiveInput → list ModelMessage * ReactiveOutcome;
  context_warning : BudgetState → option str;
  should_compact : BudgetState → bool;
  trim_tool_results : list ModelMessage → list ModelMessage * nat;
  wants_llm_summary : list ModelMessage → nat → nat → bool;
}.

Section Engine.
Context `{TokenCounter} (show_percent : nat → nat → str).

(** [estimate_token_velocity]. *)
Definition estimate_token_velocity (ms : list ModelMessage) : option spec_float :=
  if bool_decide (length ms < 4) then None
  else
    let total := estimate_tokens ms in
    let per_message := f64_div (f64_of (Z.of_nat total)) (f64_of (Z.of_nat (length ms))) in
    Some (f64_mul per_message (f64_of 2)).

(** *** The defaults of the trait *)

Definition default_age (now : Z) (ms : list ModelMessage) (input : AgingInput)
    : list ModelMessage * Aged :=
  let '(ms, tb) :=
    if bool_decide (is_Some (max_age (time_based_config input)))
    then apply_time_based_mc now ms (time_based_config input) (ages input)
    else (ms, Build_TimeBasedMcResult 0 0) in
  if cached_due input then
    let '(ms, cleared, ids) := clear_stale_tool_results ms (cached_keep_recent input) in
    (ms, Build_Aged tb cleared (Some ids))
  else (ms, Build_Aged tb 0 None).

Definition default_reactive (ms : list ModelMessage) (input : ReactiveInput)
    : list ModelMessage * ReactiveOutcome :=
  if negb (enabled input) || bool_decide (context_limit input = 0) || input_circuit_open input
  then (ms, NotTriggered)
  else
    let velocity := estimate_token_velocity ms in
    if negb (should_compact_reactively (context_tokens input) (context_limit input) velocity)
    then (ms, NotTriggered)
    else
      let keep := Nat.max (reactive_keep input) 5 in
      if bool_decide (length (group_by_api_round ms) ≤ keep) then (ms, NotTriggered)
      else
        let before := estimate_tokens ms in
        let compacted := micro_compact ms keep in
        if bool_decide (before ≤ estimate_tokens compacted) then (ms, NoEffect)
        else (compacted, Compacted).

Definition default_context_warning (s : BudgetState) : option str :=
  if bool_decide (threshold s = 0) || warned_already s then None
  else
    let warn_at := Z.to_nat (f64_to_u64 (f64_mul (f64_of (Z.of_nat (threshold s))) f64_0_8)) in
    if bool_decide (budget_tokens s ≤ warn_at) || bool_decide (threshold s < budget_tokens s)
    then None
    else
      Some (lit "<system-reminder>" ++ [10%N] ++ lit "⚠️ Context is at " ++
            show_percent (budget_tokens s) (threshold s) ++ lit "% of the token budget (" ++
            lit (pretty (budget_tokens s)) ++ lit "/" ++ lit (pretty (threshold s)) ++
            lit " tokens). The conversation will be compacted soon to make room. " ++
            lit "If you have pending work, wrap it up or ask the user what to preserve." ++
            [10%N] ++ lit "</system-reminder>").

Definition default_should_compact (s : BudgetState) : bool :=
  bool_decide (0 < threshold s) && bool_decide (threshold s < budget_tokens s).

Definition default_trim (budget : ToolResultBudget) (ms : list ModelMessage)
    : list ModelMessage * nat := enforce_tool_result_budget ms budget.

(** *** The implementations *)

Definition DefaultCompactor : Compactor :=
  {| transform ms max_tokens keep_rounds := Ok (compact ms max_tokens keep_rounds);
     age := default_age;
     reactive := default_reactive;
     context_warning := default_context_warning;
     should_compact := default_should_compact;
     trim_tool_results := default_trim ToolResultBudget_default;
     wants_llm_summary := should_summarize |}.

(** [OnlyAtThreshold]: everything it does not override has the trait's
    default. *)
Definition OnlyAtThreshold (inner : Compactor) : Compactor :=
  {| transform := @transform inner;
     age _ ms _ := (ms, Aged_default);
     reactive ms _ := (ms, NotTriggered);
     context_warning _ := None;
     should_compact := default_should_compact;
     trim_tool_results := default_trim ToolResultBudget_default;
     wants_llm_summary := should_summarize |}.

End Engine.

(** ** What a compactor promises about pairing *)

Class PairingCompactor (c : Compactor) : Prop := {
  transform_paired ms max_tokens keep_rounds r res :
    transform ms max_tokens keep_rounds = Ok (r, res) → well_paired ms → well_paired r;
  age_paired now ms input :
    cached_due input = false → well_paired ms → well_paired (age now ms input).1;
  reactive_paired ms input : well_paired ms → well_paired (reactive ms input).1;
  trim_paired ms : well_paired ms → well_paired (trim_tool_results ms).1;
}.

Section EngineLemmas.
Context `{TokenCounter} (show_percent : nat → nat → str).

Lemma default_trim_paired budget ms : well_paired ms → well_paired (default_trim budget ms).1.
Proof. apply only_texts_paired, enforce_text. Qed.

Lemma default_age_paired now ms input :
  cached_due input = false → well_paired ms → well_paired (default_age now ms input).1.
Proof.
  intros Hdue Hw. unfold default_age. rewrite Hdue. case_bool_decide; [|done].
  pose proof (apply_time_based_mc_text now ms (time_based_config input) (ages input)) as Ht.
  destruct (apply_time_based_mc _ _ _ _) as [ms' tb]. by eapply only_texts_paired.
Qed.

(** What the predictive pass comes to. *)
Lemma default_reactive_cases ms input ms' o :
  default_reactive ms input = (ms', o) →
  (o ≠ Compacted ∧ ms' = ms) ∨
  (o = Compacted ∧ ms' = micro_compact ms (Nat.max (reactive_keep input) 5) ∧
   estimate_tokens ms' < estimate_tokens ms ∧
   enabled input = true ∧ context_limit input ≠ 0 ∧ input_circuit_open input = false).
Proof.
  unfold default_reactive. destruct (enabled input) eqn:He; cbn [negb orb];
    [|intros [= <- <-]; by left].
  destruct (bool_decide (context_limit input = 0)) eqn:Hl; cbn [orb];
    [intros [= <- <-]; by left|].
  apply bool_decide_eq_false in Hl.
  destruct (input_circuit_open input); [intros [= <- <-]; by left|].
  destruct (negb _); [intros [= <- <-]; by left|].
  case_bool_decide; [intros [= <- <-]; by left|].
  case_bool_decide; intros [= <- <-]; [by left|right]. split_and!; try done. lia.
Qed.

#[export] Instance DefaultCompactor_pairing : PairingCompactor (DefaultCompactor show_percent).
Proof.
  split; cbn [transform age reactive trim_tool_results DefaultCompactor].
  - intros ms max keep r res [= Hc] Hw. pose proof (compact_paired ms max keep Hw) as Hp.
    by rewrite Hc in Hp.
  - apply default_age_paired.
  - intros ms input Hw. destruct (default_reactive ms input) as [ms' o] eqn:E.
    apply default_reactive_cases in E as [[_ ->]|(_&->&_)]; [done|by apply micro_compact_paired].
  - intros ms. apply default_trim_paired.
Qed.

#[export] Instance OnlyAtThreshold_pairing (inner : Compactor) :
  PairingCompactor inner → PairingCompactor (OnlyAtThreshold inner).
Proof.
  intros Hin. split; cbn [transform age reactive trim_tool_results OnlyAtThreshold]; try done.
  - apply Hin.
  - intros ms. apply default_trim_paired.
Qed.

End EngineLemmas.

(** ** The scan for the provider's cache *)

Definition result_id_at (ms : list ModelMessage) (ij : nat * nat) : str :=
  default [] (block_at ms ij ≫= tool_result_id_of).

(** Every id a user message answers, newest message first. *)
Definition answered_ids (ms : list ModelMessage) : list str :=
  reverse ms ≫= λ m, if decide (role m = RoleUser) then tool_results m else [].

Lemma result_ids_of_message ms i m k (bs : list ModelContentBlock) :
  (∀ j b, bs !! j = Some b → block_at ms (i, k + j) = Some b) →
  result_id_at ms <$>
    omap (λ jb : nat * ModelContentBlock,
            if is_tool_result jb.2 then Some (i, jb.1) else None) (imap (λ j b, (k + j, b)) bs) =
  tool_results (Build_ModelMessage m bs).
Proof.
  revert k. induction bs as [|b bs IH]; intros k Hbs; [done|].
  assert (IH' := IH (S k)). cbn [imap omap list_omap tool_results content fst snd] in *.
  unfold tool_results in *. cbn [content omap list_omap] in *.
  rewrite (imap_ext _ (λ j c, (S k + j, c))) by (intros; cbn; f_equal; lia).
  assert (Htl : ∀ j c, bs !! j = Some c → block_at ms (i, S k + j) = Some c).
  { intros j c Hc. replace (S k + j) with (k + S j) by lia. by apply Hbs. }
  specialize (IH' Htl). assert (Hb := Hbs 0 b eq_refl).
  destruct b; cbn [is_tool_result tool_result_id_of]; try exact IH'.
  rewrite fmap_cons. f_equal; [|exact IH']. unfold result_id_at. by rewrite Hb.
Qed.

Lemma result_ids ms : result_id_at ms <$> result_positions ms = answered_ids ms.
Proof.
  unfold result_positions, answered_ids.
  replace (reverse ms) with ((reverse (enumerate ms)).*2)
    by (by rewrite fmap_reverse, enumerate_snd).
  assert (Hin : ∀ im, im ∈ reverse (enumerate ms) → ms !! im.1 = Some im.2).
  { intros [i m]. rewrite elem_of_reverse. apply elem_of_enumerate. }
  induction (reverse (enumerate ms)) as [|[i m] l IH]; [done|].
  cbn [mbind list_bind fmap list_fmap fst snd]. rewrite fmap_app. f_equal.
  - destruct (decide (role m = RoleUser)); [|done].
    pose proof (result_ids_of_message ms i (role m) 0 (content m)) as Hm.
    destruct m as [r bs]. apply Hm. intros j b Hb. unfold block_at. cbn [fst snd].
    specialize (Hin (i, Build_ModelMessage r bs) ltac:(by left)). cbn [fst snd] in Hin.
    by rewrite Hin.
  - apply IH. intros im Him. apply Hin. by right.
Qed.

Lemma edit_steps keep l count ids :
  NoDup ids →
  let r := foldl (edit_step keep) (count, ids) l in
  NoDup r.2 ∧ ∀ id, id ∈ r.2 ↔ id ∈ ids ∨ (id ∈ drop (keep - count) l ∧ id ≠ []).
Proof.
  revert count ids. induction l as [|x l IH]; intros count ids Hnd; cbn [foldl].
  { split; [done|]. intros id. rewrite drop_nil. set_solver. }
  set (s := edit_step keep (count, ids) x).
  assert (Hs : s.1 = S count ∧ NoDup s.2 ∧
    ∀ id, id ∈ s.2 ↔ id ∈ ids ∨ (keep < S count ∧ id = x ∧ id ≠ [])).
  { unfold s, edit_step. repeat case_bool_decide; cbn [andb negb fst snd];
      (split; [done|split; [|set_solver]]); try done.
    apply NoDup_app. split_and!; [done|set_solver|apply NoDup_singleton]. }
  destruct Hs as (Hc&Hn&Hids). destruct s as [c' ids']. cbn [fst snd] in *. subst c'.
  destruct (IH (S count) ids' Hn) as [HN Hr]. split; [done|]. intros id. rewrite Hr, Hids.
  destruct (decide (keep < S count)).
  - replace (keep - S count) with 0 by lia. replace (keep - count) with 0 by lia.
    rewrite !drop_0. set_solver by lia.
  - replace (keep - count) with (S (keep - S count)) by lia. cbn [drop]. set_solver by lia.
Qed.

(** ** Theorems *)

(** The predictive pass only helps: it changes the conversation only when it
    is enabled, there is a limit and its breaker is closed, and then the new
    conversation takes strictly fewer tokens, keeps its newest round and
    makes and answers the same calls; a pass that would not save anything
    reports it and changes nothing. *)
Theorem reactive_only_helps `{TokenCounter} ms input ms' o :
  default_reactive ms input = (ms', o) →
  (o = Compacted ↔ ms' ≠ ms) ∧
  (o = Compacted →
     enabled input = true ∧ context_limit input ≠ 0 ∧ input_circuit_open input = false ∧
     estimate_tokens ms' < estimate_tokens ms ∧
     newest_round ms `suffix_of` ms' ∧ Forall2 same_calls ms ms').
Proof.
  intros [[Ho ->]|(->&->&Hlt&?&?&?)]%default_reactive_cases; [naive_solver|].
  split; [split; [|done]; intros _ E; rewrite E in Hlt; lia|]. intros _. split_and!; try done.
  - apply micro_compact_newest. lia.
  - apply micro_compact_calls.
Qed.

(** The scan for the provider's cache finds what the count pass clears: the
    ids the pass reports, each of them once. *)
Theorem cache_edits_are_what_is_cleared ms keep :
  NoDup (build_cache_edits ms keep) ∧
  ∀ id, id ∈ build_cache_edits ms keep ↔ id ∈ (clear_stale_tool_results ms keep).2.
Proof.
  destruct (edit_steps keep (answered_ids ms) 0 [] (NoDup_nil_2)) as [Hnd Hids].
  split; [exact Hnd|]. intros id. unfold build_cache_edits. fold (answered_ids ms).
  rewrite Hids, Nat.sub_0_r, <-result_ids, <-fmap_drop.
  destruct (clear_stale_tool_results ms keep) as [[ms' n] ids] eqn:E.
  apply clear_stale_blocks in E as (_&->&_&_). cbn [snd].
  rewrite list_elem_of_omap, list_elem_of_fmap. unfold result_id_at, reported. split.
  - intros [[]%not_elem_of_nil|[(ij&->&Hij) Hne]]. exists ij. split; [done|].
    destruct (block_at ms ij) as [b|]; [|done]. cbn [mbind option_bind default] in *.
    destruct (tool_result_id_of b); [|done]. cbn in *. by rewrite decide_False by done.
  - intros (ij&Hij&Hr). right. destruct (block_at ms ij) as [b|] eqn:Hb; [|done].
    cbn [mbind option_bind] in Hr. destruct (tool_result_id_of b) as [i|] eqn:Hi; [|done].
    cbn in Hr. case_decide; [done|]. injection Hr as <-. split; [|done].
    exists ij. by rewrite Hb; cbn [mbind option_bind]; rewrite Hi.
Qed.

(** A breaker that opens after three failures in a row stays closed on fewer,
    and one success closes it; [should_compact_with_state] is deaf while it is
    open. *)
Theorem breaker_opens_at_three s tokens limit velocity :
  let after n := Nat.iter n record_failure (record_success s) in
  (∀ n, circuit_open (after n) = bool_decide (3 ≤ n)) ∧
  (∀ n, 3 ≤ n → should_compact_with_state tokens limit velocity (after n) = false) ∧
  record_success (record_failure s) = record_success s.
Proof.
  intros after.
  assert (H : ∀ n, consecutive_failures (after n) = n ∧ circuit_open (after n) = bool_decide (3 ≤ n)).
  { induction n as [|n [IHc IHo]]; [done|].
    change (after (S n)) with (record_failure (after n)). unfold record_failure.
    cbn [consecutive_failures circuit_open]. rewrite IHc, IHo.
    unfold MAX_CONSECUTIVE_FAILURES. split; [lia|]. repeat case_bool_decide; lia || done. }
  split_and!; [apply H| |done]. intros n Hn. unfold should_compact_with_state.
  destruct (H n) as [_ ->]. by rewrite bool_decide_eq_true_2.
Qed.

(** ** Witnesses *)

(** Seven rounds, the oldest of which read a file. *)
Definition long_conversation : list ModelMessage :=
  [user_text (lit "read it");
   Build_ModelMessage RoleAssistant [ToolUse (lit "a") (lit "Read") VNull];
   Build_ModelMessage RoleUser
     [ToolResult (lit "a") (lit "0123456789012345678901234567890123456789") (Some false)];
   Build_ModelMessage RoleAssistant [Text (lit "done")]] ++
  replicate 5 (user_text (lit "and now?")).

Lemma reactive_only_helps_witness :
  ∃ ms', @default_reactive char_counter long_conversation
           (Build_ReactiveInput 100 100 1 true false) = (ms', Compacted) ∧
    ms' ≠ long_conversation ∧
    @estimate_tokens char_counter ms' < @estimate_tokens char_counter long_conversation.
Proof.
  destruct (@default_reactive char_counter long_conversation
              (Build_ReactiveInput 100 100 1 true false)) as [ms' o] eqn:E.
  assert (Ho : o = Compacted) by (by rewrite <-(f_equal snd E : _ = o); vm_compute).
  destruct (@reactive_only_helps char_counter _ _ _ _ E) as [Hne Hlt].
  exists ms'. split; [by rewrite Ho|]. split; [by apply Hne|]. by destruct (Hlt Ho) as (_&_&_&?&_).
Defined.
