(* ===== verification/Recovery.v ===== *)
(** * What survives a compaction ([crates/compaction/src/compact.rs])

    The messages put in front of a compacted conversation: files read before,
    skills invoked, the plan, running tasks and loaded tools - and the scan
    that finds the files. *)

From stdpp Require Import base option numbers sets gmap strings pretty list sorting.
From S2P Require Import Prelude RustStr PermTypes Conversation Compaction Aging.

Record InvokedSkillRecord := {
  skill_name : str;
  skill_content : option str;
  last_seq : Z;
}.

Record PostCompactContext := {
  recent_files : list (str * str);
  invoked_skills : list InvokedSkillRecord;
  in_plan_mode : bool;
  plan_content : option str;
  activated_tools : list str;
  running_tasks : list (str * str);
}.

Definition MAX_RECOVER_FILES : nat := 5.
Definition MAX_CHARS_PER_FILE : nat := Z.to_nat 5000.
Definition MAX_CHARS_PER_SKILL : nat := Z.to_nat 20000.
Definition MAX_CHARS_SKILLS_TOTAL : nat := Z.to_nat 100000.

(** ** Files read *)

Definition FILE_READ_TOOLS : list str := [lit "Read"].

(** Pass 1, at one block: the later of two calls with one id counts. *)
Definition read_call (calls : gmap str str) (b : ModelContentBlock) : gmap str str :=
  match b with
  | ToolUse id name input =>
      if negb (bool_decide (name ∈ FILE_READ_TOOLS)) then calls
      else
        match value_get "file_path" input ≫= as_str with
        | Some path => if bool_decide (path = []) then calls else <[id := path]> calls
        | None => calls
        end
  | _ => calls
  end.

Definition read_calls (ms : list ModelMessage) : gmap str str :=
  foldl read_call ∅ (ms ≫= content).

(** Pass 2, at one block. *)
Definition recover_step (calls : gmap str str) (files : list (str * str)) (b : ModelContentBlock)
    : list (str * str) :=
  match b with
  | ToolResult tool_use_id content is_error =>
      if bool_decide (is_error = Some true) || bool_decide (content = []) then files
      else
        match calls !! tool_use_id with
        | None => files
        | Some path => if bool_decide (path ∈ files.*1) then files else files ++ [(path, content)]
        end
  | _ => files
  end.

Definition extract_recent_reads (ms : list ModelMessage) : list (str * str) :=
  let calls := read_calls ms in
  if bool_decide (calls = ∅) then []
  else foldl (recover_step calls) [] (reverse ms ≫= content).

(** ** The messages *)

Definition nl : str := [10%N].

Definition reminder (body : str) : ModelMessage :=
  user_text (lit "<system-reminder>" ++ nl ++ body ++ nl ++ lit "</system-reminder>").

(** Texts longer than [max] are cut and end in [mark]. *)
Definition capped_text (max : nat) (mark text : str) : str :=
  if bool_decide (max < len text) then truncate_at_char_boundary text max ++ mark else text.

Definition rule : str := nl ++ nl ++ lit "---" ++ nl ++ nl.

Definition file_section (f : str * str) : str :=
  lit "## " ++ f.1 ++ nl ++ nl ++
  capped_text MAX_CHARS_PER_FILE (lit "..." ++ nl ++ lit "[content truncated]") f.2.

Definition files_message (files : list (str * str)) : list ModelMessage :=
  if bool_decide (files = []) then []
  else
    [reminder
       (lit "The following files were read before context compaction and may still be relevant:" ++
        nl ++ nl ++ join rule (file_section <$> take MAX_RECOVER_FILES files))].

(** [sort_by_key(Reverse(last_seq))]. *)
Definition more_recent (a b : InvokedSkillRecord) : Prop := (last_seq b ≤ last_seq a)%Z.

#[export] Instance more_recent_dec a b : Decision (more_recent a b).
Proof. unfold more_recent. apply _. Defined.

(** The loop over the skills: the sections, the characters they spent and the
    names left out. *)
Definition skill_step (s : list str * nat * list str) (skill : InvokedSkillRecord)
    : list str * nat * list str :=
  let '(sections, spent, dropped) := s in
  match skill_content skill with
  | None => (sections, spent, dropped ++ [skill_name skill])
  | Some content =>
      let capped := capped_text MAX_CHARS_PER_SKILL (lit "...[truncated]") content in
      if bool_decide (MAX_CHARS_SKILLS_TOTAL < spent + len capped)
      then (sections, spent, dropped ++ [skill_name skill])
      else (sections ++ [lit "## " ++ skill_name skill ++ nl ++ nl ++ capped],
            spent + len capped, dropped)
  end.

Definition skill_sections (skills : list InvokedSkillRecord) : list str * nat * list str :=
  foldl skill_step ([], 0, []) (merge_sort more_recent skills).

Definition skills_message (skills : list InvokedSkillRecord) : list ModelMessage :=
  if bool_decide (skills = []) then []
  else
    let '(sections, _, dropped) := skill_sections skills in
    [reminder
       (lit "The following skills were invoked before compaction — their instructions may still apply. Full content for the most recently used ones is repeated below; re-invoke any skill via the Skill tool if you need the exact steps again." ++
        nl ++ nl ++ join rule sections ++
        (if bool_decide (dropped = []) then []
         else nl ++ nl ++
              lit "(Also invoked before compaction, but dropped here for budget — re-invoke if needed: " ++
              join (lit ", ") dropped ++ lit ")"))].

Definition plan_message (in_plan_mode : bool) (plan_content : option str) : list ModelMessage :=
  if in_plan_mode then
    match plan_content with
    | Some plan =>
        [reminder (lit "Plan mode is still active. The current plan:" ++ nl ++ nl ++
           capped_text MAX_CHARS_PER_FILE (lit "..." ++ nl ++ lit "[plan content truncated]") plan)]
    | None => [reminder (lit "Plan mode is still active. Continue operating in plan mode.")]
    end
  else [].

Definition tasks_message (tasks : list (str * str)) : list ModelMessage :=
  if bool_decide (tasks = []) then []
  else
    [reminder (lit "The following background tasks are still running:" ++ nl ++ nl ++
       join nl ((λ t, lit "- task:" ++ t.1 ++ lit " — " ++ t.2) <$> tasks))].

Definition tools_message (tools : list str) : list ModelMessage :=
  if bool_decide (tools = []) then []
  else
    [reminder (lit "These deferred tools were loaded earlier with ToolSearch: " ++
       join (lit ", ") tools ++
       lit ". If a schema it returned is no longer in the conversation, load it again with ToolSearch (select:<name>) before calling that tool.")].

Definition build_post_compact_recovery (ctx : PostCompactContext) : list ModelMessage :=
  files_message (recent_files ctx) ++ skills_message (invoked_skills ctx) ++
  plan_message (in_plan_mode ctx) (plan_content ctx) ++ tasks_message (running_tasks ctx) ++
  tools_message (activated_tools ctx).

(** ** What the scan finds *)

(** The calls of the conversation that read a file, in order. *)
Definition file_reads (ms : list ModelMessage) : list (str * str) :=
  omap (λ b,
    match b with
    | ToolUse id name input =>
        if decide (name ∈ FILE_READ_TOOLS) then
          match value_get "file_path" input ≫= as_str with
          | Some path => if decide (path = []) then None else Some (id, path)
          | None => None
          end
        else None
    | _ => None
    end) (ms ≫= content).

Lemma read_calls_elem bs (calls : gmap str str) id path :
  foldl read_call calls bs !! id = Some path →
  calls !! id = Some path ∨
  ∃ name input, ToolUse id name input ∈ bs ∧ name ∈ FILE_READ_TOOLS ∧
    value_get "file_path" input ≫= as_str = Some path ∧ path ≠ [].
Proof.
  revert calls. induction bs as [|b bs IH]; intros calls; cbn [foldl]; [by left|].
  intros [Hc|(name&input&Hb&Hr)]%IH; [|right; exists name, input; split; [by right|done]].
  destruct b; cbn [read_call] in Hc; try by left.
  case_bool_decide as Hn; cbn [negb] in Hc; [|by left].
  destruct (value_get _ _ ≫= as_str) as [p|] eqn:E; [|by left].
  case_bool_decide as Hp; [by left|].
  destruct (decide (id0 = id)) as [->|Hne].
  - rewrite lookup_insert_eq in Hc. injection Hc as ->. right. exists name, input.
    split; [left|done].
  - rewrite lookup_insert_ne in Hc by done. by left.
Qed.

(** Where a recovered text comes from: a result that is no error, of a call
    that read the path. *)
Definition recovered_from (ms : list ModelMessage) (f : str * str) : Prop :=
  ∃ id name input e,
    ToolResult id f.2 e ∈ ms ≫= content ∧ e ≠ Some true ∧ f.2 ≠ [] ∧
    ToolUse id name input ∈ ms ≫= content ∧ name ∈ FILE_READ_TOOLS ∧
    value_get "file_path" input ≫= as_str = Some f.1.

Lemma recover_steps calls bs files (P : str * str → Prop) :
  (∀ id content e path, ToolResult id content e ∈ bs → e ≠ Some true → content ≠ [] →
     calls !! id = Some path → P (path, content)) →
  Forall P files → NoDup files.*1 →
  Forall P (foldl (recover_step calls) files bs) ∧ NoDup (foldl (recover_step calls) files bs).*1.
Proof.
  revert files. induction bs as [|b bs IH]; intros files Hb Hf Hnd; cbn [foldl]; [done|].
  apply IH.
  - intros id c e path Hin. apply Hb. by right.
  - destruct b; cbn [recover_step]; try done.
    case_bool_decide; [done|]. case_bool_decide; [done|]. cbn [orb].
    destruct (calls !! tool_use_id) as [path|] eqn:E; [|done].
    case_bool_decide; [done|]. apply Forall_app. split; [done|].
    constructor; [|done]. eapply Hb; [by left|done..].
  - destruct b; cbn [recover_step]; try done.
    case_bool_decide; [done|]. case_bool_decide; [done|]. cbn [orb].
    destruct (calls !! tool_use_id) as [path|] eqn:E; [|done].
    case_bool_decide as Hnew; [done|]. rewrite fmap_app. apply NoDup_app. split; [done|].
    split; [|apply NoDup_singleton]. intros x Hx ->%list_elem_of_singleton. by apply Hnew.
Qed.

Lemma elem_of_reverse_content (b : ModelContentBlock) ms :
  b ∈ reverse ms ≫= content ↔ b ∈ ms ≫= content.
Proof. rewrite !list_elem_of_bind. setoid_rewrite elem_of_reverse. done. Qed.

Lemma extract_recent_reads_spec ms :
  Forall (recovered_from ms) (extract_recent_reads ms) ∧ NoDup (extract_recent_reads ms).*1.
Proof.
  unfold extract_recent_reads. case_bool_decide; [split; [constructor|apply NoDup_nil_2]|].
  apply recover_steps; [|constructor|apply NoDup_nil_2].
  intros id c e path Hin He Hc Hcall. rewrite elem_of_reverse_content in Hin.
  apply read_calls_elem in Hcall as [Hnone|(name&input&Hu&Hn&Hp&_)].
  - by rewrite lookup_empty in Hnone.
  - exists id, name, input, e. cbn [fst snd]. split_and!; try done.
Qed.

(** The results that could be recovered, newest message first. *)
Definition candidates (ms : list ModelMessage) : list (str * str) :=
  omap (λ b,
    match b with
    | ToolResult id content e =>
        if decide (e = Some true ∨ content = []) then None
        else (λ path, (path, content)) <$> read_calls ms !! id
    | _ => None
    end) (reverse ms ≫= content).

Lemma recover_steps_first calls bs files :
  let found := omap (λ b,
    match b with
    | ToolResult id content e =>
        if decide (e = Some true ∨ content = []) then None
        else (λ path, (path, content)) <$> calls !! id
    | _ => None
    end) bs in
  (∀ f, f ∈ files → f ∈ foldl (recover_step calls) files bs) ∧
  ∀ pre f post, found = pre ++ f :: post → f.1 ∉ pre.*1 → f.1 ∉ files.*1 →
    f ∈ foldl (recover_step calls) files bs.
Proof.
  revert files. induction bs as [|b bs IH]; intros files; cbn [omap list_omap foldl].
  { split; [done|]. by intros [|]. }
  destruct b as [| | | | |id c e]; cbn [recover_step] in *; try (by apply IH).
  destruct (decide (e = Some true ∨ c = [])) as [Hskip|Hok].
  { rewrite (proj2 (orb_true_iff _ _)); [by apply IH|].
    rewrite !bool_decide_eq_true. done. }
  rewrite (proj2 (orb_false_iff _ _))
    by (rewrite !bool_decide_eq_false; split; intros E; apply Hok; auto).
  destruct (calls !! id) as [path|] eqn:Ep; cbn [fmap option_fmap option_map]; [|by apply IH].
  case_bool_decide as Hp.
  - split; [exact (proj1 (IH files))|]. intros [|x pre] f post; cbn [app].
    + intros [= <- _] _ Hf. by cbn in Hf.
    + intros [= <- Hpost] Hpre Hf. eapply IH; [exact Hpost| |done].
      intros Hx. apply Hpre. cbn [fmap list_fmap]. by right.
  - split.
    + intros f Hf. apply IH. by apply elem_of_app; left.
    + intros [|x pre] f post; cbn [app].
      * intros [= <- _] _ _. apply IH. apply elem_of_app. right. by left.
      * intros [= <- Hpost] Hpre Hf. eapply IH; [exact Hpost| |].
        -- intros Hx. apply Hpre. cbn [fmap list_fmap]. by right.
        -- rewrite fmap_app, elem_of_app. intros [Hx|Hx]; [done|].
           apply Hpre. cbn [fmap list_fmap]. cbn in Hx.
           apply list_elem_of_singleton in Hx. rewrite Hx. by left.
Qed.

Lemma extract_first ms pre f post :
  candidates ms = pre ++ f :: post → f.1 ∉ pre.*1 → f ∈ extract_recent_reads ms.
Proof.
  intros Hc Hpre. unfold extract_recent_reads. case_bool_decide as Hnone.
  - exfalso. assert (Hf : f ∈ candidates ms) by (rewrite Hc; apply elem_of_app; right; by left).
    unfold candidates in Hf. apply list_elem_of_omap in Hf as (b&_&Hb).
    destruct b; try done. rewrite Hnone, lookup_empty in Hb. by destruct (decide _).
  - eapply recover_steps_first; [exact Hc|done|]. cbn. apply not_elem_of_nil.
Qed.

(** ** How much is added *)

Lemma capped_text_len max mark text : len (capped_text max mark text) ≤ max + len mark.
Proof.
  unfold capped_text. case_bool_decide; [|lia]. rewrite len_app.
  pose proof (truncate_len text max). lia.
Qed.

Lemma skill_steps_spec skills sections spent dropped :
  spent ≤ MAX_CHARS_SKILLS_TOTAL →
  let '(sections', spent', dropped') := foldl skill_step (sections, spent, dropped) skills in
  spent ≤ spent' ≤ MAX_CHARS_SKILLS_TOTAL ∧
  length sections' + length dropped' = length sections + length dropped + length skills ∧
  sum_list (len <$> sections') + spent ≤
    sum_list (len <$> sections) + spent' + sum_list ((λ s, 5 + len (skill_name s)) <$> skills).
Proof.
  revert sections spent dropped. induction skills as [|skill skills IH];
    intros sections spent dropped Hs; cbn [foldl]; [cbn; lia|].
  assert (Hskip : skill_step (sections, spent, dropped) skill =
            (sections, spent, dropped ++ [skill_name skill]) ∨
          ∃ capped, spent + len capped ≤ MAX_CHARS_SKILLS_TOTAL ∧
            skill_step (sections, spent, dropped) skill =
            (sections ++ [lit "## " ++ skill_name skill ++ nl ++ nl ++ capped],
             spent + len capped, dropped)).
  { unfold skill_step. destruct (skill_content skill); [|by left].
    case_bool_decide; [by left|]. right. eexists. split; [|done]. lia. }
  destruct Hskip as [->|(capped&Hfit&->)].
  - specialize (IH sections spent (dropped ++ [skill_name skill]) Hs).
    destruct (foldl _ _ skills) as [[se sp] dr]. rewrite length_app in IH.
    cbn [length fmap list_fmap sum_list] in *. lia.
  - specialize (IH (sections ++ [lit "## " ++ skill_name skill ++ nl ++ nl ++ capped])
                  (spent + len capped) dropped Hfit).
    destruct (foldl _ _ skills) as [[se sp] dr].
    rewrite length_app, fmap_app, sum_list_with_app in IH.
    assert (Hlen : sum_list_with id (len <$> [lit "## " ++ skill_name skill ++ nl ++ nl ++ capped])
              = 5 + len (skill_name skill) + len capped).
    { cbn [fmap list_fmap sum_list_with]. rewrite !len_app. change (len nl) with 1.
      change (len (lit "## ")) with 3. unfold id. lia. }
    rewrite Hlen in IH. cbn [length fmap list_fmap sum_list_with] in *. unfold id in *. lia.
Qed.

(** ** Theorems *)

(** The files recovered are files the conversation read: each text is the
    result of a call that read its path, without an error; every path appears
    once; and of the results for a path the first one counts, newest message
    first. *)
Theorem recovered_reads ms :
  Forall (recovered_from ms) (extract_recent_reads ms) ∧ NoDup (extract_recent_reads ms).*1 ∧
  ∀ pre f post, candidates ms = pre ++ f :: post → f.1 ∉ pre.*1 →
    f ∈ extract_recent_reads ms.
Proof.
  destruct (extract_recent_reads_spec ms). split_and!; [done..|]. intros. by eapply extract_first.
Qed.

Lemma reminders_user (ms : list ModelMessage) :
  (∃ body, ms = [reminder body]) ∨ ms = [] →
  length ms ≤ 1 ∧ Forall (λ m, role m = RoleUser ∧ ∃ text, content m = [Text text]) ms.
Proof.
  intros [[body ->]| ->]; [|by split; [cbn; lia|constructor]].
  split; [cbn; lia|]. repeat constructor. by eexists.
Qed.

Lemma one_reminder ctx :
  Forall (λ ms, (∃ body, ms = [reminder body]) ∨ ms = [])
    [files_message (recent_files ctx); skills_message (invoked_skills ctx);
     plan_message (in_plan_mode ctx) (plan_content ctx); tasks_message (running_tasks ctx);
     tools_message (activated_tools ctx)].
Proof.
  repeat apply Forall_cons_2; [..|apply Forall_nil_2].
  - unfold files_message. case_bool_decide; [by right|left; by eexists].
  - unfold skills_message. case_bool_decide; [by right|left].
    destruct (skill_sections _) as [[? ?] ?]. by eexists.
  - unfold plan_message. destruct (in_plan_mode ctx); [left|by right].
    destruct (plan_content ctx); by eexists.
  - unfold tasks_message. case_bool_decide; [by right|left; by eexists].
  - unfold tools_message. case_bool_decide; [by right|left; by eexists].
Qed.

Lemma recovery_users ctx :
  length (build_post_compact_recovery ctx) ≤ 5 ∧
  Forall (λ m, role m = RoleUser ∧ ∃ text, content m = [Text text])
    (build_post_compact_recovery ctx).
Proof.
  pose proof (one_reminder ctx) as H. unfold build_post_compact_recovery.
  repeat match goal with
  | H : Forall _ (_ :: _) |- _ => apply Forall_cons in H as [?%reminders_user H]
  end.
  destruct_and!. rewrite !length_app, !Forall_app. split; [lia|by split_and!].
Qed.

(** Recovery is bounded: it adds at most five messages, all texts of the
    user's that answer no call; each of the at most five files takes at most
    5000 bytes and a few more; the skills take at most 100000 bytes together,
    beside their names, and every one of them is either repeated or named as
    left out. *)
Theorem recovery_is_bounded ctx f :
  (length (build_post_compact_recovery ctx) ≤ 5 ∧
   Forall (λ m, role m = RoleUser ∧ ∃ text, content m = [Text text])
     (build_post_compact_recovery ctx)) ∧
  len (file_section f) ≤ MAX_CHARS_PER_FILE + len f.1 + 28 ∧
  let '(sections, spent, dropped) := skill_sections (invoked_skills ctx) in
  spent ≤ MAX_CHARS_SKILLS_TOTAL ∧
  length sections + length dropped = length (invoked_skills ctx) ∧
  sum_list (len <$> sections) ≤
    MAX_CHARS_SKILLS_TOTAL + sum_list ((λ s, 5 + len (skill_name s)) <$> invoked_skills ctx).
Proof.
  split; [apply recovery_users|]. split.
  - unfold file_section. rewrite !len_app.
    pose proof (capped_text_len MAX_CHARS_PER_FILE (lit "..." ++ nl ++ lit "[content truncated]") f.2)
      as Hc.
    assert (len (lit "..." ++ nl ++ lit "[content truncated]") = 23) as E by by_compute.
    rewrite E in Hc. change (len nl) with 1. change (len (lit "## ")) with 3. lia.
  - unfold skill_sections.
    pose proof (skill_steps_spec (merge_sort more_recent (invoked_skills ctx)) [] 0 []
                  ltac:(lia)) as Hs.
    destruct (foldl _ _ _) as [[sections spent] dropped].
    destruct Hs as (?&?&?). cbn [length fmap list_fmap sum_list_with] in *.
    assert (Hsum : sum_list ((λ s, 5 + len (skill_name s)) <$> merge_sort more_recent (invoked_skills ctx))
              = sum_list ((λ s, 5 + len (skill_name s)) <$> invoked_skills ctx))
      by (by rewrite merge_sort_Permutation).
    rewrite Hsum in *. rewrite merge_sort_Permutation in *. split_and!; lia.
Qed.

(** ** What is recovered of a cleared result *)

Definition read_input (path : str) : value := VObject [(lit "file_path", VString path)].

(** A file read and an attempt that failed, both old. *)
Definition read_conversation : list ModelMessage :=
  [user_text "go";
   Build_ModelMessage RoleAssistant
     [ToolUse (lit "a") (lit "Read") (read_input (lit "/src/a.rs"));
      ToolUse (lit "b") (lit "Read") (read_input (lit "/missing"))];
   Build_ModelMessage RoleUser
     [ToolResult (lit "a") (lit "fn a() {}") (Some false);
      ToolResult (lit "b") (lit "no such file") (Some true)]].

(** Once [micro_compact] has cleared the results, the scan takes the notice
    for the file's text - and for that of a file that could not be read. *)
Lemma cleared_reads_are_recovered :
  extract_recent_reads read_conversation = [(lit "/src/a.rs", lit "fn a() {}")] ∧
  extract_recent_reads (clear_messages None read_conversation) =
    [(lit "/src/a.rs", CLEARED); (lit "/missing", CLEARED)].
Proof. split; by vm_compute. Qed.

(** Two reads of one file answered in one message: the earlier text is
    recovered. *)
Lemma stale_read_wins :
  extract_recent_reads
    [Build_ModelMessage RoleAssistant
       [ToolUse (lit "a") (lit "Read") (read_input (lit "/a"));
        ToolUse (lit "b") (lit "Read") (read_input (lit "/a"))];
     Build_ModelMessage RoleUser
       [ToolResult (lit "a") (lit "old") (Some false); ToolResult (lit "b") (lit "new") (Some false)]]
  = [(lit "/a", lit "old")].
Proof. by vm_compute. Qed.
