(* ===== verification/Messages.v ===== *)
(** * Stored messages and log lines ([crates/core/src/message.rs],
    [crates/history/src/entry.rs], [blob.rs])

    The transcript's own message type and the entries of a session's log.
    Constructors that several enums share live in a Module per enum: [Msg.User]
    is [Message::User], [Entry.User] is [LogEntry::User].  Instants are
    integers; an [Id] is its sixteen bytes read as a number. *)

From stdpp Require Import base option numbers strings list.
From Stdlib Require Import SpecFloat.
From S2P Require Import Prelude RustStr PermTypes.

Definition Id : Type := Z.
Definition SessionId : Type := Id.

(** ** Messages *)

Inductive StopReason :=
  | EndTurn | MaxTokens | StopToolUse | StopSequence | PauseTurn | MaxTurnsReached | Unknown.

#[export] Instance StopReason_eq_dec : EqDecision StopReason.
Proof. solve_decision. Defined.

Inductive SystemKind := LocalCommand | Reminder | Notice.

Inductive ImageSource := Base64 (media_type data : str) | Url (url : str).

Inductive CacheEdit := DeleteToolResult (tool_use_id : str).

Module Block.

Inductive ContentBlock :=
  | Text (text : str) (cache_control : option value)
  | Image (source : ImageSource)
  | ToolUse (id name : str) (input : value)
  | ToolResult (tool_use_id : str) (content : ToolResultContent) (is_error : bool)
  | Thinking (thinking : str) (signature provider : option str)
  | RedactedThinking (data : str) (provider : option str)
  | CacheEdits (cache_edits : list CacheEdit)
with ToolResultContent :=
  | TextContent (s : str)
  | Blocks (blocks : list ContentBlock).

End Block.

Notation ContentBlock := Block.ContentBlock.
Notation ToolResultContent := Block.ToolResultContent.

Module Msg.

Inductive Message :=
  | User (content : list ContentBlock)
  | Assistant (content : list ContentBlock) (stop_reason : option StopReason) (model : option str)
  | System (content : str) (kind : SystemKind).

End Msg.

Notation Message := Msg.Message.

(** ** Log entries *)

Record BlobRef := {
  blob_store : str;
  blob_id : str;
  describes : str;
  blob_bytes : Z;
}.

Inductive SessionKind := Primary | Sidechain.

Inductive SessionEndState := Completed | Failed.

Record UsageRecord := {
  input_tokens : Z;
  output_tokens : Z;
  cache_creation_input_tokens : option Z;
  cache_read_input_tokens : option Z;
}.

Record MetaEntry := {
  cwd : str;
  started_at : Z;
  meta_model : str;
  permission_mode : str;
  engine_version : str;
  attacode_version : str;
  parent_session_id : option str;
  scene : option str;
  project_root : option str;
  session_kind : SessionKind;
  schema_version : Z;
}.

Record CompactEntry := {
  before_tokens : Z;
  after_tokens : Z;
  summary_block_id : option Id;
  replacement_history : option (list Message);
  summary : option (list ContentBlock);
  snip_removed_uuids : option (list str);
}.

Record UsageTotals := {
  total_input : Z;
  total_output : Z;
  total_cache_creation : Z;
  total_cache_read : Z;
  total_cost_usd : spec_float;
}.

Module Entry.

Inductive LogEntry :=
  | Meta (m : MetaEntry)
  | User (content : list ContentBlock)
  | Assistant (content : list ContentBlock) (stop_reason : option StopReason)
      (usage : option UsageRecord) (model : option str)
  | ToolResult (tool_use_id : str) (content : ToolResultContent) (is_error : bool)
  | System (subkind : SystemKind) (text : str)
  | Compact (c : CompactEntry)
  | UsageSnapshot (t : UsageTotals)
  | PasteRef (paste_id : str)
  | Blob (blob : BlobRef)
  | SessionEnd (state : SessionEndState)
  | Extension (ns event : str) (payload : value).

End Entry.

Notation LogEntry := Entry.LogEntry.

Definition kind (e : LogEntry) : str :=
  match e with
  | Entry.Meta _ => "meta"
  | Entry.User _ => "user"
  | Entry.Assistant _ _ _ _ => "assistant"
  | Entry.ToolResult _ _ _ => "tool_result"
  | Entry.System _ _ => "system"
  | Entry.Compact _ => "compact"
  | Entry.UsageSnapshot _ => "usage_snapshot"
  | Entry.PasteRef _ => "paste_ref"
  | Entry.Blob _ => "blob"
  | Entry.SessionEnd _ => "session_end"
  | Entry.Extension _ _ _ => "extension"
  end.

(** [MessageOrigin]. *)
Inductive MessageOrigin := ByUser | BySteer | ByCommand | ByEngine | ByToolResult.

#[export] Instance MessageOrigin_eq_dec : EqDecision MessageOrigin.
Proof. solve_decision. Defined.

Record EntryTags := {
  tag_turn_id : option str;
  tag_origin : option MessageOrigin;
}.

Record EnvelopedEntry := {
  v : Z;
  entry_id : Id;
  ts : Z;
  entry_session_id : SessionId;
  parent_id : option Id;
  is_sidechain : bool;
  turn_id : option str;
  origin : option MessageOrigin;
  entry : LogEntry;
}.

Definition CURRENT_SCHEMA_VERSION : Z := 1.

(** [EnvelopedEntry::new_in], given the environment's next id and instant. *)
Definition new_in (new_id : Id) (now : Z) (session : SessionId) (e : LogEntry) : EnvelopedEntry :=
  {| v := CURRENT_SCHEMA_VERSION; entry_id := new_id; ts := now; entry_session_id := session;
     parent_id := None; is_sidechain := false; turn_id := None; origin := None; entry := e |}.

Definition with_tags (env : EnvelopedEntry) (tags : EntryTags) : EnvelopedEntry :=
  {| v := v env; entry_id := entry_id env; ts := ts env;
     entry_session_id := entry_session_id env; parent_id := parent_id env;
     is_sidechain := is_sidechain env; turn_id := tag_turn_id tags; origin := tag_origin tags;
     entry := entry env |}.

Definition with_parent (env : EnvelopedEntry) (parent : Id) : EnvelopedEntry :=
  {| v := v env; entry_id := entry_id env; ts := ts env;
     entry_session_id := entry_session_id env; parent_id := Some parent;
     is_sidechain := is_sidechain env; turn_id := turn_id env; origin := origin env;
     entry := entry env |}.

Definition as_sidechain (env : EnvelopedEntry) : EnvelopedEntry :=
  {| v := v env; entry_id := entry_id env; ts := ts env;
     entry_session_id := entry_session_id env; parent_id := parent_id env;
     is_sidechain := true; turn_id := turn_id env; origin := origin env;
     entry := entry env |}.

Definition is_compact (e : LogEntry) : bool :=
  match e with Entry.Compact _ => true | _ => false end.
