(* ===== verification/Transcript.v ===== *)
(** * Transcript projection ([crates/history/src/transcript.rs])

    How a session's log becomes the messages the model is given.  The rules
    are an interface, [TranscriptProjection], with two implementations; what
    holds of every projection that obeys [LawfulProjection] is proved against
    the interface. *)

From stdpp Require Import base option numbers strings list.
From S2P Require Import Prelude RustStr PermTypes Messages.

(** ** Projections *)

(** [apply] folds one entry into the view, by value. *)
Class TranscriptProjection := {
  apply : LogEntry → list Message → list Message;
  is_model_visible : LogEntry → bool;
}.

(** [messages.last_mut()] for a tool result. *)
Fixpoint push_result (block : ContentBlock) (messages : list Message) : list Message :=
  match messages with
  | [] => [Msg.User [block]]
  | [Msg.User content] => [Msg.User (content ++ [block])]
  | m :: ms => m :: push_result block ms
  end.

Definition apply_entry_to_messages (e : LogEntry) (messages : list Message) : list Message :=
  match e with
  | Entry.Meta _ | Entry.System _ _ | Entry.UsageSnapshot _ | Entry.PasteRef _
  | Entry.Blob _ | Entry.SessionEnd _ => messages
  | Entry.Extension _ _ _ => messages
  | Entry.User content => messages ++ [Msg.User content]
  | Entry.Assistant content stop_reason _ model =>
      messages ++ [Msg.Assistant content stop_reason model]
  | Entry.ToolResult tool_use_id content is_error =>
      push_result (Block.ToolResult tool_use_id content is_error) messages
  | Entry.Compact c =>
      match replacement_history c with
      | Some replacement_history => replacement_history
      | None =>
          match summary c with
          | Some [] => []
          | Some summary => [Msg.User summary]
          | None => messages
          end
      end
  end.

Definition DefaultProjection : TranscriptProjection :=
  {| apply := apply_entry_to_messages;
     is_model_visible e :=
       match e with
       | Entry.User _ | Entry.Assistant _ _ _ _ | Entry.ToolResult _ _ _ => true
       | _ => false
       end |}.

Definition ENGINE_NAMESPACE_PREFIX : str := "attacore.".

Definition covers (namespaces : list str) (ns : str) : bool :=
  if starts_with ENGINE_NAMESPACE_PREFIX ns then false
  else bool_decide (namespaces = []) || existsb (λ n, bool_decide (n = ns)) namespaces.

(** [ExtensionsAreVisible]; [render] prints a JSON value. *)
Definition ExtensionsAreVisible (render : value → str) (namespaces : list str)
    : TranscriptProjection :=
  {| apply e messages :=
       match e with
       | Entry.Extension ns event payload =>
           if negb (covers namespaces ns) then messages
           else
             messages ++ [Msg.User [Block.Text
               (lit "<" ++ ns ++ lit ":" ++ event ++ lit ">" ++ [10%N] ++ render payload ++ [10%N] ++
                lit "</" ++ ns ++ lit ":" ++ event ++ lit ">") None]]
       | _ => @apply DefaultProjection e messages
       end;
     is_model_visible e :=
       match e with
       | Entry.Extension ns _ _ => covers namespaces ns
       | other => @is_model_visible DefaultProjection other
       end |}.

Section Project.
Context `{TranscriptProjection}.

(** The body of every loop over the entries. *)
Definition project_entry (messages : list Message) (env : EnvelopedEntry) : list Message :=
  if is_sidechain env then messages else apply (entry env) messages.

Definition project_messages_with (entries : list EnvelopedEntry) : list Message :=
  foldl project_entry [] entries.

(** ** Sources *)

Record SourcedMessage := {
  message : Message;
  source_entry : EnvelopedEntry;
  part : option nat;
}.

Definition source_step (s : list Message * list (EnvelopedEntry * option nat))
    (env : EnvelopedEntry) : list Message * list (EnvelopedEntry * option nat) :=
  let '(messages, sources) := s in
  if is_sidechain env then s
  else
    let before := length messages in
    let messages := apply (entry env) messages in
    (messages,
     if is_compact (entry env)
     then (λ i, (env, Some i)) <$> seq 0 (length messages)
     else if bool_decide (before < length messages)
     then sources ++ ((λ _, (env, None)) <$> seq before (length messages - before))
     else take (length messages) sources).

Definition project_messages_sourced (entries : list EnvelopedEntry) : list SourcedMessage :=
  let '(messages, sources) := foldl source_step ([], []) entries in
  zip_with (λ m s, Build_SourcedMessage m s.1 s.2) messages sources.

(** ** Positions *)

Fixpoint lengths_from (messages : list Message) (entries : list EnvelopedEntry) : list nat :=
  match entries with
  | [] => []
  | env :: entries =>
      let messages := project_entry messages env in
      length messages :: lengths_from messages entries
  end.

Definition projected_lengths_with (entries : list EnvelopedEntry) : list nat :=
  lengths_from [] entries.

Fixpoint count_through (target_id : Id) (messages : list Message) (entries : list EnvelopedEntry)
    : option nat :=
  match entries with
  | [] => None
  | env :: entries =>
      let messages := project_entry messages env in
      if decide (entry_id env = target_id) then Some (length messages)
      else count_through target_id messages entries
  end.

Definition projected_message_count_through_entry_id_with (entries : list EnvelopedEntry)
    (target_id : Id) : option nat := count_through target_id [] entries.

Definition latest_projected_message_entry_id_with (entries : list EnvelopedEntry) : option Id :=
  entry_id <$> find_first (λ env, negb (is_sidechain env) && is_model_visible (entry env))
                 (reverse entries).

(** ** The report of a resume *)

Inductive ResumeProjectionWarning := EmptyHistory | EmptyProjection | EmptyCompactBoundary.

Record ResumeProjectionReport := {
  entry_count : nat;
  projected_message_count : nat;
  compact_boundary_count : nat;
  replacement_compact_count : nat;
  summary_fallback_compact_count : nat;
  sidechain_entry_count : nat;
  metadata_entry_count : nat;
  warning : option ResumeProjectionWarning;
}.

(** The locals of the loop: the five counters, [messages] and
    [saw_empty_compact]. *)
Record ReportState := {
  boundaries : nat;
  replacements : nat;
  fallbacks : nat;
  sidechains : nat;
  metadata : nat;
  report_messages : list Message;
  saw_empty_compact : bool;
}.

Definition report_step (s : ReportState) (env : EnvelopedEntry) : ReportState :=
  if is_sidechain env then
    Build_ReportState (boundaries s) (replacements s) (fallbacks s) (S (sidechains s))
      (metadata s) (report_messages s) (saw_empty_compact s)
  else
    match entry env with
    | Entry.Meta _ | Entry.System _ _ | Entry.UsageSnapshot _ | Entry.Extension _ _ _ =>
        Build_ReportState (boundaries s) (replacements s) (fallbacks s) (sidechains s)
          (S (metadata s)) (report_messages s) (saw_empty_compact s)
    | Entry.Compact c =>
        let messages := apply (entry env) (report_messages s) in
        if bool_decide (is_Some (replacement_history c)) then
          Build_ReportState (S (boundaries s)) (S (replacements s)) (fallbacks s) (sidechains s)
            (metadata s) messages (saw_empty_compact s)
        else if match summary c with Some summary => negb (bool_decide (summary = [])) | None => false end
        then
          Build_ReportState (S (boundaries s)) (replacements s) (S (fallbacks s)) (sidechains s)
            (metadata s) messages (saw_empty_compact s)
        else
          Build_ReportState (S (boundaries s)) (replacements s) (fallbacks s) (sidechains s)
            (metadata s) messages true
    | _ =>
        Build_ReportState (boundaries s) (replacements s) (fallbacks s) (sidechains s)
          (metadata s) (apply (entry env) (report_messages s)) (saw_empty_compact s)
    end.

Definition resume_projection_report_with (entries : list EnvelopedEntry)
    : ResumeProjectionReport :=
  let s := foldl report_step (Build_ReportState 0 0 0 0 0 [] false) entries in
  {| entry_count := length entries;
     projected_message_count := length (report_messages s);
     compact_boundary_count := boundaries s;
     replacement_compact_count := replacements s;
     summary_fallback_compact_count := fallbacks s;
     sidechain_entry_count := sidechains s;
     metadata_entry_count := metadata s;
     warning :=
       if bool_decide (length entries = 0) then Some EmptyHistory
       else if bool_decide (length (report_messages s) = 0) then Some EmptyProjection
       else if saw_empty_compact s then Some EmptyCompactBoundary
       else None |}.

End Project.

(** [compact_summary_from_messages]. *)
Definition compact_summary_from_messages (messages : list Message) : option (list ContentBlock) :=
  match messages with
  | Msg.User content :: _ => if bool_decide (content = []) then None else Some content
  | _ => None
  end.

Definition latest_stop_reason (messages : list Message) : option StopReason :=
  find_map (λ m, match m with Msg.Assistant _ stop_reason _ => stop_reason | _ => None end)
    (reverse messages).

(** ** Text views *)

Section Render.
Context (to_json : value → str).

(** [render_content_blocks] and [render_tool_result_content]; the text they
    push. *)
Fixpoint render_block (b : ContentBlock) : str :=
  match b with
  | Block.Text text _ => text ++ [10%N]
  | Block.Image _ => lit "[image]" ++ [10%N]
  | Block.ToolUse _ name input => lit "[tool " ++ name ++ lit "] " ++ to_json input ++ [10%N]
  | Block.ToolResult _ content is_error =>
      (if is_error then lit "[tool result error] " else lit "[tool result] ") ++
      render_tool_result_content content ++ [10%N]
  | Block.Thinking _ _ _ | Block.RedactedThinking _ _ => []
  | Block.CacheEdits _ => []
  end
with render_tool_result_content (c : ToolResultContent) : str :=
  match c with
  | Block.TextContent text => text
  | Block.Blocks blocks =>
      (fix render_content_blocks (bs : list ContentBlock) : str :=
         match bs with [] => [] | b :: bs => render_block b ++ render_content_blocks bs end) blocks
  end.

Definition render_content_blocks (content : list ContentBlock) : str := content ≫= render_block.

Definition render_search_text (messages : list Message) : str :=
  messages ≫= λ m,
    match m with
    | Msg.User content => lit "user: " ++ render_content_blocks content
    | Msg.Assistant content _ _ => lit "assistant: " ++ render_content_blocks content
    | Msg.System content _ => lit "system: " ++ content ++ [10%N]
    end.

Definition messages_match_query (messages : list Message) (query : str) : bool :=
  let q := to_lowercase (trim query) in
  if bool_decide (q = []) then true
  else contains q (to_lowercase (render_search_text messages)).

End Render.

Definition first_text (m : Message) : option str :=
  let in_content (content : list ContentBlock) :=
    find_map (λ block,
      match block with
      | Block.Text text _ => Some text
      | Block.ToolUse _ name _ => Some name
      | Block.ToolResult _ content _ =>
          match content with
          | Block.TextContent text => Some text
          | Block.Blocks blocks =>
              find_map (λ b, match b with Block.Text text _ => Some text | _ => None end) blocks
          end
      | Block.Image _ | Block.Thinking _ _ _ | Block.RedactedThinking _ _
      | Block.CacheEdits _ => None
      end) content in
  match m with
  | Msg.User content | Msg.Assistant content _ _ => in_content content
  | Msg.System content _ => Some content
  end.

Definition normalize_ws (text : str) : str := join (lit " ") (split_whitespace text).

Definition truncate_chars (text : str) (max_chars : nat) : str :=
  if bool_decide (length text ≤ max_chars) then text
  else take (max_chars - 1) text ++ lit "…".

(** The loop of [preview_messages], newest message first. *)
Fixpoint preview_parts (messages : list Message) (parts : list str) : list str :=
  match messages with
  | [] => parts
  | m :: ms =>
      match first_text m with
      | None => preview_parts ms parts
      | Some text =>
          let normalized := normalize_ws text in
          let parts := if bool_decide (normalized = []) then parts else parts ++ [normalized] in
          if bool_decide (2 ≤ length parts) then parts else preview_parts ms parts
      end
  end.

Definition preview_messages (messages : list Message) (max_chars : nat) : str :=
  let parts := preview_parts (reverse messages) [] in
  truncate_chars (join (lit " | ") (reverse parts)) max_chars.

(** ** What a projection promises *)

(** What a boundary puts in place of the view, if anything. *)
Definition replaced (c : CompactEntry) : option (list Message) :=
  match replacement_history c, summary c with
  | Some ms, _ => Some ms
  | None, Some [] => Some []
  | None, Some content => Some [Msg.User content]
  | None, None => None
  end.

(** [m'] is [m] with tool results folded in at the end. *)
Definition extends (m m' : Message) : Prop :=
  m' = m ∨
  ∃ content results, m = Msg.User content ∧ m' = Msg.User (content ++ results) ∧
    Forall (λ b, ∃ id c e, b = Block.ToolResult id c e) results.

#[export] Instance extends_preorder : PreOrder extends.
Proof.
  split.
  - intros m. by left.
  - intros m n o [->|(c&rs&->&->&Hrs)]; [done|].
    intros [->|(c'&rs'&[= <-]&->&Hrs')]; right.
    + exists c, rs. done.
    + exists c, (rs ++ rs'). rewrite app_assoc. split_and!; [done..|]. by apply Forall_app.
Qed.

(** An entry that contributes content adds a message, or folds a result into
    the last one; a boundary resets the view; nothing else changes it. *)
Class LawfulProjection (P : TranscriptProjection) := {
  apply_visible e ms :
    is_model_visible e = true →
    (∃ m, apply e ms = ms ++ [m] ∧ apply e [] = [m]) ∨
    (∃ ms0 m m', ms = ms0 ++ [m] ∧ apply e ms = ms0 ++ [m'] ∧ extends m m');
  apply_invisible e ms :
    is_model_visible e = false → is_compact e = false → apply e ms = ms;
  apply_compact c ms : apply (Entry.Compact c) ms = default ms (replaced c);
  compact_invisible c : is_model_visible (Entry.Compact c) = false;
}.

Lemma push_result_spec b ms :
  push_result b ms = ms ++ [Msg.User [b]] ∨
  ∃ ms0 content, ms = ms0 ++ [Msg.User content] ∧
    push_result b ms = ms0 ++ [Msg.User (content ++ [b])].
Proof.
  induction ms as [|m ms IH]; [by left|].
  assert ((∃ content, m = Msg.User content ∧ ms = []) ∨ push_result b (m :: ms) = m :: push_result b ms)
    as [(content&->&->)|E].
  { destruct m as [content| |]; [|by right..]. destruct ms; [left; eauto|by right]. }
  - right. by exists [], content.
  - rewrite E. destruct IH as [->|(ms0&content&->&->)]; [by left|].
    right. by exists (m :: ms0), content.
Qed.

#[export] Instance DefaultProjection_lawful : LawfulProjection DefaultProjection.
Proof.
  split.
  - intros e ms. destruct e; try done; cbn; intros _; [left; eauto..|].
    destruct (push_result_spec (Block.ToolResult tool_use_id content is_error) ms)
      as [E|(ms0&c&->&E)]; rewrite E; [left; eauto|].
    right. exists ms0, (Msg.User c), (Msg.User (c ++ [Block.ToolResult tool_use_id content is_error])).
    split_and!; [done..|]. right. exists c, [Block.ToolResult tool_use_id content is_error].
    split_and!; [done..|]. constructor; [eauto|constructor].
  - intros e ms. by destruct e.
  - intros [bt at_ sid [rh|] [[|b s]|] u] ms; done.
  - done.
Qed.

#[export] Instance ExtensionsAreVisible_lawful render namespaces :
  LawfulProjection (ExtensionsAreVisible render namespaces).
Proof.
  split.
  - intros e ms. destruct e; try apply DefaultProjection_lawful.
    cbn [is_model_visible apply ExtensionsAreVisible]. intros ->. cbn [negb]. left. eauto.
  - intros e ms. destruct e; try apply DefaultProjection_lawful.
    cbn [is_model_visible apply ExtensionsAreVisible]. by intros ->.
  - intros c ms. apply DefaultProjection_lawful.
  - done.
Qed.

(** ** Folding a log *)

Section Folding.
Context `{P : TranscriptProjection}.

Lemma project_app entries more :
  project_messages_with (entries ++ more) =
  foldl project_entry (project_messages_with entries) more.
Proof. apply foldl_app. Qed.

Lemma lengths_from_spec ms entries :
  lengths_from ms entries =
  (λ i, length (foldl project_entry ms (take (S i) entries))) <$> seq 0 (length entries).
Proof.
  revert ms. induction entries as [|env entries IH]; intros ms; [done|].
  cbn [lengths_from length seq fmap list_fmap]. f_equal.
  rewrite IH, <-fmap_S_seq, <-list_fmap_compose. done.
Qed.

Lemma count_through_spec id ms entries :
  count_through id ms entries =
  (λ it, length (foldl project_entry ms (take (S it.1) entries))) <$>
    list_find (λ env, entry_id env = id) entries.
Proof.
  revert ms. induction entries as [|env entries IH]; intros ms; [done|].
  cbn [count_through list_find]. case_decide; [done|].
  rewrite IH. by destruct (list_find _ entries) as [[i e]|].
Qed.

(** The entries that can change the view. *)
Definition matters (env : EnvelopedEntry) : bool :=
  negb (is_sidechain env) && (is_model_visible (entry env) || is_compact (entry env)).

Context `{!LawfulProjection P}.

Lemma project_entry_skip ms env : matters env = false → project_entry ms env = ms.
Proof.
  unfold matters, project_entry. destruct (is_sidechain env); [done|]. cbn.
  intros [??]%orb_false_iff. by apply apply_invisible.
Qed.

Lemma project_matters ms entries :
  foldl project_entry ms entries = foldl project_entry ms (filter matters entries).
Proof.
  revert ms. induction entries as [|env entries IH]; intros ms; [done|].
  rewrite filter_cons. cbn [foldl]. destruct (matters env) eqn:E.
  - rewrite decide_True by done. apply IH.
  - rewrite decide_False by (by intros []). by rewrite project_entry_skip.
Qed.

Lemma project_entry_boundary ms env c r :
  is_sidechain env = false → entry env = Entry.Compact c → replaced c = Some r →
  project_entry ms env = r.
Proof. intros Hs He Hr. unfold project_entry. by rewrite Hs, He, apply_compact, Hr. Qed.

End Folding.

(** ** Where messages come from *)

Section Sources.
Context `{P : TranscriptProjection}.

(** The message was put there by its line, and since then at most had tool
    results folded in. *)
Inductive comes_from : SourcedMessage → Prop :=
  | from_line env m m' :
      is_sidechain env = false → is_model_visible (entry env) = true →
      apply (entry env) [] = [m] → extends m m' →
      comes_from (Build_SourcedMessage m' env None)
  | from_boundary env c r i m m' :
      is_sidechain env = false → entry env = Entry.Compact c → replaced c = Some r →
      r !! i = Some m → extends m m' →
      comes_from (Build_SourcedMessage m' env (Some i)).

Lemma comes_from_extends m m' env p :
  extends m m' → comes_from (Build_SourcedMessage m env p) →
  comes_from (Build_SourcedMessage m' env p).
Proof.
  intros Hm. inversion 1; subst.
  - eapply from_line; [done..|by etrans].
  - eapply from_boundary; [done..|by etrans].
Qed.

Lemma source_step_fst s env : (source_step s env).1 = project_entry s.1 env.
Proof. destruct s as [ms srcs]. unfold source_step, project_entry. by destruct (is_sidechain env). Qed.

Lemma source_steps_fst s entries :
  (foldl source_step s entries).1 = foldl project_entry s.1 entries.
Proof.
  revert s. induction entries as [|env entries IH]; intros s; [done|].
  cbn [foldl]. by rewrite IH, source_step_fst.
Qed.

Lemma source_step_length s env :
  length s.1 = length s.2 → length (source_step s env).1 = length (source_step s env).2.
Proof.
  destruct s as [ms srcs]. cbn [fst snd]. intros Hlen. unfold source_step.
  destruct (is_sidechain env); [done|]. cbn [fst snd].
  destruct (is_compact (entry env)); [by rewrite length_fmap, length_seq|].
  case_bool_decide.
  - rewrite length_app, length_fmap, length_seq. lia.
  - rewrite length_take. lia.
Qed.

Lemma source_steps_length s entries :
  length s.1 = length s.2 →
  length (foldl source_step s entries).1 = length (foldl source_step s entries).2.
Proof.
  revert s. induction entries as [|env entries IH]; intros s Hs; [done|].
  cbn [foldl]. by apply IH, source_step_length.
Qed.

Lemma sourced_messages entries :
  message <$> project_messages_sourced entries = project_messages_with entries.
Proof.
  unfold project_messages_sourced, project_messages_with.
  pose proof (source_steps_fst ([], []) entries) as Hfst.
  pose proof (source_steps_length ([], []) entries eq_refl) as Hlen.
  destruct (foldl source_step ([], []) entries) as [ms srcs]. cbn [fst snd] in *. subst ms.
  generalize dependent (foldl project_entry [] entries). intros ms. revert srcs.
  induction ms as [|m ms IH]; intros [|s srcs] Hlen; try done.
  cbn. f_equal. apply IH. by injection Hlen.
Qed.

Definition source_ok (seen : EnvelopedEntry → Prop) (m : Message)
    (s : EnvelopedEntry * option nat) : Prop :=
  seen s.1 ∧ comes_from (Build_SourcedMessage m s.1 s.2).

Context `{!LawfulProjection P}.

Lemma source_step_ok (seen : EnvelopedEntry → Prop) ms srcs env ms' srcs' :
  seen env →
  (∀ c, entry env = Entry.Compact c → is_Some (replaced c)) →
  Forall2 (source_ok seen) ms srcs →
  source_step (ms, srcs) env = (ms', srcs') → Forall2 (source_ok seen) ms' srcs'.
Proof.
  intros Hseen Hpay Hok. unfold source_step.
  destruct (is_sidechain env) eqn:Hside; [by intros [= <- <-]|].
  intros [= <- <-]. destruct (is_compact (entry env)) eqn:Hc.
  { destruct (entry env) as [| | | | |c| | | | |] eqn:He; try done.
    destruct (Hpay c eq_refl) as [r Hr]. rewrite apply_compact, Hr. change (default ms (Some r)) with r.
    apply Forall2_lookup. intros i. rewrite list_lookup_fmap.
    destruct (r !! i) as [m|] eqn:Hm.
    - rewrite lookup_seq_lt by (by eapply lookup_lt_Some). constructor.
      split; [done|]. by eapply from_boundary.
    - rewrite lookup_seq_ge by (by apply lookup_ge_None). constructor. }
  destruct (is_model_visible (entry env)) eqn:Hv.
  - destruct (apply_visible (entry env) ms Hv) as [(m&Happ&Hm)|(ms0&m&m'&->&Happ&Hm)].
    + rewrite Happ, length_app. rewrite bool_decide_eq_true_2 by (cbn; lia).
      replace (length ms + length [m] - length ms) with 1 by (cbn; lia).
      apply Forall2_app; [done|]. cbn. constructor; [|constructor].
      split; [done|]. by eapply from_line.
    + rewrite Happ, !length_app. cbn [length]. rewrite bool_decide_eq_false_2 by lia.
      assert (length srcs = length ms0 + 1) as Hlen
        by (rewrite <-(Forall2_length _ _ _ Hok), length_app; done).
      rewrite take_ge by lia.
      apply Forall2_app_inv_l in Hok as (s1&s2&H1&H2&->). apply Forall2_app; [done|].
      inversion H2 as [|? s ? ? [Hs Hf] H2']; subst. inversion H2'; subst.
      constructor; [|constructor]. split; [done|]. by eapply comes_from_extends.
  - rewrite apply_invisible by done. rewrite bool_decide_eq_false_2 by lia.
    by rewrite take_ge by (by rewrite <-(Forall2_length _ _ _ Hok)).
Qed.

Lemma source_steps_ok seen entries ms srcs ms' srcs' :
  Forall seen entries →
  Forall (λ env, ∀ c, entry env = Entry.Compact c → is_Some (replaced c)) entries →
  Forall2 (source_ok seen) ms srcs →
  foldl source_step (ms, srcs) entries = (ms', srcs') → Forall2 (source_ok seen) ms' srcs'.
Proof.
  intros Hseen Hpay. revert ms srcs. induction Hseen as [|env entries Henv Hseen IH];
    intros ms srcs Hok; [by intros [= <- <-]|].
  inversion Hpay; subst. cbn [foldl]. destruct (source_step (ms, srcs) env) as [ms1 srcs1] eqn:E.
  apply IH; [done|]. by eapply source_step_ok.
Qed.

End Sources.

(** ** Previews *)

(** A character a one-line preview may have. *)
Definition plain_char (c : char) : Prop := is_whitespace c = false ∨ c = 32%N.

#[export] Instance plain_char_dec c : Decision (plain_char c).
Proof. unfold plain_char. apply _. Defined.

Lemma join_chars (P : char → Prop) sep ps :
  Forall P sep → Forall (Forall P) ps → Forall P (join sep ps).
Proof.
  intros Hsep. induction 1 as [|p ps Hp Hps IH]; [constructor|].
  destruct ps as [|q ps]; [done|]. rewrite join_cons2. by rewrite !Forall_app.
Qed.

Lemma normalize_ws_plain text : Forall plain_char (normalize_ws text).
Proof.
  apply join_chars; [by_compute|].
  apply Forall_forall. intros p [_ Hp]%list_elem_of_filter.
  eapply Forall_impl; [by eapply split_pred_chars|]. intros c ?. by left.
Qed.

Lemma preview_parts_plain ms parts :
  Forall (Forall plain_char) parts → Forall (Forall plain_char) (preview_parts ms parts).
Proof.
  revert parts. induction ms as [|m ms IH]; intros parts Hp; [done|].
  cbn [preview_parts]. destruct (first_text m) as [text|]; [|by apply IH].
  assert (Forall (Forall plain_char)
            (if bool_decide (normalize_ws text = []) then parts else parts ++ [normalize_ws text])).
  { case_bool_decide; [done|]. rewrite Forall_app. split; [done|].
    by constructor; [apply normalize_ws_plain|]. }
  destruct (bool_decide (2 ≤ _)); [done|by apply IH].
Qed.

Lemma preview_plain ms max_chars : Forall plain_char (preview_messages ms max_chars).
Proof.
  unfold preview_messages.
  assert (Forall plain_char (join (lit " | ") (reverse (preview_parts (reverse ms) [])))).
  { apply join_chars; [by_compute|].
    rewrite reverse_Permutation. by apply preview_parts_plain. }
  unfold truncate_chars. case_bool_decide; [done|]. rewrite Forall_app. split.
  - by apply Forall_take.
  - by_compute.
Qed.

Lemma preview_length ms max_chars : length (preview_messages ms max_chars) ≤ Nat.max 1 max_chars.
Proof.
  unfold preview_messages, truncate_chars. case_bool_decide; [lia|].
  rewrite length_app, length_take. change (length (lit "…")) with 1. lia.
Qed.

(** ** Reports *)

Lemma report_steps_messages `{P : TranscriptProjection} (entries : list EnvelopedEntry) s :
  (∀ ns event payload ms, apply (Entry.Extension ns event payload) ms = ms) →
  (∀ m ms, apply (Entry.Meta m) ms = ms) → (∀ k t ms, apply (Entry.System k t) ms = ms) →
  (∀ t ms, apply (Entry.UsageSnapshot t) ms = ms) →
  report_messages (foldl report_step s entries) =
  foldl project_entry (report_messages s) entries.
Proof.
  intros Hext Hmeta Hsys Husage. revert s.
  induction entries as [|env entries IH]; intros s; [done|].
  cbn [foldl]. rewrite IH. f_equal. unfold report_step, project_entry.
  destruct (is_sidechain env); [done|].
  destruct (entry env) eqn:E; cbn [report_messages]; try done.
  case_bool_decide; [done|]. by case_match.
Qed.

(** Positions on the log. *)
Lemma latest_spec `{P : TranscriptProjection} entries id :
  latest_projected_message_entry_id_with entries = Some id →
  ∃ pre env post, entries = pre ++ env :: post ∧ entry_id env = id ∧
    is_sidechain env = false ∧ is_model_visible (entry env) = true ∧
    Forall (λ e, is_sidechain e = true ∨ is_model_visible (entry e) = false) post.
Proof.
  unfold latest_projected_message_entry_id_with.
  induction entries as [|e entries IH] using rev_ind; [done|].
  rewrite reverse_app. cbn [reverse rev_append app find_first].
  destruct (negb (is_sidechain e) && is_model_visible (entry e)) eqn:E.
  - intros [= <-]. apply andb_true_iff in E as [E1%negb_true_iff E2].
    exists entries, e, []. split_and!; done.
  - intros (pre&env&post&->&Hid&Hs&Hv&Hpost)%IH.
    exists pre, env, (post ++ [e]). split_and!; try done.
    + by rewrite <-app_assoc.
    + rewrite Forall_app. split; [done|]. constructor; [|constructor].
      apply andb_false_iff in E as [E%negb_false_iff|E]; auto.
Qed.

Lemma project_no_effect `{P : TranscriptProjection, !LawfulProjection P} ms entries :
  Forall (λ e, matters e = false) entries → foldl project_entry ms entries = ms.
Proof.
  intros H. rewrite project_matters. assert (filter matters entries = []) as ->; [|done].
  induction H as [|e entries He _ IH]; [done|]. rewrite filter_cons_False; [done|]. rewrite He. by intros [].
Qed.

(** ** Theorems *)

Section Theorems.
Context `{P : TranscriptProjection}.

(** The one-pass counts agree with projecting again every time: the
    length after each prefix of the log, and the length through the first
    line with a given id, whatever the projection. *)
Theorem one_pass_is_reprojection (entries : list EnvelopedEntry) (id : Id) :
  projected_lengths_with entries =
    (λ i, length (project_messages_with (take (S i) entries))) <$> seq 0 (length entries) ∧
  projected_message_count_through_entry_id_with entries id =
    (λ it, length (project_messages_with (take (S it.1) entries))) <$>
      list_find (λ env, entry_id env = id) entries.
Proof. split; [apply lengths_from_spec|apply count_through_spec]. Qed.

Context `{!LawfulProjection P}.

(** Only visible entries and boundaries of the main conversation matter
    to the view; and a boundary that carries a payload makes what came before
    it irrelevant. *)
Theorem view_depends_on (entries : list EnvelopedEntry) :
  project_messages_with entries = project_messages_with (filter matters entries) ∧
  ∀ pre env post c r, entries = pre ++ env :: post →
    is_sidechain env = false → entry env = Entry.Compact c → replaced c = Some r →
    project_messages_with entries = foldl project_entry r (filter matters post).
Proof.
  split; [apply project_matters|]. intros pre env post c r -> Hs He Hr.
  rewrite project_app. cbn [foldl]. erewrite project_entry_boundary by done. apply project_matters.
Qed.

(** The sourced view is the view, message by message; and, boundaries
    without a payload apart, each message is attributed to the line that put
    it there, or to the position it had in the boundary that did. *)
Theorem sourced_view_is_the_view (entries : list EnvelopedEntry) :
  message <$> project_messages_sourced entries = project_messages_with entries ∧
  (Forall (λ env, ∀ c, entry env = Entry.Compact c → is_Some (replaced c)) entries →
   Forall (λ s, source_entry s ∈ entries ∧ comes_from s) (project_messages_sourced entries)).
Proof.
  split; [apply sourced_messages|]. intros Hpay. unfold project_messages_sourced.
  destruct (foldl source_step ([], []) entries) as [ms srcs] eqn:E.
  assert (Forall2 (source_ok (λ env, env ∈ entries)) ms srcs) as Hok.
  { eapply source_steps_ok; [|done|constructor|done]. by apply Forall_forall. }
  clear E. induction Hok as [|m [env p] ms srcs [Hs Hf] _ IH]; by constructor.
Qed.

(** The position a caller stores and the count it later asks for agree:
    when ids are unique and no boundary came after the latest visible line,
    counting through that line counts the whole view. *)
Theorem latest_position_counts_all (entries : list EnvelopedEntry) (id : Id) :
  NoDup (entry_id <$> entries) →
  latest_projected_message_entry_id_with entries = Some id →
  (∀ pre env post, entries = pre ++ env :: post → entry_id env = id →
     Forall (λ e, is_sidechain e = true ∨ is_compact (entry e) = false) post) →
  projected_message_count_through_entry_id_with entries id =
    Some (length (project_messages_with entries)).
Proof.
  intros Hnd (pre&env&post&->&Hid&_&_&Hpost)%latest_spec Hnc.
  specialize (Hnc pre env post eq_refl Hid).
  unfold projected_message_count_through_entry_id_with. rewrite count_through_spec.
  assert (list_find (λ e, entry_id e = id) (pre ++ env :: post) = Some (length pre, env)) as ->.
  { apply list_find_Some. split_and!; [by apply list_lookup_middle|done|].
    intros j y Hj Hlt Hy. rewrite lookup_app_l in Hj by done.
    rewrite fmap_app, fmap_cons in Hnd. apply NoDup_app in Hnd as (_&Hnd&_).
    apply (Hnd (entry_id y)); [by eapply list_elem_of_fmap_2, list_elem_of_lookup_2|].
    rewrite Hid, Hy. left. }
  cbn [fmap option_fmap option_map fst]. f_equal.
  rewrite (cons_middle env), (assoc_L (++)), take_app_length'
    by (rewrite length_app; cbn; lia).
  unfold project_messages_with. rewrite !foldl_app. cbn [foldl]. f_equal. symmetry.
  apply project_no_effect. rewrite Forall_forall in Hpost, Hnc |- *.
  intros e He. unfold matters. destruct (Hpost e He) as [->|Hv]; [done|].
  destruct (Hnc e He) as [->|Hc]; [done|]. rewrite Hv, Hc. apply andb_false_r.
Qed.

End Theorems.

(** Under the engine's own rules the report of a resume counts the
    messages a resume gives the model, and warns of an empty view exactly when
    there is none. *)
Theorem report_counts_the_view (entries : list EnvelopedEntry) :
  let report := @resume_projection_report_with DefaultProjection entries in
  let view := @project_messages_with DefaultProjection entries in
  projected_message_count report = length view ∧
  (warning report = Some EmptyHistory ↔ entries = []) ∧
  (warning report = Some EmptyProjection ↔ entries ≠ [] ∧ view = []).
Proof.
  assert (report_messages (foldl (@report_step DefaultProjection)
            (Build_ReportState 0 0 0 0 0 [] false) entries) =
          @project_messages_with DefaultProjection entries) as E
    by (by apply (@report_steps_messages DefaultProjection)).
  unfold resume_projection_report_with. cbn zeta. cbn [projected_message_count warning].
  rewrite E. set (view := project_messages_with entries).
  split; [done|]. destruct entries as [|env entries]; [by naive_solver|].
  rewrite (bool_decide_eq_false_2 (length (env :: entries) = 0)) by done.
  destruct view as [|m view].
  - rewrite bool_decide_eq_true_2 by done. naive_solver.
  - rewrite bool_decide_eq_false_2 by done. case_match; naive_solver.
Qed.

(** Under [ExtensionsAreVisible] the report is wrong: it never lets the
    projection see an extension entry, so a log of one covered extension line
    gives the model a message while the report counts none and warns that the
    view is empty. *)
Theorem report_misses_extensions render namespaces env ns event payload :
  entry env = Entry.Extension ns event payload → is_sidechain env = false →
  covers namespaces ns = true →
  let P := ExtensionsAreVisible render namespaces in
  length (@project_messages_with P [env]) = 1 ∧
  projected_message_count (@resume_projection_report_with P [env]) = 0 ∧
  warning (@resume_projection_report_with P [env]) = Some EmptyProjection.
Proof.
  intros He Hs Hc P. unfold project_messages_with, resume_projection_report_with.
  cbn [foldl]. unfold project_entry, report_step. rewrite Hs, He.
  cbn [apply ExtensionsAreVisible P]. rewrite Hc. by split_and!.
Qed.

(** A preview is one line of at most [max_chars] characters (one, when
    that is [0]), without runs of blanks from the messages. *)
Theorem preview_is_one_short_line ms max_chars :
  Forall plain_char (preview_messages ms max_chars) ∧
  length (preview_messages ms max_chars) ≤ Nat.max 1 max_chars.
Proof. split; [apply preview_plain|apply preview_length]. Qed.

(** ** At work *)

Definition line (n : Z) (e : LogEntry) : EnvelopedEntry := new_in n n 7%Z e.

Definition text_block (s : str) : ContentBlock := Block.Text s None.

Definition sample_boundary : CompactEntry :=
  {| before_tokens := 9; after_tokens := 1; summary_block_id := None;
     replacement_history := Some [Msg.User [text_block "so far"]]; summary := None;
     snip_removed_uuids := None |}.

(** A question and its answer, a boundary, and a question answered by a tool
    result. *)
Definition sample_log : list EnvelopedEntry :=
  [line 1 (Entry.User [text_block "hi"]);
   line 2 (Entry.Assistant [text_block "hello"] None None None);
   line 3 (Entry.Compact sample_boundary);
   line 4 (Entry.System Notice (lit "noted"));
   line 5 (Entry.User [text_block "and?"]);
   line 6 (Entry.ToolResult (lit "t1") (Block.TextContent (lit "42")) false)].

Lemma view_depends_on_witness :
  @project_messages_with DefaultProjection sample_log =
    [Msg.User [text_block "so far"];
     Msg.User [text_block "and?"; Block.ToolResult (lit "t1") (Block.TextContent (lit "42")) false]].
Proof.
  destruct (@view_depends_on DefaultProjection _ sample_log) as [_ H].
  rewrite (H (take 2 sample_log) (line 3 (Entry.Compact sample_boundary)) (drop 3 sample_log)
             sample_boundary [Msg.User [text_block "so far"]]); by vm_compute.
Defined.

Lemma sourced_view_is_the_view_witness :
  (λ s, entry_id (source_entry s)) <$> @project_messages_sourced DefaultProjection sample_log =
    [3; 5]%Z ∧
  Forall (λ s, source_entry s ∈ sample_log ∧ @comes_from DefaultProjection s)
    (@project_messages_sourced DefaultProjection sample_log).
Proof.
  destruct (@sourced_view_is_the_view DefaultProjection _ sample_log) as [_ H].
  split; [by vm_compute|]. apply H.
  repeat constructor; intros c E; cbn [entry line new_in] in E; try discriminate E.
  injection E as <-. by eexists.
Defined.

Lemma latest_position_counts_all_witness :
  @projected_message_count_through_entry_id_with DefaultProjection sample_log 6%Z = Some 2.
Proof.
  rewrite (@latest_position_counts_all DefaultProjection _ sample_log 6%Z);
    [by vm_compute|by_compute|by vm_compute|].
  intros pre env post E Hid.
  assert (length post = 0) as ->%nil_length_inv; [|constructor].
  assert (sample_log !! length pre = Some env) as Hl by (rewrite E; by apply list_lookup_middle).
  assert (length sample_log = 6) as Hlen by done.
  rewrite E, length_app in Hlen. cbn [length] in Hlen.
  do 5 (destruct pre as [|? pre]; [vm_compute in Hl; injection Hl as <-; vm_compute in Hid; done|]).
  cbn [length] in Hlen. lia.
Defined.

Lemma report_misses_extensions_witness :
  length (@project_messages_with (ExtensionsAreVisible (λ _, lit "null") [])
            [line 1 (Entry.Extension (lit "ci") (lit "deploy") VNull)]) = 1.
Proof.
  apply (report_misses_extensions (λ _, lit "null") []
           (line 1 (Entry.Extension (lit "ci") (lit "deploy") VNull))
           (lit "ci") (lit "deploy") VNull); by vm_compute.
Defined.
