(* ===== verification/Store.v ===== *)
(** * History stores ([crates/history/src/store.rs], [query.rs],
    [crates/core/src/interface/environment.rs])

    What a session's log may be kept in.  [HistoryStore] is the trait: the
    operations a backend provides; the ones it may inherit are definitions over
    them.  [HistoryContract] is what the trait's documentation asks of an
    implementation; the in-memory store and the observing wrapper satisfy it.

    Every operation returns the store it leaves, since a backend may cache. *)

From stdpp Require Import base option numbers sets gmap strings list sorting.
From S2P Require Import Prelude RustStr Lines PermTypes Messages Transcript.

#[local] Open Scope result_scope.

Inductive HistoryError :=
  | Io
  | Parse (line : nat)
  | Schema
  | Path (why : str)
  | SessionNotFound (session : str).

(** The [bs58] crate on sixteen bytes: [SessionId::to_string], [SessionId::parse]. *)
Class Base58 := {
  id_string : SessionId → str;
  id_parse : str → option SessionId;
}.

(** ** Environments *)

Class Environment (E : Type) := {
  now : E → Z * E;
  new_id : E → Id * E;
}.

Record FixedEnvironment := {
  start : Z;
  step : Z;
  ticks : Z;
  ids : Z;
}.

(** [fetch_add] on an [AtomicU64] wraps. *)
Definition fetch_add_u64 (n : Z) : Z := ((n + 1) `mod` 2 ^ 64)%Z.

#[export] Instance FixedEnvironment_environment : Environment FixedEnvironment :=
  {| now e := ((start e + step e * as_i32 (ticks e))%Z,
               Build_FixedEnvironment (start e) (step e) (fetch_add_u64 (ticks e)) (ids e));
     new_id e := (ids e,
               Build_FixedEnvironment (start e) (step e) (ticks e) (fetch_add_u64 (ids e))) |}.

(** The line an append writes. *)
Definition new_line `{Environment E} (e : E) (session : SessionId) (x : LogEntry)
    (tags : EntryTags) : EnvelopedEntry * E :=
  let '(i, e) := new_id e in
  let '(t, e) := now e in
  (with_tags (new_in i t session x) tags, e).

(** ** Summaries and queries *)

Record SessionSummary := {
  summary_session_id : SessionId;
  last_modified : option Z;
  summary_entry_count : nat;
  message_count : nat;
  preview : str;
  summary_canonical_cwd : option str;
  summary_title : option str;
  total_input_tokens : option Z;
  total_output_tokens : option Z;
  summary_compact_count : Z;
}.

Record SessionFacts := {
  facts_scene : option str;
  facts_project_root : option str;
  facts_session_kind : SessionKind;
  facts_parent_session_id : option str;
}.

Definition SessionFacts_default : SessionFacts := Build_SessionFacts None None Primary None.

(** [SessionFacts::of]. *)
Definition facts_of (e : LogEntry) : option SessionFacts :=
  match e with
  | Entry.Meta m =>
      Some (Build_SessionFacts (scene m) (project_root m) (session_kind m) (parent_session_id m))
  | _ => None
  end.

Inductive SessionScope :=
  | CurrentProject
  | InProject (home : option str)
  | AllProjects
  | Under (root : str).

Inductive SummaryDetail := IdsOnly | Full.

Record SessionQuery := {
  text : str;
  scope : SessionScope;
  limit : nat;
  detail : SummaryDetail;
}.

Definition recent (limit : nat) : SessionQuery := Build_SessionQuery [] CurrentProject limit Full.
Definition matching (text : str) (limit : nat) : SessionQuery :=
  Build_SessionQuery text CurrentProject limit Full.
Definition ids_only (q : SessionQuery) : SessionQuery :=
  Build_SessionQuery (text q) (scope q) (limit q) IdsOnly.
Definition within (q : SessionQuery) (s : SessionScope) : SessionQuery :=
  Build_SessionQuery (text q) s (limit q) (detail q).

Definition needle (q : SessionQuery) : option str :=
  let trimmed := trim (text q) in
  if bool_decide (trimmed = []) then None else Some trimmed.

(** ** The trait *)

Class HistoryStore (S : Type) := {
  append_tagged : S → SessionId → LogEntry → EntryTags → S * result unit HistoryError;
  load : S → SessionId → S * result (list EnvelopedEntry) HistoryError;
  list_sessions : S → S * result (list SessionId) HistoryError;
  delete : S → SessionId → S * result unit HistoryError;
  projection : S → TranscriptProjection;
}.

Definition no_tags : EntryTags := Build_EntryTags None None.

(** [Option]'s order: [None] first. *)
Definition opt_le (a b : option Z) : bool :=
  match a, b with
  | None, _ => true
  | Some _, None => false
  | Some a, Some b => bool_decide (a ≤ b)%Z
  end.

Section Defaults.
Context `{Base58} (to_json : value → str) {T : Type} `{HistoryStore T}.

Definition append (s : T) (session : SessionId) (e : LogEntry) : T * result unit HistoryError :=
  append_tagged s session e no_tags.

Definition load_messages (s : T) (session : SessionId) : T * result (list Message) HistoryError :=
  let '(s, r) := load s session in
  (s, entries ←? r; Ok (@project_messages_with (projection s) entries)).

Definition session_facts (s : T) (session : SessionId) : T * result SessionFacts HistoryError :=
  let '(s, r) := load s session in
  match r with
  | Ok entries =>
      (s, Ok (default SessionFacts_default (find_map (λ env, facts_of (entry env)) entries)))
  | Err (SessionNotFound _) => (s, Ok SessionFacts_default)
  | Err e => (s, Err e)
  end.

Definition session_parent (s : T) (session : SessionId)
    : T * result (option str) HistoryError :=
  let '(s, r) := session_facts s session in
  (s, f ←? r; Ok (facts_parent_session_id f)).

Fixpoint children_among (s : T) (parent : str) (all : list SessionId)
    : T * result (list SessionId) HistoryError :=
  match all with
  | [] => (s, Ok [])
  | sid :: all =>
      let '(s, r) := session_parent s sid in
      match r with
      | Err e => (s, Err e)
      | Ok p =>
          let '(s, r) := children_among s parent all in
          (s, out ←? r; Ok (if bool_decide (p = Some parent) then sid :: out else out))
      end
  end.

Definition child_sessions (s : T) (parent : str) : T * result (list SessionId) HistoryError :=
  let '(s, r) := list_sessions s in
  match r with
  | Ok all => children_among s parent all
  | Err e => (s, Err e)
  end.

(** *** [find_sessions] *)

Definition newest (entries : list EnvelopedEntry) : option Z :=
  foldr (λ env acc, match acc with None => Some (ts env) | Some t => Some (Z.max (ts env) t) end)
    None entries.

(** Whether a session is in the answer. *)
Definition matches_needle (needle : option str) (session : SessionId) (messages : list Message)
    : bool :=
  match needle with
  | None => true
  | Some n =>
      contains n (id_string session) || messages_match_query to_json messages n
  end.

Definition find_row (P : TranscriptProjection) (session : SessionId)
    (entries : list EnvelopedEntry) : option Z * SessionSummary :=
  let messages := @project_messages_with P entries in
  let modified := newest entries in
  (modified,
   {| summary_session_id := session; last_modified := modified;
      summary_entry_count := length entries; message_count := length messages;
      preview := preview_messages messages 140; summary_canonical_cwd := None;
      summary_title := None; total_input_tokens := None; total_output_tokens := None;
      summary_compact_count := 0 |}).

(** The loop over the sessions. *)
Fixpoint find_rows (s : T) (needle : option str) (all : list SessionId)
    : T * result (list (option Z * SessionSummary)) HistoryError :=
  match all with
  | [] => (s, Ok [])
  | session :: all =>
      let '(s, r) := load s session in
      match r with
      | Err (SessionNotFound _) => find_rows s needle all
      | Err e => (s, Err e)
      | Ok entries =>
          if matches_needle needle session (@project_messages_with (projection s) entries) then
            let row := find_row (projection s) session entries in
            let '(s, r) := find_rows s needle all in
            (s, rows ←? r; Ok (row :: rows))
          else find_rows s needle all
      end
  end.

(** [b.0.cmp(&a.0).then_with(..)] is not [Greater]. *)
Definition row_le (a b : option Z * SessionSummary) : Prop :=
  if decide (a.1 = b.1)
  then str_le (id_string (summary_session_id b.2)) (id_string (summary_session_id a.2)) = true
  else opt_le b.1 a.1 = true.

#[export] Instance row_le_dec a b : Decision (row_le a b).
Proof. unfold row_le. case_decide; apply _. Defined.

Definition find_sessions (s : T) (query : SessionQuery)
    : T * result (list SessionSummary) HistoryError :=
  if bool_decide (limit query = 0) then (s, Ok [])
  else
    let needle := needle query in
    let '(s, r) := list_sessions s in
    match r with
    | Err e => (s, Err e)
    | Ok all =>
        let '(s, r) := find_rows s needle all in
        (s, rows ←? r; Ok ((take (limit query) (merge_sort row_le rows)).*2))
    end.

End Defaults.

(** ** The in-memory store *)

Section InMemory.
Context `{Base58} {E : Type} `{Environment E}.

Record InMemoryHistoryStore := {
  sessions : gmap SessionId (list EnvelopedEntry);
  titles : gmap SessionId str;
  env_state : E;
}.

Definition memory_append_tagged (s : InMemoryHistoryStore) (session : SessionId) (e : LogEntry)
    (tags : EntryTags) : InMemoryHistoryStore * result unit HistoryError :=
  let '(env, es) := new_line (env_state s) session e tags in
  (Build_InMemoryHistoryStore
     (<[session := default [] (sessions s !! session) ++ [env]]> (sessions s)) (titles s) es,
   Ok tt).

Definition memory_load (s : InMemoryHistoryStore) (session : SessionId)
    : InMemoryHistoryStore * result (list EnvelopedEntry) HistoryError :=
  (s, match sessions s !! session with
      | Some entries => Ok entries
      | None => Err (SessionNotFound (id_string session))
      end).

(** In the map's iteration order, which is arbitrary in the code. *)
Definition memory_list_sessions (s : InMemoryHistoryStore)
    : InMemoryHistoryStore * result (list SessionId) HistoryError :=
  (s, Ok (map_to_list (sessions s)).*1).

Definition memory_delete (s : InMemoryHistoryStore) (session : SessionId)
    : InMemoryHistoryStore * result unit HistoryError :=
  (Build_InMemoryHistoryStore (base.delete session (sessions s)) (base.delete session (titles s)) (env_state s),
   Ok tt).

Definition memory_set_session_title (s : InMemoryHistoryStore) (session : SessionId)
    (title : option str) : InMemoryHistoryStore * result unit HistoryError :=
  (Build_InMemoryHistoryStore (sessions s)
     (match title with
      | Some t => <[session := t]> (titles s)
      | None => base.delete session (titles s)
      end) (env_state s), Ok tt).

Record SessionStats := {
  stats_title : option str;
  stats_compact_count : Z;
}.

Definition memory_session_stats (s : InMemoryHistoryStore) (session : SessionId) : SessionStats :=
  Build_SessionStats (titles s !! session) 0.

#[export] Instance InMemory_store : HistoryStore InMemoryHistoryStore :=
  {| append_tagged := memory_append_tagged;
     load := memory_load;
     list_sessions := memory_list_sessions;
     delete := memory_delete;
     projection _ := DefaultProjection |}.

End InMemory.
Arguments InMemoryHistoryStore : clear implicits.

(** ** The observing wrapper *)

Section Observed.
Context {T : Type} `{HistoryStore T} {O : Type} (observed : O → SessionId → LogEntry → O).

(** The inner store and what the observers have seen: [observed] is the loop
    over the observers. *)
Record ObservedHistoryStore := {
  inner : T;
  observers : O;
}.

Definition observed_append_tagged (s : ObservedHistoryStore) (session : SessionId) (e : LogEntry)
    (tags : EntryTags) : ObservedHistoryStore * result unit HistoryError :=
  let '(i, r) := append_tagged (inner s) session e tags in
  match r with
  | Ok _ => (Build_ObservedHistoryStore i (observed (observers s) session e), Ok tt)
  | Err err => (Build_ObservedHistoryStore i (observers s), Err err)
  end.

(** The other operations are the inner store's. *)
Definition through {A} (f : T → T * A) (s : ObservedHistoryStore) : ObservedHistoryStore * A :=
  let '(i, r) := f (inner s) in (Build_ObservedHistoryStore i (observers s), r).

#[export] Instance Observed_store : HistoryStore ObservedHistoryStore :=
  {| append_tagged := observed_append_tagged;
     load s session := through (λ i, load i session) s;
     list_sessions s := through list_sessions s;
     delete s session := through (λ i, delete i session) s;
     projection s := projection (inner s) |}.

End Observed.

(** *** [AppendCounts] ([observers.rs]) *)

Record AppendCounts := {
  total : Z;
  per_session : gmap SessionId (gmap str Z);
}.

Definition AppendCounts_new : AppendCounts := Build_AppendCounts 0 ∅.

Definition kinds_sum (kinds : gmap str Z) : Z := map_fold (λ _ n acc, (n + acc)%Z) 0%Z kinds.

Definition entries_counted (c : AppendCounts) (session : SessionId) : Z :=
  default 0%Z (kinds_sum <$> per_session c !! session).

Definition of_kind (c : AppendCounts) (session : SessionId) (k : str) : Z :=
  default 0%Z (per_session c !! session ≫= λ kinds, kinds !! k).

Definition by_kind (c : AppendCounts) (session : SessionId) : gmap str Z :=
  default ∅ (per_session c !! session).

Definition counts_observed (c : AppendCounts) (session : SessionId) (e : LogEntry) : AppendCounts :=
  let kinds := default ∅ (per_session c !! session) in
  {| total := fetch_add_u64 (total c);
     per_session :=
       <[session := <[kind e := (default 0%Z (kinds !! kind e) + 1)%Z]> kinds]> (per_session c) |}.

(** [fetch_sub] wraps, too. *)
Definition forget (c : AppendCounts) (session : SessionId) : AppendCounts :=
  match per_session c !! session with
  | Some kinds =>
      {| total := ((total c - kinds_sum kinds) `mod` 2 ^ 64)%Z;
         per_session := base.delete session (per_session c) |}
  | None => c
  end.

(** ** The contract *)

(** What [append] received, in order, is what [load] returns; a session
    nothing was appended to is not found; sessions do not touch one
    another. *)
Class HistoryContract (T : Type) `{Base58, HistoryStore T} := {
  log : T → SessionId → option (list EnvelopedEntry);
  load_spec s session :
    (load s session).2 =
      match log s session with
      | Some entries => Ok entries
      | None => Err (SessionNotFound (id_string session))
      end;
  load_log s session session' : log (load s session).1 session' = log s session';
  load_projection s session : projection (load s session).1 = projection s;
  append_log s session e tags :
    (append_tagged s session e tags).2 = Ok tt →
    ∃ env, entry env = e ∧ is_sidechain env = false ∧
      ∀ session', log (append_tagged s session e tags).1 session' =
        if decide (session' = session) then Some (default [] (log s session) ++ [env])
        else log s session';
  append_projection s session e tags :
    projection (append_tagged s session e tags).1 = projection s;
  list_spec s all :
    (list_sessions s).2 = Ok all → NoDup all ∧ ∀ session, session ∈ all ↔ is_Some (log s session);
  list_log s session : log (list_sessions s).1 session = log s session;
  list_projection s : projection (list_sessions s).1 = projection s;
  delete_log s session session' :
    (delete s session).2 = Ok tt →
    log (delete s session).1 session' =
      if decide (session' = session) then None else log s session';
}.

Section MemoryContract.
Context `{Base58} {E : Type} `{Environment E}.

Lemma new_line_entry (e : E) session x tags :
  entry (new_line e session x tags).1 = x ∧ is_sidechain (new_line e session x tags).1 = false.
Proof. unfold new_line. destruct (new_id e) as [i e1], (now e1) as [t e2]. done. Qed.

#[export] Program Instance InMemory_contract : HistoryContract (InMemoryHistoryStore E) :=
  {| log s session := sessions s !! session |}.
Next Obligation. done. Qed.
Next Obligation. done. Qed.
Next Obligation. done. Qed.
Next Obligation.
  intros s session e tags _. cbn. unfold memory_append_tagged.
  pose proof (new_line_entry (env_state s) session e tags) as [? ?].
  destruct (new_line _ _ _ _) as [env es]. exists env. split_and!; [done..|].
  intros session'. cbn. case_decide as Heq; [subst; by rewrite lookup_insert_eq|].
  by rewrite lookup_insert_ne.
Qed.
Next Obligation. done. Qed.
Next Obligation.
  intros s all. cbn. intros [= <-]. split; [apply NoDup_fst_map_to_list|].
  intros session. rewrite list_elem_of_fmap. split.
  - intros ([i l]&->&Hin%elem_of_map_to_list). eauto.
  - intros [l Hl]. exists (session, l). split; [done|]. by apply elem_of_map_to_list.
Qed.
Next Obligation. done. Qed.
Next Obligation. done. Qed.
Next Obligation.
  intros s session session' _. cbn. case_decide as Heq; [subst; apply lookup_delete_eq|].
  by rewrite lookup_delete_ne.
Qed.

Context {T : Type} `{HistoryStore T} `{!HistoryContract T} {O : Type}
  (observed : O → SessionId → LogEntry → O).

(** Observing a store does not change it. *)
#[export] Program Instance Observed_contract :
    @HistoryContract ObservedHistoryStore _ (Observed_store observed) :=
  {| log s session := log (inner s) session |}.
Next Obligation.
  intros s session. cbn. unfold through. destruct (load _ _) as [i r] eqn:E1. cbn.
  rewrite <-load_spec. by rewrite E1.
Qed.
Next Obligation.
  intros s session session'. cbn. unfold through.
  pose proof (load_log (inner s) session session') as Hl. by destruct (load _ _).
Qed.
Next Obligation.
  intros s session. cbn. unfold through.
  pose proof (load_projection (inner s) session) as Hl. by destruct (load _ _).
Qed.
Next Obligation.
  intros s session e tags. cbn. unfold observed_append_tagged.
  pose proof (append_log (inner s) session e tags) as Hl.
  destruct (append_tagged _ _ _ _) as [i [[]|]]; [|done]. intros _. by apply Hl.
Qed.
Next Obligation.
  intros s session e tags. cbn. unfold observed_append_tagged.
  pose proof (append_projection (inner s) session e tags) as Hl.
  by destruct (append_tagged _ _ _ _) as [i [[]|]].
Qed.
Next Obligation.
  intros s all. cbn. unfold through. pose proof (list_spec (inner s) all) as Hl.
  by destruct (list_sessions _).
Qed.
Next Obligation.
  intros s session. cbn. unfold through. pose proof (list_log (inner s) session) as Hl.
  by destruct (list_sessions _).
Qed.
Next Obligation.
  intros s. cbn. unfold through. pose proof (list_projection (inner s)) as Hl.
  by destruct (list_sessions _).
Qed.
Next Obligation.
  intros s session session'. cbn. unfold through.
  pose proof (delete_log (inner s) session session') as Hl. by destruct (delete _ _).
Qed.

End MemoryContract.

(** ** Orders *)

Lemma opt_le_total a b : opt_le a b = true ∨ opt_le b a = true.
Proof. destruct a, b; cbn; auto. rewrite !bool_decide_eq_true. lia. Qed.

Lemma opt_le_trans a b c : opt_le a b = true → opt_le b c = true → opt_le a c = true.
Proof. destruct a, b, c; cbn; try done. rewrite !bool_decide_eq_true. lia. Qed.

Lemma opt_le_antisymm a b : opt_le a b = true → opt_le b a = true → a = b.
Proof. destruct a, b; cbn; try done. rewrite !bool_decide_eq_true. intros. f_equal. lia. Qed.

Section RowOrder.
Context `{Base58}.

#[export] Instance row_le_total : Total row_le.
Proof.
  intros a b. unfold row_le. destruct (decide (a.1 = b.1)) as [E|E].
  - rewrite decide_True by done. apply str_le_total.
  - rewrite decide_False by done. apply opt_le_total.
Qed.

#[export] Instance row_le_trans : Transitive row_le.
Proof.
  intros a b c. unfold row_le.
  destruct (decide (a.1 = b.1)) as [Eab|Eab], (decide (b.1 = c.1)) as [Ebc|Ebc].
  - rewrite decide_True by congruence. intros ? ?. by eapply str_le_trans.
  - rewrite decide_False by congruence. by rewrite Eab.
  - rewrite decide_False by congruence. intros ? _. by rewrite <-Ebc.
  - intros Hab Hbc. rewrite decide_False; [by eapply opt_le_trans|].
    intros E. apply Eab, opt_le_antisymm; [|done]. by rewrite E.
Qed.

End RowOrder.

(** ** What the inherited operations do under the contract *)

Section Inherited.
Context `{Base58} (to_json : value → str) {T : Type} `{HistoryStore T} `{!HistoryContract T}.

(** The logs, whatever a load caches. *)
Definition logs_are (s : T) (L : SessionId → option (list EnvelopedEntry)) : Prop :=
  ∀ session, log s session = L session.

(** The rows of the sessions that match. *)
Definition matching_rows (P : TranscriptProjection) (L : SessionId → option (list EnvelopedEntry))
    (needle : option str) (all : list SessionId) : list (option Z * SessionSummary) :=
  omap (λ session,
    entries ← L session;
    if matches_needle to_json needle session (@project_messages_with P entries)
    then Some (find_row P session entries) else None) all.

Lemma load_logs s L session :
  logs_are s L →
  (load s session).2 = match L session with
                       | Some entries => Ok entries
                       | None => Err (SessionNotFound (id_string session))
                       end ∧
  logs_are (load s session).1 L.
Proof.
  intros Hs. split; [by rewrite load_spec, Hs|]. intros session'. by rewrite load_log.
Qed.

Lemma find_rows_spec s L needle all :
  logs_are s L →
  (find_rows to_json s needle all).2 = Ok (matching_rows (projection s) L needle all).
Proof.
  revert s. induction all as [|session all IH]; intros s Hs; [done|].
  cbn [find_rows]. pose proof (load_logs s L session Hs) as [Hr Hs'].
  pose proof (load_projection s session) as HP.
  destruct (load s session) as [s' r]. cbn [fst snd] in *.
  unfold matching_rows. cbn [omap list_omap]. fold (matching_rows (projection s) L needle all).
  rewrite Hr. destruct (L session) as [entries|]; cbn [mbind option_bind].
  - rewrite HP. destruct (matches_needle _ _ _ _).
    + specialize (IH s' Hs'). rewrite HP in IH.
      destruct (find_rows to_json s' needle all) as [s'' r']. cbn [snd] in *. by rewrite IH.
    + by rewrite IH, HP.
  - by rewrite IH, HP.
Qed.

Lemma matching_rows_elem P L needle all row :
  row ∈ matching_rows P L needle all ↔
  ∃ session entries, session ∈ all ∧ L session = Some entries ∧
    matches_needle to_json needle session (@project_messages_with P entries) = true ∧
    row = find_row P session entries.
Proof.
  unfold matching_rows. rewrite list_elem_of_omap. split.
  - intros (session&Hin&(entries&HL&Hrow)%bind_Some).
    destruct (matches_needle _ _ _ _) eqn:E; [|done]. injection Hrow as <-. eauto 10.
  - intros (session&entries&Hin&HL&Hm&->). exists session. split; [done|].
    rewrite HL. cbn. by rewrite Hm.
Qed.

Lemma find_sessions_ok s query answer :
  (find_sessions to_json s query).2 = Ok answer →
  (limit query = 0 ∧ answer = []) ∨
  ∃ all, (list_sessions s).2 = Ok all ∧
    answer = (take (limit query) (merge_sort row_le
                (matching_rows (projection s) (log s) (needle query) all))).*2.
Proof.
  unfold find_sessions. case_bool_decide; [intros [= <-]; by left|].
  pose proof (list_log s) as Hlog. pose proof (list_projection s) as HP.
  destruct (list_sessions s) as [s' [all|]]; [|done]. cbn [fst snd] in *.
  pose proof (find_rows_spec s' (log s) (needle query) all Hlog) as Hrows.
  destruct (find_rows to_json s' (needle query) all) as [s'' r]. cbn [snd] in *.
  rewrite Hrows, HP. cbn [result_bind]. intros [= <-]. right. eauto.
Qed.

(** Newest first, ties by id. *)
Definition summary_le (a b : SessionSummary) : Prop :=
  row_le (last_modified a, a) (last_modified b, b).

Lemma rows_consistent P L needle all row :
  row ∈ matching_rows P L needle all → row.1 = last_modified row.2.
Proof. intros (session&entries&_&_&_&->)%matching_rows_elem. done. Qed.

Lemma StronglySorted_summaries rows :
  (∀ row, row ∈ rows → row.1 = last_modified row.2) →
  StronglySorted row_le rows → StronglySorted summary_le rows.*2.
Proof.
  intros Hcons. induction 1 as [|row rows _ IH Hrow]; cbn; constructor.
  - apply IH. intros r Hr. apply Hcons. by right.
  - apply Forall_fmap. rewrite Forall_forall in Hrow |- *. intros r Hr.
    specialize (Hrow r Hr). unfold summary_le. cbn.
    rewrite <-(Hcons row) by left. rewrite <-(Hcons r) by (by right).
    by destruct row, r.
Qed.

Lemma children_among_spec s L parent all :
  logs_are s L →
  (children_among s parent all).2 =
  Ok (filter (λ session,
        (entries ← L session; find_map (λ env, facts_of (entry env)) entries)
          ≫= facts_parent_session_id = Some parent) all).
Proof.
  revert s. induction all as [|session all IH]; intros s Hs; [done|].
  cbn [children_among]. unfold session_parent, session_facts.
  pose proof (load_logs s L session Hs) as [Hr Hs'].
  destruct (load s session) as [s' r]. cbn [fst snd] in *. rewrite Hr, filter_cons.
  specialize (IH s' Hs').
  destruct (L session) as [entries|]; cbn [result_bind mbind option_bind].
  - destruct (children_among s' parent all) as [s'' r']. cbn [snd] in IH. rewrite IH.
    cbn [snd result_bind].
    destruct (find_map _ entries) as [f|]; cbn [default from_option mbind option_bind];
      unfold id; [|by rewrite decide_False].
    case_bool_decide; [by rewrite decide_True|by rewrite decide_False].
  - destruct (children_among s' parent all) as [s'' r']. cbn [snd] in IH. rewrite IH.
    by rewrite decide_False.
Qed.

End Inherited.

(** ** Counting appends *)

Definition observe_all (c : AppendCounts) (events : list (SessionId * LogEntry)) : AppendCounts :=
  foldl (λ c ev, counts_observed c ev.1 ev.2) c events.

(** How many of the events are of a session, and of a kind. *)
Definition events_of (session : SessionId) (events : list (SessionId * LogEntry)) : list LogEntry :=
  (filter (λ ev, ev.1 = session) events).*2.

Definition count_kind (k : str) (es : list LogEntry) : Z :=
  Z.of_nat (length (filter (λ e, kind e = k) es)).

Lemma kinds_sum_empty : kinds_sum ∅ = 0%Z.
Proof. apply map_fold_empty. Qed.

Lemma kinds_sum_insert k n kinds :
  kinds_sum (<[k := n]> kinds) = (kinds_sum kinds - default 0 (kinds !! k) + n)%Z.
Proof.
  unfold kinds_sum.
  assert (Hc : ∀ (j1 j2 : str) (z1 z2 y : Z), (z1 + (z2 + y) = z2 + (z1 + y))%Z) by lia.
  rewrite <-insert_delete_eq.
  rewrite map_fold_insert_L by (try (intros; lia); apply lookup_delete_eq).
  destruct (kinds !! k) as [m|] eqn:E; cbn [default from_option].
  - rewrite (map_fold_delete_L _ _ k m kinds) by (done || (intros; lia)). unfold id. lia.
  - rewrite delete_id by done. unfold id. lia.
Qed.

Lemma count_kind_cons k e es :
  count_kind k (e :: es) = ((if decide (kind e = k) then 1 else 0) + count_kind k es)%Z.
Proof.
  unfold count_kind. rewrite filter_cons. case_decide; cbn [length]; lia.
Qed.

Lemma events_of_cons session ev events :
  events_of session (ev :: events) =
  (if decide (ev.1 = session) then [ev.2] else []) ++ events_of session events.
Proof. unfold events_of. rewrite filter_cons. by case_decide. Qed.

(** One observation. *)
Lemma counts_observed_spec c session e session' k :
  of_kind (counts_observed c session e) session' k =
    (of_kind c session' k + if decide (session = session')
                            then if decide (kind e = k) then 1 else 0 else 0)%Z ∧
  entries_counted (counts_observed c session e) session' =
    (entries_counted c session' + if decide (session = session') then 1 else 0)%Z.
Proof.
  unfold of_kind, entries_counted, counts_observed. cbn [per_session].
  destruct (decide (session = session')) as [->|Hne].
  - rewrite lookup_insert_eq. cbn [fmap option_fmap option_map mbind option_bind].
    destruct (decide (kind e = k)) as [->|Hk].
    + rewrite lookup_insert_eq. cbn [default from_option]. unfold id at 1. split.
      * destruct (per_session c !! session') as [kinds|]; cbn; [done|by rewrite lookup_empty].
      * rewrite kinds_sum_insert. destruct (per_session c !! session') as [kinds|].
        { cbn. unfold id. lia. }
        cbn. unfold id. rewrite kinds_sum_empty, lookup_empty. cbn. unfold id. lia.
    + rewrite lookup_insert_ne by done. split.
      * destruct (per_session c !! session') as [kinds|]; cbn; [lia|by rewrite lookup_empty].
      * cbn [default from_option]. unfold id at 1. rewrite kinds_sum_insert.
        destruct (per_session c !! session') as [kinds|]; cbn; unfold id; [lia|].
        rewrite kinds_sum_empty, lookup_empty. cbn. unfold id. lia.
  - rewrite lookup_insert_ne by done. split; lia.
Qed.

Lemma observe_all_spec c events session k :
  of_kind (observe_all c events) session k =
    (of_kind c session k + count_kind k (events_of session events))%Z ∧
  entries_counted (observe_all c events) session =
    (entries_counted c session + Z.of_nat (length (events_of session events)))%Z ∧
  total (observe_all c events) =
    (if decide (events = []) then total c else (total c + Z.of_nat (length events)) `mod` 2 ^ 64)%Z.
Proof.
  revert c. induction events as [|[s e] events IH]; intros c.
  { unfold count_kind. cbn [events_of observe_all foldl filter list_filter fmap list_fmap length].
    split_and!; [cbn; lia..|done]. }
  cbn [observe_all foldl fst snd]. fold (observe_all (counts_observed c s e) events).
  destruct (IH (counts_observed c s e)) as (H1&H2&H3).
  destruct (counts_observed_spec c s e session k) as [H4 H5].
  rewrite H1, H2, H3, H4, H5, events_of_cons. cbn [fst snd].
  split_and!.
  - destruct (decide (s = session)); [|cbn; lia]. cbn [app]. rewrite count_kind_cons. lia.
  - rewrite length_app. destruct (decide (s = session)); cbn [length]; lia.
  - rewrite (decide_False (P := _ :: _ = [])) by done.
    cbn [total counts_observed length]. unfold fetch_add_u64.
    destruct (decide (events = [])) as [->|]; [done|].
    rewrite Zplus_mod_idemp_l. f_equal. lia.
Qed.

Lemma forget_spec c session' session k :
  of_kind (forget c session') session k =
  if decide (session' = session) then 0%Z else of_kind c session k.
Proof.
  unfold of_kind, forget.
  destruct (per_session c !! session') as [kinds|] eqn:E; destruct (decide (session' = session)) as [->|];
    cbn [per_session]; [by rewrite lookup_delete_eq|by rewrite lookup_delete_ne|by rewrite E|done].
Qed.

(** ** Theorems *)

Section Theorems.
Context `{Base58} (to_json : value → str) {T : Type} `{HistoryStore T} `{!HistoryContract T}.

(** For any store that keeps the contract, the inherited search answers
    with at most [limit] sessions, newest first and ties by id, all of them
    matches; and it leaves out a match only when [limit] others are at least
    as new. *)
Theorem find_sessions_spec s query answer :
  (find_sessions to_json s query).2 = Ok answer →
  let row session entries := (find_row (projection s) session entries).2 in
  let matches session entries :=
    matches_needle to_json (needle query) session (@project_messages_with (projection s) entries) in
  length answer ≤ limit query ∧ StronglySorted summary_le answer ∧
  (∀ x, x ∈ answer → ∃ session entries,
     log s session = Some entries ∧ matches session entries = true ∧ x = row session entries) ∧
  (∀ session entries, log s session = Some entries → matches session entries = true →
     row session entries ∈ answer ∨
     length answer = limit query ∧ Forall (λ y, summary_le y (row session entries)) answer).
Proof.
  intros Hans row matches.
  destruct (find_sessions_ok to_json s query answer Hans) as [[Hz ->]|(all&Hall&->)].
  { split_and!; [cbn; lia|constructor|by intros ? ?%not_elem_of_nil|].
    intros. right. split; [done|constructor]. }
  destruct (list_spec s all Hall) as [_ Hin].
  set (rows := matching_rows to_json (projection s) (log s) (needle query) all).
  assert (Hperm : merge_sort row_le rows ≡ₚ rows) by apply merge_sort_Permutation.
  assert (Hcons : ∀ r, r ∈ merge_sort row_le rows → r.1 = last_modified r.2)
    by (intros r; rewrite Hperm; apply rows_consistent).
  assert (Hsorted : StronglySorted summary_le (merge_sort row_le rows).*2)
    by (apply StronglySorted_summaries; [done|apply (StronglySorted_merge_sort row_le)]).
  rewrite fmap_take. split_and!.
  - rewrite length_take. lia.
  - rewrite <-(take_drop (limit query)) in Hsorted. by apply StronglySorted_app_1_l in Hsorted.
  - intros x (i&Hi)%list_elem_of_lookup. apply lookup_take_Some in Hi as [Hi _].
    apply list_elem_of_lookup_2, list_elem_of_fmap in Hi as (r&->&Hr).
    rewrite Hperm in Hr. apply matching_rows_elem in Hr as (session&entries&_&?&?&->). eauto.
  - intros session entries Hlog Hm.
    assert (row session entries ∈ (merge_sort row_le rows).*2) as Hx.
    { apply list_elem_of_fmap. exists (find_row (projection s) session entries). split; [done|].
      rewrite Hperm. apply matching_rows_elem. exists session, entries. split_and!; [|done..].
      apply Hin. by rewrite Hlog. }
    rewrite <-(take_drop (limit query)) in Hx, Hsorted. apply elem_of_app in Hx as [Hx|Hx]; [by left|].
    right. split.
    + rewrite length_take. destruct (decide (limit query ≤ length (merge_sort row_le rows).*2)); [lia|].
      rewrite drop_ge in Hx by lia. by apply not_elem_of_nil in Hx.
    + apply Forall_forall. intros y Hy. by eapply StronglySorted_app_1_elem_of.
Qed.

(** The children a store lists are exactly the listed sessions whose
    first metadata line names the parent. *)
Theorem child_sessions_spec s parent all :
  (list_sessions s).2 = Ok all →
  (child_sessions s parent).2 =
  Ok (filter (λ session,
        (entries ← log s session; find_map (λ env, facts_of (entry env)) entries)
          ≫= facts_parent_session_id = Some parent) all).
Proof.
  unfold child_sessions. pose proof (list_log s) as Hlog.
  destruct (list_sessions s) as [s' r]. cbn [fst snd] in *. intros ->.
  by apply children_among_spec.
Qed.

End Theorems.

(** The counting observer is exact: of the appends it saw, it reports for
    each session how many there were and how many of each kind; its total
    wraps at [2^64]; and forgetting a session forgets that session only. *)
Theorem append_counts_exact (events : list (SessionId * LogEntry)) session k :
  let c := observe_all AppendCounts_new events in
  of_kind c session k = count_kind k (events_of session events) ∧
  entries_counted c session = Z.of_nat (length (events_of session events)) ∧
  total c = (Z.of_nat (length events) `mod` 2 ^ 64)%Z ∧
  (∀ session', of_kind (forget c session') session k =
     if decide (session' = session) then 0%Z else of_kind c session k).
Proof.
  intros c. destruct (observe_all_spec AppendCounts_new events session k) as (H1&H2&H3).
  fold c in H1, H2, H3. rewrite H1, H2, H3.
  split_and!; [done|done|by destruct (decide (events = [])) as [->|]|].
  intros session'. rewrite forget_spec. by rewrite H1.
Qed.

(** ** At work *)

(** Some injective rendering of ids. *)
Definition plain_ids : Base58 := {| id_string := BitText.to_text; id_parse := BitText.of_text |}.

Definition epoch : FixedEnvironment := Build_FixedEnvironment 0 1000 0 0.

Definition user_entry (s : str) : LogEntry := Entry.User [text_block s].

Definition meta_of (parent : option str) : LogEntry :=
  Entry.Meta (Build_MetaEntry [] 0 [] [] [] [] parent None None Primary 2).

(** Two sessions, the second one a child of the first. *)
Definition sample_store : InMemoryHistoryStore FixedEnvironment :=
  let s := Build_InMemoryHistoryStore ∅ ∅ epoch in
  let s := (memory_append_tagged s 1%Z (user_entry "the Postgres move") no_tags).1 in
  let s := (memory_append_tagged s 2%Z (meta_of (Some (BitText.to_text 1%Z))) no_tags).1 in
  (memory_append_tagged s 2%Z (user_entry "postgres again") no_tags).1.

Lemma find_sessions_spec_witness :
  ∃ answer,
    (@find_sessions plain_ids (λ _, []) _ (@InMemory_store plain_ids _ _) sample_store
       (matching "postgres" 1)).2 = Ok answer ∧
    summary_session_id <$> answer = [2%Z] ∧ length answer ≤ 1.
Proof.
  destruct (@find_sessions plain_ids (λ _, []) _ (@InMemory_store plain_ids _ _) sample_store
       (matching "postgres" 1)).2 as [answer|e] eqn:E; [|vm_compute in E; discriminate E].
  destruct (@find_sessions_spec plain_ids (λ _, []) _ (@InMemory_store plain_ids _ _) _
              sample_store _ answer E) as [Hlen _].
  exists answer. split_and!; [done| |exact Hlen].
  vm_compute in E. by injection E as <-.
Defined.

Lemma child_sessions_spec_witness :
  (@child_sessions _ (@InMemory_store plain_ids _ _) sample_store (BitText.to_text 1%Z)).2 = Ok [2%Z].
Proof.
  rewrite (@child_sessions_spec plain_ids _ (@InMemory_store plain_ids _ _) _ sample_store
             (BitText.to_text 1%Z) (map_to_list (sessions sample_store)).*1); by vm_compute.
Defined.
