(* ===== verification/Blob.v ===== *)
(** * Content kept outside the log ([crates/history/src/blob.rs], and
    [externalize_if_bulky] and [hydrate] of [store.rs])

    A bulky entry is stored whole, as JSON, in a content-addressed store, and
    the log gets a reference.  The hash and the JSON library are parameters;
    bytes are the text they encode. *)

From stdpp Require Import base option numbers sets gmap strings list.
From S2P Require Import Prelude RustStr PermTypes Messages.

(** [serde_json] on the types of a log. *)
Class Json := {
  entry_line : EnvelopedEntry → str;
  parse_line : str → option EnvelopedEntry;
  log_json : LogEntry → str;
  parse_log : str → option LogEntry;
  blocks_json : list ContentBlock → str;
  content_json : ToolResultContent → str;
}.

(** ** Stores *)

(** Both shipped stores: [PasteStore] (named [paste], the map being its
    directory) and [InMemoryBlobStore] (named [memory]). *)
Record BlobStore := {
  name : str;
  blobs : gmap str str;
}.

Section Blobs.
Context (content_id : str → str).

(** [put]; [io_ok] says whether the directory can be written. *)
Definition put (io_ok : bool) (b : BlobStore) (bytes : str) : BlobStore * option str :=
  let id := content_id bytes in
  match blobs b !! id with
  | Some _ => (b, if io_ok then Some id else None)
  | None =>
      if io_ok then (Build_BlobStore (name b) (<[id := bytes]> (blobs b)), Some id)
      else (b, None)
  end.

(** [get]: [None] for an error, [Some None] for content that is not there. *)
Definition get (io_ok : bool) (b : BlobStore) (id : str) : option (option str) :=
  if io_ok then Some (blobs b !! id) else None.

(** [PasteStore::cleanup]: remove what is [old]; the number removed. *)
Definition cleanup (old : str → bool) (b : BlobStore) : BlobStore * nat :=
  let kept := filter (λ it, old it.1 = false) (blobs b) in
  (Build_BlobStore (name b) kept, size (blobs b) - size kept).

(** ** What leaves the log *)

Context `{Json}.

Definition BULKY_CONTENT_BYTES : nat := 1024.

Fixpoint carries_image (b : ContentBlock) : bool :=
  match b with
  | Block.Image _ => true
  | Block.ToolResult _ (Block.Blocks nested) _ =>
      (fix any (bs : list ContentBlock) : bool :=
         match bs with [] => false | b :: bs => carries_image b || any bs end) nested
  | _ => false
  end.

Definition blocks_carry_image (blocks : list ContentBlock) : bool := existsb carries_image blocks.

Definition externalizable_kind (e : LogEntry) : option str :=
  let bulky (kind : str) (blocks : list ContentBlock) :=
    if blocks_carry_image blocks || bool_decide (BULKY_CONTENT_BYTES < len (blocks_json blocks))
    then Some kind else None in
  match e with
  | Entry.User content => bulky "user" content
  | Entry.Assistant content _ _ _ => bulky "assistant" content
  | Entry.ToolResult _ content _ =>
      let carries_image :=
        match content with
        | Block.TextContent _ => false
        | Block.Blocks blocks => blocks_carry_image blocks
        end in
      if carries_image || bool_decide (BULKY_CONTENT_BYTES < len (content_json content))
      then Some (lit "tool_result") else None
  | _ => None
  end.

Definition externalize_if_bulky (io_ok : bool) (e : LogEntry) (b : BlobStore)
    : BlobStore * option LogEntry :=
  match externalizable_kind e with
  | None => (b, Some e)
  | Some describes =>
      let json := log_json e in
      match put io_ok b json with
      | (b, None) => (b, None)
      | (b, Some id) =>
          (b, Some (Entry.Blob (Build_BlobRef (name b) id describes (Z.of_nat (len json)))))
      end
  end.

(** The id an entry refers to, if it may be in [b]. *)
Definition reference (e : LogEntry) (b : BlobStore) : option str :=
  match e with
  | Entry.Blob blob => if bool_decide (blob_store blob = name b) then Some (blob_id blob) else None
  | Entry.PasteRef paste_id => Some paste_id
  | _ => None
  end.

Definition set_entry (env : EnvelopedEntry) (e : LogEntry) : EnvelopedEntry :=
  {| v := v env; entry_id := entry_id env; ts := ts env;
     entry_session_id := entry_session_id env; parent_id := parent_id env;
     is_sidechain := is_sidechain env; turn_id := turn_id env; origin := origin env; entry := e |}.

Definition hydrate (io_ok : bool) (env : EnvelopedEntry) (b : BlobStore) : EnvelopedEntry :=
  match reference (entry env) b with
  | None => env
  | Some id =>
      match get io_ok b id with
      | Some (Some bytes) =>
          match parse_log bytes with
          | Some hydrated => set_entry env hydrated
          | None => env
          end
      | Some None | None => env
      end
  end.

(** ** Lemmas *)

(** A later state of a store: it still has what it had. *)
Definition later (b b' : BlobStore) : Prop := name b' = name b ∧ blobs b ⊆ blobs b'.

#[export] Instance later_preorder : PreOrder later.
Proof. split; [done|]. intros x y z [? ?] [? ?]. split; [congruence|by etrans]. Qed.

(** [put] can only go wrong by a collision. *)
Definition no_collision (b : BlobStore) (bytes : str) : Prop :=
  ∀ other, blobs b !! content_id bytes = Some other → other = bytes.

Lemma put_later io_ok b bytes : later b (put io_ok b bytes).1.
Proof.
  unfold put. destruct (blobs b !! content_id bytes) eqn:E; [by destruct io_ok|].
  destruct io_ok; [|done]. split; [done|]. by apply insert_subseteq.
Qed.

Lemma put_get b bytes b' id b'' :
  put true b bytes = (b', Some id) → no_collision b bytes → later b' b'' →
  get true b'' id = Some (Some bytes).
Proof.
  intros Hput Hnc [_ Hlater]. unfold put in Hput. unfold get. f_equal.
  apply (lookup_weaken (blobs b')); [|done].
  destruct (blobs b !! content_id bytes) as [other|] eqn:E.
  - injection Hput as <- <-. by rewrite E, (Hnc other).
  - injection Hput as <- <-. cbn. apply lookup_insert_eq.
Qed.

Lemma externalize_later io_ok e b : later b (externalize_if_bulky io_ok e b).1.
Proof.
  unfold externalize_if_bulky. destruct (externalizable_kind e); [|done].
  pose proof (put_later io_ok b (log_json e)) as Hp.
  by destruct (put io_ok b (log_json e)) as [b' [id|]].
Qed.

Lemma set_entry_set env e e' : set_entry (set_entry env e) e' = set_entry env e'.
Proof. done. Qed.

Lemma set_entry_id env : set_entry env (entry env) = env.
Proof. by destruct env. Qed.

Lemma externalize_hydrate b e b' e' b'' env :
  externalize_if_bulky true e b = (b', Some e') →
  no_collision b (log_json e) → parse_log (log_json e) = Some e → later b' b'' →
  (∀ r, e ≠ Entry.Blob r) → (∀ p, e ≠ Entry.PasteRef p) →
  entry env = e' → hydrate true env b'' = set_entry env e.
Proof.
  intros Hext Hnc Hjson Hlater Hnb Hnp Hentry. unfold externalize_if_bulky in Hext.
  destruct (externalizable_kind e) as [k|].
  - destruct (put true b (log_json e)) as [b1 [id|]] eqn:Hput; [|done]. injection Hext as <- <-.
    pose proof (put_get _ _ _ _ _ Hput Hnc Hlater) as Hget.
    unfold hydrate. rewrite Hentry. cbn [reference blob_store blob_id].
    destruct Hlater as [Hname _]. rewrite bool_decide_eq_true_2 by done.
    by rewrite Hget, Hjson.
  - injection Hext as <- <-. unfold hydrate. rewrite Hentry.
    assert (reference e b'' = None) as ->.
    { destruct e; try done; [by destruct (Hnp paste_id)|by destruct (Hnb blob)]. }
    rewrite <-Hentry. by rewrite set_entry_id.
Qed.

Lemma hydrate_keeps_envelope io_ok env b : ∃ e, hydrate io_ok env b = set_entry env e.
Proof.
  exists (entry (hydrate io_ok env b)). unfold hydrate.
  repeat case_match; try (by rewrite set_entry_id); done.
Qed.

(** ** Theorems *)

(** What was moved out comes back: as long as the store keeps its content
    and no other content has the same hash, hydrating the written line gives
    the entry that was appended, whether it was bulky or not. *)
Theorem externalized_comes_back b e b' e' b'' env :
  externalize_if_bulky true e b = (b', Some e') →
  no_collision b (log_json e) → parse_log (log_json e) = Some e → later b' b'' →
  (∀ r, e ≠ Entry.Blob r) → (∀ p, e ≠ Entry.PasteRef p) →
  entry env = e' → hydrate true env b'' = set_entry env e.
Proof. apply externalize_hydrate. Qed.

(** A reference that cannot be resolved is inert: content that is gone, a
    store that cannot be read, another store's reference or a blob that does
    not parse leave the line as it is, and nothing but the entry of a line
    ever changes. *)
Theorem unresolvable_is_inert io_ok env b :
  (∃ e, hydrate io_ok env b = set_entry env e) ∧
  (hydrate io_ok env b ≠ env →
   io_ok = true ∧ ∃ id bytes e, reference (entry env) b = Some id ∧
     blobs b !! id = Some bytes ∧ parse_log bytes = Some e ∧ hydrate io_ok env b = set_entry env e).
Proof.
  split; [apply hydrate_keeps_envelope|]. unfold hydrate, get.
  destruct (reference (entry env) b) as [id|] eqn:Hr; [|done].
  destruct io_ok; [|done]. destruct (blobs b !! id) as [bytes|] eqn:Hb; [|done].
  destruct (parse_log bytes) as [e|] eqn:He; [|done]. intros _. eauto 10.
Qed.

End Blobs.

(** ** At work *)

(** A stand-in for the JSON library that is right about user text. *)
Definition text_json : Json :=
  {| entry_line _ := []; parse_line _ := None;
     log_json e := match e with Entry.User [Block.Text t None] => t | _ => [] end;
     parse_log s := Some (Entry.User [Block.Text s None]);
     blocks_json bs := match bs with [Block.Text t _] => t | _ => [] end;
     content_json _ := [] |}.

Definition long_entry : LogEntry := Entry.User [Block.Text (replicate 1025 97%N) None].

Definition first_char (s : str) : str := take 1 s.

Lemma externalized_comes_back_witness :
  ∃ b' e', @externalize_if_bulky first_char text_json true long_entry
             (Build_BlobStore (lit "paste") ∅) = (b', Some e') ∧
    kind e' = lit "blob" ∧
    @hydrate text_json true (new_in 1%Z 1%Z 7%Z e') b' = new_in 1%Z 1%Z 7%Z long_entry.
Proof.
  destruct (@externalize_if_bulky first_char text_json true long_entry
             (Build_BlobStore (lit "paste") ∅)) as [b' [e'|]] eqn:E;
    [|vm_compute in E; discriminate E].
  exists b', e'. split_and!; [done|vm_compute in E; by injection E as _ <-|].
  rewrite (@externalized_comes_back first_char text_json _ _ _ _ b' (new_in 1%Z 1%Z 7%Z e') E);
    try done.
Defined.

Lemma unresolvable_is_inert_witness :
  let b := Build_BlobStore (lit "paste") {[ lit "x" := lit "hello" ]} in
  let env := new_in 1%Z 1%Z 7%Z (Entry.PasteRef (lit "x")) in
  @hydrate text_json true env b ≠ env ∧
  ∃ id, reference (entry env) b = Some id.
Proof.
  intros b env. assert (Hne : @hydrate text_json true env b ≠ env) by (vm_compute; discriminate).
  split; [done|].
  destruct (@unresolvable_is_inert text_json true env b) as [_ H].
  destruct (H Hne) as (_&id&_&_&Hr&_). by exists id.
Defined.
