(* ===== verification/Jsonl.v ===== *)
(** * The JSONL history store ([JsonlHistoryStore] of
    [crates/history/src/store.rs], [project.rs], [path.rs],
    [crates/core/src/path.rs])

    Where a session's transcript goes and how it is read back.  The file
    system is two maps: transcripts by directory and session, sidecars by
    session (a sidecar that does not parse is one that is not there).  [wall]
    is the reading of the system clock an operation uses; an [Outcome] says
    which of its writes the disk accepted, and how much of a line. *)

From stdpp Require Import base option numbers sets gmap strings list sorting.
From S2P Require Import Prelude RustStr PermTypes Path Messages Transcript Store Blob.

#[local] Open Scope result_scope.

(** ** Directory names *)

Definition DJB2_INIT : Z := 5381.

(** [str::bytes]. *)
Definition utf8 (c : char) : list Z :=
  let c := Z.of_N c in
  if bool_decide (c < 128)%Z then [c]
  else if bool_decide (c < 2048)%Z then [192 + c / 64; 128 + c `mod` 64]%Z
  else if bool_decide (c < 65536)%Z then
    [224 + c / 4096; 128 + (c / 64) `mod` 64; 128 + c `mod` 64]%Z
  else
    [240 + c / 262144; 128 + (c / 4096) `mod` 64; 128 + (c / 64) `mod` 64; 128 + c `mod` 64]%Z.

Definition djb2_hash (s : str) : Z :=
  foldl (λ hash byte, ((hash * 33) `mod` 2 ^ 64 + byte) `mod` 2 ^ 64)%Z DJB2_INIT (s ≫= utf8).

Definition radix36_char (d : Z) : char :=
  if bool_decide (d < 10)%Z then Z.to_N (48 + d) else Z.to_N (87 + d).

(** The loop, most significant digit first; [36 ^ 13 > 2 ^ 64]. *)
Fixpoint radix36_loop (fuel : nat) (value : Z) (result : str) : str :=
  match fuel with
  | 0 => result
  | S fuel =>
      if bool_decide (0 < value)%Z
      then radix36_loop fuel (value / 36) (radix36_char (value `mod` 36) :: result)
      else result
  end.

Definition radix36_encode (value : Z) : str :=
  if bool_decide (value = 0)%Z then "0" else radix36_loop 13 value [].

Definition SANITIZE_MAX_LEN : nat := 200.

Definition sanitize_for_fs (name : str) : str :=
  let sanitized := (λ c, if is_ascii_alphanumeric c then c else ch "-") <$> name in
  if bool_decide (len sanitized ≤ SANITIZE_MAX_LEN) then sanitized
  else
    let suffix := radix36_encode (djb2_hash name) in
    let prefix_len := SANITIZE_MAX_LEN - (len suffix + 1) in
    take prefix_len sanitized ++ lit "-" ++ suffix.

Definition project_dir (canonical_cwd : str) : str := sanitize_for_fs canonical_cwd.

Definition NO_PROJECT_DIR : str := "_no-project".

(** Under the projects root. *)
Definition project_dir_for (home : option str) : str :=
  match home with Some cwd => project_dir cwd | None => NO_PROJECT_DIR end.

(** ** Sidecars *)

Record SessionMetadata := {
  md_schema_version : Z;
  md_session_id : SessionId;
  canonical_cwd : str;
  project_state_file : str;
  history_file : str * SessionId;
  created_at : Z;
  updated_at : Z;
  title : option str;
  first_user_prompt : option str;
  latest_summary : option str;
  md_total_input_tokens : option Z;
  md_total_output_tokens : option Z;
  compact_count : Z;
  md_tags : list str;
  pr_link : option str;
  agent_mode : option str;
}.

Definition project_session_state_file (canonical_cwd : str) : str :=
  push (push canonical_cwd ".atta") "session.json".

Definition SessionMetadata_new (wall : Z) (cwd dir : str) (session : SessionId)
    : SessionMetadata :=
  {| md_schema_version := 1; md_session_id := session; canonical_cwd := cwd;
     project_state_file := project_session_state_file cwd; history_file := (dir, session);
     created_at := wall; updated_at := wall; title := None; first_user_prompt := None;
     latest_summary := None; md_total_input_tokens := None; md_total_output_tokens := None;
     compact_count := 0; md_tags := []; pr_link := None; agent_mode := None |}.

Definition set_placement (wall : Z) (cwd dir : str) (session : SessionId) (m : SessionMetadata)
    : SessionMetadata :=
  {| md_schema_version := md_schema_version m; md_session_id := md_session_id m;
     canonical_cwd := cwd; project_state_file := project_session_state_file cwd;
     history_file := (dir, session); created_at := created_at m; updated_at := wall;
     title := title m; first_user_prompt := first_user_prompt m;
     latest_summary := latest_summary m; md_total_input_tokens := md_total_input_tokens m;
     md_total_output_tokens := md_total_output_tokens m; compact_count := compact_count m;
     md_tags := md_tags m; pr_link := pr_link m; agent_mode := agent_mode m |}.

Definition set_counts (wall : Z) (t : option str) (compactions : Z) (m : SessionMetadata)
    : SessionMetadata :=
  {| md_schema_version := md_schema_version m; md_session_id := md_session_id m;
     canonical_cwd := canonical_cwd m; project_state_file := project_state_file m;
     history_file := history_file m; created_at := created_at m; updated_at := wall;
     title := t; first_user_prompt := first_user_prompt m; latest_summary := latest_summary m;
     md_total_input_tokens := md_total_input_tokens m;
     md_total_output_tokens := md_total_output_tokens m; compact_count := compactions;
     md_tags := md_tags m; pr_link := pr_link m; agent_mode := agent_mode m |}.

Notation sidecars_t := (gmap SessionId SessionMetadata).

Definition sidecar_or_new (wall : Z) (cwd dir : str) (session : SessionId) (sc : sidecars_t)
    : SessionMetadata := default (SessionMetadata_new wall cwd dir session) (sc !! session).

Definition ensure_session_sidecar_in (wall : Z) (cwd dir : str) (session : SessionId)
    (sc : sidecars_t) : sidecars_t :=
  <[session := set_placement wall cwd dir session (sidecar_or_new wall cwd dir session sc)]> sc.

(** [CounterDelta::of]. *)
Definition counter_delta (e : LogEntry) : Z := if is_compact e then 1 else 0.

Definition add_counters_in (wall : Z) (cwd dir : str) (session : SessionId) (delta : Z)
    (sc : sidecars_t) : sidecars_t :=
  if bool_decide (delta = 0)%Z then sc
  else
    let m := sidecar_or_new wall cwd dir session sc in
    <[session := set_counts wall (title m) (compact_count m + delta) m]> sc.

Definition set_session_title_in (wall : Z) (cwd dir : str) (session : SessionId)
    (t : option str) (sc : sidecars_t) : sidecars_t :=
  let sc := ensure_session_sidecar_in wall cwd dir session sc in
  let m := sidecar_or_new wall cwd dir session sc in
  <[session := set_counts wall t (compact_count m) m]> sc.

Definition session_stats_in (session : SessionId) (sc : sidecars_t) : SessionStats :=
  match sc !! session with
  | Some m => Build_SessionStats (title m) (compact_count m)
  | None => Build_SessionStats None 0
  end.

(** ** The store *)

Section Jsonl.
Context `{Base58} `{Json} `{HostEnv} (content_id : str → str) (P : TranscriptProjection)
  (to_json : value → str) {X : Type} `{Environment X}.

Record JsonlHistoryStore := {
  store_cwd : str;
  homes : gmap SessionId (option str);
  files : gmap (str * SessionId) (str * Z);
  sidecars : sidecars_t;
  blob_store : option BlobStore;
  environment : X;
}.

Definition set_homes (s : JsonlHistoryStore) h : JsonlHistoryStore :=
  Build_JsonlHistoryStore (store_cwd s) h (files s) (sidecars s) (blob_store s) (environment s).
Definition set_files (s : JsonlHistoryStore) f : JsonlHistoryStore :=
  Build_JsonlHistoryStore (store_cwd s) (homes s) f (sidecars s) (blob_store s) (environment s).
Definition set_sidecars (s : JsonlHistoryStore) sc : JsonlHistoryStore :=
  Build_JsonlHistoryStore (store_cwd s) (homes s) (files s) sc (blob_store s) (environment s).
Definition set_blobs (s : JsonlHistoryStore) b : JsonlHistoryStore :=
  Build_JsonlHistoryStore (store_cwd s) (homes s) (files s) (sidecars s) b (environment s).
Definition set_environment (s : JsonlHistoryStore) e : JsonlHistoryStore :=
  Build_JsonlHistoryStore (store_cwd s) (homes s) (files s) (sidecars s) (blob_store s) e.

(** What [home_of] finds when the map has nothing. *)
Definition disk_home (s : JsonlHistoryStore) (session : SessionId) : option str :=
  match sidecars s !! session with
  | Some m => if bool_decide (canonical_cwd m = []) then None else Some (canonical_cwd m)
  | None => Some (store_cwd s)
  end.

Definition home_of (s : JsonlHistoryStore) (session : SessionId)
    : JsonlHistoryStore * option str :=
  match homes s !! session with
  | Some home => (s, home)
  | None =>
      let resolved := disk_home s session in
      (set_homes s (<[session := resolved]> (homes s)), resolved)
  end.

(** [canonicalize_cwd(p).unwrap_or(p)]. *)
Definition resolve_root (p : str) : str := default p (canonicalize p).

Definition home_from_meta (s : JsonlHistoryStore) (e : LogEntry)
    : JsonlHistoryStore * option (option str) :=
  match e with
  | Entry.Meta m =>
      match project_root m with
      | Some root => (s, Some (Some (resolve_root root)))
      | None =>
          match parent_session_id m with
          | Some parent =>
              match id_parse parent with
              | Some parent => let '(s, home) := home_of s parent in (s, Some home)
              | None => (s, Some (Some (store_cwd s)))
              end
          | None => (s, Some None)
          end
      end
  | _ => (s, None)
  end.

(** How far writing a line comes: the file cannot be opened, [write_all] fails
    when so many characters are in the file, or all are. *)
Inductive LineWrite := Unopened | Torn (n : nat) | Whole.

Record Outcome := {
  sidecar_ok : bool;
  blobs_ok : bool;
  line_write : LineWrite;
  counters_ok : bool;
}.

(** Placing the session: the map and the sidecar, for a line that says where
    it belongs. *)
Definition place (o : Outcome) (wall : Z) (s : JsonlHistoryStore) (session : SessionId)
    (e : LogEntry) : JsonlHistoryStore * option (option str) :=
  match home_from_meta s e with
  | (s, Some home) =>
      if sidecar_ok o then
        let s := set_sidecars s (ensure_session_sidecar_in wall (default [] home)
                                   (project_dir_for home) session (sidecars s)) in
        (set_homes s (<[session := home]> (homes s)), Some home)
      else (s, None)
  | (s, None) => let '(s, home) := home_of s session in (s, Some home)
  end.

Definition jsonl_append_tagged (o : Outcome) (wall : Z) (s : JsonlHistoryStore)
    (session : SessionId) (e : LogEntry) (tags : EntryTags)
    : JsonlHistoryStore * result unit HistoryError :=
  match place o wall s session e with
  | (s, None) => (s, Err Io)
  | (s, Some home) =>
      let dir := project_dir_for home in
      let counters := counter_delta e in
      let '(bs, e) :=
        match blob_store s with
        | Some b => let '(b, e) := externalize_if_bulky content_id (blobs_ok o) e b in (Some b, e)
        | None => (None, Some e)
        end in
      let s := set_blobs s bs in
      match e with
      | None => (s, Err Io)
      | Some e =>
          let '(env, es) := new_line (environment s) session e tags in
          let content := default [] (fst <$> files s !! (dir, session)) in
          let buf := entry_line env ++ [10%N] in
          match line_write o with
          | Unopened => (s, Err Io)
          | Torn n =>
              let s := set_environment s es in
              (set_files s (<[(dir, session) := (content ++ take n buf, wall)]> (files s)), Err Io)
          | Whole =>
              let s := set_environment s es in
              let s := set_files s (<[(dir, session) := (content ++ buf, wall)]> (files s)) in
              let s := if counters_ok o
                       then set_sidecars s (add_counters_in wall (default [] home) dir session
                                              counters (sidecars s))
                       else s in
              (s, Ok tt)
          end
      end
  end.

(** *** Reading *)

(** [str::lines]. *)
Definition chomp (l : str) : str := default l (strip_suffix [13%N] l).

Fixpoint lines_of (pieces : list str) : list str :=
  match pieces with
  | [] => []
  | [p] => if bool_decide (p = []) then [] else [p]
  | p :: ps => chomp p :: lines_of ps
  end.

Definition lines (s : str) : list str := lines_of (split 10%N s).

(** The loop over the lines; [i] counts from the one before. *)
Fixpoint parse_lines (fix_up : EnvelopedEntry → EnvelopedEntry) (i : nat) (ls : list str)
    : result (list EnvelopedEntry) HistoryError :=
  match ls with
  | [] => Ok []
  | l :: ls =>
      if bool_decide (trim l = []) then parse_lines fix_up (S i) ls
      else
        match parse_line l with
        | None => Err (Parse (S i))
        | Some env =>
            rest ←? parse_lines fix_up (S i) ls;
            Ok (fix_up env :: rest)
        end
  end.

Definition hydrated (s : JsonlHistoryStore) (env : EnvelopedEntry) : EnvelopedEntry :=
  match blob_store s with Some b => hydrate true env b | None => env end.

Definition jsonl_load (s : JsonlHistoryStore) (session : SessionId)
    : JsonlHistoryStore * result (list EnvelopedEntry) HistoryError :=
  let '(s, home) := home_of s session in
  (s, match files s !! (project_dir_for home, session) with
      | None => Err (SessionNotFound (id_string session))
      | Some (content, _) => parse_lines (hydrated s) 0 (lines content)
      end).

Definition jsonl_delete (s : JsonlHistoryStore) (session : SessionId)
    : JsonlHistoryStore * result unit HistoryError :=
  let '(s, home) := home_of s session in
  let s := set_files s (base.delete (project_dir_for home, session) (files s)) in
  let s := set_sidecars s (base.delete session (sidecars s)) in
  (set_homes s (base.delete session (homes s)), Ok tt).

Definition jsonl_set_session_title (wall : Z) (s : JsonlHistoryStore) (session : SessionId)
    (t : option str) : JsonlHistoryStore :=
  let '(s, home) := home_of s session in
  set_sidecars s (set_session_title_in wall (default [] home) (project_dir_for home) session t
                    (sidecars s)).

(** Only as far as the metadata line. *)
Fixpoint facts_in_lines (i : nat) (ls : list str) : result SessionFacts HistoryError :=
  match ls with
  | [] => Ok SessionFacts_default
  | l :: ls =>
      if bool_decide (trim l = []) then facts_in_lines (S i) ls
      else
        match parse_line l with
        | None => Err (Parse (S i))
        | Some env =>
            match facts_of (entry env) with
            | Some facts => Ok facts
            | None => facts_in_lines (S i) ls
            end
        end
  end.

Definition jsonl_session_facts (s : JsonlHistoryStore) (session : SessionId)
    : JsonlHistoryStore * result SessionFacts HistoryError :=
  let '(s, home) := home_of s session in
  (s, match files s !! (project_dir_for home, session) with
      | None => Ok SessionFacts_default
      | Some (content, _) => facts_in_lines 0 (lines content)
      end).

(** *** Listing *)

(** The transcripts of one directory, in whatever order it lists them. *)
Definition session_files (s : JsonlHistoryStore) (dir : str) : list (SessionId * Z) :=
  omap (λ f : (str * SessionId) * (str * Z),
          if bool_decide (f.1.1 = dir) then Some (f.1.2, f.2.2) else None)
    (map_to_list (files s)).

Definition session_ids_in (s : JsonlHistoryStore) (dir : str) : list SessionId :=
  (session_files s dir).*1.

Definition jsonl_list_sessions (s : JsonlHistoryStore) : list SessionId :=
  session_ids_in s (project_dir (store_cwd s)).

Fixpoint jsonl_children_among (s : JsonlHistoryStore) (parent : str) (all : list SessionId)
    : JsonlHistoryStore * result (list SessionId) HistoryError :=
  match all with
  | [] => (s, Ok [])
  | sid :: all =>
      let '(s, r) := jsonl_session_facts s sid in
      match r with
      | Err e => (s, Err e)
      | Ok facts =>
          let '(s, r) := jsonl_children_among s parent all in
          (s, out ←? r;
              Ok (if bool_decide (facts_parent_session_id facts = Some parent)
                  then sid :: out else out))
      end
  end.

Definition jsonl_child_sessions (s : JsonlHistoryStore) (parent : str)
    : JsonlHistoryStore * result (list SessionId) HistoryError :=
  let '(s, dir) :=
    match id_parse parent with
    | Some parent => let '(s, home) := home_of s parent in (s, project_dir_for home)
    | None => (s, project_dir (store_cwd s))
    end in
  jsonl_children_among s parent (session_ids_in s dir).

(** [sort_by_key(Reverse(mtime))]. *)
Definition newer (a b : SessionId * Z) : Prop := (b.2 ≤ a.2)%Z.

#[export] Instance newer_dec a b : Decision (newer a b).
Proof. unfold newer. apply _. Defined.

Definition session_files_by_mtime (s : JsonlHistoryStore) (dir : str) (max : option nat)
    : list (SessionId * Z) :=
  let found := merge_sort newer (session_files s dir) in
  match max with None => found | Some max => take max found end.

Definition summary_from_parts (session : SessionId) (mtime : Z) (entry_count : nat)
    (messages : list Message) (metadata : option SessionMetadata) : SessionSummary :=
  {| summary_session_id := session; last_modified := Some mtime;
     summary_entry_count := entry_count; message_count := length messages;
     preview := default (preview_messages messages 140) (metadata ≫= latest_summary);
     summary_canonical_cwd := canonical_cwd <$> metadata;
     summary_title := metadata ≫= title;
     total_input_tokens := metadata ≫= md_total_input_tokens;
     total_output_tokens := metadata ≫= md_total_output_tokens;
     summary_compact_count := default 0%Z (compact_count <$> metadata) |}.

Definition session_summary (s : JsonlHistoryStore) (session : SessionId) (mtime : Z)
    : JsonlHistoryStore * result (option SessionSummary) HistoryError :=
  let '(s, r) := jsonl_load s session in
  match r with
  | Err (SessionNotFound _) | Err (Parse _) => (s, Ok None)
  | Err e => (s, Err e)
  | Ok entries =>
      (s, Ok (Some (summary_from_parts session mtime (length entries)
                      (@project_messages_with P entries) (sidecars s !! session))))
  end.

Fixpoint summaries_of (s : JsonlHistoryStore) (d : SummaryDetail) (fs : list (SessionId * Z))
    : JsonlHistoryStore * result (list SessionSummary) HistoryError :=
  match fs with
  | [] => (s, Ok [])
  | (session, mtime) :: fs =>
      let '(s, r) :=
        match d with
        | IdsOnly => (s, Ok (Some (summary_from_parts session mtime 0 [] (sidecars s !! session))))
        | Full => session_summary s session mtime
        end in
      match r with
      | Err e => (s, Err e)
      | Ok o =>
          let '(s, r) := summaries_of s d fs in
          (s, out ←? r; Ok (match o with Some x => x :: out | None => out end))
      end
  end.

Definition recent_summaries (s : JsonlHistoryStore) (dir : str) (max : nat) (d : SummaryDetail)
    : JsonlHistoryStore * result (list SessionSummary) HistoryError :=
  summaries_of s d (session_files_by_mtime s dir (Some max)).

(** The loop of [search_one_project], its [out] as an accumulator. *)
Fixpoint search_files (s : JsonlHistoryStore) (needle : str) (max : nat)
    (fs : list (SessionId * Z)) (out : list SessionSummary)
    : JsonlHistoryStore * result (list SessionSummary) HistoryError :=
  match fs with
  | [] => (s, Ok out)
  | (session, mtime) :: fs =>
      let '(s, r) := jsonl_load s session in
      match r with
      | Err (SessionNotFound _) => search_files s needle max fs out
      | Err e => (s, Err e)
      | Ok entries =>
          let messages := @project_messages_with P entries in
          let out :=
            if contains needle (id_string session) || messages_match_query to_json messages needle
            then out ++ [summary_from_parts session mtime (length entries) messages
                           (sidecars s !! session)]
            else out in
          if bool_decide (max ≤ length out) then (s, Ok out) else search_files s needle max fs out
      end
  end.

Definition search_one_project (s : JsonlHistoryStore) (dir needle : str) (max : nat)
    : JsonlHistoryStore * result (list SessionSummary) HistoryError :=
  search_files s needle max (session_files_by_mtime s dir None) [].

Inductive ProjectDirFilter := All | UnderPath (root : str).

Definition filter_matches (f : ProjectDirFilter) (metadata : option SessionMetadata) : bool :=
  match f with
  | All => true
  | UnderPath root =>
      match metadata with Some m => path_starts_with (canonical_cwd m) root | None => false end
  end.

(** [load_entries_from_path]: the lines as they are, references unresolved. *)
Definition load_entries_from_path (content : str) : result (list EnvelopedEntry) HistoryError :=
  parse_lines (λ env, env) 0 (lines content).

(** The transcripts of every project, newest first. *)
Definition newer_file (a b : SessionId * (str * Z)) : Prop := (b.2.2 ≤ a.2.2)%Z.

#[export] Instance newer_file_dec a b : Decision (newer_file a b).
Proof. unfold newer_file. apply _. Defined.

Definition candidates (s : JsonlHistoryStore) : list (SessionId * (str * Z)) :=
  merge_sort newer_file ((λ f, (f.1.2, f.2)) <$> map_to_list (files s)).

Definition haystack (session : SessionId) (metadata : option SessionMetadata)
    (messages : list Message) : str :=
  to_lowercase
    (id_string session ++ [10%N] ++ default [] (metadata ≫= title) ++ [10%N] ++
     default [] (canonical_cwd <$> metadata) ++ [10%N] ++ render_search_text to_json messages).

Fixpoint search_candidates (s : JsonlHistoryStore) (query : str) (max : nat)
    (f : ProjectDirFilter) (cs : list (SessionId * (str * Z))) (out : list SessionSummary)
    : result (list SessionSummary) HistoryError :=
  match cs with
  | [] => Ok out
  | (session, (content, mtime)) :: cs =>
      entries ←? load_entries_from_path content;
      let metadata := sidecars s !! session in
      if negb (filter_matches f metadata) then search_candidates s query max f cs out
      else
        let messages := @project_messages_with P entries in
        let out :=
          if bool_decide (query = []) || contains query (haystack session metadata messages)
          then out ++ [summary_from_parts session mtime (length entries) messages metadata]
          else out in
        if bool_decide (max ≤ length out) then Ok out else search_candidates s query max f cs out
  end.

Definition search_project_dirs (s : JsonlHistoryStore) (query : str) (max : nat)
    (f : ProjectDirFilter) : result (list SessionSummary) HistoryError :=
  if bool_decide (max = 0) then Ok []
  else search_candidates s (to_lowercase (trim query)) max f (candidates s) [].

Definition jsonl_find_sessions (s : JsonlHistoryStore) (query : SessionQuery)
    : JsonlHistoryStore * result (list SessionSummary) HistoryError :=
  let in_dir (dir : str) :=
    match needle query with
    | None => recent_summaries s dir (limit query) (detail query)
    | Some needle => search_one_project s dir needle (limit query)
    end in
  match scope query with
  | CurrentProject => in_dir (project_dir (store_cwd s))
  | InProject home => in_dir (project_dir_for (resolve_root <$> home))
  | AllProjects => (s, search_project_dirs s (text query) (limit query) All)
  | Under root => (s, search_project_dirs s (text query) (limit query) (UnderPath root))
  end.

(** ** Homes *)

(** Where a session's transcript is looked for. *)
Definition home (s : JsonlHistoryStore) (session : SessionId) : option str :=
  default (disk_home s session) (homes s !! session).

(** The map says what the disk would. *)
Definition settled (s : JsonlHistoryStore) : Prop :=
  ∀ session h, homes s !! session = Some h → disk_home s session = h.

(** The same disk, in a new process. *)
Definition restart (s : JsonlHistoryStore) : JsonlHistoryStore := set_homes s ∅.

(** Two states that differ in what is cached only. *)
Definition same_disk (s s' : JsonlHistoryStore) : Prop :=
  store_cwd s' = store_cwd s ∧ files s' = files s ∧ sidecars s' = sidecars s ∧
  blob_store s' = blob_store s ∧ environment s' = environment s ∧
  ∀ session, home s' session = home s session.

Lemma same_disk_refl s : same_disk s s.
Proof. by split_and!. Qed.

Lemma home_of_spec s session :
  (home_of s session).2 = home s session ∧ same_disk s (home_of s session).1 ∧
  (settled s → settled (home_of s session).1).
Proof.
  unfold home_of, home. destruct (homes s !! session) as [h|] eqn:E; cbn [fst snd].
  { split_and!; try done. }
  split; [done|]. split.
  - split_and!; try done. intros x. unfold home, disk_home. cbn [homes set_homes sidecars store_cwd].
    destruct (decide (x = session)) as [->|]; [by rewrite lookup_insert_eq, E|].
    by rewrite lookup_insert_ne.
  - intros Hs x h. cbn [homes set_homes]. destruct (decide (x = session)) as [->|].
    + rewrite lookup_insert_eq. by intros [= <-].
    + rewrite lookup_insert_ne by done. apply Hs.
Qed.

Lemma settled_home s session : settled s → home s session = disk_home s session.
Proof.
  intros Hs. unfold home. destruct (homes s !! session) as [h|] eqn:E; [|done].
  symmetry. by apply Hs.
Qed.

(** The lines of a transcript, references and all. *)
Definition raw_load (s : JsonlHistoryStore) (session : SessionId)
    : result (list EnvelopedEntry) HistoryError :=
  match files s !! (project_dir_for (home s session), session) with
  | None => Err (SessionNotFound (id_string session))
  | Some (content, _) => parse_lines (λ env, env) 0 (lines content)
  end.

Definition result_map {A B Er} (f : A → B) (r : result A Er) : result B Er :=
  match r with Ok x => Ok (f x) | Err e => Err e end.

Lemma parse_lines_map f i ls :
  parse_lines f i ls = result_map (fmap f) (parse_lines (λ env, env) i ls).
Proof.
  revert i. induction ls as [|l ls IH]; intros i; [done|]. cbn [parse_lines].
  case_bool_decide; [apply IH|]. destruct (parse_line l); [|done].
  rewrite (IH (S i)). by destruct (parse_lines _ _ ls).
Qed.

Lemma jsonl_load_raw s session :
  (jsonl_load s session).2 = result_map (fmap (hydrated s)) (raw_load s session) ∧
  same_disk s (jsonl_load s session).1 ∧ (settled s → settled (jsonl_load s session).1).
Proof.
  unfold jsonl_load, raw_load. pose proof (home_of_spec s session) as (Hh&Hd&Hs).
  destruct (home_of s session) as [s' h]. cbn [fst snd] in *. subst h.
  split; [|done]. destruct Hd as (_&Hf&_&Hb&_&_). rewrite Hf.
  destruct (files s !! _) as [[content mt]|]; [|done].
  rewrite parse_lines_map. unfold hydrated. by rewrite Hb.
Qed.

(** ** Lines *)










(** ** Appending *)

(** A home that its sidecar can tell from no home. *)
Definition rooted (h : option str) : Prop := h ≠ Some [].

Lemma rooted_home h : rooted h →
  (if bool_decide (default [] h = []) then None else Some (default [] h)) = h.
Proof.
  destruct h as [c|]; cbn; unfold id; [|done]. intros Hr.
  case_bool_decide as Hc; [|done]. exfalso. apply Hr. by rewrite Hc.
Qed.

(** The home an entry is written under. *)
Definition home_for (s : JsonlHistoryStore) (session : SessionId) (e : LogEntry) : option str :=
  match (home_from_meta s e).2 with Some h => h | None => home s session end.

Lemma home_from_meta_spec s e :
  same_disk s (home_from_meta s e).1 ∧ (settled s → settled (home_from_meta s e).1).
Proof.
  destruct e as [m| | | | | | | | | |]; try (split; [apply same_disk_refl|done]).
  cbn [home_from_meta]. destruct (project_root m); [split; [apply same_disk_refl|done]|].
  destruct (parent_session_id m) as [p|]; [|split; [apply same_disk_refl|done]].
  destruct (id_parse p) as [p'|]; [|split; [apply same_disk_refl|done]].
  pose proof (home_of_spec s p') as (_&?&?). by destruct (home_of s p').
Qed.

Lemma place_spec o wall s session e s1 h :
  place o wall s session e = (s1, Some h) →
  h = home_for s session e ∧
  files s1 = files s ∧ blob_store s1 = blob_store s ∧ environment s1 = environment s ∧
  homes s1 !! session = Some h ∧ (∀ x, x ≠ session → home s1 x = home s x) ∧
  (settled s → rooted h → settled s1).
Proof.
  unfold place, home_for.
  pose proof (home_from_meta_spec s e) as [(Hcwd&Hf&Hsc&Hb&Henv&Hhome) Hset].
  destruct (home_from_meta s e) as [s' [h'|]]; cbn [fst snd] in *.
  - destruct (sidecar_ok o); [|done]. intros [= <- <-].
    cbn [files blob_store environment homes set_homes set_sidecars].
    split_and!; try done; [apply lookup_insert_eq| |].
    + intros x Hx. rewrite <-Hhome. unfold home, disk_home.
      cbn [homes sidecars store_cwd set_homes set_sidecars].
      rewrite lookup_insert_ne by done. unfold ensure_session_sidecar_in.
      by rewrite lookup_insert_ne.
    + intros Hs Hr x hx. unfold disk_home. cbn [homes sidecars store_cwd set_homes set_sidecars].
      unfold ensure_session_sidecar_in. destruct (decide (x = session)) as [->|Hx].
      * rewrite !lookup_insert_eq. intros [= <-]. by apply rooted_home.
      * rewrite !lookup_insert_ne by done. by apply Hset.
  - pose proof (home_of_spec s' session) as (Hh&(_&Hf'&_&Hb'&Henv'&Hhome')&Hs').
    unfold home_of in *. destruct (homes s' !! session) as [hh|] eqn:Ehh; cbn [fst snd] in *;
      intros [= <- <-]; cbn [files blob_store environment homes set_homes] in *.
    + split_and!; try done; [by rewrite Hh, Hhome|auto].
    + split_and!; try done; [by rewrite Hh, Hhome|apply lookup_insert_eq|
        intros; by rewrite Hhome', Hhome|auto].
Qed.

(** What goes to the file in the place of an entry, and the blobs left. *)
Definition stored (o : Outcome) (s : JsonlHistoryStore) (e : LogEntry)
    : option BlobStore * option LogEntry :=
  match blob_store s with
  | Some b => let '(b, e) := externalize_if_bulky content_id (blobs_ok o) e b in (Some b, e)
  | None => (None, Some e)
  end.

Lemma counters_keep_homes wall (s : JsonlHistoryStore) (session : SessionId) (h : option str) delta :
  homes s !! session = Some h →
  let s' := set_sidecars s (add_counters_in wall (default [] h) (project_dir_for h) session delta
                              (sidecars s)) in
  (∀ x, home s' x = home s x) ∧ (settled s → rooted h → settled s').
Proof.
  intros Hh. unfold add_counters_in.
  destruct (bool_decide (delta = 0)%Z); cbn zeta; [split; [done|by destruct s]|].
  unfold home, settled, disk_home. cbn [homes sidecars store_cwd set_sidecars]. split.
  - intros x. destruct (decide (x = session)) as [->|Hx]; [by rewrite Hh|].
    by rewrite lookup_insert_ne.
  - intros Hs Hr x hx Hx. destruct (decide (x = session)) as [->|Hne];
      [|rewrite lookup_insert_ne by done; by apply Hs].
    rewrite Hh in Hx. injection Hx as <-.
    rewrite lookup_insert_eq. cbn [canonical_cwd set_counts]. unfold sidecar_or_new.
    pose proof (Hs session h Hh) as Hd.
    destruct (sidecars s !! session) as [m|]; cbn [default from_option]; [exact Hd|].
    unfold id. cbn [canonical_cwd SessionMetadata_new]. by apply rooted_home.
Qed.

Lemma append_ok_spec o wall s session e tags s' :
  jsonl_append_tagged o wall s session e tags = (s', Ok tt) →
  let h := home_for s session e in
  ∃ bs e', stored o s e = (bs, Some e') ∧
    let env := (new_line (environment s) session e' tags).1 in
    files s' = <[(project_dir_for h, session) :=
      (default [] (fst <$> files s !! (project_dir_for h, session)) ++ entry_line env ++ [10%N],
       wall)]> (files s) ∧
    blob_store s' = bs ∧ home s' session = h ∧ (∀ x, x ≠ session → home s' x = home s x) ∧
    (settled s → rooted h → settled s').
Proof.
  unfold jsonl_append_tagged. destruct (place o wall s session e) as [s1 [h|]] eqn:Hp; [|done].
  destruct (place_spec _ _ _ _ _ _ _ Hp) as (Hh&Hf&Hb&Henv&Hhs&Hother&Hset).
  subst h. set (h := home_for s session e) in *. rewrite Hb. fold (stored o s e).
  destruct (stored o s e) as [bs [e'|]] eqn:Hst; [|done].
  cbn [environment set_blobs]. rewrite Henv.
  destruct (new_line (environment s) session e' tags) as [env es] eqn:Hnew.
  destruct (line_write o); [done..|].
  set (s2 := set_files _ _).
  assert (Hmap : homes s2 !! session = Some h) by done.
  destruct (counters_keep_homes wall s2 session h (counter_delta e) Hmap) as [Hk Hks].
  assert (Hs2 : settled s → rooted h → settled s2)
    by (intros Hs Hr x hx Hx; apply (Hset Hs Hr x hx Hx)).
  intros [= <-]. exists bs, e'. rewrite Hnew. cbn [fst].
  split; [done|]. destruct (counters_ok o).
  - split_and!; [by subst s2; cbn; rewrite Hf|done|by rewrite Hk; unfold home; rewrite Hmap| |auto].
    intros x Hx. rewrite Hk. by apply Hother.
  - split_and!; [by subst s2; cbn; rewrite Hf|done|by unfold home; rewrite Hmap| |auto].
    intros x Hx. by apply Hother.
Qed.






(** ** Searches *)

Lemma search_files_zero s needle session mtime rest entries :
  (jsonl_load s session).2 = Ok entries →
  contains needle (id_string session) ||
    messages_match_query to_json (@project_messages_with P entries) needle = true →
  ∃ x, (search_files s needle 0 ((session, mtime) :: rest) []).2 = Ok [x].
Proof.
  intros Hload Hm. cbn [search_files]. destruct (jsonl_load s session) as [s' r]. cbn [snd] in Hload.
  rewrite Hload, Hm. cbn. eauto.
Qed.

(** What the search over several projects looks at: the lines themselves. *)
Definition raw_match (s : JsonlHistoryStore) (query : str) (x : SessionSummary) : Prop :=
  ∃ session content mtime entries,
    (session, (content, mtime)) ∈ candidates s ∧ load_entries_from_path content = Ok entries ∧
    summary_session_id x = session ∧
    (query = [] ∨ contains query (haystack session (sidecars s !! session)
                                    (@project_messages_with P entries)) = true).

Lemma search_candidates_spec s query max f cs out answer :
  search_candidates s query max f cs out = Ok answer →
  (∀ c, c ∈ cs → c ∈ candidates s) →
  ∃ more, answer = out ++ more ∧ Forall (raw_match s query) more ∧
    (length out < max → length answer ≤ max).
Proof.
  revert out. induction cs as [|[session [content mtime]] cs IH]; intros out; cbn [search_candidates].
  { intros [= <-] _. exists []. rewrite app_nil_r. split_and!; [done|constructor|lia]. }
  destruct (load_entries_from_path content) as [entries|] eqn:El; [|done]. cbn [result_bind].
  intros Hs Hcs.
  assert (Hcs' : ∀ c, c ∈ cs → c ∈ candidates s) by (intros c Hc; apply Hcs; by right).
  destruct (negb _); [by apply IH|].
  destruct (bool_decide (query = []) || _) eqn:Em; last first.
  { case_bool_decide; [|by apply IH].
    injection Hs as <-. exists []. rewrite app_nil_r. split_and!; [done|constructor|lia]. }
  set (x := summary_from_parts session mtime (length entries) _ _) in Hs.
  assert (raw_match s query x).
  { exists session, content, mtime, entries. split_and!; [apply Hcs; left|done|done|].
    apply orb_true_iff in Em as [Em%bool_decide_eq_true|Em]; auto. }
  case_bool_decide as Hfull.
  - injection Hs as <-. exists [x]. split_and!; [done|by constructor|].
    rewrite length_app. cbn. lia.
  - apply IH in Hs as (more&->&Hmore&Hlen); [|done].
    exists (x :: more). split_and!; [by rewrite <-app_assoc|by constructor|].
    intros Hlt. apply Hlen. lia.
Qed.

End Jsonl.
Arguments JsonlHistoryStore : clear implicits.

(** ** Lemmas on directory names *)

Definition fs_char (c : char) : bool := is_ascii_alphanumeric c || bool_decide (c = ch "-").

Lemma fs_char_len s : Forall (λ c, fs_char c = true) s → len s = length s.
Proof.
  induction 1 as [|c s Hc _ IH]; [done|]. unfold len in *. cbn. rewrite IH.
  assert (len_utf8 c = 1) as ->; [|done].
  unfold fs_char, is_ascii_alphanumeric, is_ascii_alphabetic, is_ascii_uppercase,
    is_ascii_lowercase, is_ascii_digit in Hc. unfold len_utf8.
  rewrite !orb_true_iff, !bool_decide_eq_true in Hc. change (ch "-") with 45%N in Hc.
  destruct (c <? 128)%N eqn:E; [done|]. apply N.ltb_ge in E. lia.
Qed.

Lemma radix36_char_fs d : (0 ≤ d < 36)%Z → fs_char (radix36_char d) = true.
Proof.
  intros Hd. unfold fs_char, is_ascii_alphanumeric, is_ascii_alphabetic, is_ascii_uppercase,
    is_ascii_lowercase, is_ascii_digit, radix36_char.
  rewrite !orb_true_iff, !bool_decide_eq_true. case_bool_decide; lia.
Qed.

Lemma radix36_loop_spec fuel value result :
  Forall (λ c, fs_char c = true) result →
  Forall (λ c, fs_char c = true) (radix36_loop fuel value result) ∧
  length (radix36_loop fuel value result) ≤ fuel + length result.
Proof.
  revert value result. induction fuel as [|fuel IH]; intros value result Hr; cbn [radix36_loop]; [done|].
  case_bool_decide as Hv; [|split; [done|lia]].
  destruct (IH (value / 36)%Z (radix36_char (value `mod` 36) :: result)) as [H1 H2].
  - constructor; [|done]. apply radix36_char_fs. by apply Z.mod_pos_bound.
  - split; [done|]. cbn [length] in H2. lia.
Qed.

Lemma radix36_encode_spec value :
  Forall (λ c, fs_char c = true) (radix36_encode value) ∧ length (radix36_encode value) ≤ 13.
Proof.
  unfold radix36_encode. case_bool_decide; [split; by_compute|].
  destruct (radix36_loop_spec 13 value []) as [H1 H2]; [constructor|]. split; [done|].
  cbn [length] in H2. lia.
Qed.

Lemma sanitized_fs name :
  Forall (λ c, fs_char c = true) ((λ c, if is_ascii_alphanumeric c then c else ch "-") <$> name).
Proof.
  apply Forall_fmap, Forall_forall. intros c _. cbn. unfold fs_char.
  destruct (is_ascii_alphanumeric c) eqn:Ec; [by rewrite Ec|]. apply orb_true_r.
Qed.

Lemma sanitize_spec name :
  Forall (λ c, fs_char c = true) (sanitize_for_fs name) ∧
  length (sanitize_for_fs name) ≤ SANITIZE_MAX_LEN.
Proof.
  unfold sanitize_for_fs. pose proof (sanitized_fs name) as Hs. case_bool_decide as Hl.
  - split; [done|]. by rewrite <-fs_char_len.
  - destruct (radix36_encode_spec (djb2_hash name)) as [Hr Hlen]. split.
    + rewrite !Forall_app. split_and!; [by apply Forall_take|by_compute|done].
    + rewrite !length_app, length_take, (fs_char_len _ Hr). change (length (lit "-")) with 1.
      unfold SANITIZE_MAX_LEN in *. lia.
Qed.

Lemma sanitize_id name :
  Forall (λ c, fs_char c = true) name → length name ≤ SANITIZE_MAX_LEN →
  sanitize_for_fs name = name.
Proof.
  intros Hn Hl. unfold sanitize_for_fs.
  assert ((λ c, if is_ascii_alphanumeric c then c else ch "-") <$> name = name) as ->.
  { clear Hl. induction Hn as [|c name Hc _ IH]; [done|]. cbn. f_equal; [|exact IH].
    unfold fs_char in Hc. destruct (is_ascii_alphanumeric c); [done|].
    cbn in Hc. by apply bool_decide_eq_true in Hc. }
  rewrite bool_decide_eq_true_2; [done|]. by rewrite fs_char_len.
Qed.

(** ** Theorems *)

(** A directory name made from a path has at most 200 characters, all of
    them ASCII letters, digits or dashes; making it again changes nothing; and
    no project's directory is the one of sessions without a project. *)
Theorem directory_names_are_safe name :
  Forall (λ c, fs_char c = true) (sanitize_for_fs name) ∧
  len (sanitize_for_fs name) ≤ SANITIZE_MAX_LEN ∧
  sanitize_for_fs (sanitize_for_fs name) = sanitize_for_fs name ∧
  project_dir_for (Some name) ≠ project_dir_for None.
Proof.
  destruct (sanitize_spec name) as [Hs Hl]. split_and!; [done|by rewrite fs_char_len|by apply sanitize_id|].
  intros E. unfold project_dir_for, project_dir in E. rewrite E in Hs. revert Hs. by_compute.
Qed.

Section Theorems.
Context `{Base58} `{Json} `{HostEnv} (content_id : str → str) (P : TranscriptProjection)
  (to_json : value → str) {X : Type} `{Environment X}.


(** A restart forgets the map of homes and loses nothing: as long as
    every session lives where its sidecar (or the default) says, which appends
    and loads preserve, a new process finds each transcript in the same
    place. *)
Theorem restart_keeps_transcripts o wall (s : JsonlHistoryStore X) session e tags s' :
  settled s →
  (∀ x, (jsonl_load (restart s) x).2 = (jsonl_load s x).2) ∧
  settled (restart s) ∧ settled (jsonl_load s session).1 ∧
  (jsonl_append_tagged content_id o wall s session e tags = (s', Ok tt) →
   rooted (home_for s session e) → settled s').
Proof.
  intros Hs. split_and!.
  - intros x. destruct (jsonl_load_raw s x) as [-> _], (jsonl_load_raw (restart s) x) as [-> _].
    unfold raw_load. rewrite (settled_home s x Hs). done.
  - intros x h Hx. cbn [homes restart set_homes] in Hx. by rewrite lookup_empty in Hx.
  - by apply jsonl_load_raw.
  - intros Happ Hr. apply append_ok_spec in Happ as (bs&e'&_&_&_&_&_&Hset). auto.
Qed.

(** A search of one project for nothing at all can still answer: with a
    limit of [0], when the newest transcript matches, the answer has one
    session, where the contract asks for none. *)
Theorem zero_limit_search_answers (s : JsonlHistoryStore X) dir needle session mtime rest entries :
  session_files_by_mtime s dir None = (session, mtime) :: rest →
  (jsonl_load s session).2 = Ok entries →
  contains needle (id_string session) ||
    messages_match_query to_json (@project_messages_with P entries) needle = true →
  ∃ x, (search_one_project P to_json s dir needle 0).2 = Ok [x].
Proof.
  intros Hf Hload Hm. unfold search_one_project. rewrite Hf. by eapply search_files_zero.
Qed.

(** A search over several projects reads the lines as they are: whatever
    it finds, it finds in the messages of the unresolved transcript, the id,
    the title or the directory, so content that was moved to the blob store is
    never found, although a search of one project resolves it first. *)
Theorem wide_search_is_raw (s : JsonlHistoryStore X) query max f answer :
  search_project_dirs P to_json s query max f = Ok answer →
  length answer ≤ max ∧ Forall (raw_match P to_json s (to_lowercase (trim query))) answer.
Proof.
  unfold search_project_dirs. case_bool_decide; [intros [= <-]; split; [cbn; lia|constructor]|].
  intros Hs. apply search_candidates_spec in Hs as (more&->&Hm&Hlen); [|done].
  split; [|done]. apply Hlen. cbn. lia.
Qed.

End Theorems.

(** ** At work *)

Definition hello : LogEntry := Entry.User [text_block "hello postgres"].

(** A stand-in for the JSON library that is right about lines holding
    [hello], and reads nothing else. *)
Definition hello_json : Json :=
  {| entry_line env := BitText.to_text (entry_id env, ts env, entry_session_id env);
     parse_line s :=
       t ← (BitText.of_text s : option (Z * Z * Z));
       if bool_decide (BitText.to_text t = s) then Some (new_in t.1.1 t.1.2 t.2 hello) else None;
     log_json _ := []; parse_log _ := Some hello;
     blocks_json _ := []; content_json _ := [] |}.

Definition empty_jsonl : JsonlHistoryStore FixedEnvironment :=
  Build_JsonlHistoryStore (lit "/w") ∅ ∅ ∅ None epoch.

Definition all_ok : Outcome := Build_Outcome true true Whole true.

(** One session with one message. *)
Definition one_message : JsonlHistoryStore FixedEnvironment :=
  (@jsonl_append_tagged plain_ids hello_json plain_host (λ s, s) _ _ all_ok 5%Z empty_jsonl 7%Z
     hello no_tags).1.


(** A write that breaks off in its line, and one that succeeds after it: both
    are one line now, and the session cannot be loaded any more. *)
Definition broke_off : JsonlHistoryStore FixedEnvironment * result unit HistoryError :=
  @jsonl_append_tagged plain_ids hello_json plain_host (λ s, s) _ _ (Build_Outcome true true (Torn 3) true) 5%Z
    one_message 7%Z hello no_tags.

Definition after_the_break : JsonlHistoryStore FixedEnvironment * result unit HistoryError :=
  @jsonl_append_tagged plain_ids hello_json plain_host (λ s, s) _ _ all_ok 6%Z broke_off.1 7%Z hello no_tags.

Example a_torn_line_spoils_the_transcript :
  is_ok (@jsonl_load plain_ids hello_json _ one_message 7%Z).2 = true ∧
  is_ok broke_off.2 = false ∧ is_ok after_the_break.2 = true ∧
  (@jsonl_load plain_ids hello_json _ after_the_break.1 7%Z).2 = Err (Parse 2).
Proof. split_and!; vm_compute; reflexivity. Qed.

Lemma restart_keeps_transcripts_witness :
  (@jsonl_load plain_ids hello_json _ (restart one_message) 7%Z).2 =
  (@jsonl_load plain_ids hello_json _ one_message 7%Z).2 ∧ settled one_message.
Proof.
  assert (Hs : settled empty_jsonl) by (intros x h Hx; cbn in Hx; by rewrite lookup_empty in Hx).
  assert (Hone : settled one_message).
  { apply (@restart_keeps_transcripts plain_ids hello_json plain_host (λ s, s) _ _ all_ok 5%Z
             empty_jsonl 7%Z hello no_tags one_message Hs); [by vm_compute|by vm_compute]. }
  split; [|done].
  by apply (@restart_keeps_transcripts plain_ids hello_json plain_host (λ s, s) _ _ all_ok 5%Z
              one_message 7%Z hello no_tags one_message Hone).
Defined.

Lemma zero_limit_search_answers_witness :
  ∃ x, (@search_one_project plain_ids hello_json DefaultProjection (λ _, []) _ one_message
          (lit "-w") (lit "postgres") 0).2 = Ok [x].
Proof.
  eapply (@zero_limit_search_answers plain_ids hello_json DefaultProjection (λ _, []) _ one_message
            (lit "-w") (lit "postgres") 7%Z 5%Z []); by vm_compute.
Defined.

Lemma wide_search_is_raw_witness :
  ∃ answer, @search_project_dirs plain_ids hello_json DefaultProjection (λ _, []) _ one_message
              (lit " Postgres") 3 All = Ok answer ∧ length answer = 1 ∧ length answer ≤ 3.
Proof.
  destruct (@search_project_dirs plain_ids hello_json DefaultProjection (λ _, []) _ one_message
              (lit " Postgres") 3 All) as [answer|] eqn:E; [|vm_compute in E; discriminate E].
  exists answer. split_and!; [done|vm_compute in E; by injection E as <-|].
  by apply (@wide_search_is_raw plain_ids hello_json DefaultProjection (λ _, []) _ one_message
              _ _ _ _ E).
Defined.
