(* ===== verification/Session.v ===== *)
(** * Sessions ([crates/session/src/session.rs])

    The in-memory conversation of a session and its persistence: what
    [persist], a compaction and [clear] write to the history store, and what
    [resume] reads back.  The store is any [HistoryStore]; what is promised
    about the log is proved against [HistoryContract].  The session's memory
    file is a handle nothing here looks into. *)

From stdpp Require Import base option numbers sets gmap strings list.
From S2P Require Import Prelude RustStr PermTypes Conversation Messages Transcript Store.

#[local] Open Scope result_scope.

(** ** Conversions *)

Section Convert.
Context (blocks_json : list ContentBlock → str).

Definition model_content_block_to_content_block (b : ModelContentBlock) : ContentBlock :=
  match b with
  | Text text => Block.Text text None
  | Image media_type data => Block.Image (Base64 media_type data)
  | Thinking text signature provider => Block.Thinking text signature provider
  | RedactedThinking data provider => Block.RedactedThinking data provider
  | ToolUse id name input => Block.ToolUse id name input
  | ToolResult tool_use_id content is_error =>
      Block.ToolResult tool_use_id (Block.TextContent content) (default false is_error)
  end.

Definition is_image (b : ModelContentBlock) : bool :=
  match b with Image _ _ => true | _ => false end.

Definition unmarked_user_origin (m : ModelMessage) : MessageOrigin :=
  let answers_tools :=
    existsb is_tool_result (content m) &&
    forallb (λ b, is_tool_result b || is_image b) (content m) in
  if answers_tools then ByToolResult else ByEngine.

Record Usage := {
  usage_input_tokens : Z;
  usage_output_tokens : Z;
  usage_cache_creation_input_tokens : Z;
  usage_cache_read_input_tokens : Z;
}.

Definition usage_record (u : Usage) : UsageRecord :=
  {| input_tokens := usage_input_tokens u; output_tokens := usage_output_tokens u;
     cache_creation_input_tokens := Some (usage_cache_creation_input_tokens u);
     cache_read_input_tokens := Some (usage_cache_read_input_tokens u) |}.

Definition model_message_to_log_entry (m : ModelMessage) : option LogEntry :=
  let content := model_content_block_to_content_block <$> content m in
  match role m with
  | RoleUser => Some (Entry.User content)
  | RoleAssistant => Some (Entry.Assistant content None None None)
  | RoleSystem => None
  end.

Definition model_message_to_message (m : ModelMessage) : option Message :=
  let content := model_content_block_to_content_block <$> content m in
  match role m with
  | RoleUser => Some (Msg.User content)
  | RoleAssistant => Some (Msg.Assistant content None None)
  | RoleSystem => None
  end.

Definition content_block_to_model_content_block (b : ContentBlock) : option ModelContentBlock :=
  match b with
  | Block.Text text _ => Some (Text text)
  | Block.ToolUse id name input => Some (ToolUse id name input)
  | Block.ToolResult tool_use_id content is_error =>
      let content_str :=
        match content with
        | Block.TextContent s => s
        | Block.Blocks blocks => blocks_json blocks
        end in
      Some (ToolResult tool_use_id content_str (Some is_error))
  | Block.Image (Base64 media_type data) => Some (Image media_type data)
  | Block.Thinking thinking signature provider => Some (Thinking thinking signature provider)
  | Block.RedactedThinking data provider => Some (RedactedThinking data provider)
  | Block.Image (Url _) | Block.CacheEdits _ => None
  end.

Definition message_to_model_message (m : Message) : option ModelMessage :=
  match m with
  | Msg.User content =>
      Some (Build_ModelMessage RoleUser (omap content_block_to_model_content_block content))
  | Msg.Assistant content _ _ =>
      Some (Build_ModelMessage RoleAssistant (omap content_block_to_model_content_block content))
  | Msg.System _ _ => None
  end.

End Convert.

(** ** The manager *)

Record MessageNote := {
  note_origin : option MessageOrigin;
  note_usage : option Usage;
}.

Definition MessageNote_default : MessageNote := Build_MessageNote None None.

Inductive SessionError :=
  | NotFound (id : str)
  | IdError
  | StoreError (e : HistoryError).

Section Manager.
Context `{Base58} (blocks_json : list ContentBlock → str) {T : Type} `{HistoryStore T}.

Record SessionManager := {
  messages : list ModelMessage;
  message_timestamps : list Z;
  turn_count : Z;
  session_id : str;
  history_store : option T;
  parent_session : option str;
  persisted_up_to : nat;
  token_counter : option TokenCounter;
  session_turn_id : option str;
  notes : gmap nat MessageNote;
}.

(** [new]; [fresh] is the id generated when none is given. *)
Definition new (fresh : str) (store : option T) (id parent : option str) : SessionManager :=
  {| messages := []; message_timestamps := []; turn_count := 0; session_id := default fresh id;
     history_store := store; parent_session := parent; persisted_up_to := 0;
     token_counter := None; session_turn_id := None; notes := ∅ |}.

Definition in_memory (fresh : str) (id : option str) : SessionManager := new fresh None id None.

Definition set_conversation (s : SessionManager) (ms : list ModelMessage) (ts : list Z)
    (n : gmap nat MessageNote) : SessionManager :=
  {| messages := ms; message_timestamps := ts; turn_count := turn_count s;
     session_id := session_id s; history_store := history_store s;
     parent_session := parent_session s; persisted_up_to := persisted_up_to s;
     token_counter := token_counter s; session_turn_id := session_turn_id s; notes := n |}.

Definition set_persisted (s : SessionManager) (store : T) (upto : nat) (n : gmap nat MessageNote)
    : SessionManager :=
  {| messages := messages s; message_timestamps := message_timestamps s;
     turn_count := turn_count s; session_id := session_id s; history_store := Some store;
     parent_session := parent_session s; persisted_up_to := upto;
     token_counter := token_counter s; session_turn_id := session_turn_id s; notes := n |}.

Definition push_message (now : Z) (s : SessionManager) (m : ModelMessage) : SessionManager :=
  set_conversation s (messages s ++ [m]) (message_timestamps s ++ [now]) (notes s).

Definition push_message_from (now : Z) (s : SessionManager) (m : ModelMessage)
    (o : MessageOrigin) : SessionManager :=
  push_message now
    (set_conversation s (messages s) (message_timestamps s)
       (<[length (messages s) := Build_MessageNote (Some o) None]> (notes s))) m.

Definition push_reply (now : Z) (s : SessionManager) (m : ModelMessage) (u : Usage)
    : SessionManager :=
  push_message now
    (set_conversation s (messages s) (message_timestamps s)
       (<[length (messages s) := Build_MessageNote None (Some u)]> (notes s))) m.

Definition set_turn_id (s : SessionManager) (t : option str) : SessionManager :=
  {| messages := messages s; message_timestamps := message_timestamps s;
     turn_count := turn_count s; session_id := session_id s; history_store := history_store s;
     parent_session := parent_session s; persisted_up_to := persisted_up_to s;
     token_counter := token_counter s; session_turn_id := t; notes := notes s |}.

Definition set_turn_count (s : SessionManager) (n : Z) : SessionManager :=
  {| messages := messages s; message_timestamps := message_timestamps s;
     turn_count := n; session_id := session_id s; history_store := history_store s;
     parent_session := parent_session s; persisted_up_to := persisted_up_to s;
     token_counter := token_counter s; session_turn_id := session_turn_id s; notes := notes s |}.

Definition increment_turn (s : SessionManager) : SessionManager :=
  set_turn_count s ((turn_count s + 1) `mod` 2 ^ 32)%Z.

Definition set_session_id (s : SessionManager) (id : str) : SessionManager :=
  {| messages := messages s; message_timestamps := message_timestamps s;
     turn_count := turn_count s; session_id := id; history_store := history_store s;
     parent_session := parent_session s; persisted_up_to := persisted_up_to s;
     token_counter := token_counter s; session_turn_id := session_turn_id s; notes := notes s |}.

(** [estimate] is the engine's own estimator. *)
Definition token_count (estimate : TokenCounter) (s : SessionManager) : nat :=
  @count_messages (default estimate (token_counter s)) (messages s).

Definition message_ages (now : Z) (s : SessionManager) : list (nat * Z) :=
  imap (λ i _, (i, default now (message_timestamps s !! i))) (messages s).

(** *** [persist] *)

(** The line of one message, from its note. *)
Definition line_of (turn : option str) (note : MessageNote) (m : ModelMessage)
    : option (LogEntry * EntryTags) :=
  match model_message_to_log_entry m with
  | None => None
  | Some e =>
      let e :=
        match e, note_usage note with
        | Entry.Assistant c sr _ md, Some u => Entry.Assistant c sr (Some (usage_record u)) md
        | _, _ => e
        end in
      let origin :=
        match role m with
        | RoleUser => Some (default (unmarked_user_origin m) (note_origin note))
        | _ => None
        end in
      Some (e, Build_EntryTags turn origin)
  end.

(** The loop, over the messages from the cursor on. *)
Fixpoint persist_loop (sid : SessionId) (turn : option str) (store : T)
    (n : gmap nat MessageNote) (upto : nat) (ms : list ModelMessage)
    : T * gmap nat MessageNote * nat * result unit SessionError :=
  match ms with
  | [] => (store, n, upto, Ok tt)
  | m :: ms =>
      match line_of turn (default MessageNote_default (n !! upto)) m with
      | Some (e, tags) =>
          match append_tagged store sid e tags with
          | (store, Ok _) => persist_loop sid turn store (base.delete upto n) (S upto) ms
          | (store, Err err) => (store, n, upto, Err (StoreError err))
          end
      | None => persist_loop sid turn store (base.delete upto n) (S upto) ms
      end
  end.

Definition persist (s : SessionManager) : SessionManager * result unit SessionError :=
  match history_store s with
  | None => (s, Ok tt)
  | Some store =>
      match id_parse (session_id s) with
      | None => (s, Err IdError)
      | Some sid =>
          let '(store, n, upto, r) :=
            persist_loop sid (session_turn_id s) store (notes s) (persisted_up_to s)
              (drop (persisted_up_to s) (messages s)) in
          (set_persisted s store upto n, r)
      end
  end.

(** *** Compaction, resume, clear *)

Definition boundary (new_messages : list ModelMessage) (before after : Z) : LogEntry :=
  Entry.Compact
    {| before_tokens := before; after_tokens := after; summary_block_id := None;
       replacement_history := Some (omap model_message_to_message new_messages);
       summary := None; snip_removed_uuids := None |}.

Definition set_cursor (s : SessionManager) (upto : nat) : SessionManager :=
  {| messages := messages s; message_timestamps := message_timestamps s;
     turn_count := turn_count s; session_id := session_id s; history_store := history_store s;
     parent_session := parent_session s; persisted_up_to := upto;
     token_counter := token_counter s; session_turn_id := session_turn_id s; notes := notes s |}.

Definition replace_messages_after_compact (s : SessionManager)
    (new_messages : list ModelMessage) (before after : Z)
    : SessionManager * result unit SessionError :=
  let s := set_conversation s new_messages (message_timestamps s) ∅ in
  match history_store s with
  | None => (set_cursor s (length new_messages), Ok tt)
  | Some store =>
      match id_parse (session_id s) with
      | None => (set_cursor s 0, Err IdError)
      | Some sid =>
          match append_tagged store sid (boundary new_messages before after)
                  (Build_EntryTags (session_turn_id s) None) with
          | (store, Ok _) => (set_persisted s store (length new_messages) (notes s), Ok tt)
          | (store, Err err) => (set_persisted s store 0 (notes s), Err (StoreError err))
          end
      end
  end.

Definition first_parent (entries : list EnvelopedEntry) (current : option str) : option str :=
  default current
    (find_map (λ env, match entry env with
                      | Entry.Meta m => Some (parent_session_id m)
                      | _ => None
                      end) entries).

Definition resume (now : Z) (s : SessionManager) (id : str)
    : SessionManager * result unit SessionError :=
  match history_store s with
  | None => (s, Err (NotFound id))
  | Some store =>
      match id_parse id with
      | None => (s, Err IdError)
      | Some sid =>
          let '(store, r) := load store sid in
          match r with
          | Err (SessionNotFound i) => (set_persisted s store (persisted_up_to s) (notes s), Err (NotFound i))
          | Err e => (set_persisted s store (persisted_up_to s) (notes s), Err (StoreError e))
          | Ok [] => (set_persisted s store (persisted_up_to s) (notes s), Err (NotFound id))
          | Ok entries =>
              let projected := @project_messages_with (projection store) entries in
              let ms := omap (message_to_model_message blocks_json) projected in
              ({| messages := ms; message_timestamps := replicate (length ms) now;
                  turn_count := (Z.of_nat (length entries) `mod` 2 ^ 32)%Z;
                  session_id := id; history_store := Some store;
                  parent_session := first_parent entries (parent_session s);
                  persisted_up_to := length ms; token_counter := token_counter s;
                  session_turn_id := session_turn_id s; notes := ∅ |}, Ok tt)
          end
      end
  end.

Definition clear (s : SessionManager) : SessionManager * result unit SessionError :=
  replace_messages_after_compact
    (set_turn_count (set_conversation s (messages s) [] (notes s)) 0) [] 0 0.

Definition delete_session (s : SessionManager) (id : str)
    : SessionManager * result unit SessionError :=
  match history_store s with
  | None => (s, Err (NotFound id))
  | Some store =>
      match id_parse id with
      | None => (s, Err IdError)
      | Some sid =>
          match delete store sid with
          | (store, Ok _) => (set_persisted s store (persisted_up_to s) (notes s), Ok tt)
          | (store, Err e) => (set_persisted s store (persisted_up_to s) (notes s), Err (StoreError e))
          end
      end
  end.

End Manager.
Arguments SessionManager : clear implicits.

(** ** What a conversation looks like read back *)

Definition settle_block (b : ModelContentBlock) : ModelContentBlock :=
  match b with
  | ToolResult id content is_error => ToolResult id content (Some (default false is_error))
  | _ => b
  end.

(** System messages are not kept; a result with no error flag is read back as
    a success. *)
Definition settle (m : ModelMessage) : option ModelMessage :=
  match role m with
  | RoleSystem => None
  | r => Some (Build_ModelMessage r (settle_block <$> content m))
  end.

Definition stored_form (ms : list ModelMessage) : list ModelMessage := omap settle ms.

Lemma stored_form_app ms ns : stored_form (ms ++ ns) = stored_form ms ++ stored_form ns.
Proof. apply omap_app. Qed.

Section ReadBack.
Context `{Base58} (blocks_json : list ContentBlock → str).

Lemma block_back b :
  content_block_to_model_content_block blocks_json (model_content_block_to_content_block b) =
  Some (settle_block b).
Proof. by destruct b. Qed.

Lemma blocks_back (bs : list ModelContentBlock) :
  omap (content_block_to_model_content_block blocks_json)
    (model_content_block_to_content_block <$> bs) = settle_block <$> bs.
Proof.
  induction bs as [|b bs IH]; [done|]. rewrite !fmap_cons. cbn [omap list_omap].
  rewrite block_back. f_equal. exact IH.
Qed.

Lemma message_back m :
  model_message_to_message m ≫= message_to_model_message blocks_json = settle m.
Proof.
  unfold model_message_to_message, settle.
  destruct (role m); cbn [mbind option_bind message_to_model_message]; by rewrite ?blocks_back.
Qed.

Lemma messages_back ms :
  omap (message_to_model_message blocks_json) (omap model_message_to_message ms) = stored_form ms.
Proof.
  induction ms as [|m ms IH]; [done|]. unfold stored_form. cbn [omap list_omap].
  rewrite <-message_back. destruct (model_message_to_message m) as [x|]; [|exact IH].
  cbn [omap list_omap mbind option_bind]. fold (stored_form ms).
  destruct (message_to_model_message blocks_json x); by rewrite IH.
Qed.

(** The projections that keep the engine's rules for messages. *)
Class EngineRules (P : TranscriptProjection) := {
  rules_lawful : LawfulProjection P;
  rules_user c ms : apply (Entry.User c) ms = ms ++ [Msg.User c];
  rules_assistant c sr u md ms :
    apply (Entry.Assistant c sr u md) ms = ms ++ [Msg.Assistant c sr md];
}.

#[export] Instance DefaultProjection_rules : EngineRules DefaultProjection.
Proof. split; [apply _|done|done]. Qed.

#[export] Instance ExtensionsAreVisible_rules render namespaces :
  EngineRules (ExtensionsAreVisible render namespaces).
Proof. split; [apply _|done|done]. Qed.

(** Appending the line of a message adds the message. *)
Lemma line_of_view `{!EngineRules P} turn note m e tags ms :
  line_of turn note m = Some (e, tags) →
  omap (message_to_model_message blocks_json) (apply e ms) =
  omap (message_to_model_message blocks_json) ms ++ stored_form [m].
Proof.
  unfold line_of. destruct (model_message_to_log_entry m) as [e0|] eqn:E0; [|done].
  unfold model_message_to_log_entry in E0. intros [= <- _].
  assert (stored_form [m] = from_option (λ x, [x]) [] (settle m)) as ->
    by (unfold stored_form; cbn; by destruct (settle m)).
  unfold settle. destruct (role m) eqn:Er; [| |done]; injection E0 as <-.
  - destruct (note_usage note); rewrite rules_user, omap_app; cbn; by rewrite blocks_back.
  - destruct (note_usage note); rewrite rules_assistant, omap_app; cbn; by rewrite blocks_back.
Qed.

Lemma line_of_None turn note m : line_of turn note m = None → stored_form [m] = [].
Proof.
  unfold line_of, model_message_to_log_entry, stored_form, settle. cbn. by destruct (role m).
Qed.

End ReadBack.

(** ** The log and the memory *)

Section Synced.
Context `{Base58} (blocks_json : list ContentBlock → str) {T : Type} `{HistoryStore T}
  `{!HistoryContract T}.

(** What a resume of the session would show. *)
Definition view (store : T) (sid : SessionId) : list ModelMessage :=
  omap (message_to_model_message blocks_json)
    (@project_messages_with (projection store) (default [] (log store sid))).

Lemma append_view store sid e tags :
  (append_tagged store sid e tags).2 = Ok tt →
  view (append_tagged store sid e tags).1 sid =
  omap (message_to_model_message blocks_json)
    (@apply (projection store) e
       (@project_messages_with (projection store) (default [] (log store sid)))).
Proof.
  intros Hok. destruct (append_log store sid e tags Hok) as (env&He&Hs&Hlog).
  unfold view. rewrite append_projection, Hlog, decide_True by done. cbn [default from_option].
  unfold id. rewrite project_app. cbn [foldl]. unfold project_entry. by rewrite Hs, He.
Qed.

(** An append that fails leaves the log alone. *)
Definition clean_failures : Prop :=
  ∀ store sid e tags err, (append_tagged store sid e tags).2 = Err err →
    ∀ x, log (append_tagged store sid e tags).1 x = log store x.

Lemma persist_loop_spec sid turn store n upto ms store' n' upto' r :
  EngineRules (projection store) →
  persist_loop sid turn store n upto ms = (store', n', upto', r) →
  r = Ok tt ∨ clean_failures →
  ∃ k, k ≤ length ms ∧ (r = Ok tt → k = length ms) ∧
    upto' = upto + k ∧ projection store' = projection store ∧
    view store' sid = view store sid ++ stored_form (take k ms).
Proof.
  intros Hrules. revert store n upto Hrules.
  induction ms as [|m ms IH]; intros store n upto Hrules; cbn [persist_loop].
  { intros [= <- <- <- <-] _. exists 0. cbn. rewrite app_nil_r. split_and!; (done || lia). }
  assert (Hgo : ∀ store1 n1 (stored : list ModelMessage), projection store1 = projection store →
    view store1 sid = view store sid ++ stored → stored_form [m] = stored →
    persist_loop sid turn store1 n1 (S upto) ms = (store', n', upto', r) →
    r = Ok tt ∨ clean_failures →
    ∃ k, k ≤ length (m :: ms) ∧ (r = Ok tt → k = length (m :: ms)) ∧ upto' = upto + k ∧
      projection store' = projection store ∧
      view store' sid = view store sid ++ stored_form (take k (m :: ms))).
  { intros store1 n1 stored HP HV Hst Hp Hr.
    destruct (IH store1 n1 (S upto) ltac:(by rewrite HP) Hp Hr) as (k&Hk&Hall&->&HP'&Hv).
    exists (S k). cbn [length take]. split_and!; [lia|intros ->; by rewrite Hall|lia|congruence|].
    change (m :: take k ms) with ([m] ++ take k ms).
    by rewrite stored_form_app, Hst, Hv, HV, (assoc_L (++)). }
  destruct (line_of turn _ m) as [[e tags]|] eqn:Hline.
  - pose proof (append_projection store sid e tags) as HP.
    pose proof (append_view store sid e tags) as HV.
    pose proof (λ Hc : clean_failures, Hc store sid e tags) as Hfail.
    destruct (append_tagged store sid e tags) as [store1 [[]|err]]; cbn [fst snd] in *.
    + apply (Hgo store1 _ (stored_form [m])); [done| |done].
      rewrite (HV eq_refl). by eapply line_of_view.
    + intros [= <- <- <- <-] [?|Hc]; [done|]. exists 0. cbn [take].
      split_and!; [lia|done|lia|done|]. unfold view. by rewrite HP, (Hfail Hc err eq_refl), app_nil_r.
  - apply (Hgo store _ []); [done|by rewrite app_nil_r|by eapply line_of_None].
Qed.

(** The log says what the persisted part of the memory says. *)
Definition synced (sid : SessionId) (s : SessionManager T) : Prop :=
  ∃ store, history_store s = Some store ∧ id_parse (session_id s) = Some sid ∧
    EngineRules (projection store) ∧ persisted_up_to s ≤ length (messages s) ∧
    view store sid = stored_form (take (persisted_up_to s) (messages s)).

(** What the runtime does to a session within a turn. *)
Inductive op :=
  | Push (now : Z) (m : ModelMessage)
  | PushFrom (now : Z) (m : ModelMessage) (o : MessageOrigin)
  | PushReply (now : Z) (m : ModelMessage) (u : Usage)
  | SetTurnId (t : option str)
  | IncrementTurn
  | Persist
  | Compacted (new_messages : list ModelMessage) (before after : Z)
  | Clear.

Definition step (s : SessionManager T) (o : op) : SessionManager T * result unit SessionError :=
  match o with
  | Push now m => (push_message now s m, Ok tt)
  | PushFrom now m o => (push_message_from now s m o, Ok tt)
  | PushReply now m u => (push_reply now s m u, Ok tt)
  | SetTurnId t => (set_turn_id s t, Ok tt)
  | IncrementTurn => (increment_turn s, Ok tt)
  | Persist => persist s
  | Compacted ms before after => replace_messages_after_compact s ms before after
  | Clear => clear s
  end.

(** All of them, as long as none fails. *)
Fixpoint run (s : SessionManager T) (os : list op) : result (SessionManager T) SessionError :=
  match os with
  | [] => Ok s
  | o :: os =>
      match step s o with
      | (s, Ok _) => run s os
      | (_, Err e) => Err e
      end
  end.

Lemma synced_more sid s ms ts n :
  synced sid s → synced sid (set_conversation s (messages s ++ ms) ts n).
Proof.
  intros (store&Hst&Hid&Hr&Hle&Hv). exists store. cbn. split_and!; try done.
  - rewrite length_app. lia.
  - by rewrite take_app_le by lia.
Qed.

Lemma replace_synced sid s ms before after s' :
  synced sid s → replace_messages_after_compact s ms before after = (s', Ok tt) → synced sid s'.
Proof.
  intros (store&Hst&Hid&Hr&Hle&Hv). unfold replace_messages_after_compact.
  cbn [history_store set_conversation session_id session_turn_id]. rewrite Hst, Hid.
  pose proof (append_projection store sid (boundary ms before after)
                (Build_EntryTags (session_turn_id s) None)) as HP.
  pose proof (append_view store sid (boundary ms before after)
                (Build_EntryTags (session_turn_id s) None)) as HV.
  destruct (append_tagged _ _ _ _) as [store1 [[]|err]]; [|done]. cbn [fst snd] in *.
  intros [= <-]. exists store1. cbn [history_store session_id persisted_up_to messages set_persisted
    set_conversation]. split_and!; [done|done|by rewrite HP|done|].
  rewrite take_ge by done. rewrite (HV eq_refl). unfold boundary.
  pose proof (@rules_lawful _ Hr) as Hl. rewrite apply_compact. cbn. apply messages_back.
Qed.

Lemma persist_synced sid s s' r :
  synced sid s → persist s = (s', r) → r = Ok tt ∨ clean_failures → synced sid s'.
Proof.
  intros (store&Hst&Hid&Hr&Hle&Hv). unfold persist. rewrite Hst, Hid.
  destruct (persist_loop _ _ _ _ _ _) as [[[store' n'] upto'] r'] eqn:Hp. intros [= <- ->] Hok.
  destruct (persist_loop_spec _ _ _ _ _ _ _ _ _ _ Hr Hp Hok) as (k&Hk&_&->&HP&Hv').
  rewrite length_drop in Hk. exists store'. cbn.
  split_and!; [done|done|by rewrite HP|lia|].
  rewrite Hv', Hv, <-stored_form_app. f_equal.
  rewrite <-(take_drop (persisted_up_to s) (messages s)) at 3.
  rewrite take_app_add'; [done|]. rewrite length_take. lia.
Qed.

(** What [persist] leaves in memory. *)
Lemma persist_memory s s' r :
  persist s = (s', r) →
  messages s' = messages s ∧ session_id s' = session_id s ∧
  (is_Some (history_store s) → is_Some (id_parse (session_id s)) → r = Ok tt →
   persisted_up_to s ≤ length (messages s) → persisted_up_to s' = length (messages s)).
Proof.
  unfold persist. destruct (history_store s) as [store|]; [|intros [= <- <-]; split_and!; try done; by intros [? ?]].
  destruct (id_parse (session_id s)) as [sid|]; [|intros [= <- <-]; split_and!; done].
  destruct (persist_loop _ _ _ _ _ _) as [[[store' n'] upto'] r'] eqn:Hp. intros [= <- <-].
  split_and!; [done..|]. intros _ _ -> Hle. cbn.
  assert (∀ store n upto ms store' n' upto', persist_loop sid (session_turn_id s) store n upto ms =
            (store', n', upto', Ok tt) → upto' = upto + length ms) as Hlen.
  { clear. intros store n upto ms. revert store n upto.
    induction ms as [|m ms IH]; intros store n upto store' n' upto'; cbn [persist_loop length].
    - intros [= _ _ <-]. lia.
    - destruct (line_of _ _ m) as [[e tags]|].
      + destruct (append_tagged _ _ _ _) as [store1 [|]]; [|done]. intros ->%IH. lia.
      + intros ->%IH. lia. }
  apply Hlen in Hp as ->. rewrite length_drop. lia.
Qed.

Lemma step_synced sid s o s' : synced sid s → step s o = (s', Ok tt) → synced sid s'.
Proof.
  intros Hs. destruct o; cbn [step].
  - intros [= <-]. by apply synced_more.
  - intros [= <-]. unfold push_message_from, push_message.
    apply (synced_more sid (set_conversation s (messages s) _ _)).
    destruct Hs as (store&?&?&?&?&?). by exists store.
  - intros [= <-]. unfold push_reply, push_message.
    apply (synced_more sid (set_conversation s (messages s) _ _)).
    destruct Hs as (store&?&?&?&?&?). by exists store.
  - intros [= <-]. destruct Hs as (store&?&?&?&?&?). by exists store.
  - intros [= <-]. destruct Hs as (store&?&?&?&?&?). by exists store.
  - intros Hp. apply (persist_synced sid s s' (Ok tt)); [done|done|by left].
  - by apply replace_synced.
  - apply replace_synced. destruct Hs as (store&Hst&Hid&Hr&Hle&Hv). by exists store.
Qed.

Lemma run_synced sid s os s' : synced sid s → run s os = Ok s' → synced sid s'.
Proof.
  revert s. induction os as [|o os IH]; intros s Hs; cbn [run]; [by intros [= <-]|].
  destruct (step s o) as [s1 [[]|]] eqn:E; [|done]. apply IH. by eapply step_synced.
Qed.

Lemma resume_view now s id store sid :
  history_store s = Some store → id_parse id = Some sid →
  view store sid ≠ [] →
  (resume blocks_json now s id).2 = Ok tt ∧
  messages (resume blocks_json now s id).1 = view store sid.
Proof.
  intros Hst Hid Hne. unfold resume. rewrite Hst, Hid.
  pose proof (load_spec store sid) as Hl. pose proof (load_projection store sid) as HP.
  destruct (load store sid) as [store' r]. cbn [fst snd] in *. subst r.
  unfold view in *. destruct (log store sid) as [[|env entries]|]; [done| |done].
  rewrite HP. done.
Qed.

End Synced.

(** ** Theorems *)

Section Theorems.
Context `{Base58} (blocks_json : list ContentBlock → str) {T : Type} `{HistoryStore T}
  `{!HistoryContract T}.

(** C28. A session whose log agrees with its memory goes through any sequence of
    pushed messages, compactions, clears and turns persisted in between, all
    of which succeed, and is persisted once more with success: then the log is
    enough, and resuming the session from the store, in any manager, gives its
    conversation back in the form the log keeps, if that is not empty.  After
    a boundary that could not be written this fails, see
    [failed_boundary_duplicates]. *)
Theorem resume_rebuilds_the_session sid (s : SessionManager T) os s' s'' now (s2 : SessionManager T) :
  synced blocks_json sid s → run s os = Ok s' → persist s' = (s'', Ok tt) →
  history_store s2 = history_store s'' → stored_form (messages s') ≠ [] →
  (resume blocks_json now s2 (session_id s'')).2 = Ok tt ∧
  messages (resume blocks_json now s2 (session_id s'')).1 = stored_form (messages s').
Proof.
  intros Hs Hrun Hp H2 Hne.
  assert (Hs' : synced blocks_json sid s') by (by eapply run_synced).
  assert (Hs'' : synced blocks_json sid s'') by (eapply persist_synced; [done|done|by left]).
  destruct (persist_memory _ _ _ Hp) as (Hm&Hi&Hall).
  destruct Hs' as (store0&Hst0&Hid0&_&Hle0&_). rewrite Hst0, Hid0 in Hall.
  specialize (Hall ltac:(by eexists) ltac:(by eexists) eq_refl Hle0).
  destruct Hs'' as (store&Hst&Hid&_&_&Hv). rewrite Hm, Hall, take_ge in Hv by done.
  rewrite <-Hv. apply resume_view; [by rewrite H2|done|by rewrite Hv].
Qed.

(** A [persist] that fails in the middle can be called again: when the
    store's failures are clean, the cursor still says exactly what is in the
    log, so the next call neither repeats a message nor loses one. *)
Theorem persist_resumes_where_it_failed sid (s s1 s2 : SessionManager T) e :
  clean_failures (T := T) → synced blocks_json sid s →
  persist s = (s1, Err e) → persist s1 = (s2, Ok tt) →
  messages s2 = messages s ∧
  ∃ store, history_store s2 = Some store ∧ view blocks_json store sid = stored_form (messages s).
Proof.
  intros Hc Hs H1 H2.
  assert (Hs1 : synced blocks_json sid s1) by (eapply persist_synced; [done|done|by right]).
  assert (Hs2 : synced blocks_json sid s2) by (eapply persist_synced; [done|done|by left]).
  destruct (persist_memory _ _ _ H1) as (Hm1&_&_), (persist_memory _ _ _ H2) as (Hm2&_&Hall).
  destruct Hs1 as (store1&Hst1&Hid1&_&Hle1&_). rewrite Hst1, Hid1 in Hall.
  specialize (Hall ltac:(by eexists) ltac:(by eexists) eq_refl Hle1).
  destruct Hs2 as (store&Hst&_&_&_&Hv). split; [congruence|].
  exists store. split; [done|]. by rewrite Hv, Hall, Hm2, Hm1, take_ge by done.
Qed.

(** When the line of a compaction cannot be written, the next [persist]
    does not just lose the boundary: it writes the compacted conversation
    after the one it replaces, so a resume shows both. *)
Theorem failed_boundary_duplicates sid (s s1 s2 : SessionManager T) new_messages before after e :
  clean_failures (T := T) → synced blocks_json sid s → persisted_up_to s = length (messages s) →
  replace_messages_after_compact s new_messages before after = (s1, Err e) →
  persist s1 = (s2, Ok tt) →
  messages s2 = new_messages ∧
  ∃ store, history_store s2 = Some store ∧
    view blocks_json store sid = stored_form (messages s) ++ stored_form new_messages.
Proof.
  intros Hc (store&Hst&Hid&Hr&Hle&Hv) Hall Hrep Hp.
  unfold replace_messages_after_compact in Hrep.
  cbn [history_store set_conversation session_id session_turn_id] in Hrep.
  rewrite Hst, Hid in Hrep.
  pose proof (append_projection store sid (boundary new_messages before after)
                (Build_EntryTags (session_turn_id s) None)) as HP.
  pose proof (Hc store sid (boundary new_messages before after)
                (Build_EntryTags (session_turn_id s) None)) as Hfail.
  destruct (append_tagged _ _ _ _) as [store1 [[]|err]]; [done|]. cbn [fst snd] in *.
  injection Hrep as <- <-.
  unfold persist in Hp. cbn [history_store set_persisted session_id session_turn_id persisted_up_to
    notes set_conversation messages drop] in Hp.
  rewrite Hid in Hp. destruct (persist_loop _ _ _ _ _ _) as [[[store2 n2] upto2] r2] eqn:Hl.
  injection Hp as <- ->. split; [done|]. exists store2. split; [done|].
  destruct (persist_loop_spec blocks_json _ _ _ _ _ _ _ _ _ _ ltac:(by rewrite HP) Hl (or_introl eq_refl))
    as (k&_&Hk&_&_&->). rewrite (Hk eq_refl), take_ge by done. f_equal.
  unfold view in Hv |- *. rewrite HP, (Hfail err eq_refl), Hv, Hall, take_ge by done. done.
Qed.

(** A compaction keeps the clock of the oldest messages for the newest
    ones: of a conversation compacted to its last messages, each message is
    reported with the age of the message as many places from the start, not
    its own; so what was just said is as old as the session. *)
Theorem ages_shift_after_compaction (s s1 : SessionManager T) k before after r now i t :
  replace_messages_after_compact s (drop k (messages s)) before after = (s1, r) →
  message_timestamps s !! i = Some t → i < length (messages s) - k →
  message_ages now s1 !! i = Some (i, t) ∧
  messages s1 !! i = messages s !! (k + i).
Proof.
  intros Hrep Ht Hi.
  assert (messages s1 = drop k (messages s) ∧ message_timestamps s1 = message_timestamps s)
    as [Hm Hts].
  { unfold replace_messages_after_compact in Hrep.
    cbn [history_store set_conversation session_id session_turn_id] in Hrep.
    destruct (history_store s); [|by injection Hrep as <- _].
    destruct (id_parse _); [|by injection Hrep as <- _].
    by destruct (append_tagged _ _ _ _) as [? [|]]; injection Hrep as <- _. }
  unfold message_ages. rewrite list_lookup_imap, Hm, Hts, lookup_drop. split; [|done].
  destruct (messages s !! (k + i)) as [m|] eqn:Em.
  - cbn. by rewrite Ht.
  - apply lookup_ge_None in Em. lia.
Qed.

End Theorems.

(** ** At work *)

(** A store whose appends fail as a list says, without writing anything. *)
Section Flaky.
Context `{Base58} {T : Type} `{HistoryStore T} `{!HistoryContract T}.

Record FlakyStore := {
  flaky_inner : T;
  failures : list bool;
}.

Definition flaky_append (s : FlakyStore) (sid : SessionId) (e : LogEntry) (tags : EntryTags)
    : FlakyStore * result unit HistoryError :=
  match failures s with
  | true :: fs => (Build_FlakyStore (flaky_inner s) fs, Err Io)
  | fs =>
      let '(i, r) := append_tagged (flaky_inner s) sid e tags in
      match r with
      | Ok _ => (Build_FlakyStore i (tail fs), Ok tt)
      | Err err => (Build_FlakyStore (flaky_inner s) (tail fs), Err err)
      end
  end.

Definition flaky_through {A} (f : T → T * A) (s : FlakyStore) : FlakyStore * A :=
  let '(i, r) := f (flaky_inner s) in (Build_FlakyStore i (failures s), r).

#[export] Instance Flaky_store : HistoryStore FlakyStore :=
  {| append_tagged := flaky_append;
     load s sid := flaky_through (λ i, load i sid) s;
     list_sessions s := flaky_through list_sessions s;
     delete s sid := flaky_through (λ i, delete i sid) s;
     projection s := projection (flaky_inner s) |}.

Lemma flaky_append_spec s sid e tags :
  match (flaky_append s sid e tags).2 with
  | Ok _ => (append_tagged (flaky_inner s) sid e tags).2 = Ok tt ∧
            flaky_inner (flaky_append s sid e tags).1 =
              (append_tagged (flaky_inner s) sid e tags).1
  | Err _ => flaky_inner (flaky_append s sid e tags).1 = flaky_inner s
  end.
Proof.
  unfold flaky_append. destruct (failures s) as [|[] fs]; [|done|];
    by destruct (append_tagged _ _ _ _) as [i [[]|]].
Qed.

#[export] Program Instance Flaky_contract : HistoryContract FlakyStore :=
  {| log s sid := log (flaky_inner s) sid |}.
Next Obligation.
  intros s sid. cbn. unfold flaky_through. pose proof (load_spec (flaky_inner s) sid) as Hl.
  by destruct (load _ _).
Qed.
Next Obligation.
  intros s sid x. cbn. unfold flaky_through. pose proof (load_log (flaky_inner s) sid x) as Hl.
  by destruct (load _ _).
Qed.
Next Obligation.
  intros s sid. cbn. unfold flaky_through. pose proof (load_projection (flaky_inner s) sid) as Hl.
  by destruct (load _ _).
Qed.
Next Obligation.
  intros s sid e tags Hok. pose proof (flaky_append_spec s sid e tags) as Hs. cbn in Hok.
  rewrite Hok in Hs. destruct Hs as [Hin Hi].
  destruct (append_log (flaky_inner s) sid e tags Hin) as (env&?&?&Hl).
  exists env. split_and!; [done..|]. intros x. cbn. rewrite Hi. apply Hl.
Qed.
Next Obligation.
  intros s sid e tags. pose proof (flaky_append_spec s sid e tags) as Hs. cbn.
  destruct (flaky_append s sid e tags).2; [destruct Hs as [_ ->]; apply append_projection|by rewrite Hs].
Qed.
Next Obligation.
  intros s all. cbn. unfold flaky_through. pose proof (list_spec (flaky_inner s) all) as Hl.
  by destruct (list_sessions _).
Qed.
Next Obligation.
  intros s sid. cbn. unfold flaky_through. pose proof (list_log (flaky_inner s) sid) as Hl.
  by destruct (list_sessions _).
Qed.
Next Obligation.
  intros s. cbn. unfold flaky_through. pose proof (list_projection (flaky_inner s)) as Hl.
  by destruct (list_sessions _).
Qed.
Next Obligation.
  intros s sid x. cbn. unfold flaky_through. pose proof (delete_log (flaky_inner s) sid x) as Hl.
  by destruct (delete _ _).
Qed.

Lemma flaky_clean : clean_failures (T := FlakyStore).
Proof.
  intros s sid e tags err Herr x. pose proof (flaky_append_spec s sid e tags) as Hs.
  cbn in Herr |- *. rewrite Herr in Hs. by rewrite Hs.
Qed.

End Flaky.
Arguments FlakyStore : clear implicits.

Section Witnesses.

#[local] Existing Instance plain_ids.
#[local] Existing Instance InMemory_store.
#[local] Existing Instance Flaky_store.

Definition flaky_t : Type := FlakyStore (InMemoryHistoryStore FixedEnvironment).

(** A new session on a store whose appends will fail as listed. *)
Definition fresh_session (fails : list bool) : SessionManager flaky_t :=
  new (BitText.to_text 7%Z)
    (Some (Build_FlakyStore (Build_InMemoryHistoryStore ∅ ∅ epoch) fails)) None None.

Lemma fresh_synced fails : synced (λ _, []) 7%Z (fresh_session fails).
Proof.
  eexists. split_and!; [done|by vm_compute|apply DefaultProjection_rules|done|by vm_compute].
Defined.

Definition said (s : str) : ModelMessage := Build_ModelMessage RoleAssistant [Text s].

Definition sample_ops : list op :=
  [PushFrom 1 (user_text "hi") ByUser; Persist;
   PushReply 2 (said "hello") (Build_Usage 3 1 0 0);
   Compacted [user_text "so far: hi"] 9 4; Push 3 (user_text "more")].

Lemma resume_rebuilds_the_session_witness :
  ∃ s' s'', run (fresh_session []) sample_ops = Ok s' ∧ persist s' = (s'', Ok tt) ∧
    messages (resume (λ _, []) 5%Z s'' (session_id s'')).1 =
      [user_text "so far: hi"; user_text "more"].
Proof.
  destruct (run (fresh_session []) sample_ops) as [s'|] eqn:Hrun;
    [|vm_compute in Hrun; discriminate Hrun].
  destruct (persist s') as [s'' r] eqn:Hp.
  assert (r = Ok tt ∧ stored_form (messages s') = [user_text "so far: hi"; user_text "more"])
    as [-> Hform].
  { vm_compute in Hrun. injection Hrun as <-. vm_compute in Hp. by injection Hp as _ <-. }
  exists s', s''. split_and!; [done|done|]. rewrite <-Hform.
  eapply (resume_rebuilds_the_session (λ _, []) 7%Z (fresh_session []) sample_ops s' s'' 5%Z s'');
    [apply fresh_synced|done|done|done|by rewrite Hform].
Defined.

Definition two_messages (fails : list bool) : SessionManager flaky_t :=
  push_message 2%Z (push_message 1%Z (fresh_session fails) (user_text "hi")) (said "hello").

Lemma two_synced fails : synced (λ _, []) 7%Z (two_messages fails).
Proof.
  eapply (run_synced _ _ (fresh_session fails) [Push 1 (user_text "hi"); Push 2 (said "hello")]);
    [apply fresh_synced|done].
Defined.

Lemma persist_resumes_where_it_failed_witness :
  ∃ s1 s2 store, persist (two_messages [false; true]) = (s1, Err (StoreError Io)) ∧
    persist s1 = (s2, Ok tt) ∧ history_store s2 = Some store ∧
    view (λ _, []) store 7%Z = [user_text "hi"; said "hello"].
Proof.
  destruct (persist (two_messages [false; true])) as [s1 r1] eqn:H1.
  destruct (persist s1) as [s2 r2] eqn:H2.
  assert (r1 = Err (StoreError Io) ∧ r2 = Ok tt) as [-> ->].
  { vm_compute in H1. injection H1 as <- <-. vm_compute in H2. by injection H2 as _ <-. }
  destruct (persist_resumes_where_it_failed (λ _, []) 7%Z (two_messages [false; true]) s1 s2
              (StoreError Io)) as (_&store&Hst&Hv);
    [apply flaky_clean|apply two_synced|done|done|].
  by exists s1, s2, store.
Defined.

Lemma failed_boundary_duplicates_witness :
  ∃ s s1 s2 store, persist (two_messages [false; false; true]) = (s, Ok tt) ∧
    replace_messages_after_compact s [user_text "so far: hi"] 9 4 = (s1, Err (StoreError Io)) ∧
    persist s1 = (s2, Ok tt) ∧ history_store s2 = Some store ∧
    view (λ _, []) store 7%Z = [user_text "hi"; said "hello"; user_text "so far: hi"].
Proof.
  destruct (persist (two_messages [false; false; true])) as [s r] eqn:H0.
  destruct (replace_messages_after_compact s [user_text "so far: hi"] 9 4) as [s1 r1] eqn:H1.
  destruct (persist s1) as [s2 r2] eqn:H2.
  assert (r = Ok tt ∧ r1 = Err (StoreError Io) ∧ r2 = Ok tt ∧
          messages s = [user_text "hi"; said "hello"] ∧ persisted_up_to s = length (messages s))
    as (->&->&->&Hm&Hall).
  { vm_compute in H0. injection H0 as <- <-. vm_compute in H1. injection H1 as <- <-.
    vm_compute in H2. by injection H2 as _ <-. }
  destruct (failed_boundary_duplicates (λ _, []) 7%Z s s1 s2 [user_text "so far: hi"] 9 4
              (StoreError Io)) as (_&store&Hst&Hv);
    [apply flaky_clean|eapply persist_synced; [apply (two_synced [false; false; true])|done|by left]|
     done|done|done|].
  exists s, s1, s2, store. rewrite Hm in Hv. done.
Defined.

Lemma ages_shift_after_compaction_witness :
  ∃ s1 r, replace_messages_after_compact (two_messages []) [said "hello"] 9 4 = (s1, r) ∧
    message_ages 50%Z s1 !! 0 = Some (0, 1%Z) ∧
    messages s1 !! 0 = Some (said "hello").
Proof.
  destruct (replace_messages_after_compact (two_messages []) [said "hello"] 9 4) as [s1 r] eqn:E.
  destruct (ages_shift_after_compaction (two_messages []) s1 1 9 4 r 50%Z 0 1%Z E) as [Ha Hm];
    [done|cbn; lia|].
  exists s1, r. split_and!; [done|exact Ha|exact Hm].
Defined.

End Witnesses.
