(* ===== verification/AutoCompact.v ===== *)
(** * The compaction cycle ([crates/runtime/src/turn.rs]
    [compact_if_needed], [run_compaction], and [agent.rs] [compact_now])

    Before each request the loop asks its compactor what has gone stale,
    whether to compact early, whether to warn and whether the budget forces a
    compaction; and a compaction rewrites the session, with what should
    survive put in front.  The hooks' verdict, the summarizing model and the
    skill manager are parameters; events, logs and telemetry are left out. *)

From stdpp Require Import base option numbers sets gmap strings pretty list sorting.
From S2P Require Import Prelude RustStr Lines PermTypes Conversation Rounds Compaction Aging Compactor.
From S2P Require Import Recovery Store Session.

Inductive CompactTrigger := TriggerAuto | TriggerManual.

#[export] Instance CompactTrigger_eq_dec : EqDecision CompactTrigger.
Proof. solve_decision. Defined.

Record CompactSummary := {
  summary_strategy : CompactStrategy;
  summary_messages_before : nat;
  summary_messages_after : nat;
  summary_tokens_before : nat;
  summary_tokens_after : nat;
}.

(** What the agent knows that a compaction reads but does not change. *)
Record Setup := {
  time_based_mc_config : TimeBasedMcConfig;
  request_overhead_tokens : nat;
  compact_threshold : nat;
  compact_keep_recent : nat;
  reactive_compact : bool;
  agent_invoked_skills : list str;
  agent_in_plan_mode : bool;
  agent_plan_content : option str;
  agent_activated_tools : gset str;
  running_task_summaries : list (str * str);
}.

Section Cycle.
Context `{TokenCounter} `{Base58} {T : Type} `{HistoryStore T} (compactor : Compactor).
Context (render_input : value → str) (summary_prompt timeout : str)
  (summarizer : option (ModelMessage → SummaryCall))
  (declines : nat → nat → nat → CompactTrigger → bool)
  (get_skill_content : str → option str) (last_invoked_seq : str → Z).

(** What it changes. *)
Record AgentState := {
  session : SessionManager T;
  cached_mc : CachedMicroCompact;
  compaction_state : CompactionState;
  tool_results_ever_cleared : bool;
  compact_warning_issued : bool;
  claude_md_injected : bool;
  already_surfaced : option (gset str);
}.

Definition set_session (s : AgentState) (session : SessionManager T) : AgentState :=
  Build_AgentState session (cached_mc s) (compaction_state s) (tool_results_ever_cleared s)
    (compact_warning_issued s) (claude_md_injected s) (already_surfaced s).

(** Direct writes to [session.messages] and [session.message_timestamps]. *)
Definition set_messages (s : SessionManager T) (ms : list ModelMessage) : SessionManager T :=
  set_conversation s ms (message_timestamps s) (notes s).

Definition truncate_timestamps (s : SessionManager T) (n : nat) : SessionManager T :=
  set_conversation s (messages s) (take n (message_timestamps s)) (notes s).

Definition note_cleared (s : AgentState) (cleared : bool) : AgentState :=
  Build_AgentState (session s) (cached_mc s) (compaction_state s)
    (tool_results_ever_cleared s || cleared) (compact_warning_issued s) (claude_md_injected s)
    (already_surfaced s).

Definition set_cached (s : AgentState) (c : CachedMicroCompact) : AgentState :=
  Build_AgentState (session s) c (compaction_state s) (tool_results_ever_cleared s)
    (compact_warning_issued s) (claude_md_injected s) (already_surfaced s).

Definition set_compaction_state (s : AgentState) (c : CompactionState) : AgentState :=
  Build_AgentState (session s) (cached_mc s) c (tool_results_ever_cleared s)
    (compact_warning_issued s) (claude_md_injected s) (already_surfaced s).

Definition set_warning (s : AgentState) (w : bool) : AgentState :=
  Build_AgentState (session s) (cached_mc s) (compaction_state s) (tool_results_ever_cleared s)
    w (claude_md_injected s) (already_surfaced s).

Context (setup : Setup).

(** [Agent::context_tokens]. *)
Definition agent_context_tokens (s : AgentState) : nat :=
  token_count _ (session s) + request_overhead_tokens setup.

(** *** [run_compaction] *)

Definition recovery_context (pre_compact : list ModelMessage) : PostCompactContext :=
  {| recent_files := extract_recent_reads pre_compact;
     invoked_skills :=
       (λ name, Build_InvokedSkillRecord name (get_skill_content name) (last_invoked_seq name))
         <$> agent_invoked_skills setup;
     in_plan_mode := agent_in_plan_mode setup;
     plan_content := agent_plan_content setup;
     activated_tools := merge_sort str_order (elements (agent_activated_tools setup));
     running_tasks := running_task_summaries setup |}.

(** [compacted.splice(0..0, recovery_msgs)], unless there is nothing to
    inject. *)
Definition with_recovery (ctx : PostCompactContext) (compacted : list ModelMessage)
    : list ModelMessage :=
  if bool_decide (recent_files ctx = []) && bool_decide (invoked_skills ctx = []) &&
     bool_decide (activated_tools ctx = []) && negb (in_plan_mode ctx)
  then compacted
  else build_post_compact_recovery ctx ++ compacted.

Definition llm_outcome (pre_compact : list ModelMessage) (threshold keep : nat)
    (trigger : CompactTrigger) : option (list ModelMessage * CompactResult) :=
  match summarizer with
  | Some call_model =>
      if bool_decide (trigger = TriggerManual) || wants_llm_summary pre_compact threshold keep then
        match full_compact render_input summary_prompt timeout call_model pre_compact threshold keep
        with
        | Ok ok => Some ok
        | Err _ => None
        end
      else None
  | None => None
  end.

Definition run_compaction (s : AgentState) (threshold keep : nat) (trigger : CompactTrigger)
    : AgentState * option CompactSummary :=
  let pre_compact := messages (session s) in
  let messages_before := length pre_compact in
  if declines messages_before (agent_context_tokens s) threshold trigger then (s, None)
  else
    let compact_outcome :=
      match llm_outcome pre_compact threshold keep trigger with
      | Some ok => Ok ok
      | None => transform pre_compact threshold keep
      end in
    match compact_outcome with
    | Err _ => (s, None)
    | Ok (compacted, result) =>
        if bool_decide (trigger = TriggerManual) && bool_decide (strategy result = NoOp)
        then (s, None)
        else
          let compacted := with_recovery (recovery_context pre_compact) compacted in
          let messages_after := length compacted in
          let '(session, _) :=
            replace_messages_after_compact (session s) compacted
              (Z.of_nat (tokens_before result)) (Z.of_nat (tokens_after result)) in
          (Build_AgentState (truncate_timestamps session messages_after) (cached_mc s)
             (compaction_state s)
             (tool_results_ever_cleared s || bool_decide (strategy result = MicroCompact))
             false false ((λ _, ∅) <$> already_surfaced s),
           Some (Build_CompactSummary (strategy result) messages_before messages_after
                   (tokens_before result) (tokens_after result)))
    end.

(** *** [compact_if_needed] *)

Definition age_step (now : Z) (s : AgentState) : AgentState :=
  let '(ms, aging) :=
    age now (messages (session s))
      {| ages := message_ages now (session s);
         time_based_config := time_based_mc_config setup;
         cached_due := should_run now (cached_mc s);
         cached_keep_recent := keep_recent (cached_mc s) |} in
  let s := note_cleared (set_session s (set_messages (session s) ms))
             (bool_decide (0 < aged_cleared aging)) in
  match cache_edits aging with
  | Some ids => set_cached s (record_pass now (cached_mc s) ids)
  | None => s
  end.

Definition trim_step (s : AgentState) : AgentState :=
  let '(ms, budget_modified) := trim_tool_results (messages (session s)) in
  note_cleared (set_session s (set_messages (session s) ms)) (bool_decide (0 < budget_modified)).

Definition reactive_step (s : AgentState) : AgentState :=
  let '(ms, outcome) :=
    reactive (messages (session s))
      {| Compactor.context_tokens := agent_context_tokens s;
         context_limit := compact_threshold setup;
         reactive_keep := compact_keep_recent setup;
         enabled := reactive_compact setup;
         input_circuit_open := circuit_open (compaction_state s) |} in
  let s := set_session s (set_messages (session s) ms) in
  match outcome with
  | Compactor.Compacted =>
      let s := set_session s (truncate_timestamps (session s) (length (messages (session s)))) in
      set_compaction_state (note_cleared s true) (record_success (compaction_state s))
  | NoEffect => set_compaction_state s (record_failure (compaction_state s))
  | NotTriggered => s
  end.

Definition budget_state (s : AgentState) : BudgetState :=
  Build_BudgetState (agent_context_tokens s) (compact_threshold setup) (compact_warning_issued s).

Definition warn_step (now : Z) (s : AgentState) : AgentState :=
  match context_warning (budget_state s) with
  | Some reminder =>
      set_warning (set_session s (push_message now (session s) (user_text reminder))) true
  | None => s
  end.

Definition compact_if_needed (now : Z) (s : AgentState) : AgentState :=
  let s := age_step now s in
  let s := trim_step s in
  let s := reactive_step s in
  let s := warn_step now s in
  if should_compact (budget_state s)
  then (run_compaction s (compact_threshold setup) (compact_keep_recent setup) TriggerAuto).1
  else s.

(** [Agent::compact_now]. *)
Definition compact_now (s : AgentState) : AgentState * option CompactSummary :=
  let target := Nat.max (estimate_tokens (messages (session s)) / 2) 1 in
  run_compaction s target (compact_keep_recent setup) TriggerManual.

End Cycle.
Arguments AgentState : clear implicits.

(** ** What recovery adds *)

Definition is_text_message (m : ModelMessage) : Prop :=
  role m = RoleUser ∧ ∃ text, content m = [Text text].

Lemma texts_fold {S} (f : S → ModelContentBlock → S) (s : S) rs :
  (∀ s text, f s (Text text) = s) → Forall is_text_message rs →
  foldl f s (rs ≫= content) = s.
Proof.
  intros Hf. induction 1 as [|m rs [_ [text Hm]] _ IH]; [done|].
  cbn [mbind list_bind]. rewrite Hm. cbn [app foldl]. by rewrite Hf.
Qed.

Lemma texts_are_no_reads rs ms :
  Forall is_text_message rs → extract_recent_reads (rs ++ ms) = extract_recent_reads ms.
Proof.
  intros Hrs. unfold extract_recent_reads.
  assert (Hc : read_calls (rs ++ ms) = read_calls ms).
  { unfold read_calls. rewrite bind_app, foldl_app. f_equal. by apply texts_fold. }
  rewrite Hc. case_bool_decide; [done|].
  rewrite reverse_app, bind_app, foldl_app. apply texts_fold; [done|]. by apply Forall_reverse.
Qed.

Lemma texts_paired rs prev ms :
  Forall is_text_message rs → can_start ms → well_paired_after prev ms →
  well_paired_after prev (rs ++ ms).
Proof.
  intros Hrs Hc Hw. revert prev Hw. induction Hrs as [|m rs [Hr [text Hm]] _ IH]; intros prev Hw;
    [done|].
  split; [left; unfold tool_results; by rewrite Hm|]. apply IH. by eapply well_paired_start.
Qed.

Lemma paired_can_start ms : well_paired ms → can_start ms.
Proof.
  destruct ms as [|m ms]; [done|]. intros [[?|(_&_&p&[=]&_)] _]. done.
Qed.

Lemma with_recovery_paired ctx ms : well_paired ms → well_paired (with_recovery ctx ms).
Proof.
  intros Hw. unfold with_recovery. destruct (_ && _); [done|].
  apply texts_paired; [apply recovery_users|by apply paired_can_start|done].
Qed.

Lemma push_text_paired ms text : well_paired ms → well_paired (ms ++ [user_text text]).
Proof. intros Hw. apply well_paired_app. split; [done|]. split; [by left|done]. Qed.

Section CycleLemmas.
Context `{TokenCounter} `{Base58} {T : Type} `{HistoryStore T} (compactor : Compactor).
Context (render_input : value → str) (summary_prompt timeout : str)
  (summarizer : option (ModelMessage → SummaryCall))
  (declines : nat → nat → nat → CompactTrigger → bool)
  (get_skill_content : str → option str) (last_invoked_seq : str → Z).
Context (setup : Setup).

#[local] Notation agent := (AgentState T).
#[local] Notation run := (run_compaction compactor render_input summary_prompt timeout summarizer
  declines get_skill_content last_invoked_seq setup).
#[local] Notation cycle := (compact_if_needed compactor render_input summary_prompt timeout
  summarizer declines get_skill_content last_invoked_seq setup).
#[local] Notation now_ := (compact_now compactor render_input summary_prompt timeout
  summarizer declines get_skill_content last_invoked_seq setup).
#[local] Notation conversation s := (Session.messages (session s)).
#[local] Notation recovery ms :=
  (with_recovery (recovery_context get_skill_content last_invoked_seq setup ms)).

(** A session whose transcript takes a boundary or does not, has the new
    messages. *)
Lemma replaced_messages (s : SessionManager T) ms before after :
  Session.messages (replace_messages_after_compact s ms before after).1 = ms ∧
  Session.token_counter (replace_messages_after_compact s ms before after).1 = token_counter s.
Proof.
  unfold replace_messages_after_compact.
  cbn [history_store set_conversation session_id session_turn_id].
  destruct (history_store s); [|done]. destruct (id_parse _); [|done].
  by destruct (append_tagged _ _ _ _) as [? [|]].
Qed.

(** What a compaction leaves of the conversation. *)
Lemma run_cases (s : agent) threshold keep trigger s' o :
  run s threshold keep trigger = (s', o) →
  (s' = s ∧ o = None) ∨
  ∃ compacted result,
    (llm_outcome compactor render_input summary_prompt timeout summarizer
       (conversation s) threshold keep trigger = Some (compacted, result) ∨
     transform (conversation s) threshold keep = Ok (compacted, result)) ∧
    (trigger = TriggerManual → strategy result ≠ NoOp) ∧
    conversation s' = recovery (conversation s) compacted ∧
    token_counter (session s') = token_counter (session s) ∧
    compaction_state s' = compaction_state s ∧ cached_mc s' = cached_mc s ∧
    o = Some (Build_CompactSummary (strategy result) (length (conversation s))
                (length (conversation s')) (tokens_before result) (tokens_after result)).
Proof.
  unfold run_compaction. destruct (declines _ _ _ _); [intros [= <- <-]; by left|].
  destruct (match llm_outcome _ _ _ _ _ _ _ _ _ with Some _ => _ | None => _ end)
    as [[compacted result]|e] eqn:Hout; [|intros [= <- <-]; by left].
  destruct (bool_decide (trigger = TriggerManual) && bool_decide (strategy result = NoOp)) eqn:Hm;
    [intros [= <- <-]; by left|].
  destruct (replace_messages_after_compact _ _ _ _) as [ses r] eqn:Hr.
  intros [= <- <-]. right. exists compacted, result.
  pose proof (replaced_messages (session s) (recovery (conversation s) compacted)
    (Z.of_nat (tokens_before result)) (Z.of_nat (tokens_after result))) as [Hms Htc].
  rewrite Hr in Hms, Htc. cbn [fst] in Hms, Htc. split; [|split; [|split; [|split]]].
  - destruct (llm_outcome _ _ _ _ _ _ _ _ _) as [p|]; [left; congruence|by right].
  - intros ->. rewrite bool_decide_eq_true_2 in Hm by done. by apply bool_decide_eq_false in Hm.
  - exact Hms.
  - exact Htc.
  - split_and!; [done..|]. cbn. by rewrite Hms.
Qed.

(** *** Pairing *)

Context `{!PairingCompactor compactor}.

Lemma age_step_paired now (s : agent) :
  should_run now (cached_mc s) = false → well_paired (conversation s) →
  well_paired (conversation (age_step compactor setup now s)).
Proof.
  intros Hdue Hw. unfold age_step.
  pose proof (age_paired now (conversation s)
    {| ages := message_ages now (session s); time_based_config := time_based_mc_config setup;
       cached_due := should_run now (cached_mc s);
       cached_keep_recent := keep_recent (cached_mc s) |} Hdue Hw) as Ha.
  destruct (age _ _ _) as [ms aging]. by destruct (cache_edits aging).
Qed.

Lemma trim_step_paired (s : agent) :
  well_paired (conversation s) → well_paired (conversation (trim_step compactor s)).
Proof.
  intros Hw. unfold trim_step. pose proof (trim_paired _ Hw) as Ht.
  by destruct (trim_tool_results _).
Qed.

Lemma reactive_step_paired (s : agent) :
  well_paired (conversation s) → well_paired (conversation (reactive_step compactor setup s)).
Proof.
  intros Hw. unfold reactive_step.
  pose proof (reactive_paired (conversation s)
    {| Compactor.context_tokens := agent_context_tokens setup s;
       context_limit := compact_threshold setup; reactive_keep := compact_keep_recent setup;
       enabled := reactive_compact setup;
       input_circuit_open := circuit_open (compaction_state s) |} Hw) as Hr.
  destruct (reactive _ _) as [ms o]. by destruct o.
Qed.

Lemma warn_step_paired now (s : agent) :
  well_paired (conversation s) → well_paired (conversation (warn_step compactor setup now s)).
Proof.
  intros Hw. unfold warn_step. destruct (context_warning _); [|done]. by apply push_text_paired.
Qed.

Lemma run_paired (s : agent) threshold keep trigger :
  well_paired (conversation s) → well_paired (conversation (run s threshold keep trigger).1).
Proof.
  intros Hw. destruct (run s threshold keep trigger) as [s' o] eqn:E.
  apply run_cases in E as [[-> _]|(compacted&result&Hout&_&Hms&_)]; [done|].
  cbn [fst]. rewrite Hms. apply with_recovery_paired. destruct Hout as [Hllm|Ht]; [|by eapply transform_paired].
  unfold llm_outcome in Hllm. destruct summarizer as [call_model|]; [|done].
  destruct (_ || _); [|done].
  destruct (full_compact _ _ _ _ _ _ _) as [[r res]|] eqn:Hf; [|done].
  injection Hllm as -> ->. by eapply full_compact_paired.
Qed.

(** The whole cycle, the count pass not being due. *)
Lemma cycle_paired now (s : agent) :
  should_run now (cached_mc s) = false → well_paired (conversation s) →
  well_paired (conversation (cycle now s)).
Proof.
  intros Hdue Hw. unfold compact_if_needed.
  assert (Hs : well_paired (conversation (warn_step compactor setup now
    (reactive_step compactor setup (trim_step compactor (age_step compactor setup now s))))))
    by (apply warn_step_paired, reactive_step_paired, trim_step_paired, age_step_paired; done).
  case_match; [|done]. by apply run_paired.
Qed.

(** The cycle does not change whether there is a count pass. *)
Lemma cycle_config now (s : agent) : config (cached_mc (cycle now s)) = config (cached_mc s).
Proof.
  unfold compact_if_needed.
  assert (Hs : config (cached_mc (warn_step compactor setup now
    (reactive_step compactor setup (trim_step compactor (age_step compactor setup now s))))) =
    config (cached_mc s)).
  { unfold warn_step, reactive_step, trim_step, age_step.
    destruct (age _ _ _) as [ms a]. destruct (cache_edits a);
      destruct (trim_tool_results _) as [ms' n]; destruct (reactive _ _) as [ms'' []];
      by destruct (context_warning _). }
  case_match; [|done]. destruct (run _ _ _ _) as [s' o] eqn:E.
  apply run_cases in E as [[-> _]|(?&?&_&_&_&_&_&Hc&_)]; [done|]. cbn [fst]. by rewrite Hc.
Qed.

End CycleLemmas.

(** ** Compacting what fits *)

Lemma join_replicate_cons (n : nat) (rec ms : list ModelMessage) :
  mjoin (replicate (S n) rec) ++ ms = rec ++ (mjoin (replicate n rec) ++ ms).
Proof. cbn [replicate mjoin list_join]. by rewrite app_assoc. Qed.

Lemma join_replicate_length n (rec : list ModelMessage) :
  length (mjoin (replicate n rec)) = n * length rec.
Proof. induction n as [|n IH]; [done|]. cbn. rewrite length_app. f_equal. exact IH. Qed.

Lemma join_replicate_texts n (rec : list ModelMessage) :
  Forall is_text_message rec → Forall is_text_message (mjoin (replicate n rec)).
Proof.
  intros Hr. induction n as [|n IH]; [constructor|]. cbn [replicate mjoin list_join].
  by apply Forall_app.
Qed.

(** There is something to put in front. *)
Definition wants_recovery (ctx : PostCompactContext) : bool :=
  negb (bool_decide (recent_files ctx = []) && bool_decide (invoked_skills ctx = []) &&
        bool_decide (activated_tools ctx = []) && negb (in_plan_mode ctx)).

Lemma with_recovery_wanted ctx ms :
  wants_recovery ctx = true → with_recovery ctx ms = build_post_compact_recovery ctx ++ ms.
Proof. unfold wants_recovery, with_recovery. by destruct (_ && _). Qed.

Lemma wanted_recovery_adds ctx :
  wants_recovery ctx = true → 1 ≤ length (build_post_compact_recovery ctx).
Proof.
  unfold wants_recovery, build_post_compact_recovery. rewrite !length_app.
  unfold files_message, skills_message, tools_message, plan_message.
  repeat (case_bool_decide; cbn [andb negb]); try (destruct (skill_sections _) as [[? ?] ?]);
    try (cbn [length]; lia).
  all: destruct (in_plan_mode ctx); try done; destruct (plan_content ctx); cbn [length]; lia.
Qed.

Section Pile.
Context `{TokenCounter} `{Base58} {T : Type} `{HistoryStore T} (show_percent : nat → nat → str).
Context (render_input : value → str) (summary_prompt timeout : str)
  (summarizer : option (ModelMessage → SummaryCall))
  (declines : nat → nat → nat → CompactTrigger → bool)
  (get_skill_content : str → option str) (last_invoked_seq : str → Z).
Context (setup : Setup).

#[local] Notation agent := (AgentState T).
#[local] Notation conversation s := (Session.messages (session s)).
#[local] Notation auto s := (run_compaction (DefaultCompactor show_percent) render_input
  summary_prompt timeout summarizer declines get_skill_content last_invoked_seq setup s
  (compact_threshold setup) (compact_keep_recent setup) TriggerAuto).
#[local] Notation context ms := (recovery_context get_skill_content last_invoked_seq setup ms).

(** A compaction forced on a conversation that fits only adds to it. *)
Lemma auto_fits (s : agent) :
  (∀ a b c d, declines a b c d = false) →
  estimate_tokens (conversation s) ≤ compact_threshold setup →
  conversation (auto s).1 = with_recovery (context (conversation s)) (conversation s) ∧
  token_counter (session (auto s).1) = token_counter (session s) ∧
  ∃ sum, (auto s).2 = Some sum ∧ summary_strategy sum = NoOp.
Proof.
  intros Hdec Hfit. destruct (auto s) as [s' o] eqn:E.
  assert (Hne : o ≠ None).
  { intros ->. unfold run_compaction in E. rewrite Hdec in E.
    destruct (match llm_outcome _ _ _ _ _ _ _ _ _ with Some _ => _ | None => _ end)
      as [[c r]|e] eqn:Hout.
    - rewrite bool_decide_eq_false_2 in E by done. cbn [andb] in E. by destruct (replace_messages_after_compact _ _ _ _).
    - by destruct (llm_outcome _ _ _ _ _ _ _ _ _). }
  apply run_cases in E as [[_ ->]|(compacted&result&Hout&_&Hms&Htc&_&_&->)]; [done|].
  cbn [fst snd]. rewrite Hms, Htc. cbn [summary_strategy].
  assert (Hc : (compacted, result) = compact (conversation s) (compact_threshold setup)
                                       (compact_keep_recent setup)).
  { destruct Hout as [Hllm|[= Ht]]; [|done]. unfold llm_outcome in Hllm.
    destruct summarizer; [|done]. cbn [wants_llm_summary DefaultCompactor] in Hllm.
    unfold should_summarize in Hllm.
    by rewrite bool_decide_eq_false_2, bool_decide_eq_true_2 in Hllm by done. }
  unfold compact in Hc. rewrite bool_decide_eq_true_2 in Hc by done.
  injection Hc as -> ->. split_and!; [done..|]. eexists. by split.
Qed.

Lemma context_with_texts rs ms :
  Forall is_text_message rs → context (rs ++ ms) = context ms.
Proof. intros Hrs. unfold recovery_context. by rewrite texts_are_no_reads. Qed.

Lemma auto_piles_up (s : agent) n :
  let rec := build_post_compact_recovery (context (conversation s)) in
  (∀ a b c d, declines a b c d = false) →
  wants_recovery (context (conversation s)) = true →
  (∀ i, i < n →
     estimate_tokens (mjoin (replicate i rec) ++ conversation s) ≤ compact_threshold setup) →
  conversation (Nat.iter n (λ s, (auto s).1) s) = mjoin (replicate n rec) ++ conversation s ∧
  token_counter (session (Nat.iter n (λ s, (auto s).1) s)) = token_counter (session s).
Proof.
  intros rec Hdec Hwant Hfit. induction n as [|n IH]; [done|].
  destruct IH as [IH IHt]; [intros; apply Hfit; lia|].
  assert (Htexts : Forall is_text_message (mjoin (replicate n rec)))
    by apply join_replicate_texts, recovery_users.
  change (Nat.iter (S n) (λ s, (auto s).1) s) with
    ((auto (Nat.iter n (λ s, (auto s).1) s)).1).
  set (sn := Nat.iter n (λ s, (auto s).1) s) in *.
  destruct (auto_fits sn Hdec) as (Hms&Htc&_); [rewrite IH; apply Hfit; lia|].
  rewrite Hms, Htc, IHt, IH, context_with_texts by done.
  by rewrite with_recovery_wanted, join_replicate_cons.
Qed.

End Pile.

(** ** Theorems *)

Section Theorems.
Context `{TokenCounter} `{Base58} {T : Type} `{HistoryStore T}.
Context (render_input : value → str) (summary_prompt timeout : str)
  (summarizer : option (ModelMessage → SummaryCall))
  (declines : nat → nat → nat → CompactTrigger → bool)
  (get_skill_content : str → option str) (last_invoked_seq : str → Z).
Context (setup : Setup).

#[local] Notation agent := (AgentState T).
#[local] Notation conversation s := (Session.messages (session s)).
#[local] Notation cycle compactor := (compact_if_needed compactor render_input summary_prompt
  timeout summarizer declines get_skill_content last_invoked_seq setup).
#[local] Notation compact_now compactor := (compact_now compactor render_input summary_prompt
  timeout summarizer declines get_skill_content last_invoked_seq setup).

(** Whatever compactor keeps requests and answers paired, the cycle before a
    request and a compaction asked for keep them paired too - the summary of a
    model and what recovery puts in front included - as long as the count
    pass is not due. *)
Theorem cycle_keeps_pairing (compactor : Compactor) now (s : agent) :
  PairingCompactor compactor → well_paired (conversation s) →
  well_paired (conversation (compact_now compactor s).1) ∧
  (should_run now (cached_mc s) = false → well_paired (conversation (cycle compactor now s))).
Proof.
  intros Hc Hw. split; [by apply run_paired|]. intros Hdue. by apply cycle_paired.
Qed.

(** When the rest of the request alone takes the context past the threshold,
    the conversation itself still fitting, a compaction drops nothing and puts
    the recovered context in front - and the context is still past the
    threshold, so the next request compacts again: after [n] of them the
    conversation is the one before, under [n] copies. *)
Theorem compacting_what_fits_piles_up show_percent (s : agent) n :
  let auto s := (run_compaction (DefaultCompactor show_percent) render_input summary_prompt timeout
    summarizer declines get_skill_content last_invoked_seq setup s (compact_threshold setup)
    (compact_keep_recent setup) TriggerAuto).1 in
  let rec := build_post_compact_recovery
    (recovery_context get_skill_content last_invoked_seq setup (conversation s)) in
  (∀ a b c d, declines a b c d = false) →
  wants_recovery (recovery_context get_skill_content last_invoked_seq setup (conversation s)) = true →
  (∀ i, i < n →
     estimate_tokens (mjoin (replicate i rec) ++ conversation s) ≤ compact_threshold setup) →
  0 < compact_threshold setup < agent_context_tokens setup s →
  conversation (Nat.iter n auto s) = mjoin (replicate n rec) ++ conversation s ∧
  n + length (conversation s) ≤ length (conversation (Nat.iter n auto s)) ∧
  default_should_compact (budget_state setup (Nat.iter n auto s)) = true.
Proof.
  intros auto rec Hdec Hwant Hfit Hover.
  destruct (auto_piles_up show_percent render_input summary_prompt timeout summarizer declines
              get_skill_content last_invoked_seq setup s n Hdec Hwant Hfit) as [Hms Htc].
  fold auto in Hms, Htc. fold rec in Hms. split; [exact Hms|]. split.
  - rewrite Hms, length_app, join_replicate_length. apply wanted_recovery_adds in Hwant.
    fold rec in Hwant. nia.
  - unfold default_should_compact, budget_state, agent_context_tokens, token_count in *.
    cbn [threshold budget_tokens]. rewrite Hms, Htc.
    rewrite !bool_decide_eq_true_2; [done|rewrite count_messages_app; lia|lia].
Qed.

(** The breaker of the predictive pass, once open, stays open: an agent that
    has it open runs every cycle without the pass, and with that no success
    can close it. *)
Theorem open_breaker_stays_open show_percent nows (s : agent) :
  circuit_open (compaction_state s) = true →
  let after := foldl (λ s now, cycle (DefaultCompactor show_percent) now s) s nows in
  compaction_state after = compaction_state s ∧
  ∀ s', s' = after → reactive_step (DefaultCompactor show_percent) setup s' = s'.
Proof.
  intros Ho.
  assert (Hstep : ∀ s0 : agent, circuit_open (compaction_state s0) = true →
    reactive_step (DefaultCompactor show_percent) setup s0 = s0).
  { intros s0 Ho0. unfold reactive_step. cbn [reactive DefaultCompactor]. unfold default_reactive.
    cbn [input_circuit_open]. rewrite Ho0, orb_true_r. by destruct s0 as [[] ? ? ? ? ? ?]. }
  assert (Hcycle : ∀ now (s0 : agent), circuit_open (compaction_state s0) = true →
    compaction_state (cycle (DefaultCompactor show_percent) now s0) = compaction_state s0).
  { intros now s0 Ho0. unfold compact_if_needed.
    assert (Ha : compaction_state (trim_step (DefaultCompactor show_percent)
              (age_step (DefaultCompactor show_percent) setup now s0)) = compaction_state s0).
    { unfold age_step. destruct (age _ _ _) as [ms a]. unfold trim_step.
      destruct (cache_edits a); cbn [session set_session set_cached note_cleared];
        by destruct (trim_tool_results _). }
    rewrite Hstep by congruence.
    assert (Hw : compaction_state (warn_step (DefaultCompactor show_percent) setup now
              (trim_step (DefaultCompactor show_percent)
              (age_step (DefaultCompactor show_percent) setup now s0))) = compaction_state s0)
      by (unfold warn_step; by destruct (context_warning _)).
    case_match; [|done]. rewrite <-Hw.
    destruct (run_compaction _ _ _ _ _ _ _ _ _ _ _ _ _) as [s' o] eqn:E.
    by apply run_cases in E as [[-> _]|(?&?&_&_&_&_&Hc&_)]. }
  intros after.
  assert (Hall : compaction_state after = compaction_state s).
  { unfold after. clear after. revert s Ho. induction nows as [|now nows IH]; intros s Ho; [done|].
    cbn [foldl]. rewrite IH; [by apply Hcycle|]. by rewrite Hcycle. }
  split; [done|]. intros s' ->. apply Hstep. congruence.
Qed.

(** Below its threshold a compactor wrapped in [OnlyAtThreshold] leaves the
    session alone, but for one thing: it still trims the results that are too
    large. *)
Theorem only_at_threshold_waits (inner : Compactor) now (s : agent) :
  default_should_compact (budget_state setup (trim_step (OnlyAtThreshold inner) s)) = false →
  compaction_state (cycle (OnlyAtThreshold inner) now s) = compaction_state s ∧
  cached_mc (cycle (OnlyAtThreshold inner) now s) = cached_mc s ∧
  compact_warning_issued (cycle (OnlyAtThreshold inner) now s) = compact_warning_issued s ∧
  conversation (cycle (OnlyAtThreshold inner) now s) =
    (enforce_tool_result_budget (conversation s) ToolResultBudget_default).1.
Proof.
  intros Hbelow. unfold compact_if_needed.
  assert (Hage : age_step (OnlyAtThreshold inner) setup now s = s).
  { destruct s as [[] ? ? cleared ? ? ?]. unfold age_step, note_cleared, set_session.
    cbn [age OnlyAtThreshold cache_edits Aged_default tool_results_ever_cleared].
    rewrite (bool_decide_eq_false_2 (0 < aged_cleared Aged_default)) by (cbn; lia).
    by rewrite orb_false_r. }
  rewrite Hage.
  assert (Hre : ∀ s0 : agent, reactive_step (OnlyAtThreshold inner) setup s0 = s0).
  { intros [[] ? ? ? ? ? ?]. done. }
  rewrite Hre. unfold warn_step. cbn [context_warning OnlyAtThreshold should_compact].
  rewrite Hbelow. unfold trim_step. cbn [trim_tool_results OnlyAtThreshold]. unfold default_trim.
  by destruct (enforce_tool_result_budget _ _).
Qed.

End Theorems.

(** ** Witnesses *)

Section Witnesses.

#[local] Existing Instance plain_ids.
#[local] Existing Instance InMemory_store.
#[local] Existing Instance Flaky_store.
#[local] Existing Instance char_counter.

(** An agent in plan mode with [overhead] tokens of instructions and tools and
    a threshold of 1000. *)
Definition sample_setup (overhead : nat) : Setup :=
  {| time_based_mc_config := Build_TimeBasedMcConfig None 5; request_overhead_tokens := overhead;
     compact_threshold := Z.to_nat 1000; compact_keep_recent := 2; reactive_compact := true;
     agent_invoked_skills := []; agent_in_plan_mode := true; agent_plan_content := None;
     agent_activated_tools := ∅; running_task_summaries := [] |}.

Definition sample_agent (open : bool) : AgentState flaky_t :=
  {| session := set_conversation (fresh_session []) sample_conversation (replicate 6 1%Z) ∅;
     cached_mc := cached_new 0 (Build_CachedMcConfig false 0 5);
     compaction_state := Build_CompactionState (if open then 3 else 0) 0 open;
     tool_results_ever_cleared := false; compact_warning_issued := false;
     claude_md_injected := true; already_surfaced := None |}.

#[local] Notation cycle setup := (compact_if_needed (DefaultCompactor (λ _ _, [])) (λ _, []) [] []
  None (λ _ _ _ _, false) (λ _, None) (λ _, 0%Z) setup).

Lemma cycle_keeps_pairing_witness :
  well_paired (Session.messages (session (cycle (sample_setup (Z.to_nat 2000)) 5%Z
    (sample_agent false)))).
Proof.
  apply (cycle_keeps_pairing (λ _, []) [] [] None (λ _ _ _ _, false) (λ _, None) (λ _, 0%Z)
           (sample_setup (Z.to_nat 2000)) (DefaultCompactor (λ _ _, [])) 5%Z (sample_agent false));
    [apply _|exact sample_paired|by vm_compute].
Defined.

(** Three requests, three copies of the reminder. *)
Lemma compacting_what_fits_piles_up_witness :
  9 ≤ length (Session.messages (session
        (Nat.iter 3 (cycle (sample_setup (Z.to_nat 2000)) 5%Z) (sample_agent false)))) ∧
  9 ≤ length (Session.messages (session
        (Nat.iter 3 (λ s, (run_compaction (DefaultCompactor (λ _ _, [])) (λ _, []) [] []
           None (λ _ _ _ _, false) (λ _, None) (λ _, 0%Z) (sample_setup (Z.to_nat 2000)) s
           (Z.to_nat 1000) 2 TriggerAuto).1) (sample_agent false)))).
Proof.
  split; [by_compute|].
  destruct (compacting_what_fits_piles_up (λ _, []) [] [] None (λ _ _ _ _, false) (λ _, None)
              (λ _, 0%Z) (sample_setup (Z.to_nat 2000)) (λ _ _, []) (sample_agent false) 3)
    as (_&Hlen&_); [done|by vm_compute| |by_compute|exact Hlen].
  intros i Hi. do 3 (destruct i as [|i]; [by_compute|]). lia.
Defined.

Lemma open_breaker_stays_open_witness :
  circuit_open (compaction_state (foldl (λ s now, cycle (sample_setup 0) now s)
    (sample_agent true) [1%Z; 2%Z])) = true.
Proof.
  destruct (open_breaker_stays_open (λ _, []) [] [] None (λ _ _ _ _, false) (λ _, None)
              (λ _, 0%Z) (sample_setup 0) (λ _ _, []) [1%Z; 2%Z] (sample_agent true) eq_refl)
    as [Hs _].
  by rewrite Hs.
Defined.

Lemma only_at_threshold_waits_witness :
  Session.messages (session (compact_if_needed (OnlyAtThreshold (DefaultCompactor (λ _ _, [])))
    (λ _, []) [] [] None (λ _ _ _ _, false) (λ _, None) (λ _, 0%Z) (sample_setup 0) 5%Z
    (sample_agent false))) = sample_conversation.
Proof.
  destruct (only_at_threshold_waits (λ _, []) [] [] None (λ _ _ _ _, false) (λ _, None)
              (λ _, 0%Z) (sample_setup 0) (DefaultCompactor (λ _ _, [])) 5%Z (sample_agent false))
    as (_&_&_&Hms); [by vm_compute|].
  rewrite Hms. by vm_compute.
Defined.

End Witnesses.
