(* ===== verification/Streaming.v ===== *)
(** * One model reply ([crates/runtime/src/streaming.rs], and of
    [turn.rs] [attach_tool_result_images] and [pair_dangling_tool_uses])

    Consuming a model's stream: the blocks of the reply are assembled while
    its tool calls are run, concurrency-safe ones together and the others
    alone, and the reply reaches the session with one message answering all
    its calls.

    What the outside decides is a parameter: [run_tool] is what a call answers
    by itself, and a [Schedule] the order in which a batch completes and which
    of its calls see that the batch was cancelled.  All pushes of one reply
    use one reading of the clock; what is sent to the event bus is left out. *)

From stdpp Require Import base option numbers sets gmap strings list sorting.
From S2P Require Import Prelude RustStr PermTypes Conversation Store Session.

(** ** Events and outcomes *)

Inductive ModelEvent :=
  | TextDelta (text : str)
  | ThinkingDelta (text : str)
  | ThinkingSignature (signature : str)
  | RedactedThinkingEvent (data : str)
  | ToolUseStart (id name : str)
  | ToolUseEvent (id name : str) (input : value)
  | ToolArgsDelta (id partial_json : str)
  | ContentBlockStart (index : nat) (block : ModelContentBlock)
  | ContentBlockStop (index : nat)
  | EndTurn (stop_reason : str) (usage : Usage).

Record ToolAnswer := {
  text : str;
  new_messages : option (list value);
  reported_failure : bool;
}.

(** [ToolOutcome]: an [Err] is a call that did not run to an answer. *)
Definition ToolOutcome : Type := result ToolAnswer str.

Record QueuedTool := {
  qid : str;
  qname : str;
  qinput : value;
  concurrency_safe : bool;
}.

(** A call of the batch in flight: its submission index and its id. *)
Record InFlight := {
  idx : nat;
  call_id : str;
  own_outcome : ToolOutcome;
}.

(** At each completion: which of the calls in flight it is, and whether a
    call of a cancelled batch still answers for itself. *)
Definition Schedule : Type := nat → list nat → nat * bool.

Section Reply.
Context (render : value → str) (run_tool : str → str → value → ToolOutcome)
  (is_concurrency_safe : str → value → bool) (provenance : option str) (sched : Schedule).

Definition read_outcome (o : ToolOutcome) : str * option (list value) * bool :=
  match o with
  | Ok a => (text a, new_messages a, reported_failure a)
  | Err e => (e, None, true)
  end.

Definition result_block (id content : str) (failed : bool) : ModelContentBlock :=
  ToolResult id content (Some failed).

Definition close_thinking (pending : str) (reply : list ModelContentBlock)
    (signature : option str) : str * list ModelContentBlock :=
  if bool_decide (pending = []) then (pending, reply)
  else ([], reply ++ [Thinking pending signature provenance]).

Definition close_text (pending : str) (reply : list ModelContentBlock)
    : str * list ModelContentBlock :=
  if bool_decide (pending = []) then (pending, reply) else ([], reply ++ [Text pending]).

(** The locals of [execute_stream]. *)
Record StreamState := {
  stop_reason : str;
  usage : option Usage;
  has_tool_uses : bool;
  tool_calls : Z;
  reply : list ModelContentBlock;
  pending_text : str;
  pending_thinking : str;
  queued_tools : list QueuedTool;
  seen_tool_calls : gset str;
  batch : list InFlight;
  batch_aborted : bool;
  pending_result_blocks : list (nat * ModelContentBlock);
  pending_new_msgs : list (list value);
  completions : nat;
}.

Definition start : StreamState :=
  Build_StreamState [] None false 0 [] [] [] [] ∅ [] false [] [] 0.

Definition set_reply (s : StreamState) (t th : str) (r : list ModelContentBlock) : StreamState :=
  Build_StreamState (stop_reason s) (usage s) (has_tool_uses s) (tool_calls s) r t th
    (queued_tools s) (seen_tool_calls s) (batch s) (batch_aborted s)
    (pending_result_blocks s) (pending_new_msgs s) (completions s).

(** *** [drain_batch] *)

(** One completion: the call [sched] picks leaves the batch. *)
Definition take_at {A} (i : nat) (l : list A) : option (A * list A) :=
  match l !! (i `mod` length l) with
  | Some x => Some (x, base.delete (i `mod` length l) l)
  | None => None
  end.

Definition CANCELLED : str := "cancelled by sibling error".

(** [tokio::select!] between the batch's cancellation and the call. *)
Definition completed (aborted own : bool) (c : InFlight) : ToolOutcome :=
  if aborted && negb own then Err CANCELLED else own_outcome c.

Definition drain_step (s : StreamState) : StreamState :=
  let '(i, own) := sched (completions s) (idx <$> batch s) in
  match take_at i (batch s) with
  | None => s
  | Some (c, rest) =>
      let result := completed (batch_aborted s) own c in
      let aborted := batch_aborted s || negb (is_ok result) in
      let '(content, new_msgs, failed) := read_outcome result in
      Build_StreamState (stop_reason s) (usage s) (has_tool_uses s) (tool_calls s) (reply s)
        (pending_text s) (pending_thinking s) (queued_tools s) (seen_tool_calls s) rest aborted
        (pending_result_blocks s ++ [(idx c, result_block (call_id c) content failed)])
        (pending_new_msgs s ++ from_option (λ ms, [ms]) [] new_msgs) (S (completions s))
  end.

(** Until the batch is empty. *)
Fixpoint drain_n (n : nat) (s : StreamState) : StreamState :=
  match n with 0 => s | S n => drain_n n (drain_step s) end.

Definition drain_batch (s : StreamState) : StreamState := drain_n (length (batch s)) s.

(** *** The loop *)

Definition dedup_key (name : str) (input : value) : str :=
  lit "(" ++ name ++ lit "," ++ render input ++ lit ")".

Definition DUPLICATE : str :=
  "[Duplicate tool call skipped — identical call was already made this turn.]".

(** Buffering the result of a call that did not go through the batch, and
    starting a new batch after it. *)
Definition answer_now (s : StreamState) (i : nat) (id : str) (o : ToolOutcome) : StreamState :=
  let '(content, new_msgs, failed) := read_outcome o in
  Build_StreamState (stop_reason s) (usage s) (has_tool_uses s) (tool_calls s) (reply s)
    (pending_text s) (pending_thinking s) (queued_tools s) (seen_tool_calls s) [] false
    (pending_result_blocks s ++ [(i, result_block id content failed)])
    (pending_new_msgs s ++ from_option (λ ms, [ms]) [] new_msgs) (completions s).

Definition count_call (s : StreamState) : StreamState :=
  Build_StreamState (stop_reason s) (usage s) (has_tool_uses s)
    ((tool_calls s + 1) `mod` 2 ^ 32)%Z (reply s)
    (pending_text s) (pending_thinking s) (queued_tools s) (seen_tool_calls s) (batch s)
    (batch_aborted s) (pending_result_blocks s) (pending_new_msgs s) (completions s).

Definition on_tool_use (s : StreamState) (id name : str) (input : value) : StreamState :=
  let '(th, r) := close_thinking (pending_thinking s) (reply s) None in
  let '(t, r) := close_text (pending_text s) r in
  let i := length (queued_tools s) in
  let safe := is_concurrency_safe name input in
  let key := dedup_key name input in
  let dup := bool_decide (key ∈ seen_tool_calls s) in
  let s :=
    Build_StreamState (stop_reason s) (usage s) true (tool_calls s)
      (r ++ [ToolUse id name input]) t th
      (queued_tools s ++ [Build_QueuedTool id name input safe])
      ({[ key ]} ∪ seen_tool_calls s) (batch s) (batch_aborted s)
      (pending_result_blocks s) (pending_new_msgs s) (completions s) in
  if dup then
    Build_StreamState (stop_reason s) (usage s) (has_tool_uses s) (tool_calls s) (reply s)
      (pending_text s) (pending_thinking s) (queued_tools s) (seen_tool_calls s) (batch s)
      (batch_aborted s) (pending_result_blocks s ++ [(i, result_block id DUPLICATE false)])
      (pending_new_msgs s) (completions s)
  else if safe then
    count_call
      (Build_StreamState (stop_reason s) (usage s) (has_tool_uses s) (tool_calls s) (reply s)
        (pending_text s) (pending_thinking s) (queued_tools s) (seen_tool_calls s)
        (batch s ++ [Build_InFlight i id (run_tool id name input)]) (batch_aborted s)
        (pending_result_blocks s) (pending_new_msgs s) (completions s))
  else count_call (answer_now (drain_batch s) i id (run_tool id name input)).

Definition on_event (s : StreamState) (e : ModelEvent) : StreamState :=
  match e with
  | TextDelta text =>
      let '(th, r) := close_thinking (pending_thinking s) (reply s) None in
      set_reply s (pending_text s ++ text) th r
  | ThinkingDelta text =>
      let '(t, r) := close_text (pending_text s) (reply s) in
      set_reply s t (pending_thinking s ++ text) r
  | ThinkingSignature signature =>
      let '(th, r) := close_thinking (pending_thinking s) (reply s) (Some signature) in
      set_reply s (pending_text s) th r
  | RedactedThinkingEvent data =>
      let '(t, r) := close_text (pending_text s) (reply s) in
      let '(th, r) := close_thinking (pending_thinking s) r None in
      set_reply s t th (r ++ [RedactedThinking data provenance])
  | ToolUseEvent id name input => on_tool_use s id name input
  | EndTurn sr u =>
      Build_StreamState sr (Some u) (has_tool_uses s) (tool_calls s) (reply s)
        (pending_text s) (pending_thinking s) (queued_tools s) (seen_tool_calls s) (batch s)
        (batch_aborted s) (pending_result_blocks s) (pending_new_msgs s) (completions s)
  | ToolUseStart _ _ | ToolArgsDelta _ _ | ContentBlockStart _ _ | ContentBlockStop _ => s
  end.

Definition abort (s : StreamState) : StreamState :=
  Build_StreamState (stop_reason s) (usage s) (has_tool_uses s) (tool_calls s) (reply s)
    (pending_text s) (pending_thinking s) (queued_tools s) (seen_tool_calls s) (batch s)
    true (pending_result_blocks s) (pending_new_msgs s) (completions s).

(** The items of the stream, each with whether the turn was cancelled by the
    time it arrived. *)
Fixpoint consume (s : StreamState) (items : list (bool * result ModelEvent str))
    : StreamState * option str :=
  match items with
  | [] => (s, None)
  | (cancelled, item) :: items =>
      if cancelled then (s, None)
      else
        match item with
        | Err e => (abort s, Some e)
        | Ok event => consume (on_event s event) items
        end
  end.

(** What closes the reply once the stream is over. *)
Definition finish (s : StreamState) : StreamState :=
  let '(th, r) := close_thinking (pending_thinking s) (reply s) None in
  let '(t, r) := close_text (pending_text s) r in
  drain_batch (set_reply s t th r).

(** *** [write_reply] *)

Context {T : Type} (intercept : ModelMessage → ModelMessage) (now : Z).

Definition injected (m : value) : ModelMessage :=
  let role_str := default (lit "user") (value_get "role" m ≫= as_str) in
  let content_str := default [] (value_get "content" m ≫= as_str) in
  Build_ModelMessage
    (if decide (role_str = lit "assistant") then RoleAssistant else RoleUser) [Text content_str].

Definition inject_new_messages (s : SessionManager T) (ms : list value) : SessionManager T :=
  foldl (λ s m, push_message now s (injected m)) s ms.

Definition Usage_default : Usage := Build_Usage 0 0 0 0.

Definition write_reply (session : SessionManager T) (s : StreamState) : SessionManager T :=
  if bool_decide (reply s = []) then session
  else
    let asked_for_tools := existsb is_tool_use (reply s) in
    let message := intercept (Build_ModelMessage RoleAssistant (reply s)) in
    let session := push_reply now session message (default Usage_default (usage s)) in
    let session :=
      if asked_for_tools then
        push_message now session
          (Build_ModelMessage RoleUser (merge_sort by_fst (pending_result_blocks s)).*2)
      else session in
    foldl inject_new_messages session (pending_new_msgs s).

Record StreamResult := {
  res_stop_reason : str;
  res_usage : Usage;
  res_has_tool_uses : bool;
  res_tool_calls : Z;
}.

Definition execute_stream (session : SessionManager T)
    (items : list (bool * result ModelEvent str)) : SessionManager T * result StreamResult str :=
  let '(s, stream_error) := consume start items in
  let s := finish s in
  let session := write_reply session s in
  (session,
   match stream_error with
   | Some e => Err e
   | None => Ok (Build_StreamResult (stop_reason s) (default Usage_default (usage s))
                   (has_tool_uses s) (tool_calls s))
   end).

End Reply.

(** ** After the reply *)

Record PendingToolImage := {
  image_media_type : str;
  image_data : str;
}.

Definition push_images (images : list PendingToolImage) (m : ModelMessage) : ModelMessage :=
  Build_ModelMessage (role m)
    (content m ++ ((λ i, Image (image_media_type i) (image_data i)) <$> images)).

(** The last match, rewritten: [iter_mut().rev().find(..)]. *)
Fixpoint map_first {A} (p : A → bool) (f : A → A) (l : list A) : list A :=
  match l with
  | [] => []
  | x :: l => if p x then f x :: l else x :: map_first p f l
  end.

Definition answers_tools (m : ModelMessage) : bool :=
  bool_decide (role m = RoleUser) && existsb is_tool_result (content m).

Definition attach_tool_result_images (ms : list ModelMessage) (images : list PendingToolImage)
    : list ModelMessage :=
  reverse (map_first answers_tools (push_images images) (reverse ms)).

(** ** Before the next request *)

Definition missing_result (id : str) : ModelContentBlock :=
  ToolResult id "The tool call did not complete." (Some true).

(** The loop, by what is left of the messages: a step looks at one message
    and the one after it. *)
Fixpoint pair_dangling_tool_uses (ms : list ModelMessage) : list ModelMessage :=
  match ms with
  | m :: rest =>
      if bool_decide (role m = RoleAssistant) && negb (bool_decide (tool_uses m = [])) then
        let next_is_user :=
          match rest with n :: _ => bool_decide (role n = RoleUser) | [] => false end in
        let answered :=
          match rest with n :: _ => if next_is_user then tool_results n else [] | [] => [] end in
        let missing :=
          missing_result <$> filter (λ id, id ∉ answered) (tool_uses m) in
        match rest with
        | n :: rest' =>
            if next_is_user then
              m :: (if bool_decide (missing = []) then n
                    else Build_ModelMessage (role n) (missing ++ content n)) ::
              pair_dangling_tool_uses rest'
            else if bool_decide (missing = []) then
              m :: n :: pair_dangling_tool_uses rest'
            else
              m :: Build_ModelMessage RoleUser missing :: pair_dangling_tool_uses rest
        | [] =>
            if bool_decide (missing = []) then [m]
            else [m; Build_ModelMessage RoleUser missing]
        end
      else m :: pair_dangling_tool_uses rest
  | [] => []
  end.

(** ** Draining a batch *)

Section Draining.
Context (sched : Schedule).

(** The same reply so far: a drain touches the batch and its results only. *)
Definition same_reply (s s' : StreamState) : Prop :=
  stop_reason s' = stop_reason s ∧ usage s' = usage s ∧ has_tool_uses s' = has_tool_uses s ∧
  tool_calls s' = tool_calls s ∧ reply s' = reply s ∧ pending_text s' = pending_text s ∧
  pending_thinking s' = pending_thinking s ∧ queued_tools s' = queued_tools s ∧
  seen_tool_calls s' = seen_tool_calls s.

#[export] Instance same_reply_equiv : Equivalence same_reply.
Proof.
  unfold same_reply. split.
  - intros s. by split_and!.
  - intros s t. naive_solver.
  - intros s t u H1 H2. destruct_and!. split_and!; congruence.
Qed.

Lemma take_at_Some {A} i (l : list A) : l ≠ [] →
  ∃ x rest, take_at i l = Some (x, rest) ∧ l ≡ₚ x :: rest.
Proof.
  intros Hl. unfold take_at.
  assert (i `mod` length l < length l) as Hi.
  { apply Nat.mod_upper_bound. by destruct l. }
  destruct (lookup_lt_is_Some_2 _ _ Hi) as [x Hx]. rewrite Hx.
  exists x, (base.delete (i `mod` length l) l). split; [done|]. by apply delete_Permutation.
Qed.

(** One completion: some call of the batch gets one result. *)
Lemma drain_step_spec s : batch s ≠ [] →
  ∃ c rest own, batch s ≡ₚ c :: rest ∧ batch (drain_step sched s) = rest ∧
    same_reply s (drain_step sched s) ∧
    let o := completed (batch_aborted s) own c in
    batch_aborted (drain_step sched s) = batch_aborted s || negb (is_ok o) ∧
    pending_result_blocks (drain_step sched s) =
      pending_result_blocks s ++
        [(idx c, result_block (call_id c) (read_outcome o).1.1 (read_outcome o).2)] ∧
    pending_new_msgs (drain_step sched s) =
      pending_new_msgs s ++ from_option (λ ms, [ms]) [] (read_outcome o).1.2.
Proof.
  intros Hb. unfold drain_step. destruct (sched _ _) as [i own].
  destruct (take_at_Some i (batch s) Hb) as (c&rest&->&Hperm).
  exists c, rest, own. cbn zeta.
  destruct (read_outcome _) as [[content nm] failed]. by split_and!.
Qed.

(** A drain empties the batch: every call in it gets exactly one result, its
    own or a cancellation. *)
Lemma drain_batch_spec s :
  ∃ outcomes : list (InFlight * ToolOutcome),
    outcomes.*1 ≡ₚ batch s ∧ batch (drain_batch sched s) = [] ∧
    same_reply s (drain_batch sched s) ∧
    pending_result_blocks (drain_batch sched s) =
      pending_result_blocks s ++
        ((λ co, (idx co.1, result_block (call_id co.1) (read_outcome co.2).1.1 (read_outcome co.2).2))
           <$> outcomes) ∧
    pending_new_msgs (drain_batch sched s) =
      pending_new_msgs s ++ omap (λ co, (read_outcome co.2).1.2) outcomes ∧
    (batch_aborted s = false → Forall (λ c, is_ok (own_outcome c) = true) (batch s) →
     batch_aborted (drain_batch sched s) = false ∧
     Forall (λ co, co.2 = own_outcome co.1) outcomes).
Proof.
  unfold drain_batch. remember (length (batch s)) as n eqn:Hn. revert s Hn.
  induction n as [|n IH]; intros s Hn; cbn [drain_n].
  { exists []. destruct (batch s); [|done]. cbn. rewrite !app_nil_r.
    by split_and!. }
  assert (Hb : batch s ≠ []) by (by intros Hb; rewrite Hb in Hn).
  destruct (drain_step_spec s Hb) as (c&rest&own&Hperm&Hrest&Hsame&Hab&Hres&Hnm).
  destruct (IH (drain_step sched s)) as (os&Hos&Hempty&Hsame'&Hres'&Hnm'&Hok).
  { rewrite Hrest. rewrite Hperm in Hn. by injection Hn. }
  set (o := completed (batch_aborted s) own c) in *.
  exists ((c, o) :: os). split_and!.
  - rewrite Hperm, fmap_cons. by rewrite Hos, Hrest.
  - done.
  - by etrans.
  - rewrite Hres', Hres, <-app_assoc. done.
  - rewrite Hnm', Hnm, <-app_assoc. f_equal. cbn [omap list_omap snd].
    by destruct (read_outcome o).1.2.
  - intros Hna Hall. rewrite Hperm in Hall. inversion Hall as [|? ? Hc Hrest']; subst.
    assert (o = own_outcome c) as Ho by (subst o; by rewrite Hna).
    destruct Hok as [Ha Hf].
    + by rewrite Hab, Hna, Ho, Hc.
    + done.
    + split; [done|]. by constructor.
Qed.

End Draining.

(** ** The reply while it is assembled *)

Section Assembly.
Context (render : value → str) (run_tool : str → str → value → ToolOutcome)
  (is_concurrency_safe : str → value → bool) (provenance : option str) (sched : Schedule).

Definition visible_block (b : ModelContentBlock) : Prop :=
  match b with
  | Text t | Thinking t _ _ => t ≠ []
  | ToolResult _ _ _ => False
  | _ => True
  end.

Definition texts_of (bs : list ModelContentBlock) : str :=
  bs ≫= λ b, match b with Text t => t | _ => [] end.

(** Every call of the reply has its result, or is in flight, but for those in
    [missing]. *)
Record assembled (missing : list nat) (s : StreamState) : Prop := {
  as_queued : qid <$> queued_tools s = omap tool_use_id_of (reply s);
  as_indices : (pending_result_blocks s).*1 ++ (idx <$> batch s) ++ missing ≡ₚ
                 seq 0 (length (queued_tools s));
  as_results : Forall (λ ib, ∃ q, queued_tools s !! ib.1 = Some q ∧
                 ∃ content e, ib.2 = ToolResult (qid q) content e) (pending_result_blocks s);
  as_batch : Forall (λ c, ∃ q, queued_tools s !! idx c = Some q ∧ call_id c = qid q) (batch s);
  as_visible : Forall visible_block (reply s);
  as_one_open : pending_text s = [] ∨ pending_thinking s = [];
}.

Lemma close_thinking_spec th r sig :
  (close_thinking provenance th r sig).1 = [] ∧
  ∃ more, (close_thinking provenance th r sig).2 = r ++ more ∧ Forall visible_block more ∧
    omap tool_use_id_of more = [] ∧ texts_of more = [].
Proof.
  unfold close_thinking. case_bool_decide as Hth; cbn [fst snd].
  - split; [done|]. exists []. rewrite app_nil_r. by split_and!.
  - split; [done|]. eexists. split_and!; [done| |done|done]. by constructor.
Qed.

Lemma close_text_spec t r :
  (close_text t r).1 = [] ∧
  ∃ more, (close_text t r).2 = r ++ more ∧ Forall visible_block more ∧
    omap tool_use_id_of more = [] ∧ texts_of more = t.
Proof.
  unfold close_text. case_bool_decide as Ht; cbn [fst snd].
  - split; [done|]. exists []. rewrite app_nil_r. by split_and!.
  - split; [done|]. eexists. split_and!; [done| |done|by cbn; rewrite app_nil_r]. by constructor.
Qed.

Lemma texts_of_app bs cs : texts_of (bs ++ cs) = texts_of bs ++ texts_of cs.
Proof. apply bind_app. Qed.

(** Only the open texts and the closed blocks change. *)
Lemma assembled_reply missing s t th r more :
  assembled missing s → r = reply s ++ more → Forall visible_block more →
  omap tool_use_id_of more = [] → (t = [] ∨ th = []) → assembled missing (set_reply s t th r).
Proof.
  intros [] -> Hv Hu Hopen. split; try done.
  - cbn [queued_tools reply set_reply]. by rewrite omap_app, Hu, app_nil_r.
  - by apply Forall_app.
Qed.

Lemma drain_assembled missing s : assembled missing s →
  assembled missing (drain_batch sched s) ∧
  batch (drain_batch sched s) = [] ∧ same_reply s (drain_batch sched s).
Proof.
  intros [Hq Hi Hr Hb Hv Ho].
  destruct (drain_batch_spec sched s) as (os&Hos&Hempty&Hsame&Hres&_&_).
  split_and!; [|done|done]. destruct Hsame as (_&_&_&_&Hrep&Ht&Hth&Hqu&_).
  split; rewrite ?Hrep, ?Hqu, ?Hempty, ?Ht, ?Hth; try done.
  - rewrite Hres, fmap_nil, fmap_app, <-Hi, <-app_assoc. apply Permutation_app_head.
    rewrite <-Hos, <-!list_fmap_compose. done.
  - rewrite Hres, Forall_app. split; [done|]. rewrite Forall_fmap, Forall_forall.
    intros [c o] Hco. rewrite Forall_forall in Hb.
    destruct (Hb c) as (q&Hlook&Hid).
    { rewrite <-Hos. by apply (list_elem_of_fmap_2 fst) in Hco. }
    exists q. cbn. split; [done|]. rewrite Hid. unfold result_block. eauto.
Qed.

(** A result for a missing call, or the call in flight. *)
Lemma assembled_result s i q content e :
  assembled [i] s → queued_tools s !! i = Some q →
  ∀ s', same_reply s s' → batch s' = batch s →
    pending_result_blocks s' = pending_result_blocks s ++ [(i, ToolResult (qid q) content e)] →
    assembled [] s'.
Proof.
  intros [Hq Hi Hr Hb Hv Ho] Hlook s' (_&_&_&_&Hrep&Ht&Hth&Hqu&_) Hbatch Hres.
  split; rewrite ?Hrep, ?Hqu, ?Hbatch, ?Ht, ?Hth; try done.
  - rewrite Hres, fmap_app, app_nil_r, <-Hi, <-app_assoc. apply Permutation_app_head.
    cbn. apply Permutation_cons_append.
  - rewrite Hres, Forall_app. split; [done|]. constructor; [|constructor]. eauto 6.
Qed.

Lemma assembled_call s i q o :
  assembled [i] s → queued_tools s !! i = Some q →
  ∀ s', same_reply s s' → batch s' = batch s ++ [Build_InFlight i (qid q) o] →
    pending_result_blocks s' = pending_result_blocks s → assembled [] s'.
Proof.
  intros [Hq Hi Hr Hb Hv Ho] Hlook s' (_&_&_&_&Hrep&Ht&Hth&Hqu&_) Hbatch Hres.
  split; rewrite ?Hrep, ?Hqu, ?Hres, ?Ht, ?Hth; try done.
  - by rewrite Hbatch, fmap_app, app_nil_r, <-Hi.
  - rewrite Hbatch, Forall_app. split; [done|]. constructor; [|constructor]. by exists q.
Qed.

Lemma assembled_count missing s : assembled missing s → assembled missing (count_call s).
Proof. by intros []. Qed.

(** Recording a call leaves it to be answered. *)
Lemma assembled_new_call s r t th (more : list ModelContentBlock) id name input safe seen :
  assembled [] s → r = reply s ++ more → Forall visible_block more →
  omap tool_use_id_of more = [] → t = [] →
  assembled [length (queued_tools s)]
    (Build_StreamState (stop_reason s) (usage s) true (tool_calls s)
      (r ++ [ToolUse id name input]) t th
      (queued_tools s ++ [Build_QueuedTool id name input safe])
      seen (batch s) (batch_aborted s)
      (pending_result_blocks s) (pending_new_msgs s) (completions s)).
Proof.
  intros [Hq Hi Hr Hb Hv Ho] -> Hmore Hnone ->.
  assert (Hkeep : ∀ i q, queued_tools s !! i = Some q →
            (queued_tools s ++ [Build_QueuedTool id name input safe]) !! i = Some q)
    by (intros i q Hl; by apply lookup_app_l_Some).
  split; cbn [queued_tools reply pending_result_blocks batch pending_text pending_thinking].
  - by rewrite fmap_app, !omap_app, Hnone, app_nil_r, Hq.
  - rewrite length_app, Nat.add_1_r, seq_S, <-Hi, app_nil_r, (assoc_L (++)). done.
  - eapply Forall_impl; [exact Hr|]. intros ib (q&?&?). eauto.
  - eapply Forall_impl; [exact Hb|]. intros c (q&?&?). eauto.
  - rewrite !Forall_app. split_and!; [done..|]. by repeat constructor.
  - by left.
Qed.

Lemma on_tool_use_assembled s id name input :
  assembled [] s →
  assembled [] (on_tool_use render run_tool is_concurrency_safe provenance sched s id name input).
Proof.
  intros Hs. unfold on_tool_use.
  destruct (close_thinking_spec (pending_thinking s) (reply s) None) as (_&m1&Hr1&Hv1&Hu1&_).
  destruct (close_thinking provenance _ _ _) as [th r1]. cbn [fst snd] in *. subst r1.
  destruct (close_text_spec (pending_text s) (reply s ++ m1)) as (Ht&m2&Hr2&Hv2&Hu2&_).
  destruct (close_text _ _) as [t r2]. cbn [fst snd] in *. subst r2.
  set (safe := is_concurrency_safe name input).
  set (seen := {[ dedup_key render name input ]} ∪ seen_tool_calls s).
  set (s1 := Build_StreamState (stop_reason s) _ _ _ _ _ _ (queued_tools s ++ _) _ _ _ _ _ _).
  assert (H1 : assembled [length (queued_tools s)] s1).
  { apply (assembled_new_call s _ t th (m1 ++ m2)); [done|by rewrite (assoc_L (++))| | |done].
    - by apply Forall_app.
    - by rewrite omap_app, Hu1, Hu2. }
  assert (Hlook : queued_tools s1 !! length (queued_tools s) =
            Some (Build_QueuedTool id name input safe)) by (by apply list_lookup_middle).
  case_bool_decide; [|destruct safe].
  - apply (assembled_result s1 _ _ DUPLICATE (Some false) H1 Hlook); by try split_and!.
  - apply assembled_count.
    apply (assembled_call s1 _ _ (run_tool id name input) H1 Hlook); by try split_and!.
  - apply assembled_count. destruct (drain_assembled _ _ H1) as (Hd&Hempty&Hsame).
    destruct (read_outcome (run_tool id name input)) as [[c nm] f] eqn:Ho.
    apply (assembled_result (drain_batch sched s1) (length (queued_tools s))
             (Build_QueuedTool id name input false) c (Some f)); [done| | | |].
    + destruct Hsame as (_&_&_&_&_&_&_&Hqu&_). by rewrite Hqu.
    + unfold answer_now. rewrite Ho. by split_and!.
    + unfold answer_now. by rewrite Ho, Hempty.
    + unfold answer_now. by rewrite Ho.
Qed.

Lemma on_event_assembled s e :
  assembled [] s →
  assembled [] (on_event render run_tool is_concurrency_safe provenance sched s e).
Proof.
  intros Hs. destruct e; cbn [on_event]; try done.
  - destruct (close_thinking_spec (pending_thinking s) (reply s) None) as (Hth&m&Hr&Hv&Hu&_).
    destruct (close_thinking _ _ _ _) as [th r]. cbn [fst snd] in *.
    apply (assembled_reply [] s _ _ _ m); auto.
  - destruct (close_text_spec (pending_text s) (reply s)) as (Ht&m&Hr&Hv&Hu&_).
    destruct (close_text _ _) as [t r]. cbn [fst snd] in *.
    apply (assembled_reply [] s _ _ _ m); auto.
  - destruct (close_thinking_spec (pending_thinking s) (reply s) (Some signature))
      as (Hth&m&Hr&Hv&Hu&_).
    destruct (close_thinking _ _ _ _) as [th r]. cbn [fst snd] in *.
    apply (assembled_reply [] s _ _ _ m); auto.
  - destruct (close_text_spec (pending_text s) (reply s)) as (Ht&m1&Hr1&Hv1&Hu1&_).
    destruct (close_text _ _) as [t r1]. cbn [fst snd] in *. subst r1.
    destruct (close_thinking_spec (pending_thinking s) (reply s ++ m1) None)
      as (Hth&m2&Hr2&Hv2&Hu2&_).
    destruct (close_thinking _ _ _ _) as [th r2]. cbn [fst snd] in *. subst r2.
    apply (assembled_reply [] s _ _ _ (m1 ++ m2 ++ [RedactedThinking data provenance])); auto.
    + by rewrite <-!(assoc_L (++)).
    + rewrite !Forall_app. split_and!; [done..|]. by repeat constructor.
    + by rewrite !omap_app, Hu1, Hu2.
  - by apply on_tool_use_assembled.
  - destruct Hs. by split.
Qed.

Lemma consume_assembled s items :
  assembled [] s →
  assembled [] (consume render run_tool is_concurrency_safe provenance sched s items).1.
Proof.
  revert s. induction items as [|[[] [e|err]] items IH]; intros s Hs; cbn [consume]; try done.
  - by apply IH, on_event_assembled.
  - destruct Hs. by split.
Qed.

Lemma start_assembled : assembled [] start.
Proof. split; try done; [constructor..|by left]. Qed.

Lemma finish_assembled s :
  assembled [] s →
  assembled [] (finish provenance sched s) ∧ batch (finish provenance sched s) = [].
Proof.
  intros Hs. unfold finish.
  destruct (close_thinking_spec (pending_thinking s) (reply s) None) as (_&m1&Hr1&Hv1&Hu1&_).
  destruct (close_thinking _ _ _ _) as [th r1]. cbn [fst snd] in *. subst r1.
  destruct (close_text_spec (pending_text s) (reply s ++ m1)) as (Ht&m2&Hr2&Hv2&Hu2&_).
  destruct (close_text _ _) as [t r2]. cbn [fst snd] in *. subst r2.
  edestruct (drain_assembled [] (set_reply s t th ((reply s ++ m1) ++ m2))) as (?&?&_); [|done].
  apply (assembled_reply [] s _ _ _ (m1 ++ m2)); auto.
  - by rewrite (assoc_L (++)).
  - by apply Forall_app.
  - by rewrite omap_app, Hu1, Hu2.
Qed.

End Assembly.


(** ** Writing the reply *)

Lemma omap_of_fmap {A B} (f : A → option B) (l : list A) (k : list B) : f <$> l = Some <$> k → omap f l = k.
Proof.
  revert k. induction l as [|x l IH]; intros [|y k]; try done.
  rewrite !fmap_cons. intros [= Hx Hl]. cbn [omap list_omap]. rewrite Hx. f_equal. by apply IH.
Qed.

(** Distinct indices, sorted, count up. *)
Lemma sorted_indices (rs : list (nat * ModelContentBlock)) n :
  rs.*1 ≡ₚ seq 0 n → (merge_sort by_fst rs).*1 = seq 0 n.
Proof.
  intros Hperm. apply (StronglySorted_unique (≤)).
  - apply (StronglySorted_fmap fst by_fst le); [done|].
    apply (StronglySorted_merge_sort by_fst).
  - clear. generalize 0. induction n as [|n IH]; intros i; cbn; constructor; [apply IH|].
    apply Forall_seq. lia.
  - by rewrite merge_sort_Permutation.
Qed.

Lemma sorted_answers s :
  assembled [] s → batch s = [] →
  let answers := (merge_sort by_fst (pending_result_blocks s)).*2 in
  omap tool_result_id_of answers = omap tool_use_id_of (reply s) ∧
  Forall (λ b, is_tool_result b = true) answers.
Proof.
  intros [Hq Hi Hr _ _ _] Hbatch answers.
  rewrite Hbatch, fmap_nil, !app_nil_r in Hi. apply sorted_indices in Hi.
  set (rs := merge_sort by_fst (pending_result_blocks s)) in *.
  assert (Hall : Forall (λ ib, ∃ q, queued_tools s !! ib.1 = Some q ∧
             ∃ content e, ib.2 = ToolResult (qid q) content e) rs)
    by (unfold rs; by rewrite merge_sort_Permutation).
  split.
  - rewrite <-Hq. apply omap_of_fmap, list_eq. intros j.
    assert (Hj : rs.*1 !! j = seq 0 (length (queued_tools s)) !! j) by (by rewrite Hi).
    unfold answers. rewrite !list_lookup_fmap in *. fold rs.
    destruct (rs !! j) as [[i b]|] eqn:Erj; cbn in Hj |- *.
    + symmetry in Hj. apply lookup_seq in Hj as [-> Hlt].
      rewrite Forall_forall in Hall. destruct (Hall (0 + j, b)) as (q&Hlook&c&e&Hb);
        [by eapply list_elem_of_lookup_2|]. cbn in Hlook, Hb. rewrite Hlook, Hb. done.
    + symmetry in Hj. apply lookup_ge_None in Hj. rewrite length_seq in Hj.
      by rewrite (lookup_ge_None_2 (queued_tools s)) by lia.
  - unfold answers. fold rs. rewrite Forall_fmap. eapply Forall_impl; [exact Hall|].
    intros [i b] (q&_&c&e&Hb). cbn in *. by rewrite Hb.
Qed.

Section Write.
Context {T : Type} (intercept : ModelMessage → ModelMessage) (now : Z).

Lemma inject_messages (session : SessionManager T) nms :
  messages (foldl (inject_new_messages now) session nms) =
  messages session ++ (injected <$> concat nms).
Proof.
  revert session. induction nms as [|ms nms IH]; intros session; cbn [foldl concat].
  { by rewrite app_nil_r. }
  rewrite IH, fmap_app, (assoc_L (++)). f_equal. clear.
  unfold inject_new_messages. revert session.
  induction ms as [|m ms IH]; intros session; cbn [foldl]; [by rewrite app_nil_r|].
  rewrite IH. cbn. by rewrite <-(assoc_L (++)).
Qed.

(** What [write_reply] adds to the conversation. *)
Definition answer_messages (s : StreamState) : list ModelMessage :=
  if existsb is_tool_use (reply s)
  then [Build_ModelMessage RoleUser (merge_sort by_fst (pending_result_blocks s)).*2]
  else [].

Definition written (s : StreamState) : list ModelMessage :=
  if bool_decide (reply s = []) then []
  else intercept (Build_ModelMessage RoleAssistant (reply s)) ::
       answer_messages s ++ (injected <$> concat (pending_new_msgs s)).

Lemma write_reply_messages (session : SessionManager T) s :
  messages (write_reply intercept now session s) = messages session ++ written s.
Proof.
  unfold write_reply, written, answer_messages. case_bool_decide; [by rewrite app_nil_r|].
  rewrite inject_messages. destruct (existsb is_tool_use (reply s)); cbn.
  - by rewrite <-!(assoc_L (++)).
  - by rewrite <-!(assoc_L (++)).
Qed.

End Write.

Lemma existsb_tool_use bs : existsb is_tool_use bs = false ↔ omap tool_use_id_of bs = [].
Proof.
  induction bs as [|b bs IH]; [done|]. cbn [existsb omap list_omap].
  destruct b; cbn; try apply IH. done.
Qed.

Lemma injected_no_results m : tool_results (injected m) = [].
Proof. done. Qed.

Lemma no_results_paired prev ms :
  Forall (λ m, tool_results m = []) ms → well_paired_after prev ms.
Proof. intros H. revert prev. induction H; intros prev; [done|]. split; [by left|done]. Qed.

Lemma visible_no_results bs : Forall visible_block bs → omap tool_result_id_of bs = [].
Proof. induction 1 as [|b bs Hb _ IH]; [done|]. cbn [omap list_omap]. by destruct b. Qed.

(** The written messages are paired after anything. *)
Lemma written_paired intercept s prev :
  assembled [] s → batch s = [] → (∀ m, same_calls m (intercept m)) →
  well_paired_after prev (written intercept s).
Proof.
  intros Hs Hb Hi. unfold written. case_bool_decide as Hne; [done|].
  destruct (sorted_answers s Hs Hb) as [Hids Hall].
  destruct (Hi (Build_ModelMessage RoleAssistant (reply s))) as (Hrole&Huses&Hres&_).
  unfold tool_uses, tool_results in Huses, Hres. cbn [role content] in *.
  assert (Hinj : Forall (λ m, tool_results m = []) (injected <$> concat (pending_new_msgs s)))
    by (apply Forall_fmap, Forall_true; intros; apply injected_no_results).
  split.
  - left. unfold tool_results. rewrite <-Hres. apply visible_no_results. by destruct Hs.
  - unfold answer_messages. destruct (existsb is_tool_use (reply s)) eqn:Eu;
      [|by apply no_results_paired].
    split; [|by apply no_results_paired].
    assert (Hnil : omap tool_use_id_of (reply s) ≠ [])
      by (intros E; apply existsb_tool_use in E; congruence).
    right. cbn [role content]. split; [done|]. unfold tool_results, tool_uses.
    cbn [content]. rewrite Hids. split.
    + destruct (merge_sort by_fst (pending_result_blocks s)).*2 as [|b bs]; [done|].
      exists b. split; [done|]. by inversion Hall.
    + eexists. split; [done|]. split; [done|]. unfold tool_uses. by rewrite <-Huses.
Qed.

(** ** What was said *)

Section Spoken.
Context (render : value → str) (run_tool : str → str → value → ToolOutcome)
  (is_concurrency_safe : str → value → bool) (provenance : option str) (sched : Schedule).

(** The events that count: those before a cancellation or an error. *)
Fixpoint events_of (items : list (bool * result ModelEvent str)) : list ModelEvent :=
  match items with
  | (false, Ok e) :: items => e :: events_of items
  | _ => []
  end.

Definition delta (e : ModelEvent) : str := match e with TextDelta t => t | _ => [] end.

Definition call_of (e : ModelEvent) : option str :=
  match e with ToolUseEvent id _ _ => Some id | _ => None end.

Definition said (s : StreamState) : str := texts_of (reply s) ++ pending_text s.

Lemma drain_reply s : reply (drain_batch sched s) = reply s ∧
  pending_text (drain_batch sched s) = pending_text s.
Proof. by destruct (drain_batch_spec sched s) as (os&_&_&(_&_&_&_&?&?&_)&_). Qed.

Lemma closed_said th t r sig :
  texts_of (close_thinking provenance th r sig).2 = texts_of r ∧
  texts_of (close_text t r).2 = texts_of r ++ t ∧
  omap tool_use_id_of (close_thinking provenance th r sig).2 = omap tool_use_id_of r ∧
  omap tool_use_id_of (close_text t r).2 = omap tool_use_id_of r.
Proof.
  destruct (close_thinking_spec provenance th r sig) as (_&m&->&_&Hu&Ht).
  destruct (close_text_spec t r) as (_&m'&->&_&Hu'&Ht').
  rewrite !texts_of_app, !omap_app, Hu, Hu', Ht, Ht', !app_nil_r. done.
Qed.

Lemma on_event_said s e :
  said (on_event render run_tool is_concurrency_safe provenance sched s e) = said s ++ delta e ∧
  omap tool_use_id_of (reply (on_event render run_tool is_concurrency_safe provenance sched s e)) =
    omap tool_use_id_of (reply s) ++ from_option (λ id, [id]) [] (call_of e).
Proof.
  unfold said. destruct e; cbn [on_event delta call_of from_option]; rewrite ?app_nil_r; try done.
  - destruct (closed_said (pending_thinking s) [] (reply s) None) as (H1&_&H3&_).
    destruct (close_thinking _ _ _ _) as [th r]. cbn [fst snd set_reply reply pending_text] in *.
    by rewrite H1, H3, (assoc_L (++)).
  - destruct (closed_said [] (pending_text s) (reply s) None) as (_&H2&_&H4).
    destruct (close_text_spec (pending_text s) (reply s)) as [Ht _].
    destruct (close_text _ _) as [t r]. cbn [fst snd set_reply reply pending_text] in *.
    by rewrite H2, H4, Ht, app_nil_r.
  - destruct (closed_said (pending_thinking s) [] (reply s) (Some signature)) as (H1&_&H3&_).
    destruct (close_thinking _ _ _ _) as [th r]. cbn [fst snd set_reply reply pending_text] in *.
    by rewrite H1, H3.
  - destruct (closed_said [] (pending_text s) (reply s) None) as (_&H2&_&H4).
    destruct (close_text_spec (pending_text s) (reply s)) as [Ht _].
    destruct (close_text _ _) as [t r1]. cbn [fst snd] in H2, H4, Ht. subst t.
    destruct (closed_said (pending_thinking s) [] r1 None) as (H1&_&H3&_).
    destruct (close_thinking _ _ _ _) as [th r]. cbn [fst snd set_reply reply pending_text] in *.
    rewrite texts_of_app, omap_app, H1, H2, H3, H4. cbn. by rewrite !app_nil_r.
  - unfold on_tool_use.
    destruct (closed_said (pending_thinking s) [] (reply s) None) as (H1&_&H3&_).
    destruct (close_thinking _ _ _ _) as [th r1]. cbn [fst snd] in H1, H3.
    destruct (closed_said [] (pending_text s) r1 None) as (_&H2&_&H4).
    destruct (close_text_spec (pending_text s) r1) as [Ht _].
    destruct (close_text _ _) as [t r]. cbn [fst snd] in H2, H4, Ht. subst t.
    assert (Hgoal : texts_of (r ++ [ToolUse id name input]) ++ [] = texts_of (reply s) ++ pending_text s ∧
              omap tool_use_id_of (r ++ [ToolUse id name input]) =
                omap tool_use_id_of (reply s) ++ [id]).
    { rewrite texts_of_app, omap_app, H2, H4, H1, H3. cbn. by rewrite !app_nil_r. }
    case_bool_decide; [done|]. destruct (is_concurrency_safe name input); [done|].
    cbn [count_call reply pending_text]. unfold answer_now.
    destruct (read_outcome _) as [[c nm] f]. cbn [reply pending_text].
    by rewrite !(proj1 (drain_reply _)), !(proj2 (drain_reply _)).
Qed.

Lemma consume_said s items :
  said (consume render run_tool is_concurrency_safe provenance sched s items).1 =
    said s ++ (events_of items ≫= delta) ∧
  omap tool_use_id_of (reply (consume render run_tool is_concurrency_safe provenance sched s items).1)
    = omap tool_use_id_of (reply s) ++ omap call_of (events_of items).
Proof.
  revert s. induction items as [|[[] [e|err]] items IH]; intros s; cbn [consume events_of].
  1,2,3,5: by rewrite !app_nil_r.
  destruct (IH (on_event render run_tool is_concurrency_safe provenance sched s e)) as [-> ->].
  destruct (on_event_said s e) as [-> ->]. rewrite bind_cons, <-!(assoc_L (++)). split; [done|].
  f_equal. cbn [omap list_omap]. by destruct (call_of e).
Qed.

Lemma finish_said s :
  texts_of (reply (finish provenance sched s)) = said s ∧
  omap tool_use_id_of (reply (finish provenance sched s)) = omap tool_use_id_of (reply s).
Proof.
  unfold finish, said.
  destruct (closed_said (pending_thinking s) [] (reply s) None) as (H1&_&H3&_).
  destruct (close_thinking _ _ _ _) as [th r1]. cbn [fst snd] in H1, H3.
  destruct (closed_said [] (pending_text s) r1 None) as (_&H2&_&H4).
  destruct (close_text _ _) as [t r]. cbn [fst snd] in H2, H4.
  rewrite !(proj1 (drain_reply _)). cbn [set_reply reply]. by rewrite H2, H4, H1, H3.
Qed.

End Spoken.

(** ** Before the next request *)

Definition calls_tools (m : ModelMessage) : bool :=
  bool_decide (role m = RoleAssistant) && negb (bool_decide (tool_uses m = [])).

Fixpoint all_answered (ms : list ModelMessage) : Prop :=
  match ms with
  | [] => True
  | m :: rest =>
      (calls_tools m = true →
       ∃ n, head rest = Some n ∧ role n = RoleUser ∧ tool_uses m ⊆ tool_results n) ∧
      all_answered rest
  end.

Lemma calls_tools_spec m :
  calls_tools m = true ↔ role m = RoleAssistant ∧ tool_uses m ≠ [].
Proof.
  unfold calls_tools. rewrite andb_true_iff, negb_true_iff, bool_decide_eq_true.
  by rewrite bool_decide_eq_false.
Qed.

(** The message after [m], with the results [m] still misses. *)
Definition completing (m n : ModelMessage) : ModelMessage :=
  let missing := missing_result <$> filter (λ id, id ∉ tool_results n) (tool_uses m) in
  if bool_decide (missing = []) then n else Build_ModelMessage (role n) (missing ++ content n).

Lemma two_steps {A} (P : list A → Prop) :
  P [] → (∀ x, P [x]) → (∀ x y l, P l → P (y :: l) → P (x :: y :: l)) → ∀ l, P l.
Proof.
  intros H0 H1 H2 l. enough (P l ∧ ∀ x, P (x :: l)) by naive_solver.
  induction l as [|y l [IH1 IH2]]; split; auto.
Qed.

Lemma pair_silent m rest : calls_tools m = false →
  pair_dangling_tool_uses (m :: rest) = m :: pair_dangling_tool_uses rest.
Proof. unfold calls_tools. intros H. cbn [pair_dangling_tool_uses]. by rewrite H. Qed.

Lemma pair_answering m n rest : calls_tools m = true → role n = RoleUser →
  pair_dangling_tool_uses (m :: n :: rest) =
  m :: completing m n :: pair_dangling_tool_uses rest.
Proof.
  unfold calls_tools. intros H Hn. cbn [pair_dangling_tool_uses].
  rewrite H, bool_decide_true by done. done.
Qed.

Lemma filter_none {A} (P : A → Prop) `{∀ x, Decision (P x)} (l : list A) :
  (∀ x, x ∈ l → ¬ P x) → filter P l = [].
Proof.
  induction l as [|x l IH]; intros HP; [done|].
  rewrite filter_cons_False by (apply HP; left). apply IH. intros y Hy. apply HP. by right.
Qed.

Lemma pair_dangling m rest : calls_tools m = true →
  match rest with n :: _ => role n ≠ RoleUser | [] => True end →
  pair_dangling_tool_uses (m :: rest) =
  m :: Build_ModelMessage RoleUser (missing_result <$> tool_uses m) ::
    pair_dangling_tool_uses rest.
Proof.
  intros H Hrest. assert (Huses : tool_uses m ≠ []).
  { by apply calls_tools_spec in H as [_ ?]. }
  assert (Hmiss : filter (λ id, id ∉ ([] : list str)) (tool_uses m) = tool_uses m)
    by (apply list_filter_all, Forall_true; intros id; apply not_elem_of_nil).
  unfold calls_tools in H. cbn [pair_dangling_tool_uses]. rewrite H.
  destruct rest as [|n rest]; [|rewrite (bool_decide_false (role n = RoleUser)) by done];
    rewrite Hmiss, bool_decide_false; try done; by destruct (tool_uses m).
Qed.

Lemma missing_ids (ids : list str) : omap tool_result_id_of (missing_result <$> ids) = ids.
Proof. induction ids as [|id ids IH]; [done|]. cbn. by f_equal. Qed.

Lemma missing_uses (ids : list str) : omap tool_use_id_of (missing_result <$> ids) = [].
Proof. induction ids as [|id ids IH]; [done|]. cbn. done. Qed.

Lemma completing_spec m n : role n = RoleUser →
  role (completing m n) = RoleUser ∧ tool_uses (completing m n) = tool_uses n ∧
  tool_results (completing m n) =
    filter (λ id, id ∉ tool_results n) (tool_uses m) ++ tool_results n ∧
  tool_uses m ⊆ tool_results (completing m n) ∧
  content n `sublist_of` content (completing m n).
Proof.
  intros Hn. unfold completing.
  set (ids := filter _ (tool_uses m)).
  assert (Hcov : tool_uses m ⊆ ids ++ tool_results n).
  { intros id Hid. apply elem_of_app. destruct (decide (id ∈ tool_results n)); [by right|].
    left. by apply list_elem_of_filter. }
  case_bool_decide as E.
  - apply fmap_nil_inv in E. rewrite E in Hcov |- *. by split_and!.
  - unfold tool_uses, tool_results. cbn [role content]. rewrite !omap_app, missing_ids, missing_uses.
    split_and!; try done. by apply sublist_inserts_l.
Qed.

Lemma all_answered_cons_silent m rest :
  calls_tools m = false → all_answered rest → all_answered (m :: rest).
Proof. intros Hm Hr. split; [|done]. congruence. Qed.

Lemma user_is_silent m : role m = RoleUser → calls_tools m = false.
Proof. intros H. unfold calls_tools. by rewrite bool_decide_false by congruence. Qed.

Lemma all_answered_same ms ns : Forall2 same_calls ms ns → all_answered ms → all_answered ns.
Proof.
  induction 1 as [|m n ms ns Hm Hms IH]; [done|]. cbn [all_answered]. intros [Ha Hr]. split; [|auto].
  destruct Hm as (Hrole & Hu & _). rewrite calls_tools_spec, <-Hrole, <-Hu, <-calls_tools_spec.
  intros Hc. destruct (Ha Hc) as (x & Hx & Hr' & Hsub). destruct Hms as [|y z ms ns Hyz Hms]; [done|].
  cbn in Hx. injection Hx as ->. destruct Hyz as (E1 & _ & E2 & _). exists z. split; [done|].
  by rewrite <-E1, <-E2.
Qed.

Lemma pair_all_answered ms : all_answered (pair_dangling_tool_uses ms).
Proof.
  assert (Hsub : ∀ m : ModelMessage, tool_uses m ⊆
            tool_results (Build_ModelMessage RoleUser (missing_result <$> tool_uses m))).
  { intros m. unfold tool_results. cbn [content]. by rewrite missing_ids. }
  induction ms as [|m|m n ms IH IH'] using two_steps; [done|..].
  - destruct (calls_tools m) eqn:Hm; [rewrite pair_dangling|rewrite pair_silent]; try done.
    + split; [intros _; by eexists|]. by apply all_answered_cons_silent.
    + by apply all_answered_cons_silent.
  - destruct (calls_tools m) eqn:Hm.
    + destruct (decide (role n = RoleUser)) as [Hn|Hn].
      * rewrite pair_answering by done. destruct (completing_spec m n Hn) as (Hr&_&_&Hc&_).
        split; [intros _; by eexists|]. apply all_answered_cons_silent; [|done].
        by apply user_is_silent.
      * rewrite pair_dangling by done. split; [intros _; by eexists|].
        by apply all_answered_cons_silent.
    + rewrite pair_silent by done. by apply all_answered_cons_silent.
Qed.

Lemma pair_answered_id ms : all_answered ms → pair_dangling_tool_uses ms = ms.
Proof.
  induction ms as [|m|m n ms IH IH'] using two_steps; [done|..].
  - intros [Hm _]. destruct (calls_tools m) eqn:Hc; [|by rewrite pair_silent].
    by destruct (Hm eq_refl) as (n&?&_).
  - intros [Hm Hrest]. destruct (calls_tools m) eqn:Hc.
    + destruct (Hm eq_refl) as (n'&[= <-]&Hn&Hsub). rewrite pair_answering by done.
      f_equal. rewrite IH by apply Hrest. f_equal. unfold completing.
      rewrite bool_decide_true; [done|].
      replace (filter _ (tool_uses m)) with ([] : list str); [done|]. symmetry.
      apply filter_none. intros id Hid Hnot. by apply Hnot, Hsub.
    + rewrite pair_silent by done. f_equal. by apply IH'.
Qed.

Lemma pair_sublist ms :
  (ms ≫= content) `sublist_of` (pair_dangling_tool_uses ms ≫= content).
Proof.
  induction ms as [|m|m n ms IH IH'] using two_steps; [done|..].
  - destruct (calls_tools m) eqn:Hm; [rewrite pair_dangling|rewrite pair_silent]; try done.
    rewrite !bind_cons. by apply sublist_app, sublist_nil_l.
  - rewrite (bind_cons _ m). destruct (calls_tools m) eqn:Hm.
    + destruct (decide (role n = RoleUser)) as [Hn|Hn].
      * rewrite pair_answering by done. rewrite !bind_cons.
        apply sublist_app; [done|]. by apply sublist_app; [apply completing_spec|].
      * rewrite pair_dangling by done. rewrite (bind_cons _ m).
        apply sublist_app; [done|]. rewrite (bind_cons _ (Build_ModelMessage _ _)).
        by apply sublist_inserts_l.
    + rewrite pair_silent by done. rewrite (bind_cons _ m). by apply sublist_app.
Qed.

Lemma after_user n rest :
  role n = RoleUser → well_paired_after (Some n) rest → can_start rest.
Proof.
  intros Hn. destruct rest as [|o rest]; [done|]. intros [[Ho|(_&_&p&[= <-]&Hp&_)] _]; [done|].
  congruence.
Qed.

Lemma completing_answered m n :
  calls_tools m = true → role n = RoleUser → answered (Some m) n →
  answered (Some m) (completing m n).
Proof.
  intros Hm Hn Ha. unfold completing. case_bool_decide as E; [done|]. right.
  set (ids := filter _ (tool_uses m)) in *. cbn [role content]. split; [done|]. split.
  - destruct ids; [done|]. by eexists.
  - exists m. apply calls_tools_spec in Hm as [Hr _]. split; [done|]. split; [done|].
    unfold tool_results. cbn [content]. rewrite omap_app, missing_ids. fold (tool_results n).
    intros id [Hid|Hid]%elem_of_app; [by apply list_elem_of_filter in Hid as [_ ?]|].
    destruct Ha as [Hno|(_&_&p&[= <-]&_&Hsub)]; [|by apply Hsub].
    rewrite Hno in Hid. by apply not_elem_of_nil in Hid.
Qed.

Lemma missing_answered m : calls_tools m = true →
  answered (Some m) (Build_ModelMessage RoleUser (missing_result <$> tool_uses m)).
Proof.
  intros [Hrole Hnil]%calls_tools_spec. right.
  unfold tool_results. cbn [role content]. rewrite missing_ids. split; [done|]. split.
  - destruct (tool_uses m); [done|]. by eexists.
  - by exists m.
Qed.

Lemma pair_paired prev ms :
  well_paired_after prev ms → well_paired_after prev (pair_dangling_tool_uses ms).
Proof.
  revert prev. induction ms as [|m|m n ms IH IH'] using two_steps; [done|..]; intros prev.
  - intros [Hm _]. destruct (calls_tools m) eqn:Hc; [rewrite pair_dangling|rewrite pair_silent];
      try done. split; [done|]. by split; [apply missing_answered|].
  - intros [Hm Hrest]. destruct (calls_tools m) eqn:Hc.
    + destruct (decide (role n = RoleUser)) as [Hn|Hn].
      * rewrite pair_answering by done. destruct Hrest as [Ha Hrest].
        split; [done|]. split; [by apply completing_answered|]. apply IH.
        by eapply well_paired_start, Hrest; eapply after_user.
      * rewrite pair_dangling by done. split; [done|]. split; [by apply missing_answered|].
        eapply IH', well_paired_start; [|done].
        destruct Hrest as [[Hno|(Hu&_)] _]; [exact Hno|congruence].
    + rewrite pair_silent by done. split; [done|]. by apply IH'.
Qed.

(** The images of tool results join the message that answers the calls. *)
Lemma map_first_length {A} p (f : A → A) l : length (map_first p f l) = length l.
Proof. induction l as [|x l IH]; [done|]. cbn. destruct (p x); cbn; congruence. Qed.

Lemma push_images_calls images m :
  answers_tools m = true → same_calls m (push_images images m).
Proof.
  intros Hm. unfold same_calls, tool_uses, tool_results, push_images. cbn [role content].
  rewrite !omap_app.
  assert (∀ (g : ModelContentBlock → option str), (∀ t d, g (Image t d) = None) →
    omap g ((λ i, Image (image_media_type i) (image_data i)) <$> images) = []) as Hg.
  { intros g Hg. induction images as [|i xs IH]; [done|]. cbn. by rewrite Hg. }
  rewrite !Hg, !app_nil_r by done. split_and!; try done.
  unfold answers_tools in Hm. apply andb_true_iff in Hm as [_ Hm].
  by destruct (content m).
Qed.

Lemma map_first_calls images ms :
  Forall2 same_calls ms (map_first answers_tools (push_images images) ms).
Proof.
  induction ms as [|m ms IH]; [constructor|]. cbn. destruct (answers_tools m) eqn:Hm.
  - constructor; [by apply push_images_calls|reflexivity].
  - by constructor.
Qed.

Lemma attach_calls images ms : Forall2 same_calls ms (attach_tool_result_images ms images).
Proof.
  unfold attach_tool_result_images. rewrite <-(reverse_involutive ms) at 1.
  apply Forall2_reverse, map_first_calls.
Qed.

(** ** Any order of completion *)

Section AnyOrder.
Context (render : value → str) (run_tool : str → str → value → ToolOutcome)
  (is_concurrency_safe : str → value → bool) (provenance : option str).
Hypothesis runs : ∀ id name input, is_ok (run_tool id name input) = true.

(** Two readings of the same reply, up to the order in which its calls
    completed. *)
Record alike (s s' : StreamState) : Prop := {
  al_same : same_reply s s';
  al_batch : batch s' = batch s;
  al_running : batch_aborted s = false ∧ batch_aborted s' = false;
  al_ok : Forall (λ c, is_ok (own_outcome c) = true) (batch s);
  al_results : pending_result_blocks s' ≡ₚ pending_result_blocks s;
  al_new : pending_new_msgs s' ≡ₚ pending_new_msgs s;
}.

Lemma drain_alike sched sched' s s' :
  alike s s' → alike (drain_batch sched s) (drain_batch sched' s').
Proof.
  intros [Hs Hb [Ha Ha'] Hok Hr Hn].
  destruct (drain_batch_spec sched s) as (os&Hos&Hempty&Hsame&Hres&Hnew&Hown).
  destruct (drain_batch_spec sched' s') as (os'&Hos'&Hempty'&Hsame'&Hres'&Hnew'&Hown').
  rewrite Hb in Hos', Hown'. destruct (Hown Ha Hok) as [Hab Hf].
  destruct (Hown' Ha' Hok) as [Hab' Hf'].
  assert (Hrun : ∀ ps : list (InFlight * ToolOutcome),
            Forall (λ co, co.2 = own_outcome co.1) ps →
            ps = (λ c, (c, own_outcome c)) <$> ps.*1).
  { intros ps. induction 1 as [|[c o] ps Hp _ IH]; [done|]. cbn in *. by rewrite Hp, <-IH. }
  assert (Hperm : os' ≡ₚ os).
  { rewrite (Hrun os), (Hrun os') by done. by rewrite Hos, Hos'. }
  split.
  - etrans; [symmetry; exact Hsame|]. etrans; [exact Hs|exact Hsame'].
  - by rewrite Hempty, Hempty'.
  - by split.
  - rewrite Hempty. constructor.
  - by rewrite Hres, Hres', Hr, Hperm.
  - by rewrite Hnew, Hnew', Hn, Hperm.
Qed.

Ltac solve_same_reply := unfold same_reply; cbn; by split_and!.

Lemma start_alike : alike start start.
Proof. by split. Qed.

Lemma answer_now_alike s s' i id name input :
  alike s s' →
  alike (answer_now s i id (run_tool id name input)) (answer_now s' i id (run_tool id name input)).
Proof.
  intros [Hs Hb Ha Hok Hr Hn]. unfold answer_now. destruct (read_outcome _) as [[c nm] f].
  destruct Hs as (?&?&?&?&?&?&?&?&?). split; cbn.
  1: solve_same_reply. 1-3: by constructor.
  - by rewrite Hr.
  - by rewrite Hn.
Qed.

Lemma count_call_alike s s' : alike s s' → alike (count_call s) (count_call s').
Proof.
  intros [(?&?&?&Hc&?&?&?&?&?) Hb Ha Hok Hr Hn]. split; cbn; try done.
  unfold same_reply. cbn. rewrite Hc. by split_and!.
Qed.

Lemma on_event_alike sched sched' s s' e :
  alike s s' →
  alike (on_event render run_tool is_concurrency_safe provenance sched s e)
        (on_event render run_tool is_concurrency_safe provenance sched' s' e).
Proof.
  intros Hs. assert (Hs0 := Hs). destruct Hs0 as [(H1&H2&H3&H4&H5&H6&H7&H8&H9) Hb [Ha Ha'] Hok Hr Hn].
  destruct e; cbn [on_event]; try done; rewrite ?H5, ?H6, ?H7.
  - destruct (close_thinking _ _ _ _) as [th r]. split; cbn; try done; solve_same_reply.
  - destruct (close_text _ _) as [t r]. split; cbn; try done; solve_same_reply.
  - destruct (close_thinking _ _ _ _) as [th r]. split; cbn; try done; solve_same_reply.
  - destruct (close_text _ _) as [t r1]. destruct (close_thinking _ _ _ _) as [th r].
    split; cbn; try done; solve_same_reply.
  - unfold on_tool_use. rewrite ?H5, ?H6, ?H7, H8, H9.
    destruct (close_thinking _ _ _ _) as [th r1]. destruct (close_text _ _) as [t r].
    set (s1 := Build_StreamState (stop_reason s) _ _ _ _ _ _ _ _ _ _ _ _ _).
    set (s1' := Build_StreamState (stop_reason s') _ _ _ _ _ _ _ _ _ _ _ _ _).
    assert (Halike : alike s1 s1') by (split; cbn; try done; solve_same_reply).
    case_bool_decide; [|destruct (is_concurrency_safe name input)].
    + generalize (result_block id DUPLICATE false). intros b.
      split; cbn; try done. by rewrite Hr.
    + apply count_call_alike. split; cbn; try done; [by rewrite Hb|].
      apply Forall_app. split; [done|]. by repeat constructor; cbn.
    + by apply count_call_alike, answer_now_alike, drain_alike.
Qed.

Lemma consume_alike sched sched' s s' items :
  Forall (λ ci, is_ok ci.2 = true) items → alike s s' →
  alike (consume render run_tool is_concurrency_safe provenance sched s items).1
        (consume render run_tool is_concurrency_safe provenance sched' s' items).1 ∧
  (consume render run_tool is_concurrency_safe provenance sched s items).2 = None ∧
  (consume render run_tool is_concurrency_safe provenance sched' s' items).2 = None.
Proof.
  intros Hi. revert s s'. induction Hi as [|[[] [e|err]] items Hc _ IH]; intros s s' Hs;
    cbn [consume]; try done.
  apply IH. by apply on_event_alike.
Qed.

Lemma finish_alike sched sched' s s' :
  alike s s' → alike (finish provenance sched s) (finish provenance sched' s').
Proof.
  intros [(H1&H2&H3&H4&H5&H6&H7&H8&H9) Hb [Ha Ha'] Hok Hr Hn]. unfold finish.
  rewrite H5, H6, H7.
  destruct (close_thinking _ _ _ _) as [th r1]. destruct (close_text _ _) as [t r].
  apply drain_alike. split; cbn; try done; solve_same_reply.
Qed.

End AnyOrder.

(** ** The reply *)

Section Result.
Context (render : value → str) (run_tool : str → str → value → ToolOutcome)
  (is_concurrency_safe : str → value → bool) (provenance : option str)
  {T : Type} (intercept : ModelMessage → ModelMessage) (now : Z).
#[local] Abbreviation run_stream sched :=
  (execute_stream render run_tool is_concurrency_safe provenance sched (T:=T) intercept now).
#[local] Abbreviation final sched items :=
  (finish provenance sched
     (consume render run_tool is_concurrency_safe provenance sched start items).1).

Lemma execute_stream_messages sched session items :
  messages (run_stream sched session items).1 =
    messages session ++ written intercept (final sched items).
Proof.
  unfold execute_stream. destruct (consume _ _ _ _ _ start items) as [s err]. cbn [fst].
  apply write_reply_messages.
Qed.

Lemma final_assembled sched items :
  assembled [] (final sched items) ∧ batch (final sched items) = [].
Proof. apply finish_assembled, consume_assembled, start_assembled. Qed.

Lemma final_said sched items :
  texts_of (reply (final sched items)) = events_of items ≫= delta ∧
  omap tool_use_id_of (reply (final sched items)) = omap call_of (events_of items).
Proof.
  destruct (finish_said provenance sched
    (consume render run_tool is_concurrency_safe provenance sched start items).1) as [-> ->].
  by destruct (consume_said render run_tool is_concurrency_safe provenance sched start items)
    as [-> ->].
Qed.

(** What one reply adds to the conversation, whatever order its tool calls
    complete in and however the stream ends: nothing when nothing was said;
    otherwise one assistant message whose text is the stream's text and whose
    calls are the stream's calls in their order, with no empty block, then,
    when it called tools, one user message holding exactly one result per
    call, in the order of the calls, then the messages the tools injected. *)
Theorem reply_is_answered sched session items :
  let events := events_of items in
  let calls := omap call_of events in
  ∃ new, messages (run_stream sched session items).1 = messages session ++ new ∧
    ((new = [] ∧ calls = [] ∧ events ≫= delta = []) ∨
     ∃ blocks answers injections,
       new = intercept (Build_ModelMessage RoleAssistant blocks) :: answers ++
               (injected <$> injections) ∧
       blocks ≠ [] ∧ Forall visible_block blocks ∧
       texts_of blocks = events ≫= delta ∧ omap tool_use_id_of blocks = calls ∧
       (calls = [] → answers = []) ∧
       (calls ≠ [] → ∃ results, answers = [Build_ModelMessage RoleUser results] ∧
          omap tool_result_id_of results = calls ∧
          Forall (λ b, is_tool_result b = true) results)).
Proof.
  intros events calls. exists (written intercept (final sched items)).
  split; [apply execute_stream_messages|].
  destruct (final_assembled sched items) as [Ha Hb].
  destruct (final_said sched items) as [Ht Hu].
  destruct (sorted_answers _ Ha Hb) as [Hids Hall].
  fold events in Ht, Hu. fold calls in Hu. set (s := final sched items) in *.
  unfold written. case_bool_decide as Hne.
  { left. rewrite <-Ht, <-Hu, Hne. done. }
  right. exists (reply s), (answer_messages s), (concat (pending_new_msgs s)).
  split_and!; try done; [by destruct Ha|..]; rewrite <-Hu; intros Hc; unfold answer_messages.
  - apply existsb_tool_use in Hc. by rewrite Hc.
  - destruct (existsb is_tool_use (reply s)) eqn:E; [|by apply existsb_tool_use in E].
    eexists. split; [done|]. by split.
Qed.

(** One reply keeps the conversation well paired: every result in it still
    answers a call of the assistant message right before, through errors,
    cancellation, duplicate calls and any order of completion. *)
Theorem reply_keeps_pairing sched session items :
  (∀ m, same_calls m (intercept m)) → well_paired (messages session) →
  well_paired (messages (run_stream sched session items).1).
Proof.
  intros Hi Hw. rewrite execute_stream_messages. apply well_paired_app. split; [done|].
  destruct (final_assembled sched items) as [Ha Hb]. by apply written_paired.
Qed.

(** C29. When the stream of a reply does not break and every call returns an
    answer - a failure it reports itself included, an error not: that cancels
    the calls beside it - the order in which concurrent calls complete is not
    observable in the reply, its results or the outcome: only the order of the
    messages they inject depends on it. *)
Theorem completion_order_is_hidden sched sched' session items :
  (∀ id name input, is_ok (run_tool id name input) = true) →
  Forall (λ ci, is_ok ci.2 = true) items →
  (run_stream sched session items).2 = (run_stream sched' session items).2 ∧
  ∃ new injections injections',
    messages (run_stream sched session items).1 =
      messages session ++ new ++ (injected <$> concat injections) ∧
    messages (run_stream sched' session items).1 =
      messages session ++ new ++ (injected <$> concat injections') ∧
    injections ≡ₚ injections'.
Proof.
  intros Hruns Hitems.
  destruct (consume_alike render run_tool is_concurrency_safe provenance Hruns sched sched'
              start start items Hitems start_alike) as (Hal&Hn&Hn').
  apply (finish_alike provenance sched sched') in Hal.
  destruct (final_assembled sched items) as [Ha Hb].
  rewrite !execute_stream_messages. unfold execute_stream.
  destruct (consume _ _ _ _ sched start items) as [s e].
  destruct (consume _ _ _ _ sched' start items) as [s' e'].
  cbn [fst snd] in *. subst e e'.
  destruct Hal as [(H1&H2&H3&H4&H5&_) _ _ _ Hr Hnm].
  split; [by rewrite H1, H2, H3, H4|]. unfold written, answer_messages. rewrite H5.
  case_bool_decide; [by exists [], [], []|].
  assert (Hnd : NoDup (pending_result_blocks (finish provenance sched s)).*1).
  { destruct Ha as [_ Hi _ _ _ _]. rewrite Hb, fmap_nil, !app_nil_r in Hi. rewrite Hi.
    apply NoDup_seq. }
  rewrite (sorted_unique _ _ Hnd Hr).
  eexists (_ :: _), _, _. split; [reflexivity|]. split; [reflexivity|]. by symmetry.
Qed.

End Result.

(** Before each request every call of an assistant message has its result
    in the message after it: what is missing is added, nothing is removed or
    reordered, a conversation that answers all its calls is sent as it is, and
    neither this nor attaching a tool's images unpairs the conversation. *)
Theorem requests_are_answered ms images :
  let sent := pair_dangling_tool_uses ms in
  all_answered sent ∧ (ms ≫= content) `sublist_of` (sent ≫= content) ∧
  (all_answered ms → sent = ms) ∧
  (well_paired ms → well_paired sent ∧ well_paired (attach_tool_result_images ms images)).
Proof.
  intros sent. split_and!.
  - apply pair_all_answered.
  - apply pair_sublist.
  - apply pair_answered_id.
  - intros Hw. split; [by apply pair_paired|].
    eapply well_paired_same; [|apply attach_calls|exact Hw]. done.
Qed.

(** ** Examples *)

Definition sample_run (id name : str) (input : value) : ToolOutcome :=
  Ok (Build_ToolAnswer (lit "ran " ++ id)
        (Some [VObject [(lit "content", VString (lit "note of " ++ id))]]) false).

Definition sample_items : list (bool * result ModelEvent str) :=
  (λ e, (false, Ok e)) <$>
    [ThinkingDelta (lit "hm"); TextDelta (lit "let me "); TextDelta (lit "look");
     ToolUseEvent (lit "a") (lit "Read") VNull; ToolUseEvent (lit "b") (lit "Grep") VNull;
     ToolUseEvent (lit "c") (lit "Read") VNull; EndTurn (lit "tool_use") (Build_Usage 1 2 3 4)].

Definition oldest_first : Schedule := λ _ _, (0, true).
Definition newest_first : Schedule := λ _ idxs, (length idxs - 1, true).

Definition sample_name (_ : value) : str := lit "null".

Definition sample_reply (sched : Schedule) : SessionManager unit * result StreamResult str :=
  execute_stream sample_name sample_run (λ _ _, true) None sched id 0%Z
    (in_memory (lit "s") None) sample_items.

Example sample_reply_messages :
  messages (sample_reply oldest_first).1 =
  [ Build_ModelMessage RoleAssistant
      [Thinking (lit "hm") None None; Text (lit "let me look");
       ToolUse (lit "a") (lit "Read") VNull; ToolUse (lit "b") (lit "Grep") VNull;
       ToolUse (lit "c") (lit "Read") VNull];
    Build_ModelMessage RoleUser
      [ToolResult (lit "a") (lit "ran a") (Some false);
       ToolResult (lit "b") (lit "ran b") (Some false);
       ToolResult (lit "c") DUPLICATE (Some false)];
    Build_ModelMessage RoleUser [Text (lit "note of a")];
    Build_ModelMessage RoleUser [Text (lit "note of b")] ].
Proof. by vm_compute. Qed.

(** Messages injected by concurrent tools are written in the order the tools
    complete, so two runs of one reply can leave different conversations. *)
Lemma injections_in_completion_order :
  messages (sample_reply oldest_first).1 ≠ messages (sample_reply newest_first).1 ∧
  take 2 (messages (sample_reply oldest_first).1) =
    take 2 (messages (sample_reply newest_first).1).
Proof.
  split; [|by vm_compute].
  intros E. apply (f_equal (λ ms, content <$> ms !! 2)) in E. by vm_compute in E.
Qed.

Lemma reply_keeps_pairing_witness :
  well_paired (messages (sample_reply newest_first).1).
Proof. apply reply_keeps_pairing; [done|by vm_compute]. Defined.

Lemma completion_order_is_hidden_witness :
  (sample_reply oldest_first).2 = (sample_reply newest_first).2.
Proof.
  refine (proj1 (completion_order_is_hidden sample_name sample_run (λ _ _, true) None id 0%Z
    oldest_first newest_first (in_memory (T:=unit) (lit "s") None) sample_items _ _)).
  - done.
  - by repeat constructor.
Defined.

Definition dangling : list ModelMessage :=
  [ Build_ModelMessage RoleUser [Text (lit "hi")];
    Build_ModelMessage RoleAssistant
      [ToolUse (lit "a") (lit "Read") VNull; ToolUse (lit "b") (lit "Read") VNull];
    Build_ModelMessage RoleUser [ToolResult (lit "b") (lit "ok") None];
    Build_ModelMessage RoleAssistant [ToolUse (lit "c") (lit "Read") VNull] ].

Lemma requests_are_answered_witness :
  pair_dangling_tool_uses dangling ≠ dangling ∧
  well_paired (pair_dangling_tool_uses dangling).
Proof.
  split; [intros E; apply (f_equal length) in E; by vm_compute in E|].
  apply (requests_are_answered dangling []).
  repeat split; try by left. right. split; [done|]. split; [by eexists|].
  eexists. split; [done|]. split; [done|]. intros id. cbn. set_solver.
Defined.
