(* ===== verification/Tasks.v ===== *)
(** * Task lists ([crates/tools/src/tasks.rs], [todo_write.rs])

    The tools a model keeps its work in: a list of tasks per session behind
    TaskCreate, TaskGet, TaskList, TaskUpdate and TaskStop, and the todo list
    TodoWrite replaces.  Every call runs under one lock of the process, so the
    lists' history is a list of calls.

    Reading a call's input from JSON is the parameters [decode_*], printing a
    task the parameter [to_string_pretty]; the clock is an argument. *)

From stdpp Require Import base option numbers gmap strings pretty list.
From S2P Require Import Prelude RustStr PermTypes Gate.

#[local] Open Scope result_scope.

(** ** Tasks *)

Inductive TaskStatus := Pending | InProgress | Completed | Cancelled | Deleted.

#[export] Instance TaskStatus_eq_dec : EqDecision TaskStatus.
Proof. solve_decision. Defined.

(** [{:?}]. *)
Definition status_debug (s : TaskStatus) : str :=
  match s with
  | Pending => "Pending" | InProgress => "InProgress" | Completed => "Completed"
  | Cancelled => "Cancelled" | Deleted => "Deleted"
  end.

Definition is_terminal (s : TaskStatus) : bool :=
  match s with Completed | Cancelled | Deleted => true | _ => false end.

Record TaskEntry := {
  id : str;
  subject : str;
  description : str;
  active_form : option str;
  status : TaskStatus;
  owner : option str;
  blocks : list str;
  blocked_by : list str;
  metadata : option (list (str * value));
  created_at : Z;
  updated_at : Z;
}.

(** ** Identifiers *)

Definition b36_digit (d : N) : char := if bool_decide (d < 10)%N then (48 + d)%N else (87 + d)%N.

(** The loop of [b36], which pushes the lowest digit first. *)
Fixpoint b36_loop (fuel : nat) (x : N) : str :=
  match fuel with
  | 0 => []
  | S fuel => if decide (x = 0%N) then [] else b36_digit (x `mod` 36) :: b36_loop fuel (x `div` 36)
  end.

(** A [u64] has at most 13 digits. *)
Definition b36 (x : N) : str := if decide (x = 0%N) then lit "0" else reverse (b36_loop 13 x).

Definition task_id (secs n : N) : str := lit "task_" ++ b36 secs ++ lit "-" ++ b36 n.

(** ** The store *)

Record TaskLists := {
  task_store : gmap str (list TaskEntry);
  counter : N;
}.

Definition initial_lists : TaskLists := Build_TaskLists ∅ 0.

Definition with_session_tasks {R} (s : TaskLists) (session_id : str)
    (f : list TaskEntry → list TaskEntry * R) : TaskLists * R :=
  let '(tasks, r) := f (default [] (task_store s !! session_id)) in
  (Build_TaskLists (<[session_id := tasks]> (task_store s)) (counter s), r).

Definition new_task_id (s : TaskLists) (secs : N) : TaskLists * str :=
  (Build_TaskLists (task_store s) ((counter s + 1) `mod` 2 ^ 64), task_id secs (counter s)).

(** [iter().position(..)] and [remove]. *)
Fixpoint remove_first (task_id : str) (tasks : list TaskEntry) : list TaskEntry * bool :=
  match tasks with
  | [] => ([], false)
  | t :: tasks =>
      if decide (id t = task_id) then (tasks, true)
      else let '(tasks, found) := remove_first task_id tasks in (t :: tasks, found)
  end.

(** [iter_mut().find(..)] and the change. *)
Fixpoint update_first (task_id : str) (f : TaskEntry → TaskEntry) (tasks : list TaskEntry)
    : list TaskEntry * option TaskEntry :=
  match tasks with
  | [] => ([], None)
  | t :: tasks =>
      if decide (id t = task_id) then (f t :: tasks, Some (f t))
      else let '(tasks, found) := update_first task_id f tasks in (t :: tasks, found)
  end.

Definition find_task (task_id : str) (tasks : list TaskEntry) : option TaskEntry :=
  find_first (λ t, bool_decide (id t = task_id)) tasks.

Definition remove_task_from_store (s : TaskLists) (session_id task_id : str) : TaskLists * bool :=
  with_session_tasks s session_id (remove_first task_id).

Definition update_task_in_store (s : TaskLists) (session_id task_id : str)
    (f : TaskEntry → TaskEntry) : TaskLists * option TaskEntry :=
  with_session_tasks s session_id (update_first task_id f).

(** ** Results *)

Inductive Structured :=
  | CreatedTask (t : TaskEntry)
  | OneTask (t : TaskEntry)
  | ManyTasks (ts : list TaskEntry)
  | BlockedTask (task_id : str) (unresolved : list str)
  | DeletedTask (task_id : str)
  | BackgroundTask (task_id : str).

Record ToolResult := {
  text : str;
  is_error : bool;
  structured_content : option Structured;
}.

Definition no_task (task_id : str) : ToolResult :=
  Build_ToolResult (lit "no task with id=" ++ task_id) true None.

(** ** The inputs *)

Record TaskCreateInput := {
  create_subject : str;
  create_description : str;
  create_active_form : option str;
  create_owner : option str;
  create_blocks : list str;
  create_blocked_by : list str;
}.

(** TaskGet's and TaskStop's. *)
Record TaskIdInput := { input_task_id : str }.

Record TaskListInput := { list_status : option TaskStatus }.

Record TaskUpdateInput := {
  update_task_id : str;
  update_status : option TaskStatus;
  update_subject : option str;
  update_description : option str;
  update_active_form : option str;
  update_owner : option (option str);
  update_blocks : option (list str);
  update_blocked_by : option (list str);
}.

(** ** The tools *)

Section Tools.
Context (decode_create : value → result TaskCreateInput str)
  (decode_id : value → result TaskIdInput str)
  (decode_list : value → result TaskListInput str)
  (decode_update : value → result TaskUpdateInput str)
  (to_string_pretty : TaskEntry → str).

Definition invalid_input (e : str) (code : Z) : ValidationResult :=
  ValidationErr (lit "invalid input: " ++ e) code.

Definition create_validate_input (input : value) : ValidationResult :=
  match decode_create input with
  | Ok p =>
      if bool_decide (trim (create_subject p) = []) then ValidationErr "subject must not be empty" 1
      else if bool_decide (trim (create_description p) = [])
      then ValidationErr "description must not be empty" 2
      else ValidationOk
  | Err e => invalid_input e 3
  end.

(** [now] and [secs] are two readings of the clock. *)
Definition task_create (now : Z) (secs : N) (s : TaskLists) (session_id : str) (input : value)
    : TaskLists * result ToolResult str :=
  match decode_create input with
  | Err e => (s, Err e)
  | Ok input =>
      let '(s, fresh) := new_task_id s secs in
      let entry :=
        {| id := fresh; subject := create_subject input;
           description := create_description input; active_form := create_active_form input;
           owner := create_owner input; blocks := create_blocks input;
           blocked_by := create_blocked_by input; metadata := None; status := Pending;
           created_at := now; updated_at := now |} in
      let '(s, _) := with_session_tasks s session_id (λ tasks, (tasks ++ [entry], ())) in
      (s, Ok (Build_ToolResult
                (lit "Task created: id=" ++ id entry ++ lit " subject=" ++ subject entry) false
                (Some (CreatedTask entry))))
  end.

Definition id_validate_input (input : value) : ValidationResult :=
  match decode_id input with
  | Ok p =>
      if bool_decide (trim (input_task_id p) = []) then ValidationErr "task_id must not be empty" 1
      else ValidationOk
  | Err e => invalid_input e 2
  end.

Definition task_get (s : TaskLists) (session_id : str) (input : value)
    : TaskLists * result ToolResult str :=
  match decode_id input with
  | Err e => (s, Err e)
  | Ok input =>
      let '(s, task) := with_session_tasks s session_id
                          (λ tasks, (tasks, find_task (input_task_id input) tasks)) in
      (s, Ok (match task with
              | Some t => Build_ToolResult (to_string_pretty t) false (Some (OneTask t))
              | None => no_task (input_task_id input)
              end))
  end.

Definition task_line (t : TaskEntry) : str :=
  let owner_tag := match owner t with Some o => lit " @" ++ o | None => [] end in
  let blocker_tag :=
    if bool_decide (blocked_by t = []) then []
    else lit " [blocked by " ++ join (lit ",") (blocked_by t) ++ lit "]" in
  lit "  · [" ++ status_debug (status t) ++ lit "]" ++ owner_tag ++ blocker_tag ++ lit " " ++
  id t ++ lit " — " ++ subject t.

Definition task_list (s : TaskLists) (session_id : str) (input : value)
    : TaskLists * result ToolResult str :=
  let input := default (Build_TaskListInput None) (result_ok (decode_list input)) in
  let '(s, all) := with_session_tasks s session_id (λ tasks, (tasks, tasks)) in
  let filtered :=
    match list_status input with
    | Some st => filter (λ t, status t = st) all
    | None => all
    end in
  let body :=
    if bool_decide (filtered = []) then lit "(no tasks)"
    else lit (pretty (length filtered)) ++ lit " task(s):" ++ [10%N] ++
         join [10%N] (task_line <$> filtered) in
  (s, Ok (Build_ToolResult body false (Some (ManyTasks filtered)))).

Definition update_validate_input (input : value) : ValidationResult :=
  match decode_update input with
  | Ok p =>
      if bool_decide (trim (update_task_id p) = []) then ValidationErr "task_id must not be empty" 1
      else ValidationOk
  | Err e => invalid_input e 2
  end.

(** Which of the tasks named are in the list and not completed. *)
Definition unresolved (blocked_by : list str) (all_tasks : list TaskEntry) : list str :=
  filter (λ bid,
    existsb (λ t, bool_decide (id t = bid) && negb (bool_decide (status t = Completed))) all_tasks
    = true) blocked_by.

Definition apply_update (now : Z) (input : TaskUpdateInput) (t : TaskEntry) : TaskEntry :=
  {| id := id t;
     subject := default (subject t) (update_subject input);
     description := default (description t) (update_description input);
     active_form :=
       match update_active_form input with Some a => Some a | None => active_form t end;
     status := default (status t) (update_status input);
     owner := default (owner t) (update_owner input);
     blocks := default (blocks t) (update_blocks input);
     blocked_by := default (blocked_by t) (update_blocked_by input);
     metadata := metadata t;
     created_at := created_at t;
     updated_at := now |}.

(** The check before a task is started: the list of its open blockers, if it
    has any. *)
Definition start_blockers (s : TaskLists) (session_id : str) (input : TaskUpdateInput)
    : TaskLists * list str :=
  if bool_decide (update_status input = Some InProgress) then
    let '(s, task) := with_session_tasks s session_id
                        (λ tasks, (tasks, find_task (update_task_id input) tasks)) in
    match task with
    | Some task =>
        if bool_decide (blocked_by task = []) then (s, [])
        else
          let '(s, all_tasks) := with_session_tasks s session_id (λ tasks, (tasks, tasks)) in
          (s, unresolved (blocked_by task) all_tasks)
    | None => (s, [])
    end
  else (s, []).

Definition task_update (now : Z) (s : TaskLists) (session_id : str) (input : value)
    : TaskLists * result ToolResult str :=
  match decode_update input with
  | Err e => (s, Err e)
  | Ok input =>
      let '(s, open) := start_blockers s session_id input in
      if negb (bool_decide (open = [])) then
        (s, Ok (Build_ToolResult
                  (lit "Cannot start task " ++ update_task_id input ++
                   lit ": blocked by unresolved task(s): " ++ join (lit ", ") open)
                  true (Some (BlockedTask (update_task_id input) open))))
      else if bool_decide (update_status input = Some Deleted) then
        let '(s, removed) := remove_task_from_store s session_id (update_task_id input) in
        if removed
        then (s, Ok (Build_ToolResult (lit "Deleted task " ++ update_task_id input) false
                       (Some (DeletedTask (update_task_id input)))))
        else (s, Ok (no_task (update_task_id input)))
      else
        let '(s, updated) :=
          update_task_in_store s session_id (update_task_id input) (apply_update now input) in
        match updated with
        | Some t =>
            (s, Ok (Build_ToolResult
                      (lit "Updated task " ++ id t ++ lit ": status=" ++ status_debug (status t) ++
                       lit ", subject=" ++ subject t) false (Some (OneTask t))))
        | None => (s, Ok (no_task (update_task_id input)))
        end
  end.

Definition cancel_entry (now : Z) (t : TaskEntry) : TaskEntry :=
  {| id := id t; subject := subject t; description := description t;
     active_form := active_form t; status := Cancelled; owner := owner t; blocks := blocks t;
     blocked_by := blocked_by t; metadata := metadata t; created_at := created_at t;
     updated_at := now |}.

(** [running] is the session's running tasks' answer to [cancel], when it has
    any. *)
Definition task_stop (running : option (str → bool)) (now : Z) (s : TaskLists) (session_id : str)
    (input : value) : TaskLists * result ToolResult str :=
  match decode_id input with
  | Err e => (s, Err e)
  | Ok input =>
      let task_id := input_task_id input in
      if match running with Some cancel => cancel task_id | None => false end then
        (s, Ok (Build_ToolResult (lit "Cancel signal sent to background task " ++ task_id) false
                  (Some (BackgroundTask task_id))))
      else
        let '(s, updated) := update_task_in_store s session_id task_id (cancel_entry now) in
        match updated with
        | Some t =>
            (s, Ok (Build_ToolResult (lit "Cancelled task " ++ id t ++ lit ": " ++ subject t) false
                      (Some (OneTask t))))
        | None => (s, Ok (no_task task_id))
        end
  end.

(** ** A history *)

Inductive Call :=
  | Create (now : Z) (secs : N) (input : value)
  | Get (input : value)
  | List_ (input : value)
  | Update (now : Z) (input : value)
  | Stop (running : option (str → bool)) (now : Z) (input : value).

Definition do_call (s : TaskLists) (sc : str * Call) : TaskLists * result ToolResult str :=
  let '(session_id, c) := sc in
  match c with
  | Create now secs input => task_create now secs s session_id input
  | Get input => task_get s session_id input
  | List_ input => task_list s session_id input
  | Update now input => task_update now s session_id input
  | Stop running now input => task_stop running now s session_id input
  end.

Definition do_calls (s : TaskLists) (calls : list (str * Call)) : TaskLists :=
  foldl (λ s sc, (do_call s sc).1) s calls.

End Tools.

(** ** The todo list *)

Inductive TodoStatus := TodoPending | TodoInProgress | TodoCompleted.

#[export] Instance TodoStatus_eq_dec : EqDecision TodoStatus.
Proof. solve_decision. Defined.

Record TodoItem := {
  todo_content : str;
  todo_status : TodoStatus;
  todo_active_form : str;
}.

Section Todo.
Context (decode_todos : value → result (list TodoItem) str).

Definition in_progress_count (todos : list TodoItem) : nat :=
  length (filter (λ t, todo_status t = TodoInProgress) todos).

Fixpoint first_blank (i : nat) (todos : list TodoItem) : ValidationResult :=
  match todos with
  | [] => ValidationOk
  | t :: todos =>
      if bool_decide (trim (todo_content t) = [])
      then ValidationErr (lit "todo[" ++ lit (pretty i) ++ lit "].content is empty") 2
      else first_blank (S i) todos
  end.

Definition todo_validate_input (input : value) : ValidationResult :=
  match decode_todos input with
  | Ok todos =>
      let in_progress := in_progress_count todos in
      if bool_decide (1 < in_progress) then
        ValidationErr (lit "at most one todo may be in_progress at a time; you have " ++
                       lit (pretty in_progress)) 1
      else first_blank 0 todos
  | Err e => invalid_input e 3
  end.

Definition count_step (c : nat * nat * nat) (t : TodoItem) : nat * nat * nat :=
  let '(pending, in_progress, completed) := c in
  match todo_status t with
  | TodoPending => (S pending, in_progress, completed)
  | TodoInProgress => (pending, S in_progress, completed)
  | TodoCompleted => (pending, in_progress, S completed)
  end.

Definition count_by_status (todos : list TodoItem) : nat * nat * nat :=
  foldl count_step (0, 0, 0) todos.

(** The new list and the answer. *)
Definition todo_write (store : list TodoItem) (input : value) : list TodoItem * result str str :=
  match decode_todos input with
  | Err e => (store, Err e)
  | Ok todos =>
      let '(p, i, c) := count_by_status todos in
      (todos, Ok (lit (pretty (length todos)) ++ lit " todos: " ++ lit (pretty c) ++
                  lit " completed, " ++ lit (pretty i) ++ lit " in_progress, " ++ lit (pretty p) ++
                  lit " pending"))
  end.

End Todo.

(** ** Identifiers are unique *)

Definition b36_digit_value (c : char) : N := if bool_decide (c < 87)%N then (c - 48)%N else (c - 87)%N.

(** The value of digits, the lowest first. *)
Definition b36_value (ds : str) : N := foldr (λ c v, b36_digit_value c + 36 * v)%N 0%N ds.

Lemma b36_digit_value_digit d : (d < 36)%N → b36_digit_value (b36_digit d) = d.
Proof.
  intros Hd. unfold b36_digit_value, b36_digit. repeat case_bool_decide; lia.
Qed.

Lemma b36_loop_value fuel x : (x < 36 ^ N.of_nat fuel)%N → b36_value (b36_loop fuel x) = x.
Proof.
  revert x. induction fuel as [|fuel IH]; intros x Hx; cbn [b36_loop].
  { change (36 ^ N.of_nat 0)%N with 1%N in Hx. cbn. lia. }
  destruct (decide (x = 0%N)) as [->|Hne]; [done|].
  assert (Hq : (x / 36 < 36 ^ N.of_nat fuel)%N).
  { apply N.Div0.div_lt_upper_bound.
    rewrite Nat2N.inj_succ, N.pow_succ_r' in Hx. lia. }
  specialize (IH _ Hq). unfold b36_value in *. cbn [foldr]. rewrite IH.
  rewrite b36_digit_value_digit by (apply N.mod_lt; lia).
  pose proof (N.Div0.div_mod x 36).
  lia.
Qed.

Lemma u64_b36 x : (x < 2 ^ 64)%N → (x < 36 ^ N.of_nat 13)%N.
Proof. intros ?. eapply N.lt_le_trans; [done|]. by vm_compute. Qed.

Lemma b36_inj x y : (x < 2 ^ 64)%N → (y < 2 ^ 64)%N → b36 x = b36 y → x = y.
Proof.
  intros Hx Hy. pose proof (b36_loop_value 13 x (u64_b36 x Hx)) as Vx.
  pose proof (b36_loop_value 13 y (u64_b36 y Hy)) as Vy.
  assert (Hzero : ∀ z, b36_value (b36_loop 13 z) = z → lit "0" = reverse (b36_loop 13 z) → z = 0%N).
  { intros z Vz Hz. apply (f_equal reverse) in Hz. rewrite reverse_involutive in Hz.
    rewrite <-Vz, <-Hz. done. }
  unfold b36. destruct (decide (x = 0%N)), (decide (y = 0%N)); intros E.
  - congruence.
  - symmetry in E. subst x. symmetry. by apply Hzero.
  - subst y. by apply Hzero.
  - apply (inj reverse) in E. congruence.
Qed.

Lemma b36_no_dash x : ch "-" ∉ b36 x.
Proof.
  assert (H : ∀ fuel x, Forall (λ c, 48 ≤ c)%N (b36_loop fuel x)).
  { induction fuel as [|fuel IH]; intros y; cbn [b36_loop]; [constructor|].
    destruct (decide _); constructor; [|done].
    generalize (y `mod` 36)%N. intros d. unfold b36_digit. case_bool_decide; lia. }
  unfold b36. destruct (decide _); [intros Hin; by apply list_elem_of_singleton in Hin|].
  rewrite elem_of_reverse. intros Hin. specialize (H 13 x). rewrite Forall_forall in H.
  apply H in Hin. by vm_compute in Hin.
Qed.

Lemma app_dash_inj (a b a' b' : str) :
  ch "-" ∉ a → ch "-" ∉ a' → a ++ lit "-" ++ b = a' ++ lit "-" ++ b' → a = a' ∧ b = b'.
Proof.
  intros Ha Ha' E.
  assert (H1 : split_once (ch "-") (a ++ lit "-" ++ b) = Some (a, b)) by by apply split_once_Some.
  assert (H2 : split_once (ch "-") (a' ++ lit "-" ++ b') = Some (a', b')) by by apply split_once_Some.
  rewrite E in H1. split; congruence.
Qed.

Lemma task_id_inj secs n secs' n' :
  (n < 2 ^ 64)%N → (n' < 2 ^ 64)%N → task_id secs n = task_id secs' n' → n = n'.
Proof.
  intros Hn Hn' E. unfold task_id in E. apply (inj (app (lit "task_"))) in E.
  apply app_dash_inj in E as [_ E]; [|apply b36_no_dash..]. by apply b36_inj.
Qed.

(** ** What a call does to the lists *)

Section ToolLemmas.
Context (decode_create : value → result TaskCreateInput str)
  (decode_id : value → result TaskIdInput str)
  (decode_list : value → result TaskListInput str)
  (decode_update : value → result TaskUpdateInput str)
  (to_string_pretty : TaskEntry → str).

#[local] Notation step := (do_call decode_create decode_id decode_list decode_update
  to_string_pretty).
#[local] Notation steps := (do_calls decode_create decode_id decode_list decode_update
  to_string_pretty).

Definition tasks_of (s : TaskLists) (session_id : str) : list TaskEntry :=
  default [] (task_store s !! session_id).

Lemma tasks_of_insert s session_id tasks n sid :
  tasks_of (Build_TaskLists (<[session_id := tasks]> (task_store s)) n) sid =
  if decide (sid = session_id) then tasks else tasks_of s sid.
Proof.
  unfold tasks_of. cbn [task_store]. destruct (decide (sid = session_id)) as [->|Hne].
  - by rewrite lookup_insert_eq.
  - by rewrite lookup_insert_ne.
Qed.

Lemma with_session_tasks_spec {R} s session_id (f : list TaskEntry → list TaskEntry * R) :
  (with_session_tasks s session_id f).2 = (f (tasks_of s session_id)).2 ∧
  counter (with_session_tasks s session_id f).1 = counter s ∧
  ∀ sid, tasks_of (with_session_tasks s session_id f).1 sid =
    if decide (sid = session_id) then (f (tasks_of s session_id)).1 else tasks_of s sid.
Proof.
  unfold with_session_tasks, tasks_of at 1 2 3. destruct (f _) as [tasks r].
  split_and!; [done..|]. intros sid. apply tasks_of_insert.
Qed.

(** Two states one session cannot tell apart. *)
Definition alike (session_id : str) (s s' : TaskLists) : Prop :=
  counter s = counter s' ∧ tasks_of s session_id = tasks_of s' session_id.

Lemma with_session_tasks_alike {R} s s' session_id (f : list TaskEntry → list TaskEntry * R) :
  alike session_id s s' →
  (with_session_tasks s session_id f).2 = (with_session_tasks s' session_id f).2 ∧
  alike session_id (with_session_tasks s session_id f).1 (with_session_tasks s' session_id f).1 ∧
  ∀ sid, sid ≠ session_id → tasks_of (with_session_tasks s session_id f).1 sid = tasks_of s sid.
Proof.
  intros [Hc Ht]. destruct (with_session_tasks_spec s session_id f) as (Hr&Hc1&Hs).
  destruct (with_session_tasks_spec s' session_id f) as (Hr'&Hc1'&Hs').
  split; [congruence|]. split.
  - split; [congruence|]. rewrite Hs, Hs', !decide_True by done. by rewrite Ht.
  - intros sid Hne. rewrite Hs. by rewrite decide_False.
Qed.

Lemma update_first_spec task_id f tasks :
  (∀ t, id (f t) = id t) →
  (find_task task_id tasks = None ∧ update_first task_id f tasks = (tasks, None)) ∨
  ∃ pre t post, tasks = pre ++ t :: post ∧ id t = task_id ∧ task_id ∉ id <$> pre ∧
    find_task task_id tasks = Some t ∧
    update_first task_id f tasks = (pre ++ f t :: post, Some (f t)).
Proof.
  intros Hf. unfold find_task. induction tasks as [|t tasks IH]; [by left|].
  cbn [update_first find_first]. destruct (decide (id t = task_id)) as [E|E].
  - right. exists [], t, tasks. rewrite bool_decide_eq_true_2 by done.
    split_and!; [done|done|apply not_elem_of_nil|done|done].
  - rewrite bool_decide_eq_false_2 by done. destruct IH as [[-> ->]|(pre&t'&post&->&?&?&->&->)].
    + by left.
    + right. exists (t :: pre), t', post. split_and!; try done.
      cbn. by apply not_elem_of_cons.
Qed.

Lemma remove_first_spec task_id tasks :
  (find_task task_id tasks = None ∧ remove_first task_id tasks = (tasks, false)) ∨
  ∃ pre t post, tasks = pre ++ t :: post ∧ id t = task_id ∧ task_id ∉ id <$> pre ∧
    find_task task_id tasks = Some t ∧ remove_first task_id tasks = (pre ++ post, true).
Proof.
  unfold find_task. induction tasks as [|t tasks IH]; [by left|].
  cbn [remove_first find_first]. destruct (decide (id t = task_id)) as [E|E].
  - right. exists [], t, tasks. rewrite bool_decide_eq_true_2 by done.
    split_and!; [done|done|apply not_elem_of_nil|done|done].
  - rewrite bool_decide_eq_false_2 by done. destruct IH as [[-> ->]|(pre&t'&post&->&?&?&->&->)].
    + by left.
    + right. exists (t :: pre), t', post. split_and!; try done.
      cbn. by apply not_elem_of_cons.
Qed.

Lemma start_blockers_spec s session_id input :
  (start_blockers s session_id input).2 =
    (if decide (update_status input = Some InProgress) then
       match find_task (update_task_id input) (tasks_of s session_id) with
       | Some t => unresolved (blocked_by t) (tasks_of s session_id)
       | None => []
       end
     else []) ∧
  counter (start_blockers s session_id input).1 = counter s ∧
  ∀ sid, tasks_of (start_blockers s session_id input).1 sid = tasks_of s sid.
Proof.
  unfold start_blockers. destruct (decide (update_status input = Some InProgress)) as [E|E].
  2:{ rewrite bool_decide_eq_false_2 by done. by split_and!. }
  rewrite bool_decide_eq_true_2 by done.
  pose proof (with_session_tasks_spec s session_id
    (λ tasks, (tasks, find_task (update_task_id input) tasks))) as (Hr&Hc&Hs).
  destruct (with_session_tasks _ _ _) as [s1 task]. cbn [fst snd] in *. subst task.
  assert (Hs1 : ∀ sid, tasks_of s1 sid = tasks_of s sid).
  { intros sid. rewrite Hs. case_decide as Hd; [by rewrite Hd|done]. }
  destruct (find_task _ _) as [t|]; [|by split_and!].
  case_bool_decide as Hb.
  { rewrite Hb. by split_and!. }
  pose proof (with_session_tasks_spec s1 session_id (λ tasks, (tasks, tasks))) as (Hr2&Hc2&Hs2).
  destruct (with_session_tasks s1 _ _) as [s2 all]. cbn [fst snd] in *. subst all.
  rewrite Hs1. split_and!; [done|congruence|]. intros sid. rewrite Hs2, !Hs1.
  case_decide as Hd; [by rewrite Hd|done].
Qed.

(** What the session [sid] sees of two calls, of which the first is made in
    [s]. *)
Definition same_view {R} (sid : str) (s : TaskLists) (r r' : TaskLists * R) : Prop :=
  r.2 = r'.2 ∧ alike sid r.1 r'.1 ∧ ∀ other, other ≠ sid → tasks_of r.1 other = tasks_of s other.

Lemma same_view_ret {R} sid s s' (x : R) : alike sid s s' → same_view sid s (s, x) (s', x).
Proof. by split. Qed.

Lemma same_view_bind {R R'} sid s (r r' : TaskLists * R) (k : TaskLists → R → TaskLists * R') :
  same_view sid s r r' →
  (∀ s1 s1' x, alike sid s1 s1' → same_view sid s1 (k s1 x) (k s1' x)) →
  same_view sid s (let '(s1, x) := r in k s1 x) (let '(s1, x) := r' in k s1 x).
Proof.
  destruct r as [s1 x], r' as [s1' x']. intros (E&Ha&Ho) Hk. cbn in *. subst x'.
  destruct (Hk s1 s1' x Ha) as (E'&Ha'&Ho'). split; [done|]. split; [done|].
  intros other Hne. rewrite Ho' by done. by apply Ho.
Qed.

Lemma same_view_tasks {R} sid s s' (f : list TaskEntry → list TaskEntry * R) :
  alike sid s s' → same_view sid s (with_session_tasks s sid f) (with_session_tasks s' sid f).
Proof. apply with_session_tasks_alike. Qed.

Lemma same_view_blockers sid s s' u :
  alike sid s s' → same_view sid s (start_blockers s sid u) (start_blockers s' sid u).
Proof.
  intros [Hc Ht]. destruct (start_blockers_spec s sid u) as (E&Hc1&Hs).
  destruct (start_blockers_spec s' sid u) as (E'&Hc1'&Hs'). split; [rewrite E, E'; by rewrite Ht|].
  split; [split; [congruence|]; by rewrite Hs, Hs'|]. intros other _. apply Hs.
Qed.

Lemma do_call_view s s' sid c :
  alike sid s s' → same_view sid s (step s (sid, c)) (step s' (sid, c)).
Proof.
  intros Ha. destruct c as [now secs input|input|input|now input|running now input];
    cbn [do_call].
  - unfold task_create. destruct (decode_create input); [|by apply same_view_ret].
    cbn [new_task_id]. destruct Ha as [Hc Ht]. rewrite Hc.
    change (same_view sid s) with (same_view (R:=result ToolResult str) sid
      (Build_TaskLists (task_store s) ((counter s' + 1) `mod` 2 ^ 64))).
    apply same_view_bind.
    + apply same_view_tasks. by split.
    + intros s1 s1' _ Ha1. by apply same_view_ret.
  - unfold task_get. destruct (decode_id input); [|by apply same_view_ret].
    apply same_view_bind; [by apply same_view_tasks|]. intros. by apply same_view_ret.
  - unfold task_list.
    apply same_view_bind; [by apply same_view_tasks|]. intros. by apply same_view_ret.
  - unfold task_update. destruct (decode_update input); [|by apply same_view_ret].
    apply same_view_bind; [by apply same_view_blockers|]. intros s1 s1' open Ha1.
    destruct (negb _); [by apply same_view_ret|]. case_bool_decide.
    + apply same_view_bind; [by apply same_view_tasks|]. intros s2 s2' [] Ha2; by apply same_view_ret.
    + apply same_view_bind; [by apply same_view_tasks|]. intros s2 s2' [] Ha2; by apply same_view_ret.
  - unfold task_stop. destruct (decode_id input); [|by apply same_view_ret].
    destruct (match running with Some _ => _ | None => _ end); [by apply same_view_ret|].
    apply same_view_bind; [by apply same_view_tasks|]. intros s2 s2' [] Ha2; by apply same_view_ret.
Qed.

(** *** The shape of a call *)

(** A call that makes no task keeps the counter, changes one session's list,
    and leaves no new identifier in it. *)
Definition keeps_ids (s s' : TaskLists) (session_id : str) : Prop :=
  counter s' = counter s ∧
  (id <$> tasks_of s' session_id) `sublist_of` (id <$> tasks_of s session_id) ∧
  ∀ sid, sid ≠ session_id → tasks_of s' sid = tasks_of s sid.

Lemma keeps_ids_same s s' session_id :
  counter s' = counter s → (∀ sid, tasks_of s' sid = tasks_of s sid) → keeps_ids s s' session_id.
Proof. intros Hc Hs. split; [done|]. rewrite Hs. by split. Qed.

Lemma with_session_keeps {R} s session_id (f : list TaskEntry → list TaskEntry * R) :
  (id <$> (f (tasks_of s session_id)).1) `sublist_of` (id <$> tasks_of s session_id) →
  keeps_ids s (with_session_tasks s session_id f).1 session_id.
Proof.
  intros Hf. destruct (with_session_tasks_spec s session_id f) as (_&Hc&Hs).
  split; [done|]. rewrite Hs, decide_True by done. split; [done|].
  intros sid Hne. by rewrite Hs, decide_False.
Qed.

Lemma update_keeps s session_id task_id f :
  (∀ t, id (f t) = id t) →
  keeps_ids s (update_task_in_store s session_id task_id f).1 session_id.
Proof.
  intros Hf. apply with_session_keeps.
  destruct (update_first_spec task_id f (tasks_of s session_id) Hf)
    as [[_ ->]|(pre&t&post&->&_&_&_&->)]; [done|].
  cbn [fst]. rewrite !fmap_app, !fmap_cons, Hf. done.
Qed.

Lemma remove_keeps s session_id task_id :
  keeps_ids s (remove_task_from_store s session_id task_id).1 session_id.
Proof.
  apply with_session_keeps.
  destruct (remove_first_spec task_id (tasks_of s session_id))
    as [[_ ->]|(pre&t&post&->&_&_&_&->)]; [done|].
  cbn [fst]. rewrite !fmap_app, !fmap_cons. by apply sublist_app, sublist_cons.
Qed.

Lemma keeps_ids_trans s1 s2 s3 sid : keeps_ids s1 s2 sid → keeps_ids s2 s3 sid → keeps_ids s1 s3 sid.
Proof.
  intros (Hc&Hs&Ho) (Hc'&Hs'&Ho'). split; [congruence|]. split; [by etrans|].
  intros x Hx. rewrite Ho' by done. by apply Ho.
Qed.

Lemma task_update_keeps now s session_id input :
  keeps_ids s (task_update decode_update now s session_id input).1 session_id.
Proof.
  unfold task_update. destruct (decode_update input) as [u|e]; [|by apply keeps_ids_same].
  pose proof (start_blockers_spec s session_id u) as (_&Hc&Hs).
  destruct (start_blockers s session_id u) as [s1 open]. cbn [fst snd] in *.
  destruct (negb _); [by apply keeps_ids_same|]. apply (keeps_ids_trans _ s1); [by apply keeps_ids_same|].
  case_bool_decide.
  - pose proof (remove_keeps s1 session_id (update_task_id u)) as Hr.
    destruct (remove_task_from_store _ _ _) as [s2 []]; done.
  - pose proof (update_keeps s1 session_id (update_task_id u) (apply_update now u)
                  (λ _, eq_refl)) as Hr.
    destruct (update_task_in_store _ _ _ _) as [s2 []]; done.
Qed.

Lemma do_call_shape s sid c :
  keeps_ids s (step s (sid, c)).1 sid ∨
  ∃ now secs input t, c = Create now secs input ∧ id t = task_id secs (counter s) ∧
    counter (step s (sid, c)).1 = ((counter s + 1) `mod` 2 ^ 64)%N ∧
    tasks_of (step s (sid, c)).1 sid = tasks_of s sid ++ [t] ∧
    ∀ sid', sid' ≠ sid → tasks_of (step s (sid, c)).1 sid' = tasks_of s sid'.
Proof.
  destruct c as [now secs input|input|input|now input|running now input]; cbn [do_call].
  - unfold task_create. destruct (decode_create input) as [p|e]; [|left; by apply keeps_ids_same].
    right. cbn [new_task_id].
    match goal with |- context [with_session_tasks ?s1 sid ?f] =>
      pose proof (with_session_tasks_spec s1 sid f) as (_&Hc&Hs);
      destruct (with_session_tasks s1 sid f) as [s2 []] end.
    cbn [fst snd counter] in *. eexists now, secs, input, _. split; [done|].
    split; [|split; [exact Hc|split]].
    2:{ rewrite Hs, decide_True by done. unfold tasks_of. cbn [task_store]. reflexivity. }
    + reflexivity.
    + intros sid' Hne. by rewrite Hs, decide_False.
  - left. unfold task_get. destruct (decode_id input) as [p|e]; [|by apply keeps_ids_same].
    pose proof (with_session_keeps s sid
      (λ tasks, (tasks, find_task (input_task_id p) tasks)) ltac:(done)) as Hk.
    by destruct (with_session_tasks _ _ _).
  - left. unfold task_list.
    pose proof (with_session_keeps s sid (λ tasks, (tasks, tasks)) ltac:(done)) as Hk.
    by destruct (with_session_tasks _ _ _).
  - left. apply task_update_keeps.
  - left. unfold task_stop. destruct (decode_id input) as [p|e]; [|by apply keeps_ids_same].
    destruct (match running with Some _ => _ | None => _ end); [by apply keeps_ids_same|].
    pose proof (update_keeps s sid (input_task_id p) (cancel_entry now) (λ _, eq_refl)) as Hk.
    by destruct (update_task_in_store _ _ _ _) as [? []].
Qed.

(** *** The invariant *)

Record fresh_ids (s : TaskLists) : Prop := {
  fresh_counter : (counter s < 2 ^ 64)%N;
  fresh_made : ∀ sid i, i ∈ id <$> tasks_of s sid → ∃ secs n, i = task_id secs n ∧ (n < counter s)%N;
  fresh_nodup : ∀ sid, NoDup (id <$> tasks_of s sid);
  fresh_apart : ∀ sid sid' i, sid ≠ sid' →
    i ∈ id <$> tasks_of s sid → i ∉ id <$> tasks_of s sid';
}.

Lemma keeps_fresh s s' sid : keeps_ids s s' sid → fresh_ids s → fresh_ids s'.
Proof.
  intros (Hc&Hsub&Ho) [Hctr Hmade Hnd Hap].
  assert (Hin : ∀ x i, i ∈ id <$> tasks_of s' x → i ∈ id <$> tasks_of s x).
  { intros x i. destruct (decide (x = sid)) as [->|Hne]; [|by rewrite Ho].
    intros Hi. by eapply elem_of_sublist. }
  split.
  - congruence.
  - intros x i Hi%Hin. rewrite Hc. eauto.
  - intros x. destruct (decide (x = sid)) as [->|Hne]; [by eapply sublist_NoDup|].
    by rewrite Ho.
  - intros x x' i Hne Hi%Hin Hi'%Hin. by eapply Hap.
Qed.

Lemma create_fresh s s' sid secs t :
  (counter s + 1 < 2 ^ 64)%N → id t = task_id secs (counter s) →
  counter s' = ((counter s + 1) `mod` 2 ^ 64)%N → tasks_of s' sid = tasks_of s sid ++ [t] →
  (∀ sid', sid' ≠ sid → tasks_of s' sid' = tasks_of s sid') → fresh_ids s → fresh_ids s'.
Proof.
  intros Hlt Ht Hc Hs Ho [Hctr Hmade Hnd Hap]. rewrite N.mod_small in Hc by done.
  assert (Hnew : ∀ x, id t ∉ id <$> tasks_of s x).
  { intros x (secs'&n&E&Hn)%Hmade. rewrite Ht in E. apply task_id_inj in E; lia. }
  assert (Hin : ∀ x i, i ∈ id <$> tasks_of s' x → i ∈ id <$> tasks_of s x ∨ (x = sid ∧ i = id t)).
  { intros x i. destruct (decide (x = sid)) as [->|Hne]; [|rewrite Ho by done; by left].
    rewrite Hs, fmap_app, elem_of_app. intros [?|Hi]; [by left|right].
    by apply list_elem_of_singleton in Hi. }
  split.
  - lia.
  - intros x i [(secs'&n&->&?)%Hmade|[_ ->]]%Hin.
    + exists secs', n. split; [done|lia].
    + exists secs, (counter s). split; [done|lia].
  - intros x. destruct (decide (x = sid)) as [->|Hne]; [|by rewrite Ho].
    rewrite Hs, fmap_app. apply NoDup_app. split; [done|]. split; [|apply NoDup_singleton].
    intros i Hi Hx. apply list_elem_of_singleton in Hx. subst i. by eapply Hnew.
  - intros x x' i Hne Hi%Hin Hi'%Hin.
    destruct Hi as [Hi|[? Ei]], Hi' as [Hi'|[? Ei']]; [by eapply Hap|..|congruence].
    + rewrite Ei' in Hi. by eapply Hnew.
    + rewrite Ei in Hi'. by eapply Hnew.
Qed.

Lemma do_call_counter s sc : (counter (step s sc).1 ≤ counter s + 1)%N.
Proof.
  destruct sc as [sid c]. destruct (do_call_shape s sid c) as [(->&_)|(?&?&?&?&_&_&->&_)]; [lia|].
  apply N.Div0.mod_le.
Qed.

Lemma do_calls_fresh calls s :
  (counter s + N.of_nat (length calls) < 2 ^ 64)%N → fresh_ids s → fresh_ids (steps s calls).
Proof.
  revert s. induction calls as [|[sid c] calls IH]; intros s Hlen Hs; [done|].
  pose proof (do_call_counter s (sid, c)) as Hle.
  cbn [length do_calls foldl] in *. apply IH; [lia|].
  destruct (do_call_shape s sid c) as [Hk|(now&secs&input&t&_&Ht&Hc&Htasks&Ho)].
  - by eapply keeps_fresh.
  - eapply create_fresh; [|done..]. lia.
Qed.

End ToolLemmas.

Lemma elem_of_unresolved bid blocked_by (all : list TaskEntry) :
  bid ∈ unresolved blocked_by all ↔
  bid ∈ blocked_by ∧ ∃ t, t ∈ all ∧ id t = bid ∧ status t ≠ Completed.
Proof.
  unfold unresolved. rewrite list_elem_of_filter, existsb_elem_of. split.
  - intros [(t&Ht&[Hi Hs]%andb_true_iff) Hb]. split; [done|]. exists t.
    apply bool_decide_eq_true in Hi. apply negb_true_iff, bool_decide_eq_false in Hs. done.
  - intros [Hb (t&Ht&Hi&Hs)]. split; [|done]. exists t. split; [done|].
    rewrite bool_decide_eq_true_2, bool_decide_eq_false_2 by done. done.
Qed.

Lemma blank_spec i todos :
  first_blank i todos = ValidationOk ↔ Forall (λ t, trim (todo_content t) ≠ []) todos.
Proof.
  revert i. induction todos as [|t todos IH]; intros i; cbn [first_blank]; [by split|].
  case_bool_decide as Ht; rewrite Forall_cons; [split; [done|by intros [? _]]|].
  rewrite IH. naive_solver.
Qed.

Lemma count_by_status_spec todos p i c :
  foldl count_step (p, i, c) todos =
  (p + length (filter (λ t, todo_status t = TodoPending) todos),
   i + length (filter (λ t, todo_status t = TodoInProgress) todos),
   c + length (filter (λ t, todo_status t = TodoCompleted) todos)).
Proof.
  revert p i c. induction todos as [|t todos IH]; intros p i c; cbn [foldl].
  { apply (f_equal2 pair); [apply (f_equal2 pair)|]; cbn; lia. }
  unfold count_step at 2. rewrite !filter_cons.
  destruct (todo_status t); rewrite IH;
    repeat (case_decide; try done); cbn [length];
    (apply (f_equal2 pair); [apply (f_equal2 pair)|]; lia).
Qed.

(** ** Theorems *)

Section Theorems.
Context (decode_create : value → result TaskCreateInput str)
  (decode_id : value → result TaskIdInput str)
  (decode_list : value → result TaskListInput str)
  (decode_update : value → result TaskUpdateInput str)
  (to_string_pretty : TaskEntry → str).

#[local] Notation step := (do_call decode_create decode_id decode_list decode_update
  to_string_pretty).
#[local] Notation steps := (do_calls decode_create decode_id decode_list decode_update
  to_string_pretty).

(** Whatever is called in whatever sessions, every task of the process has an
    identifier of its own - across sessions, and after tasks were deleted - as
    long as the process makes fewer than 2^64 calls. *)
Theorem task_ids_are_unique calls :
  (N.of_nat (length calls) < 2 ^ 64)%N →
  let s := steps initial_lists calls in
  (∀ sid, NoDup (id <$> tasks_of s sid)) ∧
  (∀ sid sid' i, sid ≠ sid' → i ∈ id <$> tasks_of s sid → i ∉ id <$> tasks_of s sid') ∧
  ∀ sid secs, task_id secs (counter s) ∉ id <$> tasks_of s sid.
Proof.
  intros Hlen s.
  assert (Hs : fresh_ids s).
  { apply do_calls_fresh; [done|]. split; [done|..]; intros; unfold tasks_of in *; cbn in *;
      try apply NoDup_nil_2; by destruct (not_elem_of_nil _ H) || set_solver. }
  destruct Hs as [Hctr Hmade Hnd Hap]. split_and!; [done|done|].
  intros sid secs (secs'&n&E&Hn)%Hmade. apply task_id_inj in E; lia.
Qed.

(** What one session does depends on its own list and the counter alone, and
    changes no other session's list. *)
Theorem sessions_are_isolated s s' sid c :
  alike sid s s' →
  (step s (sid, c)).2 = (step s' (sid, c)).2 ∧
  alike sid (step s (sid, c)).1 (step s' (sid, c)).1 ∧
  ∀ other, other ≠ sid → tasks_of (step s (sid, c)).1 other = tasks_of s other.
Proof. apply do_call_view. Qed.

End Theorems.

(** TaskUpdate on every branch.  Of the tasks of the session, the first with
    the given identifier is meant.  A call that would start it is refused when
    one of the tasks it lists as blockers is in the list and not completed -
    the blockers are those recorded before the call - and changes nothing; a
    call that deletes it takes it out; any other call changes the fields it
    names, and the time of change. *)
Theorem update_cases decode_update now s sid input u :
  decode_update input = Ok u →
  let tasks := tasks_of s sid in
  let s' := (task_update decode_update now s sid input).1 in
  let answer := (task_update decode_update now s sid input).2 in
  let refused := ∃ t, update_status u = Some InProgress ∧
    find_task (update_task_id u) tasks = Some t ∧
    ∃ bid b, bid ∈ blocked_by t ∧ b ∈ tasks ∧ id b = bid ∧ status b ≠ Completed in
  (refused ∧ tasks_of s' sid = tasks ∧ ∃ r, answer = Ok r ∧ is_error r = true) ∨
  (¬ refused ∧
   ((find_task (update_task_id u) tasks = None ∧ tasks_of s' sid = tasks ∧
     answer = Ok (no_task (update_task_id u))) ∨
    ∃ pre t post, tasks = pre ++ t :: post ∧ id t = update_task_id u ∧
      update_task_id u ∉ id <$> pre ∧
      tasks_of s' sid =
        (if decide (update_status u = Some Deleted) then pre ++ post
         else pre ++ apply_update now u t :: post) ∧
      ∃ r, answer = Ok r ∧ is_error r = false)).
Proof.
  intros Hu tasks s' answer refused. unfold s', answer, task_update. rewrite Hu.
  destruct (start_blockers_spec s sid u) as (Hopen&_&Hs1). fold tasks in Hopen.
  destruct (start_blockers s sid u) as [s1 open]. cbn [fst snd] in *.
  assert (Href : refused ↔ open ≠ []).
  { rewrite Hopen. unfold refused. split.
    - intros (t&Hst&Hf&bid&b&Hb&Hin&Hid&Hne) E. rewrite decide_True, Hf in E by done.
      apply (not_elem_of_nil bid). rewrite <-E. apply elem_of_unresolved. eauto.
    - destruct (decide _) as [Hst|]; [|done]. destruct (find_task _ _) as [t|]; [|done].
      intros Hne. exists t. split; [done|]. split; [done|].
      destruct (unresolved (blocked_by t) tasks) as [|bid l] eqn:E; [done|].
      assert (Hin : bid ∈ unresolved (blocked_by t) tasks) by (rewrite E; left).
      apply elem_of_unresolved in Hin as (?&b&?&?&?). eauto 10. }
  case_bool_decide as Ho; cbn [negb].
  2:{ left. split; [by apply Href|]. cbn [fst snd]. split; [apply Hs1|]. by eexists. }
  right. split; [rewrite Href; tauto|].
  case_bool_decide as Hd.
  - unfold remove_task_from_store.
    destruct (with_session_tasks_spec s1 sid (remove_first (update_task_id u))) as (Hr&_&Hs2).
    destruct (with_session_tasks _ _ _) as [s2 removed]. cbn [fst snd] in *.
    specialize (Hs2 sid). rewrite decide_True, Hs1 in Hs2 by done. rewrite Hs1 in Hr. fold tasks in Hr, Hs2.
    destruct (remove_first_spec (update_task_id u) tasks) as [[Hf E]|(pre&t&post&E&Hi&Hn&_&E')].
    + left. rewrite E in Hr, Hs2. subst removed. by split_and!.
    + right. exists pre, t, post. rewrite decide_True by done.
      rewrite E' in Hr, Hs2. subst removed. cbn [fst snd].
      split_and!; [done..|]. by eexists.
  - unfold update_task_in_store.
    destruct (with_session_tasks_spec s1 sid (update_first (update_task_id u) (apply_update now u)))
      as (Hr&_&Hs2).
    destruct (with_session_tasks _ _ _) as [s2 updated]. cbn [fst snd] in *.
    specialize (Hs2 sid). rewrite decide_True, Hs1 in Hs2 by done. rewrite Hs1 in Hr. fold tasks in Hr, Hs2.
    destruct (update_first_spec (update_task_id u) (apply_update now u) tasks (λ _, eq_refl))
      as [[Hf E]|(pre&t&post&E&Hi&Hn&_&E')].
    + left. rewrite E in Hr, Hs2. subst updated. by split_and!.
    + right. exists pre, t, post. rewrite decide_False by done.
      rewrite E' in Hr, Hs2. subst updated. cbn [fst snd].
      split_and!; [done..|]. by eexists.
Qed.

(** A todo list is accepted exactly when at most one item is in progress and
    none is blank; it then replaces the one before, and the three counts add
    up to its length. *)
Theorem todo_list_accepted decode_todos store input todos :
  decode_todos input = Ok todos →
  (todo_validate_input decode_todos input = ValidationOk ↔
     in_progress_count todos ≤ 1 ∧ Forall (λ t, trim (todo_content t) ≠ []) todos) ∧
  (todo_write decode_todos store input).1 = todos ∧
  let '(p, i, c) := count_by_status todos in
  p + i + c = length todos ∧ i = in_progress_count todos.
Proof.
  intros Hd. unfold todo_validate_input, todo_write, count_by_status. rewrite Hd.
  rewrite count_by_status_spec. split; [|split; [done|]].
  - case_bool_decide as Hp; [split; [done|lia]|]. rewrite blank_spec. split; [|tauto].
    intros ?. split; [lia|done].
  - split; [|done]. clear Hd. induction todos as [|t todos IH]; [done|].
    rewrite !filter_cons. cbn [length].
    destruct (todo_status t); repeat (case_decide; try done); cbn [length] in *; lia.
Qed.

(** ** At work *)

(** Decoders that know one input each. *)
Definition creates (u : TaskCreateInput) : value → result TaskCreateInput str := λ _, Ok u.
Definition updates (u : TaskUpdateInput) : value → result TaskUpdateInput str := λ _, Ok u.
Definition no_id : value → result TaskIdInput str := λ _, Err [].
Definition all_tasks : value → result TaskListInput str := λ _, Ok (Build_TaskListInput None).
Definition nothing_printed : TaskEntry → str := λ _, [].

Definition make_it : TaskCreateInput :=
  Build_TaskCreateInput (lit "make it") (lit "all of it") None None [] [].

(** Start the task [t], and make it wait for [b]. *)
Definition start_blocked (t b : str) : TaskUpdateInput :=
  {| update_task_id := t; update_status := Some InProgress; update_subject := None;
     update_description := None; update_active_form := None; update_owner := None;
     update_blocks := None; update_blocked_by := Some [b] |}.

Definition two_tasks : TaskLists :=
  do_calls (creates make_it) no_id all_tasks (λ _, Err []) nothing_printed initial_lists
    [(lit "s", Create 7 7 VNull); (lit "t", Create 7 7 VNull); (lit "s", Create 8 8 VNull)].

(** The blockers that count are those before the call: one call can start a
    task and make it wait for another. *)
Lemma started_while_blocked :
  let u := start_blocked (lit "task_7-0") (lit "task_8-2") in
  let s := (task_update (updates u) 9 two_tasks (lit "s") VNull).1 in
  (λ t, (id t, status t, unresolved (blocked_by t) (tasks_of s (lit "s")))) <$>
    tasks_of s (lit "s") =
  [(lit "task_7-0", InProgress, [lit "task_8-2"]); (lit "task_8-2", Pending, [])].
Proof. by vm_compute. Qed.

Lemma task_ids_are_unique_witness :
  (∀ sid, NoDup (id <$> tasks_of two_tasks sid)) ∧
  (id <$> tasks_of two_tasks (lit "s")) = [lit "task_7-0"; lit "task_8-2"].
Proof.
  split; [|by vm_compute].
  apply (task_ids_are_unique (creates make_it) no_id all_tasks (λ _, Err []) nothing_printed
    [(lit "s", Create 7 7 VNull); (lit "t", Create 7 7 VNull); (lit "s", Create 8 8 VNull)]).
  by vm_compute.
Defined.

Lemma sessions_are_isolated_witness :
  tasks_of (do_call (creates make_it) no_id all_tasks (λ _, Err []) nothing_printed two_tasks
    (lit "s", Create 9 9 VNull)).1 (lit "t") = tasks_of two_tasks (lit "t") ∧
  tasks_of two_tasks (lit "t") ≠ [].
Proof.
  split; [|by vm_compute].
  apply (sessions_are_isolated (creates make_it) no_id all_tasks (λ _, Err []) nothing_printed
    two_tasks two_tasks (lit "s") (Create 9 9 VNull)); [by split|by vm_compute].
Defined.

Lemma update_cases_witness :
  let u := start_blocked (lit "task_7-0") (lit "task_8-2") in
  ∃ pre t post, tasks_of two_tasks (lit "s") = pre ++ t :: post ∧ id t = lit "task_7-0" ∧
    tasks_of (task_update (updates u) 9 two_tasks (lit "s") VNull).1 (lit "s") =
      pre ++ apply_update 9 u t :: post.
Proof.
  intros u.
  destruct (update_cases (updates u) 9 two_tasks (lit "s") VNull u eq_refl)
    as [[(t&_&Hf&bid&b&Hbid&_)_]|(_&[[Hf _]|(pre&t&post&E&Hi&_&Ht&_)])].
  - exfalso. vm_compute in Hf. injection Hf as <-. by apply not_elem_of_nil in Hbid.
  - exfalso. by vm_compute in Hf.
  - exists pre, t, post. split_and!; [exact E|exact Hi|exact Ht].
Defined.

Lemma todo_list_accepted_witness :
  todo_validate_input (λ _, Ok [Build_TodoItem (lit "a") TodoInProgress []]) VNull = ValidationOk.
Proof.
  apply (todo_list_accepted (λ _, Ok [Build_TodoItem (lit "a") TodoInProgress []]) [] VNull
           [Build_TodoItem (lit "a") TodoInProgress []] eq_refl).
  split; [by_compute|by repeat constructor].
Defined.
