(* ===== verification/Edit.v ===== *)
(** * Edits of a text ([crates/tools/src/file_edit.rs])

    What the Edit tool makes of a file's text: literal replacements, applied
    in order, all or none; and the diff it answers with.  The hunks of the
    diff are a parameter (the [similar] crate). *)

From stdpp Require Import base option numbers strings pretty list.
From S2P Require Import Prelude RustStr.

#[local] Open Scope result_scope.

(** [ToolError], as far as the file tools raise it. *)
Inductive ToolError :=
  | ErrDenied (m : str)
  | ErrValidation (m : str)
  | ErrExecution (m : str)
  | ErrCancelled
  | ErrSchema (m : str).

Record SingleEdit := {
  old_string : str;
  new_string : str;
  replace_all : option bool;
}.

Record FileEditInput := {
  edit_file_path : str;
  edits : option (list SingleEdit);
  top_old_string : option str;
  top_new_string : option str;
  top_replace_all : option bool;
}.

Definition into_edits (i : FileEditInput) : result (str * list SingleEdit) ToolError :=
  match edits i with
  | Some [] => Err (ErrValidation "edits[] must contain at least one edit")
  | Some es => Ok (edit_file_path i, es)
  | None =>
      match top_old_string i with
      | None =>
          Err (ErrValidation "either `edits` array or `old_string`/`new_string` must be provided")
      | Some old =>
          match top_new_string i with
          | None => Err (ErrValidation "new_string required when edits[] absent")
          | Some new => Ok (edit_file_path i, [Build_SingleEdit old new (top_replace_all i)])
          end
      end
  end.

(** ** Matches *)

(** [str::matches(p).count()]: occurrences from the left that do not overlap;
    the pattern is not empty. *)
Fixpoint count_fuel (n : nat) (p s : str) : nat :=
  match n, s with
  | S n, c :: s' =>
      match strip_prefix p s with
      | Some rest => S (count_fuel n p rest)
      | None => count_fuel n p s'
      end
  | _, _ => 0
  end.

Definition matches_count (p s : str) : nat := count_fuel (length s) p s.

(** [str::replacen(p, to, 1)]. *)
Definition replace_one (p to s : str) : str :=
  match find_sub p s with
  | Some l => l ++ to ++ drop (length l + length p) s
  | None => s
  end.

(** ** The loop over the edits *)

(** One edit of [current]: the new text and how often it replaced. *)
Definition apply_edit (path : str) (idx : nat) (current : str) (e : SingleEdit)
    : result (str * nat) ToolError :=
  let count := matches_count (old_string e) current in
  let all := default false (replace_all e) in
  if bool_decide (count = 0) then
    Err (ErrValidation
      (lit "edit[" ++ lit (pretty idx) ++ lit "]: old_string not found in " ++ path ++
       lit " (after applying previous edits) — make sure it matches exactly, including whitespace"))
  else if bool_decide (1 < count) && negb all then
    Err (ErrValidation
      (lit "edit[" ++ lit (pretty idx) ++ lit "]: old_string appears " ++ lit (pretty count) ++
       lit " times in " ++ path ++
       lit " (after previous edits); pass replace_all=true or include more context to make it unique"))
  else if all then Ok (replace (old_string e) (new_string e) current, count)
  else Ok (replace_one (old_string e) (new_string e) current, 1).

Fixpoint apply_edits (path : str) (idx : nat) (current : str) (total : nat)
    (es : list SingleEdit) : result (str * nat) ToolError :=
  match es with
  | [] => Ok (current, total)
  | e :: es =>
      r ←? apply_edit path idx current e;
      apply_edits path (S idx) r.1 (total + r.2) es
  end.

(** ** The diff *)

Inductive ChangeTag := TagEqual | TagDelete | TagInsert.

(** What [similar] gives for a hunk: its header and its changes. *)
Record SimilarHunk := {
  header : str;
  changes : list (ChangeTag * str);
}.

(** [DiffLine]: the tag and the text. *)
Record DiffLine := {
  line_tag : ChangeTag;
  line_text : str;
}.

Record DiffHunk := {
  before_start : N;
  before_count : N;
  after_start : N;
  after_count : N;
  lines : list DiffLine;
}.

Record DiffPayload := {
  payload_path : str;
  before_bytes : nat;
  after_bytes : nat;
  hunks : list DiffHunk;
  truncated : bool;
}.

Definition parse_pair (s : str) : option (N * N) :=
  match split_once (ch ",") s with
  | Some (a, b) => a ← parse_usize a; b ← parse_usize b; Some (a, b)
  | None => a ← parse_usize s; Some (a, 1%N)
  end.

Definition parse_hunk_header (s : str) : option (N * N * N * N) :=
  let trimmed := trim (trim_end_matches [ch "@"] (trim_start_matches [ch "@"] s)) in
  match split_whitespace trimmed with
  | before_part :: after_part :: _ =>
      b ← parse_pair (trim_start_matches [ch "-"] before_part);
      a ← parse_pair (trim_start_matches [ch "+"] after_part);
      Some (b.1, b.2, a.1, a.2)
  | _ => None
  end.

Definition MAX_LINES : nat := 100.

Definition sign (t : ChangeTag) : str :=
  match t with TagDelete => "-" | TagInsert => "+" | TagEqual => " " end.

(** The text, the lines, the number of lines and whether a limit was hit. *)
Record Rendering := {
  out : str;
  out_hunks : list DiffHunk;
  total_lines : nat;
  cut : bool;
}.

Definition change_text (s : str) : str :=
  match strip_suffix [10%N] s with Some r => r | None => s end.

(** The changes of one hunk, until the limit: the text, its lines and whether
    it stopped early. *)
Fixpoint render_changes (text : str) (total : nat) (cs : list (ChangeTag * str))
    : str * list DiffLine * bool :=
  match cs with
  | [] => (text, [], false)
  | (tag, s) :: cs =>
      if bool_decide (MAX_LINES ≤ total) then (text, [], true)
      else
        let s := change_text s in
        let '(text, ls, stopped) :=
          render_changes (text ++ sign tag ++ s ++ [10%N]) (S total) cs in
        (text, Build_DiffLine tag s :: ls, stopped)
  end.

Fixpoint render_hunks (r : Rendering) (hs : list SimilarHunk) : Rendering :=
  match hs with
  | [] => r
  | h :: hs =>
      if bool_decide (MAX_LINES ≤ total_lines r) then
        {| out := out r ++ [10%N] ++ lit "[diff truncated — too many changes]" ++ [10%N];
           out_hunks := out_hunks r; total_lines := total_lines r; cut := true |}
      else
        let '(b_start, b_count, a_start, a_count) :=
          default (0, 0, 0, 0)%N (parse_hunk_header (header h)) in
        let '(text, ls, stopped) :=
          render_changes (out r ++ header h ++ [10%N]) (total_lines r) (changes h) in
        render_hunks
          {| out := text;
             out_hunks := out_hunks r ++ [Build_DiffHunk b_start b_count a_start a_count ls];
             total_lines := total_lines r + length ls; cut := cut r || stopped |} hs
  end.

Section Diff.
Context (diff_hunks : str → str → list SimilarHunk).

Definition render_diff (before after path : str) : str * DiffPayload :=
  let start := lit "--- " ++ path ++ lit " (before)" ++ [10%N] ++ lit "+++ " ++ path ++
               lit " (after)" ++ [10%N] in
  let r := render_hunks (Build_Rendering start [] 0 false) (diff_hunks before after) in
  let text :=
    if bool_decide (out_hunks r = []) then
      out r ++ lit "(no textual difference detected — strings may differ only in trailing whitespace)" ++
      [10%N]
    else out r in
  (text,
   {| payload_path := path; before_bytes := len before; after_bytes := len after;
      hunks := out_hunks r; truncated := cut r |}).

Definition plural (n : nat) : str := if bool_decide (n = 1) then [] else lit "s".

Definition edit_summary (path original current : str) (edit_count replacements : nat)
    (diff_text : str) : str :=
  lit "Applied " ++ lit (pretty edit_count) ++ lit " edit" ++ plural edit_count ++ lit " (" ++
  lit (pretty replacements) ++ lit " replacement" ++ plural replacements ++ lit ") to " ++ path ++
  lit " (" ++ lit (pretty (len original)) ++ lit " → " ++ lit (pretty (len current)) ++
  lit " bytes)" ++ [10%N; 10%N] ++ diff_text.

End Diff.

(** ** Leftmost decomposition *)

(** [ps] are the pieces of [s] between the occurrences of [p], each taken as
    far left as possible. *)
Inductive split_by (p : str) : str → list str → Prop :=
  | split_last s : find_sub p s = None → split_by p s [s]
  | split_first l rest ps :
      find_sub p (l ++ p ++ rest) = Some l → split_by p rest ps →
      split_by p (l ++ p ++ rest) (l :: ps).

Lemma find_sub_cons p c s :
  find_sub p (c :: s) =
  if starts_with p (c :: s) then Some [] else cons c <$> find_sub p s.
Proof. done. Qed.

Lemma drop_past (l p r : str) : drop (length l + length p) (l ++ p ++ r) = r.
Proof. rewrite app_assoc. apply drop_app_length'. by rewrite length_app. Qed.

Lemma split_by_exists p s : p ≠ [] → ∃ ps, split_by p s ps.
Proof.
  intros Hp. remember (length s) as n eqn:Hn. revert s Hn.
  induction (lt_wf n) as [n _ IH]. intros s ->.
  destruct (find_sub p s) as [l|] eqn:E; [|by exists [s]; constructor].
  pose proof (find_sub_drop _ _ _ E) as Hs. set (rest := drop (length l + length p) s) in *.
  destruct (IH (length rest)) with (s := rest) as [ps Hps]; [|done|].
  - rewrite Hs, !length_app. destruct p; [done|]. cbn. lia.
  - exists (l :: ps). rewrite Hs. constructor; [by rewrite <-Hs|done].
Qed.

Lemma split_by_not_nil p s ps : split_by p s ps → ps ≠ [].
Proof. by destruct 1. Qed.

Lemma split_by_join p s ps : split_by p s ps → join p ps = s.
Proof.
  induction 1 as [s|l rest ps _ Hps IH]; [done|].
  pose proof (split_by_not_nil _ _ _ Hps). destruct ps as [|q ps]; [done|].
  by rewrite join_cons2, IH.
Qed.

(** Fuel for the rest of the text is enough. *)
Lemma scan_step p l rest n :
  p ≠ [] → find_sub p (l ++ p ++ rest) = Some l → length (l ++ p ++ rest) ≤ n →
  ∃ m, length rest ≤ m ∧
    count_fuel n p (l ++ p ++ rest) = S (count_fuel m p rest) ∧
    ∀ to, replace_fuel n p to (l ++ p ++ rest) = l ++ to ++ replace_fuel m p to rest.
Proof.
  intros Hp. revert n. induction l as [|c l IH]; intros n Hf Hn.
  - cbn [app] in *. destruct p as [|x p]; [done|]. destruct n as [|n]; [cbn in Hn; lia|].
    exists n. split; [cbn in Hn; rewrite length_app in Hn; lia|].
    cbn [app count_fuel replace_fuel].
    change (x :: p ++ rest) with ((x :: p) ++ rest). by rewrite strip_prefix_app.
  - cbn [app] in *. rewrite find_sub_cons in Hf.
    destruct (starts_with p (c :: l ++ p ++ rest)) eqn:Hst; [done|].
    apply fmap_Some in Hf as (l'&Hf&[= <-]). destruct n as [|n]; [cbn in Hn; lia|].
    destruct (IH n Hf) as (m&Hm&Hc&Hr); [cbn in Hn; lia|]. exists m. split; [done|].
    cbn [count_fuel replace_fuel]. unfold starts_with in Hst.
    apply bool_decide_eq_false, eq_None_not_Some in Hst. rewrite Hst. split; [done|].
    intros to. by rewrite Hr.
Qed.

Lemma scan_none p s n :
  find_sub p s = None → count_fuel n p s = 0 ∧ ∀ to, replace_fuel n p to s = s.
Proof.
  revert n. induction s as [|c s IH]; intros [|n] Hf; try done.
  rewrite find_sub_cons in Hf.
  destruct (starts_with p (c :: s)) eqn:Hst; [done|]. apply fmap_None in Hf.
  unfold starts_with in Hst. apply bool_decide_eq_false, eq_None_not_Some in Hst.
  cbn [count_fuel replace_fuel]. rewrite Hst. destruct (IH n Hf) as [Hc Hr]. split; [done|].
  intros to. by rewrite Hr.
Qed.

Lemma scan_fuel p s ps n to :
  p ≠ [] → split_by p s ps → length s ≤ n →
  S (count_fuel n p s) = length ps ∧ replace_fuel n p to s = join to ps.
Proof.
  intros Hp Hs. revert n. induction Hs as [s Hnone|l rest ps Hf Hps IH]; intros n Hn.
  - destruct (scan_none p s n Hnone) as [-> Hr]. by rewrite Hr.
  - destruct (scan_step p l rest n Hp Hf Hn) as (m&Hm&->&Hr). rewrite Hr.
    destruct (IH m Hm) as [Hc ->]. split; [cbn [length]; lia|].
    pose proof (split_by_not_nil _ _ _ Hps). destruct ps as [|q ps]; [done|].
    by rewrite join_cons2.
Qed.

Lemma matches_pieces p s ps : p ≠ [] → split_by p s ps → S (matches_count p s) = length ps.
Proof. intros Hp Hs. by apply (scan_fuel p s ps _ []). Qed.

Lemma replace_pieces p to s ps : p ≠ [] → split_by p s ps → replace p to s = join to ps.
Proof. intros Hp Hs. by apply (scan_fuel p s ps). Qed.

Lemma replace_one_pieces p to s l q ps :
  split_by p s (l :: q :: ps) → replace_one p to s = l ++ to ++ join p (q :: ps).
Proof.
  intros Hs. inversion Hs as [|l' rest ps' Hf Hps]; subst.
  unfold replace_one. rewrite Hf, drop_past.
  by rewrite (split_by_join _ _ _ Hps).
Qed.

(** ** One edit *)

(** An edit applies exactly when its text occurs - once, unless every
    occurrence is meant - and then it changes the occurrences and nothing
    between them. *)
Definition edited (e : SingleEdit) (current current' : str) (n : nat) : Prop :=
  ∃ ps, split_by (old_string e) current ps ∧ length ps = S n ∧ 1 ≤ n ∧
    (replace_all e ≠ Some true → n = 1) ∧ current' = join (new_string e) ps.

Lemma apply_edit_spec path idx current e current' n :
  old_string e ≠ [] →
  apply_edit path idx current e = Ok (current', n) ↔ edited e current current' n.
Proof.
  intros Hold. destruct (split_by_exists (old_string e) current Hold) as [ps Hps].
  pose proof (matches_pieces _ _ _ Hold Hps) as Hc.
  assert (Huniq : ∀ ps', split_by (old_string e) current ps' →
    length ps' = length ps ∧ join (new_string e) ps' = join (new_string e) ps).
  { intros ps' Hps'. rewrite <-(matches_pieces _ _ _ Hold Hps'), <-Hc.
    by rewrite <-(replace_pieces _ _ _ _ Hold Hps'), <-(replace_pieces _ _ _ _ Hold Hps). }
  unfold apply_edit. set (count := matches_count (old_string e) current) in *.
  assert (Hall : default false (replace_all e) = true ↔ replace_all e = Some true)
    by (destruct (replace_all e) as [[]|]; naive_solver).
  split.
  - case_bool_decide as H0; [done|]. destruct (_ && _) eqn:Hm; [done|].
    destruct (default false (replace_all e)) eqn:Hd; intros [= <- <-].
    + exists ps. split_and!; [done|lia|lia|naive_solver|by apply replace_pieces].
    + rewrite andb_true_r in Hm. apply bool_decide_eq_false in Hm.
      assert (count = 1) as Hone by lia. exists ps. split_and!; [done|lia|lia|done|].
      destruct ps as [|l [|q [|]]]; cbn [length] in Hc; try lia.
      rewrite (replace_one_pieces _ _ _ _ _ _ Hps). by rewrite join_cons2.
  - intros (ps'&Hps'&Hlen&Hpos&Hone&->). destruct (Huniq ps' Hps') as [Hl Hj].
    rewrite bool_decide_eq_false_2 by lia.
    destruct (default false (replace_all e)) eqn:Hd.
    + rewrite andb_false_r. f_equal. f_equal; [|lia]. rewrite Hj. by apply replace_pieces.
    + assert (n = 1) as -> by (apply Hone; intros ?%Hall; congruence).
      rewrite bool_decide_eq_false_2 by lia. cbn [andb]. f_equal. f_equal. rewrite Hj.
      destruct ps as [|l [|q [|]]]; cbn [length] in *; try lia.
      rewrite (replace_one_pieces _ _ _ _ _ _ Hps). by rewrite join_cons2.
Qed.

(** The texts an edit after the other goes through. *)
Inductive edited_all : str → list SingleEdit → str → nat → Prop :=
  | edited_none s : edited_all s [] s 0
  | edited_some s e s1 n es s2 m :
      edited e s s1 n → edited_all s1 es s2 m → edited_all s (e :: es) s2 (n + m).

Lemma apply_edits_spec path idx current total es r n :
  Forall (λ e, old_string e ≠ []) es →
  apply_edits path idx current total es = Ok (r, n) ↔
  ∃ m, n = total + m ∧ edited_all current es r m.
Proof.
  intros Hes. revert idx current total. induction Hes as [|e es He Hes IH];
    intros idx current total; cbn [apply_edits].
  - split.
    + intros [= <- <-]. exists 0. split; [lia|constructor].
    + intros (m&->&Hm). inversion Hm; subst. by rewrite Nat.add_0_r.
  - split.
    + destruct (apply_edit path idx current e) as [[s1 k]|] eqn:E; [|done].
      apply apply_edit_spec in E; [|done]. cbn [result_bind fst snd].
      intros (m&->&Hm)%IH. exists (k + m). split; [lia|]. by econstructor.
    + intros (m&->&Hm). inversion Hm as [|? ? s1 k ? ? m' He1 Hr]; subst.
      assert (E : apply_edit path idx current e = Ok (s1, k)) by by apply apply_edit_spec.
      rewrite E. cbn [result_bind fst snd]. apply IH. exists m'. split; [lia|done].
Qed.

(** ** The diff *)

Definition shown (c : ChangeTag * str) : DiffLine := Build_DiffLine c.1 (change_text c.2).

Lemma render_changes_spec text total cs text' ls stopped :
  render_changes text total cs = (text', ls, stopped) → total ≤ MAX_LINES →
  ls = shown <$> take (MAX_LINES - total) cs ∧
  stopped = bool_decide (MAX_LINES - total < length cs).
Proof.
  revert text total text' ls stopped. induction cs as [|[tag s] cs IH];
    intros text total text' ls stopped; cbn [render_changes].
  - intros [= <- <- <-] _. rewrite take_nil. split; [done|].
    rewrite bool_decide_eq_false_2; [done|cbn; lia].
  - intros H Hle. case_bool_decide as Ht.
    + injection H as <- <- <-. replace (MAX_LINES - total) with 0 by lia. split; [done|].
      rewrite bool_decide_eq_true_2; [done|cbn; lia].
    + destruct (render_changes _ _ cs) as [[text1 ls1] stopped1] eqn:E.
      apply IH in E as [-> ->]; [|lia]. injection H as <- <- <-.
      replace (MAX_LINES - total) with (S (MAX_LINES - S total)) by lia.
      split; [done|]. apply bool_decide_ext. cbn [length]. unfold MAX_LINES in *. lia.
Qed.

Definition all_changes (hs : list SimilarHunk) : list (ChangeTag * str) := hs ≫= changes.

Lemma render_hunks_spec r hs :
  total_lines r ≤ MAX_LINES →
  let r' := render_hunks r hs in
  total_lines r' ≤ MAX_LINES ∧
  ((out_hunks r' ≫= lines) =
     (out_hunks r ≫= lines) ++ (shown <$> take (MAX_LINES - total_lines r) (all_changes hs))) ∧
  (cut r' = false →
     cut r = false ∧ length (all_changes hs) ≤ MAX_LINES - total_lines r ∧
     length (out_hunks r') = length (out_hunks r) + length hs).
Proof.
  revert r. induction hs as [|h hs IH]; intros r Hr; cbn [render_hunks].
  { split; [done|]. unfold all_changes. cbn [mbind list_bind]. rewrite take_nil, app_nil_r.
    split; [done|]. intros ?. cbn. split_and!; [done|lia|lia]. }
  case_bool_decide as Ht.
  { cbn [total_lines out_hunks cut]. split; [done|].
    replace (MAX_LINES - total_lines r) with 0 by lia. rewrite take_0, app_nil_r. done. }
  destruct (default _ _) as [[[b_start b_count] a_start] a_count].
  destruct (render_changes _ _ _) as [[text ls] stopped] eqn:E.
  apply render_changes_spec in E as [Hls Hst]; [|done].
  set (r1 := {| out := text; out_hunks := _; total_lines := _; cut := _ |}).
  assert (Hlen : length ls = Nat.min (MAX_LINES - total_lines r) (length (changes h)))
    by (by rewrite Hls, length_fmap, length_take).
  destruct (IH r1) as (Ht1&Hl1&Hc1); [cbn [total_lines r1]; lia|]. split; [done|]. split.
  - rewrite Hl1. cbn [out_hunks r1 total_lines]. rewrite bind_app. cbn [mbind list_bind lines].
    rewrite app_nil_r, <-app_assoc. f_equal. unfold all_changes. cbn [mbind list_bind].
    rewrite take_app, fmap_app, <-Hls. do 2 f_equal. f_equal. lia.
  - intros Hcut. destruct (Hc1 Hcut) as (Hc&Hla&Hlh). cbn [cut r1 total_lines out_hunks] in *.
    apply orb_false_iff in Hc as [Hc Hs]. rewrite Hs in Hst. symmetry in Hst.
    apply bool_decide_eq_false in Hst. unfold all_changes in *. cbn [mbind list_bind length].
    rewrite !length_app in *. cbn [length] in *. split_and!; [done|lia|lia].
Qed.

(** ** Theorems *)

(** The diff shows the first hundred changes, in order; it says it was cut
    short unless it shows every change of every hunk. *)
Theorem diff_is_a_prefix diff_hunks before after path :
  let hs := diff_hunks before after in
  let d := (render_diff diff_hunks before after path).2 in
  (hunks d ≫= lines) = shown <$> take MAX_LINES (all_changes hs) ∧
  (truncated d = false →
     length (all_changes hs) ≤ MAX_LINES ∧ length (hunks d) = length hs).
Proof.
  cbn zeta. unfold render_diff. cbn [hunks truncated snd].
  match goal with |- context [render_hunks ?r _] =>
    destruct (render_hunks_spec r (diff_hunks before after)) as (_&Hl&Hc);
    [cbn [total_lines]; lia|] end.
  cbn [out_hunks total_lines cut] in Hl, Hc. rewrite Nat.sub_0_r in Hl, Hc. split; [exact Hl|].
  intros Hcut. destruct (Hc Hcut) as (_&?&?). split; [done|]. done.
Qed.

(** Occurrences that overlap count once: a text that occurs at two places may
    pass for unique. *)
Lemma overlapping_is_unique :
  apply_edit [] 0 (lit "aaa") (Build_SingleEdit (lit "aa") (lit "b") None) = Ok (lit "ba", 1).
Proof. by vm_compute. Qed.

(** A diff cut inside its last hunk says so in its data only. *)
Lemma cut_without_marker :
  let long := replicate 101 (TagInsert, lit "x") in
  let r := render_diff (λ _ _, [Build_SimilarHunk (lit "@@ -1,0 +1,101 @@") long]) [] [] [] in
  truncated r.2 = true ∧ contains "[diff truncated" r.1 = false.
Proof. by vm_compute. Qed.

Lemma header_is_read : parse_hunk_header (lit "@@ -12,3 +14 @@") = Some (12, 3, 14, 1)%N.
Proof. by vm_compute. Qed.
