(* ===== verification/FileTools.v ===== *)
(** * The file tools ([crates/tools/src/file_read.rs], [file_write.rs],
      [file_edit.rs], [security.rs]; the read tracking of
      [crates/core/src/context/session.rs]; [FileSystem] of
      [crates/core/src/interface/exec/filesystem.rs])

    Read, Write and Edit over a file system: what they validate, what they
    ask permission for, what they do, and the record of reads that tells an
    edit from a guess.

    [locate] is where the operating system says a path leads; links do not
    change.  A present file can be read; writing may fail.  A call is
    cancelled before it starts or not at all.  Images, documents and
    notebooks are read by the parameter [read_special], and an operating
    system's error is the parameter [os_error]. *)

From stdpp Require Import base option numbers sets gmap strings pretty list.
From S2P Require Import Prelude RustStr PermTypes Path PathSafety Gate Lines Edit.

#[local] Open Scope result_scope.

#[export] Instance Component_countable : Countable Component.
Proof.
  apply (inj_countable'
    (λ c, match c with
          | RootDir => inl 0 | CurDir => inl 1 | ParentDir => inl 2 | Normal s => inr s
          end)
    (λ x : nat + str, match x with
          | inl 0 => RootDir | inl 1 => CurDir | inl _ => ParentDir | inr s => Normal s
          end)).
  by intros [].
Defined.

(** ** The file system *)

Inductive Node :=
  | Dir
  | TextFile (text : str)
  | BinaryFile (size : nat).

(** What is at each place, and when it was last written. *)
Notation World := (gmap str (Node * Z)).

Inductive ExecError := ExecDenied (m : str) | ExecFailed (m : str).

Definition from_exec (e : ExecError) : ToolError :=
  match e with ExecDenied m => ErrDenied m | ExecFailed m => ErrExecution m end.

Record Metadata := {
  is_dir : bool;
  meta_len : nat;
}.

(** How a write ends: done; refused; or torn after some characters. *)
Inductive WriteIo := Written | NotWritten (e : ExecError) | Torn (n : nat) (e : ExecError).

Section FileSystem.
Context (locate : str → str) (os_error : str → str).

Definition fs_canonicalize (w : World) (p : str) : option str :=
  let q := locate p in if bool_decide (is_Some (w !! q)) then Some q else None.

Definition node_metadata (n : Node) : Metadata :=
  match n with
  | Dir => Build_Metadata true 0
  | TextFile t => Build_Metadata false (len t)
  | BinaryFile n => Build_Metadata false n
  end.

Definition metadata_following_symlinks (w : World) (p : str) : result Metadata ExecError :=
  match fs_canonicalize w p ≫= (λ q, w !! q) with
  | Some (n, _) => Ok (node_metadata n)
  | None => Err (ExecFailed (os_error p))
  end.

(** [String::from_utf8(fs.read(path)?)]; [invalid] when it is not text. *)
Definition read_text (w : World) (p : str) (invalid : ToolError) : result str ToolError :=
  match w !! locate p with
  | Some (TextFile t, _) => Ok t
  | Some (BinaryFile _, _) => Err invalid
  | Some (Dir, _) | None => Err (from_exec (ExecFailed (os_error p)))
  end.

Definition is_directory (w : World) (q : str) : bool :=
  match w !! q with Some (Dir, _) => true | _ => false end.

Definition write_str (now : Z) (io : WriteIo) (w : World) (p text : str)
    : World * result () ExecError :=
  let q := locate p in
  if is_directory w q || negb (from_option (is_directory w) false (parent q))
  then (w, Err (ExecFailed (os_error p)))
  else
    match io with
    | Written => (<[q := (TextFile text, now)]> w, Ok ())
    | NotWritten e => (w, Err e)
    | Torn n e => (<[q := (TextFile (take n text), now)]> w, Err e)
    end.

(** [create_dir_all]: every directory on the way, unless a file is there. *)
Definition create_dir_all (now : Z) (w : World) (p : str) : World * result () ExecError :=
  let above := ancestors (locate p) in
  if existsb (λ q, match w !! q with Some (Dir, _) | None => false | _ => true end) above
  then (w, Err (ExecFailed (os_error p)))
  else (w ∪ list_to_map ((λ q, (q, (Dir, now))) <$> above), Ok ()).

(** [canonicalize_best_effort]: the deepest ancestor that exists, resolved,
    and the rest put back on. *)
Fixpoint best_effort (fuel : nat) (w : World) (path cursor : str) (unresolved : list str) : str :=
  match fs_canonicalize w cursor with
  | Some resolved => foldl push resolved (reverse unresolved)
  | None =>
      match file_name cursor with
      | None => path
      | Some name =>
          match fuel, parent cursor with
          | S fuel, Some p =>
              if bool_decide (p = []) then path
              else best_effort fuel w path p (unresolved ++ [name])
          | _, _ => path
          end
      end
  end.

Definition canonicalize_best_effort (w : World) (path : str) : str :=
  best_effort (length (components path)) w path path [].

(** ** The record of reads *)

Record FileReadEntry := {
  mtime : Z;
  entry_offset : option nat;
  entry_limit : option nat;
}.

(** Paths are keys by their components. *)
Record ReadTracking := {
  read_cache : gmap (list Component) FileReadEntry;
  last_read_path : option (list Component);
}.

Definition no_reads : ReadTracking := Build_ReadTracking ∅ None.

(** [std::fs::metadata(path)?.modified()?]. *)
Definition modified (w : World) (p : str) : option Z := (λ n : Node * Z, n.2) <$> w !! locate p.

Definition record_read_with_range (w : World) (r : ReadTracking) (p : str)
    (offset limit : option nat) : ReadTracking :=
  match modified w p with
  | Some m =>
      Build_ReadTracking (<[components p := Build_FileReadEntry m offset limit]> (read_cache r))
        (Some (components p))
  | None => r
  end.

Definition check_read_staleness (w : World) (r : ReadTracking) (p : str) : option str :=
  match modified w p with
  | None => None
  | Some current_mtime =>
      match read_cache r !! components p with
      | None => Some (lit "File must be read before editing. Use the Read tool first.")
      | Some entry =>
          if bool_decide (mtime entry = current_mtime) then None
          else Some (lit "File has been modified since it was read. Re-read it first.")
      end
  end.

Definition check_read_dedup_with_range (w : World) (r : ReadTracking) (p : str)
    (offset limit : option nat) : bool :=
  match modified w p, read_cache r !! components p with
  | Some current_mtime, Some entry =>
      bool_decide (mtime entry = current_mtime) && bool_decide (entry_offset entry = offset) &&
      bool_decide (entry_limit entry = limit)
  | _, _ => false
  end.

Definition is_consecutive_read (r : ReadTracking) (p : str) : bool :=
  bool_decide (last_read_path r = Some (components p)).

(** ** What a call is given *)

Record FileCtx := {
  ctx_cwd : str;
  additional_writable_dirs : list str;
  sandbox_allow_write : list str;
  sandbox_deny_write : list str;
  cancelled : bool;
  max_file_read_bytes : nat;
}.

(** The one in each of the three files. *)
Definition resolve_path (s cwd : str) : str := if is_absolute s then s else path_join cwd s.

Definition write_policy (w : World) (c : FileCtx) : WritePolicy :=
  {| primary_root := canonicalize_best_effort w (ctx_cwd c);
     additional_roots := canonicalize_best_effort w <$> additional_writable_dirs c;
     extra_blacklist := sandbox_deny_write c;
     allow := canonicalize_best_effort w <$> sandbox_allow_write c |}.

(** The host's file system, as the symbolic-link check sees it. *)
Definition host (w : World) : HostEnv :=
  {| canonicalize := fs_canonicalize w; env_HOME := None; env_USERPROFILE := None |}.

Section Tools.
Context {UN : UnicodeNormalization} (show_error : PathSafetyError → str).

(** [check_permissions] of Write and Edit, given their input's path; [None] is
    a panic. *)
Definition check_write_permissions (what : str) (w : World) (c : FileCtx) (file_path : str)
    : option ToolDecision :=
  let path := normalize_path_lexically (resolve_path file_path (ctx_cwd c)) in
  let path := canonicalize_best_effort w path in
  match @check_write_for (host w) UN file_path path (write_policy w c) with
  | Ok _ => Some (ToolAllow (Some (lit "project_write")))
  | Err (Refused (OutsideAllowedRoots _ _ _)) =>
      Some (ToolAsk (what ++ lit " outside the project requires confirmation") None)
  | Err (Refused e) => Some (ToolDeny (Some (show_error e)) (Some (lit "path_safety")))
  | Err Panicked => None
  end.

(** What Write and Edit validate of an existing file. *)
Definition staleness (w : World) (r : ReadTracking) (c : FileCtx) (file_path : str) : option str :=
  check_read_staleness w r (normalize_path_lexically (resolve_path file_path (ctx_cwd c))).

(** *** Write *)

Definition MAX_WRITE_BYTES : nat := Z.to_nat (100 * 1024 * 1024).

Record FileWriteInput := {
  write_file_path : str;
  write_content : str;
}.

Definition write_validate_input (decode : value → result FileWriteInput str) (w : World)
    (r : ReadTracking) (c : FileCtx) (input : value) : ValidationResult :=
  match decode input with
  | Ok p =>
      if bool_decide (write_file_path p = []) then ValidationErr "file_path must not be empty" 1
      else if bool_decide (MAX_WRITE_BYTES < len (write_content p)) then
        ValidationErr (lit "content too large (" ++ lit (pretty (len (write_content p))) ++
          lit " bytes); cap is " ++ lit (pretty MAX_WRITE_BYTES) ++ lit " bytes") 3
      else
        match staleness w r c (write_file_path p) with
        | Some msg => ValidationErr msg 4
        | None => ValidationOk
        end
  | Err e => ValidationErr (lit "invalid input: " ++ e) 2
  end.

(** [write_file]; the first time is that of the directories. *)
Definition write_file (now : Z) (io : WriteIo) (w : World) (path content : str)
    : World * result nat ToolError :=
  let '(w, made) :=
    match parent path with
    | Some parent =>
        if negb (bool_decide (parent = [])) && negb (is_ok (metadata_following_symlinks w parent))
        then create_dir_all now w parent
        else (w, Ok ())
    | None => (w, Ok ())
    end in
  match made with
  | Err (ExecDenied m) => (w, Err (ErrValidation (lit "cannot create parent dir: refused by policy: " ++ m)))
  | Err (ExecFailed m) => (w, Err (ErrValidation (lit "cannot create parent dir: " ++ m)))
  | Ok _ =>
      match write_str now io w path content with
      | (w, Ok _) => (w, Ok (len content))
      | (w, Err e) => (w, Err (from_exec e))
      end
  end.

Definition write_call (now : Z) (io : WriteIo) (decode : value → result FileWriteInput str)
    (w : World) (c : FileCtx) (input : value) : World * result str ToolError :=
  match decode input with
  | Err e => (w, Err (ErrSchema e))
  | Ok input =>
      let path := resolve_path (write_file_path input) (ctx_cwd c) in
      if cancelled c then (w, Err ErrCancelled)
      else
        match write_file now io w path (write_content input) with
        | (w, Ok bytes) =>
            (w, Ok (lit "Wrote " ++ lit (pretty bytes) ++ lit " byte" ++ plural bytes ++
                    lit " to " ++ path))
        | (w, Err e) => (w, Err e)
        end
  end.

(** *** Edit *)

(** The edits that are refused as they stand, the first one first. *)
Fixpoint edits_fault (i : nat) (es : list SingleEdit) : option ValidationResult :=
  match es with
  | [] => None
  | e :: es =>
      if bool_decide (old_string e = []) then
        Some (ValidationErr (lit "edits[" ++ lit (pretty i) ++ lit "].old_string must not be empty") 3)
      else if bool_decide (old_string e = new_string e) then
        Some (ValidationErr (lit "edits[" ++ lit (pretty i) ++
          lit "].old_string == new_string — nothing to change") 4)
      else edits_fault (S i) es
  end.

Definition edit_validate_input (decode : value → result FileEditInput str) (w : World)
    (r : ReadTracking) (c : FileCtx) (input : value) : ValidationResult :=
  match decode input with
  | Ok p =>
      if bool_decide (edit_file_path p = []) then ValidationErr "file_path must not be empty" 1
      else
        match staleness w r c (edit_file_path p) with
        | Some msg => ValidationErr msg 8
        | None =>
            match edits p with
            | Some [] => ValidationErr "edits[] must not be empty" 2
            | Some es => default ValidationOk (edits_fault 0 es)
            | None =>
                let old := default [] (top_old_string p) in
                let new := default [] (top_new_string p) in
                if bool_decide (old = []) then
                  ValidationErr "either `edits` array or `old_string` must be provided" 5
                else if bool_decide (old = new) then
                  ValidationErr "old_string and new_string are identical — nothing to change" 6
                else ValidationOk
            end
        end
  | Err e => ValidationErr (lit "invalid input: " ++ e) 7
  end.

Definition MAX_EDIT_BYTES : N := (1024 * 1024 * 1024)%N.

(** [perform_edits_structured]. *)
Definition perform_edits (diff_hunks : str → str → list SimilarHunk) (now : Z) (io : WriteIo)
    (w : World) (path : str) (es : list SingleEdit) : World * result (str * DiffPayload) ToolError :=
  match metadata_following_symlinks w path with
  | Err (ExecFailed _) => (w, Err (ErrValidation (lit "file not found: " ++ path)))
  | Err other => (w, Err (from_exec other))
  | Ok m =>
      if is_dir m then
        (w, Err (ErrValidation (lit "path is a directory, not a file: " ++ path)))
      else if bool_decide (MAX_EDIT_BYTES < N.of_nat (meta_len m))%N then
        (w, Err (ErrValidation (lit "file is " ++ lit (pretty (meta_len m)) ++
               lit " bytes; max edit size is " ++ lit (pretty MAX_EDIT_BYTES) ++ lit " bytes")))
      else
        match read_text w path (ErrValidation (lit "file is not valid UTF-8: " ++ path)) with
        | Err e => (w, Err e)
        | Ok original =>
            match apply_edits path 0 original 0 es with
            | Err e => (w, Err e)
            | Ok (current, total) =>
                match write_str now io w path current with
                | (w, Err e) => (w, Err (from_exec e))
                | (w, Ok _) =>
                    let '(diff_text, diff) := render_diff diff_hunks original current path in
                    (w, Ok (edit_summary path original current (length es) total diff_text, diff))
                end
            end
        end
  end.

Definition edit_call (diff_hunks : str → str → list SimilarHunk) (now : Z) (io : WriteIo)
    (decode : value → result FileEditInput str) (w : World) (c : FileCtx) (input : value)
    : World * result (str * DiffPayload) ToolError :=
  match decode input with
  | Err e => (w, Err (ErrSchema e))
  | Ok input =>
      match into_edits input with
      | Err e => (w, Err e)
      | Ok (file_path, es) =>
          if cancelled c then (w, Err ErrCancelled)
          else perform_edits diff_hunks now io w (resolve_path file_path (ctx_cwd c)) es
      end
  end.

(** *** Read *)

Record FileReadInput := {
  read_file_path : str;
  offset : option nat;
  limit : option nat;
  pages : option str;
}.

Definition BINARY_EXTENSIONS : list str :=
  [lit ".exe"; lit ".dll"; lit ".so"; lit ".dylib"; lit ".class"; lit ".o"; lit ".a"; lit ".bin";
   lit ".wasm"].

Definition read_validate_input (decode : value → result FileReadInput str) (input : value)
    : ValidationResult :=
  match decode input with
  | Ok p =>
      if bool_decide (read_file_path p = []) then ValidationErr "file_path must not be empty" 1
      else
        let lowered := to_lowercase (read_file_path p) in
        if starts_with "/dev/" lowered then ValidationErr "cannot read from /dev/ paths" 5
        else
          match find_first (λ ext, ends_with ext lowered) BINARY_EXTENSIONS with
          | Some ext =>
              ValidationErr (lit "cannot read binary files (" ++ ext ++
                lit "); use Bash to inspect if needed") 6
          | None => ValidationOk
          end
  | Err e => ValidationErr (lit "invalid input: " ++ e) 2
  end.

(** [security::canonicalize_best_effort], which goes up one directory. *)
Definition security_canonicalize (w : World) (p : str) : str :=
  match fs_canonicalize w p with
  | Some q => q
  | None =>
      match parent p with
      | Some d => path_join (default d (fs_canonicalize w d)) (default [] (file_name p))
      | None => p
      end
  end.

Definition read_check_permissions (decode : value → result FileReadInput str) (w : World)
    (c : FileCtx) (input : value) : ToolDecision :=
  let ask := ToolAsk "Read outside the project requires confirmation" None in
  match decode input with
  | Ok p =>
      let path := normalize_path_lexically (resolve_path (read_file_path p) (ctx_cwd c)) in
      let cwd := normalize_path_lexically (ctx_cwd c) in
      if path_starts_with (security_canonicalize w path) (security_canonicalize w cwd)
      then ToolAllow None else ask
  | Err _ => ask
  end.

Definition pad_left (width : nat) (s : str) : str := replicate (width - length s) 32%N ++ s.

Definition shorten (max_line_chars : nat) (line : str) : str :=
  if bool_decide (max_line_chars < length line)
  then take max_line_chars line ++ lit "…[truncated]" else line.

(** The lines numbered from [offset], at most [limit] of them. *)
Definition numbered (i : nat) (line : str) : str :=
  pad_left 6 (lit (pretty (i + 1))) ++ [9%N] ++ line ++ [10%N].

Definition format_with_line_numbers (content : str) (offset limit max_line_chars : nat) : str :=
  let ls := Lines.lines content in
  let total := length ls in
  let skip := offset - 1 in
  let actually_read := Nat.min (total - skip) limit in
  let out :=
    (take limit (drop skip (enumerate ls))) ≫=
      λ il : nat * str, numbered il.1 (shorten max_line_chars il.2) in
  if bool_decide (actually_read = 0) && bool_decide (0 < total) && bool_decide (total ≤ skip)
  then out ++ lit "[no lines: file has " ++ lit (pretty total) ++ lit " lines; offset=" ++
       lit (pretty offset) ++ lit " skipped past end]" ++ [10%N]
  else out.

Definition SPECIAL_EXTENSIONS : list str :=
  [lit "png"; lit "jpg"; lit "jpeg"; lit "gif"; lit "webp"; lit "bmp"; lit "pdf"; lit "ipynb"].

Definition DEFAULT_READ_LINES : nat := Z.to_nat 2000.
Definition MAX_LINE_CHARS : nat := Z.to_nat 2000.

Definition EMPTY_WARNING : str :=
  "<system-reminder>Warning: the file exists but the contents are empty.</system-reminder>".

Definition read_file_to_text
    (read_special : World → str → FileReadInput → result str ToolError) (w : World) (path : str)
    (input : FileReadInput) (max_bytes : nat) : result str ToolError :=
  match metadata_following_symlinks w path with
  | Err (ExecFailed _) => Err (ErrExecution (lit "file not found: " ++ path))
  | Err other => Err (from_exec other)
  | Ok m =>
      if is_dir m then Err (ErrValidation (lit "path is a directory, not a file: " ++ path))
      else if bool_decide (to_lowercase (default [] (extension path)) ∈ SPECIAL_EXTENSIONS)
      then read_special w path input
      else if bool_decide (max_bytes < meta_len m) then
        Err (ErrValidation (lit "file too large (" ++ lit (pretty (meta_len m)) ++
               lit " bytes); cap is " ++ lit (pretty max_bytes) ++
               lit " bytes. Use Grep / Glob or pass a smaller window."))
      else
        content ←? read_text w path (ErrValidation (lit "file is not valid UTF-8 (possible binary file): " ++
                     path ++ lit ". Use Bash with `file " ++ path ++ lit "` to inspect the type."));
        if bool_decide (trim content = []) then Ok EMPTY_WARNING
        else Ok (format_with_line_numbers content (Nat.max (default 1 (offset input)) 1)
                   (default DEFAULT_READ_LINES (limit input)) MAX_LINE_CHARS)
  end.

Definition UNCHANGED : str := "[file unchanged] Use the previous content.".
Definition UNCHANGED_LATER : str :=
  "[file unchanged] File unchanged since last read. Use the previous content.".

Definition read_call (read_special : World → str → FileReadInput → result str ToolError)
    (decode : value → result FileReadInput str) (w : World) (r : ReadTracking) (c : FileCtx)
    (input : value) : ReadTracking * result str ToolError :=
  match decode input with
  | Err e => (r, Err (ErrSchema e))
  | Ok input =>
      let path := resolve_path (read_file_path input) (ctx_cwd c) in
      if check_read_dedup_with_range w r path (offset input) (limit input) then
        (r, Ok (if is_consecutive_read r path then UNCHANGED else UNCHANGED_LATER))
      else if cancelled c then (r, Err ErrCancelled)
      else
        let max_bytes := Nat.max (max_file_read_bytes c) (Z.to_nat (1024 * 1024)) in
        match read_file_to_text read_special w path input max_bytes with
        | Ok text => (record_read_with_range w r path (offset input) (limit input), Ok text)
        | Err (ErrExecution e) =>
            if contains "not found" e then (r, Ok (lit "(no such file) " ++ path))
            else (r, Err (ErrExecution e))
        | Err e => (r, Err e)
        end
  end.

End Tools.
End FileSystem.

(** ** A session's history *)

(** The tools' calls, and what others write ([Some]) or remove. *)
Inductive FileOp :=
  | OpRead (c : FileCtx) (input : value)
  | OpWrite (c : FileCtx) (now : Z) (io : WriteIo) (input : value)
  | OpEdit (c : FileCtx) (now : Z) (io : WriteIo) (input : value)
  | OpExternal (now : Z) (place : str) (node : option Node).

Section History.
Context (locate : str → str) (os_error : str → str) (diff_hunks : str → str → list SimilarHunk)
  (read_special : World → str → FileReadInput → result str ToolError)
  (decode_read : value → result FileReadInput str)
  (decode_write : value → result FileWriteInput str)
  (decode_edit : value → result FileEditInput str).

Definition file_step (s : World * ReadTracking) (op : FileOp) : World * ReadTracking :=
  let '(w, r) := s in
  match op with
  | OpRead c input =>
      (w, (read_call locate os_error read_special decode_read w r c input).1)
  | OpWrite c now io input => ((write_call locate os_error now io decode_write w c input).1, r)
  | OpEdit c now io input => ((edit_call locate os_error diff_hunks now io decode_edit w c input).1, r)
  | OpExternal now place None => (base.delete place w, r)
  | OpExternal now place (Some n) => (<[place := (n, now)]> w, r)
  end.

(** The operation does not read the path again. *)
Definition not_reread (path : str) (op : FileOp) : Prop :=
  match op with
  | OpRead c input =>
      ∀ i, decode_read input = Ok i →
        components (resolve_path (read_file_path i) (ctx_cwd c)) ≠ components path
  | _ => True
  end.

(** The time stamp of what the operation writes: the clock's, or any other
    that someone else gives a file. *)
Definition stamp (op : FileOp) : option Z :=
  match op with
  | OpRead _ _ => None
  | OpWrite _ now _ _ | OpEdit _ now _ _ | OpExternal now _ _ => Some now
  end.

(** *** What an operation touches *)

(** Every place is as it was or written at [now]. *)
Definition touched (now : Z) (w w' : World) : Prop :=
  ∀ q, w' !! q = w !! q ∨ ∃ n, w' !! q = Some (n, now).

#[local] Instance touched_refl now : Reflexive (touched now).
Proof. by left. Qed.

#[local] Instance touched_trans now : Transitive (touched now).
Proof.
  intros w1 w2 w3 H1 H2 q. destruct (H2 q) as [->|?]; [apply H1|by right].
Qed.

Lemma write_str_cases now io w p text :
  let r := write_str locate os_error now io w p text in
  (r.1 = w ∧ ∃ e, r.2 = Err e) ∨
  (io = Written ∧ r.1 = <[locate p := (TextFile text, now)]> w ∧ r.2 = Ok ()) ∨
  (∃ n e, io = Torn n e ∧ r.1 = <[locate p := (TextFile (take n text), now)]> w ∧ r.2 = Err e).
Proof.
  unfold write_str. destruct (_ || _); [left; split; [done|by eexists]|].
  destruct io as [|e|n e].
  - right. by left.
  - left. split; [done|by eexists].
  - right. right. by eexists _, _.
Qed.

Lemma write_str_touched now io w p text :
  touched now w (write_str locate os_error now io w p text).1.
Proof.
  intros q. destruct (write_str_cases now io w p text) as [[-> _]|[(_&->&_)|(n&e&_&->&_)]];
    [by left|..]; destruct (decide (q = locate p)) as [->|Hne].
  - right. rewrite lookup_insert_eq. by eexists.
  - left. by rewrite lookup_insert_ne.
  - right. rewrite lookup_insert_eq. by eexists.
  - left. by rewrite lookup_insert_ne.
Qed.

Lemma create_dir_all_touched now w p : touched now w (create_dir_all locate os_error now w p).1.
Proof.
  unfold create_dir_all. destruct (existsb _ _); [done|]. cbn [fst]. intros q.
  destruct (w !! q) as [n|] eqn:E.
  - left. by apply lookup_union_Some_l.
  - rewrite lookup_union_r by done.
    destruct (list_to_map _ !! q) as [n|] eqn:El; [|by left].
    apply elem_of_list_to_map_2 in El. apply list_elem_of_fmap in El as (x&[= -> ->]&_).
    right. by eexists.
Qed.

Lemma write_file_touched now io w p content :
  touched now w (write_file locate os_error now io w p content).1.
Proof.
  unfold write_file.
  set (made := match parent p with Some _ => _ | None => _ end).
  assert (Hm : touched now w made.1).
  { unfold made. destruct (parent p); [|done]. destruct (_ && _); [|done].
    apply create_dir_all_touched. }
  destruct made as [w1 [[]|[]]]; cbn [fst] in *; try done.
  pose proof (write_str_touched now io w1 p content) as Hw.
  destruct (write_str _ _ _ _ _ _ _) as [w2 []]; cbn [fst] in *; by etrans.
Qed.

Lemma perform_edits_touched now io w p es :
  touched now w (perform_edits locate os_error diff_hunks now io w p es).1.
Proof.
  unfold perform_edits. destruct (metadata_following_symlinks _ _ _ _) as [m|[]]; try done.
  destruct (is_dir m); [done|]. case_bool_decide; [done|].
  destruct (read_text _ _ _ _) as [original|]; [|done].
  destruct (apply_edits _ _ _ _ _) as [[current total]|]; [|done].
  pose proof (write_str_touched now io w p current) as Hw.
  destruct (write_str _ _ _ _ _ _ _) as [w2 []]; cbn [fst] in *; [|done].
  by destruct (render_diff _ _ _ _).
Qed.

(** *** What stays of what was read *)

(** Every place is gone, as it was, or bears the stamp of one of the
    operations. *)
Definition stamped (ops : list FileOp) (w w' : World) : Prop :=
  ∀ q, w' !! q = None ∨ w' !! q = w !! q ∨
       ∃ op n t, op ∈ ops ∧ stamp op = Some t ∧ w' !! q = Some (n, t).

Lemma touched_stamped op now ops w w1 w2 :
  op ∈ ops → stamp op = Some now → stamped ops w w1 → touched now w1 w2 → stamped ops w w2.
Proof.
  intros Hin Hop H1 H2 q. destruct (H2 q) as [->|(n&->)]; [apply H1|].
  right. right. by exists op, n, now.
Qed.

Lemma read_call_keeps w r c input key :
  (∀ i, decode_read input = Ok i →
     components (resolve_path (read_file_path i) (ctx_cwd c)) ≠ key) →
  read_cache (read_call locate os_error read_special decode_read w r c input).1 !! key =
  read_cache r !! key.
Proof.
  intros Hkey. unfold read_call. destruct (decode_read input) as [i|e]; [|done].
  specialize (Hkey i eq_refl). destruct (check_read_dedup_with_range _ _ _ _ _ _); [done|].
  destruct (cancelled c); [done|].
  destruct (read_file_to_text _ _ _ _ _ _ _) as [text|[]]; try done.
  - cbn [fst]. unfold record_read_with_range. destruct (modified _ _ _); [|done].
    cbn [read_cache]. by rewrite lookup_insert_ne.
  - by destruct (contains _ _).
Qed.

Lemma file_step_stamped path w r op ops w0 :
  op ∈ ops → not_reread path op → stamped ops w0 w →
  stamped ops w0 (file_step (w, r) op).1 ∧
  read_cache (file_step (w, r) op).2 !! components path = read_cache r !! components path.
Proof.
  intros Hin Hop Hw. destruct op as [c input|c now io input|c now io input|now place [n|]];
    cbn [file_step not_reread fst snd] in *.
  - split; [done|]. by apply read_call_keeps.
  - split; [|done]. unfold write_call. destruct (decode_write input) as [i|e]; [|done].
    destruct (cancelled c); [done|].
    pose proof (write_file_touched now io w (resolve_path (write_file_path i) (ctx_cwd c))
                  (write_content i)) as Ht.
    destruct (write_file _ _ _ _ _ _ _) as [w1 []]; cbn [fst] in *; by eapply touched_stamped.
  - split; [|done]. unfold edit_call. destruct (decode_edit input) as [i|e]; [|done].
    destruct (into_edits i) as [[p es]|e]; [|done]. destruct (cancelled c); [done|].
    eapply touched_stamped; [done..|]. apply perform_edits_touched.
  - split; [|done]. intros q. destruct (decide (q = place)) as [->|Hne].
    + right. right. rewrite lookup_insert_eq. by eexists _, _, _.
    + rewrite lookup_insert_ne by done. apply Hw.
  - split; [|done]. intros q. destruct (decide (q = place)) as [->|Hne].
    + left. by rewrite lookup_delete_eq.
    + rewrite lookup_delete_ne by done. apply Hw.
Qed.

Lemma file_steps_stamped path all ops w r w0 :
  ops ⊆ all → Forall (not_reread path) ops → stamped all w0 w →
  stamped all w0 (foldl file_step (w, r) ops).1 ∧
  read_cache (foldl file_step (w, r) ops).2 !! components path = read_cache r !! components path.
Proof.
  intros Hsub Hops. revert Hsub w r. induction Hops as [|op ops Hop _ IH]; intros Hsub w r Hw; [done|].
  cbn [foldl]. destruct (file_step_stamped path w r op all w0) as [Hw1 Hc]; [apply Hsub; left|done..|].
  destruct (file_step (w, r) op) as [w1 r1]. cbn [fst snd] in *.
  destruct (IH ltac:(intros x Hx; apply Hsub; by right) w1 r1 Hw1) as [Hw2 Hc2]. split; [done|]. congruence.
Qed.

Lemma Ok_inj {T E} (x y : T) : @Ok T E x = Ok y → x = y.
Proof. by intros [=]. Qed.

(** *** One edit of a file *)

Lemma read_text_Ok w p invalid t :
  read_text locate os_error w p invalid = Ok t ↔ ∃ m, w !! locate p = Some (TextFile t, m).
Proof.
  unfold read_text. destruct (w !! locate p) as [[[]]|]; split; naive_solver.
Qed.

Lemma perform_edits_cases now io w p es :
  let '(w', r) := perform_edits locate os_error diff_hunks now io w p es in
  (w' = w ∧ ∃ e, r = Err e) ∨
  ∃ text m text' total, w !! locate p = Some (TextFile text, m) ∧
    (N.of_nat (len text) ≤ MAX_EDIT_BYTES)%N ∧
    apply_edits p 0 text 0 es = Ok (text', total) ∧
    ((io = Written ∧ w' = <[locate p := (TextFile text', now)]> w ∧
      ∃ diff, r = Ok (edit_summary p text text' (length es) total diff.1, diff.2) ∧
        diff = render_diff diff_hunks text text' p) ∨
     ∃ n e, io = Torn n e ∧ w' = <[locate p := (TextFile (take n text'), now)]> w ∧
       r = Err (from_exec e)).
Proof.
  unfold perform_edits, metadata_following_symlinks, fs_canonicalize.
  destruct (w !! locate p) as [[n m]|] eqn:E.
  2:{ rewrite bool_decide_eq_false_2 by (by intros []). left. split; [done|by eexists]. }
  rewrite bool_decide_eq_true_2 by done. cbn [mbind option_bind]. rewrite E.
  destruct n as [|text|size]; cbn [node_metadata is_dir meta_len].
  - left. split; [done|by eexists].
  - case_bool_decide as Hl; [left; split; [done|by eexists]|].
    unfold read_text. rewrite E.
    destruct (apply_edits p 0 text 0 es) as [[text' total]|e] eqn:Ha;
      [|left; split; [done|by eexists]].
    destruct (write_str_cases now io w p text') as [[Hw [e Hr]]|[(->&Hw&Hr)|(k&e&->&Hw&Hr)]];
      destruct (write_str _ _ _ _ _ _ _) as [w1 r1]; cbn [fst snd] in *; subst w1 r1.
    + left. split; [done|by eexists].
    + destruct (render_diff diff_hunks text text' p) as [dt d] eqn:Hd. right.
      exists text, m, text', total. split_and!; [done|lia|done|]. left. split_and!; [done..|].
      by exists (dt, d).
    + right. exists text, m, text', total. split_and!; [done|lia|done|]. right.
      by exists k, e.
  - case_bool_decide; [left; split; [done|by eexists]|].
    unfold read_text. rewrite E. left. split; [done|by eexists].
Qed.

End History.

(** ** Theorems *)

Section Theorems.
Context (locate : str → str) (os_error : str → str) (diff_hunks : str → str → list SimilarHunk)
  (read_special : World → str → FileReadInput → result str ToolError)
  (decode_read : value → result FileReadInput str)
  (decode_write : value → result FileWriteInput str)
  (decode_edit : value → result FileEditInput str).

(** C27. A batch of edits is all or nothing, as far as the disk allows: when the
    call succeeds, the file's text went through every edit in turn, each of
    them applied to all the places it means and no others, and nothing else
    in the file system changed; when it fails, nothing changed at all, unless
    the write itself was torn. *)
Theorem edits_all_or_nothing now io w p es w' r :
  Forall (λ e, old_string e ≠ []) es →
  perform_edits locate os_error diff_hunks now io w p es = (w', r) →
  (∃ text text' m n answer, r = Ok answer ∧ w !! locate p = Some (TextFile text, m) ∧
     edited_all text es text' n ∧ w' = <[locate p := (TextFile text', now)]> w) ∨
  (is_ok r = false ∧ w' = w) ∨
  (is_ok r = false ∧ ∃ k e text, io = Torn k e ∧
     w' = <[locate p := (TextFile (take k text), now)]> w).
Proof.
  intros Hes Hr. pose proof (perform_edits_cases locate os_error diff_hunks now io w p es) as H.
  rewrite Hr in H. destruct H as [[-> [e ->]]|(text&m&text'&total&Hf&_&Ha&H)].
  - right. by left.
  - apply apply_edits_spec in Ha as (n&_&Ha); [|done].
    destruct H as [(_&->&diff&->&_)|(k&e&->&->&->)].
    + left. eexists text, text', m, n, _. by split_and!.
    + right. right. split; [done|]. by exists k, e, text'.
Qed.

(** C26. When a path was read - its record is of the file's last change - and
    then the tools and others do whatever to the files, at whatever times and
    with whatever time stamps, but the path is not read again: a write or an
    edit of it counts as not stale just when nothing is there any more or what
    is there bears the recorded time stamp; and then it is still what was
    read, or one of these operations wrote with that very time stamp - in the
    same tick of the clock, or someone set the time back. *)
Theorem edits_see_what_was_read w r path entry ops w' r' :
  read_cache r !! components path = Some entry →
  modified locate w path = Some (mtime entry) →
  Forall (not_reread decode_read path) ops →
  foldl (file_step locate os_error diff_hunks read_special decode_read decode_write decode_edit)
    (w, r) ops = (w', r') →
  (check_read_staleness locate w' r' path = None ↔
     w' !! locate path = None ∨ ∃ n, w' !! locate path = Some (n, mtime entry)) ∧
  (check_read_staleness locate w' r' path = None →
     w' !! locate path = None ∨ w' !! locate path = w !! locate path ∨
     ∃ op n, op ∈ ops ∧ stamp op = Some (mtime entry) ∧ w' !! locate path = Some (n, mtime entry)).
Proof.
  intros Hc Hm Hops Hs.
  destruct (file_steps_stamped locate os_error diff_hunks read_special decode_read decode_write
              decode_edit path ops ops w r w) as [Hnew Hcache]; [done|done|by intros q; right; left|].
  rewrite Hs in Hnew, Hcache. cbn [fst snd] in *.
  assert (check_read_staleness locate w' r' path = None ↔
     w' !! locate path = None ∨ ∃ n, w' !! locate path = Some (n, mtime entry)) as Hiff.
  { unfold check_read_staleness, modified. rewrite Hcache, Hc.
    destruct (w' !! locate path) as [[n t]|]; cbn [fmap option_fmap option_map snd]; [|naive_solver].
    case_bool_decide as Ht; split; try done; [intros _; right; exists n; by rewrite Ht|].
    intros [?|(n'&[= -> ->])]; done. }
  split; [done|]. intros [?|(n&Ht)]%Hiff; [by left|right].
  destruct (Hnew (locate path)) as [?|[?|(op&n'&t&Hin&Hop&Ht')]]; [congruence|by left|right].
  rewrite Ht in Ht'. injection Ht' as -> <-. by exists op, n'.
Qed.

(** A second read of the same range of a file nobody changed answers with a
    notice instead of the text, for as long as the session lasts and whatever
    became of the first answer in the conversation. *)
Theorem reread_answers_with_a_notice w r c input i r1 text ops w' r' :
  decode_read input = Ok i →
  let path := resolve_path (read_file_path i) (ctx_cwd c) in
  check_read_dedup_with_range locate w r path (offset i) (limit i) = false →
  (∃ n m, w !! locate path = Some (n, m)) → Forall (not_reread decode_read path) ops →
  read_call locate os_error read_special decode_read w r c input = (r1, Ok text) →
  contains "(no such file)" text = false →
  foldl (file_step locate os_error diff_hunks read_special decode_read decode_write decode_edit)
    (w, r1) ops = (w', r') →
  w' !! locate path = w !! locate path →
  ∃ notice, notice ∈ [UNCHANGED; UNCHANGED_LATER] ∧
    read_call locate os_error read_special decode_read w' r' c input = (r', Ok notice).
Proof.
  intros Hi path Hfirst (n&m&Hw) Hops Hread Hfound Hs Hsame.
  assert (Hrec : read_cache r1 !! components path =
    Some (Build_FileReadEntry m (offset i) (limit i))).
  { unfold read_call in Hread. rewrite Hi in Hread. fold path in Hread. rewrite Hfirst in Hread.
    destruct (cancelled c); [done|].
    destruct (read_file_to_text _ _ _ _ _ _ _) as [t|[]]; try done.
    - injection Hread as <- _. unfold record_read_with_range, modified. rewrite Hw.
      cbn [fmap option_fmap option_map snd read_cache]. by rewrite lookup_insert_eq.
    - destruct (contains "not found" m0); [|done]. exfalso.
      apply (f_equal snd), Ok_inj in Hread.
      assert (Hc : contains "(no such file)" (lit "(no such file) " ++ path) = true).
      { apply contains_spec. exists [], (lit " " ++ path). done. }
      rewrite Hread in Hc. by rewrite Hc in Hfound. }
  destruct (file_steps_stamped locate os_error diff_hunks read_special decode_read decode_write
              decode_edit path ops ops w r1 w) as [_ Hcache]; [done|done|by intros q; right; left|].
  rewrite Hs in Hcache. cbn [snd] in Hcache.
  unfold read_call. rewrite Hi. fold path.
  assert (Hd : check_read_dedup_with_range locate w' r' path (offset i) (limit i) = true).
  { unfold check_read_dedup_with_range, modified. rewrite Hsame, Hw, Hcache, Hrec.
    cbn [fmap option_fmap option_map snd mtime entry_offset entry_limit].
    by rewrite !bool_decide_eq_true_2. }
  rewrite Hd. eexists. split; [|reflexivity]. destruct (is_consecutive_read r' path); [left|right; left].
Qed.

(** *** Where an edit lands *)

Lemma dotless_clean p :
  is_absolute p = true → ParentDir ∉ components p → clean_comps (components p).
Proof.
  intros Ha Hdots. pose proof (components_clean_or_dots p) as Hc.
  unfold components in *. rewrite Ha in *. cbn [clean_comps]. apply Forall_forall. intros x Hx.
  apply list_elem_of_omap in Hx as (q&Hq&Hp). pose proof (split_elem_no_sep slash p q Hq) as Hs.
  destruct (parse_piece_ok q x Hs Hp) as [->|?]; [|done]. exfalso. apply Hdots. right.
  apply list_elem_of_omap. eauto.
Qed.

Lemma normalize_dotless p :
  is_absolute p = true → ParentDir ∉ components p →
  components (normalize_path_lexically p) = components p.
Proof.
  intros Ha Hd. change (normalize_path_lexically p) with (normalize p).
  rewrite components_normalize. by apply norm_comps_clean_id, dotless_clean.
Qed.

Lemma best_effort_exists w p :
  is_Some (w !! locate p) → canonicalize_best_effort locate w p = locate p.
Proof.
  intros Hp. unfold canonicalize_best_effort.
  destruct (length (components p)); cbn [best_effort]; unfold fs_canonicalize;
    by rewrite bool_decide_eq_true_2.
Qed.

Lemma path_ne_change now io w p es q :
  q ≠ locate p → (perform_edits locate os_error diff_hunks now io w p es).1 !! q = w !! q.
Proof.
  intros Hq. pose proof (perform_edits_cases locate os_error diff_hunks now io w p es) as H.
  destruct (perform_edits _ _ _ _ _ _ _ _) as [w' r]. cbn [fst].
  destruct H as [[-> _]|(?&?&?&?&_&_&_&[(_&->&_)|(?&?&_&->&_)])]; [done|..];
    by rewrite lookup_insert_ne.
Qed.

(** For a path without [..], and a file that is there, the permission an edit
    is given is about the file it changes: the place the operating system
    takes the path to has passed the write checks, and the edit changes no
    other place. *)
Theorem allowed_edit_lands_where_checked `{UnicodeNormalization} show_error what w c file_path
    reason now io es :
  let path := resolve_path file_path (ctx_cwd c) in
  (∀ p q, components p = components q → locate p = locate q) →
  is_absolute path = true → ParentDir ∉ components path → is_Some (w !! locate path) →
  check_write_permissions locate show_error what w c file_path = Some (ToolAllow reason) →
  @check_write_for (host locate w) _ file_path (locate path) (write_policy locate w c) = Ok () ∧
  ∀ q, q ≠ locate path → (perform_edits locate os_error diff_hunks now io w path es).1 !! q = w !! q.
Proof.
  intros path Hcomps Habs Hdots Hex Hallow. split; [|intros q; apply path_ne_change].
  unfold check_write_permissions in Hallow. fold path in Hallow.
  assert (Hl : locate (normalize_path_lexically path) = locate path)
    by (by apply Hcomps, normalize_dotless).
  rewrite best_effort_exists, Hl in Hallow by (by rewrite Hl).
  destruct (check_write_for _ _ _) as [[]|[[]|]]; done.
Qed.

End Theorems.

(** ** At work *)

(** A project with a link [out] to a directory outside of it. *)
Definition linked (p : str) : str :=
  if bool_decide (components p =
       [RootDir; Normal (lit "p"); Normal (lit "out"); ParentDir; Normal (lit "x")])
  then lit "/srv/x"
  else if bool_decide (components p = [RootDir; Normal (lit "p"); Normal (lit "out")])
  then lit "/srv/data"
  else of_components (components p).

Definition linked_world : World :=
  list_to_map
    [(lit "/", (Dir, 0%Z)); (lit "/p", (Dir, 0%Z)); (lit "/srv", (Dir, 0%Z));
     (lit "/srv/data", (Dir, 0%Z)); (lit "/p/x", (TextFile (lit "mine"), 1%Z));
     (lit "/srv/x", (TextFile (lit "theirs"), 1%Z))].

Definition sample_ctx : FileCtx :=
  {| ctx_cwd := lit "/p"; additional_writable_dirs := []; sandbox_allow_write := [];
     sandbox_deny_write := []; cancelled := false; max_file_read_bytes := 0 |}.

#[local] Instance no_normalization : UnicodeNormalization := {| nfc := id |}.

(** With [..] after a link the two part: the check is about the path with
    [..] taken away lexically, the write goes where the operating system takes
    it.  Here writing [out/../x] is allowed as a write inside the project and
    overwrites a file outside. *)
Theorem check_and_write_can_part :
  check_write_permissions linked (λ _, []) (lit "Write") linked_world sample_ctx (lit "out/../x") =
    Some (ToolAllow (Some (lit "project_write"))) ∧
  let w' := (write_file linked (λ _, []) 5 Written linked_world
    (resolve_path (lit "out/../x") (ctx_cwd sample_ctx)) (lit "new")).1 in
  w' !! lit "/srv/x" = Some (TextFile (lit "new"), 5%Z) ∧ w' !! lit "/p/x" = linked_world !! lit "/p/x".
Proof. by vm_compute. Qed.

(** ** Witnesses *)

Definition plain_locate (p : str) : str := of_components (components p).

Definition swap : SingleEdit := Build_SingleEdit (lit "mine") (lit "ours") None.

Definition reads_x : value → result FileReadInput str :=
  λ _, Ok (Build_FileReadInput (lit "/p/x") None None None).

Definition no_special : World → str → FileReadInput → result str ToolError := λ _ _ _, Ok [].

Lemma edits_all_or_nothing_witness :
  ∃ w' r, perform_edits plain_locate (λ _, []) (λ _ _, []) 5 Written linked_world (lit "/p/x") [swap]
            = (w', r) ∧
    ∃ text' n, edited_all (lit "mine") [swap] text' n ∧
      w' = <[lit "/p/x" := (TextFile text', 5%Z)]> linked_world.
Proof.
  destruct (perform_edits plain_locate (λ _, []) (λ _ _, []) 5 Written linked_world (lit "/p/x") [swap])
    as [w' r] eqn:E.
  exists w', r. split; [done|].
  destruct (edits_all_or_nothing plain_locate (λ _, []) (λ _ _, []) 5 Written linked_world (lit "/p/x")
              [swap] w' r) as [(text&text'&m&n&answer&_&Hf&He&Hw)|[[Herr _]|(_&k&e&t&[=]&_)]];
    [by repeat constructor|exact E| |].
  - exists text', n. vm_compute in Hf. injection Hf as <- _. split; [exact He|exact Hw].
  - exfalso. assert (Hr : is_ok (perform_edits plain_locate (λ _, []) (λ _ _, []) 5 Written linked_world
      (lit "/p/x") [swap]).2 = true) by by vm_compute.
    rewrite E in Hr. cbn [snd] in Hr. congruence.
Defined.

(** Read at time 1, the file is written by someone else with a stamp that is
    given, and a write elsewhere follows. *)
Definition after_reading (ops : list FileOp) : World * ReadTracking :=
  foldl (file_step plain_locate (λ _, []) (λ _ _, []) no_special (λ _, Err [])
           (λ _, Ok (Build_FileWriteInput (lit "/srv/x") (lit "new"))) (λ _, Err []))
    (linked_world, record_read_with_range plain_locate linked_world no_reads (lit "/p/x") None None) ops.

Definition others_write (t : Z) : list FileOp :=
  [OpExternal t (lit "/p/x") (Some (TextFile (lit "theirs"))); OpWrite sample_ctx 9 Written VNull].

Lemma edits_see_what_was_read_witness :
  (let s := after_reading (others_write 2) in check_read_staleness plain_locate s.1 s.2 (lit "/p/x") ≠ None) ∧
  (let s := after_reading (drop 1 (others_write 2)) in
   check_read_staleness plain_locate s.1 s.2 (lit "/p/x") = None ∧
   s.1 !! lit "/p/x" = linked_world !! lit "/p/x").
Proof.
  assert (He : ∀ ops, Forall (not_reread (λ _, Err []) (lit "/p/x")) ops →
    let s := after_reading ops in
    (check_read_staleness plain_locate s.1 s.2 (lit "/p/x") = None ↔
       s.1 !! plain_locate (lit "/p/x") = None ∨
       ∃ n, s.1 !! plain_locate (lit "/p/x") = Some (n, 1%Z)) ∧
    (check_read_staleness plain_locate s.1 s.2 (lit "/p/x") = None →
     s.1 !! plain_locate (lit "/p/x") = None ∨
     s.1 !! plain_locate (lit "/p/x") = linked_world !! plain_locate (lit "/p/x") ∨
     ∃ op n, op ∈ ops ∧ stamp op = Some 1%Z ∧ s.1 !! plain_locate (lit "/p/x") = Some (n, 1%Z))).
  { intros ops Hops s.
    apply (edits_see_what_was_read plain_locate (λ _, []) (λ _ _, []) no_special (λ _, Err [])
             (λ _, Ok (Build_FileWriteInput (lit "/srv/x") (lit "new"))) (λ _, Err [])
             linked_world (record_read_with_range plain_locate linked_world no_reads (lit "/p/x") None None)
             (lit "/p/x") (Build_FileReadEntry 1 None None) ops);
      [by vm_compute|by vm_compute|exact Hops|]. unfold s, after_reading. by destruct (foldl _ _ _). }
  split.
  - intros s [Hc|[n Hc]]%He; [by vm_compute in Hc..|by repeat constructor].
  - intros s. assert (Hc : check_read_staleness plain_locate s.1 s.2 (lit "/p/x") = None) by by vm_compute.
    split; [exact Hc|]. apply He in Hc as [Hn|[Hsame|(op&n&Hin&Hop&_)]]; [by vm_compute in Hn|exact Hsame|
      |by repeat constructor].
    apply list_elem_of_singleton in Hin as ->. discriminate Hop.
Defined.

(** Only the time stamp is compared: what someone else wrote with the very
    stamp that was recorded is taken for what was read. *)
Example same_stamp_passes :
  let s := after_reading (others_write 1) in
  check_read_staleness plain_locate s.1 s.2 (lit "/p/x") = None ∧
  s.1 !! lit "/p/x" = Some (TextFile (lit "theirs"), 1%Z).
Proof. split; vm_compute; reflexivity. Qed.

Lemma reread_answers_with_a_notice_witness :
  ∃ r1 text, read_call plain_locate (λ _, []) no_special reads_x linked_world no_reads sample_ctx VNull
               = (r1, Ok text) ∧
    text = lit "     1" ++ [9%N] ++ lit "mine" ++ [10%N] ∧
    ∃ notice, notice ∈ [UNCHANGED; UNCHANGED_LATER] ∧
      read_call plain_locate (λ _, []) no_special reads_x linked_world r1 sample_ctx VNull
        = (r1, Ok notice).
Proof.
  destruct (read_call plain_locate (λ _, []) no_special reads_x linked_world no_reads sample_ctx VNull)
    as [r1 res] eqn:E.
  assert (Ht : res = Ok (lit "     1" ++ [9%N] ++ lit "mine" ++ [10%N])).
  { change res with (r1, res).2. rewrite <-E. by vm_compute. }
  exists r1, (lit "     1" ++ [9%N] ++ lit "mine" ++ [10%N]). rewrite Ht in E |- *.
  split; [done|]. split; [done|].
  apply (reread_answers_with_a_notice plain_locate (λ _, []) (λ _ _, []) no_special reads_x
           (λ _, Err []) (λ _, Err []) linked_world no_reads sample_ctx VNull
           (Build_FileReadInput (lit "/p/x") None None None) r1
           (lit "     1" ++ [9%N] ++ lit "mine" ++ [10%N]) [] linked_world r1 eq_refl);
    [by vm_compute|exists (TextFile (lit "mine")), 1%Z; by vm_compute|constructor
    |exact E|by vm_compute|done|done].
Defined.

Lemma allowed_edit_lands_where_checked_witness :
  @check_write_for (host plain_locate linked_world) _ (lit "x") (lit "/p/x")
    (write_policy plain_locate linked_world sample_ctx) = Ok ().
Proof.
  apply (allowed_edit_lands_where_checked plain_locate (λ _, []) (λ _ _, []) (λ _, []) (lit "Edit")
           linked_world sample_ctx (lit "x") (Some (lit "project_write")) 5 Written [swap]);
    [intros p q E; unfold plain_locate; by rewrite E|by vm_compute| |by vm_compute; eexists|by vm_compute].
  by_compute.
Defined.
