(* ===== verification/Net.v ===== *)
(** * The outgoing network ([crates/core/src/interface/exec/network.rs],
    [local/network.rs], [crates/hooks/src/runner/ssrf.rs])

    Who may reach which host: the egress policy with its redirect loop, and
    the guard in front of HTTP hooks.  [std::net]'s address parser is modelled
    here; the [url] crate, the transport and the resolver are parameters.
    Header values that are not text are dropped by the transport. *)

From stdpp Require Import base option numbers gmap strings pretty list.
From S2P Require Import Prelude RustStr.
From S2P Require Gate.

(** ** [std::net::IpAddr] *)

Inductive IpAddr :=
| V4 (octets : list N)
| V6 (segments : list N).

#[export] Instance IpAddr_eq_dec : EqDecision IpAddr.
Proof. solve_decision. Defined.

(** [char::to_digit] for radix 10 and 16. *)
Definition to_digit (radix : N) (c : char) : option N :=
  if is_ascii_digit c then Some (c - 48)%N
  else if decide (radix = 16%N) then
    if bool_decide (97 ≤ c ≤ 102)%N then Some (c - 87)%N
    else if bool_decide (65 ≤ c ≤ 70)%N then Some (c - 55)%N
    else None
  else None.

(** The digits there are, at most [room] of them. *)
Fixpoint read_digits (radix : N) (room count : nat) (acc : N) (s : str) {struct s}
    : option (N * nat * str) :=
  match s with
  | c :: s' =>
      match to_digit radix c with
      | Some d =>
          match room with
          | O => None
          | S room => read_digits radix room (S count) (acc * radix + d) s'
          end
      | None => Some (acc, count, s)
      end
  | [] => Some (acc, count, [])
  end.

Definition read_number (radix : N) (max_digits : nat) (allow_zero_prefix : bool) (max : N)
    (s : str) : option (N * str) :=
  let has_leading_zero := bool_decide (head s = Some 48%N) in
  match read_digits radix max_digits 0 0 s with
  | Some (n, count, rest) =>
      if decide (count = 0) then None
      else if negb allow_zero_prefix && has_leading_zero && bool_decide (1 < count) then None
      else if decide (n ≤ max)%N then Some (n, rest) else None
  | None => None
  end.

Definition read_given_char (c : char) (s : str) : option str :=
  match s with b :: s => if decide (b = c) then Some s else None | [] => None end.

(** [read_separator]: the separator in front of every item but the first. *)
Definition read_separator {A} (sep : char) (index : nat) (inner : str → option (A * str)) (s : str)
    : option (A * str) :=
  if decide (index = 0) then inner s else s ← read_given_char sep s; inner s.

Fixpoint read_octets (n i : nat) (s : str) : option (list N * str) :=
  match n with
  | O => Some ([], s)
  | S n =>
      '(o, s) ← read_separator (ch ".") i (read_number 10 3 false 255) s;
      '(os, s) ← read_octets n (S i) s;
      Some (o :: os, s)
  end.

Definition read_ipv4_addr (s : str) : option (list N * str) := read_octets 4 0 s.

(** [read_groups]: up to [room] further groups, whether the last two came
    from a dotted address, and the rest of the text. *)
Fixpoint read_groups (room i : nat) (s : str) : list N * bool * str :=
  match room with
  | O => ([], false, s)
  | S room' =>
      match (if decide (0 < room') then read_separator (ch ":") i read_ipv4_addr s else None) with
      | Some ([a; b; c; d], s) => ([(a * 256 + b)%N; (c * 256 + d)%N], true, s)
      | _ =>
          match read_separator (ch ":") i (read_number 16 4 true 65535) s with
          | Some (g, s) =>
              let '(gs, v4, s) := read_groups room' (S i) s in (g :: gs, v4, s)
          | None => ([], false, s)
          end
      end
  end.

Definition read_ipv6_addr (s : str) : option (list N * str) :=
  let '(head, head_ipv4, s) := read_groups 8 0 s in
  if decide (length head = 8) then Some (head, s)
  else if head_ipv4 then None
  else
    s ← read_given_char (ch ":") s;
    s ← read_given_char (ch ":") s;
    let '(tail, _, s) := read_groups (8 - (length head + 1)) 0 s in
    Some (head ++ repeat 0%N (8 - length head - length tail) ++ tail, s).

(** [str::parse::<IpAddr>]: the whole text. *)
Definition parse_ip (s : str) : option IpAddr :=
  match read_ipv4_addr s with
  | Some (os, []) => Some (V4 os)
  | Some _ => None
  | None =>
      match read_ipv6_addr s with
      | Some (gs, []) => Some (V6 gs)
      | _ => None
      end
  end.

Definition is_loopback_v4 (os : list N) : bool := bool_decide (head os = Some 127%N).

Definition is_private_v4 (os : list N) : bool :=
  match os with
  | a :: b :: _ =>
      bool_decide (a = 10)%N || bool_decide (a = 172 ∧ 16 ≤ b ≤ 31)%N ||
      bool_decide (a = 192 ∧ b = 168)%N
  | _ => false
  end.

Definition is_link_local_v4 (os : list N) : bool :=
  match os with a :: b :: _ => bool_decide (a = 169 ∧ b = 254)%N | _ => false end.

Definition is_loopback_v6 (gs : list N) : bool :=
  bool_decide (gs = [0; 0; 0; 0; 0; 0; 0; 1]%N).

(** ** The guard of HTTP hooks *)

Inductive SsrfError :=
| PrivateIp (ip : IpAddr) (url : str)
| HostResolvesToPrivate (host : str) (ip : IpAddr) (url : str)
| UrlParse (url : str)
| UnclosedIpv6 (url : str)
| EmptyHost (url : str).

Definition is_private_ip (ip : IpAddr) : bool :=
  match ip with
  | V4 os => is_loopback_v4 os || is_private_v4 os || is_link_local_v4 os
  | V6 gs => is_loopback_v6 gs
  end.

Definition parse_host_from_url (url_str : str) : result str SsrfError :=
  match split_once_str "://" url_str with
  | None => Err (UrlParse url_str)
  | Some (_, without_scheme) =>
      let host_port := default without_scheme (head (split (ch "/") without_scheme)) in
      match (if starts_with "[" host_port then
               match split_once (ch "]") host_port with
               | Some (before, _) => Ok (drop 1 before)
               | None => Err (UnclosedIpv6 url_str)
               end
             else Ok (default host_port (head (split (ch ":") host_port)))) with
      | Err e => Err e
      | Ok host => if decide (host = []) then Err (EmptyHost url_str) else Ok host
      end
  end.

Section Guard.
(** [tokio::net::lookup_host]: the addresses of a name, or a failure. *)
Context (lookup_host : str → option (list IpAddr)).

Definition ssrf_check_url (url_str : str) : result unit SsrfError :=
  (host ←? parse_host_from_url url_str;
   match parse_ip host with
   | Some ip => if is_private_ip ip then Err (PrivateIp ip url_str) else Ok tt
   | None =>
       match lookup_host host with
       | None => Ok tt
       | Some resolved =>
           match find_first is_private_ip resolved with
           | Some ip => Err (HostResolvesToPrivate host ip url_str)
           | None => Ok tt
           end
       end
   end)%result.

End Guard.

(** ** Requests *)

Inductive Origin := Agent | Operator.

#[export] Instance Origin_eq_dec : EqDecision Origin.
Proof. solve_decision. Defined.

Definition DEFAULT_MAX_REDIRECTS : nat := 10.

Record HttpRequest := {
  method : str;
  url : str;
  headers : gmap str str;
  body : option (list N);
  max_bytes : option Z;
  max_redirects : nat;
}.

Definition HttpRequest_new (method url : str) : HttpRequest :=
  Build_HttpRequest method url ∅ None None DEFAULT_MAX_REDIRECTS.

Record HttpResponse := {
  status : Z;
  response_headers : gmap str str;
  response_body : list N;
}.

Inductive ExecError :=
| Denied (message : str)
| Unavailable (message : str)
| Failed (message : str).

(** A parsed URL, as far as the code looks into one. *)
Inductive Host := Domain (d : str) | Ipv4Host (os : list N) | Ipv6Host (gs : list N).

Record Url := {
  url_text : str;
  host_str : option str;
  url_host : option Host;
  scheme : str;
}.

(** The [url] crate: [Url::parse] with the message it fails with, and
    [Url::join]. *)
Class UrlCrate := {
  url_parse : str → result Url str;
  url_join : Url → str → option Url;
}.

(** ** The policy *)

Record LocalNetwork := {
  allowed_domains : list str;
  agent_offline : bool;
}.

Definition LocalNetwork_default : LocalNetwork := Build_LocalNetwork [] false.

Definition for_agent_policy (mode : Gate.NetworkModeConfig) (allowed_domains : list str) : LocalNetwork :=
  match mode with
  | Gate.Unrestricted => Build_LocalNetwork [] false
  | Gate.DenyAll => Build_LocalNetwork [] true
  | Gate.Allowlist =>
      if decide (allowed_domains = []) then Build_LocalNetwork [] true
      else Build_LocalNetwork allowed_domains false
  end.

Definition to_ascii_lowercase (s : str) : str :=
  (λ c, if is_ascii_uppercase c then (c + 32)%N else c) <$> s.

Definition permits (n : LocalNetwork) (host : str) (origin : Origin) : bool :=
  match origin with
  | Operator => true
  | Agent =>
      if agent_offline n then false
      else
        let host := to_ascii_lowercase host in
        bool_decide (allowed_domains n = []) ||
        existsb (λ d, let d := to_ascii_lowercase d in
                      bool_decide (host = d) || ends_with (lit "." ++ d) host)
          (allowed_domains n)
  end.

Definition refuse (n : LocalNetwork) (u : Url) (origin : Origin) : option ExecError :=
  match host_str u with
  | None => Some (Failed (lit "not a url: " ++ url_text u))
  | Some host =>
      if permits n host origin then None
      else Some (Denied
        (if agent_offline n then
           lit "outbound network is off for model-directed requests, so " ++ host ++
           lit " is unreachable"
         else host ++ lit " is not in the allowed domains for model-directed requests"))
  end.

Definition is_loopback (u : Url) : bool :=
  match url_host u with
  | Some (Ipv4Host os) => is_loopback_v4 os
  | Some (Ipv6Host gs) => is_loopback_v6 gs
  | Some (Domain d) => bool_decide (to_ascii_lowercase d = lit "localhost")
  | None => false
  end.

(** ** Sending *)

(** What goes over the wire, and whether through the ambient proxy. *)
Record Sent := {
  sent_method : str;
  sent_url : Url;
  sent_headers : gmap str str;
  sent_body : option (list N);
  proxied : bool;
}.

Section Sending.
Context `{UrlCrate}.
(** The other side: an answer, or an error of the transport. *)
Context (transport : Sent → result HttpResponse ExecError) (valid_method : str → bool).

Definition client_for (u : Url) : bool := negb (is_loopback u).

Definition is_redirect (code : Z) : bool :=
  bool_decide (code ∈ [301; 302; 303; 307; 308]%Z).

Definition redirect_target (from : Url) (resp : HttpResponse) : option Url :=
  if is_redirect (status resp)
  then location ← response_headers resp !! lit "location"; url_join from location
  else None.

Definition CREDENTIAL_HEADERS : list str :=
  [lit "authorization"; lit "cookie"; lit "proxy-authorization"].

Definition is_credential (k : str) : bool :=
  bool_decide (to_ascii_lowercase k ∈ CREDENTIAL_HEADERS).

Definition strip_credentials (headers : gmap str str) : gmap str str :=
  filter (λ kv, is_credential kv.1 = false) headers.

Definition rewrites_to_get (code : Z) (method : str) : bool :=
  bool_decide (code = 303)%Z ||
  bool_decide (code = 301 ∨ code = 302)%Z &&
  negb (bool_decide (method = lit "GET")) && negb (bool_decide (method = lit "HEAD")).

(** The loop of [open], [hops] redirects still to follow: the requests made,
    in order, and the answer. *)
Fixpoint open_loop (n : LocalNetwork) (origin : Origin) (hops : nat) (u : Url) (method : str)
    (headers : gmap str str) (body : option (list N)) : list Sent * result HttpResponse ExecError :=
  match refuse n u origin with
  | Some e => ([], Err e)
  | None =>
      if negb (valid_method method) then ([], Err (Failed (method ++ lit ": invalid HTTP method")))
      else
        let sent := Build_Sent method u headers body (client_for u) in
        match transport sent with
        | Err e => ([sent], Err e)
        | Ok resp =>
            match hops with
            | O => ([sent], Ok resp)
            | S hops =>
                match redirect_target u resp with
                | None => ([sent], Ok resp)
                | Some next =>
                    let to_get := rewrites_to_get (status resp) method in
                    let method := if to_get then lit "GET" else method in
                    let body := if to_get then None else body in
                    let headers :=
                      if negb (bool_decide (host_str next = host_str u)) ||
                         negb (bool_decide (scheme next = scheme u))
                      then strip_credentials headers else headers in
                    let '(trace, r) := open_loop n origin hops next method headers body in
                    (sent :: trace, r)
                end
            end
        end
  end.

Definition open (n : LocalNetwork) (req : HttpRequest) (origin : Origin)
    : list Sent * result HttpResponse ExecError :=
  match url_parse (url req) with
  | Err e => ([], Err (Failed (lit "not a url: " ++ url req ++ lit " (" ++ e ++ lit ")")))
  | Ok u => open_loop n origin (max_redirects req) u (method req) (headers req) (body req)
  end.

(** The whole body within the cap; its chunks are joined. *)
Definition over_cap (cap : option Z) (bytes : Z) : bool :=
  match cap with Some cap => bool_decide (cap < bytes)%Z | None => false end.

(** [parse::<u64>] of the content-length header. *)
Context (parse_u64 : str → option Z).

Definition send (n : LocalNetwork) (req : HttpRequest) (origin : Origin)
    : list Sent * result HttpResponse ExecError :=
  let '(trace, r) := open n req origin in
  (trace,
   match r with
   | Err e => Err e
   | Ok resp =>
       let cap := max_bytes req in
       match response_headers resp !! lit "content-length" ≫= parse_u64 with
       | Some l =>
           if over_cap cap l then
             Err (Failed (lit "response is " ++ lit (pretty l) ++ lit " bytes; cap is " ++
                          lit (pretty (default 0%Z cap)) ++ lit " bytes"))
           else if over_cap cap (Z.of_nat (length (response_body resp))) then
             Err (Failed (lit "response is over the " ++ lit (pretty (default 0%Z cap)) ++
                          lit " byte cap"))
           else Ok resp
       | None =>
           if over_cap cap (Z.of_nat (length (response_body resp))) then
             Err (Failed (lit "response is over the " ++ lit (pretty (default 0%Z cap)) ++
                          lit " byte cap"))
           else Ok resp
       end
   end).

End Sending.

(** ** Where requests go *)

(** What a policy lets the model reach. *)
Definition reachable (n : LocalNetwork) (host : str) : Prop :=
  agent_offline n = false ∧
  (allowed_domains n = [] ∨
   ∃ d, d ∈ allowed_domains n ∧
     (to_ascii_lowercase host = to_ascii_lowercase d ∨
      ∃ sub, to_ascii_lowercase host = sub ++ lit "." ++ to_ascii_lowercase d)).

Lemma permits_agent n host : permits n host Agent = true ↔ reachable n host.
Proof.
  unfold permits, reachable. destruct (agent_offline n); [split; [done|by intros []]|].
  rewrite orb_true_iff, bool_decide_eq_true, existsb_elem_of.
  assert (Hd : ∀ d, (bool_decide (to_ascii_lowercase host = to_ascii_lowercase d) ||
      ends_with (lit "." ++ to_ascii_lowercase d) (to_ascii_lowercase host)) = true ↔
      to_ascii_lowercase host = to_ascii_lowercase d ∨
      ∃ sub, to_ascii_lowercase host = sub ++ lit "." ++ to_ascii_lowercase d).
  { intros d. by rewrite orb_true_iff, bool_decide_eq_true, ends_with_spec. }
  setoid_rewrite Hd. naive_solver.
Qed.

Section Trace.
Context `{UrlCrate}.
Context (transport : Sent → result HttpResponse ExecError) (valid_method : str → bool).

#[local] Notation loop := (open_loop transport valid_method).

(** The rounds of the loop, once for every claim about the trace. *)
Lemma open_loop_cases n origin hops u m h b trace r :
  loop n origin hops u m h b = (trace, r) →
  trace = [] ∨
  refuse n u origin = None ∧
  ∃ rest, trace = Build_Sent m u h b (client_for u) :: rest ∧
    (rest = [] ∨
     ∃ hops' next m' b' h' r', hops = S hops' ∧
       h' = (if negb (bool_decide (host_str next = host_str u)) ||
                negb (bool_decide (scheme next = scheme u))
             then strip_credentials h else h) ∧
       loop n origin hops' next m' h' b' = (rest, r')).
Proof.
  destruct hops; cbn [open_loop]; intros E;
    (destruct (refuse n u origin) as [e|]; [left; congruence|]);
    (destruct (negb (valid_method m)); [left; congruence|]);
    (destruct (transport _) as [resp|]; [|right; simplify_eq; eauto 6]).
  - right. simplify_eq. eauto 6.
  - destruct (redirect_target u resp) as [next|]; [|right; simplify_eq; eauto 6].
    destruct (loop _ _ _ _ _ _ _) as [rest r'] eqn:El. simplify_eq.
    right. split; [done|]. eexists; split; [done|]. right. eauto 10.
Qed.

Lemma open_loop_permitted n hops u m h b trace r :
  loop n Agent hops u m h b = (trace, r) →
  length trace ≤ S hops ∧
  ∀ s, s ∈ trace → ∃ host, host_str (sent_url s) = Some host ∧ permits n host Agent = true.
Proof.
  revert u m h b trace r. induction hops as [|hops IH]; intros u m h b trace r E;
    (destruct (open_loop_cases _ _ _ _ _ _ _ _ _ E)
      as [->|(Hr & rest & -> & [->|(hops' & next & m' & b' & h' & r' & Hh & -> & El)])];
    [split; [cbn; lia|by intros ? ?%not_elem_of_nil]| |]).
  all: assert (Hu : ∃ host, host_str u = Some host ∧ permits n host Agent = true) by
    (unfold refuse in Hr; destruct (host_str u) as [host|]; [|done]; exists host; split; [done|];
     by destruct (permits n host Agent)).
  all: try (split; [cbn; lia|]; by intros s ->%list_elem_of_singleton).
  - done.
  - simplify_eq. destruct (IH _ _ _ _ _ _ El) as [Hl Hs]. split; [cbn; lia|].
    intros s [->|Hin]%elem_of_cons; eauto.
Qed.

Lemma strip_credentials_subseteq h : strip_credentials h ⊆ h.
Proof. apply map_filter_subseteq. Qed.

Lemma strip_credentials_none h k : is_credential k = true → strip_credentials h !! k = None.
Proof. intros Hk. apply map_lookup_filter_None. right. intros v _ Hf. cbn in Hf. congruence. Qed.

Lemma open_loop_headers n origin hops u m h b trace r s k v :
  loop n origin hops u m h b = (trace, r) → s ∈ trace → sent_headers s !! k = Some v →
  h !! k = Some v ∧
  (is_credential k = true →
   host_str (sent_url s) = host_str u ∧ scheme (sent_url s) = scheme u).
Proof.
  revert u m h b trace r. induction hops as [|hops IH]; intros u m h b trace r E Hs Hk;
    (destruct (open_loop_cases _ _ _ _ _ _ _ _ _ E)
      as [->|(Hr & rest & -> & [->|(hops' & next & m' & b' & h' & r' & Hh & Hh' & El)])];
    [by apply not_elem_of_nil in Hs| |]).
  1, 3: by apply list_elem_of_singleton in Hs as ->.
  - done.
  - simplify_eq. apply elem_of_cons in Hs as [->|Hs]; [done|].
    destruct (IH _ _ _ _ _ _ El Hs Hk) as [Hv Hc].
    destruct (negb (bool_decide (host_str next = host_str u)) || _) eqn:Eh.
    + split; [by eapply lookup_weaken, strip_credentials_subseteq|]. intros Hcr.
      by rewrite strip_credentials_none in Hv.
    + split; [done|]. intros Hcr. apply Hc in Hcr as [-> ->]. by bool_simpl.
Qed.

(** C38. Model-directed egress: every request that leaves on the model's behalf -
    the first and each one a redirect leads to - goes to a host the policy
    lets the model reach, and there are at most as many as the redirects
    allowed and one. *)
Theorem agent_requests_stay_in_policy n req trace r :
  open transport valid_method n req Agent = (trace, r) →
  length trace ≤ S (max_redirects req) ∧
  ∀ s, s ∈ trace → ∃ host, host_str (sent_url s) = Some host ∧ reachable n host.
Proof.
  unfold open. destruct (url_parse (url req)) as [u|e].
  - intros E. destruct (open_loop_permitted _ _ _ _ _ _ _ _ E) as [Hl Hs]. split; [done|].
    intros s (host & Hh & Hp)%Hs. exists host. by rewrite <-permits_agent.
  - intros [= <- <-]. split; [cbn; lia|]. by intros ? ?%not_elem_of_nil.
Qed.

(** Credentials stay where they were sent: a request of the redirect chain
    carries no header the caller did not set, and an Authorization, Cookie or
    Proxy-Authorization header only to the host and under the scheme of the
    first URL. *)
Theorem credentials_stay_with_their_host n req origin trace r u s k v :
  open transport valid_method n req origin = (trace, r) → url_parse (url req) = Ok u →
  s ∈ trace → sent_headers s !! k = Some v →
  headers req !! k = Some v ∧
  (is_credential k = true →
   host_str (sent_url s) = host_str u ∧ scheme (sent_url s) = scheme u).
Proof.
  unfold open. intros E Hu. rewrite Hu in E. by apply open_loop_headers with (1 := E).
Qed.

End Trace.

(** ** What the guard stops *)

(** [Ipv4Addr]'s [Display]. *)
Definition show_octet (o : N) : str :=
  let d k := (48 + (o / k) `mod` 10)%N in
  if (o <? 10)%N then [d 1%N] else if (o <? 100)%N then [d 10%N; d 1%N]
  else [d 100%N; d 10%N; d 1%N].

Definition show_v4 (os : list N) : str := join "." (show_octet <$> os).

Definition is_octet (o : N) : Prop := (o < 256)%N.

(** A text at which a number ends. *)
Definition no_digit (s : str) : Prop := ∀ c, head s = Some c → is_ascii_digit c = false.

Lemma read_digits_app ds room count acc rest :
  Forall (λ c, is_ascii_digit c = true) ds → length ds ≤ room → no_digit rest →
  read_digits 10 room count acc (ds ++ rest) =
  Some (foldl (λ acc c, acc * 10 + (c - 48))%N acc ds, count + length ds, rest).
Proof.
  intros Hds. revert room count acc. induction Hds as [|d ds Hd _ IH]; intros room count acc Hr Hn.
  - rewrite Nat.add_0_r. cbn [app foldl]. destruct rest as [|c rest]; [done|].
    cbn [read_digits]. unfold to_digit. by rewrite (Hn c eq_refl).
  - cbn [app read_digits]. unfold to_digit.
    rewrite Hd. destruct room as [|room]; [cbn in Hr; lia|].
    rewrite IH by (cbn in Hr; done || lia). cbn [foldl length]. by rewrite Nat.add_succ_r.
Qed.

(** What holds of the numbers below 256 can be checked on each. *)
Definition octet_ok (o : N) : bool :=
  let s := show_octet o in
  forallb is_ascii_digit s && bool_decide (length s ≤ 3) && negb (bool_decide (s = [])) &&
  bool_decide (foldl (λ acc c, acc * 10 + (c - 48))%N 0%N s = o) &&
  (negb (bool_decide (head s = Some 48%N)) || bool_decide (length s ≤ 1)).

Lemma octets_ok o : is_octet o → octet_ok o = true.
Proof.
  intros Ho. assert (Hall : forallb octet_ok (N.of_nat <$> seq 0 256) = true) by (vm_compute; done).
  rewrite forallb_elem_of in Hall. apply Hall, list_elem_of_fmap. exists (N.to_nat o).
  split; [lia|]. apply elem_of_seq. unfold is_octet in Ho. lia.
Qed.

Lemma read_octet o rest : is_octet o → no_digit rest →
  read_number 10 3 false 255 (show_octet o ++ rest) = Some (o, rest).
Proof.
  intros Ho Hn. pose proof (octets_ok o Ho) as Hok. unfold octet_ok in Hok. cbv zeta in Hok.
  bool_simpl. rewrite forallb_elem_of in *.
  unfold read_number. rewrite read_digits_app; [|by apply Forall_forall|done|done].
  match goal with H : foldl _ _ _ = o |- _ => rewrite H end.
  destruct (show_octet o) as [|c ds]; [done|]. cbn [app head length] in *.
  rewrite decide_False by lia. rewrite (decide_True (P := (o ≤ 255)%N)) by (unfold is_octet in Ho; lia).
  match goal with G : (_ || _)%bool = true |- _ => apply orb_true_iff in G as [Hz|Hz] end.
  - apply negb_true_iff in Hz. by rewrite Hz.
  - apply bool_decide_eq_true in Hz. rewrite andb_false_intro2; [done|]. apply bool_decide_eq_false. lia.
Qed.

Lemma read_ipv4_shown a b c d rest : Forall is_octet [a; b; c; d] → no_digit rest →
  read_ipv4_addr (show_v4 [a; b; c; d] ++ rest) = Some ([a; b; c; d], rest).
Proof.
  intros Ho Hn. rewrite !Forall_cons in Ho. destruct Ho as (Ha & Hb & Hc & Hd & _).
  unfold show_v4, read_ipv4_addr. cbn [fmap list_fmap join].
  assert (Hdot : ∀ s, no_digit (lit "." ++ s)) by (by intros s ? [= <-]).
  assert (Hread : ∀ s, read_given_char (ch ".") (lit "." ++ s) = Some s) by done.
  rewrite <-!app_assoc. cbn [read_octets]. unfold read_separator.
  repeat first
    [ rewrite decide_True by done | rewrite decide_False by done | rewrite Hread
    | rewrite read_octet by done | progress cbn [mbind option_bind] ].
  done.
Qed.

Lemma shown_chars a b c d x : Forall is_octet [a; b; c; d] → x ∈ show_v4 [a; b; c; d] →
  is_ascii_digit x = true ∨ x = ch ".".
Proof.
  intros Ho Hx. rewrite !Forall_cons in Ho. destruct Ho as (Ha & Hb & Hc & Hd & _).
  assert (Hs : ∀ o, is_octet o → x ∈ show_octet o → is_ascii_digit x = true).
  { intros o Hok%octets_ok Hin. unfold octet_ok in Hok. cbv zeta in Hok. bool_simpl.
    rewrite forallb_elem_of in *. auto. }
  unfold show_v4 in Hx. cbn [fmap list_fmap join] in Hx. rewrite !elem_of_app in Hx.
  destruct Hx as [?|[Hx|[?|[Hx|[?|[Hx|?]]]]]];
    try (right; by apply list_elem_of_singleton in Hx); left; eauto.
Qed.

Lemma shown_not_nil a b c d : Forall is_octet [a; b; c; d] →
  ∃ x s, show_v4 [a; b; c; d] = x :: s ∧ is_ascii_digit x = true.
Proof.
  intros Ho. rewrite !Forall_cons in Ho. destruct Ho as (Ha%octets_ok & _).
  unfold octet_ok in Ha. cbv zeta in Ha. bool_simpl. rewrite forallb_elem_of in *.
  unfold show_v4. cbn [fmap list_fmap]. destruct (show_octet a) as [|x s]; [done|].
  exists x. eexists. split; [done|]. match goal with H : ∀ _, _ |- _ => apply H; by left end.
Qed.

Lemma head_split c l r : c ∉ l →
  head (split c (l ++ r)) = Some (l ++ default [] (head (split c r))).
Proof.
  induction l as [|x l IH]; intros Hc.
  - cbn [app]. destruct (split c r) as [|p ps] eqn:E; [by apply split_not_nil in E|done].
  - apply not_elem_of_cons in Hc as [Hx Hl]. cbn [app split]. rewrite decide_False by done.
    specialize (IH Hl). destruct (split c (l ++ r)) as [|p ps]; [done|].
    cbn [head] in *. by injection IH as ->.
Qed.

Lemma split_scheme (sch rest : str) : sch = lit "http" ∨ sch = lit "https" →
  split_once_str "://" (sch ++ lit "://" ++ rest) = Some (sch, rest).
Proof. intros [->| ->]; reflexivity. Qed.

(** What follows the host: nothing, a port or a path. *)
Definition after_host (tail : str) : Prop :=
  tail = [] ∨ head tail = Some (ch ":") ∨ head tail = Some (ch "/").

Lemma after_host_piece tail : after_host tail →
  default [] (head (split (ch "/") tail)) = [] ∨
  ∃ p, default [] (head (split (ch "/") tail)) = ch ":" :: p.
Proof.
  destruct tail as [|c tail]; [by left|]. intros [?|[[= ->]|[= ->]]]; [done| |by left].
  right. cbn [split]. rewrite decide_False by done.
  destruct (split (ch "/") tail) as [|p ps] eqn:E; [by apply split_not_nil in E|]. by exists p.
Qed.

(** The guard of HTTP hooks: an http or https URL whose host is an IPv4
    address written out - with any port and path - is refused when the
    address is loopback, private or link-local, and goes through when it is
    not, whatever the resolver would say. *)
Theorem address_literals_are_judged lookup sch a b c d tail :
  sch = lit "http" ∨ sch = lit "https" → Forall is_octet [a; b; c; d] → after_host tail →
  let url := sch ++ lit "://" ++ show_v4 [a; b; c; d] ++ tail in
  ssrf_check_url lookup url =
  if is_private_ip (V4 [a; b; c; d]) then Err (PrivateIp (V4 [a; b; c; d]) url) else Ok tt.
Proof.
  intros Hs Ho Ht. cbv zeta. unfold ssrf_check_url, parse_host_from_url.
  rewrite split_scheme by done. pose proof (shown_chars a b c d) as Hch.
  assert (Hno : ∀ x, is_ascii_digit x = false → x ≠ ch "." → x ∉ show_v4 [a; b; c; d])
    by (intros x Hx ? Hin; destruct (Hch x Ho Hin) as [Hd|Hd]; [by rewrite Hx in Hd|by subst]).
  rewrite head_split by (apply Hno; done). cbn [from_option id].
  set (p := default [] (head (split (ch "/") tail))).
  destruct (shown_not_nil _ _ _ _ Ho) as (x & s & Hsh & Hx).
  assert (Hbr : starts_with "[" (show_v4 [a; b; c; d] ++ p) = false).
  { apply not_true_is_false. intros (r & Hr)%starts_with_spec. rewrite Hsh in Hr.
    injection Hr as -> _. done. }
  rewrite Hbr. rewrite head_split by (apply Hno; done). cbn [from_option id].
  assert (Hp : default [] (head (split (ch ":") p)) = [])
    by (unfold p; destruct (after_host_piece tail Ht) as [->|[q ->]]; done).
  rewrite Hp, app_nil_r. rewrite decide_False by (by rewrite Hsh). cbn [result_bind].
  assert (Hip : parse_ip (show_v4 [a; b; c; d]) = Some (V4 [a; b; c; d])).
  { unfold parse_ip. rewrite <-(app_nil_r (show_v4 _)). by rewrite read_ipv4_shown. }
  by rewrite Hip.
Qed.

(** Addresses the guard lets through although they lead to this machine: an
    IPv4 address written as an IPv6 one, and the unspecified address. *)
Lemma guard_misses_mapped lookup :
  ssrf_check_url lookup (lit "http://[::ffff:127.0.0.1]:8080/x") = Ok tt ∧
  ssrf_check_url lookup (lit "http://0.0.0.0/x") = Ok tt.
Proof. split; vm_compute; reflexivity. Qed.

(** And a URL that names its user: the guard takes user and host together
    for the name to look up, which no resolver knows. *)
Lemma guard_misses_userinfo lookup : lookup (lit "u@127.0.0.1") = None →
  ssrf_check_url lookup (lit "http://u@127.0.0.1/x") = Ok tt.
Proof.
  intros Hl. unfold ssrf_check_url.
  replace (parse_host_from_url _) with (@Ok str SsrfError (lit "u@127.0.0.1")) by (vm_compute; done).
  cbn [result_bind]. replace (parse_ip _) with (@None IpAddr) by (vm_compute; done). by rewrite Hl.
Qed.

(** ** Worked examples *)

(** URLs cut at the scheme and the first slash; absolute redirects only. *)
Definition sample_parse (s : str) : result Url str :=
  match split_once_str "://" s with
  | Some (sch, rest) =>
      let host := default rest (head (split (ch "/") rest)) in
      Ok (Build_Url s (Some host) (Some (Domain host)) sch)
  | None => Err (lit "relative URL without a base")
  end.

Definition sample_urls : UrlCrate :=
  {| url_parse := sample_parse; url_join := λ _ s, result_ok (sample_parse s) |}.

(** A server that sends everyone on to another host. *)
Definition sample_transport (s : Sent) : result HttpResponse ExecError :=
  if decide (host_str (sent_url s) = Some (lit "api.example.com"))
  then Ok (Build_HttpResponse 302 {[lit "location" := lit "https://cdn.example.com/f"]} [])
  else Ok (Build_HttpResponse 200 ∅ [104%N; 105%N]).

Definition sample_request : HttpRequest :=
  Build_HttpRequest (lit "POST") (lit "https://api.example.com/v1")
    {[lit "Authorization" := lit "secret"; lit "accept" := lit "text/plain"]} (Some [1%N]) None 10.

Definition sample_policy : LocalNetwork := for_agent_policy Gate.Allowlist [lit "Example.com"].

Lemma agent_requests_stay_in_policy_witness :
  ∃ trace r, open (H := sample_urls) sample_transport (λ _, true) sample_policy sample_request Agent
               = (trace, r) ∧ length trace = 2 ∧
    ∀ s, s ∈ trace → ∃ host, host_str (sent_url s) = Some host ∧ reachable sample_policy host.
Proof.
  destruct (open (H := sample_urls) sample_transport (λ _, true) sample_policy sample_request Agent)
    as [trace r] eqn:E.
  exists trace, r. split; [done|]. split.
  - vm_compute in E. by injection E as <- _.
  - exact (proj2 (agent_requests_stay_in_policy (H := sample_urls) _ _ _ _ _ _ E)).
Defined.

Lemma credentials_stay_with_their_host_witness :
  ∃ trace r s v, open (H := sample_urls) sample_transport (λ _, true) sample_policy sample_request
               Agent = (trace, r) ∧ s ∈ trace ∧ sent_headers s !! lit "Authorization" = Some v ∧
    host_str (sent_url s) = Some (lit "api.example.com").
Proof.
  destruct (open (H := sample_urls) sample_transport (λ _, true) sample_policy sample_request Agent)
    as [trace r] eqn:E.
  destruct trace as [|s rest]; [vm_compute in E; discriminate|].
  exists (s :: rest), r, s, (lit "secret"). split; [done|]. split; [left|].
  assert (Hs : sent_headers s !! lit "Authorization" = Some (lit "secret"))
    by (vm_compute in E; injection E as <- _ _; vm_compute; reflexivity).
  split; [exact Hs|].
  destruct (url_parse (UrlCrate := sample_urls) (url sample_request)) as [u|e] eqn:Eu;
    [|vm_compute in Eu; discriminate].
  destruct (credentials_stay_with_their_host (H := sample_urls) _ _ _ _ _ _ _ u s _ _ E Eu
    ltac:(left) Hs) as [_ Hc].
  destruct (Hc ltac:(vm_compute; reflexivity)) as [-> _].
  vm_compute in Eu. injection Eu as <-. vm_compute. reflexivity.
Defined.

Lemma address_literals_are_judged_witness :
  after_host (lit ":8080/x") ∧
  ssrf_check_url (λ _, None) (lit "http://10.1.2.3:8080/x") =
  Err (PrivateIp (V4 [10; 1; 2; 3]%N) (lit "http://10.1.2.3:8080/x")).
Proof.
  assert (Ht : after_host (lit ":8080/x")) by (right; left; vm_compute; reflexivity).
  split; [exact Ht|].
  exact (address_literals_are_judged (λ _, None) (lit "http") 10 1 2 3 (lit ":8080/x")
    (or_introl eq_refl) ltac:(repeat constructor) Ht).
Defined.
