(* ===== verification/ModelClient.v ===== *)
(** * Model clients: requests and retries ([crates/core/src/interface/backoff.rs],
    [crates/model/src/client.rs], [error.rs], [openai/mod.rs], and of
    [adapter.rs] [map_error])

    Sending a request until it is answered, for both wire protocols: how a
    response is classified, which failures are worth another attempt and how
    long to wait for it.  What the network does with each attempt is a
    parameter; so are the clock's nanoseconds behind the jitter. *)

From stdpp Require Import base option numbers gmap strings pretty list.
From Stdlib Require Import SpecFloat.
From S2P Require Import Prelude RustStr Float Net.

(** ** [backoff.rs] *)

Module RequestFailure.
Inductive t := RateLimited | Overloaded | Transport | Other.

#[global] Instance eq_dec : EqDecision t.
Proof. solve_decision. Defined.
End RequestFailure.

Record FailedAttempt := {
  index : nat;
  failure : RequestFailure.t;
  server_hint : option Z;  (** milliseconds *)
}.

Inductive Backoff := GiveUp | WaitThenRetry (ms : Z).

(** The trait; its second argument is the sub-second part of the clock. *)
Definition BackoffPolicy : Type := FailedAttempt → Z → Backoff.

Record LadderBackoff := {
  steps : list Z;
  jitter_ratio : spec_float;
}.

Definition DEFAULT_STEPS : list Z := [1000; 2000; 4000; 8000; 16000; 32000]%Z.
Definition DEFAULT_JITTER : spec_float := f32_0_25.
Definition from_millis (steps : list Z) : LadderBackoff := Build_LadderBackoff steps DEFAULT_JITTER.

Definition jittered (base_ms : Z) (ratio : spec_float) (nanos : Z) : Z :=
  let unit := f32_div (f32_of (nanos `mod` 1000000)) (f32_of 1000000) in
  let signed := f32_mul (f32_sub unit f32_0_5) (f32_of 2) in
  let delta_ms := f32_to_i64 (f32_mul (f32_mul (f32_of base_ms) ratio) signed) in
  (0 `max` as_i64 (as_i64 base_ms + delta_ms))%Z.

Definition ladder_after_failure (l : LadderBackoff) : BackoffPolicy := λ attempt nanos,
  if bool_decide (failure attempt = RequestFailure.Other) then GiveUp
  else
    match steps l !! index attempt with
    | None => GiveUp
    | Some step =>
        let base := match server_hint attempt with Some hint => (hint `mod` 2 ^ 64)%Z | None => step end in
        WaitThenRetry (jittered base (jitter_ratio l) nanos)
    end.

Definition no_backoff : BackoffPolicy := λ _ _, GiveUp.

(** ** Errors *)

Module AnthropicError.
(** Errors of other crates are their text. *)
Inductive t :=
| Transport (e : str)
| RateLimited (retry_after : option Z) (headers : list (str * str))
| Overloaded (status : Z)
| Server (status : Z) (body : str)
| Auth (m : str)
| StreamInterrupted
| Sse (m : str)
| Schema (e : str)
| Refused
| Cancelled
| ParseError (m : str)
| Denied (m : str).

(** [Duration]'s [Debug] of whole seconds, in an [Option]. *)
Definition debug_seconds (d : option Z) : str :=
  match d with
  | Some n => lit "Some(" ++ (if bool_decide (n = 0)%Z then lit "0ns" else lit (pretty n) ++ lit "s") ++ lit ")"
  | None => lit "None"
  end.

Definition display (e : t) : str :=
  match e with
  | Transport e => lit "transport: " ++ e
  | RateLimited retry_after _ => lit "rate limited; retry-after = " ++ debug_seconds retry_after
  | Overloaded status => lit "overloaded (HTTP " ++ lit (pretty status) ++ lit ")"
  | Server status body => lit "server error " ++ lit (pretty status) ++ lit ": " ++ body
  | Auth m => lit "auth: " ++ m
  | StreamInterrupted => lit "stream interrupted"
  | Sse m => lit "sse: " ++ m
  | Schema e => lit "schema: " ++ e
  | Refused => lit "refused by model"
  | Cancelled => lit "cancelled"
  | ParseError m => lit "parse error: " ++ m
  | Denied m => lit "refused by egress policy: " ++ m
  end.

Definition is_context_limit_error (e : t) : bool :=
  match e with
  | Server status body =>
      if bool_decide (status ∈ [400; 413; 422]%Z) then
        let body := to_ascii_lowercase body in
        existsb (λ w, contains w body)
          [lit "context"; lit "token"; lit "prompt"; lit "too long"; lit "exceed"; lit "maximum"]
      else false
  | StreamInterrupted => true
  | _ => false
  end.
End AnthropicError.

Module ModelError.
Inductive t :=
| Api (status : Z) (message : str)
| Auth (m : str)
| RateLimited
| Overloaded
| Network (m : str)
| Cancelled
| Internal (m : str).

Definition display (e : t) : str :=
  match e with
  | Api status message => lit "API error " ++ lit (pretty status) ++ lit ": " ++ message
  | Auth m => lit "auth error: " ++ m
  | RateLimited => lit "rate limited"
  | Overloaded => lit "overloaded"
  | Network m => lit "network error: " ++ m
  | Cancelled => lit "cancelled"
  | Internal m => lit "internal: " ++ m
  end.
End ModelError.

(** [adapter.rs] [map_error]. *)
Definition map_error (e : AnthropicError.t) : ModelError.t :=
  match e with
  | AnthropicError.Auth msg => ModelError.Auth msg
  | AnthropicError.RateLimited _ _ => ModelError.RateLimited
  | AnthropicError.Overloaded _ => ModelError.Overloaded
  | AnthropicError.Transport e => ModelError.Network e
  | AnthropicError.Server status body => ModelError.Api status body
  | AnthropicError.Cancelled => ModelError.Cancelled
  | other => ModelError.Internal (AnthropicError.display other)
  end.

Definition exec_display (e : ExecError) : str :=
  match e with
  | Unavailable m => lit "execution environment unavailable: " ++ m
  | Denied m => lit "refused by policy: " ++ m
  | Failed m => m
  end.

(** [impl From<ExecError> for AnthropicError], and [exec_error]. *)
Definition anthropic_exec_error (e : ExecError) : AnthropicError.t :=
  match e with
  | Denied m => AnthropicError.Denied m
  | other => AnthropicError.Transport (exec_display other)
  end.

Definition exec_error (e : ExecError) : ModelError.t :=
  match e with
  | Denied m => ModelError.Internal (lit "refused by egress policy: " ++ m)
  | other => ModelError.Network (exec_display other)
  end.

(** ** One attempt *)

(** What becomes of one attempt: it never left, the network refused or failed,
    nobody answered in time, or there is a response; [R] is what a body that
    is read as a stream yields. *)
Inductive Attempt (E R : Type) :=
| NotSent (e : E)
| NoConnection (e : ExecError)
| NoHeaders
| Response (status : Z) (headers : gmap str str) (body : str) (stream : R).
Arguments NotSent {E R} _.
Arguments NoConnection {E R} _.
Arguments NoHeaders {E R}.
Arguments Response {E R} _ _ _ _.

Definition is_success (status : Z) : bool := bool_decide (200 ≤ status < 300)%Z.

(** The body of an error, cut. *)
Definition error_body (body : str) : str :=
  if bool_decide (4096 < N.of_nat (len body))%N then take (N.to_nat 4096) body else body.

(** Milliseconds. *)
Definition parse_retry_after (headers : gmap str str) : option Z :=
  v ← headers !! lit "retry-after";
  n ← parse_usize (trim v);
  Some (Z.of_N n * 1000)%Z.

Definition ratelimit_headers (headers : gmap str str) : list (str * str) :=
  omap (λ '(name, v),
    let n := to_ascii_lowercase name in
    if starts_with "anthropic-ratelimit-" n || bool_decide (n = lit "retry-after")
    then Some (n, v) else None) (map_to_list headers).

Definition classify_response {R} (status : Z) (headers : gmap str str) (body : str) (stream : R)
    : result R AnthropicError.t :=
  if is_success status then Ok stream
  else
    let body := error_body body in
    Err (if bool_decide (status ∈ [401; 403]%Z) then AnthropicError.Auth body
         else if bool_decide (status = 429)%Z
         then AnthropicError.RateLimited (parse_retry_after headers) (ratelimit_headers headers)
         else if bool_decide (status ∈ [503; 529]%Z) then AnthropicError.Overloaded status
         else AnthropicError.Server status body).

(** [send_one] under its deadline. *)
Definition anthropic_attempt {R} (a : Attempt AnthropicError.t R) : result R AnthropicError.t :=
  match a with
  | NotSent e => Err e
  | NoConnection e => Err (anthropic_exec_error e)
  | NoHeaders => Err AnthropicError.StreamInterrupted
  | Response status headers body stream => classify_response status headers body stream
  end.

(** [send_once] under its deadline. *)
Definition openai_attempt {R} (a : Attempt ModelError.t R) : result R ModelError.t :=
  match a with
  | NotSent e => Err e
  | NoConnection e => Err (exec_error e)
  | NoHeaders => Err (ModelError.Network (lit "no response headers within the idle window"))
  | Response status _ body stream =>
      if is_success status then Ok stream
      else
        let body := error_body body in
        Err (if bool_decide (status ∈ [401; 403]%Z) then ModelError.Auth body
             else if bool_decide (status = 429)%Z then ModelError.RateLimited
             else if bool_decide (status ∈ [503; 529]%Z) then ModelError.Overloaded
             else ModelError.Api status body)
  end.

Definition anthropic_failure_kind (e : AnthropicError.t) : RequestFailure.t :=
  match e with
  | AnthropicError.Transport _ => RequestFailure.Transport
  | AnthropicError.RateLimited _ _ => RequestFailure.RateLimited
  | AnthropicError.Overloaded _ => RequestFailure.Overloaded
  | _ => RequestFailure.Other
  end.

Definition anthropic_server_hint (e : AnthropicError.t) : option Z :=
  match e with AnthropicError.RateLimited retry_after _ => retry_after | _ => None end.

Definition openai_failure_kind (e : ModelError.t) : RequestFailure.t :=
  match e with
  | ModelError.Network _ => RequestFailure.Transport
  | ModelError.RateLimited => RequestFailure.RateLimited
  | ModelError.Overloaded => RequestFailure.Overloaded
  | _ => RequestFailure.Other
  end.

(** ** Until it is answered *)

Section Retry.
Context {E R : Type} (failure_kind : E → RequestFailure.t) (hint : E → option Z).
Context (backoff : BackoffPolicy) (nanos : nat → Z) (nth_attempt : nat → result R E).

(** The waits so far and the end; [None] when [fuel] is spent. *)
Fixpoint retry_loop (fuel attempt : nat) : option (list Z * result R E) :=
  match fuel with
  | O => None
  | S fuel =>
      match nth_attempt attempt with
      | Ok resp => Some ([], Ok resp)
      | Err e =>
          match backoff (Build_FailedAttempt attempt (failure_kind e) (hint e)) (nanos attempt) with
          | GiveUp => Some ([], Err e)
          | WaitThenRetry delay =>
              '(waits, r) ← retry_loop fuel (S attempt); Some (delay :: waits, r)
          end
      end
  end.

End Retry.

Section Clients.
Context {R : Type} (backoff : BackoffPolicy) (nanos : nat → Z).

Definition anthropic_send_with_retry (fuel : nat) (attempts : nat → Attempt AnthropicError.t R)
    : option (list Z * result R AnthropicError.t) :=
  retry_loop anthropic_failure_kind anthropic_server_hint backoff nanos
    (λ i, anthropic_attempt (attempts i)) fuel 0.

Definition openai_send_with_retry (fuel : nat) (attempts : nat → Attempt ModelError.t R)
    : option (list Z * result R ModelError.t) :=
  retry_loop openai_failure_kind (λ _, None) backoff nanos
    (λ i, openai_attempt (attempts i)) fuel 0.

End Clients.

(** ** The streams *)

(** The events of a body, [None] where the next one did not come in time. *)
Definition next_with_idle_timeout {A} (next : option (result A AnthropicError.t))
    : result A AnthropicError.t :=
  match next with Some r => r | None => Err AnthropicError.StreamInterrupted end.

(** [yield ev?]: the first error is the last item. *)
Fixpoint up_to_error {A E} (items : list (result A E)) : list (result A E) :=
  match items with
  | [] => []
  | Ok x :: items => Ok x :: up_to_error items
  | Err e :: _ => [Err e]
  end.

(** [stream_messages], and the stream of the other client: the request is sent
    when the stream is first read, so that a request that failed is a stream
    with one item. *)
Definition stream_messages {A}
    (sent : result (list (option (result A AnthropicError.t))) AnthropicError.t)
    : list (result A AnthropicError.t) :=
  match sent with
  | Err e => [Err e]
  | Ok events => up_to_error (next_with_idle_timeout <$> events)
  end.

Definition openai_items {A} (sent : result (list (result A ModelError.t)) ModelError.t)
    : list (result A ModelError.t) :=
  match sent with Err e => [Err e] | Ok events => events end.

Definition openai_stream {A} (sent : result (list (result A ModelError.t)) ModelError.t)
    : result (list (result A ModelError.t)) ModelError.t := Ok (openai_items sent).

(** ** The endpoint *)

Definition chat_completions_path (base_url : str) : result str str :=
  let trimmed := trim_end_matches [ch "/"] (trim base_url) in
  if bool_decide (trimmed = []) then Err (lit "base_url is empty")
  else if ends_with "/chat/completions" trimmed then Ok trimmed
  else if ends_with "/v1" trimmed then Ok (trimmed ++ lit "/chat/completions")
  else Ok (trimmed ++ lit "/v1/chat/completions").

Definition chat_completions_url `{UrlCrate} (base_url : str) : result Url ModelError.t :=
  match chat_completions_path base_url with
  | Err m => Err (ModelError.Internal m)
  | Ok full =>
      match url_parse full with
      | Ok u => Ok u
      | Err e => Err (ModelError.Internal (lit "invalid base_url '" ++ base_url ++ lit "': " ++ e))
      end
  end.

(** ** Retrying ends *)

(** What a send under a ladder did: it waited [length waits] times, each after
    a failure worth it, and ended with the attempt after. *)
Record retried {E R} (kind : E → RequestFailure.t) (hint : E → option Z) (l : LadderBackoff)
    (nanos : nat → Z) (nth_attempt : nat → result R E) (from : nat) (waits : list Z)
    (r : result R E) : Prop := {
  retried_budget : from + length waits ≤ from `max` length (steps l);
  retried_last : r = nth_attempt (from + length waits);
  retried_waits : ∀ i w, waits !! i = Some w → ∃ e step,
    nth_attempt (from + i) = Err e ∧ kind e ≠ RequestFailure.Other ∧
    steps l !! (from + i) = Some step ∧
    w = jittered (from_option (λ h, (h `mod` 2 ^ 64)%Z) step (hint e)) (jitter_ratio l)
          (nanos (from + i));
  retried_gives_up : ∀ e, r = Err e →
    kind e = RequestFailure.Other ∨ length (steps l) ≤ from + length waits;
}.

Lemma ladder_retries {E R} kind hint l nanos (nth_attempt : nat → result R E) fuel from :
  length (steps l) < fuel + from →
  ∃ waits r, retry_loop kind hint (ladder_after_failure l) nanos nth_attempt fuel from =
    Some (waits, r) ∧ retried kind hint l nanos nth_attempt from waits r ∨
  fuel = 0.
Proof.
  revert from. induction fuel as [|fuel IH]; intros from Hfuel; [exists [], (nth_attempt 0); by right|].
  cbn [retry_loop]. destruct (nth_attempt from) as [resp|e] eqn:Ha.
  { eexists _, _. left. split; [done|]. split; cbn [length]; rewrite ?Nat.add_0_r; try done; lia. }
  unfold ladder_after_failure at 1. cbn [failure index server_hint].
  case_bool_decide as Hk.
  { eexists _, _. left. split; [done|]. split; cbn [length]; rewrite ?Nat.add_0_r; try done; [lia|].
    intros ? [= ->]. by left. }
  destruct (steps l !! from) as [step|] eqn:Hs.
  2:{ apply lookup_ge_None in Hs. eexists _, _. left. split; [done|].
      split; cbn [length]; rewrite ?Nat.add_0_r; try done; [lia|]. intros ? _. by right. }
  pose proof (lookup_lt_Some _ _ _ Hs) as Hlt.
  destruct (IH (S from)) as (waits & r & [[-> [Hb Hl Hw Hg]]| ->]); [lia| |lia].
  eexists _, _. left. split; [reflexivity|]. split; cbn [length]; rewrite <-?Nat.add_succ_comm; try done; [lia|].
  intros [|i] w; cbn [lookup list_lookup].
  - intros [= <-]. exists e, step. rewrite Nat.add_0_r. split_and!; done.
  - intros Hi. rewrite <-Nat.add_succ_comm. by apply Hw.
Qed.

(** Sending ends: under a ladder both clients come back after at most one
    attempt per step and one more; the outcome is that of the last attempt;
    they waited only after failures worth it, for the provider's own delay or
    that of the step, and they give up only on a failure that is not worth it
    or when the steps are used up. *)
Theorem sending_ends {R} l nanos (a : nat → Attempt AnthropicError.t R)
    (o : nat → Attempt ModelError.t R) :
  (∃ waits r, anthropic_send_with_retry (ladder_after_failure l) nanos (S (length (steps l))) a =
      Some (waits, r) ∧
    retried anthropic_failure_kind anthropic_server_hint l nanos (λ i, anthropic_attempt (a i)) 0 waits r) ∧
  (∃ waits r, openai_send_with_retry (ladder_after_failure l) nanos (S (length (steps l))) o =
      Some (waits, r) ∧
    retried openai_failure_kind (λ _, None) l nanos (λ i, openai_attempt (o i)) 0 waits r).
Proof.
  unfold anthropic_send_with_retry, openai_send_with_retry. split.
  - destruct (ladder_retries anthropic_failure_kind anthropic_server_hint l nanos
      (λ i, anthropic_attempt (a i)) (S (length (steps l))) 0) as (w & r & [?|?]); [lia|eauto|done].
  - destruct (ladder_retries openai_failure_kind (λ _, None) l nanos
      (λ i, openai_attempt (o i)) (S (length (steps l))) 0) as (w & r & [?|?]); [lia|eauto|done].
Qed.

(** ** Two clients, one vocabulary *)

Definition map_err {E F A} (f : E → F) (r : result A E) : result A F :=
  match r with Ok x => Ok x | Err e => Err (f e) end.

(** Both clients tell the engine the same of a response and of a network that
    failed, and every error of the one is as worth retrying as what the engine
    is told; but a server that never answers is worth another attempt to one
    of them only. *)
Theorem clients_agree {R} status headers body (stream : R) e :
  map_err map_error (anthropic_attempt (Response status headers body stream)) =
    openai_attempt (Response status headers body stream) ∧
  map_err map_error (anthropic_attempt (R := R) (NoConnection e)) = openai_attempt (NoConnection e) ∧
  (∀ e, anthropic_failure_kind e = openai_failure_kind (map_error e)) ∧
  anthropic_failure_kind AnthropicError.StreamInterrupted = RequestFailure.Other ∧
  (∃ r, openai_attempt (R := R) NoHeaders = Err r ∧ openai_failure_kind r = RequestFailure.Transport).
Proof.
  split_and!; try done.
  - cbn [anthropic_attempt openai_attempt]. unfold classify_response.
    repeat (case_match; try done).
  - by destruct e.
  - intros []; done.
  - by eexists.
Qed.

(** Examples of the ladder at three instants of the clock, and of a hint. *)
Example ladder_examples :
  (λ n, ladder_after_failure (from_millis DEFAULT_STEPS)
     (Build_FailedAttempt 5 RequestFailure.Overloaded None) n) <$> [0; 500000; 999999]%Z =
    [WaitThenRetry 24000; WaitThenRetry 32000; WaitThenRetry 39999] ∧
  ladder_after_failure (from_millis DEFAULT_STEPS)
    (Build_FailedAttempt 0 RequestFailure.RateLimited (Some 60000%Z)) 500000%Z = WaitThenRetry 60000 ∧
  ladder_after_failure (from_millis DEFAULT_STEPS)
    (Build_FailedAttempt 6 RequestFailure.Overloaded (Some 60000%Z)) 0%Z = GiveUp.
Proof. by vm_compute. Qed.
