(* ===== verification/ModelStream.v ===== *)
(** * From the wire to model events ([crates/model/src/adapter.rs]
    [map_stream_event], [stream.rs], [openai/stream.rs])

    Both wire protocols become one vocabulary of events.  A tool call's input
    arrives in fragments: with the one protocol between the start and the stop
    of a block, with the other under an index until the reply is over.  What a
    Chat Completions body says is specified from the list of its chunks alone
    ([body_says]), without the table the code keeps.  JSON text is a
    parameter, and so are the frames it is read from. *)

From stdpp Require Import base option numbers gmap strings pretty list sorting.
From S2P Require Import Prelude RustStr PermTypes Net ModelClient Conversation Messages Store Session Streaming.

(** ** JSON text *)

(** [serde_json::from_str::<Value>] and [Value::to_string]. *)
Class JsonText := {
  json_of_str : str → option value;
  json_to_string : value → str;
}.

Section Wire.
Context `{JsonText}.

(** The input of a call from its concatenated fragments. *)
Definition parse_input (json : str) : value :=
  if bool_decide (trim json = []) then VObject [] else default (VObject []) (json_of_str json).

(** ** The Messages protocol *)

Record WireUsage := {
  wire_input_tokens : Z;
  wire_output_tokens : Z;
  wire_cache_creation_input_tokens : option Z;
  wire_cache_read_input_tokens : option Z;
}.

Definition WireUsage_default : WireUsage := Build_WireUsage 0 0 None None.

Inductive ContentBlockStart :=
| StartText (text : str)
| StartToolUse (id name : str) (input : value)
| StartServerToolUse (id name : str) (input : value)
| StartWebSearchToolResult (tool_use_id : str) (content : value)
| StartThinking (thinking : str)
| StartRedactedThinking (data : str).

Inductive BlockDelta :=
| DeltaText (text : str)
| DeltaInputJson (partial_json : str)
| DeltaThinking (thinking : str)
| DeltaSignature (signature : str)
| DeltaCitations (citation : value).

Inductive StreamEvent :=
| MessageStart (usage : WireUsage)
| BlockStart (index : nat) (content_block : ContentBlockStart)
| ContentBlockDelta (index : nat) (delta : BlockDelta)
| BlockStop (index : nat)
| MessageDelta (stop_reason : option StopReason) (usage : option WireUsage)
| MessageStop
| Ping
| ErrorEvent (kind message : str)
| UnknownEvent.

Record PendingToolUse := {
  pending_id : str;
  pending_name : str;
  pending_json : str;
}.

Record StreamState := {
  tool_uses : gmap nat PendingToolUse;
  opening_usage : Usage;
}.

Definition StreamState_default : StreamState := Build_StreamState ∅ Usage_default.

Definition as_u32 (n : Z) : Z := (n `mod` 2 ^ 32)%Z.

(** What a tool block starts from: a placeholder counts for nothing. *)
Definition seed (input : value) : str :=
  match input with
  | VNull => []
  | VObject [] => []
  | _ => json_to_string input
  end.

Definition stop_reason_text (sr : option StopReason) : str :=
  match sr with
  | Some Messages.EndTurn => "end_turn"
  | Some MaxTokens => "max_tokens"
  | Some StopToolUse => "tool_use"
  | Some StopSequence => "stop_sequence"
  | Some PauseTurn => "pause_turn"
  | _ => "unknown"
  end.

Definition open_tool (acc : StreamState) (index : nat) (id name : str) (input : value)
    : StreamState * list (result ModelEvent ModelError.t) :=
  (Build_StreamState (<[ index := Build_PendingToolUse id name (seed input) ]> (tool_uses acc))
     (opening_usage acc), [Ok (ToolUseStart id name)]).

Definition later_or_opening (reported opening : Z) : Z :=
  if bool_decide (0 < reported)%Z then as_u32 reported else opening.

Definition end_usage (reported : WireUsage) (opening : Usage) : Usage :=
  {| usage_input_tokens := later_or_opening (wire_input_tokens reported) (usage_input_tokens opening);
     usage_output_tokens := as_u32 (wire_output_tokens reported);
     usage_cache_creation_input_tokens :=
       later_or_opening (default 0%Z (wire_cache_creation_input_tokens reported))
         (usage_cache_creation_input_tokens opening);
     usage_cache_read_input_tokens :=
       later_or_opening (default 0%Z (wire_cache_read_input_tokens reported))
         (usage_cache_read_input_tokens opening) |}.

Definition map_stream_event (acc : StreamState) (event : StreamEvent)
    : StreamState * list (result ModelEvent ModelError.t) :=
  match event with
  | BlockStart index (StartText text) => (acc, [Ok (Streaming.ContentBlockStart index (Text text))])
  | BlockStart index (StartToolUse id name input)
  | BlockStart index (StartServerToolUse id name input) => open_tool acc index id name input
  | BlockStart _ (StartThinking thinking) =>
      (acc, if bool_decide (thinking = []) then [] else [Ok (ThinkingDelta thinking)])
  | BlockStart _ (StartRedactedThinking data) => (acc, [Ok (RedactedThinkingEvent data)])
  | BlockStart _ (StartWebSearchToolResult _ _) => (acc, [])
  | ContentBlockDelta _ (DeltaText text) => (acc, [Ok (TextDelta text)])
  | ContentBlockDelta _ (DeltaThinking thinking) => (acc, [Ok (ThinkingDelta thinking)])
  | ContentBlockDelta _ (DeltaSignature signature) => (acc, [Ok (ThinkingSignature signature)])
  | ContentBlockDelta index (DeltaInputJson partial_json) =>
      match tool_uses acc !! index with
      | Some p =>
          (Build_StreamState
             (<[ index := Build_PendingToolUse (pending_id p) (pending_name p)
                            (pending_json p ++ partial_json) ]> (tool_uses acc))
             (opening_usage acc),
           [Ok (ToolArgsDelta (pending_id p) partial_json)])
      | None => (acc, [])
      end
  | ContentBlockDelta _ (DeltaCitations _) => (acc, [])
  | BlockStop index =>
      match tool_uses acc !! index with
      | Some p =>
          (Build_StreamState (base.delete index (tool_uses acc)) (opening_usage acc),
           [Ok (ToolUseEvent (pending_id p) (pending_name p) (parse_input (pending_json p)))])
      | None => (acc, [])
      end
  | MessageStart usage =>
      (Build_StreamState (tool_uses acc)
         (Build_Usage (as_u32 (wire_input_tokens usage)) 0
            (as_u32 (default 0%Z (wire_cache_creation_input_tokens usage)))
            (as_u32 (default 0%Z (wire_cache_read_input_tokens usage)))), [])
  | MessageDelta stop_reason usage =>
      (acc, [Ok (Streaming.EndTurn (stop_reason_text stop_reason)
                   (end_usage (default WireUsage_default usage) (opening_usage acc)))])
  | ErrorEvent _ message => (acc, [Err (ModelError.Api 500 message)])
  | MessageStop | Ping | UnknownEvent => (acc, [])
  end.

(** The stream of [AnthropicModel]: [scan] and [flat_map]. *)
Definition map_item (acc : StreamState) (item : result StreamEvent AnthropicError.t)
    : StreamState * list (result ModelEvent ModelError.t) :=
  match item with
  | Ok event => map_stream_event acc event
  | Err e => (acc, [Err (map_error e)])
  end.

Fixpoint map_stream (acc : StreamState) (items : list (result StreamEvent AnthropicError.t))
    : list (result ModelEvent ModelError.t) :=
  match items with
  | [] => []
  | item :: items => let '(acc, events) := map_item acc item in events ++ map_stream acc items
  end.

Definition anthropic_stream
    (sent : result (list (option (result StreamEvent AnthropicError.t))) AnthropicError.t)
    : result (list (result ModelEvent ModelError.t)) ModelError.t :=
  Ok (map_stream StreamState_default (stream_messages sent)).

(** ** The Chat Completions protocol *)

Record FunctionDelta := {
  function_name : option str;
  function_arguments : option str;
}.

Record ToolCallDelta := {
  call_index : nat;
  tool_call_id : option str;
  function : option FunctionDelta;
}.

Record ChunkDelta := {
  delta_content : option str;
  reasoning_content : option str;
  delta_tool_calls : list ToolCallDelta;
}.

Record ChunkChoice := {
  choice_delta : ChunkDelta;
  finish_reason : option str;
}.

Record ChunkUsage := {
  prompt_tokens : Z;
  completion_tokens : Z;
  cached_tokens : option Z;
}.

Record ChatCompletionChunk := {
  choices : list ChunkChoice;
  chunk_usage : option ChunkUsage;
}.

Record PendingToolCall := {
  call_id : str;
  call_name : str;
  arguments : str;
  announced : bool;
}.

Definition PendingToolCall_default : PendingToolCall := Build_PendingToolCall [] [] [] false.

Record ChunkAccumulator := {
  pending : gmap nat PendingToolCall;
  acc_stop_reason : option str;
  acc_usage : Usage;
  finished : bool;
}.

Definition ChunkAccumulator_default : ChunkAccumulator :=
  Build_ChunkAccumulator ∅ None Usage_default false.

Definition map_finish_reason (reason : str) : str :=
  if bool_decide (reason = lit "stop") then "end_turn"
  else if bool_decide (reason = lit "length") then "max_tokens"
  else if bool_decide (reason = lit "tool_calls" ∨ reason = lit "function_call") then "tool_use"
  else reason.

Definition non_empty (s : option str) : option str :=
  s ≫= λ s, if bool_decide (s = []) then None else Some s.

(** One fragment of a call: the entry and what observers are told. *)
Definition push_fragment (entry : PendingToolCall) (delta : ToolCallDelta)
    : PendingToolCall * list ModelEvent :=
  let id := default (call_id entry) (tool_call_id delta) in
  let name := default (call_name entry) (function delta ≫= function_name) in
  let args := non_empty (function delta ≫= function_arguments) in
  let announces :=
    negb (announced entry) && negb (bool_decide (id = [])) && negb (bool_decide (name = [])) in
  let told := announced entry || announces in
  (Build_PendingToolCall id name (arguments entry ++ default [] args) told,
   (if announces then
      ToolUseStart id name ::
      (if bool_decide (arguments entry = []) then [] else [ToolArgsDelta id (arguments entry)])
    else []) ++
   match args with Some a => if told then [ToolArgsDelta id a] else [] | None => [] end).

Definition push_call (st : gmap nat PendingToolCall * list ModelEvent) (delta : ToolCallDelta)
    : gmap nat PendingToolCall * list ModelEvent :=
  let '(pending, out) := st in
  let '(entry, events) :=
    push_fragment (default PendingToolCall_default (pending !! call_index delta)) delta in
  (<[ call_index delta := entry ]> pending, out ++ events).

Definition drain_tool_calls (pending : gmap nat PendingToolCall) : list ModelEvent :=
  (λ ip, ToolUseEvent (call_id ip.2) (call_name ip.2) (parse_input (arguments ip.2)))
    <$> merge_sort by_fst (map_to_list pending).

Definition push_choice (st : ChunkAccumulator * list ModelEvent) (choice : ChunkChoice)
    : ChunkAccumulator * list ModelEvent :=
  let '(acc, out) := st in
  let delta := choice_delta choice in
  let texts :=
    from_option (λ t, [TextDelta t]) [] (non_empty (delta_content delta)) ++
    from_option (λ t, [ThinkingDelta t]) [] (non_empty (reasoning_content delta)) in
  let '(pending, events) := foldl push_call (pending acc, []) (delta_tool_calls delta) in
  match finish_reason choice with
  | Some reason =>
      (Build_ChunkAccumulator ∅ (Some (map_finish_reason reason)) (acc_usage acc) (finished acc),
       out ++ texts ++ events ++ drain_tool_calls pending)
  | None =>
      (Build_ChunkAccumulator pending (acc_stop_reason acc) (acc_usage acc) (finished acc),
       out ++ texts ++ events)
  end.

Definition push (acc : ChunkAccumulator) (chunk : ChatCompletionChunk)
    : ChunkAccumulator * list ModelEvent :=
  let acc :=
    match chunk_usage chunk with
    | Some u =>
        Build_ChunkAccumulator (pending acc) (acc_stop_reason acc)
          (Build_Usage (prompt_tokens u) (completion_tokens u) 0 (default 0%Z (cached_tokens u)))
          (finished acc)
    | None => acc
    end in
  foldl push_choice (acc, []) (choices chunk).

Definition acc_finish (acc : ChunkAccumulator) : ChunkAccumulator * list ModelEvent :=
  if finished acc then (acc, [])
  else
    (Build_ChunkAccumulator ∅ (acc_stop_reason acc) (acc_usage acc) true,
     drain_tool_calls (pending acc) ++
     [Streaming.EndTurn (default (lit "end_turn") (acc_stop_reason acc)) (acc_usage acc)]).

(** What the next read of the body brings: nothing in time, an error, or an
    event's data. *)
Inductive SseItem := SseIdle | SseError (e : str) | SseData (data : str).

Definition DONE_SENTINEL : str := "[DONE]".

(** [chunk_of]: [serde_json::from_str::<ChatCompletionChunk>]. *)
Fixpoint events_loop (chunk_of : str → option ChatCompletionChunk) (idle_secs : Z)
    (acc : ChunkAccumulator) (items : list SseItem) : list (result ModelEvent ModelError.t) :=
  match items with
  | [] => Ok <$> (acc_finish acc).2
  | SseIdle :: _ =>
      [Err (ModelError.Network (lit "stream idle for " ++ lit (pretty idle_secs) ++ lit "s"))]
  | SseError e :: _ => [Err (ModelError.Network e)]
  | SseData data :: items =>
      let data := trim data in
      if bool_decide (data = []) then events_loop chunk_of idle_secs acc items
      else if bool_decide (data = DONE_SENTINEL) then Ok <$> (acc_finish acc).2
      else
        match chunk_of data with
        | Some chunk =>
            let '(acc, events) := push acc chunk in
            (Ok <$> events) ++ events_loop chunk_of idle_secs acc items
        | None => events_loop chunk_of idle_secs acc items
        end
  end.

Definition events_from_bytes (chunk_of : str → option ChatCompletionChunk) (items : list SseItem)
    : list (result ModelEvent ModelError.t) :=
  events_loop chunk_of 90 ChunkAccumulator_default items.

End Wire.

(** ** What a Chat Completions body says *)

(** What the engine acts on; the rest is for observers. *)
Definition acted_on (e : ModelEvent) : bool :=
  match e with
  | ToolUseStart _ _ | ToolArgsDelta _ _ | Streaming.ContentBlockStart _ _ | ContentBlockStop _ => false
  | _ => true
  end.

Section Bodies.
Context `{JsonText}.

Definition outcome_acted (r : result ModelEvent ModelError.t) : bool :=
  match r with Ok e => acted_on e | Err _ => true end.

(** The outcomes the engine acts on. *)
Definition acted (rs : list (result ModelEvent ModelError.t)) : list (result ModelEvent ModelError.t) :=
  filter (λ r, outcome_acted r = true) rs.

(** The chunks a body carries, and the failure that cut it off, if one did.
    Keep-alives and frames that are not chunks cost only themselves; a body is
    over with [[DONE]] or with the connection. *)
Inductive carries (chunk_of : str → option ChatCompletionChunk)
    : list SseItem → list ChatCompletionChunk → option ModelError.t → Prop :=
| carries_closed : carries chunk_of [] [] None
| carries_done d rest :
    trim d = DONE_SENTINEL → carries chunk_of (SseData d :: rest) [] None
| carries_silence rest :
    carries chunk_of (SseIdle :: rest) [] (Some (ModelError.Network (lit "stream idle for 90s")))
| carries_failure e rest :
    carries chunk_of (SseError e :: rest) [] (Some (ModelError.Network e))
| carries_skip d items cs cut :
    trim d ≠ DONE_SENTINEL → trim d = [] ∨ chunk_of (trim d) = None →
    carries chunk_of items cs cut → carries chunk_of (SseData d :: items) cs cut
| carries_chunk d items c cs cut :
    trim d ≠ DONE_SENTINEL → trim d ≠ [] → chunk_of (trim d) = Some c →
    carries chunk_of items cs cut → carries chunk_of (SseData d :: items) (c :: cs) cut.

(** What fragments say of call [k]: the last id and the last name they give
    it, and their pieces of its arguments put end to end. *)
Definition spelled (k : nat) (ds : list ToolCallDelta) : str * str * str :=
  let own := filter (λ d, call_index d = k) ds in
  (default [] (last (omap tool_call_id own)),
   default [] (last (omap (λ d, function d ≫= function_name) own)),
   mjoin (omap (λ d, function d ≫= function_arguments) own)).

Definition indices (ds : list ToolCallDelta) : list nat :=
  merge_sort (≤) (remove_dups (call_index <$> ds)).

Definition call_event (spelling : str * str * str) : ModelEvent :=
  let '(id, name, args) := spelling in ToolUseEvent id name (parse_input args).

(** The calls that fragments make up: one for each index that occurs. *)
Definition calls (ds : list ToolCallDelta) : list ModelEvent :=
  (λ k, call_event (spelled k ds)) <$> indices ds.

Definition wording (c : ChunkChoice) : list ModelEvent :=
  option_list (TextDelta <$> non_empty (delta_content (choice_delta c))) ++
  option_list (ThinkingDelta <$> non_empty (reasoning_content (choice_delta c))).

(** What choices say: their words, and at each reason for finishing the calls
    of the fragments that came since the one before; and the fragments that
    are left when no reason follows. *)
Fixpoint reading (open : list ToolCallDelta) (cs : list ChunkChoice)
    : list ModelEvent * list ToolCallDelta :=
  match cs with
  | [] => ([], open)
  | c :: cs =>
      let open := open ++ delta_tool_calls (choice_delta c) in
      match finish_reason c with
      | Some _ => let '(es, rest) := reading [] cs in (wording c ++ calls open ++ es, rest)
      | None => let '(es, rest) := reading open cs in (wording c ++ es, rest)
      end
  end.

Definition reported (u : ChunkUsage) : Usage :=
  Build_Usage (prompt_tokens u) (completion_tokens u) 0 (default 0%Z (cached_tokens u)).

(** The end of a body that was not cut off: the calls no reason closed, and
    one end with the last reason and the last usage that were given. *)
Definition closing (chunks : list ChatCompletionChunk) : list ModelEvent :=
  calls (reading [] (chunks ≫= choices)).2 ++
  [Streaming.EndTurn
     (default (lit "end_turn") (map_finish_reason <$> last (omap finish_reason (chunks ≫= choices))))
     (default Usage_default (reported <$> last (omap chunk_usage chunks)))].

(** A body that is cut off ends with the failure: calls whose reason has not
    come are lost. *)
Definition ending (chunks : list ChatCompletionChunk) (cut : option ModelError.t)
    : list (result ModelEvent ModelError.t) :=
  match cut with Some e => [Err e] | None => Ok <$> closing chunks end.

Definition body_says (chunks : list ChatCompletionChunk) (cut : option ModelError.t)
    : list (result ModelEvent ModelError.t) :=
  (Ok <$> (reading [] (chunks ≫= choices)).1) ++ ending chunks cut.

(** *** The table of pending calls holds what the fragments spell *)

Definition kept (es : list ModelEvent) : list ModelEvent := filter (λ e, acted_on e = true) es.

Lemma acted_ok es : acted (Ok <$> es) = Ok <$> kept es.
Proof.
  unfold acted, kept. induction es as [|e es IH]; [done|].
  rewrite fmap_cons, !filter_cons. cbn [outcome_acted]. by destruct (acted_on e); cbn; rewrite IH.
Qed.

Lemma kept_app es es' : kept (es ++ es') = kept es ++ kept es'.
Proof. apply filter_app. Qed.

Lemma calls_kept ds : kept (calls ds) = calls ds.
Proof. unfold kept, calls. by apply list_filter_all, Forall_fmap, Forall_true. Qed.

Definition entry_text (p : PendingToolCall) : str * str * str := (call_id p, call_name p, arguments p).

Definition spells (m : gmap nat PendingToolCall) (ds : list ToolCallDelta) : Prop :=
  ∀ k, entry_text <$> m !! k = if decide (k ∈ call_index <$> ds) then Some (spelled k ds) else None.

Lemma spelled_other k ds d : call_index d ≠ k → spelled k (ds ++ [d]) = spelled k ds.
Proof. intros Hd. unfold spelled. by rewrite filter_app, filter_cons_False, app_nil_r. Qed.

Lemma last_omap_snoc {A B} (f : A → option B) l x d :
  default d (last (omap f (l ++ [x]))) = default (default d (last (omap f l))) (f x).
Proof. rewrite omap_app, last_app. cbn. by destruct (f x). Qed.

Lemma spelled_own ds d :
  spelled (call_index d) (ds ++ [d]) =
  (default (spelled (call_index d) ds).1.1 (tool_call_id d),
   default (spelled (call_index d) ds).1.2 (function d ≫= function_name),
   (spelled (call_index d) ds).2 ++ default [] (function d ≫= function_arguments)).
Proof.
  unfold spelled. rewrite filter_app, filter_cons_True by done. cbn [filter list_filter fst snd].
  rewrite !last_omap_snoc, omap_app, join_app. do 2 f_equal.
  cbn. destruct (_ ≫= function_arguments); cbn; [by rewrite app_nil_r|done].
Qed.

Lemma spelled_fresh k ds : k ∉ call_index <$> ds → spelled k ds = ([], [], []).
Proof.
  intros Hk. unfold spelled.
  assert (filter (λ d, call_index d = k) ds = []) as ->; [|done].
  apply elem_of_nil_inv. intros d [<- Hd]%list_elem_of_filter. by apply Hk, list_elem_of_fmap_2.
Qed.

Lemma spells_entry m ds k : spells m ds →
  entry_text (default PendingToolCall_default (m !! k)) = spelled k ds.
Proof.
  intros Hm. specialize (Hm k). case_decide as Hk.
  - destruct (m !! k); by simplify_eq/=.
  - rewrite spelled_fresh by done. by destruct (m !! k).
Qed.

Lemma push_fragment_text en d :
  entry_text (push_fragment en d).1 =
  (default (call_id en) (tool_call_id d), default (call_name en) (function d ≫= function_name),
   arguments en ++ default [] (function d ≫= function_arguments)).
Proof.
  unfold push_fragment, entry_text. cbn [fst call_id call_name arguments]. do 2 f_equal.
  destruct (function d ≫= function_arguments) as [a|]; [|done].
  unfold non_empty. cbn. case_bool_decide as Ha; [by rewrite Ha|done].
Qed.

Lemma push_fragment_observed en d : kept (push_fragment en d).2 = [].
Proof.
  unfold push_fragment. cbn [snd]. rewrite kept_app.
  assert (∀ b : bool, ∀ es, kept es = [] → kept (if b then es else []) = []) as Hif by by intros [].
  rewrite Hif.
  - destruct (non_empty _); [|done]. by destruct (_ || _).
  - by case_bool_decide.
Qed.

Lemma push_call_spells m ds out d : spells m ds →
  spells (push_call (m, out) d).1 (ds ++ [d]) ∧ kept (push_call (m, out) d).2 = kept out.
Proof.
  intros Hm. unfold push_call.
  pose proof (push_fragment_text (default PendingToolCall_default (m !! call_index d)) d) as Ht.
  pose proof (push_fragment_observed (default PendingToolCall_default (m !! call_index d)) d) as Ho.
  pose proof (spells_entry m ds (call_index d) Hm) as He.
  destruct (push_fragment _ _) as [en evs]. cbn [fst snd] in *. split.
  - intros k. rewrite fmap_app. destruct (decide (call_index d = k)) as [<-|Hk].
    + rewrite lookup_insert_eq, decide_True by set_solver.
      cbn [fmap option_fmap option_map]. by rewrite Ht, spelled_own, <-He.
    + rewrite lookup_insert_ne, spelled_other, Hm by done.
      apply decide_ext. set_solver.
  - by rewrite kept_app, Ho, app_nil_r.
Qed.

Lemma push_calls_spell ds' m ds out : spells m ds →
  spells (foldl push_call (m, out) ds').1 (ds ++ ds') ∧
  kept (foldl push_call (m, out) ds').2 = kept out.
Proof.
  revert m ds out. induction ds' as [|d ds' IH]; intros m ds out Hm.
  - by rewrite app_nil_r.
  - destruct (push_call_spells m ds out d Hm) as [Hs Ho]. cbn [foldl].
    destruct (push_call (m, out) d) as [m' out']. cbn [fst snd] in *.
    destruct (IH m' (ds ++ [d]) out' Hs) as [Hs' Ho']. by rewrite <-app_assoc in Hs'; rewrite Ho', Ho.
Qed.

Lemma spells_nothing : spells ∅ [].
Proof. intros k. by rewrite lookup_empty, decide_False by set_solver. Qed.

(** Drained, the table yields the calls in the order of their indices. *)
Lemma drain_spelled m ds : spells m ds → drain_tool_calls m = calls ds.
Proof.
  intros Hm. unfold drain_tool_calls, calls.
  assert (indices ds = (merge_sort by_fst (map_to_list m)).*1) as ->.
  { unfold indices. apply (StronglySorted_unique (≤)).
    - apply (StronglySorted_merge_sort (≤)).
    - apply (StronglySorted_fmap fst by_fst); [done|]. apply (StronglySorted_merge_sort by_fst).
    - rewrite !merge_sort_Permutation. apply NoDup_Permutation; [apply NoDup_remove_dups|apply NoDup_fst_map_to_list|].
      intros k. rewrite elem_of_remove_dups, (list_elem_of_fmap fst). specialize (Hm k). split.
      + intros Hk. case_decide; [|done]. destruct (m !! k) as [p|] eqn:E; [|done].
        exists (k, p). by rewrite elem_of_map_to_list.
      + intros ([i p] & -> & Hp%elem_of_map_to_list). cbn in Hm. rewrite Hp in Hm. by case_decide. }
  rewrite <-list_fmap_compose. apply list_fmap_ext. intros i [k p] Hi.
  assert (m !! k = Some p) as Hp.
  { apply elem_of_map_to_list. rewrite <-(merge_sort_Permutation by_fst). by eapply list_elem_of_lookup_2. }
  specialize (Hm k). rewrite Hp in Hm. case_decide; [|done].
  apply (inj Some) in Hm. unfold compose. cbn [fst snd]. by rewrite <-Hm.
Qed.

(** *** Feeding the accumulator *)

Lemma reading_app open cs cs' :
  reading open (cs ++ cs') =
  ((reading open cs).1 ++ (reading (reading open cs).2 cs').1, (reading (reading open cs).2 cs').2).
Proof.
  revert open. induction cs as [|c cs IH]; intros open; [cbn; by destruct (reading open cs')|].
  cbn [app reading]. destruct (finish_reason c); rewrite IH; destruct (reading _ cs) as [es rest];
    cbn [fst snd]; by rewrite <-!app_assoc.
Qed.

(** An accumulator that was fed the choices [past] and saw the usage [u]. *)
Record has_read (acc : ChunkAccumulator) (past : list ChunkChoice) (u : Usage) : Prop := {
  read_pending : spells (pending acc) (reading [] past).2;
  read_reason : acc_stop_reason acc = map_finish_reason <$> last (omap finish_reason past);
  read_usage : acc_usage acc = u;
  read_going : finished acc = false;
}.

Lemma push_choice_reads acc out past u c : has_read acc past u →
  has_read (push_choice (acc, out) c).1 (past ++ [c]) u ∧
  kept (push_choice (acc, out) c).2 = kept out ++ (reading (reading [] past).2 [c]).1.
Proof.
  intros [Hp Hr Hu Hf]. unfold push_choice.
  destruct (push_calls_spell (delta_tool_calls (choice_delta c)) _ _ [] Hp) as [Hs Ho].
  destruct (foldl push_call _ _) as [m evs]. cbn [fst snd] in *.
  assert (kept (from_option (λ t, [TextDelta t]) [] (non_empty (delta_content (choice_delta c))) ++
      from_option (λ t, [ThinkingDelta t]) [] (non_empty (reasoning_content (choice_delta c)))) = wording c) as Hw.
  { unfold wording. by destruct (non_empty _), (non_empty _). }
  match type of Hw with kept ?w = _ => generalize dependent w end. intros words Hw.
  destruct (finish_reason c) as [reason|] eqn:E; cbn [fst snd]; (split; [split|]);
    cbn [pending acc_stop_reason acc_usage finished]; try done.
  - rewrite reading_app. cbn. rewrite E. apply spells_nothing.
  - rewrite omap_app, last_app. cbn. by rewrite E.
  - rewrite !kept_app, Hw, Ho, (drain_spelled _ _ Hs). cbn. rewrite E. cbn.
    by rewrite calls_kept, app_nil_r.
  - rewrite reading_app. cbn. by rewrite E.
  - rewrite omap_app, last_app. cbn. by rewrite E.
  - rewrite !kept_app, Hw, Ho. cbn. by rewrite E.
Qed.

Lemma push_choices_read cs acc out past u : has_read acc past u →
  has_read (foldl push_choice (acc, out) cs).1 (past ++ cs) u ∧
  kept (foldl push_choice (acc, out) cs).2 = kept out ++ (reading (reading [] past).2 cs).1.
Proof.
  revert acc out past. induction cs as [|c cs IH]; intros acc out past Ha.
  - by rewrite !app_nil_r.
  - destruct (push_choice_reads acc out past u c Ha) as [Hc Ho]. cbn [foldl].
    destruct (push_choice (acc, out) c) as [acc' out']. cbn [fst snd] in *.
    destruct (IH acc' out' (past ++ [c]) Hc) as [Hcs Hos]. rewrite <-app_assoc in Hcs. split; [done|].
    rewrite Hos, Ho, <-app_assoc. f_equal.
    rewrite (reading_app [] past [c]). cbn [snd].
    change (c :: cs) with ([c] ++ cs). by rewrite (reading_app _ [c] cs).
Qed.

Definition fed (acc : ChunkAccumulator) (chunks : list ChatCompletionChunk) : Prop :=
  has_read acc (chunks ≫= choices) (default Usage_default (reported <$> last (omap chunk_usage chunks))).

Lemma push_feeds acc chunks c : fed acc chunks →
  fed (push acc c).1 (chunks ++ [c]) ∧
  kept (push acc c).2 = (reading (reading [] (chunks ≫= choices)).2 (choices c)).1.
Proof.
  intros [Hp Hr Hu Hf]. unfold fed, push.
  rewrite bind_app. cbn [mbind list_bind]. rewrite app_nil_r.
  apply (push_choices_read (choices c) _ []). rewrite omap_app, last_app. cbn.
  by destruct (chunk_usage c).
Qed.

Lemma finish_says acc chunks : fed acc chunks → (acc_finish acc).2 = closing chunks.
Proof.
  intros [Hp Hr Hu Hf]. unfold acc_finish, closing.
  by rewrite Hf, (drain_spelled _ _ Hp), Hr, Hu.
Qed.

Lemma closing_kept chunks : kept (closing chunks) = closing chunks.
Proof. unfold closing. by rewrite kept_app, calls_kept. Qed.

Lemma events_loop_says chunk_of items cs cut acc past :
  carries chunk_of items cs cut → fed acc past →
  acted (events_loop chunk_of 90 acc items) =
    (Ok <$> (reading (reading [] (past ≫= choices)).2 (cs ≫= choices)).1) ++ ending (past ++ cs) cut.
Proof.
  intros Hc. revert acc past.
  induction Hc as [|d rest Hd| | |d items cs cut Hd Hs _ IH|d items c cs cut Hd Hne Hp _ IH];
    intros acc past Ha; cbn [events_loop].
  - by rewrite app_nil_r, (finish_says _ _ Ha), acted_ok, closing_kept.
  - rewrite Hd, bool_decide_eq_false_2, bool_decide_eq_true_2 by done.
    by rewrite app_nil_r, (finish_says _ _ Ha), acted_ok, closing_kept.
  - done.
  - done.
  - case_bool_decide; [by apply IH|]. rewrite bool_decide_eq_false_2 by done.
    destruct Hs as [?| ->]; [done|]. by apply IH.
  - rewrite !bool_decide_eq_false_2, Hp by done. destruct (push_feeds acc past c Ha) as [Hf Ho].
    destruct (push acc c) as [acc' evs]. cbn [fst snd] in *.
    unfold acted at 1. rewrite filter_app. fold (acted (Ok <$> evs)). fold (acted (events_loop chunk_of 90 acc' items)).
    rewrite acted_ok, Ho, (IH acc' (past ++ [c]) Hf), <-app_assoc, app_assoc, <-fmap_app. f_equal.
    rewrite bind_app, (reading_app []). cbn [mbind list_bind snd]. rewrite app_nil_r.
    by rewrite (reading_app _ (choices c)).
Qed.

(** *** What the engine makes of it *)

(** An outcome as the turn reads it, the turn not being cancelled. *)
Definition delivered (r : result ModelEvent ModelError.t) : bool * result ModelEvent str :=
  (false, match r with Ok e => Ok e | Err e => Err (ModelError.display e) end).

Lemma consume_acted render run_tool safe provenance sched s rs :
  consume render run_tool safe provenance sched s (delivered <$> rs) =
  consume render run_tool safe provenance sched s (delivered <$> acted rs).
Proof.
  revert s. induction rs as [|[e|e] rs IH]; intros s; [done| |done].
  unfold acted. rewrite filter_cons. cbn [outcome_acted]. fold (acted rs).
  destruct (acted_on e) eqn:E; cbn; [apply IH|]. rewrite IH. by destruct e.
Qed.

(** C30. A Chat Completions body is read as what its chunks say, whatever
    they are.  What the engine acts on is, in order: the words of each choice
    that are not empty, spoken and thought; at each reason for finishing, the
    calls of the fragments that came since the one before, one for each index
    and in the order of the indices, with the last id and the last name given
    and the pieces of the arguments put end to end before they are parsed; and
    when the body is over, the calls no reason closed and one end, with the
    last reason and the last usage that were given.  Keep-alives and frames
    that are not chunks change nothing.  A body that falls silent or breaks
    off ends in that error, and the calls still open are lost.  A turn that
    reads the stream writes what it writes from these events alone. *)
Theorem chat_stream_is_assembled chunk_of items chunks cut :
  carries chunk_of items chunks cut →
  acted (events_from_bytes chunk_of items) = body_says chunks cut ∧
  ∀ render run_tool safe provenance sched T intercept now (session : SessionManager T),
    execute_stream render run_tool safe provenance sched intercept now session
      (delivered <$> events_from_bytes chunk_of items) =
    execute_stream render run_tool safe provenance sched intercept now session
      (delivered <$> body_says chunks cut).
Proof.
  intros Hc.
  assert (acted (events_from_bytes chunk_of items) = body_says chunks cut) as Ha.
  { apply (events_loop_says chunk_of items chunks cut ChunkAccumulator_default []); [done|].
    by split; [apply spells_nothing|..]. }
  split; [done|]. intros. unfold execute_stream. by rewrite consume_acted, Ha.
Qed.

(** *** How a stream ends *)

Definition is_end (e : ModelEvent) : bool :=
  match e with Streaming.EndTurn _ _ => true | _ => false end.

Definition goes_on (es : list ModelEvent) : Prop := Forall (λ e, is_end e = false) es.

Lemma push_fragment_goes_on en d : goes_on (push_fragment en d).2.
Proof.
  unfold goes_on, push_fragment. cbn [snd]. apply Forall_app. split.
  - destruct (_ && _); [|done]. constructor; [done|]. case_bool_decide; by repeat constructor.
  - destruct (non_empty _); [|done]. destruct (_ || _); by repeat constructor.
Qed.

Lemma push_calls_goes_on ds st : goes_on st.2 → goes_on (foldl push_call st ds).2.
Proof.
  revert st. induction ds as [|d ds IH]; intros [m out] Hst; [done|]. cbn [foldl]. apply IH.
  unfold push_call. pose proof (push_fragment_goes_on (default PendingToolCall_default (m !! call_index d)) d).
  destruct (push_fragment _ _). by apply Forall_app.
Qed.

Lemma drain_goes_on m : goes_on (drain_tool_calls m).
Proof. unfold goes_on, drain_tool_calls. apply Forall_fmap, Forall_true. done. Qed.

Lemma push_choices_goes_on cs st : goes_on st.2 → goes_on (foldl push_choice st cs).2.
Proof.
  revert st. induction cs as [|c cs IH]; intros [acc out] Hst; [done|]. cbn [foldl]. apply IH.
  unfold push_choice. pose proof (push_calls_goes_on (delta_tool_calls (choice_delta c)) (pending acc, [])
    ltac:(constructor)).
  destruct (foldl push_call _ _) as [m evs].
  pose proof (drain_goes_on m). unfold goes_on in *.
  destruct (finish_reason c); cbn [snd] in *; rewrite !Forall_app; split_and?; try done;
    by destruct (non_empty _); repeat constructor.
Qed.

Lemma push_goes_on acc c : goes_on (push acc c).2.
Proof. apply push_choices_goes_on. constructor. Qed.

Lemma push_finished acc c : finished (push acc c).1 = finished acc.
Proof.
  unfold push.
  assert (H' : ∀ cs st, finished (foldl push_choice st cs).1 = finished st.1).
  { induction cs as [|c0 cs IH]; intros [a out]; [done|]. cbn [foldl]. rewrite IH.
    unfold push_choice. destruct (foldl push_call _ _). by destruct (finish_reason c0). }
  rewrite H'. by destruct (chunk_usage c).
Qed.

(** Whatever the body holds, the stream that is read from it ends, and it
    ends once: with the reply's end, or with the network error that cut it, in
    which case no end of reply comes before or after it. *)
Theorem chat_stream_ends_once chunk_of items :
  ∃ events last, events_from_bytes chunk_of items = (Ok <$> events) ++ [last] ∧
    Forall (λ e, is_end e = false) events ∧
    ((∃ reason u, last = Ok (Streaming.EndTurn reason u)) ∨ (∃ e, last = Err (ModelError.Network e))).
Proof.
  unfold events_from_bytes.
  assert (finished ChunkAccumulator_default = false) as Hf by done. revert Hf.
  generalize ChunkAccumulator_default as acc.
  assert (Hend : ∀ acc, finished acc = false → ∃ events last,
    (Ok <$> (acc_finish acc).2 : list (result ModelEvent ModelError.t)) = (Ok <$> events) ++ [last] ∧ goes_on events ∧
    ((∃ reason u, last = Ok (Streaming.EndTurn reason u)) ∨ (∃ e, last = Err (ModelError.Network e)))).
  { intros acc Hf. unfold acc_finish. rewrite Hf. cbn [snd]. rewrite fmap_app.
    do 2 eexists. split_and!; [done|apply drain_goes_on|eauto]. }
  induction items as [|[|e|d] items IH]; intros acc Hf; cbn [events_loop].
  - by apply Hend.
  - eexists [], _. split_and!; [done|constructor|eauto].
  - eexists [], _. split_and!; [done|constructor|eauto].
  - case_bool_decide; [by apply IH|]. case_bool_decide; [by apply Hend|].
    destruct (chunk_of (trim d)) as [c|]; [|by apply IH].
    pose proof (push_goes_on acc c) as Hg.
    assert (finished (push acc c).1 = false) as Hf' by by rewrite push_finished.
    destruct (push acc c) as [acc' evs]. destruct (IH acc' Hf') as (es & l & -> & Hes & Hl).
    exists (evs ++ es), l. split_and!; [by rewrite fmap_app, app_assoc|by apply Forall_app|done].
Qed.

(** *** Blocks that are open together *)

(** An event that opens or closes block [k]. *)
Definition bounds_block (k : nat) (e : StreamEvent) : Prop :=
  match e with BlockStart i _ | BlockStop i => i = k | _ => False end.

Definition fragment_of (k : nat) (e : StreamEvent) : option str :=
  match e with
  | ContentBlockDelta i (DeltaInputJson f) => if decide (i = k) then Some f else None
  | _ => None
  end.

Definition after (acc : StreamState) (es : list StreamEvent) : StreamState :=
  foldl (λ acc e, (map_stream_event acc e).1) acc es.

Lemma step_keeps_block acc k p e : ¬ bounds_block k e →
  tool_uses acc !! k = Some p →
  tool_uses (map_stream_event acc e).1 !! k =
    Some (Build_PendingToolUse (pending_id p) (pending_name p)
            (pending_json p ++ default [] (fragment_of k e))).
Proof.
  intros Hb Hk. assert (tool_uses acc !! k = Some (Build_PendingToolUse (pending_id p) (pending_name p)
    (pending_json p ++ []))) as Hsame by (rewrite app_nil_r; by destruct p).
  destruct e as [u|i [| | | | |]|i [| | | |]|i|sr u| | | |]; cbn in *; try done.
  - by rewrite lookup_insert_ne.
  - by rewrite lookup_insert_ne.
  - case_decide as Hi; [subst i; rewrite Hk; cbn; by rewrite lookup_insert_eq|].
    destruct (tool_uses acc !! i); cbn; [by rewrite lookup_insert_ne|done].
  - destruct (tool_uses acc !! i); cbn; [by rewrite lookup_delete_ne|done].
Qed.

Lemma after_keeps_block k es acc p : Forall (λ e, ¬ bounds_block k e) es →
  tool_uses acc !! k = Some p →
  tool_uses (after acc es) !! k =
    Some (Build_PendingToolUse (pending_id p) (pending_name p)
            (pending_json p ++ mjoin (omap (fragment_of k) es))).
Proof.
  intros Hes. revert acc p. induction Hes as [|e es He _ IH]; intros acc p Hk.
  - cbn. rewrite app_nil_r. by destruct p.
  - cbn [after foldl]. erewrite IH by by apply step_keeps_block. cbn.
    destruct (fragment_of k e); cbn; [by rewrite <-app_assoc|by rewrite app_nil_r].
Qed.

(** Tool blocks may be open together and their fragments may come in any
    order between them, with texts, pings and whole other blocks in between:
    when a block stops, exactly its own call comes out, with the input that
    its own fragments spell. *)
Theorem blocks_do_not_mix acc k cid name input es : Forall (λ e, ¬ bounds_block k e) es →
  map_stream_event (after (open_tool acc k cid name input).1 es) (BlockStop k) =
  (Build_StreamState
     (base.delete k (tool_uses (after (open_tool acc k cid name input).1 es)))
     (opening_usage (after (open_tool acc k cid name input).1 es)),
   [Ok (ToolUseEvent cid name (parse_input (seed input ++ mjoin (omap (fragment_of k) es))))]).
Proof.
  intros Hes. cbn [map_stream_event].
  rewrite (after_keeps_block k es _ (Build_PendingToolUse cid name (seed input))); [done..|].
  apply lookup_insert_eq.
Qed.

End Bodies.

(** ** Concrete streams *)

#[local] Instance plain_text : JsonText :=
  {| json_of_str := λ s, Some (VString s); json_to_string := λ _, lit "{}" |}.

(** A reading of frames under which the n-th letter is the n-th chunk. *)
Definition lettered (cs : list ChatCompletionChunk) (d : str) : option ChatCompletionChunk :=
  match d with
  | [c] => cs !! (N.to_nat c - 97)
  | _ => None
  end.

Definition fragment (k : nat) (id name args : option str) : ChunkDelta :=
  Build_ChunkDelta None None [Build_ToolCallDelta k id (Some (Build_FunctionDelta name args))].

Definition one_choice (d : ChunkDelta) (reason : option str) : ChatCompletionChunk :=
  Build_ChatCompletionChunk [Build_ChunkChoice d reason] None.

(** Two calls in fragments between each other, the second one first, the name
    of the first after its arguments began; the usage after the reason. *)
Definition example_chunks : list ChatCompletionChunk :=
  [one_choice (Build_ChunkDelta (Some (lit "I look.")) (Some []) []) None;
   one_choice (fragment 1 (Some (lit "b")) (Some (lit "Glob")) None) None;
   one_choice (fragment 0 (Some (lit "a")) None (Some (lit "x"))) None;
   one_choice (fragment 1 None None (Some (lit "z"))) None;
   one_choice (fragment 0 None (Some (lit "Read")) (Some (lit "y"))) (Some (lit "tool_calls"));
   Build_ChatCompletionChunk [] (Some (Build_ChunkUsage 300 9 (Some 256%Z)))].

Definition example_body (last : list SseItem) : list SseItem :=
  (SseData <$> [lit "a"; lit " "; lit "b"; lit "{broken"; lit "c"; lit "d"]) ++ last.

Definition whole_body : list SseItem :=
  example_body (SseData <$> [lit "e"; lit "f"; lit " [DONE] "; lit "a"]).

Lemma example_carries : carries (lettered example_chunks) whole_body example_chunks None.
Proof.
  repeat first
    [ eapply carries_chunk; [by vm_compute|by vm_compute|reflexivity|]
    | eapply carries_skip; [by vm_compute|by vm_compute; auto|] ].
  by apply carries_done.
Qed.

Lemma chat_stream_is_assembled_witness :
  carries (lettered example_chunks) whole_body example_chunks None ∧
  acted (events_from_bytes (lettered example_chunks) whole_body) =
    [Ok (TextDelta (lit "I look."));
     Ok (ToolUseEvent (lit "a") (lit "Read") (VString (lit "xy")));
     Ok (ToolUseEvent (lit "b") (lit "Glob") (VString (lit "z")));
     Ok (Streaming.EndTurn (lit "tool_use") (Build_Usage 300 9 0 256))].
Proof.
  split; [exact example_carries|].
  destruct (chat_stream_is_assembled (lettered example_chunks) whole_body example_chunks None example_carries)
    as [Ha _].
  rewrite Ha. vm_compute. reflexivity.
Defined.

(** A body that breaks off before its reason: the calls that had begun are
    lost, the words that came are not. *)
Example a_broken_body_loses_its_calls :
  acted (events_from_bytes (lettered example_chunks) (example_body [SseError (lit "reset")])) =
    [Ok (TextDelta (lit "I look.")); Err (ModelError.Network (lit "reset"))].
Proof. vm_compute. reflexivity. Qed.

(** Two blocks open at once. *)
Definition example_mixed : list StreamEvent :=
  [ContentBlockDelta 1 (DeltaInputJson (lit "x")); BlockStart 2 (StartToolUse (lit "b") (lit "Glob") VNull);
   ContentBlockDelta 2 (DeltaInputJson (lit "z")); ContentBlockDelta 1 (DeltaInputJson (lit "y"));
   BlockStop 2; Ping].

Lemma blocks_do_not_mix_witness :
  Forall (λ e, ¬ bounds_block 1 e) example_mixed ∧
  (map_stream_event (after (open_tool StreamState_default 1 (lit "a") (lit "Read") VNull).1 example_mixed)
     (BlockStop 1)).2 = [Ok (ToolUseEvent (lit "a") (lit "Read") (VString (lit "xy")))].
Proof.
  assert (Hf : Forall (λ e, ¬ bounds_block 1 e) example_mixed)
    by (unfold example_mixed; rewrite !Forall_cons; cbn; repeat split; auto).
  split; [exact Hf|].
  rewrite (blocks_do_not_mix StreamState_default 1 (lit "a") (lit "Read") VNull example_mixed Hf).
  reflexivity.
Defined.
