(* ===== verification/Steering.v ===== *)
(** * Messages sent while a turn runs ([crates/runtime/src/steering.rs])

    The queue behind one lock: a turn opens it, takes what is queued at its
    step boundaries and closes it; a message is queued or refused.  [Ops] is
    any interleaving of the sender's and the turn's calls. *)

From stdpp Require Import base option list.
From S2P Require Import Prelude RustStr.

Record QueuedUserMessage := {
  message_id : str;
  queued_content : str;
}.

Inductive SteerAck := AckAccepted | AckNotRunning.

Record SteerQueue := {
  accepting : bool;
  pending_messages : list QueuedUserMessage;
}.

Definition SteerQueue_default : SteerQueue := Build_SteerQueue false [].

Definition offer (q : SteerQueue) (m : QueuedUserMessage)
    : SteerQueue * result unit QueuedUserMessage :=
  if accepting q then (Build_SteerQueue (accepting q) (pending_messages q ++ [m]), Ok tt)
  else (q, Err m).

Definition open_queue (q : SteerQueue) : SteerQueue := Build_SteerQueue true (pending_messages q).

Definition take_queued (q : SteerQueue) : SteerQueue * list QueuedUserMessage :=
  (Build_SteerQueue (accepting q) [], pending_messages q).

Definition take_or_close (q : SteerQueue) : SteerQueue * list QueuedUserMessage :=
  let q := if bool_decide (pending_messages q = []) then Build_SteerQueue false (pending_messages q)
           else q in
  take_queued q.

Definition close_queue (q : SteerQueue) : SteerQueue * list QueuedUserMessage :=
  take_queued (Build_SteerQueue false (pending_messages q)).

(** ** Nothing is lost and nothing is read twice *)

Inductive Op := Offer (m : QueuedUserMessage) | Open | Take | TakeOrClose | Close.

(** A call, with what it accepted, what it handed out and what it refused. *)
Definition call (q : SteerQueue) (o : Op)
    : SteerQueue * (list QueuedUserMessage * list QueuedUserMessage * list QueuedUserMessage) :=
  match o with
  | Offer m => let '(q, r) := offer q m in
               (q, match r with Ok _ => ([m], [], []) | Err m => ([], [], [m]) end)
  | Open => (open_queue q, ([], [], []))
  | Take => let '(q, ms) := take_queued q in (q, ([], ms, []))
  | TakeOrClose => let '(q, ms) := take_or_close q in (q, ([], ms, []))
  | Close => let '(q, ms) := close_queue q in (q, ([], ms, []))
  end.

Fixpoint calls (q : SteerQueue) (os : list Op)
    : SteerQueue * (list QueuedUserMessage * list QueuedUserMessage * list QueuedUserMessage) :=
  match os with
  | [] => (q, ([], [], []))
  | o :: os =>
      let '(q, (accepted, taken, refused)) := call q o in
      let '(q, (accepted', taken', refused')) := calls q os in
      (q, (accepted ++ accepted', taken ++ taken', refused ++ refused'))
  end.

(** Under every interleaving each message accepted is handed out once, in the
    order of acceptance, or still queued; a message is refused exactly when no
    turn accepts; and the queue closes at a boundary only when nothing was
    waiting, so that what is handed out there still has a boundary ahead. *)
Theorem accepted_are_handed_out q os :
  let '(q', (accepted, taken, refused)) := calls q os in
  pending_messages q ++ accepted = taken ++ pending_messages q' ∧
  (accepting (take_or_close q).1 = false → accepting q = true → (take_or_close q).2 = []) ∧
  ∀ m, (offer q m).2 = Err m ↔ accepting q = false.
Proof.
  assert (Hq : ∀ q o, let '(q', (a, t, _)) := call q o in
    pending_messages q ++ a = t ++ pending_messages q').
  { clear. intros q o. destruct o as [m| | | |]; cbn; unfold offer, take_or_close;
      repeat case_match; simplify_eq/=; rewrite ?app_nil_r; done. }
  destruct (calls q os) as [q' [[acc tk] rf]] eqn:E. split_and!.
  - revert q q' acc tk rf E. induction os as [|o os IH]; intros q q' acc tk rf; cbn [calls].
    { intros [= <- <- <- <-]. by rewrite app_nil_r. }
    specialize (Hq q o). destruct (call q o) as [q1 [[a1 t1] r1]].
    destruct (calls q1 os) as [q2 [[a2 t2] r2]] eqn:E2. intros [= <- <- <- <-].
    apply IH in E2. by rewrite app_assoc, Hq, <-!app_assoc, E2.
  - unfold take_or_close. case_bool_decide as Hp; cbn; [done|]. intros -> [=].
  - intros m. unfold offer. by destruct (accepting q).
Qed.
