(* ===== verification/TurnLoop.v ===== *)
(** * The turn loop ([crates/runtime/src/turn.rs] [run_user_turn],
    [run_user_turn_inner], [deliver_queued_user_messages], [finish_turn],
    [prepare_request], [prepare_retry], [send], [classify_failure],
    [retry_with_model])

    A turn calls the model, runs what it asks for and calls it again, until
    the model has answered or something says stop.  Each round is a program in
    a small monad over the state of the turn, which leaves early the way the
    code returns early; what the world does in the n-th round is the n-th
    [Outside].  Prompt blocks and tool definitions are opaque; telemetry, log
    lines, background extraction of memories, MCP refreshes and the other
    notifications are left out. *)

From stdpp Require Import base option numbers sets gmap strings pretty list sorting.
From S2P Require Import Prelude RustStr Lines PermTypes Path Policies ModelClient.
From S2P Require Import Conversation Rounds Compaction Aging Compactor Messages Store Session.
From S2P Require Import AutoCompact Streaming Steering.

(** ** What a turn is made of *)

(** [TurnOutcome]; a [TurnError] is the text of its [Model] variant. *)
Record TurnOutcome := {
  out_stop_reason : str;
  out_api_calls : Z;
  out_tool_calls : Z;
  out_usage : Usage;
  out_total_usage : Usage;
  out_message : option str;
}.

Definition TurnOutcome_default : TurnOutcome :=
  Build_TurnOutcome [] 0 0 Usage_default Usage_default None.

Definition sat_add_u32 (a b : Z) : Z := (a + b) `min` u32_max.

Definition plus_usage (a b : Usage) : Usage :=
  {| usage_input_tokens := sat_add_u32 (usage_input_tokens a) (usage_input_tokens b);
     usage_output_tokens := sat_add_u32 (usage_output_tokens a) (usage_output_tokens b);
     usage_cache_creation_input_tokens :=
       sat_add_u32 (usage_cache_creation_input_tokens a) (usage_cache_creation_input_tokens b);
     usage_cache_read_input_tokens :=
       sat_add_u32 (usage_cache_read_input_tokens a) (usage_cache_read_input_tokens b) |}.

Definition spend_of (u : Usage) : Spend :=
  {| Policies.input_tokens := usage_input_tokens u;
     Policies.output_tokens := usage_output_tokens u;
     cache_creation_tokens := usage_cache_creation_input_tokens u;
     cache_read_tokens := usage_cache_read_input_tokens u |}.

(** A requested volume of output, and how far it is. *)
Record Goal := {
  output_token_target : option Z;
  accumulated_output_tokens : Z;
  token_budget_continuation_count : Z;
  last_delta_tokens : Z;
}.

Definition Goal_none : Goal := Build_Goal None 0 0 0.

(** The notes file kept beside a session. *)
Record SessionMemory := {
  memory_path : str;
  last_update_turn : Z;
}.

Definition is_stale (m : SessionMemory) (current_turn : Z) : bool :=
  bool_decide (10 < 0 `max` (current_turn - last_update_turn m))%Z.

(** [mark_extraction_completed]: [written] when the first write succeeds. *)
Definition mark_extraction_completed (m : SessionMemory) (turn : Z) (written : bool) : SessionMemory :=
  if written then Build_SessionMemory (memory_path m) turn else m.

Section Types.
Context {T B D : Type}.

(** A request: prompt blocks [B], tool definitions [D] and the parameters the
    loop decides. *)
Record ModelRequest := {
  prompt_blocks : B;
  tool_defs : D;
  req_messages : list ModelMessage;
  req_model : str;
  req_max_tokens : Z;
  req_fallback_model : option str;
  req_cache_edits : list str;
}.

(** What is seen of a turn: its requests, as they go out, and the events that
    count. *)
Inductive Event :=
| StepStart (step : Z)
| Sent (retry : bool) (r : ModelRequest)
| StepEnd (step : Z) (stop_reason : str) (usage : Usage) (tool_calls : Z) (seq : nat)
| Acked (m : QueuedUserMessage) (ack : SteerAck)
| UserMessageDelivered (m : QueuedUserMessage)
| UserMessagesReturned (ms : list QueuedUserMessage)
| TurnComplete (o : TurnOutcome) (last_call_usage : Usage) (seq : nat).

(** The agent's fields a turn changes. *)
Record Agent := {
  core : AgentState T;
  overhead : nat;
  invoked : list str;
  goal : Goal;
  steering : SteerQueue;
  last_call_usage : option Usage;
  last_had_tool_uses : bool;
  session_memory : option SessionMemory;
}.

(** The locals of [run_user_turn_inner] beside them. *)
Record Turn := {
  who : Agent;
  api_calls : Z;
  tool_calls : Z;
  structured_output_calls : Z;
  turn_usage : Usage;
  attempt : RecoveryAttempt;
  effective_model : str;
  had_tool_uses_this_turn : bool;
  skill_prefetch : bool;
  trace : list Event;
}.

(** What the world does in one round. *)
Record Outside := {
  clock : Z;
  cancelled : bool;
  build_prompt_blocks : str → B;
  build_tool_defs : D;
  answer : bool → ModelRequest → result (list (bool * result ModelEvent str)) ModelError.t;
  run_tool : str → str → value → ToolOutcome;
  is_concurrency_safe : str → value → bool;
  schedule : Schedule;
  tool_images : list PendingToolImage;
  discontinued : bool;
  discovered_skills : list str;
  activate_conditional_skills : list str → list str;
  sent_meanwhile : list QueuedUserMessage;
  cancelled_after_tools : bool;
  stop_hooks : option (option str);  (** the message, when they discontinue *)
  notes_marked : bool;
}.

(** What is put together once. *)
Record Engine := {
  setup : Setup;
  turn_policy : TurnPolicy;
  recovery_policy : RecoveryPolicy;
  budget_policy : BudgetPolicy;
  scene_budget : TokenBudget;
  model_name : str;
  max_tokens : Z;
  settings_fallback_model : option str;
  provenance : option str;
  intercept_request : ModelRequest → ModelRequest;
  intercept_reply : ModelMessage → ModelMessage;
}.
End Types.

Arguments ModelRequest : clear implicits.
Arguments Event : clear implicits.
Arguments Agent : clear implicits.
Arguments Turn : clear implicits.
Arguments Outside : clear implicits.
Arguments Engine : clear implicits.

(** Changing one field. *)
Section Setters.
Context {T B D : Type}.

Definition set_core (f : AgentState T → AgentState T) (a : Agent T) : Agent T :=
  Build_Agent (f (core a)) (overhead a) (invoked a) (goal a) (steering a) (last_call_usage a)
    (last_had_tool_uses a) (session_memory a).
Definition set_overhead (n : nat) (a : Agent T) : Agent T :=
  Build_Agent (core a) n (invoked a) (goal a) (steering a) (last_call_usage a)
    (last_had_tool_uses a) (session_memory a).
Definition set_invoked (l : list str) (a : Agent T) : Agent T :=
  Build_Agent (core a) (overhead a) l (goal a) (steering a) (last_call_usage a)
    (last_had_tool_uses a) (session_memory a).
Definition set_goal (g : Goal) (a : Agent T) : Agent T :=
  Build_Agent (core a) (overhead a) (invoked a) g (steering a) (last_call_usage a)
    (last_had_tool_uses a) (session_memory a).
Definition set_steering (q : SteerQueue) (a : Agent T) : Agent T :=
  Build_Agent (core a) (overhead a) (invoked a) (goal a) q (last_call_usage a)
    (last_had_tool_uses a) (session_memory a).
Definition set_last_call_usage (u : option Usage) (a : Agent T) : Agent T :=
  Build_Agent (core a) (overhead a) (invoked a) (goal a) (steering a) u
    (last_had_tool_uses a) (session_memory a).
Definition set_last_had_tool_uses (b : bool) (a : Agent T) : Agent T :=
  Build_Agent (core a) (overhead a) (invoked a) (goal a) (steering a) (last_call_usage a)
    b (session_memory a).
Definition set_session_memory (m : option SessionMemory) (a : Agent T) : Agent T :=
  Build_Agent (core a) (overhead a) (invoked a) (goal a) (steering a) (last_call_usage a)
    (last_had_tool_uses a) m.

Definition set_who (f : Agent T → Agent T) (t : Turn T B D) : Turn T B D :=
  Build_Turn (f (who t)) (api_calls t) (tool_calls t) (structured_output_calls t) (turn_usage t)
    (attempt t) (effective_model t) (had_tool_uses_this_turn t) (skill_prefetch t) (trace t).
Definition set_attempt (a : RecoveryAttempt) (t : Turn T B D) : Turn T B D :=
  Build_Turn (who t) (api_calls t) (tool_calls t) (structured_output_calls t) (turn_usage t)
    a (effective_model t) (had_tool_uses_this_turn t) (skill_prefetch t) (trace t).
Definition set_model (m : str) (t : Turn T B D) : Turn T B D :=
  Build_Turn (who t) (api_calls t) (tool_calls t) (structured_output_calls t) (turn_usage t)
    (attempt t) m (had_tool_uses_this_turn t) (skill_prefetch t) (trace t).
Definition end_prefetch (t : Turn T B D) : Turn T B D :=
  Build_Turn (who t) (api_calls t) (tool_calls t) (structured_output_calls t) (turn_usage t)
    (attempt t) (effective_model t) (had_tool_uses_this_turn t) false (trace t).
Definition add_structured (n : nat) (t : Turn T B D) : Turn T B D :=
  Build_Turn (who t) (api_calls t) (tool_calls t) (structured_output_calls t + Z.of_nat n)
    (turn_usage t) (attempt t) (effective_model t) (had_tool_uses_this_turn t) (skill_prefetch t)
    (trace t).
Definition emit (es : list (Event B D)) (t : Turn T B D) : Turn T B D :=
  Build_Turn (who t) (api_calls t) (tool_calls t) (structured_output_calls t) (turn_usage t)
    (attempt t) (effective_model t) (had_tool_uses_this_turn t) (skill_prefetch t) (trace t ++ es).

(** A step starts: counted and announced. *)
Definition start_step (t : Turn T B D) : Turn T B D :=
  Build_Turn (who t) (api_calls t + 1) (tool_calls t) (structured_output_calls t) (turn_usage t)
    (attempt t) (effective_model t) (had_tool_uses_this_turn t) (skill_prefetch t)
    (trace t ++ [StepStart (api_calls t)]).

Definition on_session (f : SessionManager T → SessionManager T) (t : Turn T B D) : Turn T B D :=
  set_who (set_core (λ c, set_session c (f (session c)))) t.

(** The conversation. *)
Definition turn_messages (t : Turn T B D) : list ModelMessage :=
  Session.messages (session (core (who t))).
End Setters.

(** ** Programs that may leave the turn *)

Inductive Flow (A : Type) :=
| Goes (a : A)
| Leaves (o : result TurnOutcome str).
Arguments Goes {A} _.
Arguments Leaves {A} _.

Section Monad.
Context {T B D : Type}.

Definition M (A : Type) : Type := Turn T B D → Turn T B D * Flow A.

Definition done {A} (a : A) : M A := λ t, (t, Goes a).
#[export] Instance M_ret : MRet M := λ A, done.
#[export] Instance M_bind : MBind M := λ A C k m t,
  match m t with
  | (t, Goes a) => k a t
  | (t, Leaves o) => (t, Leaves o)
  end.

Definition gets {A} (f : Turn T B D → A) : M A := λ t, (t, Goes (f t)).
Definition modify (f : Turn T B D → Turn T B D) : M unit := λ t, (f t, Goes tt).
Definition fail {A} (e : str) : M A := λ t, (t, Leaves (Err e)).

(** [self.last_had_tool_uses = ...; return Ok(TurnOutcome { ... })]. *)
Definition leave {A} (reason : str) (usage : Usage) (message : option str) : M A := λ t,
  (set_who (set_last_had_tool_uses (had_tool_uses_this_turn t)) t,
   Leaves (Ok (Build_TurnOutcome reason (api_calls t) (tool_calls t) usage (turn_usage t) message))).

End Monad.

(** ** Pieces of the round *)

(** [count_structured_output_calls]. *)
Definition count_structured_output_calls (ms : list ModelMessage) : nat :=
  length (filter (λ m, role m = RoleAssistant ∧
    existsb (λ b, match b with ToolUse _ name _ => bool_decide (name = lit "StructuredOutput") | _ => false end)
      (content m) = true) ms).

(** [extract_tool_file_paths]: each path once, paths compared by components. *)
Definition file_path_of (b : ModelContentBlock) : option str :=
  match b with
  | ToolUse _ name input =>
      if bool_decide (name ∈ [lit "Read"; lit "Write"; lit "Edit"])
      then value_get "file_path" input ≫= as_str
      else None
  | _ => None
  end.

Definition add_path (paths : list str) (p : str) : list str :=
  if existsb (path_eqb p) paths then paths else paths ++ [p].

Definition extract_tool_file_paths (ms : list ModelMessage) : list str :=
  let cutoff := if bool_decide (40 < length ms) then length ms / 2 else 0 in
  foldl add_path [] (omap file_path_of (drop cutoff ms ≫= content)).

Fixpoint join_with (sep : str) (l : list str) : str :=
  match l with
  | [] => []
  | [s] => s
  | s :: l => s ++ sep ++ join_with sep l
  end.

Definition discovered_text (names : list str) : str :=
  lit "<system-reminder>" ++ [10%N] ++ lit "Skills discovered in workspace: " ++
  join_with (lit ", ") names ++ lit ". Use /<skill-name> to invoke." ++ [10%N] ++
  lit "</system-reminder>".

Definition activated_text (names : list str) : str :=
  lit "<system-reminder>" ++ [10%N] ++ lit "Conditional skills activated for current context: " ++
  join_with (lit ", ") names ++ lit ". Use /<skill-name> to invoke." ++ [10%N] ++
  lit "</system-reminder>".

Definition stale_notes_text (path : str) : str :=
  lit "<system-reminder>" ++ [10%N] ++ lit "Your session notes (" ++ path ++
  lit ") have not been updated in several turns." ++ [10%N] ++
  lit "Consider reviewing and updating them with any persistent facts, user preferences," ++ [10%N] ++
  lit "or project context that should survive across sessions." ++ [10%N] ++
  lit "</system-reminder>".

Definition add_skill (known : list str) (name : str) : list str :=
  if bool_decide (name ∈ known) then known else known ++ [name].

(** Which errors are an overload and which a refusal for size. *)
Definition classify_failure (p : RecoveryPolicy) (e : ModelError.t) : Recovery :=
  on_failure p
    match e with
    | ModelError.Overloaded => Policies.Overloaded
    | ModelError.Internal msg =>
        if contains (lit "prompt too long") msg || contains (lit "413") msg
        then ContextTooLong msg else OtherFailure (ModelError.display e)
    | _ => OtherFailure (ModelError.display e)
    end.

Definition stream_failed (e : ModelError.t) : str :=
  lit "failed to stream model response: " ++ ModelError.display e.

Section Round.
Context `{TokenCounter} `{Base58} {T : Type} `{HistoryStore T} (compactor : Compactor) {B D : Type}.
Context (render_input : value → str) (summary_prompt timeout : str)
  (summarizer : option (ModelMessage → SummaryCall))
  (declines : nat → nat → nat → CompactTrigger → bool)
  (get_skill_content : str → option str) (last_invoked_seq : str → Z).
Context (estimate_request_overhead : B → D → nat) (engine : Engine B D) (o : Outside B D).

#[local] Notation turn := (Turn T B D).
#[local] Notation prog := (@M T B D).

Definition say (text : str) : turn → turn :=
  on_session (λ s, push_message (clock o) s (user_text text)).

Definition persist_now : prog unit := modify (on_session (λ s, (persist s).1)).

Definition current_context_budget : ContextBudget :=
  context_budget (budget_policy engine) (scene_budget engine).

(** What the compaction cycle reads of the agent by now. *)
Definition current_setup (a : Agent T) : Setup :=
  {| time_based_mc_config := time_based_mc_config (setup engine);
     request_overhead_tokens := overhead a;
     AutoCompact.compact_threshold := Z.to_nat (Policies.compact_threshold current_context_budget);
     AutoCompact.compact_keep_recent := Z.to_nat (Policies.compact_keep_recent current_context_budget);
     reactive_compact := reactive_compact (setup engine);
     agent_invoked_skills := invoked a;
     agent_in_plan_mode := agent_in_plan_mode (setup engine);
     agent_plan_content := agent_plan_content (setup engine);
     agent_activated_tools := agent_activated_tools (setup engine);
     running_task_summaries := running_task_summaries (setup engine) |}.

Definition compact_step : prog unit := modify (λ t,
  set_who (set_core (λ c,
    compact_if_needed compactor render_input summary_prompt timeout summarizer declines
      get_skill_content last_invoked_seq (current_setup (who t)) (clock o) c)) t).

Definition context_tokens (a : Agent T) : nat := token_count _ (session (core a)) + overhead a.

Definition cap_check : prog unit :=
  match hard_cap current_context_budget with
  | Some cap =>
      carried ← gets (λ t, context_tokens (who t));
      if bool_decide (cap < Z.of_nat carried)%Z
      then leave "context_exceeded" Usage_default None else done tt
  | None => done tt
  end.

Definition progress_of (stop_reason : str) (t : turn) : TurnProgress :=
  {| Policies.api_calls := api_calls t; Policies.tool_calls := tool_calls t;
     Policies.structured_output_calls := structured_output_calls t;
     Policies.stop_reason := stop_reason |}.

Definition policy_check (verdict : TurnStep) : prog unit :=
  match verdict with
  | Stop reason => leave reason Usage_default None
  | Continue => done tt
  end.

(** *** Calling the model *)

(** [build_prompt_for_turn] and [prepare_request]: the request, and the agent
    that has accounted for it and spent its cache edits. *)
Definition prepare_request (t : turn) : ModelRequest B D * turn :=
  let blocks := build_prompt_blocks o (effective_model t) in
  let defs := build_tool_defs o in
  let '(edits, cached) := consume_pending_edits (cached_mc (core (who t))) in
  (Build_ModelRequest blocks defs (pair_dangling_tool_uses (turn_messages t)) (effective_model t)
     (current_max_tokens (attempt t)) (settings_fallback_model engine) edits,
   set_who (λ a, set_core (λ c, set_cached c cached)
     (set_overhead (estimate_request_overhead blocks defs) a)) t).

Definition prepare_retry (model : str) (max_tokens : Z) (defs : D) (ms : list ModelMessage)
    (fallback : option str) : ModelRequest B D :=
  Build_ModelRequest (build_prompt_blocks o model) defs ms model max_tokens fallback [].

Definition send (retry : bool) (r : ModelRequest B D)
    : prog (result (list (bool * result ModelEvent str)) ModelError.t) :=
  let sent := intercept_request engine r in
  modify (emit [Sent retry sent]);;
  done (answer o retry sent).

Definition sent_or_fail (r : result (list (bool * result ModelEvent str)) ModelError.t)
    : prog (list (bool * result ModelEvent str)) :=
  match r with Ok items => done items | Err e => fail (stream_failed e) end.

Definition retry_with_model (model : str) (r : ModelRequest B D)
    : prog (list (bool * result ModelEvent str)) :=
  modify (set_model model);;
  answered ← send true (prepare_retry model (req_max_tokens r) (tool_defs r) (req_messages r) None);
  sent_or_fail answered.

Definition compact_and_retry (message : str) (r : ModelRequest B D)
    : prog (list (bool * result ModelEvent str)) :=
  let threshold := Nat.max (Z.to_nat (Policies.compact_threshold current_context_budget)) (Z.to_nat 50000) in
  let keep := Nat.min (Z.to_nat (Policies.compact_keep_recent current_context_budget)) 5 in
  messages_before ← gets (λ t, length (turn_messages t));
  match transform (req_messages r) threshold keep with
  | Ok (compacted, result) =>
      if bool_decide (length compacted < messages_before) then
        modify (on_session (λ s, (replace_messages_after_compact s compacted
          (Z.of_nat (tokens_before result)) (Z.of_nat (tokens_after result))).1));;
        retry ← gets (λ t, prepare_retry (effective_model t) (req_max_tokens r) (tool_defs r)
          (turn_messages t) (settings_fallback_model engine));
        answered ← send true retry;
        sent_or_fail answered
      else fail "prompt too long and compaction could not reduce message count"
  | Err _ => fail (lit "prompt too long and compaction failed: " ++ message)
  end.

Definition ask_model : prog (list (bool * result ModelEvent str)) :=
  r ← gets (λ t, (prepare_request t).1);
  modify (λ t, (prepare_request t).2);;
  answered ← send false r;
  match answered with
  | Ok items => done items
  | Err e =>
      match classify_failure (recovery_policy engine) e with
      | RetryWith model => retry_with_model model r
      | CompactAndRetry => compact_and_retry (ModelError.display e) r
      | RecoveryFail => fail (stream_failed e)
      end
  end.

Definition call_model : prog (list (bool * result ModelEvent str)) := modify start_step;; ask_model.
(** *** The reply *)

Definition end_step (step : Z) (res : StreamResult) (t : turn) : turn :=
  let t := on_session (λ s, (persist s).1)
    (set_who (set_last_call_usage (Some (res_usage res))) t) in
  Build_Turn (who t) (api_calls t) (tool_calls t + res_tool_calls res) (structured_output_calls t)
    (plus_usage (turn_usage t) (res_usage res)) (attempt t) (effective_model t)
    (had_tool_uses_this_turn t || res_has_tool_uses res) (skill_prefetch t)
    (trace t ++ [StepEnd step (res_stop_reason res) (res_usage res) (res_tool_calls res)
                   (length (turn_messages t))]).

Definition attach_images (t : turn) : turn :=
  if bool_decide (tool_images o = []) then t
  else on_session (λ s, set_messages s (attach_tool_result_images (Session.messages s) (tool_images o))) t.

Definition read_reply (items : list (bool * result ModelEvent str)) : prog StreamResult :=
  λ t,
    let '(s, r) := execute_stream render_input (run_tool o) (is_concurrency_safe o)
      (provenance engine) (schedule o) (intercept_reply engine) (clock o) (session (core (who t))) items in
    let t := on_session (λ _, s) t in
    match r with
    | Err e => (t, Leaves (Err e))
    | Ok res => (end_step (api_calls t - 1) res (attach_images t), Goes res)
    end.

(** *** What a finished call leads to *)

Definition budget_check : prog unit :=
  spend ← gets (λ t, spend_of (turn_usage t));
  match on_usage (budget_policy engine) spend with
  | WithinBudget => done tt
  | WarnBudget reminder _ => modify (say reminder)
  | Policies.Exhausted _ => leave "budget_exceeded" Usage_default None
  end.

Definition know_skills (names : list str) (text : str) (t : turn) : turn :=
  if bool_decide (names = []) then t
  else set_who (λ a, set_invoked (foldl add_skill (invoked a) names) a) (say text t).

Definition collect_skills (t : turn) : turn :=
  let t :=
    if skill_prefetch t then
      end_prefetch (know_skills (discovered_skills o) (discovered_text (discovered_skills o)) t)
    else t in
  let paths := extract_tool_file_paths (turn_messages t) in
  if bool_decide (paths = []) then t
  else
    let names := activate_conditional_skills o paths in
    know_skills names (activated_text names) t.

(** [offer], as the sender calls it meanwhile. *)
Definition arrive (m : QueuedUserMessage) (t : turn) : turn :=
  let '(q, r) := offer (steering (who t)) m in
  emit [Acked m (if is_ok r then AckAccepted else AckNotRunning)] (set_who (set_steering q) t).

Definition arrivals (ms : list QueuedUserMessage) (t : turn) : turn := foldl (λ t m, arrive m t) t ms.

Definition deliver_one (t : turn) (m : QueuedUserMessage) : turn :=
  emit [UserMessageDelivered m]
    (on_session (λ s, push_message_from (clock o) s (user_text (queued_content m)) BySteer) t).

Definition deliver_queued_user_messages (last : bool) : prog bool := λ t,
  let '(q, queued) :=
    (if last then take_or_close (steering (who t)) else take_queued (steering (who t))) in
  (foldl deliver_one (set_who (set_steering q) t) queued, Goes (negb (bool_decide (queued = [])))).

(** Tools ran: the next call follows. *)
Definition after_tools : prog unit :=
  modify collect_skills;;
  modify (arrivals (sent_meanwhile o));;
  if cancelled_after_tools o then done tt
  else (_ ← deliver_queued_user_messages false; done tt).

(** Whether the output limit was raised. *)
Definition raise_limit (stop_reason : str) : prog bool := λ t,
  match handle_max_tokens_recovery (recovery_policy engine) stop_reason (attempt t) with
  | Some (a, nudge) => (from_option say id nudge (set_attempt a t), Goes true)
  | None => (t, Goes false)
  end.

(** Whether more output was asked for. *)
Definition pursue_goal (usage : Usage) : prog bool := λ t,
  let g := goal (who t) in
  match output_token_target g with
  | None => (t, Goes false)
  | Some target =>
      let g := Build_Goal (Some target)
        (sat_add_u64 (accumulated_output_tokens g) (usage_output_tokens usage))
        (token_budget_continuation_count g) (last_delta_tokens g) in
      match on_output_target (budget_policy engine)
              {| accumulated := accumulated_output_tokens g; Policies.target := target;
                 continuations := token_budget_continuation_count g;
                 this_delta := usage_output_tokens usage; last_delta := last_delta_tokens g |} with
      | KeepGoing nudge =>
          (say nudge (set_who (set_goal (Build_Goal (Some target) (accumulated_output_tokens g)
             (token_budget_continuation_count g + 1) (usage_output_tokens usage))) t), Goes true)
      | Reached => (set_who (set_goal Goal_none) t, Goes false)
      end
  end.

(** The session's own notes, after the turn. *)
Definition check_notes (t : turn) : turn :=
  match session_memory (who t) with
  | None => t
  | Some sm =>
      let current_turn := turn_count (session (core (who t))) in
      if existsb (path_eqb (memory_path sm)) (extract_tool_file_paths (turn_messages t)) then
        set_who (set_session_memory (Some (mark_extraction_completed sm current_turn (notes_marked o)))) t
      else if is_stale sm current_turn then say (stale_notes_text (memory_path sm)) t
      else t
  end.

Definition complete_turn (stop_reason : str) (usage : Usage) : prog unit :=
  modify (on_session increment_turn);;
  modify check_notes;;
  leave stop_reason usage None.

(** The model did not ask for tools. *)
Definition no_tools (stop_reason : str) (usage : Usage) : prog unit :=
  raised ← raise_limit stop_reason;
  if raised : bool then done tt
  else
    match stop_hooks o with
    | Some message => leave "stopped_by_hook" usage message
    | None =>
        more ← pursue_goal usage;
        if more : bool then done tt
        else
          modify (arrivals (sent_meanwhile o));;
          delivered ← deliver_queued_user_messages true;
          if delivered : bool then done tt else complete_turn stop_reason usage
    end.

(** What may end the turn before another call is spent on it. *)
Definition check_step : prog unit :=
  persist_now;;
  if cancelled o then leave "cancelled" Usage_default None
  else
    before ← gets (λ t, before_model_call (turn_policy engine) (progress_of [] t));
    policy_check before;;
    compact_step;;
    cap_check.

Definition act_on_reply (items : list (bool * result ModelEvent str)) : prog unit :=
  messages_before_step ← gets (λ t, length (turn_messages t));
  res ← read_reply items;
  if discontinued o then leave "stopped_by_hook" (res_usage res) None
  else
    modify (λ t, add_structured
      (count_structured_output_calls (drop messages_before_step (turn_messages t))) t);;
    after ← gets (λ t, after_model_call (turn_policy engine) (progress_of (res_stop_reason res) t));
    policy_check after;;
    budget_check;;
    if res_has_tool_uses res then after_tools
    else no_tools (res_stop_reason res) (res_usage res).

(** One round of the loop; that it goes means [continue]. *)
Definition round : prog unit :=
  check_step;;
  items ← call_model;
  act_on_reply items.
End Round.

(** ** The whole turn *)

(** What precedes the first round: a hook's verdict on the prompt, what has
    changed around the session and what is recalled for it. *)
Record Recalled := {
  recalled_name : str;
  recalled_description : str;
  recalled_content : str;
}.

Record Prompt := {
  blocked : option (option str);
  prompt_text : str;  (** rewritten and with the resources it names *)
  prompt_attachments : list ModelContentBlock;
  prompt_origin : MessageOrigin;
  skills_changed : bool;
  skills_before : list str;
  skills_after : list str;
  instructions : str;
  today : str;
  reminder : str;
  retrieved : list str;
  memory_store : list Recalled;
  prompt_time : Z;
}.

Definition MEMORY_RECALL_CONTENT_CAP : nat := Z.to_nat 1024.

(** Sorted names of [a] that are not in [b], once each. *)
Definition sorted_difference (a b : list str) : list str :=
  merge_sort str_order (remove_dups (filter (λ n, n ∉ b) a)).

Definition removed_line (name : str) : str :=
  lit "- " ++ [34%N] ++ name ++ [34%N] ++
  lit " was just removed — it no longer exists. Do not call it, and if asked whether it's available, say no." ++ [10%N].

Definition added_line (name : str) : str :=
  lit "- " ++ [34%N] ++ name ++ [34%N] ++ lit " was just added — it's now available." ++ [10%N].

Definition skills_note (removed added : list str) : str :=
  lit "<system-reminder>" ++ [10%N] ++
  lit "Skill availability just changed. This is authoritative — if you or the user said anything about these skills' availability earlier in this conversation, that is now outdated:" ++ [10%N] ++
  (removed ≫= removed_line) ++ (added ≫= added_line) ++ lit "</system-reminder>".

Definition instructions_text (instructions today : str) : str :=
  lit "<system-reminder>" ++ [10%N] ++
  lit "As you answer the user's questions, you can use the following context:" ++ [10%N] ++
  lit "# claudeMd" ++ [10%N] ++ instructions ++ [10%N; 10%N] ++ lit "# currentDate" ++ [10%N] ++
  lit "Today's date is " ++ today ++ lit "." ++ [10%N; 10%N] ++
  lit "IMPORTANT: this context may or may not be relevant to your tasks. You should not respond to this context unless it is highly relevant to your task." ++ [10%N] ++
  lit "</system-reminder>".

Definition recalled_text (m : Recalled) : str :=
  let body := trim (recalled_content m) in
  [10%N] ++ lit "## " ++ recalled_name m ++ [10%N] ++ recalled_description m ++ [10%N] ++
  (if bool_decide (body = []) then []
   else
     let shown := truncate_at_char_boundary body MEMORY_RECALL_CONTENT_CAP in
     shown ++
     (if bool_decide (len shown < len body)
      then [10%N] ++ lit "… (truncated — read " ++ recalled_name m ++ lit ".md for the full memory)"
      else []) ++ [10%N]).

Definition memories_text (ms : list Recalled) : str :=
  lit "<system-reminder>" ++ [10%N] ++ lit "Relevant memories for this query:" ++ [10%N] ++
  (ms ≫= recalled_text) ++ [10%N] ++ lit "Use these memories to inform your response." ++ [10%N] ++
  lit "</system-reminder>".

Definition find_memory (store : list Recalled) (name : str) : option Recalled :=
  find_map (λ m, if bool_decide (recalled_name m = name) then Some m else None) store.

(** Those that were retrieved, exist and were not shown before; at most five. *)
Definition relevant_memories (store : list Recalled) (surfaced : gset str) (names : list str)
    : list Recalled :=
  take 5 (filter (λ m, recalled_name m ∉ surfaced) (omap (find_memory store) names)).

Section Begin.
Context {T B D : Type}.
#[local] Notation turn := (Turn T B D).

Definition push_text (now : Z) (text : str) : turn → turn :=
  on_session (λ s, push_message now s (user_text text)).

Definition note_skills (p : Prompt) (t : turn) : turn :=
  if skills_changed p then
    let removed := sorted_difference (skills_before p) (skills_after p) in
    let added := sorted_difference (skills_after p) (skills_before p) in
    if bool_decide (removed = []) && bool_decide (added = []) then t
    else push_text (prompt_time p) (skills_note removed added) t
  else t.

Definition set_claude_md (c : AgentState T) : AgentState T :=
  Build_AgentState (session c) (cached_mc c) (compaction_state c) (tool_results_ever_cleared c)
    (compact_warning_issued c) true (already_surfaced c).

Definition set_surfaced (names : gset str) (c : AgentState T) : AgentState T :=
  Build_AgentState (session c) (cached_mc c) (compaction_state c) (tool_results_ever_cleared c)
    (compact_warning_issued c) (claude_md_injected c) (Some names).

Definition inject_instructions (p : Prompt) (t : turn) : turn :=
  if claude_md_injected (core (who t)) || bool_decide (instructions p = []) then t
  else set_who (set_core set_claude_md)
         (push_text (prompt_time p) (instructions_text (instructions p) (today p)) t).

Definition inject_reminder (p : Prompt) (t : turn) : turn :=
  if bool_decide (reminder p = []) then t else push_text (prompt_time p) (reminder p) t.

Definition push_prompt (p : Prompt) : turn → turn :=
  on_session (λ s, push_message_from (prompt_time p) s
    (Build_ModelMessage RoleUser (Text (prompt_text p) :: prompt_attachments p)) (prompt_origin p)).

Definition recall_memories (p : Prompt) (t : turn) : turn :=
  let surfaced := default ∅ (already_surfaced (core (who t))) in
  let relevant := relevant_memories (memory_store p) surfaced (retrieved p) in
  if bool_decide (relevant = []) then t
  else push_text (prompt_time p) (memories_text relevant)
         (set_who (set_core (set_surfaced (list_to_set (recalled_name <$> relevant) ∪ surfaced))) t).

(** [frozen] is collected before anything reads it. *)
Definition freeze (t : turn) : turn :=
  set_who (set_core (λ c, set_surfaced (default ∅ (already_surfaced c)) c)) t.

Definition begin_turn (p : Prompt) : @M T B D unit :=
  match blocked p with
  | Some message => λ t,
      (t, Leaves (Ok (Build_TurnOutcome "stopped_by_hook" 0 0 Usage_default Usage_default message)))
  | None =>
      modify (note_skills p);; modify freeze;; modify (inject_instructions p);;
      modify (inject_reminder p);; modify (push_prompt p);; modify (recall_memories p)
  end.
End Begin.

Section Loop.
Context `{TokenCounter} `{Base58} {T : Type} `{HistoryStore T} (compactor : Compactor) {B D : Type}.
Context (render_input : value → str) (summary_prompt timeout : str)
  (summarizer : option (ModelMessage → SummaryCall))
  (declines : nat → nat → nat → CompactTrigger → bool)
  (get_skill_content : str → option str) (last_invoked_seq : str → Z).
Context (estimate_request_overhead : B → D → nat) (engine : Engine B D) (outside : nat → Outside B D).

#[local] Notation turn := (Turn T B D).
#[local] Notation nth_round k := (round compactor render_input summary_prompt timeout summarizer
  declines get_skill_content last_invoked_seq estimate_request_overhead engine (outside k)).

Fixpoint turn_loop (fuel k : nat) (t : turn) : option (turn * result TurnOutcome str) :=
  match fuel with
  | O => None
  | S fuel =>
      match nth_round k t with
      | (t, Goes _) => turn_loop fuel (S k) t
      | (t, Leaves r) => Some (t, r)
      end
  end.

(** The locals as the loop finds them. *)
Definition fresh_turn (a : Agent T) : turn :=
  Build_Turn a 0 0 0 Usage_default (Build_RecoveryAttempt 0 (max_tokens engine)) (model_name engine)
    false (last_had_tool_uses a) [].

Definition run_user_turn_inner (fuel : nat) (p : Prompt) (a : Agent T)
    : option (turn * result TurnOutcome str) :=
  match begin_turn p (fresh_turn a) with
  | (t, Goes _) => turn_loop fuel 0 t
  | (t, Leaves r) => Some (t, r)
  end.

(** [finish_turn]: the transcript is persisted before the end is announced. *)
Definition finish_turn (t : turn) (r : result TurnOutcome str) : turn :=
  let t := on_session (λ s, (persist s).1) t in
  match r with
  | Ok o => emit [TurnComplete o (default Usage_default (last_call_usage (who t)))
                    (length (turn_messages t))] t
  | Err _ => t
  end.

(** How [run_user_turn] ends: what was not delivered is handed back.  [late]
    is sent after the last boundary. *)
Definition close_turn (late : list QueuedUserMessage) (t : turn) (r : result TurnOutcome str) : turn :=
  let t := arrivals late t in
  let '(q, undelivered) := close_queue (steering (who t)) in
  let t := set_who (set_steering q) t in
  finish_turn (if bool_decide (undelivered = []) then t
               else emit [UserMessagesReturned undelivered] t) r.

Definition open_turn (a : Agent T) : Agent T :=
  set_steering (open_queue (steering a)) (set_last_call_usage None a).

Definition run_user_turn (fuel : nat) (p : Prompt) (late : list QueuedUserMessage) (a : Agent T)
    : option (turn * result TurnOutcome str) :=
  '(t, r) ← run_user_turn_inner fuel p (open_turn a);
  Some (close_turn late t r, r).

End Loop.

(** ** Reasoning about rounds *)

Section Hoare.
Context {T B D : Type}.
#[local] Notation turn := (Turn T B D).

(** From a state with [P], going on gives [Q] of the result and leaving [R]. *)
Definition hoare {A} (P : turn → Prop) (m : @M T B D A) (Q : A → turn → Prop)
    (R : result TurnOutcome str → turn → Prop) : Prop :=
  ∀ t, P t → match m t with (t', Goes a) => Q a t' | (t', Leaves r) => R r t' end.

(** An invariant while the program goes on, and [R] where it leaves. *)
Definition keeps (I : turn → Prop) (R : result TurnOutcome str → turn → Prop) {A}
    (m : @M T B D A) : Prop := hoare I m (λ _, I) R.

(** The outcome the program leaves with, from the state it is in. *)
Definition outcome_now (reason : str) (usage : Usage) (message : option str) (t : turn) : TurnOutcome :=
  Build_TurnOutcome reason (api_calls t) (tool_calls t) usage (turn_usage t) message.

Lemma hoare_bind {A C} P (m : @M T B D A) (k : A → @M T B D C) Q Q' R :
  hoare P m Q R → (∀ a, hoare (Q a) (k a) Q' R) → hoare P (m ≫= k) Q' R.
Proof.
  intros Hm Hk t Ht. unfold mbind, M_bind. specialize (Hm t Ht).
  destruct (m t) as [t' [a|r]]; [by apply Hk|done].
Qed.

Lemma keeps_bind I R {A C} (m : @M T B D A) (k : A → @M T B D C) :
  keeps I R m → (∀ a, keeps I R (k a)) → keeps I R (m ≫= k).
Proof. intros Hm Hk. by eapply hoare_bind. Qed.

Lemma keeps_modify (I : turn → Prop) R f : (∀ t, I t → I (f t)) → keeps I R (modify f).
Proof. intros Hf t Ht. by apply Hf. Qed.

Lemma keeps_gets (I : turn → Prop) R {A} (f : turn → A) : keeps I R (gets f).
Proof. by intros t Ht. Qed.

Lemma keeps_done (I : turn → Prop) R {A} (a : A) : keeps I R (done a).
Proof. by intros t Ht. Qed.

Lemma keeps_fail (I : turn → Prop) R {A} e : (∀ t, I t → R (Err e) t) → keeps I R (fail (A := A) e).
Proof. intros HR t Ht. by apply HR. Qed.

Lemma keeps_leave (I : turn → Prop) R {A} reason usage message :
  (∀ t b, I t → R (Ok (outcome_now reason usage message t)) (set_who (set_last_had_tool_uses b) t)) →
  keeps I R (leave (A := A) reason usage message).
Proof. intros HI t Ht. by apply HI. Qed.

End Hoare.

Section Invariants.
Context `{TokenCounter} `{Base58} {T : Type} `{HistoryStore T} (compactor : Compactor) {B D : Type}.
Context (render_input : value → str) (summary_prompt timeout : str)
  (summarizer : option (ModelMessage → SummaryCall))
  (declines : nat → nat → nat → CompactTrigger → bool)
  (get_skill_content : str → option str) (last_invoked_seq : str → Z).
Context (estimate_request_overhead : B → D → nat) (engine : Engine B D).

#[local] Notation turn := (Turn T B D).
#[local] Notation round := (round compactor render_input summary_prompt timeout summarizer
  declines get_skill_content last_invoked_seq estimate_request_overhead engine).
#[local] Notation ask_model := (ask_model compactor estimate_request_overhead engine).
#[local] Notation call_model := (call_model compactor estimate_request_overhead engine).

(** What a property of turns must stand for the pieces of a round, apart from
    the model call, the reply and the queue, to keep it. *)
Record unmoved (I : turn → Prop) (R : result TurnOutcome str → turn → Prop) : Prop := {
  um_leave t reason usage message b : I t →
    R (Ok (outcome_now reason usage message t)) (set_who (set_last_had_tool_uses b) t);
  um_persist t : I t → I (on_session (λ s, (persist s).1) t);
  um_text t now text : I t → I (on_session (λ s, push_message now s (user_text text)) t);
  um_increment t : I t → I (on_session increment_turn t);
  um_compact o t : I t → I (compact_step compactor render_input summary_prompt timeout summarizer
    declines get_skill_content last_invoked_seq engine o t).1;
  um_structured t n : I t → I (add_structured n t);
  um_prefetch t : I t → I (end_prefetch t);
  um_attempt t a : I t → I (set_attempt a t);
  um_invoked t f : I t → I (set_who (λ a, set_invoked (f a) a) t);
  um_goal t g : I t → I (set_who (set_goal g) t);
  um_memory t m : I t → I (set_who (set_session_memory m) t);
}.

(** Requests of any kind may be sent. *)
Lemma ask_model_keeps (I : turn → Prop) R o :
  (∀ t e, I t → R (Err e) t) → (∀ t b r, I t → I (emit [Sent b r] t)) →
  (∀ t, I t → I (prepare_request estimate_request_overhead engine o t).2) →
  (∀ t m, I t → I (set_model m t)) →
  (∀ t ms before after, I t →
     I (on_session (λ s, (replace_messages_after_compact s ms before after).1) t)) →
  keeps I R (ask_model o).
Proof.
  intros Herr Hsent Hprep Hmodel Hrepl.
  assert (Hsend : ∀ b r, keeps I R (send engine o b r))
    by (intros b r; apply keeps_bind; [apply keeps_modify; intros; by apply Hsent|intros; apply keeps_done]).
  assert (Hfail : ∀ r, keeps I R (sent_or_fail (T := T) (B := B) (D := D) r))
    by (intros []; [apply keeps_done|apply keeps_fail; auto]).
  unfold TurnLoop.ask_model.
  apply keeps_bind; [apply keeps_gets|intros r]. apply keeps_bind; [by apply keeps_modify|intros _].
  apply keeps_bind; [apply Hsend|]. intros [items|e]; [apply keeps_done|].
  destruct (classify_failure _ _) as [|model|]; [apply keeps_fail; auto|..].
  - apply keeps_bind; [apply keeps_modify; auto|intros _]. by apply keeps_bind.
  - apply keeps_bind; [apply keeps_gets|intros n].
    destruct (transform _ _ _) as [[c res]|]; [|apply keeps_fail; auto].
    destruct (bool_decide _); [|apply keeps_fail; auto]. apply keeps_bind; [apply keeps_modify; auto|intros _].
    apply keeps_bind; [apply keeps_gets|intros r']. by apply keeps_bind.
Qed.

Lemma arrivals_keep (I : turn → Prop) :
  (∀ t m, I t → I (arrive m t)) → ∀ ms t, I t → I (arrivals ms t).
Proof. intros Hm ms. induction ms as [|m ms IH]; intros t Ht; [done|]. by apply (IH (arrive m t)), Hm. Qed.

Lemma deliver_keeps (I : turn → Prop) R o last :
  (∀ t q, I t → I (set_who (set_steering q) t)) → (∀ t m, I t → I (deliver_one o t m)) →
  keeps I R (deliver_queued_user_messages o last).
Proof.
  intros Hq Hm t Ht. unfold deliver_queued_user_messages. destruct (if last then _ else _) as [q ms].
  apply (Hq t q) in Ht. revert Ht. generalize (set_who (set_steering q) t).
  induction ms as [|m ms IH]; intros t' Ht; [done|]. by apply IH, Hm.
Qed.

Section Unmoved.
Context (I : turn → Prop) (R : result TurnOutcome str → turn → Prop) (unmoved_I : unmoved I R).

Lemma leave_keeps {A} r u m : keeps I R (leave (A := A) r u m).
Proof. apply keeps_leave. intros t b. by apply (um_leave _ _ unmoved_I). Qed.

Lemma policy_keeps v : keeps I R (policy_check v).
Proof. destruct v; [apply keeps_done|apply leave_keeps]. Qed.

Lemma check_keeps o : keeps I R (check_step compactor render_input summary_prompt timeout summarizer
  declines get_skill_content last_invoked_seq engine o).
Proof.
  unfold check_step. apply keeps_bind; [apply keeps_modify, (um_persist _ _ unmoved_I)|intros _].
  destruct (cancelled o); [apply leave_keeps|].
  apply keeps_bind; [apply keeps_gets|intros before]. apply keeps_bind; [apply policy_keeps|intros _].
  apply keeps_bind; [intros t Ht; by apply (um_compact _ _ unmoved_I o t)|intros _].
  unfold cap_check. destruct (hard_cap _); [|apply keeps_done].
  apply keeps_bind; [apply keeps_gets|intros n]. destruct (bool_decide _); [apply leave_keeps|apply keeps_done].
Qed.

Lemma act_keeps o :
  (∀ items, keeps I R (read_reply render_input engine o items)) →
  (∀ t, I t → I (arrivals (sent_meanwhile o) t)) →
  (∀ last, keeps I R (deliver_queued_user_messages o last)) →
  ∀ items, keeps I R (act_on_reply render_input engine o items).
Proof.
  intros Hread Harr Hdel items. destruct unmoved_I as [Hl Hp Ht Hi Hc Hs He Ha Hk Hg Hm].
  unfold act_on_reply. apply keeps_bind; [apply keeps_gets|intros n].
  apply keeps_bind; [done|intros res]. destruct (discontinued o); [apply leave_keeps|].
  apply keeps_bind; [apply keeps_modify; auto|intros _].
  apply keeps_bind; [apply keeps_gets|intros after]. apply keeps_bind; [apply policy_keeps|intros _].
  apply keeps_bind.
  { unfold budget_check. apply keeps_bind; [apply keeps_gets|intros spend].
    destruct (on_usage _ _); [apply keeps_done|apply keeps_modify; intros; by apply Ht|apply leave_keeps]. }
  intros _. destruct (res_has_tool_uses res).
  - unfold after_tools. apply keeps_bind.
    { apply keeps_modify. intros t HI. unfold collect_skills, know_skills, say.
      repeat case_match; subst; auto 10. }
    intros _. apply keeps_bind; [by apply keeps_modify|intros _].
    destruct (cancelled_after_tools o); [apply keeps_done|].
    apply keeps_bind; [done|intros _; apply keeps_done].
  - unfold no_tools. apply keeps_bind.
    { intros t HI. unfold raise_limit, say.
      destruct (handle_max_tokens_recovery _ _ _) as [[a [nudge|]]|]; cbn [from_option]; auto. by apply Ha. }
    intros [|]; [apply keeps_done|]. destruct (stop_hooks o); [apply leave_keeps|].
    apply keeps_bind.
    { intros t HI. unfold pursue_goal, say.
      destruct (output_token_target _); [|done]. destruct (on_output_target _ _); auto. }
    intros [|]; [apply keeps_done|]. apply keeps_bind; [by apply keeps_modify|intros _].
    apply keeps_bind; [done|]. intros [|]; [apply keeps_done|]. unfold complete_turn.
    apply keeps_bind; [apply keeps_modify; auto|intros _]. apply keeps_bind; [|intros _; apply leave_keeps].
    apply keeps_modify. intros t HI. unfold check_notes, say. repeat case_match; auto.
Qed.

Lemma round_keeps o :
  keeps I R (call_model o) →
  (∀ items, keeps I R (read_reply render_input engine o items)) →
  (∀ t, I t → I (arrivals (sent_meanwhile o) t)) →
  (∀ last, keeps I R (deliver_queued_user_messages o last)) →
  keeps I R (round o).
Proof.
  intros Hcall Hread Harr Hdel. unfold TurnLoop.round.
  apply keeps_bind; [apply check_keeps|intros _]. apply keeps_bind; [done|]. by apply act_keeps.
Qed.
End Unmoved.

End Invariants.

(** ** What a turn reports *)

Section Accounts.
Context {B D : Type}.

Definition usage_of (e : Event B D) : option Usage :=
  match e with StepEnd _ _ u _ _ => Some u | _ => None end.
Definition tools_of (e : Event B D) : option Z :=
  match e with StepEnd _ _ _ n _ => Some n | _ => None end.
Definition start_of (e : Event B D) : option Z :=
  match e with StepStart n => Some n | _ => None end.
Definition completion_of (e : Event B D) : option (TurnOutcome * nat) :=
  match e with TurnComplete o _ n => Some (o, n) | _ => None end.
Definition sum (l : list Z) : Z := foldl Z.add 0%Z l.

(** The counters agree with the steps that were announced. *)
Definition accounted {T} (t : Turn T B D) : Prop :=
  turn_usage t = foldl plus_usage Usage_default (omap usage_of (trace t)) ∧
  tool_calls t = sum (omap tools_of (trace t)) ∧
  omap start_of (trace t) = Z.of_nat <$> seq 0 (Z.to_nat (api_calls t)) ∧ (0 ≤ api_calls t)%Z ∧
  omap completion_of (trace t) = [].

(** An outcome tells what the counters say. *)
Definition reported {T} (r : result TurnOutcome str) (t : Turn T B D) : Prop :=
  accounted t ∧ ∀ o, r = Ok o → out_total_usage o = turn_usage t ∧ out_api_calls o = api_calls t ∧
    out_tool_calls o = tool_calls t.

(** Events that are not the start or the end of a step or of the turn. *)
Definition off_the_books (e : Event B D) : Prop :=
  usage_of e = None ∧ tools_of e = None ∧ start_of e = None ∧ completion_of e = None.

Lemma accounted_emit {T} (t : Turn T B D) es :
  Forall off_the_books es → accounted t → accounted (emit es t).
Proof.
  intros Hes (Hu & Ht & Hs & Hn & Hc). unfold accounted. cbn [turn_usage tool_calls api_calls trace emit].
  assert (omap usage_of es = [] ∧ omap tools_of es = [] ∧ omap start_of es = [] ∧
          omap completion_of es = []) as (Eu & Et & Es & Ec).
  { induction Hes as [|e es (E1 & E2 & E3 & E4) _ (I1 & I2 & I3 & I4)]; [done|].
    cbn. by rewrite E1, E2, E3, E4. }
  by rewrite !omap_app, Eu, Et, Es, Ec, !app_nil_r.
Qed.

Lemma accounted_start {T} (t : Turn T B D) : accounted t → accounted (start_step t).
Proof.
  intros (Hu & Ht & Hs & Hn & Hc). unfold accounted. cbn [turn_usage tool_calls api_calls trace start_step].
  rewrite !omap_app, Hs, Hc. cbn [omap list_omap usage_of tools_of start_of completion_of].
  rewrite !app_nil_r. split_and!; [done..| |lia|done].
  rewrite Z2Nat.inj_add, (Nat.add_comm _ (Z.to_nat 1)) by lia.
  change (Z.to_nat 1 + ?n) with (S n). rewrite seq_S, fmap_app. cbn. by rewrite Z2Nat.id.
Qed.

Lemma accounted_end {T} `{Base58} `{HistoryStore T} step res (t : Turn T B D) :
  accounted t → accounted (end_step step res t).
Proof.
  intros (Hu & Ht & Hs & Hn & Hc). unfold accounted. cbn [turn_usage tool_calls api_calls trace end_step].
  rewrite !omap_app. cbn [omap list_omap usage_of tools_of start_of completion_of].
  change (trace (on_session (λ s, (persist s).1) (set_who (set_last_call_usage (Some (res_usage res))) t)))
    with (trace t).
  cbn [turn_usage tool_calls api_calls on_session set_who].
  unfold sum in *. by rewrite !foldl_app, <-Hu, Hs, Hc, app_nil_r, <-Ht.
Qed.
End Accounts.

Section Books.
Context `{TokenCounter} `{Base58} {T : Type} `{HistoryStore T} (compactor : Compactor) {B D : Type}.
Context (render_input : value → str) (summary_prompt timeout : str)
  (summarizer : option (ModelMessage → SummaryCall))
  (declines : nat → nat → nat → CompactTrigger → bool)
  (get_skill_content : str → option str) (last_invoked_seq : str → Z).
Context (estimate_request_overhead : B → D → nat) (engine : Engine B D).
#[local] Notation turn := (Turn T B D).
#[local] Notation round := (round compactor render_input summary_prompt timeout summarizer
  declines get_skill_content last_invoked_seq estimate_request_overhead engine).

Lemma arrivals_accounted ms (t : turn) : accounted t → accounted (arrivals ms t).
Proof.
  apply arrivals_keep. clear. intros t m Ht. unfold arrive.
  destruct (offer _ _) as [q r]. apply accounted_emit; [by repeat constructor|done].
Qed.

Lemma arrivals_counters ms (t : turn) :
  turn_usage (arrivals ms t) = turn_usage t ∧ api_calls (arrivals ms t) = api_calls t ∧
  tool_calls (arrivals ms t) = tool_calls t.
Proof.
  revert t. induction ms as [|m ms IH]; intros t; [done|].
  change (arrivals (m :: ms) t) with (arrivals ms (arrive m t)). destruct (IH (arrive m t)) as (-> & -> & ->).
  unfold arrive. by destruct (offer _ _).
Qed.

Lemma call_model_accounted o :
  keeps (T := T) accounted reported (call_model compactor estimate_request_overhead engine o).
Proof.
  apply keeps_bind; [apply keeps_modify, accounted_start|intros _].
  apply ask_model_keeps; try done.
  - intros t b r. apply accounted_emit. by repeat constructor.
Qed.

Lemma round_accounted o : keeps accounted reported (round o).
Proof.
  apply round_keeps.
  - split; try done. intros t reason u m b Ht. split; [done|]. by intros ? [= <-].
  - apply call_model_accounted.
  - intros items t Ht. unfold read_reply.
    destruct (execute_stream _ _ _ _ _ _ _ _ _) as [s [res|e]]; [|split; [done|by intros ? [=]]].
    apply accounted_end. unfold attach_images. by case_bool_decide.
  - apply arrivals_accounted.
  - intros last. apply deliver_keeps; [done|]. intros t m Ht.
    unfold deliver_one. apply accounted_emit; [by repeat constructor|done].
Qed.
End Books.

(** ** Messages sent meanwhile *)

Section Mail.
Context `{TokenCounter} `{Base58} {T : Type} `{HistoryStore T} (compactor : Compactor) {B D : Type}.
Context (render_input : value → str) (summary_prompt timeout : str)
  (summarizer : option (ModelMessage → SummaryCall))
  (declines : nat → nat → nat → CompactTrigger → bool)
  (get_skill_content : str → option str) (last_invoked_seq : str → Z).
Context (estimate_request_overhead : B → D → nat) (engine : Engine B D).
#[local] Notation turn := (Turn T B D).
#[local] Notation round := (round compactor render_input summary_prompt timeout summarizer
  declines get_skill_content last_invoked_seq estimate_request_overhead engine).

Definition accepted_of (e : Event B D) : option QueuedUserMessage :=
  match e with Acked m AckAccepted => Some m | _ => None end.
Definition delivered_of (e : Event B D) : option QueuedUserMessage :=
  match e with UserMessageDelivered m => Some m | _ => None end.
Definition returned_of (e : Event B D) : option (list QueuedUserMessage) :=
  match e with UserMessagesReturned ms => Some ms | _ => None end.

(** What was accepted is delivered or still queued, and nothing was handed
    back so far. *)
Definition in_the_mail (before : list QueuedUserMessage) (t : turn) : Prop :=
  before ++ omap accepted_of (trace t) =
    omap delivered_of (trace t) ++ pending_messages (steering (who t)) ∧
  omap returned_of (trace t) = [].

Definition no_mail (e : Event B D) : Prop :=
  accepted_of e = None ∧ delivered_of e = None ∧ returned_of e = None.

Lemma mail_emit before e (t : turn) : no_mail e → in_the_mail before t → in_the_mail before (emit [e] t).
Proof.
  intros (Ha & Hd & Hr) [Hm Hn]. unfold in_the_mail. cbn [trace emit who].
  rewrite !omap_app. cbn. by rewrite Ha, Hd, Hr, !app_nil_r.
Qed.

Lemma mail_arrivals before ms (t : turn) : in_the_mail before t → in_the_mail before (arrivals ms t).
Proof.
  apply arrivals_keep. clear. intros t m [Hm Hn]. unfold arrive, offer, in_the_mail.
  destruct (accepting (steering (who t))) eqn:E; cbn [trace emit who set_who steering set_steering pending_messages];
    rewrite !omap_app, Hn; cbn; rewrite ?app_nil_r; [|done].
  by rewrite !app_assoc, Hm.
Qed.

Lemma mail_deliver before o last :
  keeps (T := T) (in_the_mail before) (λ _, in_the_mail before) (deliver_queued_user_messages o last).
Proof.
  intros t [Hm Hn]. unfold deliver_queued_user_messages.
  assert (∃ b, (if last then take_or_close (steering (who t)) else take_queued (steering (who t))) =
    (Build_SteerQueue b [], pending_messages (steering (who t)))) as [b ->].
  { unfold take_or_close, take_queued. destruct last; [|eauto]. case_bool_decide; eauto. }
  assert (Hd : ∀ ms (t : turn), omap returned_of (trace t) = [] →
    before ++ omap accepted_of (trace t) =
      omap delivered_of (trace t) ++ ms ++ pending_messages (steering (who t)) →
    in_the_mail before (foldl (deliver_one o) t ms)).
  { clear. induction ms as [|m ms IH]; intros t Hn Hm; [done|]. cbn [foldl]. apply IH.
    - unfold deliver_one. cbn [trace emit]. rewrite omap_app. cbn. by rewrite Hn.
    - unfold deliver_one. cbn [trace emit who]. rewrite !omap_app. cbn.
      rewrite app_nil_r, Hm, <-app_assoc. done. }
  apply Hd; [done|]. cbn [trace set_who who steering set_steering pending_messages].
  by rewrite app_nil_r.
Qed.

(** Delivery: what was queued becomes the end of the conversation. *)
Lemma delivered_is_said o last (t : turn) :
  let t' := (deliver_queued_user_messages o last t).1 in
  let ms := pending_messages (steering (who t)) in
  turn_messages t' = turn_messages t ++ ((λ m, user_text (queued_content m)) <$> ms) ∧
  trace t' = trace t ++ (UserMessageDelivered <$> ms) ∧ pending_messages (steering (who t')) = [].
Proof.
  cbv zeta. unfold deliver_queued_user_messages.
  assert (∃ b, (if last then take_or_close (steering (who t)) else take_queued (steering (who t))) =
    (Build_SteerQueue b [], pending_messages (steering (who t)))) as [b ->].
  { unfold take_or_close, take_queued. destruct last; [|eauto]. case_bool_decide; eauto. }
  cbn [fst]. set (t0 := set_who (set_steering (Build_SteerQueue b [])) t).
  assert (∀ ms (t : turn), let t' := foldl (deliver_one o) t ms in
    turn_messages t' = turn_messages t ++ ((λ m, user_text (queued_content m)) <$> ms) ∧
    trace t' = trace t ++ (UserMessageDelivered <$> ms) ∧ steering (who t') = steering (who t)) as Hd.
  { clear. induction ms as [|m ms IH]; intros t; cbn [foldl fmap list_fmap]; [by rewrite !app_nil_r|].
    destruct (IH (deliver_one o t m)) as (-> & -> & ->). split_and!; [| |done].
    - symmetry. apply (app_assoc (turn_messages t) [user_text (queued_content m)]).
    - symmetry. apply (app_assoc (trace t) [UserMessageDelivered m]). }
  destruct (Hd (pending_messages (steering (who t))) t0) as (-> & -> & ->). done.
Qed.

Lemma mail_call_model before o :
  keeps (T := T) (in_the_mail before) (λ _, in_the_mail before)
    (call_model compactor estimate_request_overhead engine o).
Proof.
  apply keeps_bind.
  { apply keeps_modify. intros t Ht. by apply (mail_emit before (StepStart (api_calls t)) t). }
  intros _. apply ask_model_keeps; try done. intros t b r. by apply mail_emit.
Qed.

Lemma mail_round before o : keeps (in_the_mail before) (λ _, in_the_mail before) (round o).
Proof.
  apply round_keeps.
  - by split.
  - apply mail_call_model.
  - intros items t Ht. unfold read_reply.
    destruct (execute_stream _ _ _ _ _ _ _ _ _) as [s [res|e]]; [|done].
    unfold attach_images. case_bool_decide; (eapply (mail_emit before (StepEnd _ _ _ _ _)); [done|exact Ht]).
  - apply mail_arrivals.
  - apply mail_deliver.
Qed.
End Mail.

(** ** What is sent *)

Lemma persist_messages `{Base58} {T} `{HistoryStore T} (s : SessionManager T) :
  Session.messages (persist s).1 = Session.messages s.
Proof.
  unfold persist. destruct (history_store s); [|done]. destruct (id_parse _); [|done].
  by destruct (persist_loop _ _ _ _ _ _) as [[[? ?] ?] ?].
Qed.

Section Pairing.
Context `{TokenCounter} `{Base58} {T : Type} `{HistoryStore T} (compactor : Compactor) {B D : Type}.
Context (render_input : value → str) (summary_prompt timeout : str)
  (summarizer : option (ModelMessage → SummaryCall))
  (declines : nat → nat → nat → CompactTrigger → bool)
  (get_skill_content : str → option str) (last_invoked_seq : str → Z).
Context (estimate_request_overhead : B → D → nat) (engine : Engine B D).
Context `{!PairingCompactor compactor} (interceptors_keep : ∀ m, same_calls m (intercept_reply engine m))
  (requests_keep : ∀ r, Forall2 same_calls (req_messages r) (req_messages (intercept_request engine r))).
#[local] Notation turn := (Turn T B D).
#[local] Notation round := (round compactor render_input summary_prompt timeout summarizer
  declines get_skill_content last_invoked_seq estimate_request_overhead engine).
#[local] Notation call_model := (call_model compactor estimate_request_overhead engine).

Definition sent_of (e : Event B D) : option (bool * ModelRequest B D) :=
  match e with Sent retry r => Some (retry, r) | _ => None end.

(** What a provider takes: results answer calls, and, unless it is a retry,
    every call is answered. *)
Definition sendable (b : bool * ModelRequest B D) : Prop :=
  well_paired (req_messages b.2) ∧ (b.1 = false → all_answered (req_messages b.2)).

Definition paired (t : turn) : Prop :=
  well_paired (turn_messages t) ∧ cached_enabled (config (cached_mc (core (who t)))) = false ∧
  Forall sendable (omap sent_of (trace t)).

Lemma paired_emit (t : turn) e :
  (∀ b, sent_of e = Some b → sendable b) → paired t → paired (emit [e] t).
Proof.
  intros He (Hw & Hc & Hs). split_and!; [done..|]. cbn [trace emit]. rewrite omap_app.
  apply Forall_app. split; [done|]. cbn. destruct (sent_of e); [|done]. by repeat constructor; apply He.
Qed.

Lemma paired_push (t : turn) f m :
  tool_results m = [] → (∀ s, Session.messages (f s) = Session.messages s ++ [m]) →
  paired t → paired (on_session f t).
Proof.
  intros Hm Hf (Hw & Hc & Hs). split_and!; [|done..]. unfold turn_messages. cbn.
  rewrite Hf. apply well_paired_app. split; [done|]. apply no_results_paired. by repeat constructor.
Qed.

Lemma paired_arrivals ms (t : turn) : paired t → paired (arrivals ms t).
Proof.
  apply arrivals_keep. clear. intros t m Ht. unfold arrive. destruct (offer _ _). by apply paired_emit.
Qed.

Lemma paired_deliver o last :
  keeps (T := T) paired (λ _, paired) (deliver_queued_user_messages o last).
Proof.
  apply deliver_keeps; [done|]. intros t m Ht. unfold deliver_one. apply paired_emit; [done|].
  by apply (paired_push t _ (user_text (queued_content m))).
Qed.

Lemma paired_sent_or_fail r :
  keeps (T := T) (B := B) (D := D) paired (λ _, paired) (sent_or_fail r).
Proof. destruct r; [apply keeps_done|by apply keeps_fail]. Qed.

(** An interceptor that keeps calls and results keeps a request sendable. *)
Lemma sendable_intercepted b r : sendable (b, r) → sendable (b, intercept_request engine r).
Proof.
  intros [Hw Ha]. split; cbn [fst snd] in *.
  - eapply well_paired_same; [|apply requests_keep|exact Hw]. done.
  - intros Hb. eapply all_answered_same; [apply requests_keep|auto].
Qed.

Lemma paired_send o b r : sendable (b, r) → keeps (T := T) paired (λ _, paired) (send engine o b r).
Proof.
  intros Hr. apply keeps_bind; [|intros; apply keeps_done]. apply keeps_modify. intros t.
  apply paired_emit. intros ? [= <-]. by apply sendable_intercepted.
Qed.

Lemma paired_call_model o : keeps (T := T) paired (λ _, paired) (call_model o).
Proof.
  unfold TurnLoop.call_model, ask_model. apply keeps_bind.
  { apply keeps_modify. intros t. by apply (paired_emit t (StepStart (api_calls t))). }
  intros _. apply (hoare_bind _ _ _ (λ r t, paired t ∧ sendable (false, r))).
  { intros t Ht. split; [done|]. destruct Ht as (Hw & _). unfold prepare_request.
    destruct (consume_pending_edits _) as [edits cached]. split; [by apply pair_paired|].
    intros _. apply pair_all_answered. }
  intros r. apply (hoare_bind _ _ _ (λ _ t, paired t ∧ sendable (false, r))).
  { intros t [Ht Hr]. split; [|done]. unfold prepare_request. cbn. by destruct Ht. }
  intros _ t [Ht Hr]. revert t Ht. apply keeps_bind; [by apply paired_send|].
  intros [items|e]; [apply keeps_done|].
  destruct (classify_failure _ _) as [|model|]; [by apply keeps_fail|..].
  - apply keeps_bind; [by apply keeps_modify|intros _].
    apply keeps_bind; [|intros; apply paired_sent_or_fail]. apply paired_send. by split; [apply Hr|].
  - apply keeps_bind; [apply keeps_gets|intros n].
    destruct (transform _ _ _) as [[c res]|] eqn:Hc; [|by apply keeps_fail].
    destruct (bool_decide _); [|by apply keeps_fail].
    apply keeps_bind.
    { apply keeps_modify. intros t (Hw & Hcfg & Hs). split_and!; [|done..]. unfold turn_messages. cbn.
      destruct (replaced_messages (session (core (who t))) c (Z.of_nat (tokens_before res))
        (Z.of_nat (tokens_after res))) as [-> _]. eapply transform_paired; [exact Hc|apply Hr]. }
    intros _. apply (hoare_bind _ _ _ (λ r t, paired t ∧ sendable (true, r))).
    { intros t Ht. split; [done|]. split; [apply Ht|done]. }
    intros r' t [Ht Hr']. revert t Ht. apply keeps_bind; [by apply paired_send|].
    intros; apply paired_sent_or_fail.
Qed.

Lemma round_paired o : keeps paired (λ _, paired) (round o).
Proof.
  apply round_keeps; [split| | | |]; try done.
  - intros t (Hw & Hc & Hs). split_and!; [|done..]. unfold turn_messages. cbn. by rewrite persist_messages.
  - intros t now text. by apply (paired_push t _ (user_text text)).
  - intros o' t (Hw & Hc & Hs). unfold paired, turn_messages. cbn. split_and!; [| |done].
    + apply cycle_paired; [done| |done]. unfold should_run. by rewrite Hc.
    + by rewrite cycle_config.
  - apply paired_call_model.
  - intros items t (Hw & Hc & Hs). unfold read_reply.
    destruct (execute_stream _ _ _ _ _ _ _ _ _) as [s r] eqn:E.
    assert (paired (on_session (λ _, s) t)) as Hs'.
    { split_and!; [|done..]. change (well_paired (Session.messages s)).
      replace s with (execute_stream render_input (run_tool o) (is_concurrency_safe o) (provenance engine)
        (schedule o) (intercept_reply engine) (clock o) (session (core (who t))) items).1 by by rewrite E.
      by apply reply_keeps_pairing. }
    destruct r as [res|e]; [|done].
    assert (paired (attach_images o (on_session (λ _, s) t))) as (Hw' & Hc' & Hs'').
    { unfold attach_images. case_bool_decide; [done|]. destruct Hs' as (Hw' & ? & ?). split_and!; [|done..].
      unfold turn_messages. cbn. eapply well_paired_same; [|apply attach_calls|exact Hw']. done. }
    split_and!; [|done|].
    + unfold turn_messages, end_step. cbn. rewrite persist_messages. exact Hw'.
    + unfold end_step. cbn [trace]. rewrite omap_app. cbn. by rewrite app_nil_r.
  - apply paired_arrivals.
  - apply paired_deliver.
Qed.
End Pairing.

Section Whole.
Context `{TokenCounter} `{Base58} {T : Type} `{HistoryStore T} (compactor : Compactor) {B D : Type}.
Context (render_input : value → str) (summary_prompt timeout : str)
  (summarizer : option (ModelMessage → SummaryCall))
  (declines : nat → nat → nat → CompactTrigger → bool)
  (get_skill_content : str → option str) (last_invoked_seq : str → Z).
Context (estimate_request_overhead : B → D → nat) (engine : Engine B D) (outside : nat → Outside B D).
#[local] Notation turn := (Turn T B D).
#[local] Notation round := (round compactor render_input summary_prompt timeout summarizer
  declines get_skill_content last_invoked_seq estimate_request_overhead engine).
#[local] Notation turn_loop := (turn_loop compactor render_input summary_prompt timeout summarizer
  declines get_skill_content last_invoked_seq estimate_request_overhead engine outside).
#[local] Notation run_user_turn_inner := (run_user_turn_inner compactor render_input summary_prompt
  timeout summarizer declines get_skill_content last_invoked_seq estimate_request_overhead engine outside).
#[local] Notation run_user_turn := (run_user_turn compactor render_input summary_prompt timeout
  summarizer declines get_skill_content last_invoked_seq estimate_request_overhead engine outside).

(** Beginning a turn adds user messages and notes what was shown. *)
Lemma begin_keeps (I : turn → Prop) R p :
  (∀ t message, I t → R (Ok (Build_TurnOutcome "stopped_by_hook" 0 0 Usage_default Usage_default message)) t) →
  (∀ t now text, I t → I (push_text now text t)) → (∀ t, I t → I (push_prompt p t)) →
  (∀ t f, (∀ c, session (f c) = session c ∧ cached_mc (f c) = cached_mc c) → I t →
     I (set_who (set_core f) t)) →
  keeps I R (begin_turn p).
Proof.
  intros Hr Ht Hp Hc. unfold begin_turn. destruct (blocked p); [intros t HI; by apply Hr|].
  repeat (apply keeps_bind; [|intros _]); apply keeps_modify; intros t HI.
  - unfold note_skills. repeat case_match; auto.
  - by apply Hc.
  - unfold inject_instructions. case_match; [done|]. apply Hc; auto.
  - unfold inject_reminder. case_match; auto.
  - auto.
  - unfold recall_memories. case_match; auto.
Qed.

Lemma loop_keeps I R fuel k (t t' : turn) r :
  (∀ k, keeps I R (round (outside k))) → I t → turn_loop fuel k t = Some (t', r) → R r t'.
Proof.
  intros Hr. revert k t. induction fuel as [|fuel IH]; intros k t Ht; [done|]. cbn [TurnLoop.turn_loop].
  specialize (Hr k t Ht). destruct (round (outside k) t) as [t1 [u|r1]].
  - by apply IH.
  - by intros [= <- <-].
Qed.

(** What every turn that ended satisfies. *)
Lemma run_keeps (I0 I : turn → Prop) R fuel p late a t r :
  I0 (fresh_turn engine (open_turn a)) → keeps I0 R (begin_turn p) → (∀ t, I0 t → I t) →
  (∀ k, keeps I R (round (outside k))) →
  run_user_turn fuel p late a = Some (t, r) → ∃ t1, R r t1 ∧ t = close_turn late t1 r.
Proof.
  intros Hi Hb HI Hr. unfold TurnLoop.run_user_turn, TurnLoop.run_user_turn_inner.
  specialize (Hb _ Hi). destruct (begin_turn p (fresh_turn engine (open_turn a))) as [t1 [u|r1]].
  - destruct (turn_loop fuel 0 t1) as [[t2 r2]|] eqn:E; [|done]. cbn [mbind option_bind].
    intros [= <- <-]. exists t2. split; [|done]. by eapply loop_keeps; [exact Hr|apply HI|].
  - cbn [mbind option_bind]. intros [= <- <-]. by exists t1.
Qed.

(** A turn in which nothing was called yet. *)
Definition untouched (t : turn) : Prop :=
  accounted t ∧ turn_usage t = Usage_default ∧ api_calls t = 0%Z ∧ tool_calls t = 0%Z.

Lemma close_accounted late (t : turn) r :
  reported r t →
  let t' := close_turn late t r in
  accounted (T := T) (B := B) (D := D)
    (Build_Turn (who t') (api_calls t') (tool_calls t') (structured_output_calls t') (turn_usage t')
       (attempt t') (effective_model t') (had_tool_uses_this_turn t') (skill_prefetch t')
       (if is_ok r then removelast (trace t') else trace t')) ∧
  (∀ o, r = Ok o → out_total_usage o = turn_usage t' ∧ out_api_calls o = api_calls t' ∧
     out_tool_calls o = tool_calls t') ∧
  (∀ o, r = Ok o → ∃ u, trace t' = removelast (trace t') ++ [TurnComplete o u (length (turn_messages t'))]).
Proof.
  intros [Hacc Hrep]. pose proof (arrivals_accounted late t Hacc) as Hacc1.
  destruct (arrivals_counters late t) as (Eu & Ea & Et). unfold close_turn.
  destruct (close_queue (steering (who (arrivals late t)))) as [q undelivered].
  set (t2 := if bool_decide (undelivered = []) then set_who (set_steering q) (arrivals late t)
    else emit [UserMessagesReturned undelivered] (set_who (set_steering q) (arrivals late t))).
  assert (accounted t2 ∧ turn_usage t2 = turn_usage t ∧ api_calls t2 = api_calls t ∧
          tool_calls t2 = tool_calls t) as (Hacc2 & Eu2 & Ea2 & Et2).
  { unfold t2. case_bool_decide; [by split_and!|]. split_and!; try done.
    apply accounted_emit; [by repeat constructor|done]. }
  clearbody t2. unfold finish_turn. cbn zeta. destruct r as [o|e]; cbn [is_ok].
  - cbn [trace emit]. rewrite removelast_last. split_and!; [exact Hacc2| |].
    + intros o' [= <-]. destruct (Hrep o eq_refl) as (-> & -> & ->). by rewrite <-Eu2, <-Ea2, <-Et2.
    + intros o' [= <-]. by eexists.
  - split_and!; [exact Hacc2|by intros ? [=]..].
Qed.

(** C10. What a turn reports is what happened in it.  However it ends, its
    outcome counts the steps that were started, numbered from zero, the tools
    they ran and the sum of what they cost; the end is announced once, last,
    with the length of the conversation it left - and not at all when the
    turn failed. *)
Theorem turn_reports_what_happened fuel p late (a : Agent T) t r :
  run_user_turn fuel p late a = Some (t, r) →
  omap completion_of (trace t) = match r with Ok o => [(o, length (turn_messages t))] | Err _ => [] end ∧
  ∀ o, r = Ok o →
    out_total_usage o = foldl plus_usage Usage_default (omap usage_of (trace t)) ∧
    out_tool_calls o = sum (omap tools_of (trace t)) ∧
    omap start_of (trace t) = Z.of_nat <$> seq 0 (Z.to_nat (out_api_calls o)) ∧
    ∃ events u, trace t = events ++ [TurnComplete o u (length (turn_messages t))].
Proof.
  intros Hrun. apply (run_keeps untouched accounted reported) in Hrun as (t1 & Hrep & ->).
  - destruct (close_accounted late t1 r Hrep) as ((Hu & Ht & Hs & _ & Hc) & Ho & Hl).
    cbn [trace turn_usage tool_calls api_calls] in *. destruct r as [o|e]; cbn [is_ok] in *.
    + destruct (Hl o eq_refl) as [u El]. destruct (Ho o eq_refl) as (E1 & E2 & E3).
      rewrite El, !omap_app, Hc. split; [done|]. intros o' [= <-].
      cbn [omap list_omap usage_of tools_of start_of]. rewrite !app_nil_r, E1, E2, E3.
      split_and!; [done..|eauto].
    + by split.
  - by split_and!.
  - apply begin_keeps; try done.
    intros t' message (Hacc & Hu & Ha & Ht). split; [done|]. intros o [= <-]. cbn. by rewrite Hu, Ha, Ht.
  - by intros t' [? _].
  - intros k. apply round_accounted.
Qed.

(** C9. Messages sent while a turn runs are never lost and never read twice:
    whatever happens in the turn, everything its queue accepted was delivered,
    in order, or is handed back when the turn ends, in order; then the queue
    is empty and closed; and a delivery puts the texts of all that is queued,
    in their order and as the user's, at the end of the conversation, and
    announces just these. *)
Theorem accepted_messages_are_read_or_returned fuel p late (a : Agent T) t r :
  run_user_turn fuel p late a = Some (t, r) →
  pending_messages (steering a) ++ omap accepted_of (trace t) =
    omap delivered_of (trace t) ++ mjoin (omap returned_of (trace t)) ∧
  steering (who t) = SteerQueue_default ∧
  ∀ k last (t0 : turn),
    let t' := (deliver_queued_user_messages (outside k) last t0).1 in
    let ms := pending_messages (steering (who t0)) in
    turn_messages t' = turn_messages t0 ++ ((λ m, user_text (queued_content m)) <$> ms) ∧
    trace t' = trace t0 ++ (UserMessageDelivered <$> ms) ∧ pending_messages (steering (who t')) = [].
Proof.
  intros Hrun. match goal with |- ?A ∧ ?B ∧ _ => cut (A ∧ B) end;
    [intros [? ?]; split; [done|split; [done|by intros k; apply delivered_is_said]]|]. apply (run_keeps (in_the_mail (pending_messages (steering a)))
    (in_the_mail (pending_messages (steering a))) (λ _, in_the_mail (pending_messages (steering a)))) in Hrun
    as (t1 & Hm & ->).
  - apply (mail_arrivals _ late) in Hm as [Hm Hn]. unfold close_turn, close_queue, take_queued, finish_turn.
    cbn [pending_messages]. set (ms := pending_messages (steering (who (arrivals late t1)))) in *.
    assert (Ho : ∀ o u n, omap accepted_of [TurnComplete (B := B) (D := D) o u n] = [] ∧
      omap delivered_of [TurnComplete (B := B) (D := D) o u n] = [] ∧
      omap returned_of [TurnComplete (B := B) (D := D) o u n] = []) by done.
    case_bool_decide as Hms; destruct r; cbn [trace emit on_session set_who who set_steering steering];
      (split; [|done]); rewrite ?omap_app, ?Hn, ?Hm; cbn [omap list_omap accepted_of delivered_of returned_of];
      rewrite ?app_nil_r, ?Hm, ?Hn, ?Hms; cbn; by rewrite ?app_nil_r.
  - unfold in_the_mail. cbn. by rewrite app_nil_r.
  - by apply begin_keeps.
  - done.
  - intros k. apply mail_round.
Qed.

(** C8. Every request of a turn, as it goes out, is one a provider takes: each
    result in it answers a call of the message before it, and - unless it is
    the retry after a refusal - each call in it is answered; and the
    conversation the turn leaves is paired as well.  This is so when the
    conversation was paired before, the count-based clearing of results is
    off (on, it breaks the pairing), the compactor is one that keeps pairing,
    as all of the engine's strategies do, and interceptors leave the calls and
    results of the messages they rewrite. *)
Theorem requests_are_sendable fuel p late (a : Agent T) t r :
  PairingCompactor compactor → (∀ m, same_calls m (intercept_reply engine m)) →
  (∀ r, Forall2 same_calls (req_messages r) (req_messages (intercept_request engine r))) →
  cached_enabled (config (cached_mc (core a))) = false →
  well_paired (Session.messages (session (core a))) →
  omap tool_result_id_of (prompt_attachments p) = [] →
  run_user_turn fuel p late a = Some (t, r) →
  well_paired (turn_messages t) ∧
  ∀ retry req, Sent retry req ∈ trace t →
    well_paired (req_messages req) ∧ (retry = false → all_answered (req_messages req)).
Proof.
  intros Hc Hi Hir Hcfg Hw Hp Hrun.
  apply (run_keeps paired paired (λ _, paired)) in Hrun as (t1 & Ht & ->).
  - apply (paired_arrivals late) in Ht as (Hw1 & _ & Hs). unfold close_turn, close_queue, take_queued, finish_turn.
    cbn [pending_messages]. split.
    + case_bool_decide; destruct r; unfold turn_messages; cbn; by rewrite persist_messages.
    + intros retry req Hin. assert (Hsent : Sent retry req ∈ trace (arrivals late t1)).
      { case_bool_decide; destruct r; cbn [trace emit on_session set_who] in Hin; set_unfold; naive_solver. }
      rewrite Forall_forall in Hs. apply (Hs (retry, req)). apply list_elem_of_omap. by exists (Sent retry req).
  - by split_and!.
  - apply begin_keeps; try done.
    + intros t' now text. by apply (paired_push t' _ (user_text text)).
    + intros t'. by apply (paired_push t' _ (Build_ModelMessage RoleUser
        (Text (prompt_text p) :: prompt_attachments p))).
    + intros t' f Hf (Hw' & Hc' & Hs'). unfold paired, turn_messages. cbn.
      destruct (Hf (core (who t'))) as [-> ->]. by split_and!.
  - done.
  - intros k. by apply round_paired.
Qed.

(** *** Turns end *)

(** At least [n] calls were made. *)
Definition called (n : Z) (t : turn) : Prop := (n ≤ api_calls t)%Z.

Lemma called_check n o : keeps (called n) (λ _ _, True) (check_step compactor render_input
  summary_prompt timeout summarizer declines get_skill_content last_invoked_seq engine o).
Proof. by apply check_keeps. Qed.

Lemma called_round n o :
  hoare (called n) (round o) (λ _, called (n + 1)) (λ _ _, True).
Proof.
  unfold TurnLoop.round. apply (hoare_bind _ _ _ (λ _, called n)); [apply called_check|intros _].
  apply (hoare_bind _ _ _ (λ _, called (n + 1))).
  { unfold call_model. apply (hoare_bind _ _ _ (λ _, called (n + 1))).
    - intros t Ht. unfold called in *. cbn. lia.
    - intros _. by apply ask_model_keeps. }
  apply (act_keeps compactor render_input summary_prompt timeout summarizer declines
    get_skill_content last_invoked_seq); [by split|..].
  - intros items t Ht. unfold read_reply. destruct (execute_stream _ _ _ _ _ _ _ _ _) as [s [res|e]]; [|done].
    unfold attach_images. by case_bool_decide.
  - intros t Ht. unfold called. by destruct (arrivals_counters (sent_meanwhile o) t) as (_ & -> & _).
  - intros last. by apply deliver_keeps.
Qed.

(** At most [n] calls, and [k] requests less than two for each. *)
Definition within (n k : Z) (t : turn) : Prop :=
  (api_calls t ≤ n `max` 0 ∧ Z.of_nat (length (omap sent_of (trace t))) + k ≤ 2 * api_calls t)%Z.

(** A policy that stops every turn of [n] calls. *)
Definition stops_at (n : Z) (p : TurnPolicy) : Prop :=
  ∀ progress, (n ≤ Policies.api_calls progress)%Z → is_stop (before_model_call p progress) = true.

Lemma stopped n o t : stops_at n (turn_policy engine) → called n t → ∃ t' r, round o t = (t', Leaves r).
Proof.
  intros Hstop Ht.
  assert (Hr : hoare (called n) (round o) (λ _ _, False) (λ _ _, True)).
  { unfold TurnLoop.round. apply (hoare_bind _ _ _ (λ _ _, False)); [|by intros _ ? ?].
    unfold check_step. apply (hoare_bind _ _ _ (λ _, called n)); [by intros t' ?|intros _].
    destruct (cancelled o); [by intros t' ?|].
    apply (hoare_bind _ _ _ (λ before _, is_stop before = true)).
    - intros t' Ht'. by apply Hstop.
    - intros before. apply (hoare_bind _ _ _ (λ _ _, False)); [|by intros _ ? ?].
      intros t' Hb. by destruct before. }
  specialize (Hr t Ht). destruct (round o t) as [t' [u|r]]; [done|eauto].
Qed.

Lemma within_less n k l t : (l ≤ k)%Z → within n k t → within n l t.
Proof. intros Hl [Ha Hs]. split; lia. Qed.

Lemma within_emit n k e (t : turn) : sent_of e = None → within n k t → within n k (emit [e] t).
Proof.
  intros He [Ha Hs]. split; [done|]. cbn [trace emit]. rewrite omap_app. cbn. rewrite He, app_nil_r. done.
Qed.

Lemma within_sent n k b r (t : turn) : within n k t → within n (k - 1) (emit [Sent b r] t).
Proof.
  intros [Ha Hs]. split; [done|]. cbn [trace emit api_calls]. rewrite omap_app. cbn. rewrite length_app. cbn. lia.
Qed.

Lemma within_arrivals n k ms (t : turn) : within n k t → within n k (arrivals ms t).
Proof.
  apply arrivals_keep. clear. intros t m Ht. unfold arrive. destruct (offer _ _). by apply within_emit.
Qed.

Lemma within_send n k o b r :
  hoare (T := T) (within n k) (send engine o b r) (λ _, within n (k - 1)) (λ _, within n 0).
Proof. intros t Ht. by apply within_sent. Qed.

(** One call of the model: counted once, sent at most twice. *)
Lemma within_call_model n o :
  hoare (T := T) (λ t, within n 0 t ∧ (api_calls t < n)%Z)
    (call_model compactor estimate_request_overhead engine o) (λ _, within n 0) (λ _, within n 0).
Proof.
  assert (Hsend : ∀ b r, hoare (T := T) (within n 1) (answered ← send engine o b r; sent_or_fail answered)
    (λ _, within n 0) (λ _, within n 0)).
  { intros b r. apply (hoare_bind _ _ _ (λ _, within n 0)); [apply (within_send n 1)|].
    intros [items|e]; [apply keeps_done|by apply keeps_fail]. }
  assert (Hgo : ∀ A (m : @M T B D A) (k : A → @M T B D (list (bool * result ModelEvent str))),
    hoare (within n 1) m (λ _, within n 1) (λ _, within n 0) →
    (∀ a, hoare (within n 1) (k a) (λ _, within n 0) (λ _, within n 0)) →
    hoare (within n 1) (m ≫= k) (λ _, within n 0) (λ _, within n 0)) by (intros; by eapply hoare_bind).
  assert (Hfail : ∀ e, hoare (T := T) (within n 1) (fail (A := list (bool * result ModelEvent str)) e)
    (λ _, within n 0) (λ _, within n 0)) by (intros e t; by apply within_less; lia).
  unfold call_model, ask_model. apply (hoare_bind _ _ _ (λ _, within n 2)).
  { intros t [[Ha Hs] Hn]. split; cbn; [lia|]. rewrite omap_app. cbn. rewrite app_nil_r. lia. }
  intros _. apply (hoare_bind _ _ _ (λ _, within n 2)); [by intros t Ht|intros r].
  apply (hoare_bind _ _ _ (λ _, within n 2)); [by intros t Ht|intros _].
  apply (hoare_bind _ _ _ (λ _, within n 1)); [apply (within_send n 2)|].
  intros [items|e]; [intros t; by apply within_less; lia|].
  destruct (classify_failure _ _) as [|model|]; [apply Hfail|..].
  - apply Hgo; [by intros t Ht|intros _; apply Hsend].
  - apply Hgo; [by intros t Ht|intros len].
    destruct (transform _ _ _) as [[c res]|]; [|apply Hfail]. destruct (bool_decide _); [|apply Hfail].
    apply Hgo; [by intros t Ht|intros _]. apply Hgo; [by intros t Ht|intros r'; apply Hsend].
Qed.

(** Before a call is spent: the policy has not stopped it. *)
Lemma within_check n o : stops_at n (turn_policy engine) →
  hoare (within n 0) (check_step compactor render_input summary_prompt timeout summarizer declines
    get_skill_content last_invoked_seq engine o) (λ _ t, within n 0 t ∧ (api_calls t < n)%Z) (λ _, within n 0).
Proof.
  intros Hstop. unfold check_step. apply (hoare_bind _ _ _ (λ _, within n 0)); [by intros t Ht|intros _].
  destruct (cancelled o); [by intros t Ht|].
  apply (hoare_bind _ _ _ (λ before t, within n 0 t ∧ (before = Continue → api_calls t < n)%Z)).
  { intros t Ht. split; [done|]. intros Hb. apply Z.nle_gt. intros Hn.
    specialize (Hstop (progress_of [] t) Hn). by rewrite Hb in Hstop. }
  intros before. apply (hoare_bind _ _ _ (λ _ t, within n 0 t ∧ (api_calls t < n)%Z)).
  { intros t [Ht Hb]. destruct before; [by split; [|apply Hb]|done]. }
  intros _. apply (hoare_bind _ _ _ (λ _ t, within n 0 t ∧ (api_calls t < n)%Z)); [by intros t Ht|intros _].
  unfold cap_check. destruct (hard_cap _); [|by intros t Ht].
  apply (hoare_bind _ _ _ (λ _ t, within n 0 t ∧ (api_calls t < n)%Z)); [by intros t Ht|intros c].
  destruct (bool_decide _); [by intros t [Ht _]|by intros t Ht].
Qed.

Lemma within_round n o : stops_at n (turn_policy engine) → keeps (within n 0) (λ _, within n 0) (round o).
Proof.
  intros Hstop. unfold TurnLoop.round.
  apply (hoare_bind _ _ _ (λ _ t, within n 0 t ∧ (api_calls t < n)%Z)); [by apply within_check|intros _].
  apply (hoare_bind _ _ _ (λ _, within n 0)); [apply within_call_model|].
  apply (act_keeps compactor render_input summary_prompt timeout summarizer declines
    get_skill_content last_invoked_seq); [by split|..].
  - intros items t Ht. unfold read_reply. destruct (execute_stream _ _ _ _ _ _ _ _ _) as [s [res|e]]; [|done].
    destruct Ht as [Ha Hs]. unfold attach_images. case_bool_decide; (split; [exact Ha|]); unfold end_step;
      cbn [trace]; rewrite omap_app; cbn [omap list_omap sent_of]; rewrite app_nil_r; exact Hs.
  - intros t. apply within_arrivals.
  - intros last. apply deliver_keeps; [done|]. intros t m Ht. unfold deliver_one. by apply within_emit.
Qed.

Lemma loop_ends n fuel k (t : turn) :
  stops_at n (turn_policy engine) → called 0 t → (Z.to_nat (n - api_calls t) < fuel) →
  is_Some (turn_loop fuel k t).
Proof.
  intros Hstop. revert k t. induction fuel as [|fuel IH]; intros k t Ht Hf; [lia|].
  cbn [TurnLoop.turn_loop]. destruct (decide (n ≤ api_calls t)%Z) as [Hn|Hn].
  - destruct (stopped n (outside k) t Hstop Hn) as (t' & r & ->). eauto.
  - pose proof (called_round (api_calls t) (outside k) t ltac:(unfold called; lia)) as Hr.
    destruct (round (outside k) t) as [t' [u|r]]; [|eauto]. unfold called in *. apply IH; [lia|].
    assert (Z.to_nat (n - api_calls t') < Z.to_nat (n - api_calls t)) by lia. lia.
Qed.

Lemma within_close n late (t : turn) r : within n 0 t → within n 0 (close_turn late t r).
Proof.
  intros Ht. apply (within_arrivals n 0 late) in Ht. unfold close_turn, close_queue, take_queued, finish_turn.
  case_bool_decide; destruct r; try done; try (by apply within_emit); by apply within_emit; [|apply within_emit].
Qed.

(** C7. A turn ends: whatever the model answers, the tools do and the user
    sends, as long as every call of the model, a tool, a hook and every
    question to the user returns, under a policy that stops at [n] calls - the
    engine's limits are one - the turn comes back within [n + 1] rounds, has
    made at most [n] calls and sent at most two requests for each, and giving
    it more rounds changes nothing. *)
Theorem turn_ends n p late (a : Agent T) :
  stops_at n (turn_policy engine) →
  ∃ t r, run_user_turn (S (Z.to_nat n)) p late a = Some (t, r) ∧
    (api_calls t ≤ n `max` 0)%Z ∧
    (Z.of_nat (length (omap sent_of (trace t))) ≤ 2 * api_calls t)%Z ∧
    ∀ more, run_user_turn (S (Z.to_nat n) + more) p late a = Some (t, r).
Proof.
  intros Hstop.
  assert (∃ t r, run_user_turn (S (Z.to_nat n)) p late a = Some (t, r) ∧
    ∀ more, run_user_turn (S (Z.to_nat n) + more) p late a = Some (t, r)) as (t & r & Hrun & Hmore).
  { assert (Hmore : ∀ fuel more k t x, turn_loop fuel k t = Some x → turn_loop (fuel + more) k t = Some x).
    { induction fuel as [|fuel IH]; intros more k t x; [done|]. cbn [TurnLoop.turn_loop plus].
      destruct (round (outside k) t) as [t' [u|r]]; [apply IH|done]. }
    assert (Hb : keeps (λ t, api_calls t = 0%Z) (λ _ _, True) (begin_turn (T := T) (B := B) (D := D) p))
      by by apply begin_keeps.
    unfold TurnLoop.run_user_turn, TurnLoop.run_user_turn_inner.
    specialize (Hb (fresh_turn engine (open_turn a)) eq_refl).
    destruct (begin_turn p (fresh_turn engine (open_turn a))) as [t1 [u|r1]].
    - destruct (loop_ends n (S (Z.to_nat n)) 0 t1 Hstop) as [[t2 r2] E]; [unfold called; lia|rewrite Hb; lia|].
      exists (close_turn late t2 r2), r2. rewrite E. split; [done|]. intros more. by rewrite (Hmore _ more _ _ _ E).
    - exists (close_turn late t1 r1), r1. by split. }
  exists t, r. split; [done|]. cut (within n 0 t); [intros [? ?]; split_and!; [done|lia|done]|].
  apply (run_keeps (within n 0) (within n 0) (λ _, within n 0)) in Hrun as (t1 & Ht & ->).
  - by apply within_close.
  - split; cbn; lia.
  - by apply begin_keeps.
  - done.
  - intros k. by apply within_round.
Qed.

Lemma limits_stop l : stops_at (max_api_calls l) (limits_policy l).
Proof. intros progress Hp. cbn. by rewrite bool_decide_eq_true_2. Qed.

Lemma first_of_stops_at n ps q : q ∈ ps → stops_at n q → stops_at n (first_of ps).
Proof.
  intros Hq Hs progress Hp. cbn. apply Hs in Hp. clear Hs.
  induction Hq as [|q' ps' Hq IH] using elem_of_list_ind || induction Hq; cbn [fmap list_fmap first_stop].
  - by rewrite Hp, Hp.
  - case_match; auto.
Qed.

(** *** With clients that answer late *)

(** No retry so far, and the model is the one configured. *)
Definition unrecovered (t : turn) : Prop :=
  Forall (λ b, b.1 = false) (omap sent_of (trace t)) ∧ effective_model t = model_name engine.

Lemma unrecovered_emit (t : turn) e : sent_of e = None → unrecovered t → unrecovered (emit [e] t).
Proof.
  intros He [Hs Hm]. split; [|done]. cbn [trace emit]. rewrite omap_app. cbn. rewrite He. by rewrite app_nil_r.
Qed.

Lemma unrecovered_arrivals ms (t : turn) : unrecovered t → unrecovered (arrivals ms t).
Proof.
  apply arrivals_keep. clear. intros t m Ht. unfold arrive. destruct (offer _ _). by apply unrecovered_emit.
Qed.

Lemma unrecovered_round o :
  (∀ retry req, is_ok (answer o retry req) = true) → keeps unrecovered (λ _, unrecovered) (round o).
Proof.
  intros Hok. apply round_keeps; [by split| | |apply unrecovered_arrivals|].
  - unfold call_model, ask_model. apply keeps_bind.
    { apply keeps_modify. intros t. by apply (unrecovered_emit t (StepStart (api_calls t))). }
    intros _. apply keeps_bind; [apply keeps_gets|intros req]. apply keeps_bind; [by apply keeps_modify|intros _].
    apply (hoare_bind _ _ _ (λ answered t, unrecovered t ∧ is_ok answered = true)).
    + intros t [Hs Hm]. split; [|apply Hok]. split; [|done]. cbn [trace emit]. rewrite omap_app.
      apply Forall_app. split; [done|]. by repeat constructor.
    + intros [items|e] t [Ht Hy]; [done|by discriminate Hy].
  - intros items t [Hs Hm]. unfold read_reply. destruct (execute_stream _ _ _ _ _ _ _ _ _) as [s [res|e]]; [|done].
    unfold attach_images. case_bool_decide; (split; [|done]); unfold end_step; cbn [trace];
      rewrite omap_app; cbn; by rewrite app_nil_r.
  - intros last. apply deliver_keeps; [done|]. intros t m Ht. unfold deliver_one. by apply unrecovered_emit.
Qed.

(** Recovery is for clients that refuse at once.  When the model's stream
    is always there and an error is its first item - as with both shipped
    clients - no turn ever retries, falls back to another model or compacts
    because of a refusal. *)
Theorem late_errors_are_not_recovered fuel p late (a : Agent T) t r :
  (∀ k retry req, is_ok (answer (outside k) retry req) = true) →
  run_user_turn fuel p late a = Some (t, r) →
  (∀ retry req, Sent retry req ∈ trace t → retry = false) ∧ effective_model t = model_name engine.
Proof.
  intros Hok Hrun. apply (run_keeps unrecovered unrecovered (λ _, unrecovered)) in Hrun as (t1 & Ht & ->).
  - apply (unrecovered_arrivals late) in Ht as [Hs Hm]. unfold close_turn, close_queue, take_queued, finish_turn.
    cbn [pending_messages]. split; [|by case_bool_decide; destruct r].
    intros retry req Hin. assert (Hsent : Sent retry req ∈ trace (arrivals late t1)).
    { case_bool_decide; destruct r; cbn [trace emit on_session set_who] in Hin; set_unfold; naive_solver. }
    rewrite Forall_forall in Hs. apply (Hs (retry, req)). apply list_elem_of_omap. by exists (Sent retry req).
  - by split.
  - by apply begin_keeps.
  - done.
  - intros k. apply unrecovered_round. intros. apply Hok.
Qed.
End Whole.

(** ** A turn, evaluated *)

Section Witnesses.

#[local] Existing Instance plain_ids.
#[local] Existing Instance InMemory_store.
#[local] Existing Instance Flaky_store.
#[local] Existing Instance char_counter.

Definition sample_message (id text : string) : QueuedUserMessage :=
  Build_QueuedUserMessage (lit id) (lit text).

(** Three calls: one that asks for a tool, and two answers, a message of the
    user coming in the middle of each of the first two. *)
Definition sample_reply (k : nat) : list (bool * result ModelEvent str) :=
  (λ e, (false, Ok e)) <$>
    match k with
    | 0 => [TextDelta (lit "let me look"); ToolUseEvent (lit "c1") (lit "Read") VNull;
            Streaming.EndTurn (lit "tool_use") (Build_Usage 10 3 0 0)]
    | _ => [TextDelta (lit "done"); Streaming.EndTurn (lit "end_turn") (Build_Usage 20 2 0 5)]
    end.

Definition sample_outside (k : nat) : Outside unit unit :=
  {| clock := 5; cancelled := false; build_prompt_blocks := λ _, tt; build_tool_defs := tt;
     answer := λ _ _, Ok (sample_reply k); run_tool := λ _ _ _, Ok (Build_ToolAnswer (lit "text") None false);
     is_concurrency_safe := λ _ _, true; schedule := λ _ _, (0, false); tool_images := [];
     discontinued := false; discovered_skills := [lit "review"];
     activate_conditional_skills := λ _, [];
     sent_meanwhile := match k with
                       | 0 => [sample_message "m1" "also the tests"]
                       | 1 => [sample_message "m2" "and the docs"]
                       | _ => []
                       end;
     cancelled_after_tools := false; stop_hooks := None; notes_marked := true |}.

Definition sample_engine : Engine unit unit :=
  {| setup := sample_setup 0; turn_policy := limits_policy (limits_new 5 9 3);
     recovery_policy := default_recovery (default_recovery_new None);
     budget_policy := engine_budget None;
     scene_budget := {| scene_compact_threshold := 100000; scene_compact_keep_recent := 5 |};
     model_name := lit "main"; max_tokens := 8000; settings_fallback_model := None; provenance := None;
     intercept_request := λ r, r; intercept_reply := λ m, m |}.

Definition sample_prompt : Prompt :=
  {| blocked := None; prompt_text := lit "fix it"; prompt_attachments := []; prompt_origin := ByUser;
     skills_changed := false; skills_before := []; skills_after := []; instructions := [];
     today := []; reminder := []; retrieved := [lit "style"];
     memory_store := [Build_Recalled (lit "style") (lit "how to write") (lit "short")]; prompt_time := 4 |}.

Definition sample_turn_agent : Agent flaky_t :=
  {| core := sample_agent false; overhead := 0; invoked := []; goal := Goal_none;
     steering := SteerQueue_default; last_call_usage := None; last_had_tool_uses := true;
     session_memory := None |}.

#[local] Notation sample_run fuel :=
  (run_user_turn (DefaultCompactor (λ _ _, [])) (λ _, []) [] [] None (λ _ _ _ _, false) (λ _, None)
     (λ _, 0%Z) (λ _ _, 0) sample_engine sample_outside fuel sample_prompt
     [sample_message "m3" "too late"] sample_turn_agent).

(** What came of it: the calls, the tools, what it cost, which messages were
    read, and what the queue did with the last one. *)
Definition sample_summary (x : option (Turn flaky_t unit unit * result TurnOutcome str))
    : option (Z * Z * Usage * str * list str * list SteerAck) :=
  '(t, r) ← x;
  o ← result_ok r;
  Some (out_api_calls o, out_tool_calls o, out_total_usage o, out_stop_reason o,
    message_id <$> omap delivered_of (trace t),
    omap (λ e, match e with Acked _ ack => Some ack | _ => None end) (trace t)).

Example sample_turn_runs :
  sample_summary (sample_run 6) =
  Some (3%Z, 1%Z, Build_Usage 50 7 0 10, lit "end_turn", [lit "m1"; lit "m2"],
        [AckAccepted; AckAccepted; AckNotRunning]).
Proof. by vm_compute. Qed.

Definition sample_result : Turn flaky_t unit unit * result TurnOutcome str :=
  default (fresh_turn sample_engine sample_turn_agent, Err []) (sample_run 6).

Lemma sample_ends : sample_run 6 = Some (sample_result.1, sample_result.2).
Proof.
  assert (Hs : sample_summary (sample_run 6) ≠ None) by (rewrite sample_turn_runs; discriminate).
  unfold sample_result. revert Hs. generalize (sample_run 6).
  intros [[t r]|] Hs; [reflexivity|]. by destruct Hs.
Qed.

Lemma turn_reports_what_happened_witness :
  length (omap completion_of (trace sample_result.1)) = 1 ∧
  ∀ o, sample_result.2 = Ok o → out_tool_calls o = sum (omap tools_of (trace sample_result.1)).
Proof.
  destruct (turn_reports_what_happened _ _ _ _ _ _ _ _ _ _ _ _ _ _ _ _ _ sample_ends) as [Hc Ho].
  split; [vm_compute; reflexivity|]. intros o Hr. by destruct (Ho o Hr) as (_ & Ht & _).
Defined.

Lemma accepted_messages_are_read_or_returned_witness :
  omap accepted_of (trace sample_result.1) = omap delivered_of (trace sample_result.1) ∧
  steering (who sample_result.1) = SteerQueue_default.
Proof.
  destruct (accepted_messages_are_read_or_returned _ _ _ _ _ _ _ _ _ _ _ _ _ _ _ _ _ sample_ends) as (Hm & Hq & _).
  split; [|exact Hq]. change (pending_messages (steering sample_turn_agent)) with ([] : list QueuedUserMessage) in Hm.
  assert (Hn : mjoin (omap returned_of (trace sample_result.1)) = []) by (vm_compute; reflexivity).
  rewrite Hn, app_nil_r in Hm. exact Hm.
Defined.

Lemma requests_are_sendable_witness :
  well_paired (turn_messages sample_result.1) ∧
  length (omap sent_of (trace sample_result.1)) = 3 ∧
  ∀ req, Sent false req ∈ trace sample_result.1 → all_answered (req_messages req).
Proof.
  destruct (requests_are_sendable (DefaultCompactor (λ _ _, [])) (λ _, []) [] [] None (λ _ _ _ _, false)
    (λ _, None) (λ _, 0%Z) (λ _ _, 0) sample_engine sample_outside 6 sample_prompt
    [sample_message "m3" "too late"] sample_turn_agent sample_result.1 sample_result.2) as [Hw Hs];
    [apply _|by intros m|by intros req|done|exact sample_paired|done|exact sample_ends|].
  split; [exact Hw|]. split; [vm_compute; reflexivity|]. intros req Hin. exact (proj2 (Hs false req Hin) eq_refl).
Defined.

Lemma turn_ends_witness :
  stops_at 5 (turn_policy sample_engine) ∧ ∃ t r, sample_run 6 = Some (t, r) ∧ (api_calls t ≤ 5)%Z.
Proof.
  assert (Hs : stops_at 5 (turn_policy sample_engine)) by apply (limits_stop (limits_new 5 9 3)).
  split; [exact Hs|].
  destruct (turn_ends (DefaultCompactor (λ _ _, [])) (λ _, []) [] [] None (λ _ _ _ _, false)
    (λ _, None) (λ _, 0%Z) (λ _ _, 0) sample_engine sample_outside 5 sample_prompt
    [sample_message "m3" "too late"] sample_turn_agent Hs) as (t & r & Hr & Ha & _).
  exists t, r. split; [exact Hr|exact Ha].
Defined.

Lemma late_errors_are_not_recovered_witness :
  effective_model sample_result.1 = lit "main".
Proof.
  destruct (late_errors_are_not_recovered (DefaultCompactor (λ _ _, [])) (λ _, []) [] [] None
    (λ _ _ _ _, false) (λ _, None) (λ _, 0%Z) (λ _ _, 0) sample_engine sample_outside 6 sample_prompt
    [sample_message "m3" "too late"] sample_turn_agent sample_result.1 sample_result.2) as [_ Hm];
    [by intros k [] req|exact sample_ends|exact Hm].
Defined.

(** The user cancels while a reply is being read: the turn is completed like
    any other, with no reason, and counted. *)
Definition cancelled_outside (k : nat) : Outside unit unit :=
  {| clock := 5; cancelled := bool_decide (0 < k); build_prompt_blocks := λ _, tt; build_tool_defs := tt;
     answer := λ _ _, Ok [(false, Ok (TextDelta (lit "as I was"))); (true, Ok (TextDelta (lit " saying")))];
     run_tool := λ _ _ _, Err []; is_concurrency_safe := λ _ _, true; schedule := λ _ _, (0, false);
     tool_images := []; discontinued := false; discovered_skills := [];
     activate_conditional_skills := λ _, []; sent_meanwhile := []; cancelled_after_tools := true;
     stop_hooks := None; notes_marked := true |}.

Example cancelled_reply_completes :
  (λ '(t, r), (out_stop_reason <$> result_ok r, turn_count (session (core (who t))))) <$>
    run_user_turn (DefaultCompactor (λ _ _, [])) (λ _, []) [] [] None (λ _ _ _ _, false) (λ _, None)
      (λ _, 0%Z) (λ _ _, 0) sample_engine cancelled_outside 6 sample_prompt [] sample_turn_agent =
  Some (Some [], 1%Z).
Proof. by vm_compute. Qed.

(** The first request of a session goes out whatever its instructions and tools
    weigh: the cap is checked against the overhead of the request before. *)
Definition capped_engine : Engine unit unit :=
  {| setup := sample_setup 0; turn_policy := limits_policy (limits_new 5 9 3);
     recovery_policy := never_recover; budget_policy := Policies.capped (engine_budget None) 500;
     scene_budget := {| scene_compact_threshold := 100000; scene_compact_keep_recent := 5 |};
     model_name := lit "main"; max_tokens := 8000; settings_fallback_model := None; provenance := None;
     intercept_request := λ r, r; intercept_reply := λ m, m |}.

Example cap_sees_the_request_before :
  (λ '(t, r), (length (omap sent_of (trace t)), out_stop_reason <$> result_ok r,
               overhead (who t))) <$>
    run_user_turn (DefaultCompactor (λ _ _, [])) (λ _, []) [] [] None (λ _ _ _ _, false) (λ _, None)
      (λ _, 0%Z) (λ _ _, Z.to_nat 900) capped_engine sample_outside 6 sample_prompt [] sample_turn_agent =
  Some (1, Some (lit "context_exceeded"), Z.to_nat 900).
Proof. by vm_compute. Qed.
End Witnesses.
