(* ===== verification/Frontmatter.v ===== *)
(** * Skill files ([crates/core/src/frozen/frontmatter.rs], [skill.rs])

    A skill file is a block of [key: value] lines between two [---] lines,
    and a body.  [parse_skill_file] reads the block into a [SkillEntry];
    [expand_skill_vars_named] puts the arguments of an invocation into the
    body. *)

From stdpp Require Import base option numbers strings list.
From S2P Require Import Prelude RustStr Lines Path.

(** ** The entry *)

Inductive SkillSource := UserSkill | ProjectSkill | PluginSkill.

#[export] Instance SkillSource_eq_dec : EqDecision SkillSource.
Proof. solve_decision. Defined.

Record SkillEntry := {
  entry_name : str;
  entry_description : str;
  entry_when_to_use : option str;
  entry_source : SkillSource;
  entry_path : str;
  entry_argument_hint : option str;
  entry_allowed_tools : option (list str);
  entry_disallowed_tools : option (list str);
  entry_arguments : option (list str);
  entry_model : option str;
  entry_effort : option str;
  entry_context : option str;
  entry_agent : option str;
  entry_background : option bool;
  entry_disable_model_invocation : bool;
  entry_user_invocable : bool;
  entry_paths : option (list str);
  entry_version : option str;
  entry_files : option (list str);
  entry_hooks : option (list str);
}.

Definition SkillEntry_default : SkillEntry := {|
  entry_name := []; entry_description := []; entry_when_to_use := None;
  entry_source := UserSkill; entry_path := []; entry_argument_hint := None;
  entry_allowed_tools := None; entry_disallowed_tools := None; entry_arguments := None;
  entry_model := None; entry_effort := None; entry_context := None; entry_agent := None;
  entry_background := None; entry_disable_model_invocation := false;
  entry_user_invocable := true; entry_paths := None; entry_version := None;
  entry_files := None; entry_hooks := None
|}.

(** One assignment to a field of an entry. *)
Inductive Field :=
  | FName (v : str) | FDescription (v : str) | FWhenToUse (v : str) | FSource (v : SkillSource)
  | FPath (v : str) | FArgumentHint (v : str) | FAllowedTools (v : list str)
  | FDisallowedTools (v : list str) | FArguments (v : list str) | FModel (v : str)
  | FEffort (v : str) | FContext (v : str) | FAgent (v : str) | FBackground (v : bool)
  | FDisableModelInvocation (v : bool) | FUserInvocable (v : bool) | FPaths (v : list str)
  | FVersion (v : str) | FFiles (v : list str) | FHooks (v : list str).

Definition assign (e : SkillEntry) (f : Field) : SkillEntry := {|
  entry_name := if f is FName v then v else entry_name e;
  entry_description := if f is FDescription v then v else entry_description e;
  entry_when_to_use := if f is FWhenToUse v then Some v else entry_when_to_use e;
  entry_source := if f is FSource v then v else entry_source e;
  entry_path := if f is FPath v then v else entry_path e;
  entry_argument_hint := if f is FArgumentHint v then Some v else entry_argument_hint e;
  entry_allowed_tools := if f is FAllowedTools v then Some v else entry_allowed_tools e;
  entry_disallowed_tools := if f is FDisallowedTools v then Some v else entry_disallowed_tools e;
  entry_arguments := if f is FArguments v then Some v else entry_arguments e;
  entry_model := if f is FModel v then Some v else entry_model e;
  entry_effort := if f is FEffort v then Some v else entry_effort e;
  entry_context := if f is FContext v then Some v else entry_context e;
  entry_agent := if f is FAgent v then Some v else entry_agent e;
  entry_background := if f is FBackground v then Some v else entry_background e;
  entry_disable_model_invocation :=
    if f is FDisableModelInvocation v then v else entry_disable_model_invocation e;
  entry_user_invocable := if f is FUserInvocable v then v else entry_user_invocable e;
  entry_paths := if f is FPaths v then Some v else entry_paths e;
  entry_version := if f is FVersion v then Some v else entry_version e;
  entry_files := if f is FFiles v then Some v else entry_files e;
  entry_hooks := if f is FHooks v then Some v else entry_hooks e
|}.

(** ** Reading the block *)

(** What may follow the [---] that closes the block. *)
Definition closes (after : str) : bool :=
  match after with
  | [] => true
  | c :: _ => bool_decide (c = newline ∨ c = 32%N ∨ c = carriage_return)
  end.

(** The first closing line: what precedes it, and what starts with it. *)
Fixpoint find_closing_marker (s : str) : option (str * str) :=
  match s with
  | [] => None
  | c :: s' =>
      if match strip_prefix (newline :: lit "---") s with
         | Some after => closes after
         | None => false
         end
      then Some ([c], s')
      else match find_closing_marker s' with
           | Some (l, r) => Some (c :: l, r)
           | None => None
           end
  end.

Definition strip_newline (s : str) : str := default s (strip_prefix [newline] s).

Definition split_frontmatter (content : str) : option str * str :=
  match strip_prefix (lit "---") content with
  | None => (None, content)
  | Some after_first =>
      match find_closing_marker (strip_newline after_first) with
      | None => (None, content)
      | Some (yaml, after_close) =>
          (Some yaml, strip_newline (default after_close (strip_prefix (lit "---") after_close)))
      end
  end.

Fixpoint skip_blank (ls : list str) : list str :=
  match ls with
  | l :: ls' => if bool_decide (trim l = []) then skip_blank ls' else ls
  | [] => []
  end.

(** The lines up to the first blank one; [first] until a part is kept. *)
Fixpoint paragraph (first : bool) (ls : list str) : list str :=
  match ls with
  | [] => []
  | l :: ls =>
      let trimmed := trim l in
      if bool_decide (trimmed = []) then []
      else
        let text := if first then trim (trim_start_matches [ch "#"] trimmed) else trimmed in
        if bool_decide (text = []) then paragraph first ls else text :: paragraph false ls
  end.

Definition first_paragraph (body : str) : str :=
  join (lit " ") (paragraph true (skip_blank (lines body))).

Definition quote : char := 34%N.
Definition apostrophe : char := 39%N.

Definition strip_quotes (s : str) : str :=
  if bool_decide (2 ≤ len s) &&
     (bool_decide (head s = Some quote ∧ last s = Some quote) ||
      bool_decide (head s = Some apostrophe ∧ last s = Some apostrophe))
  then removelast (tail s) else s.

Definition no_blanks (items : list str) : list str := filter (λ i, i ≠ []) items.

Definition parse_yaml_list (raw : str) : list str :=
  let s := trim raw in
  if starts_with (lit "[") s && ends_with (lit "]") s
  then no_blanks ((λ i, strip_quotes (trim i)) <$> split (ch ",") (removelast (tail s)))
  else if contains_char (ch ",") s
  then no_blanks ((λ i, strip_quotes (trim i)) <$> split (ch ",") s)
  else if bool_decide (1 < length (split_whitespace s))
  then no_blanks (strip_quotes <$> split_whitespace s)
  else [s].

Definition one_of (names : list str) (s : str) : bool := bool_decide (s ∈ names).

Definition FALSE_WORDS : list str := [lit "false"; lit "no"; lit "0"].
Definition TRUE_WORDS : list str := [lit "true"; lit "yes"; lit "1"].

Definition field_of (key value : str) : option Field :=
  if one_of [lit "name"] key then Some (FName value)
  else if one_of [lit "description"] key then Some (FDescription value)
  else if one_of [lit "when_to_use"; lit "whenToUse"] key then Some (FWhenToUse value)
  else if one_of [lit "argument_hint"; lit "argumentHint"] key then Some (FArgumentHint value)
  else if one_of [lit "allowed_tools"; lit "allowedTools"; lit "allowed-tools"] key
  then Some (FAllowedTools (parse_yaml_list value))
  else if one_of [lit "disallowed_tools"; lit "disallowedTools"; lit "disallowed-tools"] key
  then Some (FDisallowedTools (parse_yaml_list value))
  else if one_of [lit "arguments"] key then Some (FArguments (parse_yaml_list value))
  else if one_of [lit "model"] key then Some (FModel value)
  else if one_of [lit "effort"] key then Some (FEffort value)
  else if one_of [lit "context"] key then Some (FContext value)
  else if one_of [lit "agent"] key then Some (FAgent value)
  else if one_of [lit "background"] key
  then Some (FBackground (negb (one_of FALSE_WORDS (to_lowercase value))))
  else if one_of [lit "disable_model_invocation"; lit "disableModelInvocation"] key
  then Some (FDisableModelInvocation (one_of TRUE_WORDS (to_lowercase value)))
  else if one_of [lit "user_invocable"; lit "userInvocable"] key
  then Some (FUserInvocable (negb (one_of FALSE_WORDS (to_lowercase value))))
  else if one_of [lit "paths"] key then Some (FPaths (parse_yaml_list value))
  else if one_of [lit "version"] key then Some (FVersion value)
  else if one_of [lit "files"] key then Some (FFiles (parse_yaml_list value))
  else if one_of [lit "hooks"] key then Some (FHooks (parse_yaml_list value))
  else None.

Definition read_field (e : SkillEntry) (key raw_value : str) : SkillEntry :=
  if bool_decide (raw_value = []) then e
  else
    let value := strip_quotes raw_value in
    if bool_decide (value = []) then e
    else match field_of key value with Some f => assign e f | None => e end.

Definition read_line (e : SkillEntry) (l : str) : SkillEntry :=
  let line := trim l in
  if bool_decide (line = []) || starts_with (lit "#") line then e
  else match split_once (ch ":") line with
       | Some (k, v) => read_field e (trim k) (trim v)
       | None => e
       end.

Definition parse_skill_file (content dir_name path : str) (source : SkillSource)
    : option SkillEntry :=
  let '(front, body) := split_frontmatter content in
  let entry := foldl assign SkillEntry_default [FName dir_name; FSource source; FPath path] in
  let entry := match front with
               | Some yaml => foldl read_line entry (lines yaml)
               | None => entry
               end in
  let entry := if bool_decide (entry_description entry = [])
               then assign entry (FDescription (first_paragraph body)) else entry in
  if bool_decide (entry_description entry = []) then None else Some entry.

(** ** Invoking a skill *)

(** [if out.contains(&placeholder)]: replace and remember that something was. *)
Definition substitute (placeholder value : str) (st : str * bool) : str * bool :=
  if contains placeholder st.1 then (replace placeholder value st.1, true) else st.

Definition positional (i : nat) : str := [ch "$"; (48 + N.of_nat i)%N].

(** [skill_dir] and [session_id] are what the environment says. *)
Definition expand_skill_vars_named (skill_dir session_id : option str) (body args : str)
    (arg_names : list str) : str :=
  let positions := split_whitespace args in
  let nth (i : nat) := default [] (positions !! i) in
  let st := (body, false) in
  let st := foldl (λ st p, substitute (ch "$" :: p.2) (nth p.1) st) st (enumerate arg_names) in
  let st := substitute (lit "{ARGS}") args st in
  let st := substitute (lit "$ARGUMENTS") args st in
  let st := substitute (lit "$@") args st in
  let st := foldl (λ st i, substitute (positional i) (nth (i - 1)) st) st (reverse (seq 1 9)) in
  let st := substitute (lit "${ATTA_SKILL_DIR}") (default (lit ".") skill_dir) st in
  let st := substitute (lit "${ATTA_SESSION_ID}") (default (lit "unknown") session_id) st in
  if negb st.2 && negb (bool_decide (args = []))
  then st.1 ++ [newline; newline] ++ lit "User arguments: " ++ args
  else st.1.

Definition expand_skill_vars (skill_dir session_id : option str) (body args : str) : str :=
  expand_skill_vars_named skill_dir session_id body args [].

(** ** What is written in the block is what is read *)

Definition plain_key (k : str) : Prop :=
  k ≠ [] ∧ trimmed k ∧ ch ":" ∉ k ∧ newline ∉ k ∧ head k ≠ Some (ch "#") ∧ head k ≠ Some (ch "-").

Definition plain_value (v : str) : Prop :=
  v ≠ [] ∧ trimmed v ∧ newline ∉ v ∧ strip_quotes v = v.

Definition plain_field (f : str * str) : Prop := plain_key f.1 ∧ plain_value f.2.

Definition field_line (f : str * str) : str := f.1 ++ lit ": " ++ f.2.

(** A file as it is usually written. *)
Definition skill_text (fields : list (str * str)) (body : str) : str :=
  lit "---" ++ newline :: (fields ≫= λ f, field_line f ++ [newline]) ++
  lit "---" ++ newline :: body.

Definition set_field (e : SkillEntry) (f : str * str) : SkillEntry :=
  match field_of f.1 f.2 with Some f => assign e f | None => e end.

Lemma strip_prefix_cons (a b : char) p s :
  strip_prefix (a :: p) (b :: s) = if decide (a = b) then strip_prefix p s else None.
Proof. done. Qed.

Lemma strip_prefix_other (a : char) p s : head s ≠ Some a → strip_prefix (a :: p) s = None.
Proof.
  destruct s as [|b s]; [done|]. intros Hs. rewrite strip_prefix_cons, decide_False; [done|].
  intros ->. by apply Hs.
Qed.

Lemma dashes : lit "---" = ch "-" :: lit "--".
Proof. reflexivity. Qed.

Lemma find_closing_open c s : head s ≠ Some (ch "-") ∨ c ≠ newline →
  find_closing_marker (c :: s) =
  match find_closing_marker s with Some (l, r) => Some (c :: l, r) | None => None end.
Proof.
  intros Hs. cbn [find_closing_marker].
  replace (strip_prefix _ (c :: s)) with (@None str); [done|]. symmetry.
  rewrite strip_prefix_cons. destruct (decide (newline = c)) as [<-|]; [|done].
  rewrite dashes, strip_prefix_other; [done|naive_solver].
Qed.

Lemma find_closing_line l rest : newline ∉ l → head rest ≠ Some (ch "-") →
  find_closing_marker (l ++ newline :: rest) =
  match find_closing_marker rest with
  | Some (a, b) => Some (l ++ newline :: a, b)
  | None => None
  end.
Proof.
  intros Hl Hr. induction l as [|c l IH]; cbn [app].
  - rewrite find_closing_open by auto. by destruct (find_closing_marker rest) as [[a b]|].
  - apply not_elem_of_cons in Hl as [Hc Hl]. rewrite find_closing_open, IH by (by auto).
    by destruct (find_closing_marker rest) as [[a b]|].
Qed.

Lemma find_closing_end l body : newline ∉ l →
  find_closing_marker (l ++ newline :: lit "---" ++ newline :: body) =
  Some (l ++ [newline], lit "---" ++ newline :: body).
Proof.
  intros Hl. induction l as [|c l IH]; cbn [app].
  - cbn [find_closing_marker]. rewrite strip_prefix_cons, decide_True by done.
    by rewrite strip_prefix_app.
  - apply not_elem_of_cons in Hl as [Hc Hl]. by rewrite find_closing_open, IH by auto.
Qed.

Lemma field_line_free f : plain_field f → newline ∉ field_line f ∧ head (field_line f) ≠ Some (ch "-").
Proof.
  destruct f as [k v]. unfold field_line. cbn. intros [(Hk & _ & _ & Hn & _ & Hd) (_ & _ & Hv & _)].
  split.
  - rewrite !not_elem_of_app. split_and!; [done|by_compute|done].
  - by destruct k.
Qed.

Lemma find_closing_fields fs body : fs ≠ [] → Forall plain_field fs →
  find_closing_marker ((fs ≫= λ f, field_line f ++ [newline]) ++ lit "---" ++ newline :: body) =
  Some (fs ≫= λ f, field_line f ++ [newline], lit "---" ++ newline :: body).
Proof.
  intros Hne Hfs. induction Hfs as [|f fs Hf Hfs IH]; [done|].
  apply field_line_free in Hf as [Hf _]. cbn [mbind list_bind].
  destruct fs as [|g fs].
  - cbn [mbind list_bind]. rewrite app_nil_r, <-app_assoc. by apply find_closing_end.
  - rewrite <-!app_assoc. cbn [app]. rewrite find_closing_line; [|done|].
    + by rewrite IH.
    + apply Forall_cons in Hfs as [Hg _]. apply field_line_free in Hg as [_ Hg].
      cbn [mbind list_bind]. by destruct (field_line g).
Qed.

Lemma strip_newline_cons s : strip_newline (newline :: s) = s.
Proof. done. Qed.

Lemma split_skill_text fs body : fs ≠ [] → Forall plain_field fs →
  split_frontmatter (skill_text fs body) = (Some (fs ≫= λ f, field_line f ++ [newline]), body).
Proof.
  intros Hne Hfs. unfold split_frontmatter, skill_text.
  rewrite strip_prefix_app, strip_newline_cons, find_closing_fields by done.
  by rewrite strip_prefix_app.
Qed.

Lemma lines_fields fs : Forall plain_field fs →
  lines (fs ≫= λ f, field_line f ++ [newline]) = field_line <$> fs.
Proof.
  intros Hfs. induction Hfs as [|f fs Hf Hfs IH]; [done|]. cbn [mbind list_bind].
  rewrite lines_app by (right; eauto). rewrite IH, lines_line; [done|by apply field_line_free|].
  destruct f as [k v], Hf as [_ (Hv & [_ Hc] & _ & _)]. unfold field_line. cbn in *.
  rewrite !last_app. destruct (last v) as [c|] eqn:E; [|by apply last_None in E].
  intros [= ->]. by specialize (Hc _ E).
Qed.

(** A line as it is written sets its field. *)
Lemma read_plain e f : plain_field f → read_line e (field_line f) = set_field e f.
Proof.
  destruct f as [k v]. intros [(Hk & [Hks Hke] & Hc & _ & Hh & _) (Hv & Hvt & _ & Hq)].
  cbn [fst snd] in *.
  assert (Ht : trim (field_line (k, v)) = field_line (k, v)).
  { apply trim_id. unfold field_line. cbn [fst snd]. split; intros c.
    - destruct k as [|x k]; [done|]. cbn. intros [= ->]. by apply Hks.
    - rewrite !last_app. destruct (last v) as [d|] eqn:E; [|by apply last_None in E].
      intros [= ->]. by apply (proj2 Hvt), E. }
  unfold read_line. rewrite Ht. unfold field_line. cbn [fst snd].
  rewrite bool_decide_eq_false_2 by (by destruct k).
  replace (starts_with _ _) with false; cycle 1.
  { symmetry. apply not_true_iff_false. rewrite starts_with_spec.
    intros [r Hr]. apply Hh. destruct k; [done|]. by injection Hr as ->. }
  replace (lit ": " ++ v) with (ch ":" :: 32%N :: v) by done.
  rewrite (proj2 (split_once_Some _ _ _ _)) by done. cbn [orb].
  rewrite (trim_id k) by done.
  change (trim (32%N :: v)) with (trim v). rewrite (trim_id v) by done.
  unfold read_field, set_field. cbn [fst snd]. by rewrite Hq, !bool_decide_eq_false_2 by done.
Qed.

Definition base_entry (dir_name path : str) (source : SkillSource) : SkillEntry :=
  foldl assign SkillEntry_default [FName dir_name; FSource source; FPath path].

(** A skill file reads back as what was written in it: the entry starts from
    the directory's name, each line sets its field in the order of the lines,
    unknown keys set nothing, and a description that is missing is the first
    paragraph of the body; with neither, the file is no skill. *)
Theorem frontmatter_is_read fs body dir_name path source :
  fs ≠ [] → Forall plain_field fs →
  let e := foldl set_field (base_entry dir_name path source) fs in
  let e := if decide (entry_description e = [])
           then assign e (FDescription (first_paragraph body)) else e in
  parse_skill_file (skill_text fs body) dir_name path source =
  if decide (entry_description e = []) then None else Some e.
Proof.
  intros Hne Hfs. unfold parse_skill_file. rewrite split_skill_text by done.
  rewrite lines_fields by done. fold (base_entry dir_name path source).
  replace (foldl read_line (base_entry dir_name path source) (field_line <$> fs))
    with (foldl set_field (base_entry dir_name path source) fs).
  - cbn zeta. set (e := foldl set_field _ fs). clearbody e.
    destruct (decide (entry_description e = [])) as [E|E];
      [rewrite (bool_decide_eq_true_2 (entry_description e = [])) by done
      |rewrite (bool_decide_eq_false_2 (entry_description e = [])) by done];
      case_bool_decide; case_decide; done.
  - generalize (base_entry dir_name path source) as e. clear Hne.
    induction Hfs as [|f fs Hf Hfs IH]; intros e; [done|].
    cbn [fmap list_fmap foldl]. rewrite read_plain by done. apply IH.
Qed.

(** ** What becomes of the arguments *)

Definition unmarked (s : str) : Prop := ch "$" ∉ s ∧ ch "{" ∉ s.

Lemma unmarked_app s t : unmarked s → unmarked t → unmarked (s ++ t).
Proof. unfold unmarked. rewrite !not_elem_of_app. tauto. Qed.

Lemma replace_fuel_once n c p to l r : length (l ++ (c :: p) ++ r) ≤ n →
  c ∉ l → c ∉ r → replace_fuel n (c :: p) to (l ++ (c :: p) ++ r) = l ++ to ++ r.
Proof.
  revert n. induction l as [|x l IH]; intros [|n] Hn Hl Hr; simpl in Hn; try lia.
  - cbn [app replace_fuel].
    change (c :: p ++ r) with ((c :: p) ++ r). rewrite strip_prefix_app.
    by rewrite (replace_fuel_absent n _ to r c).
  - apply not_elem_of_cons in Hl as [Hx Hl]. cbn [app replace_fuel].
    rewrite strip_prefix_cons, decide_False by done. f_equal.
    apply IH; [|done..]. simpl. lia.
Qed.

Lemma substitute_once c p to l r b : c ∉ l → c ∉ r →
  substitute (c :: p) to (l ++ (c :: p) ++ r, b) = (l ++ to ++ r, true).
Proof.
  intros Hl Hr. unfold substitute. cbn [fst].
  replace (contains _ _) with true by (symmetry; apply contains_spec; eauto).
  unfold replace. by rewrite replace_fuel_once.
Qed.

Lemma substitute_absent c p to s b : c ∉ s → substitute (c :: p) to (s, b) = (s, b).
Proof.
  intros Hs. unfold substitute. cbn [fst]. replace (contains _ _) with false; [done|].
  symmetry. apply not_true_iff_false. rewrite contains_spec. intros (l & r & ->). apply Hs.
  rewrite !elem_of_app, elem_of_cons. auto.
Qed.

Lemma positional_absent f s b js : ch "$" ∉ s →
  foldl (λ st i, substitute (positional i) (f i) st) (s, b) js = (s, b).
Proof.
  intros Hs. induction js as [|j js IH]; [done|]. cbn [foldl]. unfold positional at 2.
  by rewrite substitute_absent.
Qed.

(** Arguments go where the body asks for them, and after the body when it
    does not. *)
Lemma arguments_are_expanded skill_dir session_id l r args :
  unmarked l → unmarked r → unmarked args →
  expand_skill_vars skill_dir session_id (l ++ lit "$ARGUMENTS" ++ r) args = l ++ args ++ r ∧
  expand_skill_vars skill_dir session_id (l ++ r) args =
    l ++ r ++ (if decide (args = []) then []
               else [newline; newline] ++ lit "User arguments: " ++ args).
Proof.
  intros [Hl Hl'] [Hr Hr'] [Ha Ha'].
  unfold expand_skill_vars, expand_skill_vars_named. cbn [enumerate imap foldl].
  change (lit "{ARGS}") with (ch "{" :: lit "ARGS}").
  change (lit "$ARGUMENTS") with (ch "$" :: lit "ARGUMENTS").
  change (lit "$@") with (ch "$" :: lit "@").
  change (lit "${ATTA_SKILL_DIR}") with (ch "$" :: lit "{ATTA_SKILL_DIR}").
  change (lit "${ATTA_SESSION_ID}") with (ch "$" :: lit "{ATTA_SESSION_ID}").
  assert (ch "{" ∉ ch "$" :: lit "ARGUMENTS") by by_compute.
  assert (ch "$" ∉ l ++ args ++ r) by (rewrite !not_elem_of_app; tauto).
  assert (ch "$" ∉ l ++ r) by (rewrite !not_elem_of_app; tauto).
  split.
  - rewrite substitute_absent by (rewrite !not_elem_of_app; tauto).
    rewrite substitute_once, substitute_absent, positional_absent, !substitute_absent by done.
    done.
  - rewrite substitute_absent by (rewrite !not_elem_of_app; tauto).
    rewrite !substitute_absent, positional_absent, !substitute_absent by done. cbn [fst snd negb andb].
    case_bool_decide; [by rewrite decide_True, app_nil_r by done|].
    by rewrite decide_False, <-app_assoc by done.
Qed.

(** What the passes do to each other: a name is replaced inside a longer one,
    [$1] inside [$10], and what an argument says is expanded again. *)
Definition expanded (body args : string) (names : list string) : str :=
  expand_skill_vars_named None None (lit body) (lit args) (lit <$> names).

Example names_hide_longer_names :
  expanded "$file_type" "a b" ["file"; "file_type"] = lit "a_type".
Proof. vm_compute. reflexivity. Qed.

Example one_hides_ten : expanded "item $10" "a" [] = lit "item a0".
Proof. vm_compute. reflexivity. Qed.

Example arguments_are_expanded_again :
  expanded "Summarize: $ARGUMENTS" "costs $1 now" [] = lit "Summarize: costs costs now".
Proof. vm_compute. reflexivity. Qed.

Example missing_arguments_are_empty : expanded "<$2>" "a" [] = lit "<>".
Proof. vm_compute. reflexivity. Qed.

(** Quotes around the items of a list without brackets are halved. *)
Example quoted_items_keep_a_quote :
  entry_allowed_tools <$>
    parse_skill_file (lit "---" ++ newline :: lit "description: d" ++ newline ::
      lit "allowed-tools: " ++ quote :: lit "Read" ++ quote :: lit ", " ++ quote :: lit "Bash" ++
      quote :: newline :: lit "---" ++ newline :: []) [] [] UserSkill
  = Some (Some [lit "Read" ++ [quote]; quote :: lit "Bash"]).
Proof. vm_compute. reflexivity. Qed.

(** A block without lines is not one: the closing line is searched for after
    a line break the opening line has already taken. *)
Example empty_block_is_body :
  split_frontmatter (lit "---" ++ newline :: lit "---" ++ newline :: lit "body") =
  (None, lit "---" ++ newline :: lit "---" ++ newline :: lit "body").
Proof. vm_compute. reflexivity. Qed.

Lemma trimmed_ok s : head_ok (head s) = true → head_ok (last s) = true → trimmed s.
Proof. by rewrite !head_ok_spec. Qed.

Definition sample_fields : list (str * str) :=
  [(lit "name", lit "review"); (lit "allowed-tools", lit "Read, Grep"); (lit "owner", lit "me")].

Lemma frontmatter_is_read_witness :
  parse_skill_file (skill_text sample_fields (lit "# Review the code")) (lit "code-review")
    (lit "/p/SKILL.md") ProjectSkill =
  Some (foldl assign (base_entry (lit "code-review") (lit "/p/SKILL.md") ProjectSkill)
    [FName (lit "review"); FAllowedTools [lit "Read"; lit "Grep"];
     FDescription (lit "Review the code")]).
Proof.
  rewrite frontmatter_is_read.
  - vm_compute. reflexivity.
  - done.
  - unfold sample_fields. rewrite !Forall_cons, Forall_nil.
    unfold plain_field, plain_key, plain_value. cbn [fst snd].
    split_and!; first [exact I | by_compute | apply trimmed_ok; vm_compute; reflexivity
                      | vm_compute; reflexivity].
Defined.
