(* ===== verification/Skills.v ===== *)
(** * Skills ([crates/skills/src/]: [manager.rs], [sources.rs], [watcher.rs],
      [mcp_builder.rs], [bundled.rs]; [core/src/interface/skill_provider.rs];
      [build_skill_manager] of [runtime/src/agent.rs])

    A catalog of skills filled from sources: three directory tiers, the
    skills compiled in, the tools of MCP servers, and what a host brings.  A
    watcher logs changed files; every manager reads the log at its own pace.

    The disk is the record [Disk]: what the calls of the standard library
    answer.  The texts of the compiled-in skills and the printing of JSON are
    parameters.  A hash map's values come in an order the code does not
    choose; [catalog_values] fixes one. *)

From stdpp Require Import base option numbers strings gmap list sorting.
From S2P Require Import Prelude RustStr Lines PermTypes Path Frontmatter.

(** ** The disk *)

Record Disk := {
  read_dir : str → option (list str);
  path_is_dir : str → bool;
  path_is_file : str → bool;
  read_to_string : str → option str;
  path_canonicalize : str → option str;
  path_exists : str → bool;
}.

(** ** What the catalog holds *)

Record SkillInfo := {
  info_name : str;
  info_description : str;
  info_when_to_use : option str;
  info_source : SkillSource;
  info_path : str;
  info_allowed_tools : option (list str);
  info_disallowed_tools : option (list str);
  info_arguments : option (list str);
  info_model : option str;
  info_effort : option str;
  info_context : option str;
  info_agent : option str;
  info_background : option bool;
  info_argument_hint : option str;
  info_paths : option (list str);
  info_disable_model_invocation : bool;
  info_user_invocable : bool;
  info_version : option str;
}.

Definition info_of (e : SkillEntry) : SkillInfo := {|
  info_name := entry_name e; info_description := entry_description e;
  info_when_to_use := entry_when_to_use e; info_source := entry_source e;
  info_path := entry_path e; info_allowed_tools := entry_allowed_tools e;
  info_disallowed_tools := entry_disallowed_tools e; info_arguments := entry_arguments e;
  info_model := entry_model e; info_effort := entry_effort e; info_context := entry_context e;
  info_agent := entry_agent e; info_background := entry_background e;
  info_argument_hint := entry_argument_hint e; info_paths := entry_paths e;
  info_disable_model_invocation := entry_disable_model_invocation e;
  info_user_invocable := entry_user_invocable e; info_version := entry_version e
|}.

Record ToolDef := {
  tool_name : str;
  tool_description : str;
  tool_input_schema : value;
}.

(** ** Sources *)

Inductive SkillPrecedence := Override | Fallback.

#[export] Instance SkillPrecedence_eq_dec : EqDecision SkillPrecedence.
Proof. solve_decision. Defined.

(** The disk, and the table of MCP bodies the whole process shares. *)
Record Env := {
  disk : Disk;
  mcp_bodies : gmap str str;
}.

Record SkillProvider := {
  provider_id : str;
  precedence : SkillPrecedence;
  provider_skills : Env → Env * list SkillEntry;
  provider_body : Env → str → option str;
}.

Definition parse_at_path (d : Disk) (path dir_name : str) (tier : SkillSource) : option SkillEntry :=
  content ← read_to_string d path;
  parse_skill_file content dir_name path tier.

(** One entry of a skill directory. *)
Definition directory_skill (nested : bool) (tier : SkillSource) (d : Disk) (path : str)
    : option SkillEntry :=
  if nested && path_is_dir d path then
    let skill_md := path_join path (lit "SKILL.md") in
    if path_is_file d skill_md
    then parse_at_path d skill_md (default (lit "unknown") (file_name path)) tier
    else None
  else if bool_decide (extension path = Some (lit "md")) then
    name ← file_stem path;
    parse_at_path d path name tier
  else None.

Definition directory_skills (dir : str) (nested : bool) (tier : SkillSource) (d : Disk)
    : list SkillEntry :=
  match read_dir d dir with
  | Some entries => omap (directory_skill nested tier d) entries
  | None => []
  end.

Definition SkillDirectory (dir : str) (tier : SkillSource) (nested : bool) : SkillProvider := {|
  provider_id := lit "dir:" ++ dir;
  precedence := Override;
  provider_skills env := (env, directory_skills dir nested tier (disk env));
  provider_body _ _ := None
|}.

Definition tier_directory (dir : str) (tier : SkillSource) : SkillProvider :=
  SkillDirectory dir tier true.

Definition flat_directory (dir : str) (tier : SkillSource) : SkillProvider :=
  SkillDirectory dir tier false.

Definition bundled (name description when_to_use : string) : SkillEntry :=
  foldl assign SkillEntry_default
    [FName (lit name); FDescription (lit description); FWhenToUse (lit when_to_use);
     FSource UserSkill; FPath (lit "(bundled:" ++ lit name ++ lit ")")].

Definition bundled_skills : list SkillEntry :=
  [bundled "simplify"
     "Review changed code for reuse, quality, and efficiency; then fix what's found."
     "After making non-trivial changes; before opening a PR.";
   bundled "verify"
     "Verify a change does what it should by running the app and exercising the new path."
     "After implementing a feature/fix; before reporting it as done.";
   bundled "debug"
     "Diagnose a bug or failing test by gathering evidence before forming a hypothesis."
     "When something is broken or behaving unexpectedly.";
   bundled "batch"
     "Plan a sweeping mechanical change (rename, refactor, migration) and run it in parallel worktree-isolated agents."
     "When the change is mechanical, decomposable, and affects many files.";
   bundled "stuck"
     "When you're not making progress: stop, write down what you know, what you've tried, what you'd try next, and ask the user for direction."
     "After 3+ failed attempts at the same goal; when going in circles.";
   bundled "loop"
     "Run a prompt or task on a recurring interval (poll status / monitor process)."
     "When the user asks to keep running something every N minutes, watch a build, etc.";
   bundled "loremIpsum"
     "Generate placeholder text of a requested length / structure for prototypes."
     "When prototyping UI / docs and any placeholder text will do.";
   bundled "remember"
     "Save a fact / preference / decision to cross-session memory (~/.atta/memory)."
     "When the user explicitly asks to remember something, or you learn a stable preference.";
   bundled "skillify"
     "Turn a recently-executed workflow into a reusable SKILL.md."
     "After a multi-step task that the user might run again — capture the playbook.";
   bundled "updateConfig"
     "Make a precise edit to settings.json (permissions / hooks / mcp_servers) with backup."
     "When the user wants to add a permission rule, register a hook, or wire an MCP server.";
   bundled "keybindings-help"
     "Show keyboard shortcuts and key bindings reference for the CLI/TUI."
     "When the user asks about keyboard shortcuts, key bindings, or how to navigate the CLI/TUI.";
   bundled "init"
     "Guide the user through initializing a new AGENTS.md file for a project."
     "When starting a new project that lacks documentation, or when the user asks to create an AGENTS.md.";
   bundled "security-review"
     "Review pending code changes for security vulnerabilities and report findings."
     "Before opening a PR or merging; when handling secrets, auth, crypto, or user-supplied data.";
   bundled "rename"
     "Rename the current conversation session with a descriptive title."
     "When the user says 'rename this session' or 'give this conversation a title'.";
   bundled "import"
     "Detect and import configuration from Claude Code, Codex, or Cursor into this project's AGENTS.md/.agents/.atta layout."
     "When the user asks to import/migrate settings from Claude Code, Codex, or Cursor, or runs /import."].

Definition bundled_names : list str := entry_name <$> bundled_skills.

(** A fixed list of skills held in memory. *)
Definition StaticSkills (id : str) (entries : list SkillEntry) (bodies : gmap str str)
    (precedence : SkillPrecedence) : SkillProvider := {|
  provider_id := id;
  precedence := precedence;
  provider_skills env := (env, entries);
  provider_body _ name := bodies !! name
|}.

Section Skills.
Context (bundled_text : str → str) (to_string_pretty : value → str).

Definition bundled_body (name : str) : option str :=
  if bool_decide (name ∈ bundled_names) then Some (bundled_text name) else None.

Definition BundledSkills : SkillProvider := {|
  provider_id := lit "bundled";
  precedence := Fallback;
  provider_skills env := (env, bundled_skills);
  provider_body _ name := bundled_body name
|}.

Definition para (ls : list str) : str := ls ≫= λ l, l ++ [newline].

Definition build_tool_prompt (server : str) (t : ToolDef) : str :=
  para [lit "# MCP Tool: " ++ server ++ lit " / " ++ tool_name t; []; tool_description t; [];
        lit "## Usage"; [];
        lit "This tool is provided by the **" ++ server ++ lit "** MCP server. Invoke it by";
        lit "calling the MCP server's `" ++ tool_name t ++
          lit "` tool with the appropriate arguments."; [];
        lit "## Input Schema"; []; lit "```json"; to_string_pretty (tool_input_schema t);
        lit "```"; []; lit "## Convention"; [];
        lit "When using this tool, construct a valid JSON object matching the input schema";
        lit "above. Pass it as the arguments for the `" ++ tool_name t ++ lit "` tool."].

Definition mcp_skill_name (server : str) (t : ToolDef) : str :=
  lit "mcp__" ++ server ++ lit "__" ++ tool_name t.

Definition mcp_entry (server : str) (t : ToolDef) : SkillEntry :=
  foldl assign SkillEntry_default
    [FName (mcp_skill_name server t); FDescription (tool_description t); FSource PluginSkill;
     FPath (lit "(mcp:" ++ server ++ lit ":" ++ tool_name t ++ lit ")"); FUserInvocable true].

Definition build_skills_from_mcp (server : str) (tools : list ToolDef) (env : Env)
    : Env * list SkillEntry :=
  (Build_Env (disk env)
     (foldl (λ bodies t, <[mcp_skill_name server t := build_tool_prompt server t]> bodies)
        (mcp_bodies env) tools),
   mcp_entry server <$> tools).

Definition mcp_skill_body (env : Env) (name : str) : option str := mcp_bodies env !! name.

Definition McpSkills (server : str) (tools : list ToolDef) : SkillProvider := {|
  provider_id := lit "mcp:" ++ server;
  precedence := Fallback;
  provider_skills := build_skills_from_mcp server tools;
  provider_body := mcp_skill_body
|}.

(** ** The manager *)

Record InvocationStats := {
  count : Z;
  last_seq : Z;
}.

Definition InvocationStats_default : InvocationStats := Build_InvocationStats 0 0.

Record SkillManager := {
  skills : gmap str SkillInfo;
  watching : bool;
  watcher_last_seen : Z;
  invocation_stats : gmap str InvocationStats;
  invocation_seq : Z;
  providers : list SkillProvider;
}.

Definition SkillManager_new : SkillManager := Build_SkillManager ∅ false 0 ∅ 0 [].

Definition set_skills (s : gmap str SkillInfo) (m : SkillManager) : SkillManager :=
  Build_SkillManager s (watching m) (watcher_last_seen m) (invocation_stats m)
    (invocation_seq m) (providers m).

Definition set_last_seen (n : Z) (m : SkillManager) : SkillManager :=
  Build_SkillManager (skills m) (watching m) n (invocation_stats m) (invocation_seq m)
    (providers m).

Definition record_invocation (name : str) (m : SkillManager) : SkillManager :=
  let seq := (invocation_seq m + 1)%Z in
  let entry := default InvocationStats_default (invocation_stats m !! name) in
  Build_SkillManager (skills m) (watching m) (watcher_last_seen m)
    (<[name := Build_InvocationStats (count entry + 1) seq]> (invocation_stats m)) seq
    (providers m).

Definition invocation_count (m : SkillManager) (name : str) : Z :=
  from_option count 0%Z (invocation_stats m !! name).

Definition last_invoked_seq (m : SkillManager) (name : str) : Z :=
  from_option last_seq 0%Z (invocation_stats m !! name).

(** One entry of a source; the number counts those taken. *)
Definition load_entry (overrides : bool) (st : gmap str SkillInfo * nat) (e : SkillEntry)
    : gmap str SkillInfo * nat :=
  let '(cat, n) := st in
  match cat !! entry_name e with
  | None => (<[entry_name e := info_of e]> cat, S n)
  | Some _ => if overrides then (<[entry_name e := info_of e]> cat, S n) else (cat, n)
  end.

Definition load_from (p : SkillProvider) (env : Env) (m : SkillManager)
    : Env * SkillManager * nat :=
  let '(env, entries) := provider_skills p env in
  let '(cat, n) :=
    foldl (load_entry (bool_decide (precedence p = Override))) (skills m, 0) entries in
  (env,
   Build_SkillManager cat (watching m) (watcher_last_seen m) (invocation_stats m)
     (invocation_seq m) (providers m ++ [p]), n).

Definition load_dir (dir : str) (source : SkillSource) := load_from (flat_directory dir source).

Definition load_dir_subdirs (dir : str) (source : SkillSource) :=
  load_from (tier_directory dir source).

Definition register_mcp_skills (server : str) (tools : list ToolDef) :=
  load_from (McpSkills server tools).

Definition replace_catalog (fresh m : SkillManager) : SkillManager :=
  Build_SkillManager (skills fresh) (watching m) (watcher_last_seen m) (invocation_stats m)
    (invocation_seq m) (providers fresh).

Definition register_bundled (e : SkillEntry) (m : SkillManager) : SkillManager :=
  match skills m !! entry_name e with
  | Some _ => m
  | None => set_skills (<[entry_name e := info_of e]> (skills m)) m
  end.

(** The map's values, in its iteration order. *)
Definition catalog_values (m : SkillManager) : list SkillInfo := (map_to_list (skills m)).*2.

Definition by_name (a b : SkillInfo) : Prop := str_order (info_name a) (info_name b).

#[export] Instance by_name_dec a b : Decision (by_name a b).
Proof. unfold by_name. apply _. Defined.

Definition list_skills (m : SkillManager) : list SkillInfo :=
  merge_sort by_name (catalog_values m).

Definition get (m : SkillManager) (name : str) : option SkillInfo := skills m !! name.

Definition get_skill_content (env : Env) (m : SkillManager) (name : str) : option str :=
  info ← get m name;
  if starts_with (lit "(bundled:") (info_path info) then bundled_body name
  else if starts_with (lit "(mcp:") (info_path info) then mcp_skill_body env name
  else match find_map (λ p, provider_body p env name) (reverse (providers m)) with
       | Some body => Some body
       | None => read_to_string (disk env) (info_path info)
       end.

Definition expand_skill (env : Env) (m : SkillManager) (name args : str) : option str :=
  content ← get_skill_content env m name;
  Some (replace (lit "{args}") args content).

Definition build_skills_prompt (m : SkillManager) : option str :=
  let l := list_skills m in
  if bool_decide (l = []) then None
  else Some (lit "## Available Skills" ++ [newline; newline] ++
             (l ≫= λ s, lit "- **" ++ info_name s ++ lit "**: " ++ info_description s ++ [newline])).

(** Patterns that do not parse are left out. *)
Definition skill_glob `{Globset} (patterns : list str) : list (str → bool) :=
  omap (λ p, glob_new true (default p (strip_prefix (lit "/") p))) patterns.

Definition activated `{Globset} (file_paths : list str) (info : SkillInfo) : bool :=
  match info_paths info with
  | None | Some [] => false
  | Some patterns => existsb (λ fp, existsb (λ g, g fp) (skill_glob patterns)) file_paths
  end.

Definition activate_conditional_skills_for_paths `{Globset} (m : SkillManager)
    (file_paths : list str) : list SkillInfo :=
  if bool_decide (file_paths = []) then []
  else filter (λ info, activated file_paths info = true) (catalog_values m).

(** *** Discovery from the paths a turn touched *)

Definition load_skill_at_path (d : Disk) (path dir_name : str) (source : SkillSource)
    : option SkillInfo :=
  content ← read_to_string d path;
  info_of <$> parse_skill_file content dir_name path source.

Definition discovered_at (d : Disk) (p : str) : option SkillInfo :=
  if path_is_dir d p then
    let skill_md := path_join p (lit "SKILL.md") in
    if path_is_file d skill_md
    then load_skill_at_path d skill_md (default (lit "unknown") (file_name p)) ProjectSkill
    else None
  else None.

(** From a directory up to the root; a path has fewer ancestors than
    components, and one unit of fuel for each is enough. *)
Fixpoint discover_up (fuel : nat) (d : Disk) (current : str) (st : list SkillInfo * list str)
    : list SkillInfo * list str :=
  let '(found, seen_dirs) := st in
  let candidate := path_join current (lit "skills") in
  let st := if path_is_dir d candidate && negb (bool_decide (candidate ∈ seen_dirs))
            then (found ++ match read_dir d candidate with
                           | Some entries => omap (discovered_at d) entries
                           | None => []
                           end, candidate :: seen_dirs)
            else (found, seen_dirs) in
  match fuel, parent current with
  | S fuel, Some p => if path_eqb p current then st else discover_up fuel d p st
  | _, _ => st
  end.

Definition discover_for_paths (d : Disk) (paths : list str) : list SkillInfo :=
  (foldl (λ st path,
     let current := if path_is_dir d path then path else default (lit ".") (parent path) in
     discover_up (length (components current)) d current st) ([], []) paths).1.

(** *** Reloading *)

(** The nearest ancestor that exists, canonical, with the rest put back. *)
Fixpoint canonicalize_up (fuel : nat) (d : Disk) (p : str) (suffix : list str) (cur : str) : str :=
  match path_canonicalize d cur with
  | Some canon => foldl path_join canon suffix
  | None =>
      match fuel, file_name cur, parent cur with
      | S fuel, Some name, Some up => canonicalize_up fuel d p (name :: suffix) up
      | _, _, _ => p
      end
  end.

Definition canonicalize_lossy (d : Disk) (p : str) : str :=
  canonicalize_up (length (components p)) d p [] p.

Definition skill_name_at (path : str) : result str str :=
  if bool_decide (file_name path = Some (lit "SKILL.md")) then
    match parent path ≫= file_name with
    | Some name => Ok name
    | None => Err (lit "Cannot determine skill name: " ++ path)
    end
  else if bool_decide (extension path = Some (lit "md")) then
    match file_stem path with
    | Some name => Ok name
    | None => Err (lit "Cannot determine skill name: " ++ path)
    end
  else Err (lit "Not a skill file: " ++ path).

Definition reload_skill (d : Disk) (path : str) (m : SkillManager) : SkillManager * result unit str :=
  if negb (path_exists d path) then
    let target := canonicalize_lossy d path in
    (set_skills (filter (λ kv, canonicalize_lossy d (info_path kv.2) ≠ target) (skills m)) m, Ok tt)
  else
    match skill_name_at path with
    | Err e => (m, Err e)
    | Ok name =>
        let source := from_option info_source UserSkill (skills m !! name) in
        match read_to_string d path with
        | None => (m, Err (lit "Failed to read skill: " ++ path))
        | Some content =>
            match parse_skill_file content name path source with
            | None => (m, Err (lit "Failed to parse skill file: " ++ path))
            | Some e => (set_skills (<[name := info_of e]> (skills m)) m, Ok tt)
            end
        end
    end.

(** ** The watcher *)

(** The shared log: each batch of changes has its generation. *)
Record ChangeLog := {
  generation : Z;
  changes : list (Z * str);
}.

Definition ChangeLog_new : ChangeLog := Build_ChangeLog 0 [].

Definition is_skill_file (p : str) : bool := bool_decide (extension p = Some (lit "md")).

(** What the watcher's thread does with one event. *)
Definition log_event (paths : list str) (l : ChangeLog) : ChangeLog :=
  let skill_changes := filter (λ p, is_skill_file p = true) paths in
  if bool_decide (skill_changes = []) then l
  else
    let gen := (generation l + 1)%Z in
    Build_ChangeLog gen (changes l ++ (pair gen <$> skill_changes)).

(** [Vec::dedup]: runs of equal elements become one. *)
Fixpoint dedup (l : list str) : list str :=
  match l with
  | x :: (y :: _) as l' => if bool_decide (x = y) then dedup l' else x :: dedup l'
  | _ => l
  end.

Definition changed_since (since : Z) (l : ChangeLog) : list str :=
  (filter (λ c, (since < c.1)%Z) (changes l)).*2.

Definition check_and_reload_since (d : Disk) (l : ChangeLog) (m : SkillManager)
    : SkillManager * nat :=
  let since := watcher_last_seen m in
  if bool_decide (generation l ≤ since)%Z then (m, 0)
  else
    let paths := dedup (changed_since since l) in
    let '(m, n) :=
      foldl (λ '(m, n) path,
        let '(m, r) := reload_skill d path m in
        (m, if is_ok r then S n else n)) (m, 0) paths in
    (set_last_seen (generation l) m, n).

Definition check_for_changes (d : Disk) (l : ChangeLog) (m : SkillManager) : SkillManager * nat :=
  if watching m then check_and_reload_since d l m else (m, 0).

(** A watcher of its own, with an empty log. *)
Definition enable_watching (m : SkillManager) : SkillManager :=
  Build_SkillManager (skills m) true 0 (invocation_stats m) (invocation_seq m) (providers m).

Definition attach_watcher (l : ChangeLog) (m : SkillManager) : SkillManager :=
  Build_SkillManager (skills m) true (generation l) (invocation_stats m) (invocation_seq m)
    (providers m).

(** ** The engine's catalog *)

Record SkillDirs := {
  global_skills : str;
  scene_skills : str;
  project_skills : str;
}.

Definition tiers (dirs : SkillDirs) : list SkillProvider :=
  [tier_directory (global_skills dirs) UserSkill;
   tier_directory (scene_skills dirs) UserSkill;
   tier_directory (project_skills dirs) ProjectSkill].

Definition load_all (ps : list SkillProvider) (env : Env) (m : SkillManager) : Env * SkillManager :=
  foldl (λ '(env, m) p, (load_from p env m).1) (env, m) ps.

Definition build_skill_manager (dirs : SkillDirs) (env : Env) : Env * SkillManager :=
  load_all (tiers dirs ++ [BundledSkills]) env SkillManager_new.
End Skills.

(** ** Which source a skill comes from *)

Definition named (n : str) (es : list SkillEntry) : list SkillEntry :=
  filter (λ e, entry_name e = n) es.

Lemma named_snoc n es e :
  named n (es ++ [e]) = named n es ++ (if decide (entry_name e = n) then [e] else []).
Proof.
  unfold named. by rewrite filter_app.
Qed.

Lemma load_override n cat k es :
  (foldl (load_entry true) (cat, k) es).1 !! n =
  match last (named n es) with Some e => Some (info_of e) | None => cat !! n end.
Proof.
  induction es as [|e es IH] using rev_ind; [done|].
  rewrite foldl_snoc, named_snoc, last_app. revert IH.
  destruct (foldl _ _ es) as [cat' k']. cbn [fst load_entry]. intros IH.
  replace (match cat' !! entry_name e with Some _ => _ | None => _ end)
    with (<[entry_name e := info_of e]> cat', S k') by (by destruct (cat' !! entry_name e)).
  cbn [fst]. destruct (decide (entry_name e = n)) as [<-|Hn]; cbn [last].
  - by rewrite lookup_insert_eq.
  - by rewrite lookup_insert_ne.
Qed.

Lemma load_fallback n cat k es :
  (foldl (load_entry false) (cat, k) es).1 !! n =
  match cat !! n with Some i => Some i | None => info_of <$> head (named n es) end.
Proof.
  induction es as [|e es IH] using rev_ind; [cbn; by destruct (cat !! n)|].
  rewrite foldl_snoc, named_snoc. revert IH.
  destruct (foldl _ _ es) as [cat' k']. cbn [fst load_entry]. intros IH.
  assert (Hh : ∀ l : list SkillEntry, head (l ++ (if decide (entry_name e = n) then [e] else [])) =
            match head l with
            | Some x => Some x
            | None => if decide (entry_name e = n) then Some e else None
            end) by (intros [|x l]; [by destruct (decide _)|done]).
  rewrite Hh. clear Hh.
  destruct (cat' !! entry_name e) as [i|] eqn:E; cbn [fst].
  - rewrite IH. destruct (cat !! n) eqn:En; [done|].
    destruct (head (named n es)) eqn:Eh; [done|].
    rewrite decide_False; [done|]. intros <-. rewrite E in IH. done.
  - destruct (decide (entry_name e = n)) as [<-|Hn].
    + rewrite lookup_insert_eq. rewrite E in IH. destruct (cat !! entry_name e); [done|].
      by destruct (head (named _ es)).
    + rewrite lookup_insert_ne, IH by done. destruct (cat !! n); [done|].
      by destruct (head (named n es)).
Qed.

(** Every key is its skill's own name. *)
Definition keyed (cat : gmap str SkillInfo) : Prop := map_Forall (λ k i, info_name i = k) cat.

Lemma keyed_insert cat e : keyed cat → keyed (<[entry_name e := info_of e]> cat).
Proof. intros Hk. by apply map_Forall_insert_2. Qed.

Lemma load_keyed b es cat k : keyed cat → keyed (foldl (load_entry b) (cat, k) es).1.
Proof.
  revert cat k. induction es as [|e es IH]; intros cat k Hk; [done|]. cbn [foldl load_entry].
  repeat case_match; apply IH; auto using keyed_insert.
Qed.

Lemma load_from_keyed p env m : keyed (skills m) → keyed (skills (load_from p env m).1.2).
Proof.
  intros Hk. unfold load_from. destruct (provider_skills p env) as [env' es].
  pose proof (load_keyed (bool_decide (precedence p = Override)) es (skills m) 0 Hk) as H.
  by destruct (foldl _ _ es).
Qed.

Definition tier_skills (dir : str) (tier : SkillSource) (env : Env) : list SkillEntry :=
  directory_skills dir true tier (disk env).

Lemma load_from_pure p env m es n : provider_skills p env = (env, es) →
  let '(env', m', _) := load_from p env m in
  env' = env ∧ providers m' = providers m ++ [p] ∧
  skills m' !! n =
    if decide (precedence p = Override)
    then match last (named n es) with Some e => Some (info_of e) | None => skills m !! n end
    else match skills m !! n with Some i => Some i | None => info_of <$> head (named n es) end.
Proof.
  intros Hp. unfold load_from. rewrite Hp.
  pose proof (load_override n (skills m) 0 es) as H1.
  pose proof (load_fallback n (skills m) 0 es) as H2.
  destruct (decide (precedence p = Override)) as [Ho|Ho];
    [rewrite bool_decide_eq_true_2 by done|rewrite bool_decide_eq_false_2 by done].
  - clear H2. destruct (foldl (load_entry true) _ es). by split_and!.
  - clear H1. destruct (foldl (load_entry false) _ es). by split_and!.
Qed.

Lemma built bundled_text dirs env env' m n :
  build_skill_manager bundled_text dirs env = (env', m) →
  env' = env ∧
  skills m !! n =
    match last (named n (tier_skills (project_skills dirs) ProjectSkill env)) with
    | Some e => Some (info_of e)
    | None =>
        match last (named n (tier_skills (scene_skills dirs) UserSkill env)) with
        | Some e => Some (info_of e)
        | None =>
            match last (named n (tier_skills (global_skills dirs) UserSkill env)) with
            | Some e => Some (info_of e)
            | None => info_of <$> head (named n bundled_skills)
            end
        end
    end ∧
  providers m = tiers dirs ++ [BundledSkills bundled_text].
Proof.
  unfold build_skill_manager, load_all, tiers. cbn [app foldl].
  pose proof (load_from_pure (tier_directory (global_skills dirs) UserSkill) env SkillManager_new
                (tier_skills (global_skills dirs) UserSkill env) n eq_refl) as H1.
  destruct (load_from _ env SkillManager_new) as [[e1 m1] k1]. destruct H1 as (-> & P1 & H1).
  pose proof (load_from_pure (tier_directory (scene_skills dirs) UserSkill) env m1
                (tier_skills (scene_skills dirs) UserSkill env) n eq_refl) as H2. cbn [fst].
  destruct (load_from _ env m1) as [[e2 m2] k2]. destruct H2 as (-> & P2 & H2).
  pose proof (load_from_pure (tier_directory (project_skills dirs) ProjectSkill) env m2
                (tier_skills (project_skills dirs) ProjectSkill env) n eq_refl) as H3. cbn [fst].
  destruct (load_from _ env m2) as [[e3 m3] k3]. destruct H3 as (-> & P3 & H3).
  pose proof (load_from_pure (BundledSkills bundled_text) env m3 bundled_skills n eq_refl) as H4.
  cbn [fst]. destruct (load_from _ env m3) as [[e4 m4] k4]. destruct H4 as (-> & P4 & H4).
  intros [= <- <-]. rewrite decide_True in H1, H2, H3 by done. rewrite decide_False in H4 by done.
  split_and!; [done| |by rewrite P4, P3, P2, P1].
  rewrite H4, H3, H2, H1. cbn [skills SkillManager_new]. rewrite lookup_empty.
  by repeat case_match.
Qed.

(** The skill the catalog holds under a name is that of the nearest tier with
    one: the project's, then the scene's, then the user's, and the built-in
    one when no directory has any.  Loading changes nothing outside. *)
Theorem nearest_tier_wins bundled_text dirs env n :
  let '(env', m) := build_skill_manager bundled_text dirs env in
  env' = env ∧
  skills m !! n = info_of <$>
    (last (named n (tier_skills (project_skills dirs) ProjectSkill env)) ∪
     last (named n (tier_skills (scene_skills dirs) UserSkill env)) ∪
     last (named n (tier_skills (global_skills dirs) UserSkill env)) ∪
     head (named n bundled_skills)).
Proof.
  destruct (build_skill_manager bundled_text dirs env) as [env' m] eqn:E.
  apply (built _ _ _ _ _ n) in E as (-> & Hm & _). split; [done|]. rewrite Hm.
  destruct (last (named n (tier_skills (project_skills dirs) _ _))),
    (last (named n (tier_skills (scene_skills dirs) _ _))),
    (last (named n (tier_skills (global_skills dirs) _ _))), (head (named n bundled_skills)); done.
Qed.

(** ** The listing *)

Lemma catalog_names m : keyed (skills m) → NoDup (info_name <$> catalog_values m).
Proof.
  intros Hk. unfold catalog_values. rewrite <-list_fmap_compose.
  assert (E : (info_name ∘ snd) <$> map_to_list (skills m) = (map_to_list (skills m)).*1).
  { apply list_fmap_ext. intros i [k v] Hi. apply list_elem_of_lookup_2, elem_of_map_to_list in Hi.
    by apply (map_Forall_lookup_1 _ _ _ _ Hk) in Hi. }
  rewrite E. apply NoDup_fst_map_to_list.
Qed.

Lemma named_unique (l : list SkillInfo) a b : NoDup (info_name <$> l) → a ∈ l → b ∈ l →
  info_name a = info_name b → a = b.
Proof.
  intros Hnd [i Hi]%list_elem_of_lookup [j Hj]%list_elem_of_lookup E.
  assert (i = j) as <-.
  { eapply NoDup_lookup; [done|by rewrite list_lookup_fmap, Hi|].
    by rewrite list_lookup_fmap, Hj, E. }
  by simplify_eq.
Qed.

#[export] Instance by_name_total : Total by_name.
Proof. intros a b. apply str_order_total. Qed.

#[export] Instance by_name_trans : Transitive by_name.
Proof. intros a b c. apply str_order_trans. Qed.

(** The listing is sorted and has every skill once, in an order that does not
    depend on the order in which the map yields its values. *)
Theorem listing_is_deterministic m vs :
  keyed (skills m) → vs ≡ₚ catalog_values m →
  merge_sort by_name vs = list_skills m ∧
  StronglySorted by_name (list_skills m) ∧ NoDup (info_name <$> list_skills m) ∧
  ∀ i, i ∈ list_skills m ↔ skills m !! info_name i = Some i.
Proof.
  intros Hk Hvs. pose proof (catalog_names m Hk) as Hnd. unfold list_skills.
  assert (Hs : StronglySorted by_name (merge_sort by_name (catalog_values m)))
    by apply (StronglySorted_merge_sort by_name).
  assert (Hp : merge_sort by_name (catalog_values m) ≡ₚ catalog_values m)
    by apply merge_sort_Permutation.
  split_and!; [|done|by rewrite Hp|].
  - apply (StronglySorted_unique_strong by_name).
    + intros a b Ha Hb Hab Hba. rewrite merge_sort_Permutation, Hvs in Ha. rewrite Hp in Hb.
      eapply named_unique; [done..|]. by apply str_order_antisymm.
    + apply (StronglySorted_merge_sort by_name).
    + done.
    + by rewrite !merge_sort_Permutation.
  - intros i. rewrite Hp. unfold catalog_values. rewrite list_elem_of_fmap. split.
    + intros ([k v] & -> & Hi). apply elem_of_map_to_list in Hi. cbn.
      by rewrite (map_Forall_lookup_1 _ _ _ _ Hk Hi).
    + intros Hi. exists (info_name i, i). split; [done|]. by apply elem_of_map_to_list.
Qed.

(** ** The text of a skill *)

(** A project that replaces a built-in skill gets its own entry in the
    catalog and the built-in's text when the skill is run: the built-ins are
    the newest source, and the content is looked for in the newest source
    first, whether or not the catalog's entry came from it. *)
Theorem built_in_text_shadows_the_file bundled_text dirs env env' m n e :
  build_skill_manager bundled_text dirs env = (env', m) →
  last (named n (tier_skills (project_skills dirs) ProjectSkill env)) = Some e →
  n ∈ bundled_names →
  starts_with (lit "(bundled:") (entry_path e) = false →
  starts_with (lit "(mcp:") (entry_path e) = false →
  get m n = Some (info_of e) ∧
  get_skill_content bundled_text env' m n = Some (bundled_text n).
Proof.
  intros E Hlast Hn Hb Hm. apply (built _ _ _ _ _ n) in E as (-> & Hsk & Hpr).
  rewrite Hlast in Hsk. split; [done|]. unfold get_skill_content, get. rewrite Hsk.
  cbn [mbind option_bind]. change (info_path (info_of e)) with (entry_path e). rewrite Hb, Hm, Hpr.
  rewrite reverse_app. cbn [reverse rev_append app]. cbn [find_map BundledSkills provider_body].
  unfold bundled_body. by rewrite bool_decide_eq_true_2.
Qed.

(** ** Reloading a file *)

(** A reload that succeeds on a file that exists puts what the file says under
    the name the path gives, and touches no other name. *)
Lemma reload_ok d path m m' :
  path_exists d path = true → reload_skill d path m = (m', Ok tt) →
  ∃ k e, skill_name_at path = Ok k ∧ skills m' = <[k := info_of e]> (skills m).
Proof.
  intros Hex. unfold reload_skill. rewrite Hex. cbn [negb].
  repeat case_match; intros [= <-]; eauto.
Qed.

(** A skill whose file names it otherwise than its directory is loaded under
    the name in the file and reloaded under the directory's: after an edit
    the catalog has it twice, and the name it goes by still has the old
    text. *)
Theorem edited_skill_stays_stale d path m k e n old :
  path_exists d path = true → skill_name_at path = Ok k →
  read_to_string d path ≫=
    (λ c, parse_skill_file c k path (from_option info_source UserSkill (skills m !! k))) = Some e →
  entry_name e = n → n ≠ k → get m n = Some old →
  let m' := (reload_skill d path m).1 in
  (reload_skill d path m).2 = Ok tt ∧
  get m' n = Some old ∧ get m' k = Some (info_of e) ∧ ¬ keyed (skills m').
Proof.
  intros Hex Hk Hp Hn Hne Hold. unfold reload_skill. rewrite Hex, Hk. cbn [negb].
  destruct (read_to_string d path) as [c|]; [|done]. cbn [mbind option_bind] in Hp. rewrite Hp.
  cbn [fst snd]. unfold get. cbn [skills set_skills]. split_and!; [done| |by rewrite lookup_insert_eq|].
  - by rewrite lookup_insert_ne.
  - intros Hkey. apply Hne. rewrite <-Hn.
    apply (map_Forall_lookup_1 _ _ k (info_of e) Hkey). by rewrite lookup_insert_eq.
Qed.

(** ** Readers of the log *)

Definition log_ok (l : ChangeLog) : Prop := Forall (λ c, c.1 ≤ generation l)%Z (changes l).

Lemma reload_cursor d path m :
  watching (reload_skill d path m).1 = watching m ∧
  watcher_last_seen (reload_skill d path m).1 = watcher_last_seen m.
Proof. unfold reload_skill. repeat case_match; done. Qed.

Lemma check_cursor d l m : watching m = true → (watcher_last_seen m ≤ generation l)%Z →
  watching (check_for_changes d l m).1 = true ∧
  watcher_last_seen (check_for_changes d l m).1 = generation l.
Proof.
  intros Hw Hle. unfold check_for_changes. rewrite Hw. unfold check_and_reload_since.
  case_bool_decide as Hg; [cbn; split; [done|lia]|].
  generalize (dedup (changed_since (watcher_last_seen m) l)) as paths. intros paths.
  generalize 0 as n. clear Hle Hg. revert m Hw. induction paths as [|p paths IH]; intros m Hw n.
  - by cbn.
  - cbn [foldl]. pose proof (reload_cursor d p m) as [Hw' _].
    destruct (reload_skill d p m) as [m1 r]. cbn [fst] in *. apply IH. congruence.
Qed.

(** The managers that share a log: an event of the file system, or a poll by
    one of them, on the disk it finds. *)
Inductive WatchOp := Event (paths : list str) | Poll (r : nat) (d : Disk).

(** Besides the new state, what each poll reads from the log. *)
Definition watch_step (s : ChangeLog * list SkillManager) (o : WatchOp)
    : (ChangeLog * list SkillManager) * list (nat * str) :=
  let '(l, ms) := s in
  match o with
  | Event paths => (log_event paths l, ms, [])
  | Poll r d =>
      match ms !! r with
      | Some m => (l, <[r := (check_for_changes d l m).1]> ms,
                   pair r <$> changed_since (watcher_last_seen m) l)
      | None => (l, ms, [])
      end
  end.

Fixpoint watch_run (s : ChangeLog * list SkillManager) (os : list WatchOp)
    : (ChangeLog * list SkillManager) * list (nat * str) :=
  match os with
  | [] => (s, [])
  | o :: os =>
      let '(s, reads) := watch_step s o in
      let '(s, reads') := watch_run s os in
      (s, reads ++ reads')
  end.

Definition reads_of (r : nat) (reads : list (nat * str)) : list str :=
  (filter (λ x, x.1 = r) reads).*2.

(** The skill files among the changes of a run, in order. *)
Definition events_of (os : list WatchOp) : list str :=
  os ≫= λ o, match o with Event paths => filter (λ p, is_skill_file p = true) paths | Poll _ _ => [] end.

Lemma log_event_changes l paths since : log_ok l → (since ≤ generation l)%Z →
  log_ok (log_event paths l) ∧ (since ≤ generation (log_event paths l))%Z ∧
  changed_since since (log_event paths l) =
    changed_since since l ++ filter (λ p, is_skill_file p = true) paths.
Proof.
  intros Hl Hs. unfold log_event. case_bool_decide as E; [by rewrite E, app_nil_r|].
  set (new := filter _ paths). cbn [generation]. split_and!; [|lia|].
  - apply Forall_app. split; cbn [generation].
    + eapply Forall_impl; [done|]. cbn. lia.
    + apply Forall_fmap, Forall_true. cbn. lia.
  - unfold changed_since. cbn [changes]. rewrite filter_app, fmap_app. f_equal.
    rewrite list_filter_all.
    + rewrite <-list_fmap_compose. by apply list_fmap_id.
    + apply Forall_fmap, Forall_true. cbn. lia.
Qed.

Lemma changed_since_now l : log_ok l → changed_since (generation l) l = [].
Proof.
  unfold log_ok, changed_since. generalize (generation l) as g. intros g.
  induction (changes l) as [|c cs IH]; [done|]. rewrite Forall_cons. intros [Hc Hcs].
  rewrite filter_cons_False by lia. by apply IH.
Qed.

Lemma reads_of_app r a b : reads_of r (a ++ b) = reads_of r a ++ reads_of r b.
Proof. unfold reads_of. by rewrite filter_app, fmap_app. Qed.

Lemma reads_of_pair r q (l : list str) :
  reads_of r (pair q <$> l) = if decide (q = r) then l else [].
Proof.
  unfold reads_of. induction l as [|x l IH]; [by destruct (decide (q = r))|].
  cbn [fmap list_fmap]. destruct (decide (q = r)) as [->|Hq].
  - rewrite filter_cons_True by done. cbn [fmap list_fmap snd]. f_equal. exact IH.
  - by rewrite filter_cons_False.
Qed.

(** Readers do not take changes from each other: over any interleaving of
    file system events and polls, what one manager reads is every skill file
    that changed since it attached, once and in order, up to those logged
    since its last poll. *)
Theorem each_reader_reads_every_change os l ms r m l' ms' reads :
  watch_run (l, ms) os = (l', ms', reads) →
  log_ok l → ms !! r = Some m → watching m = true → (watcher_last_seen m ≤ generation l)%Z →
  ∃ m', ms' !! r = Some m' ∧
    changed_since (watcher_last_seen m) l ++ events_of os =
    reads_of r reads ++ changed_since (watcher_last_seen m') l'.
Proof.
  revert l ms m reads. induction os as [|o os IH]; intros l ms m reads.
  { intros [= -> -> <-] _ Hr _ _. exists m. split; [done|]. cbn. by rewrite app_nil_r. }
  cbn [watch_run]. destruct o as [paths|q d]; cbn [watch_step].
  - destruct (watch_run _ os) as [[l2 ms2] reads2] eqn:E. intros [= -> -> <-] Hl Hr Hw Hle.
    destruct (log_event_changes l paths (watcher_last_seen m)) as (Hl1 & Hle1 & Hc); [done..|].
    destruct (IH _ _ m _ E) as (m' & Hm' & Heq); [done..|]. exists m'. split; [done|].
    unfold events_of in *. cbn [mbind list_bind app]. rewrite app_assoc, <-Hc. exact Heq.
  - destruct (ms !! q) as [mq|] eqn:Hq.
    2: { destruct (watch_run _ os) as [[l2 ms2] reads2] eqn:E. intros [= -> -> <-] Hl Hr Hw Hle.
         exact (IH _ _ m _ E Hl Hr Hw Hle). }
    destruct (watch_run _ os) as [[l2 ms2] reads2] eqn:E. intros [= -> -> <-] Hl Hr Hw Hle.
    rewrite reads_of_app, reads_of_pair. unfold events_of in *. cbn [mbind list_bind app].
    destruct (decide (q = r)) as [->|Hne].
    + rewrite Hq in Hr. injection Hr as ->.
      destruct (check_cursor d l m Hw Hle) as [Hw' Hs'].
      destruct (IH _ _ (check_for_changes d l m).1 _ E) as (m' & Hm' & Heq);
        [done| |done|by rewrite Hs'|].
      { apply list_lookup_insert_eq. by eapply lookup_lt_Some. }
      exists m'. split; [done|]. rewrite Hs', changed_since_now in Heq by done. cbn [app] in Heq.
      by rewrite Heq, app_assoc.
    + destruct (IH _ _ m _ E) as (m' & Hm' & Heq); [done|by rewrite list_lookup_insert_ne|done..|].
      by exists m'.
Qed.

(** ** Concrete runs *)

Definition sample_text : str := skill_text [(lit "name", lit "verify")] (lit "# Run our own checks").
Definition sample_path : str := lit "/p/.agents/skills/verify/SKILL.md".

(** A project with a skill of its own that is called as a built-in one. *)
Definition sample_disk : Disk := {|
  read_dir p := if bool_decide (p = lit "/p/.agents/skills")
                then Some [lit "/p/.agents/skills/verify"] else None;
  path_is_dir p := bool_decide (p = lit "/p/.agents/skills/verify");
  path_is_file p := bool_decide (p = sample_path);
  read_to_string p := if bool_decide (p = sample_path) then Some sample_text else None;
  path_canonicalize p := Some p;
  path_exists p := bool_decide (p = sample_path)
|}.

Definition sample_env : Env := Build_Env sample_disk ∅.
Definition sample_dirs : SkillDirs :=
  Build_SkillDirs (lit "/h/.atta/skills") (lit "/h/.atta/scenes/code/skills") (lit "/p/.agents/skills").
Definition sample_texts (n : str) : str := lit "built-in text of " ++ n.

Lemma built_in_text_shadows_the_file_witness :
  let '(env, m) := build_skill_manager sample_texts sample_dirs sample_env in
  (info_description <$> get m (lit "verify")) = Some (lit "Run our own checks") ∧
  get_skill_content sample_texts env m (lit "verify") = Some (lit "built-in text of verify").
Proof.
  destruct (build_skill_manager sample_texts sample_dirs sample_env) as [env m] eqn:E.
  destruct (last (named (lit "verify") (tier_skills (project_skills sample_dirs) ProjectSkill sample_env)))
    as [e|] eqn:El; [|vm_compute in El; discriminate].
  destruct (built_in_text_shadows_the_file sample_texts sample_dirs sample_env env m (lit "verify") e E El)
    as [Hg Hc].
  - by_compute.
  - vm_compute in El. injection El as <-. vm_compute. reflexivity.
  - vm_compute in El. injection El as <-. vm_compute. reflexivity.
  - split; [|exact Hc]. rewrite Hg. vm_compute in El. injection El as <-. vm_compute. reflexivity.
Defined.

Lemma each_reader_reads_every_change_witness :
  let m := attach_watcher ChangeLog_new SkillManager_new in
  let os := [Event [sample_path; lit "/p/notes.txt"]; Poll 0 sample_disk; Event [lit "/p/a.md"];
             Poll 1 sample_disk] in
  let '(l', ms', reads) := watch_run (ChangeLog_new, [m; m]) os in
  events_of os = [sample_path; lit "/p/a.md"] ∧
  (∃ m', ms' !! 0 = Some m' ∧
    changed_since 0 ChangeLog_new ++ events_of os =
      reads_of 0 reads ++ changed_since (watcher_last_seen m') l') ∧
  reads_of 0 reads = [sample_path] ∧ reads_of 1 reads = [sample_path; lit "/p/a.md"].
Proof.
  intros m os. destruct (watch_run (ChangeLog_new, [m; m]) os) as [[l' ms'] reads] eqn:E.
  split; [vm_compute; reflexivity|split].
  - apply (each_reader_reads_every_change os ChangeLog_new [m; m] 0 m l' ms' reads E);
      [constructor|reflexivity|reflexivity|cbn; lia].
  - vm_compute in E. injection E as _ _ <-. split; vm_compute; reflexivity.
Defined.

Lemma edited_skill_stays_stale_witness :
  let m := register_bundled (foldl assign SkillEntry_default [FName (lit "review")]) SkillManager_new in
  let d := Build_Disk (λ _, None) (λ _, false) (λ _, true)
             (λ _, Some (skill_text [(lit "name", lit "review")] (lit "new"))) Some (λ _, true) in
  let m' := (reload_skill d (lit "/s/code-review/SKILL.md") m).1 in
  info_description <$> get m' (lit "review") = Some [] ∧
  info_description <$> get m' (lit "code-review") = Some (lit "new").
Proof.
  intros m d m'.
  destruct (edited_skill_stays_stale d (lit "/s/code-review/SKILL.md") m (lit "code-review")
    (foldl assign SkillEntry_default [FName (lit "review"); FDescription (lit "new");
       FPath (lit "/s/code-review/SKILL.md")]) (lit "review")
    (info_of (foldl assign SkillEntry_default [FName (lit "review")])))
    as (_ & H1 & H2 & _); try (vm_compute; reflexivity).
  - vm_compute. discriminate.
  - fold m' in H1, H2. rewrite H1, H2. split; vm_compute; reflexivity.
Defined.
