(* ===== verification/McpPrompts.v ===== *)
(** * Prompts of MCP servers as commands ([crates/mcp/src/prompts.rs],
      [invoke_prompt_command] and its neighbours in [manager.rs])

    A server's prompt is the command [/mcp__<server>__<prompt>]; the text
    after it is split into [name=value] pairs and checked against what the
    prompt declares before the server is asked.  A client is the function
    that asks its server. *)

From stdpp Require Import base option numbers strings gmap list.
From S2P Require Import Prelude RustStr Lines.

#[local] Open Scope result_scope.

Definition MCP_COMMAND_PREFIX : str := lit "mcp__".

Record McpPromptArg := {
  arg_name : str;
  arg_required : option bool;
}.

Record McpPromptEntry := {
  prompt_server : str;
  prompt_name : str;
  prompt_description : str;
  prompt_arguments : list McpPromptArg;
}.

Definition command_name (p : McpPromptEntry) : str :=
  MCP_COMMAND_PREFIX ++ prompt_server p ++ lit "__" ++ prompt_name p.

Definition required (a : McpPromptArg) : bool := default false (arg_required a).

Definition argument_hint (p : McpPromptEntry) : str :=
  join (lit " ")
    ((λ a, if required a then arg_name a ++ lit "=<value>"
           else lit "[" ++ arg_name a ++ lit "=<value>]") <$> prompt_arguments p).

Definition split_command_name (command : str) : option (str * str) :=
  rest ← strip_prefix MCP_COMMAND_PREFIX command;
  '(server, prompt) ← split_once_str (lit "__") rest;
  if bool_decide (server = []) || bool_decide (prompt = []) then None else Some (server, prompt).

(** ** Arguments *)

Inductive PromptArgError :=
  | MissingRequired (missing declared : list str)
  | UnknownArgument (name : str) (declared : list str)
  | Unparsable (token : str) (declared : list str)
  | NoArgumentsAccepted (supplied : str)
  | UnterminatedQuote (quote : char).

Definition join_names (names : list str) : str :=
  if bool_decide (names = []) then lit "(none)" else join (lit ", ") names.

Definition show_arg_error (e : PromptArgError) : str :=
  match e with
  | MissingRequired missing declared =>
      lit "missing required argument" ++ (if bool_decide (length missing = 1) then [] else lit "s") ++
      lit ": " ++ join (lit ", ") missing ++ lit ". This prompt accepts: " ++ join_names declared ++
      lit ". Use `name=value` pairs, e.g. `" ++ default (lit "arg") (head missing) ++ lit "=<value>`."
  | UnknownArgument name declared =>
      lit "unknown argument `" ++ name ++ lit "`. This prompt accepts: " ++ join_names declared ++ lit "."
  | Unparsable token declared =>
      lit "could not parse `" ++ token ++ lit "` as an argument. Use `name=value` pairs. This prompt accepts: " ++
      join_names declared ++ lit "."
  | NoArgumentsAccepted supplied =>
      lit "this prompt takes no arguments, but `" ++ supplied ++ lit "` was supplied."
  | UnterminatedQuote q => lit "unterminated " ++ [q] ++ lit " quote in the argument string."
  end.

Definition is_quote (c : char) : bool := bool_decide (c = 34%N ∨ c = 39%N).

(** The loop of [tokenize]; [started] tells an empty token from none. *)
Fixpoint tokenize_loop (tokens : list str) (current : str) (started : bool) (quote : option char)
    (raw : str) : result (list str) PromptArgError :=
  match raw with
  | [] =>
      match quote with
      | Some q => Err (UnterminatedQuote q)
      | None => Ok (if started then tokens ++ [current] else tokens)
      end
  | c :: raw =>
      match quote with
      | Some q =>
          if decide (c = q) then tokenize_loop tokens current started None raw
          else tokenize_loop tokens (current ++ [c]) started quote raw
      | None =>
          if is_quote c then tokenize_loop tokens current true (Some c) raw
          else if is_whitespace c then
            if started then tokenize_loop (tokens ++ [current]) [] false None raw
            else tokenize_loop tokens current started None raw
          else tokenize_loop tokens (current ++ [c]) true None raw
      end
  end.

Definition tokenize (raw : str) : result (list str) PromptArgError :=
  tokenize_loop [] [] false None raw.

Fixpoint read_args (declared : list str) (tokens : list str) (out : gmap str str)
    : result (gmap str str) PromptArgError :=
  match tokens with
  | [] => Ok out
  | token :: tokens =>
      match split_once (ch "=") token with
      | None => Err (Unparsable token declared)
      | Some (name, v) =>
          let name := trim name in
          if bool_decide (name = []) then Err (Unparsable token declared)
          else if negb (bool_decide (name ∈ declared)) then Err (UnknownArgument name declared)
          else read_args declared tokens (<[name := v]> out)
      end
  end.

(** One declared argument, and a text that does not name it. *)
Definition shorthand (declared : list McpPromptArg) (raw : str) : option str :=
  match declared with
  | [only] =>
      if negb (bool_decide (raw = [])) &&
         negb (match strip_prefix (arg_name only) raw with
               | Some rest => starts_with (lit "=") rest
               | None => false
               end)
      then Some (arg_name only) else None
  | _ => None
  end.

Definition missing_args (declared : list McpPromptArg) (out : gmap str str) : list str :=
  arg_name <$> filter (λ a, required a = true ∧ out !! arg_name a = None) declared.

Definition parse_prompt_args (declared : list McpPromptArg) (raw : str)
    : result (gmap str str) PromptArgError :=
  let raw := trim raw in
  let declared_names := arg_name <$> declared in
  if bool_decide (declared = []) then
    if bool_decide (raw = []) then Ok ∅ else Err (NoArgumentsAccepted raw)
  else
    match shorthand declared raw with
    | Some name => Ok {[ name := raw ]}
    | None =>
        tokens ←? tokenize raw;
        out ←? read_args declared_names tokens ∅;
        let missing := missing_args declared out in
        if bool_decide (missing = []) then Ok out else Err (MissingRequired missing declared_names)
    end.

(** ** Running a prompt *)

Record PromptInvocation := {
  invocation_text : str;
  invocation_is_error : bool;
}.

Definition render_prompt_success (command raw_args body : str) : str :=
  [newline] ++ lit "<command-message>" ++ command ++ lit " is running...</command-message>" ++ [newline] ++
  lit "<command-name>" ++ command ++
  (if bool_decide (trim raw_args = []) then [] else lit " " ++ trim raw_args) ++
  lit "</command-name>" ++ [newline] ++ body.

Definition render_prompt_failure (command reason : str) : str :=
  [newline] ++ lit "<command-message>" ++ command ++ lit " failed</command-message>" ++ [newline] ++
  lit "<command-name>" ++ command ++ lit "</command-name>" ++ [newline] ++
  lit "The MCP prompt `/" ++ command ++ lit "` could not be run: " ++ reason ++ [newline] ++
  lit "Tell the user what went wrong; do not attempt to guess the prompt's content.".

Record McpClient := {
  server_name : str;
  get_prompt : str → gmap str str → result str str;
}.

Record McpManager := {
  clients : list McpClient;
  prompts : list McpPromptEntry;
}.

Definition find_prompt_command (m : McpManager) (command : str) : option McpPromptEntry :=
  '(server, prompt) ← split_command_name command;
  find_first (λ p, bool_decide (prompt_server p = server) && bool_decide (prompt_name p = prompt))
    (prompts m).

Definition find_client (m : McpManager) (server : str) : option McpClient :=
  find_first (λ c, bool_decide (server_name c = server)) (clients m).

Definition execute_prompt (m : McpManager) (server prompt : str) (args : gmap str str) : str :=
  match find_client m server with
  | Some c =>
      match get_prompt c prompt args with
      | Ok content => content
      | Err e => lit "MCP prompt error: " ++ e
      end
  | None => lit "MCP server '" ++ server ++ lit "' not found"
  end.

Definition failed (command reason : str) : PromptInvocation :=
  Build_PromptInvocation (render_prompt_failure command reason) true.

Definition invoke_prompt_command (m : McpManager) (command raw_args : str) : PromptInvocation :=
  match find_prompt_command m command with
  | None =>
      failed command
        (lit "no connected MCP server exposes this prompt (the server may have disconnected since the command list was built).")
  | Some entry =>
      match parse_prompt_args (prompt_arguments entry) raw_args with
      | Err e => failed command (show_arg_error e)
      | Ok args =>
          match find_client m (prompt_server entry) with
          | None =>
              failed command (lit "MCP server '" ++ prompt_server entry ++ lit "' is no longer connected.")
          | Some c =>
              match get_prompt c (prompt_name entry) args with
              | Ok body =>
                  Build_PromptInvocation (render_prompt_success command raw_args body) false
              | Err e => failed command e
              end
          end
      end
  end.

(** ** What is written is what is sent *)

Definition plain_char (c : char) : Prop := is_whitespace c = false ∧ is_quote c = false.

Definition plain_name (n : str) : Prop := n ≠ [] ∧ Forall plain_char n ∧ ch "=" ∉ n.

Definition dquote : char := 34%N.

(** A pair as a careful user writes it: the value in double quotes. *)
Definition print_arg (b : str * str) : str := b.1 ++ ch "=" :: dquote :: b.2 ++ [dquote].

Definition plain_binding (b : str * str) : Prop := plain_name b.1 ∧ dquote ∉ b.2.

Definition token_of (b : str * str) : str := b.1 ++ ch "=" :: b.2.

Lemma tok_chars ts cur w r : Forall plain_char w →
  tokenize_loop ts cur true None (w ++ r) = tokenize_loop ts (cur ++ w) true None r.
Proof.
  intros Hw. revert cur. induction Hw as [|c w [Hc Hq] _ IH]; intros cur; [by rewrite app_nil_r|].
  cbn [app tokenize_loop]. by rewrite Hq, Hc, IH, <-app_assoc.
Qed.

Lemma tok_quoted ts cur started q v r : q ∉ v →
  tokenize_loop ts cur started (Some q) (v ++ q :: r) = tokenize_loop ts (cur ++ v) started None r.
Proof.
  revert cur. induction v as [|c v IH]; intros cur Hv; cbn [app tokenize_loop].
  - by rewrite decide_True, app_nil_r.
  - apply not_elem_of_cons in Hv as [Hc Hv]. by rewrite decide_False, IH, <-app_assoc by done.
Qed.

Lemma tok_arg ts b r : plain_binding b →
  tokenize_loop ts [] false None (print_arg b ++ r) = tokenize_loop ts (token_of b) true None r.
Proof.
  destruct b as [n v]. intros [(Hn & Hp & He) Hv]. unfold print_arg, token_of. cbn [fst snd] in *.
  destruct n as [|c n]; [done|]. apply Forall_cons in Hp as [[Hw Hq] Hp].
  replace (((c :: n) ++ ch "=" :: dquote :: v ++ [dquote]) ++ r)
    with ((c :: n) ++ [ch "="] ++ dquote :: v ++ dquote :: r)
    by (rewrite <-!app_assoc; cbn [app]; by rewrite <-app_assoc).
  cbn [app tokenize_loop]. rewrite Hq, Hw. rewrite tok_chars by done.
  change (ch "=" :: dquote :: v ++ dquote :: r) with ([ch "="] ++ dquote :: v ++ dquote :: r).
  rewrite tok_chars by (repeat constructor).
  cbn [tokenize_loop]. change (is_quote dquote) with true. cbn iota.
  rewrite tok_quoted by done. by rewrite <-!app_assoc.
Qed.

Lemma tok_args ts bs : Forall plain_binding bs →
  tokenize_loop ts [] false None (join (lit " ") (print_arg <$> bs)) = Ok (ts ++ (token_of <$> bs)).
Proof.
  intros Hbs. revert ts. induction Hbs as [|b bs Hb Hbs IH]; intros ts; [by rewrite app_nil_r|].
  destruct bs as [|b' bs].
  - cbn [fmap list_fmap join]. rewrite <-(app_nil_r (print_arg b)), tok_arg by done. done.
  - cbn [fmap list_fmap]. rewrite join_cons2, tok_arg by done.
    change (lit " " ++ ?x) with (32%N :: x). cbn [tokenize_loop].
    change (is_quote 32%N) with false. change (is_whitespace 32%N) with true. cbn iota.
    specialize (IH (ts ++ [token_of b])). cbn [fmap list_fmap] in IH. rewrite IH.
    by rewrite <-app_assoc.
Qed.

Lemma plain_name_trim n : plain_name n → trim n = n.
Proof.
  intros (Hn & Hp & _). pose proof (trim_surrounded [] n []) as H. rewrite app_nil_r in H.
  apply H; [done..|]. eapply Forall_impl; [done|]. by intros c [].
Qed.

Lemma read_plain_args declared bs out : Forall plain_binding bs → (∀ b, b ∈ bs → b.1 ∈ declared) →
  read_args declared (token_of <$> bs) out = Ok (foldl (λ m b, <[b.1 := b.2]> m) out bs).
Proof.
  intros Hbs Hd. revert out. induction Hbs as [|[n v] bs [Hn Hv] _ IH]; intros out; [done|].
  cbn [fmap list_fmap read_args foldl]. unfold token_of at 1. cbn [fst snd] in *.
  rewrite (proj2 (split_once_Some _ _ n v)) by (split; [done|apply Hn]).
  cbn zeta. rewrite plain_name_trim by done.
  rewrite bool_decide_eq_false_2 by apply Hn.
  rewrite (bool_decide_eq_true_2 (n ∈ declared)) by (apply (Hd (n, v)); left).
  apply IH. intros b Hb. apply Hd. by right.
Qed.

Definition bindings (bs : list (str * str)) : gmap str str := foldl (λ m b, <[b.1 := b.2]> m) ∅ bs.

Lemma dom_bindings bs : dom (bindings bs) = list_to_set bs.*1.
Proof.
  unfold bindings. induction bs as [|b bs IH] using rev_ind; [done|].
  rewrite foldl_snoc, dom_insert_L, IH, fmap_app, list_to_set_app_L. cbn. set_solver.
Qed.

Lemma join_args_ends bs : bs ≠ [] → Forall plain_binding bs →
  trim (join (lit " ") (print_arg <$> bs)) = join (lit " ") (print_arg <$> bs).
Proof.
  intros Hne Hbs. apply trim_id. split.
  - intros c. destruct Hbs as [|[n v] bs [(Hn & Hp & _) _] _]; [done|].
    destruct n as [|x n]; [done|]. apply Forall_cons in Hp as [[Hx _] _].
    cbn [fmap list_fmap]. intros Hc. destruct (print_arg <$> bs); cbn in Hc; by injection Hc as <-.
  - intros c. destruct (exists_last Hne) as (bs' & b & ->). rewrite fmap_app. cbn [fmap list_fmap].
    intros Hc. assert (E : last (join (lit " ") ((print_arg <$> bs') ++ [print_arg b])) = Some dquote).
    { clear. assert (Hl : last (print_arg b) = Some dquote).
      { unfold print_arg. rewrite !app_comm_cons, app_assoc. by rewrite last_snoc. }
      induction (print_arg <$> bs') as [|p ps IH]; [done|].
      cbn [app]. destruct (ps ++ [print_arg b]) as [|q qs] eqn:E; [by destruct ps|].
      rewrite join_cons2, !last_app. by rewrite IH. }
    rewrite E in Hc. by injection Hc as <-.
Qed.

Lemma missing_none declared out :
  missing_args declared out = [] ↔
  ∀ a, a ∈ declared → required a = true → is_Some (out !! arg_name a).
Proof.
  unfold missing_args. split; [intros E%fmap_nil_inv|intros E].
  - intros a Ha Hr. destruct (out !! arg_name a) eqn:El; [eauto|].
    assert (Hin : a ∈ filter (λ a, required a = true ∧ out !! arg_name a = None) declared)
      by (by apply list_elem_of_filter).
    rewrite E in Hin. by apply elem_of_nil in Hin.
  - destruct (filter _ declared) as [|a l] eqn:El; [done|].
    assert (Hin : a ∈ filter (λ a, required a = true ∧ out !! arg_name a = None) declared)
      by (rewrite El; left).
    apply list_elem_of_filter in Hin as [[Hr Ho] Ha].
    destruct (E a Ha Hr) as [x Hx]. congruence.
Qed.

(** Quoted pairs of declared arguments, with every required one among them,
    reach the server as they were written; of two for one argument the later
    counts. *)
Theorem quoted_arguments_are_sent declared bs :
  bs ≠ [] → Forall plain_binding bs →
  (∀ b, b ∈ bs → b.1 ∈ arg_name <$> declared) →
  (∀ a, a ∈ declared → required a = true → arg_name a ∈ bs.*1) →
  parse_prompt_args declared (join (lit " ") (print_arg <$> bs)) = Ok (bindings bs).
Proof.
  intros Hne Hbs Hd Hreq. unfold parse_prompt_args. rewrite join_args_ends by done.
  destruct (exists_last Hne) as (bs0 & b0 & Hb0).
  assert (declared ≠ []).
  { intros ->. specialize (Hd b0). rewrite Hb0 in Hd.
    apply elem_of_nil in Hd; [done|]. rewrite elem_of_app, list_elem_of_singleton. auto. }
  rewrite bool_decide_eq_false_2 by done.
  replace (shorthand _ _) with (@None str).
  2: { symmetry. destruct declared as [|a [|]]; [done| |done]. unfold shorthand.
       destruct Hbs as [|[n v] bs Hb Hbs]; [done|].
       assert (n = arg_name a) as ->.
       { specialize (Hd (n, v)). cbn in Hd. rewrite list_elem_of_singleton in Hd. apply Hd. left. }
       assert (E : ∃ r, join (lit " ") (print_arg <$> (arg_name a, v) :: bs) = arg_name a ++ ch "=" :: r).
       { cbn [fmap list_fmap]. destruct (print_arg <$> bs).
         - cbn [join]. unfold print_arg. cbn [fst snd]. eauto.
         - rewrite join_cons2. unfold print_arg. cbn [fst snd]. rewrite <-app_assoc. cbn [app]. eauto. }
       destruct E as [r ->]. rewrite strip_prefix_app.
       change (ch "=" :: r) with (lit "=" ++ r). rewrite starts_with_app. cbn [negb].
       by rewrite andb_false_r. }
  unfold tokenize. rewrite tok_args by done. cbn [result_bind app].
  rewrite read_plain_args by done. cbn [result_bind]. fold (bindings bs).
  rewrite bool_decide_eq_true_2; [done|]. apply missing_none. intros a Ha Hr.
  apply elem_of_dom. rewrite dom_bindings. apply elem_of_list_to_set. auto.
Qed.

Lemma read_args_dom declared tokens out out' :
  read_args declared tokens out = Ok out' → (∀ n, n ∈ dom out → n ∈ declared) →
  ∀ n, n ∈ dom out' → n ∈ declared.
Proof.
  revert out. induction tokens as [|t tokens IH]; intros out; cbn [read_args].
  - intros [= ->]. done.
  - destruct (split_once _ t) as [[n v]|]; [|done]. cbn zeta.
    case_bool_decide; [done|]. case_bool_decide as Hn; [|done]. cbn [negb]. intros E Hd.
    apply (IH _ E). intros x. rewrite dom_insert, elem_of_union, elem_of_singleton.
    intros [->|Hx]; [done|auto].
Qed.

(** Whatever the user types, a server is asked with every argument it requires
    and with none it did not declare. *)
Theorem servers_get_what_they_declare declared raw args :
  parse_prompt_args declared raw = Ok args →
  (∀ a, a ∈ declared → required a = true → is_Some (args !! arg_name a)) ∧
  ∀ n, n ∈ dom args → n ∈ arg_name <$> declared.
Proof.
  unfold parse_prompt_args. cbn zeta. case_bool_decide as Hd.
  { case_bool_decide; [|done]. intros [= <-]. subst. split.
    - intros a Ha. by apply elem_of_nil in Ha.
    - intros n. by rewrite dom_empty, elem_of_empty. }
  destruct (shorthand declared (trim raw)) as [name|] eqn:Es.
  { intros [= <-]. unfold shorthand in Es. destruct declared as [|a [|]]; [done| |done].
    case_match; [|done]. injection Es as <-. split.
    - intros b Hb _. apply list_elem_of_singleton in Hb as ->. rewrite lookup_singleton_eq. eauto.
    - intros n. rewrite dom_singleton, elem_of_singleton. intros ->. left. }
  destruct (tokenize (trim raw)) as [tokens|]; [|done]. cbn [result_bind].
  destruct (read_args _ tokens ∅) as [out|] eqn:Er; [|done]. cbn [result_bind].
  case_bool_decide as Hm; [|done]. intros [= <-]. split; [by apply missing_none|].
  apply (read_args_dom _ _ _ _ Er). intros n. by rewrite dom_empty, elem_of_empty.
Qed.

(** ** Finding the prompt again *)

Lemma strip_prefix_two c d s :
  strip_prefix (lit "__") (c :: d :: s) =
  if decide (95%N = c) then if decide (95%N = d) then Some s else None else None.
Proof. done. Qed.

Lemma find_double_underscore server rest :
  contains (lit "__") (server ++ lit "_") = false →
  find_sub (lit "__") (server ++ lit "__" ++ rest) = Some server.
Proof.
  induction server as [|c s IH]; intros Hs; [done|].
  assert (Hc : starts_with (lit "__") (c :: s ++ lit "_") = false).
  { apply not_true_iff_false. rewrite starts_with_spec. intros [r Hr].
    apply not_true_iff_false in Hs. apply Hs, contains_spec. exists [], r. exact Hr. }
  assert (Hs' : contains (lit "__") (s ++ lit "_") = false).
  { apply not_true_iff_false. rewrite contains_spec. intros (l & r & Hr).
    apply not_true_iff_false in Hs. apply Hs, contains_spec. exists (c :: l), r.
    cbn [app]. by rewrite Hr. }
  specialize (IH Hs'). cbn [app find_sub].
  replace (starts_with _ _) with false; [by rewrite IH|]. symmetry. revert Hc. clear.
  change (lit "__" ++ rest) with (95%N :: 95%N :: rest). change (lit "_") with [95%N].
  unfold starts_with. destruct s as [|d s]; cbn [app]; rewrite !strip_prefix_two;
    repeat case_decide; try done; by rewrite bool_decide_eq_true_2 by eauto.
Qed.

(** A command name leads back to its server and prompt when no [__] starts in
    the server's name - also not at its last character. *)
Lemma split_command_name_back p :
  prompt_server p ≠ [] → prompt_name p ≠ [] →
  contains (lit "__") (prompt_server p ++ lit "_") = false →
  split_command_name (command_name p) = Some (prompt_server p, prompt_name p).
Proof.
  intros Hs Hp Hu. unfold split_command_name, command_name.
  rewrite strip_prefix_app. cbn [mbind option_bind]. unfold split_once_str.
  rewrite find_double_underscore by done. cbn [mbind option_bind].
  rewrite app_assoc, drop_app_length' by (by rewrite length_app).
  by rewrite !bool_decide_eq_false_2.
Qed.

(** The engine trusts that no server's name holds [__]; a name that merely
    ends in an underscore loses it, and its prompts cannot be called. *)
Example trailing_underscore_is_lost :
  split_command_name (command_name (Build_McpPromptEntry (lit "my_") (lit "ask") [] [])) =
  Some (lit "my", lit "_ask").
Proof. vm_compute. reflexivity. Qed.

(** A single argument may be given by its name, but then it is one word. *)
Example named_single_argument_is_one_word :
  let d := [Build_McpPromptArg (lit "query") (Some true)] in
  parse_prompt_args d (lit "how do I install") = Ok {[ lit "query" := lit "how do I install" ]} ∧
  parse_prompt_args d (lit "query=how do I install") = Err (Unparsable (lit "do") [lit "query"]).
Proof. split; vm_compute; reflexivity. Qed.

Definition sample_declared : list McpPromptArg :=
  [Build_McpPromptArg (lit "repo") (Some true); Build_McpPromptArg (lit "note") None].

Lemma quoted_arguments_are_sent_witness :
  parse_prompt_args sample_declared
    (join (lit " ") (print_arg <$> [(lit "repo", lit "acme/widgets"); (lit "note", lit "a = b")])) =
  Ok (bindings [(lit "repo", lit "acme/widgets"); (lit "note", lit "a = b")]).
Proof.
  apply quoted_arguments_are_sent.
  - done.
  - rewrite !Forall_cons, Forall_nil. unfold plain_binding, plain_name. cbn [fst snd].
    split_and!; first [exact I | by_compute | repeat constructor].
  - intros b Hb. apply list_elem_of_In in Hb. cbn in Hb.
    destruct Hb as [<-|[<-|[]]]; by_compute.
  - intros a Ha Hr. apply list_elem_of_In in Ha. cbn in Ha.
    destruct Ha as [<-|[<-|[]]]; [by_compute|discriminate].
Defined.

Lemma servers_get_what_they_declare_witness :
  is_Some (bindings [(lit "repo", lit "x")] !! lit "repo") ∧
  ∀ n, n ∈ dom (bindings [(lit "repo", lit "x")]) → n ∈ [lit "repo"; lit "note"].
Proof.
  destruct (servers_get_what_they_declare sample_declared (lit "repo=x") (bindings [(lit "repo", lit "x")]))
    as [H1 H2]; [vm_compute; reflexivity|].
  split; [|exact H2].
  apply (H1 (Build_McpPromptArg (lit "repo") (Some true))); [left|reflexivity].
Defined.
