(* ===== verification/Commands.v ===== *)
(** * Slash commands ([crates/runtime/src/commands.rs], and what
      [runtime/src/turn.rs] shows the model of the skills)

    [/name args] is looked up among the registered commands, the live skills
    and the built-in ones, in this order.  The registry keeps the manager of
    the skills, not a copy of its catalog. *)

From stdpp Require Import base option numbers strings gmap list sorting.
From S2P Require Import Prelude RustStr Lines Float PermTypes Path Conversation.
From S2P Require Import Frontmatter Skills McpPrompts.

(** ** Parsing *)

Record SlashCommand := {
  command : str;
  args : str;
}.

(** [str::find] of a white space, and the text from there. *)
Fixpoint split_at_whitespace (s : str) : option (str * str) :=
  match s with
  | [] => None
  | c :: s' =>
      if is_whitespace c then Some ([], s)
      else match split_at_whitespace s' with
           | Some (l, r) => Some (c :: l, r)
           | None => None
           end
  end.

Definition parse_slash_command (input : str) : option SlashCommand :=
  rest ← strip_prefix (lit "/") (trim input);
  if bool_decide (rest = []) then None
  else
    let '(name, args) := match split_at_whitespace rest with
                         | Some (n, a) => (n, trim a)
                         | None => (rest, [])
                         end in
    if bool_decide (name = []) then None else Some (Build_SlashCommand name args).

(** ** Commands *)

Record CommandResult := {
  result_text : str;
  should_query : bool;
}.

Inductive Command :=
  | PromptCommand (entry : SkillEntry)
  | McpPromptCommand (command description argument_hint : str)
  | LocalCommand (description : str) (handler : SlashCommand → CommandResult).

Definition description (c : Command) : str :=
  match c with
  | PromptCommand entry => entry_description entry
  | McpPromptCommand _ description _ => description
  | LocalCommand description _ => description
  end.

Definition is_prompt (c : Command) : bool :=
  match c with PromptCommand _ | McpPromptCommand _ _ _ => true | LocalCommand _ _ => false end.

(** The entry a skill was made of, but for its files and hooks. *)
Definition entry_of (i : SkillInfo) : SkillEntry := {|
  entry_name := info_name i; entry_description := info_description i;
  entry_when_to_use := info_when_to_use i; entry_source := info_source i;
  entry_path := info_path i; entry_argument_hint := info_argument_hint i;
  entry_allowed_tools := info_allowed_tools i; entry_disallowed_tools := info_disallowed_tools i;
  entry_arguments := info_arguments i; entry_model := info_model i; entry_effort := info_effort i;
  entry_context := info_context i; entry_agent := info_agent i;
  entry_background := info_background i;
  entry_disable_model_invocation := info_disable_model_invocation i;
  entry_user_invocable := info_user_invocable i; entry_paths := info_paths i;
  entry_version := info_version i; entry_files := None; entry_hooks := None
|}.

Definition skill_as_command (i : SkillInfo) : option Command :=
  if info_user_invocable i then Some (PromptCommand (entry_of i)) else None.

(** ** The registry *)

Record CommandRegistry := {
  builtin : gmap str Command;
  registered : gmap str Command;
  live_skills : option SkillManager;
}.

Definition CommandRegistry_new : CommandRegistry := Build_CommandRegistry ∅ ∅ None.

Definition insert_local (name description : str) (handler : SlashCommand → CommandResult)
    (r : CommandRegistry) : CommandRegistry :=
  Build_CommandRegistry (<[name := LocalCommand description handler]> (builtin r)) (registered r)
    (live_skills r).

Definition insert_prompt (entry : SkillEntry) (r : CommandRegistry) : CommandRegistry :=
  Build_CommandRegistry (builtin r) (<[entry_name entry := PromptCommand entry]> (registered r))
    (live_skills r).

Definition mcp_command (p : McpPromptEntry) : Command :=
  McpPromptCommand (command_name p)
    (if bool_decide (prompt_description p = [])
     then lit "MCP prompt `" ++ prompt_name p ++ lit "` from server `" ++ prompt_server p ++ lit "`"
     else prompt_description p)
    (McpPrompts.argument_hint p).

Definition register_mcp_prompts (ps : list McpPromptEntry) (r : CommandRegistry) : CommandRegistry :=
  foldl (λ r p, Build_CommandRegistry (builtin r) (<[command_name p := mcp_command p]> (registered r))
                  (live_skills r)) r ps.

Definition says (text : string) (query : bool) : SlashCommand → CommandResult :=
  λ _, Build_CommandResult (lit text) query.

(** [Default]: the five built-in commands. *)
Definition CommandRegistry_default : CommandRegistry :=
  insert_local (lit "cost") (lit "Show session API cost")
    (says "Cost tracking: use /cost for details" false) (
  insert_local (lit "compact") (lit "Trigger context compaction now")
    (says "Compaction triggered. Context has been summarized." true) (
  insert_local (lit "clear") (lit "Clear the current session context")
    (says "Session cleared. All messages have been removed." false) (
  insert_local (lit "skills") (lit "List all available skills")
    (says "Use /skills to see available skills" false) (
  insert_local (lit "help") (lit "List all available slash commands")
    (says "Use /help to see available commands" false) CommandRegistry_new)))).

Definition from_skill_manager (m : SkillManager) : CommandRegistry :=
  Build_CommandRegistry (builtin CommandRegistry_default) (registered CommandRegistry_default) (Some m).

Definition live_command (r : CommandRegistry) (name : str) : option Command :=
  m ← live_skills r; i ← get m name; skill_as_command i.

Definition resolve (r : CommandRegistry) (name : str) : option Command :=
  match registered r !! name with
  | Some c => Some c
  | None => match live_command r name with Some c => Some c | None => builtin r !! name end
  end.

Definition argument_hint (r : CommandRegistry) (name : str) : option str :=
  c ← resolve r name;
  match c with
  | McpPromptCommand _ _ hint => if bool_decide (hint = []) then None else Some hint
  | PromptCommand entry => entry_argument_hint entry
  | LocalCommand _ _ => None
  end.

Definition merge_skill (out : gmap str Command) (i : SkillInfo) : gmap str Command :=
  match skill_as_command i with Some c => <[info_name i := c]> out | None => out end.

Definition merged (r : CommandRegistry) : gmap str Command :=
  registered r ∪ match live_skills r with
                 | Some m => foldl merge_skill (builtin r) (list_skills m)
                 | None => builtin r
                 end.

Definition by_command {A} (a b : str * A) : Prop := str_order a.1 b.1.

#[export] Instance by_command_dec {A} (a b : str * A) : Decision (by_command a b).
Proof. unfold by_command. apply _. Defined.

Definition list_commands (r : CommandRegistry) : list (str * str) :=
  merge_sort by_command ((λ kc, (kc.1, description kc.2)) <$> map_to_list (merged r)).

Definition len_commands (r : CommandRegistry) : nat := size (merged r).

Definition source_text (s : SkillSource) : str :=
  match s with UserSkill => lit "user" | ProjectSkill => lit "project" | PluginSkill => lit "plugin" end.

(** [CommandInfo]: kind and source beside the description. *)
Definition command_info (kc : str * Command) : str * (str * str * str) :=
  (kc.1, match kc.2 with
         | LocalCommand description _ => (description, lit "local", lit "builtin")
         | PromptCommand e => (entry_description e, lit "prompt", source_text (entry_source e))
         | McpPromptCommand _ description _ => (description, lit "mcp-prompt", lit "mcp")
         end).

Definition list_detailed (r : CommandRegistry) : list (str * (str * str * str)) :=
  merge_sort by_command (command_info <$> map_to_list (merged r)).

(** ** Running a skill as a command *)

Section Expansion.
Context (bundled_text : str → str) (skill_dir session_id : option str).

Definition titled (e : SkillEntry) : str :=
  lit "# " ++ entry_name e ++ [newline; newline] ++ entry_description e.

Definition command_body (env : Env) (e : SkillEntry) : str :=
  default (titled e)
    (if starts_with (lit "(bundled:") (entry_path e) then bundled_body bundled_text (entry_name e)
     else if starts_with (lit "(mcp:") (entry_path e) then mcp_skill_body env (entry_name e)
     else read_to_string (disk env) (entry_path e)).

Definition expand_skill_for_command (env : Env) (e : SkillEntry) (args : str) : str :=
  let expanded := expand_skill_vars_named skill_dir session_id (command_body env e) args
                    (default [] (entry_arguments e)) in
  [newline] ++ lit "<command-message>" ++ entry_name e ++ lit " is running...</command-message>" ++
  [newline] ++ lit "<command-name>" ++ entry_name e ++
  (if bool_decide (args = []) then [] else lit " " ++ args) ++ lit "</command-name>" ++ [newline] ++
  expanded.

Definition handle_prompt_command (env : Env) (e : SkillEntry) (c : SlashCommand) : str :=
  expand_skill_for_command env e (args c).
End Expansion.

Definition handle_local_command (c : Command) (sc : SlashCommand) : CommandResult :=
  match c with
  | LocalCommand _ handler => handler sc
  | _ => Build_CommandResult (lit "Internal error: expected local command") false
  end.

(** ** What the model sees of the skills *)

Definition SKILL_COMBINED_TEXT_CAP : nat := Z.to_nat 1536.

Definition combined_skill_text_capped (description : str) (when_to_use : option str) : str :=
  let combined := match when_to_use with
                  | Some w => if bool_decide (w = []) then description else description ++ lit " " ++ w
                  | None => description
                  end in
  if bool_decide (len combined ≤ SKILL_COMBINED_TEXT_CAP) then combined
  else truncate_at_char_boundary combined SKILL_COMBINED_TEXT_CAP.

(** A skill in the listing: its name, how often it was invoked, and the length
    of its text. *)
Record Listed := {
  listed_name : str;
  listed_count : Z;
  listed_len : nat;
}.

(** [counts[b].cmp(&counts[a]).then_with(names)]: more often first. *)
Definition by_priority (a b : nat * Listed) : Prop :=
  (listed_count b.2 < listed_count a.2)%Z ∨
  listed_count a.2 = listed_count b.2 ∧ str_order (listed_name a.2) (listed_name b.2).

#[export] Instance by_priority_dec a b : Decision (by_priority a b).
Proof. unfold by_priority. apply _. Defined.

(** Those that fit, until one does not. *)
Fixpoint fill (available overhead spent : nat) (order : list (nat * Listed)) : list nat :=
  match order with
  | [] => []
  | (i, e) :: order =>
      let cost := listed_len e + overhead in
      if bool_decide (available < spent + cost) then []
      else i :: fill available overhead (spent + cost) order
  end.

Definition kept_indices (es : list Listed) (available overhead : nat) : list nat :=
  fill available overhead 0 (merge_sort by_priority (enumerate es)).

Definition select_skills_keeping_description (es : list Listed) (available overhead : nat) : list bool :=
  (λ i, bool_decide (i ∈ kept_indices es available overhead)) <$> seq 0 (length es).

Definition HEADER_CHARS : nat := 22.
Definition PER_ENTRY_OVERHEAD : nat := 6.

(** The literal [0.01]. *)
Definition f64_0_01 : SpecFloat.spec_float := SpecFloat.S754_finite false 5764607523034235 (-59).

Definition budget_chars (context_window : Z) : nat :=
  Z.to_nat (if bool_decide (0 < context_window)%Z
            then f64_to_u64 (f64_mul (f64_mul (f64_of context_window) f64_0_01) (f64_of 4))
            else 8000).

Definition listing_header : str :=
  lit "## Available Skills" ++ [newline; newline] ++
  lit "This list reflects what's available right now, in this turn — skills can be added or removed while a session is running. If it disagrees with something you or the user said about skill availability earlier in this conversation, this current list is the accurate one." ++
  [newline; newline].

Definition listing_line (s : SkillInfo) (desc : str) (keeps : bool) : str :=
  lit "- **" ++ info_name s ++ lit "**" ++
  (if keeps
   then lit ": " ++ desc ++
        (match info_argument_hint s with Some w => lit " (args: " ++ w ++ lit ")" | None => [] end)
   else []) ++ [newline].

Definition build_skills_text (m : SkillManager) (context_window : Z) : str :=
  let llm_skills := filter (λ s, info_disable_model_invocation s = false) (list_skills m) in
  if bool_decide (llm_skills = []) then []
  else
    let combined := (λ s, combined_skill_text_capped (info_description s) (info_when_to_use s))
                      <$> llm_skills in
    let listed := zip_with (λ s c, Build_Listed (info_name s) (invocation_count m (info_name s)) (len c))
                    llm_skills combined in
    let keeps := select_skills_keeping_description listed
                   (budget_chars context_window - HEADER_CHARS) PER_ENTRY_OVERHEAD in
    listing_header ++
    (zip_with (λ s dk, listing_line s dk.1 dk.2) llm_skills (zip combined keeps) ≫= id).

(** ** Parsing and printing *)

Definition print_command (c : SlashCommand) : str :=
  lit "/" ++ command c ++ (if decide (args c = []) then [] else 32%N :: args c).

Definition plain_command (c : SlashCommand) : Prop :=
  command c ≠ [] ∧ Forall (λ x, is_whitespace x = false) (command c) ∧ trimmed (args c).

Lemma split_at_whitespace_word n s : Forall (λ x, is_whitespace x = false) n →
  split_at_whitespace (n ++ s) =
  match split_at_whitespace s with Some (l, r) => Some (n ++ l, r) | None => None end.
Proof.
  induction 1 as [|c n Hc _ IH]; [cbn [app]; by destruct (split_at_whitespace s) as [[]|]|].
  cbn [app split_at_whitespace]. rewrite Hc, IH. by destruct (split_at_whitespace s) as [[]|].
Qed.

(** A command reads back as it was written, and only a text that starts with
    a slash is one. *)
Theorem command_roundtrip c : plain_command c →
  parse_slash_command (print_command c) = Some c ∧
  ∀ s, parse_slash_command s = Some c → starts_with (lit "/") (trim s) = true ∧
       command c ≠ [] ∧ Forall (λ x, is_whitespace x = false) (command c).
Proof.
  destruct c as [n a]. intros (Hn & Hp & Ha). cbn [command args] in *. split.
  - unfold parse_slash_command, print_command. cbn [command args].
    assert (Ht : trim (lit "/" ++ n ++ (if decide (a = []) then [] else 32%N :: a)) =
                 lit "/" ++ n ++ (if decide (a = []) then [] else 32%N :: a)).
    { apply trim_id. split; intros x.
      - cbn. intros [= <-]. done.
      - destruct (decide (a = [])) as [->|Hne].
        + rewrite app_nil_r, last_app. destruct (last n) as [y|] eqn:El; [|by apply last_None in El].
          intros [= ->]. apply last_Some in El as [n' ->]. by apply Forall_app in Hp as [_ [? _]%Forall_cons].
        + change (32%N :: a) with ([32%N] ++ a). rewrite !last_app.
          destruct (last a) as [y|] eqn:El; [|by apply last_None in El].
          intros [= ->]. by apply (proj2 Ha). }
    rewrite Ht, strip_prefix_app. cbn [mbind option_bind].
    rewrite bool_decide_eq_false_2 by (by destruct n).
    rewrite split_at_whitespace_word by done. destruct (decide (a = [])) as [->|Hne].
    + cbn [split_at_whitespace]. rewrite app_nil_r. cbn iota beta. by rewrite bool_decide_eq_false_2.
    + cbn [split_at_whitespace]. change (is_whitespace 32%N) with true. cbn iota beta.
      rewrite app_nil_r, bool_decide_eq_false_2 by done.
      change (trim (32%N :: a)) with (trim a). by rewrite (trim_id a).
  - intros s. unfold parse_slash_command. destruct (strip_prefix _ _) as [rest|] eqn:E; [|done].
    intros _. split; [|done]. apply starts_with_spec. exists rest. by apply strip_prefix_Some in E.
Qed.

(** ** The catalog and the dispatch *)

Lemma merge_skills_other b l n : (∀ i, i ∈ l → info_name i ≠ n) →
  foldl merge_skill b l !! n = b !! n.
Proof.
  revert b. induction l as [|i l IH]; intros b Hl; [done|]. cbn [foldl].
  rewrite IH by (intros j Hj; apply Hl; by right). unfold merge_skill. case_match; [|done].
  rewrite lookup_insert_ne; [done|]. apply Hl. left.
Qed.

Lemma merge_skills_one b l i : NoDup (info_name <$> l) → i ∈ l →
  foldl merge_skill b l !! info_name i =
  match skill_as_command i with Some c => Some c | None => b !! info_name i end.
Proof.
  revert b. induction l as [|j l IH]; intros b Hnd Hi; [by apply elem_of_nil in Hi|].
  cbn [fmap list_fmap] in Hnd. apply NoDup_cons in Hnd as [Hj Hnd]. cbn [foldl].
  apply elem_of_cons in Hi as [->|Hi].
  - rewrite merge_skills_other.
    + unfold merge_skill. case_match; [by rewrite lookup_insert_eq|done].
    + intros k Hk E. apply Hj. rewrite <-E. apply list_elem_of_fmap. eauto.
  - rewrite IH by done. case_match; [done|]. unfold merge_skill. case_match; [|done].
    rewrite lookup_insert_ne; [done|]. intros E. apply Hj. rewrite E. apply list_elem_of_fmap. eauto.
Qed.

(** What the registry lists is what it resolves: [/help] and the host's
    palette show a command exactly when typing it runs that command, as long
    as every skill is kept under its own name. *)
Theorem catalog_and_dispatch_agree r :
  (∀ m, live_skills r = Some m → keyed (skills m)) →
  (∀ n, merged r !! n = resolve r n) ∧
  (∀ n d, (n, d) ∈ list_commands r ↔ description <$> resolve r n = Some d).
Proof.
  intros Hk.
  assert (Hm : ∀ n, merged r !! n = resolve r n).
  { intros n. unfold merged, resolve, live_command. destruct (live_skills r) as [m|] eqn:Em.
    2: { rewrite lookup_union. by destruct (registered r !! n), (builtin r !! n). }
    specialize (Hk m eq_refl).
    destruct (listing_is_deterministic m (catalog_values m) Hk) as (_ & _ & Hnd & Hin); [done|].
    assert (E : foldl merge_skill (builtin r) (list_skills m) !! n =
                match get m n ≫= skill_as_command with Some c => Some c | None => builtin r !! n end).
    { unfold get. destruct (skills m !! n) as [i|] eqn:Ei.
      - pose proof (map_Forall_lookup_1 _ _ _ _ Hk Ei) as En. cbn in En. subst n.
        rewrite merge_skills_one; [done..|]. by apply Hin.
      - apply merge_skills_other. intros i Hi <-. apply Hin in Hi. congruence. }
    rewrite lookup_union, E. cbn [mbind option_bind].
    by destruct (registered r !! n), (get m n ≫= skill_as_command), (builtin r !! n). }
  split; [done|]. intros n d. rewrite <-Hm. unfold list_commands.
  rewrite merge_sort_Permutation, list_elem_of_fmap. split.
  - intros ([k c] & [= -> ->] & Hc%elem_of_map_to_list). by rewrite Hc.
  - intros (c & Hc & ->)%fmap_Some. exists (n, c). split; [done|]. by apply elem_of_map_to_list.
Qed.

(** ** The budget of the listing *)

Definition cost (overhead : nat) (e : Listed) : nat := listed_len e + overhead.

Fixpoint total (overhead : nat) (order : list (nat * Listed)) : nat :=
  match order with
  | [] => 0
  | x :: order => cost overhead x.2 + total overhead order
  end.

Lemma fill_prefix available overhead spent order :
  spent ≤ available →
  ∃ kept rest, order = kept ++ rest ∧ fill available overhead spent order = kept.*1 ∧
    spent + total overhead kept ≤ available ∧
    (∀ x rest', rest = x :: rest' → available < spent + total overhead kept + cost overhead x.2).
Proof.
  revert spent. induction order as [|[i e] order IH]; intros spent Hs.
  { exists [], []. split_and!; [done..|cbn; lia|done]. }
  cbn [fill]. case_bool_decide as Hc.
  - exists [], ((i, e) :: order). split_and!; [done..|cbn; lia|].
    intros x rest' [= <- <-]. cbn [total]. unfold cost. cbn [snd]. lia.
  - destruct (IH (spent + (listed_len e + overhead))) as (kept & rest & -> & Hf & Ht & Hm); [lia|].
    exists ((i, e) :: kept), rest. cbn [fmap list_fmap fst total]. unfold cost at 1. cbn [snd].
    split_and!; [done|by rewrite Hf|lia|].
    intros x rest' Hr. specialize (Hm x rest' Hr). unfold cost at 1. cbn [snd]. lia.
Qed.

#[export] Instance by_priority_total : Total by_priority.
Proof.
  intros [i a] [j b]. unfold by_priority. cbn [snd].
  destruct (Z.lt_trichotomy (listed_count a) (listed_count b)) as [?|[?|?]]; [auto| |auto].
  destruct (str_order_total (listed_name a) (listed_name b)); auto.
Qed.

#[export] Instance by_priority_trans : Transitive by_priority.
Proof.
  intros [i a] [j b] [k c]. unfold by_priority. cbn [snd].
  intros [?|[? Hab]] [?|[? Hbc]]; [left; lia..|]. right. split; [lia|].
  by eapply str_order_trans.
Qed.

(** The descriptions that are kept are those of the skills invoked most often,
    ties by name: they fit the budget together, and the next one would not. *)
Theorem descriptions_fit_the_budget es available overhead :
  ∃ kept rest,
    enumerate es ≡ₚ kept ++ rest ∧ StronglySorted by_priority (kept ++ rest) ∧
    (∀ i, i < length es →
      (select_skills_keeping_description es available overhead !! i = Some true ↔ i ∈ kept.*1)) ∧
    total overhead kept ≤ available ∧
    (∀ x rest', rest = x :: rest' → available < total overhead kept + cost overhead x.2).
Proof.
  destruct (fill_prefix available overhead 0 (merge_sort by_priority (enumerate es)))
    as (kept & rest & Ho & Hf & Ht & Hm); [lia|].
  exists kept, rest. rewrite <-Ho. split_and!.
  - by rewrite merge_sort_Permutation.
  - apply (StronglySorted_merge_sort by_priority).
  - intros i Hi. unfold select_skills_keeping_description, kept_indices. rewrite Hf.
    rewrite list_lookup_fmap, lookup_seq_lt by done. cbn [fmap option_fmap option_map].
    rewrite Nat.add_0_l. split; [intros [= H%bool_decide_eq_true]; done|].
    intros H. by rewrite bool_decide_eq_true_2.
  - lia.
  - intros x rest' Hr. specialize (Hm x rest' Hr). lia.
Qed.

(** ** What reaches the model *)

(** A skill's [{args}] is what the engine's own documentation calls for; a
    command replaces other marks and leaves it.  And the whole file goes to
    the model, its block of settings included. *)
Example args_mark_is_left :
  let d := Build_Disk (λ _, None) (λ _, false) (λ _, true)
             (λ _, Some (skill_text [(lit "description", lit "d")] (lit "Fix {args}"))) Some (λ _, true) in
  expand_skill_for_command (λ _, []) None None (Build_Env d ∅)
    (foldl assign SkillEntry_default [FName (lit "fix"); FPath (lit "/s/fix/SKILL.md")]) (lit "it") =
  [newline] ++ lit "<command-message>fix is running...</command-message>" ++ [newline] ++
  lit "<command-name>fix it</command-name>" ++ [newline] ++
  lit "---" ++ [newline] ++ lit "description: d" ++ [newline] ++ lit "---" ++ [newline] ++
  lit "Fix {args}" ++ [newline; newline] ++ lit "User arguments: it".
Proof. vm_compute. reflexivity. Qed.

(** The header counts as the 22 characters it once had. *)
Example header_outgrew_its_budget : len listing_header = 291 ∧ HEADER_CHARS = 22.
Proof. split; vm_compute; reflexivity. Qed.

(** ** Concrete runs *)

Lemma command_roundtrip_witness :
  parse_slash_command (lit "/simplify src/main.rs --all") =
  Some (Build_SlashCommand (lit "simplify") (lit "src/main.rs --all")).
Proof.
  refine (proj1 (command_roundtrip (Build_SlashCommand (lit "simplify") (lit "src/main.rs --all")) _)).
  split; [by_compute|split; [repeat constructor|]].
  apply trimmed_ok; vm_compute; reflexivity.
Defined.

Definition sample_registry : CommandRegistry :=
  insert_prompt (foldl assign SkillEntry_default [FName (lit "help"); FDescription (lit "ours")])
    (from_skill_manager
       (register_bundled (foldl assign SkillEntry_default [FName (lit "review"); FDescription (lit "r")])
          SkillManager_new)).

Lemma catalog_and_dispatch_agree_witness :
  (lit "help", lit "ours") ∈ list_commands sample_registry ∧
  merged sample_registry !! lit "review" = resolve sample_registry (lit "review").
Proof.
  assert (Hk : ∀ m, live_skills sample_registry = Some m → keyed (skills m)).
  { intros m [= <-]. cbn. apply map_Forall_insert_2; [reflexivity|apply map_Forall_empty]. }
  destruct (catalog_and_dispatch_agree sample_registry Hk) as [Hm Hl]. split; [|exact (Hm _)].
  apply Hl. vm_compute. reflexivity.
Defined.
