(* ===== verification/Directives.v ===== *)
(** * Directives in a prompt ([parse_token_budget_directive],
      [strip_token_budget_directive] and their helpers in
      [crates/runtime/src/turn.rs])

    A prompt may ask for a volume of output: [+500k] in front, or a phrase
    like [spend 2M tokens].  The directive is read, and removed from what the
    model sees.

    Positions are byte offsets, as in the code, and a slice off a character's
    boundary is [None], a panic.  How characters outside ASCII are lowered is
    a parameter: Unicode's table, one character at a time. *)

From stdpp Require Import base option numbers strings list.
From S2P Require Import Prelude RustStr Lines Conversation.

(** ** Slices by bytes *)

Definition byte_split (n : nat) (s : str) : option (str * str) :=
  p ← slice_to n s; Some (p, drop (length p) s).

(** [str::rfind]: what precedes the last occurrence. *)
Fixpoint rfind_sub (p s : str) : option str :=
  match s with
  | [] => if starts_with p s then Some [] else None
  | c :: s' =>
      match rfind_sub p s' with
      | Some l => Some (c :: l)
      | None => if starts_with p s then Some [] else None
      end
  end.

(** ** Numbers with a suffix *)

Fixpoint span_digits (s : str) : str * str :=
  match s with
  | [] => ([], [])
  | c :: s' =>
      if is_ascii_digit c then let '(d, r) := span_digits s' in (c :: d, r) else ([], s)
  end.

Definition split_numeric_prefix (s : str) : option (str * str) :=
  let '(num, rest) := span_digits (trim s) in
  if bool_decide (num = []) then None else Some (num, rest).

Definition suffix_multiplier (c : char) : option N :=
  if bool_decide (c = ch "k" ∨ c = ch "K") then Some 1000%N
  else if bool_decide (c = ch "m" ∨ c = ch "M") then Some 1000000%N
  else if bool_decide (c = ch "b" ∨ c = ch "B") then Some 1000000000%N
  else None.

(** [checked_mul]. *)
Definition checked_mul (a b : N) : option N :=
  if bool_decide (a * b < 2 ^ 64)%N then Some (a * b)%N else None.

Definition parse_suffixed_number (s : str) : option N :=
  let s := trim s in
  if bool_decide (s = []) then None
  else
    '(num, rest) ← split_numeric_prefix s;
    match head (trim rest) ≫= suffix_multiplier with
    | Some multiplier => n ← parse_usize num; checked_mul n multiplier
    | None => parse_usize num
    end.

Definition extract_suffixed_number_from_start (s : str) : option N :=
  '(num, rest) ← split_numeric_prefix (trim s);
  let multiplier := default 1%N (head (trim rest) ≫= suffix_multiplier) in
  n ← parse_usize num; checked_mul n multiplier.

Definition extract_suffixed_number_from_end (s : str) : option N :=
  let s := trim s in
  if bool_decide (s = []) then None
  else
    let '(multiplier, chars) :=
      match reverse s with
      | c :: r => match suffix_multiplier c with Some m => (m, r) | None => (1%N, c :: r) end
      | [] => (1%N, [])
      end in
    let '(digits, _) := span_digits chars in
    if bool_decide (digits = []) then None
    else n ← parse_usize (reverse digits); checked_mul n multiplier.

(** ** The directive *)

Definition ACTIONS : list str := [lit "spend "; lit "use "; lit "set "; lit "budget "].

Definition sensible (tokens : option N) : option N :=
  t ← tokens; if bool_decide (0 < t ∧ t ≤ 2000000000)%N then Some t else None.

Fixpoint first_some {A B} (f : A → option B) (l : list A) : option B :=
  match l with
  | [] => None
  | x :: l => match f x with Some y => Some y | None => first_some f l end
  end.

Definition is_suffix_char (c : char) : bool := bool_decide (is_Some (suffix_multiplier c)).

(** A suffix right after the number is dropped. *)
Definition drop_suffix (after_num : str) : str :=
  match after_num with
  | c :: r => if is_suffix_char c then r else after_num
  | [] => []
  end.

Definition strip_first (ps : list str) (s : str) : str :=
  default s (first_some (λ p, strip_prefix p s) ps).

Section Directives.
Context (unicode_lowercase : char → str).

Definition lower_char (c : char) : str :=
  if (c <? 128)%N then [if is_ascii_uppercase c then (c + 32)%N else c] else unicode_lowercase c.

Definition lower (s : str) : str := s ≫= lower_char.

Definition action_target (l action : str) : option N :=
  '(_, after) ← split_once_str action l;
  sensible (extract_suffixed_number_from_start after).

Definition parse_token_budget_directive (input : str) : option N :=
  let trimmed := trim input in
  match after_plus ← strip_prefix (lit "+") trimmed; sensible (parse_suffixed_number after_plus) with
  | Some t => Some t
  | None =>
      let l := lower trimmed in
      match first_some (action_target l) ACTIONS with
      | Some t => Some t
      | None =>
          before ← rfind_sub (lit " token") l;
          sensible (extract_suffixed_number_from_end (trim before))
      end
  end.

(** One turn of the loop over the actions: [None] panics, [Some None] goes on. *)
Definition strip_action (trimmed action : str) : option (option str) :=
  match find_sub action (lower trimmed) with
  | None => Some None
  | Some found =>
      let idx := len found in
      '(_, after_action) ← byte_split (idx + len action) trimmed;
      match split_numeric_prefix after_action with
      | None => Some None
      | Some (_, after_num) =>
          let after_suffix := drop_suffix after_num in
          let after_skip := strip_first [lit " output "; lit " output"; lit " "] after_suffix in
          let after_skip := strip_first [lit "tokens"; lit "token"] after_skip in
          '(before, _) ← byte_split idx trimmed;
          let prefix := trim before in
          let remaining := trim after_skip in
          Some (Some (trim (if bool_decide (prefix = []) then remaining
                            else if bool_decide (remaining = []) then prefix
                            else prefix ++ lit " " ++ remaining)))
      end
  end.

Fixpoint strip_actions (input trimmed : str) (actions : list str) : option str :=
  match actions with
  | [] => Some input
  | a :: actions =>
      match strip_action trimmed a with
      | None => None
      | Some (Some s) => Some s
      | Some None => strip_actions input trimmed actions
      end
  end.

Definition strip_token_budget_directive (input : str) : option str :=
  let trimmed := trim input in
  match strip_prefix (lit "+") trimmed with
  | Some rest =>
      if bool_decide (is_Some (parse_suffixed_number rest)) then
        let '(_, after_num) := default ([], rest) (split_numeric_prefix rest) in
        Some (trim (drop_suffix after_num))
      else strip_actions input trimmed ACTIONS
  | None => strip_actions input trimmed ACTIONS
  end.
End Directives.

(** ** A directive in front *)

Definition digits (d : str) : Prop := d ≠ [] ∧ Forall (λ c, is_ascii_digit c = true) d.

Definition with_task (s task : str) : str := s ++ (if decide (task = []) then [] else 32%N :: task).

Definition shorthand (d : str) (c : char) (task : str) : str :=
  with_task (lit "+" ++ d ++ [c]) task.

Lemma span_digits_app d r : Forall (λ c, is_ascii_digit c = true) d →
  (∀ c, head r = Some c → is_ascii_digit c = false) → span_digits (d ++ r) = (d, r).
Proof.
  intros Hd Hr. induction Hd as [|c d Hc _ IH]; cbn [app span_digits].
  - destruct r as [|c r]; [done|]. cbn. by rewrite Hr.
  - by rewrite Hc, IH.
Qed.

Lemma suffix_char c m : suffix_multiplier c = Some m →
  is_ascii_digit c = false ∧ is_whitespace c = false.
Proof.
  unfold suffix_multiplier. repeat case_bool_decide; [..|done]; intros _;
    repeat match goal with H : _ ∨ _ |- _ => destruct H as [->| ->] end; done.
Qed.

Lemma digit_not_space c : is_ascii_digit c = true → is_whitespace c = false.
Proof.
  unfold is_ascii_digit, is_whitespace. rewrite bool_decide_eq_true. intros Hc.
  by repeat (rewrite bool_decide_eq_false_2 by lia).
Qed.

Lemma with_task_trim s task : s ≠ [] → trimmed s → trimmed task → trim (with_task s task) = with_task s task.
Proof.
  intros Hne [Hs Hs'] [Ht Ht']. unfold with_task.
  destruct (decide (task = [])) as [->|Hn]; [rewrite app_nil_r; by apply trim_id|].
  apply trim_id. split; intros c.
  - destruct s as [|x s]; [done|]. apply Hs.
  - change (32%N :: task) with ([32%N] ++ task). rewrite !last_app.
    destruct (last task) eqn:E; [|by apply last_None in E]. intros [= ->]. by apply Ht'.
Qed.

Lemma digits_trimmed d c m : digits d → suffix_multiplier c = Some m → trimmed (d ++ [c]).
Proof.
  intros [Hd Hds] [_ Hc]%suffix_char. split; intros x.
  - destruct d as [|y d]; [done|]. intros [= ->]. apply Forall_cons in Hds as [Hx _].
    by apply digit_not_space.
  - rewrite last_snoc. by intros [= <-].
Qed.

Lemma digits_suffix_split d c m task : digits d → suffix_multiplier c = Some m → trimmed task →
  trim (with_task (d ++ [c]) task) = with_task (d ++ [c]) task ∧
  split_numeric_prefix (with_task (d ++ [c]) task) = Some (d, with_task [c] task).
Proof.
  intros Hd Hc Ht.
  assert (E : trim (with_task (d ++ [c]) task) = with_task (d ++ [c]) task).
  { apply with_task_trim; [by destruct d|by eapply digits_trimmed|done]. }
  split; [done|]. unfold split_numeric_prefix. rewrite E. unfold with_task. rewrite <-app_assoc.
  rewrite span_digits_app; [|apply Hd|].
  - rewrite bool_decide_eq_false_2 by apply Hd. done.
  - intros x [= <-]. by apply suffix_char in Hc as [].
Qed.

(** A number with a suffix in front of a prompt, as the help text shows it:
    the target is set to what it says and the model sees the rest. *)
Theorem shorthand_is_read_and_removed unicode_lowercase d c m n task :
  digits d → suffix_multiplier c = Some m → parse_usize d = Some n → trimmed task →
  (0 < n * m ≤ 2000000000)%N →
  parse_token_budget_directive unicode_lowercase (shorthand d c task) = Some (n * m)%N ∧
  strip_token_budget_directive unicode_lowercase (shorthand d c task) = Some task.
Proof.
  intros Hd Hc Hn Ht Hb. destruct (digits_suffix_split d c m task Hd Hc Ht) as [E1 E2].
  assert (E : trim (shorthand d c task) = lit "+" ++ with_task (d ++ [c]) task).
  { unfold shorthand. rewrite with_task_trim; [unfold with_task; by rewrite <-!app_assoc|done| |done].
    destruct (digits_trimmed d c m Hd Hc) as [_ Hl]. split; intros x.
    - cbn. by intros [= <-].
    - rewrite app_assoc, last_snoc. intros [= <-]. apply Hl. by rewrite last_snoc. }
  assert (P : parse_suffixed_number (with_task (d ++ [c]) task) = Some (n * m)%N).
  { unfold parse_suffixed_number. rewrite E1, E2. cbn [mbind option_bind].
    rewrite bool_decide_eq_false_2; [|unfold with_task; by destruct d].
    rewrite with_task_trim; [|done| |done].
    - unfold with_task. cbn [app head mbind option_bind]. rewrite Hc, Hn. cbn [mbind option_bind].
      unfold checked_mul. rewrite bool_decide_eq_true_2 by lia. done.
    - apply suffix_char in Hc as [_ Hc]. by split; intros x [= <-]. }
  split.
  - unfold parse_token_budget_directive. rewrite E, strip_prefix_app. cbn [mbind option_bind].
    rewrite P. unfold sensible. cbn [mbind option_bind]. by rewrite bool_decide_eq_true_2.
  - unfold strip_token_budget_directive. rewrite E, strip_prefix_app.
    rewrite bool_decide_eq_true_2 by (rewrite P; eauto). rewrite E2.
    change (Some (trim (drop_suffix (with_task [c] task))) = Some task). unfold with_task. cbn [app drop_suffix]. unfold is_suffix_char.
    rewrite bool_decide_eq_true_2 by (rewrite Hc; eauto). f_equal.
    destruct (decide (task = [])) as [->|]; [done|]. change (trim (32%N :: task)) with (trim task).
    by apply trim_id.
Qed.

(** ** No digit, no directive *)

Definition digit_free (s : str) : Prop := Forall (λ c, is_ascii_digit c = false) s.

Lemma digit_free_sub s t : t ⊆ s → digit_free s → digit_free t.
Proof. unfold digit_free. rewrite !Forall_forall. auto. Qed.

Lemma trim_sub s : trim s ⊆ s.
Proof.
  intros c. unfold trim. destruct (drop_while_suffix is_whitespace s) as (l & Hl & _).
  destruct (trim_end_prefix (trim_start s)) as (r & Hr & _). intros Hc.
  rewrite Hl. apply elem_of_app. right. fold (trim_start s). rewrite Hr. apply elem_of_app. by left.
Qed.

Lemma digit_free_split s : digit_free s → split_numeric_prefix s = None.
Proof.
  intros Hs. unfold split_numeric_prefix.
  pose proof (digit_free_sub s (trim s) (trim_sub s) Hs) as Ht.
  destruct Ht as [|c t Hc _]; [done|]. cbn [span_digits]. by rewrite Hc.
Qed.

Lemma digit_free_end s : digit_free s → extract_suffixed_number_from_end s = None.
Proof.
  intros Hs. unfold extract_suffixed_number_from_end.
  case_bool_decide; [done|].
  pose proof (digit_free_sub s (trim s) (trim_sub s) Hs) as Ht. apply Forall_reverse in Ht.
  assert (Hd : ∀ r, Forall (λ c, is_ascii_digit c = false) r → (span_digits r).1 = []).
  { intros r Hr. destruct Hr as [|c r Hc _]; [done|]. cbn [span_digits]. by rewrite Hc. }
  destruct (reverse (trim s)) as [|c r]; [done|]. apply Forall_cons in Ht as [Hc Hr].
  destruct (suffix_multiplier c).
  - specialize (Hd r Hr). destruct (span_digits r) as [d x]. cbn in Hd. by subst d.
  - specialize (Hd (c :: r)). destruct (span_digits (c :: r)) as [d x]. cbn in Hd.
    by rewrite Hd by (by constructor).
Qed.

Lemma rfind_sub_prefix p s l : rfind_sub p s = Some l → l `prefix_of` s.
Proof.
  revert l. induction s as [|c s IH]; intros l; cbn [rfind_sub].
  - case_match; [|done]. intros [= <-]. apply prefix_nil.
  - destruct (rfind_sub p s) as [l'|].
    + intros [= <-]. by apply prefix_cons, IH.
    + case_match; [|done]. intros [= <-]. apply prefix_nil.
Qed.

Lemma split_once_str_app p s l r : split_once_str p s = Some (l, r) → s = l ++ p ++ r.
Proof.
  unfold split_once_str. destruct (find_sub p s) as [l'|] eqn:E; [|done]. intros [= <- <-].
  destruct (find_sub_Some_app _ _ _ E) as [r ->].
  by rewrite (app_assoc l' p r), drop_app_length', <-app_assoc by (by rewrite length_app).
Qed.

(** A prompt without an ASCII digit sets no target, whatever words it uses:
    lower-casing makes no digits. *)
Theorem no_digit_no_directive unicode_lowercase s :
  (∀ c, digit_free (unicode_lowercase c)) → digit_free s →
  parse_token_budget_directive unicode_lowercase s = None.
Proof.
  intros Hu Hs. pose proof (digit_free_sub s (trim s) (trim_sub s) Hs) as Ht.
  assert (Hl : digit_free (lower unicode_lowercase (trim s))).
  { unfold lower, digit_free. rewrite Forall_forall. intros x Hx.
    apply list_elem_of_bind in Hx as (c & Hx & Hc). unfold lower_char in Hx.
    case_match; [|by apply (proj1 (Forall_forall _ _) (Hu c))].
    apply list_elem_of_singleton in Hx as ->. apply (proj1 (Forall_forall _ _) Ht) in Hc.
    destruct (is_ascii_uppercase c) eqn:Eu; [|done].
    unfold is_ascii_digit, is_ascii_uppercase in *. apply bool_decide_eq_true in Eu.
    apply bool_decide_eq_false. lia. }
  unfold parse_token_budget_directive. cbn zeta.
  replace (_ ≫= _) with (@None N).
  2: { symmetry. destruct (strip_prefix _ _) as [r|] eqn:E; [|done]. apply strip_prefix_Some in E.
       cbn [mbind option_bind]. unfold parse_suffixed_number. case_bool_decide; [done|].
       rewrite digit_free_split; [done|]. eapply digit_free_sub; [apply trim_sub|].
       eapply digit_free_sub; [|exact Ht]. rewrite E. intros x Hx. apply elem_of_app. by right. }
  replace (first_some _ _) with (@None N).
  2: { symmetry. assert (Ha : ∀ a, action_target (lower unicode_lowercase (trim s)) a = None).
       { intros a. unfold action_target. destruct (split_once_str _ _) as [[b r]|] eqn:E; [|done].
         apply split_once_str_app in E. cbn [mbind option_bind].
         unfold extract_suffixed_number_from_start. rewrite digit_free_split; [done|].
         eapply digit_free_sub; [apply trim_sub|]. eapply digit_free_sub; [|exact Hl]. rewrite E.
         intros x Hx. rewrite !elem_of_app. auto. }
       induction ACTIONS as [|a l IH]; [done|]. cbn [first_some]. by rewrite Ha. }
  destruct (rfind_sub _ _) as [before|] eqn:E; [|done]. apply rfind_sub_prefix in E as [r E].
  cbn [mbind option_bind]. rewrite digit_free_end; [done|].
  eapply digit_free_sub; [apply trim_sub|]. eapply digit_free_sub; [|exact Hl]. rewrite E.
  intros x Hx. apply elem_of_app. by left.
Qed.

(** ** Panics *)

Definition ascii (s : str) : Prop := Forall (λ c, (c < 128)%N) s.

Lemma ascii_char c : (c < 128)%N → len_utf8 c = 1.
Proof. intros Hc. unfold len_utf8. by destruct (N.ltb_spec c 128); [|lia]. Qed.

Lemma ascii_len s : ascii s → len s = length s.
Proof.
  induction 1 as [|c s Hc _ IH]; [done|]. change (len (c :: s)) with (len_utf8 c + len s).
  by rewrite IH, ascii_char.
Qed.

Lemma ascii_split n s : ascii s → n ≤ length s → byte_split n s = Some (take n s, drop n s).
Proof.
  intros Hs Hn. assert (E : slice_to n s = Some (take n s)).
  { revert n Hn. induction Hs as [|c s Hc _ IH]; intros [|n] Hn; cbn in Hn; try done; [lia|].
    cbn [slice_to take]. rewrite ascii_char, bool_decide_eq_false_2 by (done || lia).
    replace (S n - 1) with n by lia. by rewrite IH by lia. }
  unfold byte_split. rewrite E. cbn [mbind option_bind]. by rewrite length_take_le.
Qed.

Lemma ascii_lower unicode_lowercase s : ascii s →
  ascii (lower unicode_lowercase s) ∧ length (lower unicode_lowercase s) = length s.
Proof.
  unfold lower. induction 1 as [|c s Hc _ [IH1 IH2]]; [by split; [constructor|]|].
  cbn [mbind list_bind]. unfold lower_char at 1 3. destruct (N.ltb_spec c 128); [|lia].
  cbn [app length]. rewrite IH2. split; [|done]. constructor; [|done].
  destruct (is_ascii_uppercase c) eqn:E; [|done]. apply bool_decide_eq_true in E. lia.
Qed.

(** A prompt in ASCII is stripped without a panic, whatever it says. *)
Lemma ascii_is_stripped unicode_lowercase s : ascii s →
  is_Some (strip_token_budget_directive unicode_lowercase s).
Proof.
  intros Hs. assert (Ht : ascii (trim s)).
  { unfold ascii in *. rewrite Forall_forall in *. intros c Hc. by apply Hs, trim_sub. }
  assert (Ha : Forall (λ a : str, len a = length a) ACTIONS) by (repeat constructor).
  assert (Hloop : ∀ input actions, Forall (λ a : str, len a = length a) actions →
            is_Some (strip_actions unicode_lowercase input (trim s) actions)).
  { intros input actions Hl. induction Hl as [|a l Hla _ IH]; [by eexists|]. cbn [strip_actions].
    assert (is_Some (strip_action unicode_lowercase (trim s) a)) as [o ->]; [|destruct o; [by eexists|done]].
    unfold strip_action. destruct (ascii_lower unicode_lowercase _ Ht) as [Hlo Hll].
    destruct (find_sub a _) as [found|] eqn:E; [|by eexists].
    destruct (find_sub_Some_app _ _ _ E) as [r Hr].
    assert (Hf : ascii found) by (rewrite Hr in Hlo; by apply Forall_app in Hlo as [? _]).
    assert (length found + length a ≤ length (trim s)).
    { rewrite <-Hll, Hr, !length_app. lia. }
    rewrite ascii_len, Hla, !ascii_split by (done || lia). cbn [mbind option_bind].
    destruct (split_numeric_prefix _) as [[d x]|]; by eexists. }
  unfold strip_token_budget_directive. cbn zeta.
  destruct (strip_prefix _ _); [|by apply Hloop]. case_bool_decide; [|by apply Hloop].
  destruct (default _ _). by eexists.
Qed.

Lemma lower_cons unicode_lowercase c s :
  lower unicode_lowercase (c :: s) = lower_char unicode_lowercase c ++ lower unicode_lowercase s.
Proof. done. Qed.

Lemma lower_app unicode_lowercase s t :
  lower unicode_lowercase (s ++ t) = lower unicode_lowercase s ++ lower unicode_lowercase t.
Proof. apply bind_app. Qed.

(** The position of a phrase is found in the lower-cased prompt and used in
    the prompt itself; behind a letter that grows when it is lowered it lands
    in the middle of another, and the turn panics. *)
Theorem directive_can_panic unicode_lowercase :
  unicode_lowercase 304%N = [105%N; 775%N] →
  unicode_lowercase 233%N = [233%N] →
  let s := [304%N; 304%N] ++ lit " use 5" ++ [233%N] in
  parse_token_budget_directive unicode_lowercase s = Some 5%N ∧
  strip_token_budget_directive unicode_lowercase s = None.
Proof.
  intros H1 H2 s.
  assert (Hl : lower unicode_lowercase (trim s) =
               [105%N; 775%N; 105%N; 775%N] ++ lit " use 5" ++ [233%N]).
  { change (trim s) with s. subst s. cbn [app]. rewrite !lower_cons, lower_app.
    change (lower_char unicode_lowercase 304%N) with (unicode_lowercase 304%N).
    rewrite H1, lower_cons. change (lower_char unicode_lowercase 233%N) with (unicode_lowercase 233%N).
    rewrite H2. reflexivity. }
  split.
  - unfold parse_token_budget_directive. cbn zeta. rewrite Hl. vm_compute. reflexivity.
  - unfold strip_token_budget_directive, ACTIONS. cbn zeta. cbn [strip_actions].
    unfold strip_action. rewrite Hl. vm_compute. reflexivity.
Qed.

(** ** Words that were not meant *)

Definition target_of (s : string) : option N := parse_token_budget_directive (λ c, [c]) (lit s).
Definition stripped (s : string) : option str := strip_token_budget_directive (λ c, [c]) (lit s).

Example ordinary_words_set_a_target :
  target_of "Please use 2 spaces for indentation" = Some 2%N ∧
  stripped "Please use 2 spaces for indentation" = Some (lit "Please spaces for indentation").
Proof. split; vm_compute; reflexivity. Qed.

Example inside_a_word :
  target_of "It fails because 3 tests time out" = Some 3%N ∧
  stripped "It fails because 3 tests time out" = Some (lit "It fails beca tests time out").
Proof. split; vm_compute; reflexivity. Qed.

Example next_word_is_a_suffix :
  target_of "use 2 bullet points" = Some 2000000000%N ∧
  target_of "set 5 more assertions" = Some 5000000%N.
Proof. split; vm_compute; reflexivity. Qed.

(** The third form is read and stays in the prompt. *)
Example trailing_form_is_not_removed :
  target_of "summarize in 5k tokens" = Some 5000%N ∧
  stripped "summarize in 5k tokens" = Some (lit "summarize in 5k tokens").
Proof. split; vm_compute; reflexivity. Qed.

Lemma shorthand_is_read_and_removed_witness :
  parse_token_budget_directive (λ c, [c]) (shorthand (lit "500") (ch "k") (lit "fix the tests"))
    = Some 500000%N ∧
  strip_token_budget_directive (λ c, [c]) (shorthand (lit "500") (ch "k") (lit "fix the tests"))
    = Some (lit "fix the tests").
Proof.
  apply (shorthand_is_read_and_removed (λ c, [c]) (lit "500") (ch "k") 1000%N 500%N).
  - split; [done|repeat constructor].
  - vm_compute. reflexivity.
  - vm_compute. reflexivity.
  - apply (conj (A := clean_start _)); intros c; vm_compute; intros [= <-]; reflexivity.
  - lia.
Defined.

Lemma no_digit_no_directive_witness :
  parse_token_budget_directive (λ _, []) (lit "use spaces, set a budget of tokens") = None.
Proof.
  apply no_digit_no_directive; [intros c; constructor|].
  apply (proj2 (Forall_forall _ _)). intros c Hc.
  assert (Hall : forallb (λ c, negb (is_ascii_digit c)) (lit "use spaces, set a budget of tokens") = true)
    by (vm_compute; reflexivity).
  rewrite forallb_elem_of in Hall. by apply Hall, negb_true_iff in Hc.
Defined.

Lemma directive_can_panic_witness :
  let f c := if decide (c = 304%N) then [105%N; 775%N] else [c] in
  strip_token_budget_directive f ([304%N; 304%N] ++ lit " use 5" ++ [233%N]) = None.
Proof. intros f. apply (directive_can_panic f); reflexivity. Defined.
