(* ===== verification/TurnInput.v ===== *)
(** * Inputs ([process_turn] and [handle_tool_result] of
      [crates/runtime/src/turn.rs]; the command handlers, [resolve_permission_response]
      and the input demultiplexer of [agent.rs])

    What a message to the engine does: a slash command runs, or is replaced by
    what it expands to; a directive sets the output target; anything else is a
    turn.  [Live] is the part of the agent the messages change.

    How a turn's prompt is put together ([prepare]) and how numbers are
    printed in [/cost] are parameters.  [Demux] is the task that reads the
    input channel beside the loop that runs the turns. *)

From stdpp Require Import base option numbers sets gmap strings pretty list sorting.
From S2P Require Import Prelude RustStr Lines PermTypes Path Policies ModelClient.
From S2P Require Import Conversation Rounds Compaction Aging Compactor Messages Store Session.
From S2P Require Import AutoCompact Streaming Steering TurnLoop.
From S2P Require Import Frontmatter Skills McpPrompts Commands Directives.

(** ** Messages *)

Inductive EngineCommand :=
  | Shutdown | CompactNow | SetSessionId | UpdateModel | RefreshMcp | CancelTurn.

Inductive PersistScope := ScopeSession | ScopeLocal.

Inductive PermissionDecision :=
  | DecisionPermit
  | DecisionDeny (reason : str)
  | DecisionPermitAlways (scope : PersistScope).

Inductive InputMessage :=
  | UserInput (content : str) (attachments : list ModelContentBlock) (turn_id : str)
  | ToolResultInput (tool_use_id content : str) (is_error : bool)
  | PermissionResponse (prompt_id : str) (decision : PermissionDecision)
  | SystemInput (kind : EngineCommand) (content : str)
  | SteerInput (content message_id : str) (wants_ack : bool).

(** A turn ends with an outcome, with an error, or with the engine. *)
Inductive TurnError := TurnShutdown | TurnFailed (e : str).

(** What the host sees, the events of a turn among it. *)
Inductive UiEvent {B D : Type} :=
  | TurnStart (turn_id : str)
  | OfTurn (e : TurnLoop.Event B D)
  | TextDelta (text : str) (turn_id : str)
  | SessionChanged (session_id : str)
  | SystemNote (message : str)
  | Acknowledged (message_id : str) (ack : SteerAck)
  | Answered (prompt_id : str) (decision : PermissionDecision).
Arguments UiEvent : clear implicits.

Section Input.
Context `{TokenCounter} `{Base58} {T : Type} `{HistoryStore T} (compactor : Compactor) {B D : Type}.
Context (render_input : value → str) (summary_prompt timeout : str)
  (summarizer : option (ModelMessage → SummaryCall))
  (declines : nat → nat → nat → CompactTrigger → bool).
Context (estimate_request_overhead : B → D → nat) (engine : Engine B D) (outside : nat → Outside B D).
Context (unicode_lowercase : char → str) (bundled_text : str → str) (skill_dir session_id_var : option str)
  (env : Env) (show_cost : nat → str).

Record Live := {
  agent : Agent T;
  commands : CommandRegistry;
  agent_skills : SkillManager;
  mcp : McpManager;
  permission_denial_count : Z;
  pending_permissions : gset str;
  current_turn_id : str;
  live_model : str;
}.

Context (prepare : Live → str → list ModelContentBlock → MessageOrigin → Prompt)
  (refresh_mcp : Live → Live).

Definition set_agent (a : Agent T) (s : Live) : Live :=
  Build_Live a (commands s) (agent_skills s) (mcp s) (permission_denial_count s)
    (pending_permissions s) (current_turn_id s) (live_model s).

Definition set_denials (n : Z) (s : Live) : Live :=
  Build_Live (agent s) (commands s) (agent_skills s) (mcp s) n (pending_permissions s)
    (current_turn_id s) (live_model s).

Definition set_pending (p : gset str) (s : Live) : Live :=
  Build_Live (agent s) (commands s) (agent_skills s) (mcp s) (permission_denial_count s) p
    (current_turn_id s) (live_model s).

(** The new turn's id goes on the entries the session writes, too. *)
Definition begin_turn (id : str) (s : Live) : Live :=
  Build_Live (set_core (λ c, set_session c (set_turn_id (session c) (Some id))) (agent s))
    (commands s) (agent_skills s) (mcp s) (permission_denial_count s)
    (pending_permissions s) id (live_model s).

Definition set_live_model (m : str) (s : Live) : Live :=
  Build_Live (agent s) (commands s) (agent_skills s) (mcp s) (permission_denial_count s)
    (pending_permissions s) (current_turn_id s) m.

Definition live_session (s : Live) : SessionManager T := session (core (agent s)).

(** The engine with the model the host last chose. *)
Definition with_model (m : str) : Engine B D :=
  Build_Engine (setup engine) (turn_policy engine) (recovery_policy engine)
    (budget_policy engine) (scene_budget engine) m (max_tokens engine)
    (settings_fallback_model engine) (provenance engine) (intercept_request engine)
    (intercept_reply engine).

(** ** A turn *)

Definition outcome (reason : str) : TurnOutcome :=
  Build_TurnOutcome reason 0 0 Usage_default Usage_default None.

Definition failed_or (r : result TurnOutcome str) : result TurnOutcome TurnError :=
  match r with Ok o => Ok o | Err e => Err (TurnFailed e) end.

Notation step_result := (option (Live * list (UiEvent B D) * result TurnOutcome TurnError)).

Definition run_turn (fuel : nat) (late : list QueuedUserMessage) (content : str)
    (attachments : list ModelContentBlock) (origin : MessageOrigin) (s : Live) : step_result :=
  '(t, r) ← run_user_turn compactor render_input summary_prompt timeout summarizer declines
              (get_skill_content bundled_text env (agent_skills s)) (last_invoked_seq (agent_skills s))
              estimate_request_overhead (with_model (live_model s)) outside fuel
              (prepare s content attachments origin) late (agent s);
  Some (set_agent (who t) s, OfTurn <$> trace t, failed_or r).

(** ** Commands *)

Definition handle_help_command (s : Live) : str :=
  let l := list_commands (commands s) in
  if bool_decide (l = []) then lit "No commands registered."
  else lit "Available slash commands:" ++ [newline; newline] ++
       (l ≫= λ c, lit "/" ++ c.1 ++ lit " — " ++ c.2 ++ [newline]) ++
       [newline] ++ lit "Use /<name> [args] to invoke a command.".

Definition handle_skills_command (s : Live) : str :=
  let l := list_skills (agent_skills s) in
  if bool_decide (l = []) then lit "No skills loaded."
  else lit "Available skills:" ++ [newline; newline] ++
       (l ≫= λ i, lit "/" ++ info_name i ++ lit " — " ++ info_description i ++ lit " [" ++
                  source_text (info_source i) ++ lit "]" ++ [newline]).

Definition clear_goal (g : Goal) : Goal := Build_Goal None 0 0 (last_delta_tokens g).

Definition reinject (c : AgentState T) : AgentState T :=
  Build_AgentState (session c) (cached_mc c) (compaction_state c) (tool_results_ever_cleared c)
    (compact_warning_issued c) false (already_surfaced c).

(** The session's own error is logged and dropped. *)
Definition handle_clear_command (s : Live) : Live :=
  let a := set_core (λ c, reinject (set_session c (clear (session c)).1)) (agent s) in
  let a := set_goal (clear_goal (goal a)) (set_invoked [] a) in
  set_denials 0 (set_agent a s).

Definition handle_cost_command (s : Live) : str :=
  let ms := messages (live_session s) in
  let chars := sum_list_with (λ b, match b with Text text => len text | _ => 100 end)
                 (ms ≫= content) in
  let tokens := chars / 4 in
  lit "Session: " ++ lit (pretty (length ms)) ++ lit " messages, ~" ++ lit (pretty tokens) ++
  lit " tokens, est. cost $" ++ show_cost tokens.

(** [{:?}] of a strategy. *)
Definition strategy_text (c : CompactStrategy) : str :=
  match c with
  | NoOp => lit "NoOp" | Snip => lit "Snip" | MicroCompact => lit "MicroCompact"
  | CollapseContext => lit "CollapseContext" | FullCompact => lit "FullCompact"
  | Compaction.SessionMemory => lit "SessionMemory"
  end.

Definition compact_text (c : CompactSummary) : str :=
  lit "Compacted (" ++ strategy_text (summary_strategy c) ++ lit "): " ++
  lit (pretty (summary_messages_before c)) ++ lit " → " ++ lit (pretty (summary_messages_after c)) ++
  lit " messages, ~" ++ lit (pretty (summary_tokens_before c)) ++ lit " → ~" ++
  lit (pretty (summary_tokens_after c)) ++ lit " tokens.".

Definition live_compact_now (s : Live) : Live * option CompactSummary :=
  let '(c, r) := compact_now compactor render_input summary_prompt timeout summarizer declines
                   (get_skill_content bundled_text env (agent_skills s))
                   (last_invoked_seq (agent_skills s))
                   (current_setup (with_model (live_model s)) (agent s)) (core (agent s)) in
  (set_agent (set_core (λ _, c) (agent s)) s, r).

Definition local_command (name : str) (s : Live) : Live * str :=
  if bool_decide (name = lit "help") then (s, handle_help_command s)
  else if bool_decide (name = lit "skills") then (s, handle_skills_command s)
  else if bool_decide (name = lit "clear")
  then (handle_clear_command s, lit "Session cleared. All messages removed.")
  else if bool_decide (name = lit "compact") then
    let '(s, r) := live_compact_now s in
    (s, from_option compact_text (lit "Nothing to compact.") r)
  else if bool_decide (name = lit "cost") then (s, handle_cost_command s)
  else (s, lit "Unknown local command: " ++ name).

(** [finish_turn] after a local command: nothing was asked of the model. *)
Definition finish_command (text : str) (s : Live) : Live * list (UiEvent B D) :=
  let a := set_last_had_tool_uses false (agent s) in
  let t := finish_turn (Build_Turn a 0 0 0 Usage_default (Build_RecoveryAttempt 0 0) [] false false [])
             (Ok (outcome (lit "command_executed"))) in
  (set_agent (who t) s, TextDelta text (current_turn_id s) :: (OfTurn <$> trace t)).

(** What a text that parses as a command does; [None] when it is no command. *)
Inductive Dispatch := AsTurn (text : str) | AsLocal.

Definition dispatch (s : Live) (sc : SlashCommand) : option Dispatch :=
  let run_prompt name := AsTurn (invocation_text (invoke_prompt_command (mcp s) name (args sc))) in
  match resolve (commands s) (command sc) with
  | Some (McpPromptCommand name _ _) => Some (run_prompt name)
  | Some (PromptCommand entry) =>
      Some (AsTurn (handle_prompt_command bundled_text skill_dir session_id_var env entry sc))
  | Some (LocalCommand _ _) => Some AsLocal
  | None =>
      match find_prompt_command (mcp s) (command sc) with
      | Some _ => Some (run_prompt (command sc))
      | None => None
      end
  end.

(** The target a directive sets, with the counters it resets. *)
Definition set_target (target : Z) (s : Live) : Live :=
  let g := goal (agent s) in
  set_agent (set_goal (Build_Goal (Some target) 0 0 (last_delta_tokens g)) (agent s)) s.

(** [None] panics. *)
Definition apply_directive (content : str) (s : Live) : option (Live * str) :=
  match parse_token_budget_directive unicode_lowercase content with
  | Some target =>
      stripped ← strip_token_budget_directive unicode_lowercase content;
      Some (set_target (Z.of_N target) s, stripped)
  | None => Some (s, content)
  end.

(** ** One message *)

Definition resolve_permission_response (prompt_id : str) (decision : PermissionDecision) (s : Live)
    : Live * list (UiEvent B D) :=
  let s := match decision with
           | DecisionDeny _ => set_denials (permission_denial_count s + 1) s
           | _ => s
           end in
  if bool_decide (prompt_id ∈ pending_permissions s)
  then (set_pending (pending_permissions s ∖ {[ prompt_id ]}) s, [Answered prompt_id decision])
  else (s, []).

Definition handle_tool_result (now : Z) (tool_use_id content : str) (is_error : bool) (s : Live) : Live :=
  let m := Build_ModelMessage RoleUser [ToolResult tool_use_id content (Some is_error)] in
  set_agent (set_core (λ c, set_session c (push_message now (session c) m)) (agent s)) s.

Definition user_input (fuel : nat) (late : list QueuedUserMessage) (content : str)
    (attachments : list ModelContentBlock) (s : Live) : step_result :=
  let ask text origin s := run_turn fuel late text attachments origin s in
  match sc ← parse_slash_command content; d ← dispatch s sc; Some (sc, d) with
  | Some (_, AsTurn text) => ask text ByCommand s
  | Some (sc, AsLocal) =>
      let '(s, text) := local_command (command sc) s in
      let '(s, es) := finish_command text s in
      Some (s, es, Ok (outcome (lit "command_executed")))
  | None =>
      '(s, text) ← apply_directive content s;
      ask text ByUser s
  end.

Definition process_turn (fuel : nat) (now : Z) (late : list QueuedUserMessage) (msg : InputMessage)
    (s : Live) : step_result :=
  let quiet (s : Live) (es : list (UiEvent B D)) := Some (s, es, Ok TurnOutcome_default) in
  match msg with
  | UserInput content attachments turn_id =>
      '(s, es, r) ← user_input fuel late content attachments (begin_turn turn_id s);
      Some (s, TurnStart turn_id :: es, r)
  | ToolResultInput id content is_error =>
      Some (handle_tool_result now id content is_error s, [], Ok (outcome (lit "tool_result_received")))
  | PermissionResponse prompt_id decision =>
      let '(s, es) := resolve_permission_response prompt_id decision s in quiet s es
  | SteerInput _ message_id wants_ack =>
      quiet s (if wants_ack then [Acknowledged message_id AckNotRunning] else [])
  | SystemInput Shutdown _ => Some (s, [], Err TurnShutdown)
  | SystemInput CompactNow _ => quiet (live_compact_now s).1 []
  | SystemInput SetSessionId id =>
      let a := set_core (λ c, set_session c (set_session_id (session c) id)) (agent s) in
      quiet (set_agent a s) [SessionChanged (session_id (session (core a)))]
  | SystemInput UpdateModel model =>
      quiet (set_live_model model s) [SystemNote (lit "model set to " ++ model)]
  | SystemInput RefreshMcp _ => quiet (refresh_mcp s) []
  | SystemInput CancelTurn _ => quiet s []
  end.

(** ** What a command does *)

(** The command of a text, if it has one: what [user_input] acts on. *)
Lemma user_input_local fuel late content attachments s sc d h :
  parse_slash_command content = Some sc →
  resolve (commands s) (command sc) = Some (LocalCommand d h) →
  user_input fuel late content attachments s =
    let '(s, text) := local_command (command sc) s in
    let '(s, es) := finish_command text s in
    Some (s, es, Ok (outcome (lit "command_executed"))).
Proof.
  intros Hp Hr. unfold user_input. rewrite Hp. cbn [mbind option_bind]. unfold dispatch.
  by rewrite Hr.
Qed.

Lemma local_command_turn_id name s : current_turn_id (local_command name s).1 = current_turn_id s.
Proof. unfold local_command. repeat case_match; simplify_eq/=; try done.
  match goal with H : live_compact_now s = _ |- _ => unfold live_compact_now in H; case_match; by simplify_eq/= end.
Qed.

(** A local command answers by itself: no turn starts, whatever the model or
    the rest of the world would do, the answer is one text and the end is
    announced once. *)
Theorem local_commands_start_no_turn fuel now late content attachments id s sc d h :
  parse_slash_command content = Some sc →
  resolve (commands s) (command sc) = Some (LocalCommand d h) →
  ∃ s' text u n,
    process_turn fuel now late (UserInput content attachments id) s =
      Some (s', [TurnStart id; TextDelta text id;
                 OfTurn (TurnComplete (outcome (lit "command_executed")) u n)],
            Ok (outcome (lit "command_executed"))) ∧
    (command sc ∈ [lit "help"; lit "skills"; lit "cost"] →
       messages (live_session s') = messages (live_session s) ∧ goal (agent s') = goal (agent s)).
Proof.
  intros Hp Hr. unfold process_turn.
  rewrite (user_input_local _ _ _ _ (begin_turn id s) sc d h Hp Hr).
  pose proof (local_command_turn_id (command sc) (begin_turn id s)) as Hid.
  destruct (local_command (command sc) (begin_turn id s)) as [s1 text] eqn:E. cbn [fst] in Hid.
  unfold finish_command. rewrite Hid. do 4 eexists. split; [reflexivity|].
  intros Hc. assert (s1 = begin_turn id s) as ->.
  { rewrite !elem_of_cons, elem_of_nil in Hc. unfold local_command in E.
    destruct Hc as [Hc|[Hc|[Hc|[]]]]; rewrite Hc in E; revert E;
      repeat (rewrite bool_decide_eq_false_2 by by_compute);
      rewrite bool_decide_eq_true_2 by done; by intros [= <- _]. }
  split; [|done]. unfold live_session. cbn. by rewrite persist_messages.
Qed.

(** ** Clearing a session *)

(** After [/clear] the conversation, the goal and the count of denials are
    gone and the project's instructions are shown again; but the memories
    shown before stay marked as shown, though no message holds them any more,
    and are not recalled. *)
Theorem cleared_sessions_hide_memories s (surfaced : gset str) store names :
  already_surfaced (core (agent s)) = Some surfaced →
  let s' := handle_clear_command s in
  messages (live_session s') = [] ∧ output_token_target (goal (agent s')) = None ∧
  permission_denial_count s' = 0%Z ∧ claude_md_injected (core (agent s')) = false ∧
  already_surfaced (core (agent s')) = Some surfaced ∧
  ∀ m, m ∈ relevant_memories store (default ∅ (already_surfaced (core (agent s')))) names →
    recalled_name m ∉ surfaced.
Proof.
  intros Hs s'. split_and!; try done.
  { unfold live_session, s'. cbn. unfold clear, replace_messages_after_compact.
    repeat case_match; done. }
  intros m Hm. change (already_surfaced (core (agent s'))) with (already_surfaced (core (agent s))) in Hm.
  rewrite Hs in Hm. unfold relevant_memories in Hm. apply elem_of_take in Hm as (i & Hi & _).
  apply list_elem_of_lookup_2, list_elem_of_filter in Hi. apply Hi.
Qed.
End Input.
Arguments Live : clear implicits.

(** ** Concrete runs *)

Section Witnesses.

#[local] Existing Instance plain_ids.
#[local] Existing Instance InMemory_store.
#[local] Existing Instance Flaky_store.
#[local] Existing Instance char_counter.

Definition sample_live : Live flaky_t :=
  Build_Live (set_goal (Build_Goal (Some 5000%Z) 7 1 3) sample_turn_agent)
    CommandRegistry_default SkillManager_new (Build_McpManager [] []) 2 ∅ [] (lit "main").

#[local] Notation sample_process msg :=
  (process_turn (DefaultCompactor (λ _ _, [])) (λ _, []) [] [] None (λ _ _ _ _, false) (λ _ _, 0)
     sample_engine sample_outside (λ c, [c]) (λ _, []) None None
     (Build_Env (Build_Disk (λ _, None) (λ _, false) (λ _, false) (λ _, None) Some (λ _, false)) ∅)
     (λ _, lit "0.0000") (λ _ _ _ _, sample_prompt) (λ s, s) 6 5 [] msg sample_live).

Lemma local_commands_start_no_turn_witness :
  ∃ s' text u n,
    sample_process (UserInput (lit " /cost ") [] (lit "t1")) =
      Some (s', [TurnStart (lit "t1"); TextDelta text (lit "t1");
                 OfTurn (TurnComplete (outcome (lit "command_executed")) u n)],
            Ok (outcome (lit "command_executed"))) ∧
    goal (agent s') = goal (agent sample_live).
Proof.
  destruct (local_commands_start_no_turn (DefaultCompactor (λ _ _, [])) (λ _, []) [] [] None
    (λ _ _ _ _, false) (λ _ _, 0) sample_engine sample_outside (λ c, [c]) (λ _, []) None None
    (Build_Env (Build_Disk (λ _, None) (λ _, false) (λ _, false) (λ _, None) Some (λ _, false)) ∅)
    (λ _, lit "0.0000") (λ _ _ _ _, sample_prompt) (λ s, s) 6 5 [] (lit " /cost ") [] (lit "t1")
    sample_live (Build_SlashCommand (lit "cost") []) (lit "Show session API cost")
    (says "Cost tracking: use /cost for details" false)) as (s' & text & u & n & Hp & Hc).
  - vm_compute. reflexivity.
  - vm_compute. reflexivity.
  - exists s', text, u, n. split; [exact Hp|]. apply Hc. cbn [command]. by_compute.
Defined.

Lemma cleared_sessions_hide_memories_witness :
  let shown := set_agent (set_core (set_surfaced {[ lit "style" ]}) (agent sample_live)) sample_live in
  relevant_memories (memory_store sample_prompt)
    (default ∅ (already_surfaced (core (agent (handle_clear_command shown))))) [lit "style"] = [] ∧
  ∀ m, m ∈ relevant_memories (memory_store sample_prompt)
    (default ∅ (already_surfaced (core (agent (handle_clear_command shown))))) [lit "style"] →
    recalled_name m ∉ ({[ lit "style" ]} : gset str).
Proof.
  intros shown. split; [vm_compute; reflexivity|].
  destruct (cleared_sessions_hide_memories shown {[ lit "style" ]} (memory_store sample_prompt)
              [lit "style"]) as (_ & _ & _ & _ & _ & Hm); [reflexivity|exact Hm].
Defined.
End Witnesses.
