(* ===== verification/InputLoop.v ===== *)
(** * The input demultiplexer ([Agent::run] of [crates/runtime/src/agent.rs])

    The loop that runs turns does not read input while a turn runs.  A task
    beside it reads the channel: it answers permission prompts, cancels the
    turn and queues messages for it, and forwards everything else.  The two
    share the token of the current turn, the prompts that wait and the queue
    of steering messages.

    A run is any interleaving of the host's sends, the task's reads and the
    loop's steps; a turn is here what it does to the shared state.  Shutdown,
    the lifecycle hooks and the warm-up are left out. *)

From stdpp Require Import base option numbers strings gmap list.
From S2P Require Import Prelude RustStr PermTypes Conversation Steering TurnInput.

(** What became of a message the task has read. *)
Inductive Fate :=
  | Forwarded (m : InputMessage)
  | Steered (m : QueuedUserMessage)
  | Refused (message_id : str)
  | Decided (prompt_id : str) (decision : PermissionDecision)
  | Cancelled (token : nat).

Record LoopState := {
  raw : list InputMessage;              (** sent and not read *)
  forwarded : list InputMessage;        (** read, and waiting for the loop *)
  queue : SteerQueue;
  waiting : gset str;                   (** prompts a turn waits for *)
  current_turn_cancel : nat;            (** the token the task would cancel *)
  running : option nat;                 (** the token of the turn that runs *)
  read_log : list (InputMessage * Fate);
  started : list (nat * InputMessage);  (** what the loop has taken *)
}.

Definition LoopState_initial : LoopState := Build_LoopState [] [] SteerQueue_default ∅ 0 None [] [].

(** The task's treatment of one message. *)
Definition demux (m : InputMessage) (s : LoopState) : LoopState :=
  let log (f : Fate) := read_log s ++ [(m, f)] in
  match m with
  | SteerInput content message_id wants_ack =>
      let qm := Build_QueuedUserMessage message_id content in
      match offer (queue s) qm with
      | (q, Ok _) =>
          Build_LoopState (raw s) (forwarded s) q (waiting s) (current_turn_cancel s) (running s)
            (log (Steered qm)) (started s)
      | (q, Err refused) =>
          if wants_ack then
            Build_LoopState (raw s) (forwarded s) q (waiting s) (current_turn_cancel s) (running s)
              (log (Refused message_id)) (started s)
          else
            let turn := UserInput (queued_content refused) [] (Steering.message_id refused) in
            Build_LoopState (raw s) (forwarded s ++ [turn]) q (waiting s) (current_turn_cancel s)
              (running s) (log (Forwarded turn)) (started s)
      end
  | PermissionResponse prompt_id decision =>
      Build_LoopState (raw s) (forwarded s) (queue s) (waiting s ∖ {[ prompt_id ]})
        (current_turn_cancel s) (running s) (log (Decided prompt_id decision)) (started s)
  | SystemInput CancelTurn _ =>
      Build_LoopState (raw s) (forwarded s) (queue s) (waiting s) (current_turn_cancel s) (running s)
        (log (Cancelled (current_turn_cancel s))) (started s)
  | other =>
      Build_LoopState (raw s) (forwarded s ++ [other]) (queue s) (waiting s) (current_turn_cancel s)
        (running s) (log (Forwarded other)) (started s)
  end.

Inductive Act :=
  | Send (m : InputMessage)      (** the host *)
  | Read                         (** the task *)
  | Start                        (** the loop takes a message, under a fresh token *)
  | Touch (o : Op)               (** the turn opens, empties or closes the queue *)
  | Wait (prompt_id : str)       (** the turn asks the user *)
  | Finish.                      (** the turn ends, its queue closed *)

(** What an act does; [None] when it cannot happen now. *)
Definition act (s : LoopState) (a : Act) : option LoopState :=
  match a with
  | Send m =>
      Some (Build_LoopState (raw s ++ [m]) (forwarded s) (queue s) (waiting s)
              (current_turn_cancel s) (running s) (read_log s) (started s))
  | Read =>
      match raw s with
      | [] => None
      | m :: rest =>
          Some (demux m (Build_LoopState rest (forwarded s) (queue s) (waiting s)
                           (current_turn_cancel s) (running s) (read_log s) (started s)))
      end
  | Start =>
      match running s, forwarded s with
      | None, m :: rest =>
          let t := S (current_turn_cancel s) in
          Some (Build_LoopState (raw s) rest (queue s) (waiting s) t (Some t) (read_log s)
                  (started s ++ [(t, m)]))
      | _, _ => None
      end
  | Touch o =>
      match running s, o with
      | None, _ | _, Offer _ => None
      | Some _, _ =>
          Some (Build_LoopState (raw s) (forwarded s) (call (queue s) o).1 (waiting s)
                  (current_turn_cancel s) (running s) (read_log s) (started s))
      end
  | Wait prompt_id =>
      match running s with
      | None => None
      | Some _ =>
          Some (Build_LoopState (raw s) (forwarded s) (queue s) ({[ prompt_id ]} ∪ waiting s)
                  (current_turn_cancel s) (running s) (read_log s) (started s))
      end
  | Finish =>
      if running s then
        if accepting (queue s) then None
        else Some (Build_LoopState (raw s) (forwarded s) (queue s) (waiting s)
                     (current_turn_cancel s) None (read_log s) (started s))
      else None
  end.

Fixpoint acts (s : LoopState) (l : list Act) : option LoopState :=
  match l with
  | [] => Some s
  | a :: l => s ← act s a; acts s l
  end.

Definition sent_of (l : list Act) : list InputMessage :=
  omap (λ a, match a with Send m => Some m | _ => None end) l.

Definition forwards (log : list (InputMessage * Fate)) : list InputMessage :=
  omap (λ x, match x.2 with Forwarded m => Some m | _ => None end) log.

Definition cancels (log : list (InputMessage * Fate)) : list nat :=
  omap (λ x, match x.2 with Cancelled t => Some t | _ => None end) log.

(** A message the task may keep to itself. *)
Definition intercepted (m : InputMessage) : bool :=
  match m with
  | SteerInput _ _ _ | PermissionResponse _ _ | SystemInput CancelTurn _ => true
  | _ => false
  end.

(** What the task makes of a message is of its kind. *)
Definition fair (x : InputMessage * Fate) : Prop :=
  match x.1, x.2 with
  | SteerInput content id _, Steered q => q = Build_QueuedUserMessage id content
  | SteerInput _ id true, Refused id' => id' = id
  | SteerInput content id false, Forwarded m => m = UserInput content [] id
  | PermissionResponse p d, Decided p' d' => p' = p ∧ d' = d
  | SystemInput CancelTurn _, Cancelled _ => True
  | m, Forwarded m' => intercepted m = false ∧ m' = m
  | _, _ => False
  end.

(** ** Invariants *)

Record loop_ok (s : LoopState) : Prop := {
  ok_forwards : forwards (read_log s) = (started s).*2 ++ forwarded s;
  ok_fair : Forall fair (read_log s);
  ok_tokens : (started s).*1 = seq 1 (current_turn_cancel s);
  ok_running : ∀ t, running s = Some t → t = current_turn_cancel s;
  ok_cancels : Forall (λ t, t ≤ current_turn_cancel s) (cancels (read_log s));
  ok_queue : accepting (queue s) = true → is_Some (running s);
}.

Lemma forwards_snoc log x : forwards (log ++ [x]) =
  forwards log ++ match x.2 with Forwarded m => [m] | _ => [] end.
Proof. unfold forwards. rewrite omap_app. f_equal. cbn. by destruct x as [? []]. Qed.

Lemma cancels_snoc log x : cancels (log ++ [x]) =
  cancels log ++ match x.2 with Cancelled t => [t] | _ => [] end.
Proof. unfold cancels. rewrite omap_app. f_equal. cbn. by destruct x as [? []]. Qed.

Lemma initial_ok : loop_ok LoopState_initial.
Proof. by split; try constructor. Qed.

Lemma demux_ok m s : loop_ok s → loop_ok (demux m s).
Proof.
  intros [Hf Hfair Ht Hr Hc Hq].
  assert (Hlog : ∀ f, fair (m, f) → Forall fair (read_log s ++ [(m, f)])).
  { intros f H. apply Forall_app. split; [done|]. by constructor. }
  destruct m as [c a i|i c e|p d|k c|c i w]; cbn [demux];
    try (split; cbn; rewrite ?forwards_snoc, ?cancels_snoc; cbn [snd]; rewrite ?app_nil_r; auto;
         [by rewrite Hf, app_assoc|by apply Hlog]).
  - split; cbn; rewrite ?forwards_snoc, ?cancels_snoc; cbn [snd]; rewrite ?app_nil_r; auto.
    by apply Hlog.
  - destruct k; split; cbn; rewrite ?forwards_snoc, ?cancels_snoc; cbn [snd];
      rewrite ?app_nil_r; auto; try (by rewrite Hf, app_assoc); try (by apply Hlog).
    apply Forall_app. split; [done|]. by repeat constructor.
  - unfold offer. destruct (accepting (queue s)) eqn:Eq.
    + split; cbn; rewrite ?forwards_snoc, ?cancels_snoc; cbn [snd]; rewrite ?app_nil_r; auto.
      apply Hlog. by destruct w.
    + destruct w; split; cbn -[forwards cancels seq]; rewrite ?forwards_snoc, ?cancels_snoc; cbn [snd];
        rewrite ?app_nil_r, ?Eq; auto; try (by rewrite Hf, app_assoc); try (by apply Hlog).
Qed.

Lemma act_ok s a s' : loop_ok s → act s a = Some s' → loop_ok s'.
Proof.
  intros Hs. destruct a as [m| | |o|p|]; cbn [act].
  - intros [= <-]. by destruct Hs.
  - destruct (raw s) as [|m rest]; [done|]. intros [= <-]. apply demux_ok. by destruct Hs.
  - destruct (running s) eqn:Er; [done|]. destruct (forwarded s) as [|m rest] eqn:Ef; [done|].
    intros [= <-]. destruct Hs as [Hf Hfair Ht Hr Hc Hq]. split; cbn -[forwards cancels seq]; auto.
    + by rewrite Hf, Ef, fmap_app, <-app_assoc.
    + rewrite fmap_app, Ht. cbn [fmap list_fmap fst].
      change (S (current_turn_cancel s)) with (1 + current_turn_cancel s) at 1.
      symmetry. apply (seq_S (current_turn_cancel s) 1).
    + by intros t [= <-].
    + eapply Forall_impl; [done|]. cbn. lia.
  - destruct (running s) as [t|] eqn:Er; [|done]. destruct o; try done; intros [= <-];
      destruct Hs as [Hf Hfair Ht Hr Hc Hq]; split; cbn -[forwards cancels seq]; rewrite ?Er in *; eauto.
  - destruct (running s) as [t|] eqn:Er; [|done]. intros [= <-].
    destruct Hs as [Hf Hfair Ht Hr Hc Hq]. split; cbn -[forwards cancels seq]; rewrite ?Er in *; eauto.
  - destruct (running s) as [t|] eqn:Er; [|done].
    destruct (accepting (queue s)) eqn:Ea; [done|]. intros [= <-].
    destruct Hs as [Hf Hfair Ht Hr Hc Hq]. split; cbn -[forwards cancels seq]; auto; [done|]. rewrite Ea. done.
Qed.

Lemma acts_ok s l s' : loop_ok s → acts s l = Some s' → loop_ok s'.
Proof.
  revert s. induction l as [|a l IH]; intros s Hs; cbn [acts]; [by intros [= <-]|].
  destruct (act s a) as [s1|] eqn:E; [|done]. apply IH. by eapply act_ok.
Qed.

Lemma demux_reads m s : (read_log (demux m s)).*1 = (read_log s).*1 ++ [m] ∧ raw (demux m s) = raw s.
Proof.
  destruct m as [| | |k|c i w]; cbn [demux]; try (cbn; by rewrite fmap_app).
  - destruct k; cbn; by rewrite fmap_app.
  - unfold offer. destruct (accepting (queue s)); [cbn; by rewrite fmap_app|].
    destruct w; cbn; by rewrite fmap_app.
Qed.

Lemma acts_reads s l s' : acts s l = Some s' →
  (read_log s').*1 ++ raw s' = (read_log s).*1 ++ raw s ++ sent_of l.
Proof.
  revert s. induction l as [|a l IH]; intros s; cbn [acts].
  { intros [= <-]. cbn. by rewrite app_nil_r. }
  destruct (act s a) as [s1|] eqn:E; [|done]. cbn [mbind option_bind]. intros Hl.
  rewrite (IH _ Hl). clear IH Hl. unfold sent_of. cbn [omap list_omap].
  destruct a as [m| | |o|p|]; cbn [act] in E.
  - injection E as <-. cbn. by rewrite <-!app_assoc.
  - destruct (raw s) as [|m rest] eqn:Er; [done|]. injection E as <-.
    match goal with |- context [demux m ?x] => destruct (demux_reads m x) as [-> ->] end.
    cbn. by rewrite <-!app_assoc.
  - repeat case_match; by simplify_eq/=.
  - repeat case_match; by simplify_eq/=.
  - repeat case_match; by simplify_eq/=.
  - repeat case_match; by simplify_eq/=.
Qed.

(** C11. Nothing sent to the engine is lost, repeated or reordered: what has been
    read is what was sent, in order, with one fate each that fits its kind;
    and the loop starts what was forwarded in the order it was sent, each
    under a token of its own. *)
Theorem inputs_are_handled_in_order l s :
  acts LoopState_initial l = Some s →
  (read_log s).*1 ++ raw s = sent_of l ∧ Forall fair (read_log s) ∧
  forwards (read_log s) = (started s).*2 ++ forwarded s ∧
  NoDup (started s).*1.
Proof.
  intros Hl. pose proof (acts_reads _ _ _ Hl) as Hr. cbn in Hr.
  destruct (acts_ok _ _ _ initial_ok Hl) as [Hf Hfair Ht _ _ _].
  split_and!; [done..|]. rewrite Ht. apply NoDup_seq.
Qed.

(** C12. Cancelling hits the turn that runs, and only that one: read while a turn
    runs it cancels that turn's token; no turn that starts later is ever
    cancelled by it. *)
Theorem cancel_hits_the_running_turn l s text rest s' :
  acts LoopState_initial l = Some s →
  raw s = SystemInput CancelTurn text :: rest → act s Read = Some s' →
  cancels (read_log s') = cancels (read_log s) ++ [current_turn_cancel s] ∧
  (∀ t, running s = Some t → t = current_turn_cancel s) ∧
  ∀ l' s'' t m, acts s' l' = Some s'' → (t, m) ∈ started s'' → (t, m) ∉ started s →
    t ≠ current_turn_cancel s.
Proof.
  intros Hl Hraw Hread. pose proof (acts_ok _ _ _ initial_ok Hl) as Hs.
  cbn [act] in Hread. rewrite Hraw in Hread. injection Hread as <-. cbn [demux].
  split_and!; [cbn; by rewrite cancels_snoc|apply Hs|].
  intros l' s'' t m Hl' Hin Hnin ->. apply Hnin.
  assert (Hmono : ∀ l0 a b, acts a l0 = Some b → started a `prefix_of` started b).
  { clear. induction l0 as [|x l0 IH]; intros a b; cbn [acts]; [by intros [= <-]|].
    destruct (act a x) as [a1|] eqn:E; [|done]. cbn [mbind option_bind]. intros Hb.
    etrans; [|by eapply IH]. destruct x as [m| | |o|p|]; cbn [act] in E.
    - by injection E as <-.
    - destruct (raw a) as [|m rest]; [done|]. injection E as <-.
      destruct m as [| | |[]|? ? []]; cbn [demux]; unfold offer; repeat case_match; simplify_eq/=;
        try done; by apply prefix_refl.
    - repeat case_match; simplify_eq/=. by apply prefix_app_r.
    - repeat case_match; by simplify_eq/=.
    - repeat case_match; by simplify_eq/=.
    - repeat case_match; by simplify_eq/=. }
  destruct (Hmono _ _ _ Hl') as [extra Hex]. cbn in Hex.
  pose proof (acts_ok _ _ _ (act_ok _ Read _ Hs ltac:(cbn [act]; rewrite Hraw; reflexivity)) Hl') as Hs''.
  rewrite Hex in Hin. apply elem_of_app in Hin as [?|Hin]; [done|exfalso].
  pose proof (ok_tokens _ Hs) as Ht. pose proof (ok_tokens _ Hs'') as Ht''.
  rewrite Hex, fmap_app, Ht in Ht''.
  assert (Hnd : NoDup (seq 1 (current_turn_cancel s) ++ extra.*1)) by (rewrite Ht''; apply NoDup_seq).
  apply NoDup_app in Hnd as (_ & Hdis & _).
  destruct (decide (current_turn_cancel s = 0)) as [E0|E0].
  - assert (Hin' : 0 ∈ seq 1 (current_turn_cancel s'')).
    { rewrite <-Ht'', elem_of_app. right. apply list_elem_of_fmap. rewrite <-E0. by exists (current_turn_cancel s, m). }
    apply elem_of_seq in Hin'. lia.
  - apply (Hdis (current_turn_cancel s)); [apply elem_of_seq; lia|].
    apply list_elem_of_fmap. by exists (current_turn_cancel s, m).
Qed.

(** ** Concrete runs *)

Definition prompt (text : string) : InputMessage := UserInput (lit text) [] (lit "t").
Definition cancel : InputMessage := SystemInput CancelTurn [].

(** A cancel right behind a message is read before the loop has taken the
    message: it cancels the token of the turn before, and the turn it was
    meant for runs on. *)
Example early_cancel_is_lost :
  let run := acts LoopState_initial [Send (prompt "go"); Send cancel; Read; Read; Start] in
  (λ s, (running s, cancels (read_log s))) <$> run = Some (Some 1, [0]).
Proof. reflexivity. Qed.

Definition sample_acts : list Act :=
  [Send (prompt "go"); Read; Start; Touch Open; Send cancel;
   Send (SteerInput (lit "also") (lit "m1") false); Send (prompt "next")].

Lemma inputs_are_handled_in_order_witness :
  ∃ s, acts LoopState_initial (sample_acts ++ [Read; Read; Read]) = Some s ∧
    sent_of sample_acts = (read_log s).*1 ++ raw s ∧ (started s).*2 = [prompt "go"].
Proof.
  destruct (acts LoopState_initial (sample_acts ++ [Read; Read; Read])) as [s|] eqn:E;
    [|vm_compute in E; discriminate].
  destruct (inputs_are_handled_in_order _ s E) as (Hs & _).
  exists s. split; [reflexivity|split; [rewrite Hs; vm_compute; reflexivity|]].
  vm_compute in E. injection E as <-. vm_compute. reflexivity.
Defined.

Lemma cancel_hits_the_running_turn_witness :
  ∃ s s', acts LoopState_initial sample_acts = Some s ∧ act s Read = Some s' ∧
    running s = Some 1 ∧ cancels (read_log s') = [1].
Proof.
  destruct (acts LoopState_initial sample_acts) as [s|] eqn:E; [|vm_compute in E; discriminate].
  destruct (act s Read) as [s'|] eqn:Er.
  2: { vm_compute in E. injection E as <-. vm_compute in Er. discriminate. }
  destruct (cancel_hits_the_running_turn sample_acts s []
              [SteerInput (lit "also") (lit "m1") false; prompt "next"] s' E) as (Hc & _).
  - vm_compute in E. injection E as <-. reflexivity.
  - exact Er.
  - exists s, s'. split_and!; [reflexivity|exact Er| |].
    + vm_compute in E. injection E as <-. reflexivity.
    + rewrite Hc. vm_compute in E. injection E as <-. vm_compute. reflexivity.
Defined.
