(* ===== verification/MemoryStore.v ===== *)
(** * Durable memories ([crates/core/src/memory.rs],
      [core/src/interface/memory_contracts.rs]; recall and extraction in
      [runtime/src/turn.rs])

    One file per memory in two directories, the user's and the project's, with
    an index file in each; what is recalled for a turn and what is extracted
    after one.

    The file system is the files of each directory by name; a failing call is
    not modelled, and the order in which a directory is read is any.  Reading
    YAML, the letters outside ASCII, decimal text of floats and the age of a
    time stamp are parameters ([Codecs]). *)

From stdpp Require Import base option numbers strings pretty gmap list sorting.
From Stdlib Require Import SpecFloat.
From S2P Require Import Prelude RustStr Lines Conversation Float Path PermTypes Frontmatter Directives.

Inductive MemoryType := User | Feedback | Project | Reference.

#[export] Instance MemoryType_eq_dec : EqDecision MemoryType.
Proof. solve_decision. Defined.

Definition type_as_str (t : MemoryType) : str :=
  match t with
  | User => lit "user" | Feedback => lit "feedback" | Project => lit "project" | Reference => lit "reference"
  end.

Definition type_of_str (s : str) : MemoryType :=
  if decide (s = lit "feedback") then Feedback
  else if decide (s = lit "project") then Project
  else if decide (s = lit "reference") then Reference
  else User.

Record DurableMemory := {
  name : str;
  description : str;
  memory_type : MemoryType;
  content : str;
  source_session_id : str;
  confidence : spec_float;
  last_seen : str;
  recall_count : Z;
}.

Inductive MemoryScope := UserScope | LocalScope.

Record ScopedMemory := {
  memory : DurableMemory;
  scope : MemoryScope;
}.

(** ** How much a memory counts *)

(** [f64::max] and [f64::min] pass over a NaN. *)
Definition f64_max (a b : spec_float) : spec_float :=
  match a, b with
  | S754_nan, _ => b
  | _, S754_nan => a
  | _, _ => if SFltb a b then b else a
  end.

Definition f64_min (a b : spec_float) : spec_float :=
  match a, b with
  | S754_nan, _ => b
  | _, S754_nan => a
  | _, _ => if SFltb b a then b else a
  end.

Definition f64_sub : spec_float → spec_float → spec_float := SFsub 53 1024.

(** The literals [0.3], [0.05] and [0.5]. *)
Definition f64_0_3 : spec_float := f64_div (f64_of 3) (f64_of 10).
Definition f64_0_05 : spec_float := f64_div (f64_of 1) (f64_of 20).
Definition f64_0_5 : spec_float := f64_div (f64_of 1) (f64_of 2).

(** [whole_days]: the age of a time stamp, if it can be read. *)
Definition staleness_penalty (whole_days : str → option Z) (m : DurableMemory) : spec_float :=
  match whole_days (last_seen m) with
  | None => f64_of 1
  | Some d =>
      let age_days := f64_of (Z.max d 0) in
      if SFleb age_days (f64_of 7) then f64_of 0
      else
        let base_penalty := f64_min (f64_div (f64_sub age_days (f64_of 7)) (f64_of 83)) (f64_of 1) in
        let recall_bonus := f64_min (f64_mul (f64_of (recall_count m)) f64_0_05) f64_0_5 in
        f64_max (f64_sub base_penalty recall_bonus) (f64_of 0)
  end.

Definition effective_confidence (whole_days : str → option Z) (m : DurableMemory) : spec_float :=
  f64_max (f64_mul (confidence m) (f64_sub (f64_of 1) (staleness_penalty whole_days m))) (f64_of 0).

(** ** Files *)

#[local] Notation Files := (gmap str str).
#[local] Notation Disk := (gmap str (gmap str str)).

Definition INDEX_FILE : str := lit "MEMORY.md".

(** [yaml]: what [serde_yaml] finds under a path of keys, if that is a string;
    [None] when the text is not YAML. *)
Class Codecs := {
  unicode_alphanumeric : char → bool;
  yaml : str → option (list str → option str);
  print_f64 : spec_float → str;
  parse_f64 : str → option spec_float;
  listing : Files → list (str * str);
  listing_files : ∀ f, listing f ≡ₚ map_to_list f;
}.

Section Codec.
Context {CO : Codecs}.

Definition is_alphanumeric (c : char) : bool :=
  if bool_decide (c < 128)%N then is_ascii_alphanumeric c else unicode_alphanumeric c.

Definition sanitize_filename (n : str) : str :=
  trim_end_matches [ch "-"] (trim_start_matches [ch "-"]
    ((λ c, if is_alphanumeric c || bool_decide (c = ch "-") || bool_decide (c = ch "_") then c else ch "-") <$> n)).

Definition memory_file (n : str) : str := sanitize_filename n ++ lit ".md".

Definition yaml_quote (s : str) : str :=
  [quote] ++ replace [quote] (lit "\" ++ [quote]) (replace (lit "\") (lit "\\") s) ++ [quote].

Definition trim_quotes (s : str) : str :=
  trim_end_matches [apostrophe] (trim_start_matches [apostrophe]
    (trim_end_matches [quote] (trim_start_matches [quote] s))).

Definition extract_yaml_field (frontmatter key : str) : option str :=
  head (omap (λ line, v ← strip_prefix (key ++ lit ":") (trim line); Some (trim_quotes (trim v)))
          (lines frontmatter)).

(** [in_parent]: whether the line before belongs to the parent. *)
Fixpoint extract_nested (parent child : str) (in_parent : bool) (ls : list str) : option str :=
  match ls with
  | [] => None
  | line :: ls =>
      let trimmed := trim line in
      if decide (trimmed = parent ++ lit ":") then extract_nested parent child true ls
      else if in_parent then
        match strip_prefix (child ++ lit ":") trimmed with
        | Some v => Some (trim_quotes (trim v))
        | None => extract_nested parent child (starts_with (lit " ") trimmed) ls
        end
      else extract_nested parent child false ls
  end.

Definition extract_yaml_field_nested (frontmatter parent child : str) : option str :=
  extract_nested parent child false (lines frontmatter).

Definition closing : str := newline :: lit "---".

(** What stands between the markers. *)
Definition frontmatter_of (trimmed : str) : option str :=
  after_first ← strip_prefix (lit "---") trimmed;
  match find_sub closing after_first with
  | Some fm => Some fm
  | None => find_sub (lit "---") after_first
  end.

(** What follows a closing marker on a line of its own. *)
Definition content_of (trimmed : str) : str :=
  match split_once_str closing (drop 3 trimmed) with
  | Some (_, rest) => trim rest
  | None => []
  end.

Definition header_of (fm : str) : option (str * str * MemoryType) :=
  match yaml fm with
  | Some field =>
      n ← field [lit "name"];
      let t := match field [lit "type"] with Some t => Some t | None => field [lit "metadata"; lit "type"] end in
      Some (n, default [] (field [lit "description"]), from_option type_of_str User t)
  | None =>
      n ← extract_yaml_field fm (lit "name");
      let t := match extract_yaml_field fm (lit "type") with
               | Some t => Some t
               | None => extract_yaml_field_nested fm (lit "metadata") (lit "type")
               end in
      Some (n, default [] (extract_yaml_field fm (lit "description")), from_option type_of_str User t)
  end.

Definition meta_str (fm key : str) : option str :=
  match yaml fm ≫= (λ field, field [key]) with
  | Some s => Some s
  | None => extract_yaml_field fm key
  end.

Definition parse_u32 (s : str) : option Z :=
  n ← parse_usize s; if bool_decide (n < 2 ^ 32)%N then Some (Z.of_N n) else None.

Definition parse_memory_file (raw : str) : option DurableMemory :=
  let trimmed := trim raw in
  fm ← frontmatter_of trimmed;
  h ← header_of fm;
  let '(n, d, t) := h in
  Some {|
    name := n; description := d; memory_type := t; content := content_of trimmed;
    source_session_id := default [] (meta_str fm (lit "source_session_id"));
    confidence := default f64_0_8 (meta_str fm (lit "confidence") ≫= parse_f64);
    last_seen := default [] (meta_str fm (lit "last_seen"));
    recall_count := default 0%Z (meta_str fm (lit "recall_count") ≫= parse_u32);
  |}.

Definition frontmatter_fields (m : DurableMemory) : str :=
  join [newline] [
    lit "name: " ++ name m;
    lit "description: " ++ yaml_quote (description m);
    lit "type: " ++ type_as_str (memory_type m);
    lit "confidence: " ++ print_f64 (confidence m);
    lit "last_seen: " ++ yaml_quote (last_seen m);
    lit "source_session_id: " ++ yaml_quote (source_session_id m);
    lit "recall_count: " ++ lit (pretty (Z.to_N (recall_count m)))].

Definition render (m : DurableMemory) : str :=
  lit "---" ++ [newline] ++ frontmatter_fields m ++ closing ++ [newline; newline] ++ content m.

Definition write_memory_file (dir : str) (m : DurableMemory) (d : Disk) : Disk :=
  <[dir := <[memory_file (name m) := render m]> (default ∅ (d !! dir))]> d.

(** [.md] files but the index. *)
Definition is_memory_file (n : str) : bool :=
  bool_decide (extension n = Some (lit "md")) && bool_decide (n ≠ INDEX_FILE).

Definition load_files (f : Files) : list DurableMemory :=
  omap (λ '(n, c), if is_memory_file n then parse_memory_file c else None) (listing f).

Definition load_from_dir (d : Disk) (dir : str) : list DurableMemory := load_files (default ∅ (d !! dir)).

(** ** The index *)

Definition by_name (a b : DurableMemory) : Prop := str_order (name a) (name b).

#[export] Instance by_name_dec a b : Decision (by_name a b).
Proof. unfold by_name. apply _. Defined.

Definition index_line (m : DurableMemory) : str :=
  lit "- [" ++ name m ++ lit "](" ++ name m ++ lit ".md) — " ++ description m ++ [newline].

Definition rebuild_index (ms : list DurableMemory) : str := ms ≫= index_line.

Definition rebuild_index_from_disk (dir : str) (d : Disk) : Disk :=
  let ms := merge_sort by_name (load_from_dir d dir) in
  <[dir := <[INDEX_FILE := rebuild_index ms]> (default ∅ (d !! dir))]> d.

(** [- [name](name.md) — ...]. *)
Definition index_line_name (line : str) : option str :=
  rest ← strip_prefix (lit "- [") (trim_start line);
  p ← split_once_str (lit "](") rest;
  let n := trim p.1 in
  if decide (n = []) then None else Some n.

(** ** The store *)

Record MemoryStore := {
  user_dir : str;
  local_dir : str;
}.

Definition dirs (s : MemoryStore) : list str :=
  if decide (user_dir s = local_dir s) then [local_dir s] else [local_dir s; user_dir s].

(** Most recent first, then by name. *)
Definition recent_first (a b : str * DurableMemory) : Prop :=
  if decide (last_seen a.2 = last_seen b.2) then str_order (name a.2) (name b.2)
  else str_order (last_seen b.2) (last_seen a.2).

#[export] Instance recent_first_dec a b : Decision (recent_first a b).
Proof. unfold recent_first. case_decide; apply _. Defined.

Definition add_new (out : list (str * DurableMemory)) (dm : str * DurableMemory) : list (str * DurableMemory) :=
  if existsb (λ x, bool_decide (name x.2 = name dm.2)) out then out else out ++ [dm].

Definition load_all_with_home (s : MemoryStore) (d : Disk) : list (str * DurableMemory) :=
  merge_sort recent_first (foldl add_new [] (dirs s ≫= λ dir, (λ m, (dir, m)) <$> load_from_dir d dir)).

Definition load_all (s : MemoryStore) (d : Disk) : list DurableMemory := (load_all_with_home s d).*2.

(** The lines of both indices, those that point at a memory already named
    left out. *)
Definition add_index_line (acc : list str * list str) (line : str) : list str * list str :=
  let '(out, seen) := acc in
  let key := default (trim line) (index_line_name line) in
  if decide (key = []) then (out ++ [line], seen)
  else if bool_decide (key ∈ seen) then acc
  else (out ++ [line], key :: seen).

Definition load_index (s : MemoryStore) (d : Disk) : str :=
  let ls := dirs s ≫= λ dir, default [] (lines <$> (d !! dir ≫= (.!! INDEX_FILE))) in
  let text := join [newline] (foldl add_index_line ([], []) ls).1 in
  if decide (text = []) then [] else text ++ [newline].

Definition home_dir_for (s : MemoryStore) (d : Disk) (n : str) : str :=
  default (user_dir s)
    (find_first (λ dir, bool_decide (is_Some (d !! dir ≫= (.!! memory_file n)))) (dirs s)).

Definition touch (dir : str) (touched : list str) : list str :=
  if bool_decide (dir ∈ touched) then touched else touched ++ [dir].

Definition scope_dir (s : MemoryStore) (sc : MemoryScope) : str :=
  match sc with UserScope => user_dir s | LocalScope => local_dir s end.

(** The disk, how many were saved and the directories written to. *)
Definition persist_one (s : MemoryStore) (acc : Disk * nat * list str) (sm : ScopedMemory) : Disk * nat * list str :=
  let '(d, saved, touched) := acc in
  if SFltb (confidence (memory sm)) f64_0_3 then acc
  else
    let dir := scope_dir s (scope sm) in
    (write_memory_file dir (memory sm) d, S saved, touch dir touched).

Definition rebuild_all (touched : list str) (d : Disk) : Disk := foldl (λ d dir, rebuild_index_from_disk dir d) d touched.

Definition persist_batch_scoped (s : MemoryStore) (sms : list ScopedMemory) (d : Disk) : Disk * nat :=
  let '(d, saved, touched) := foldl (persist_one s) (d, 0, []) sms in
  (rebuild_all touched d, saved).

Definition scoped_at_home (s : MemoryStore) (d : Disk) (m : DurableMemory) : ScopedMemory :=
  {| memory := m; scope := if decide (home_dir_for s d (name m) = local_dir s) then LocalScope else UserScope |}.

Definition persist_batch (s : MemoryStore) (ms : list DurableMemory) (d : Disk) : Disk * nat :=
  persist_batch_scoped s (scoped_at_home s d <$> ms) d.

Definition matches_query (query : str) (m : DurableMemory) : bool :=
  contains query (name m) || contains query (description m) || contains query (content m).

Definition search (s : MemoryStore) (d : Disk) (query : str) : list DurableMemory :=
  filter (λ m, matches_query query m = true) (load_all s d).

Definition delete_file (dir file : str) (d : Disk) : Disk := alter (delete file) dir d.

Definition remove_from (file : str) (acc : Disk * bool) (dir : str) : Disk * bool :=
  let '(d, removed) := acc in
  match d !! dir ≫= (.!! file) with
  | Some _ => (rebuild_index_from_disk dir (delete_file dir file d), true)
  | None => acc
  end.

Definition remove (s : MemoryStore) (n : str) (d : Disk) : Disk * bool :=
  foldl (remove_from (memory_file n)) (d, false) (dirs s).

(** *** Compacting *)

Definition compaction_victims (entries : list (str * DurableMemory)) (max_entries : nat) : list (str * str) :=
  prod_map id name <$> drop max_entries entries.

Definition delete_entry (acc : Disk * list str) (e : str * str) : Disk * list str :=
  let '(d, touched) := acc in
  let file := memory_file e.2 in
  match d !! e.1 ≫= (.!! file) with
  | Some _ => (delete_file e.1 file d, touch e.1 touched)
  | None => acc
  end.

Definition delete_entries (es : list (str * str)) (d : Disk) : Disk :=
  let '(d, touched) := foldl delete_entry (d, []) es in rebuild_all touched d.

Definition keeps (whole_days : str → option Z) (m : DurableMemory) : bool :=
  SFleb f64_0_3 (effective_confidence whole_days m).

Definition doomed (s : MemoryStore) (whole_days : str → option Z) (max_entries : nat) (d : Disk) : list (str * str) :=
  let all := load_all_with_home s d in
  (prod_map id name <$> filter (λ e, keeps whole_days e.2 = false) all) ++
  compaction_victims (filter (λ e, keeps whole_days e.2 = true) all) max_entries.

Definition compact (s : MemoryStore) (whole_days : str → option Z) (max_entries : nat) (d : Disk) : Disk * nat :=
  let es := doomed s whole_days max_entries d in (delete_entries es d, length es).
End Codec.

(** ** The index in the prompt *)

Definition MAX_LINES : nat := 200.
Definition MAX_BYTES : nat := 25000.

Definition truncation_reason (byte_count line_count : nat) : str :=
  let num n := lit (pretty n) in
  if bool_decide (MAX_BYTES < byte_count) && negb (bool_decide (MAX_LINES < line_count))
  then num byte_count ++ lit " bytes (limit: " ++ num MAX_BYTES ++ lit " bytes) — index entries are too long"
  else if bool_decide (MAX_LINES < line_count) && negb (bool_decide (MAX_BYTES < byte_count))
  then num line_count ++ lit " lines (limit: " ++ num MAX_LINES ++ lit " lines)"
  else num line_count ++ lit " lines and " ++ num byte_count ++ lit " bytes".

(** The text kept; [None] where the slice splits a character. *)
Definition cut_entries (trimmed : str) : option str :=
  let ls := lines trimmed in
  let t := if bool_decide (MAX_LINES < length ls) then join [newline] (take MAX_LINES ls) else trimmed in
  if bool_decide (MAX_BYTES < len t) then
    h ← byte_split MAX_BYTES t;
    Some (default h.1 (rfind_sub [newline] h.1))
  else Some t.

(** The content and how many lines there were; [None] is a panic. *)
Definition truncate_entrypoint_content (raw : str) : option (str * nat) :=
  let trimmed := trim raw in
  let line_count := length (lines trimmed) in
  let byte_count := len trimmed in
  if negb (bool_decide (MAX_LINES < line_count)) && negb (bool_decide (MAX_BYTES < byte_count))
  then Some (trimmed, line_count)
  else
    kept ← cut_entries trimmed;
    Some (kept ++ [newline; newline] ++ lit "> WARNING: " ++ INDEX_FILE ++ lit " is " ++
            truncation_reason byte_count line_count ++
            lit ". Only part of it was loaded. Keep index entries to one line under ~200 chars; move detail into topic files.",
          line_count).

(** ** Recall *)

Record RetrievalRequest := {
  query : str;
  limit : nat;
  already_surfaced : list str;
  recent_tools : list str;
}.

Definition not_shown (surfaced tools : list str) (n : str) : bool :=
  negb (bool_decide (n ∈ surfaced)) && negb (existsb (eq_ignore_ascii_case n) tools).

(** What the model's reply says: [None] when the call fails or the reply is
    not the object it was asked for. *)
Definition selected_memories (parsed : option value) : option (list str) :=
  match parsed ≫= value_get (lit "selected_memories") with
  | Some (VArray arr) => Some (omap as_str arr)
  | _ => None
  end.

(** [select_memories_from]; [reply] is the model's, parsed as JSON. *)
Definition select_memories_from (memories : list DurableMemory) (r : RetrievalRequest)
    (reply : option value) : list str :=
  let headers := filter (λ n, not_shown (already_surfaced r) (recent_tools r) n = true) (name <$> memories) in
  if bool_decide (headers = []) then []
  else if bool_decide (length headers ≤ limit r) then headers
  else
    match selected_memories reply with
    | Some names => take (limit r) names
    | None =>
        take (limit r) (filter (λ n, n ∈ headers) (name <$> filter (λ m, matches_query (query r) m = true) memories))
    end.

(** [SubstringRetriever], over what a search of the store finds. *)
Definition substring_retrieve (found : list DurableMemory) (r : RetrievalRequest) : list str :=
  take (limit r) (filter (λ n, not_shown (already_surfaced r) (recent_tools r) n = true) (name <$> found)).

Definition retrieve_with_hooks (hooks : list ((RetrievalRequest → RetrievalRequest) * (RetrievalRequest → list str → list str)))
    (retrieve : RetrievalRequest → list str) (r : RetrievalRequest) : list str :=
  let r := foldl (λ r h, h.1 r) r hooks in
  foldl (λ names h, h.2 r names) (retrieve r) hooks.

(** The memories that were recalled, counted once more. *)
Definition bump (names : list str) (all : list DurableMemory) : list DurableMemory :=
  (λ m, Build_DurableMemory (name m) (description m) (memory_type m) (content m) (source_session_id m)
          (confidence m) (last_seen m) (recall_count m + 1)) <$> filter (λ m, name m ∈ names) all.

(** ** Extraction *)

(** One object of the model's answer; [as_f64] reads a number. *)
Definition extracted_memory (as_f64 : value → option spec_float) (now : str) (v : value) : option ScopedMemory :=
  n ← value_get (lit "name") v ≫= as_str;
  let text k := default [] (value_get k v ≫= as_str) in
  let t := type_of_str (default (lit "user") (value_get (lit "type") v ≫= as_str)) in
  let c := default f64_0_8 (value_get (lit "confidence") v ≫= as_f64) in
  if bool_decide (n = []) || SFltb c f64_0_3 then None
  else Some {| memory := {| name := n; description := text (lit "description"); memory_type := t;
                            content := text (lit "content"); source_session_id := []; confidence := c;
                            last_seen := now; recall_count := 0 |};
               scope := match t with Project => LocalScope | _ => UserScope end |}.

Definition extract_memories (as_f64 : value → option spec_float) (now : str) (reply : option value) : list ScopedMemory :=
  match reply with Some (VArray vs) => omap (extracted_memory as_f64 now) vs | _ => [] end.

(** ** What is written is read *)

Lemma find_sub_here c q l r : c ∉ q → contains (c :: q) l = false →
  find_sub (c :: q) (l ++ (c :: q) ++ r) = Some l.
Proof.
  intros Hc Hl. assert (∀ l1 l2, l = l1 ++ l2 → find_sub (c :: q) (l2 ++ (c :: q) ++ r) = Some l2) as H;
    [|by apply (H [])].
  intros l1 l2. revert l1. induction l2 as [|x l2 IH]; intros l1 E.
  - change ([] ++ (c :: q) ++ r) with (c :: q ++ r). cbn [find_sub].
    rewrite (starts_with_app (c :: q) r : starts_with (c :: q) (c :: q ++ r) = true). done.
  - change ((x :: l2) ++ (c :: q) ++ r) with (x :: (l2 ++ (c :: q) ++ r)). cbn [find_sub].
    destruct (starts_with (c :: q) (x :: l2 ++ (c :: q) ++ r)) eqn:Es.
    + exfalso. apply starts_with_spec in Es as [t Et]. injection Et as -> Et.
      apply app_eq_inv in Et as [(k & E1 & E2)|(k & E1 & E2)].
      * apply Bool.not_true_iff_false in Hl. apply Hl, contains_spec. exists l1.
        destruct k as [|y k]; [by exists []; rewrite E, E1, !app_nil_r|]. exists (y :: k). by rewrite E, E1.
      * destruct k as [|y k].
        -- apply Bool.not_true_iff_false in Hl. apply Hl, contains_spec. exists l1, [].
           rewrite app_nil_r in E1 |- *. by rewrite E, E1.
        -- injection E2 as <- _. apply Hc. rewrite E1. set_solver.
    + rewrite (IH (l1 ++ [x])) by (by rewrite E, <-app_assoc). done.
Qed.

Lemma lines_cons l t : newline ∉ l → lines (l ++ newline :: t) = strip_line (l ++ [newline]) :: lines t.
Proof. intros Hl. unfold lines. rewrite split_inclusive_app, split_inclusive_line by done. done. Qed.

(** *** Numbers *)

Lemma pretty_digit n : (n < 10)%N → ∃ a : Ascii.ascii, pretty_N_char n = a ∧
  ∀ s, lit (String.String a s) = (48 + n)%N :: lit s.
Proof.
  intros Hn. eexists. split; [done|]. intros s.
  assert (n = 0 ∨ n = 1 ∨ n = 2 ∨ n = 3 ∨ n = 4 ∨ n = 5 ∨ n = 6 ∨ n = 7 ∨ n = 8 ∨ n = 9)%N as H by lia.
  repeat destruct H as [->|H]; subst; try reflexivity.
Qed.

Lemma digit_ok d : (d < 10)%N → is_ascii_digit (48 + d)%N = true.
Proof. intros Hd. unfold is_ascii_digit. rewrite bool_decide_eq_true. split; [apply N.le_add_r|]. lia. Qed.

Lemma parse_pretty_go x s : (0 < x < 2 ^ 64)%N →
  parse_digits 0 (lit (pretty_N_go x s)) = parse_digits x (lit s).
Proof.
  revert s. induction (N.lt_wf_0 x) as [x _ IH]. intros s [Hx Hb].
  rewrite pretty_N_go_step by lia.
  assert (x `mod` 10 < 10)%N as Hm by (apply N.mod_lt; lia).
  destruct (pretty_digit _ Hm) as (a & -> & Ha).
  assert (parse_digits (x / 10) (lit (String.String a s)) = parse_digits x (lit s)) as Hstep.
  { rewrite Ha. cbn [parse_digits].
    rewrite (digit_ok _ Hm).
    assert (x / 10 * 10 + (48 + x `mod` 10 - 48) = x)%N as -> by (rewrite (N.add_comm 48), N.add_sub, N.mul_comm; symmetry; apply N.div_mod').
    by rewrite decide_False by lia. }
  destruct (decide (x < 10)%N) as [Hlt|Hge].
  - rewrite N.div_small in * by done. rewrite pretty_N_go_0. exact Hstep.
  - rewrite IH; [exact Hstep|apply N.div_lt; lia|]. split; [apply N.div_str_pos; lia|].
    apply N.le_lt_trans with x; [|done]. apply N.Div0.div_le_upper_bound. lia.
Qed.

Lemma digits_go x s : Forall (λ c, is_ascii_digit c = true) (lit s) →
  Forall (λ c, is_ascii_digit c = true) (lit (pretty_N_go x s)).
Proof.
  revert s. induction (N.lt_wf_0 x) as [x _ IH]. intros s Hs.
  destruct (decide (x = 0)%N) as [->|Hx]; [by rewrite pretty_N_go_0|].
  rewrite pretty_N_go_step by lia. apply IH; [apply N.div_lt; lia|].
  assert (x `mod` 10 < 10)%N as Hm by (apply N.mod_lt; lia).
  destruct (pretty_digit _ Hm) as (a & -> & ->). constructor; [by apply digit_ok|done].
Qed.

Lemma pretty_digits (n : N) : Forall (λ c, is_ascii_digit c = true) (lit (pretty n)) ∧ lit (pretty n) ≠ [].
Proof.
  unfold pretty, pretty_N. case_decide as Hn; [by repeat constructor|]. split.
  - apply digits_go. constructor.
  - assert (∀ x s, x ≠ 0%N ∨ lit s ≠ [] → lit (pretty_N_go x s) ≠ []) as H; [|by apply H; left].
    clear. intros x. induction (N.lt_wf_0 x) as [x _ IH]. intros s Hs.
    destruct (decide (x = 0)%N) as [->|Hx]; [rewrite pretty_N_go_0; naive_solver|].
    rewrite pretty_N_go_step by lia. apply IH; [apply N.div_lt; lia|]. right.
    destruct (pretty_digit (x `mod` 10)) as (a & -> & ->); [apply N.mod_lt; lia|done].
Qed.

Lemma parse_pretty (n : N) : (n < 2 ^ 64)%N → parse_usize (lit (pretty n)) = Some n.
Proof.
  intros Hn. destruct (pretty_digits n) as [Hd Hne]. unfold parse_usize.
  assert (strip_prefix "+" (lit (pretty n)) = None) as ->.
  { destruct (lit (pretty n)) as [|c s]; [done|]. apply Forall_cons in Hd as [Hc _].
    apply eq_None_not_Some. intros [r Hr%strip_prefix_Some]. injection Hr as -> _. vm_compute in Hc. discriminate Hc. }
  destruct (lit (pretty n)) as [|c s] eqn:E; [done|]. rewrite <-E.
  unfold pretty, pretty_N in *. case_decide as H0; [by subst|].
  rewrite parse_pretty_go by lia. done.
Qed.

(** What stands after a key is read back as it is. *)
Definition plain (s : str) : Prop := trimmed s ∧ newline ∉ s ∧ trim_quotes s = s.

Lemma trim_quotes_id s : (∀ c, c ∈ s → c ≠ quote ∧ c ≠ apostrophe) → trim_quotes s = s.
Proof.
  intros H. assert (∀ q t, q = quote ∨ q = apostrophe → (∀ c, c ∈ t → c ∈ s) → trim_start_matches [q] t = t) as Ht.
  { intros q t Hq Hin. apply drop_while_id. intros c Hc. apply bool_decide_eq_false. rewrite list_elem_of_singleton.
    destruct t; [done|]. injection Hc as ->. destruct (H c (Hin c (list_elem_of_here _ _))). naive_solver. }
  unfold trim_quotes, trim_end_matches. assert (∀ c, c ∈ reverse s → c ∈ s) as Hr by (intros c; by rewrite elem_of_reverse).
  rewrite (Ht quote s), (Ht quote (reverse s)), reverse_involutive by auto.
  by rewrite (Ht apostrophe s), (Ht apostrophe (reverse s)), reverse_involutive by auto.
Qed.

Lemma digits_plain s : Forall (λ c, is_ascii_digit c = true) s → s ≠ [] → plain s.
Proof.
  intros Hs Hne. assert (∀ c, c ∈ s → is_whitespace c = false ∧ c ≠ newline ∧ c ≠ quote ∧ c ≠ apostrophe) as Hd.
  { intros c Hc. rewrite Forall_forall in Hs. specialize (Hs c Hc). apply bool_decide_eq_true in Hs.
    assert (c = 48 ∨ c = 49 ∨ c = 50 ∨ c = 51 ∨ c = 52 ∨ c = 53 ∨ c = 54 ∨ c = 55 ∨ c = 56 ∨ c = 57)%N as H by lia.
    by repeat destruct H as [->|H]; subst. }
  split_and!.
  - split; intros c Hc; apply Hd; [destruct s; [done|]; injection Hc as ->; left|by apply last_Some_elem_of].
  - intros Hn. by destruct (Hd _ Hn) as (_ & ? & _).
  - apply trim_quotes_id. intros c Hc. by apply Hd.
Qed.

(** *** The fields *)

Lemma trim_around l s r : Forall (λ c, is_whitespace c = true) l → Forall (λ c, is_whitespace c = true) r →
  s ≠ [] → trimmed s → trim (l ++ s ++ r) = s.
Proof.
  intros Hl Hr Hne [Hs He]. unfold trim, trim_start, trim_end. rewrite drop_while_app by done.
  rewrite (drop_while_id _ (s ++ r)).
  - rewrite reverse_app, drop_while_app by (by apply Forall_reverse).
    rewrite drop_while_id; [by rewrite reverse_involutive|]. intros c. rewrite head_reverse. apply He.
  - intros c Hc. apply Hs. by destruct s.
Qed.

Lemma trim_head x s : is_whitespace x = false → ∃ t, trim (x :: s) = x :: t.
Proof.
  intros Hx. unfold trim. rewrite trim_start_id by (intros c [= <-]; done).
  destruct (trim_end_prefix (x :: s)) as (l & E & Hl). destruct (trim_end (x :: s)) as [|y t].
  - exfalso. cbn [app] in E. subst l. inversion Hl. congruence.
  - injection E as <- _. eauto.
Qed.

Lemma strip_line_head x s : x ≠ carriage_return → ∃ t, strip_line ((x :: s) ++ [newline]) = x :: t.
Proof.
  intros Hx. unfold strip_line. rewrite (proj2 (strip_suffix_Some [newline] _ (x :: s))) by done.
  destruct (strip_suffix [carriage_return] (x :: s)) as [r|] eqn:E; [|by eexists].
  apply strip_suffix_Some in E. destruct r as [|y r]; cbn in E; [by injection E as ? _|].
  injection E as <- _. by eexists.
Qed.

Definition first_field (key : str) (ls : list str) : option str :=
  head (omap (λ line, v ← strip_prefix (key ++ lit ":") (trim line); Some (trim_quotes (trim v))) ls).

(** A line that starts otherwise is passed over. *)
Lemma skip_field k key x l t : is_whitespace x = false → k ≠ x → newline ∉ x :: l →
  first_field (k :: key) (lines ((x :: l) ++ newline :: t)) = first_field (k :: key) (lines t).
Proof.
  intros Hx Hk Hn. rewrite lines_cons by done. unfold first_field.
  assert (x ≠ carriage_return) as Hcr by (by intros ->).
  destruct (strip_line_head x l Hcr) as [u ->]. cbn [omap list_omap].
  destruct (trim_head x u Hx) as [v ->]. cbn [strip_prefix app]. by rewrite decide_False.
Qed.

Lemma trimmed_no_cr s : trimmed s → last s ≠ Some carriage_return.
Proof. intros [_ He] H. specialize (He _ H). vm_compute in He. discriminate He. Qed.

Lemma lines_last l : l ≠ [] → newline ∉ l → lines l = [l].
Proof.
  intros Hne Hn. unfold lines. assert (split_inclusive newline l = [l]) as ->.
  { induction l as [|x l IH]; [done|]. cbn [split_inclusive]. rewrite decide_False by set_solver.
    destruct l as [|y l]; [done|]. rewrite IH; [done|done|set_solver]. }
  cbn. unfold strip_line. destruct (strip_suffix [newline] l) as [r|] eqn:E; [|done].
  apply strip_suffix_Some in E. set_solver.
Qed.

Lemma number_line k key p : is_whitespace k = false → newline ∉ k :: key → plain p → p ≠ [] →
  let l := (k :: key) ++ lit ": " ++ p in
  trimmed l ∧ newline ∉ l ∧
  (v ← strip_prefix ((k :: key) ++ lit ":") (trim l); Some (trim_quotes (trim v))) = Some p.
Proof.
  intros Hk Hn (Ht & Hp & Hq) Hne l.
  assert (trimmed l) as Hl.
  { split; [by intros c [= <-]|]. intros c. unfold l. rewrite !last_app. destruct Ht as [_ He].
    destruct (last p) eqn:E; [by intros [= <-]; apply He|]. by apply last_None in E. }
  split_and!; [done|unfold l; rewrite !not_elem_of_app; split_and!; [done|by vm_compute; set_solver|done]|].
  rewrite trim_id by done. unfold l. change (lit ": ") with (lit ":" ++ [32%N]).
  rewrite <-(app_assoc (lit ":")), (app_assoc (k :: key)), strip_prefix_app. cbn [mbind option_bind].
  assert (trim ([32%N] ++ p) = p) as Hb.
  { rewrite <-(app_nil_r p) at 1. by apply trim_around; [repeat constructor|constructor|..]. }
  f_equal. etransitivity; [|exact Hq]. f_equal. exact Hb.
Qed.

Lemma split_app_general c l r : split c (l ++ c :: r) = split c l ++ split c r.
Proof.
  induction l as [|x l IH]; cbn [app split]; [by rewrite decide_True|]. destruct (decide (x = c)); [by rewrite IH|].
  rewrite IH. destruct (split c l) eqn:E; [by apply split_not_nil in E|done].
Qed.

Lemma split_of_join c ps : ps ≠ [] → Forall (λ p, c ∉ p) ps → split c (join [c] ps) = ps.
Proof.
  intros Hne. induction 1 as [|p ps Hp Hps IH]; [done|]. destruct ps as [|q ps].
  - by apply split_no_sep.
  - rewrite join_cons2. change ([c] ++ ?x) with (c :: x). by rewrite split_app, IH.
Qed.

Lemma split_head c x s : x ≠ c → ∃ p ps, split c (x :: s) = (x :: p) :: ps.
Proof. intros Hx. cbn [split]. rewrite decide_False by done. destruct (split c s); eauto. Qed.

(** No line of a text made of these pieces is a marker. *)
Lemma no_marker ps : ps ≠ [] → Forall (λ p, newline ∉ p ∧ head p ≠ Some (ch "-")) ps →
  contains closing (newline :: join [newline] ps) = false.
Proof.
  intros Hne Hps. apply Bool.not_true_iff_false. intros (l & r & E)%contains_spec.
  assert (split newline (newline :: join [newline] ps) = [] :: ps) as Hs.
  { cbn [split]. rewrite decide_True by done. f_equal. apply split_of_join; [done|].
    eapply Forall_impl; [exact Hps|]. by intros p []. }
  rewrite E in Hs. unfold closing in Hs. change ((newline :: lit "---") ++ r) with (newline :: lit "---" ++ r) in Hs.
  rewrite split_app_general in Hs.
  destruct (split_head newline (ch "-") (lit "--" ++ r)) as (p & qs & Ep); [done|].
  change (ch "-" :: lit "--" ++ r) with (lit "---" ++ r) in Ep. rewrite Ep in Hs.
  destruct (split newline l) as [|a ls] eqn:El; [by apply split_not_nil in El|]. injection Hs as -> Hs.
  rewrite Forall_forall in Hps. destruct (Hps (ch "-" :: p)) as [_ Hh]; [|by apply Hh].
  rewrite <-Hs. apply elem_of_app. right. left.
Qed.

Lemma replace_fuel_elem n p to s c : c ∈ replace_fuel n p to s → c ∈ to ∨ c ∈ s.
Proof.
  revert s. induction n as [|n IH]; intros s; [by right|]. destruct s as [|x s]; [by right|]. cbn [replace_fuel].
  destruct (strip_prefix p (x :: s)) as [r|] eqn:E.
  - apply strip_prefix_Some in E as ->. rewrite !elem_of_app. intros [H|H]; [by left|]. apply IH in H. tauto.
  - rewrite !elem_of_cons. intros [H|H]; [by right; left|]. apply IH in H. tauto.
Qed.

Lemma yaml_quote_newline s : newline ∉ s → newline ∉ yaml_quote s.
Proof.
  intros Hs H. unfold yaml_quote in H. rewrite !elem_of_app, list_elem_of_singleton in H.
  destruct H as [H|[H|H]]; [done| |done]. unfold replace in H.
  apply replace_fuel_elem in H as [H|[H|H]%replace_fuel_elem]; [vm_compute in H; set_solver|vm_compute in H; set_solver|done].
Qed.

Section Facts.
Context {CO : Codecs}.

(** What [serde_yaml] makes of a header: the texts, and numbers where there
    are numbers. *)
Definition yaml_reads (m : DurableMemory) : Prop :=
  ∃ field, yaml (newline :: frontmatter_fields m) = Some field ∧
    field [lit "name"] = Some (name m) ∧ field [lit "description"] = Some (description m) ∧
    field [lit "type"] = Some (type_as_str (memory_type m)) ∧ field [lit "last_seen"] = Some (last_seen m) ∧
    field [lit "source_session_id"] = Some (source_session_id m) ∧
    field [lit "confidence"] = None ∧ field [lit "recall_count"] = None.

Definition writable (m : DurableMemory) : Prop :=
  newline ∉ name m ∧ newline ∉ description m ∧ newline ∉ last_seen m ∧ newline ∉ source_session_id m ∧
  trimmed (content m) ∧ plain (print_f64 (confidence m)) ∧ print_f64 (confidence m) ≠ [] ∧
  parse_f64 (print_f64 (confidence m)) = Some (confidence m) ∧ (0 ≤ recall_count m < 2 ^ 32)%Z.

Definition fields (m : DurableMemory) : list str := [
  lit "name: " ++ name m; lit "description: " ++ yaml_quote (description m);
  lit "type: " ++ type_as_str (memory_type m); lit "confidence: " ++ print_f64 (confidence m);
  lit "last_seen: " ++ yaml_quote (last_seen m); lit "source_session_id: " ++ yaml_quote (source_session_id m);
  lit "recall_count: " ++ lit (pretty (Z.to_N (recall_count m)))].

Lemma fields_clean m : writable m → Forall (λ p, newline ∉ p ∧ head p ≠ Some (ch "-")) (fields m).
Proof.
  intros (Hn & Hd & Hl & Hs & _ & (_ & Hc & _) & _).
  assert (newline ∉ lit (pretty (Z.to_N (recall_count m)))) as Hr.
  { destruct (pretty_digits (Z.to_N (recall_count m))) as [H1 H2]. by apply digits_plain. }
  repeat constructor; try done; rewrite not_elem_of_app; (split; [by vm_compute; set_solver|]); try done;
    try (by apply yaml_quote_newline).
  destruct (memory_type m); vm_compute; set_solver.
Qed.

Lemma field_step k key x l t : head l = Some x → is_whitespace x = false → k ≠ x → newline ∉ l →
  first_field (k :: key) (lines (l ++ [newline] ++ t)) = first_field (k :: key) (lines t).
Proof. destruct l as [|y l]; [done|]. intros [= ->] Hx Hk Hn. by apply skip_field. Qed.

Lemma read_confidence m : writable m →
  extract_yaml_field (newline :: frontmatter_fields m) (lit "confidence") = Some (print_f64 (confidence m)).
Proof.
  intros Hw. pose proof (fields_clean m Hw) as Hf. destruct Hw as (_ & _ & _ & _ & _ & Hp & Hne & _).
  change (first_field (lit "confidence") (lines ([] ++ newline :: join [newline] (fields m))) = Some (print_f64 (confidence m))).
  rewrite lines_cons by set_solver. unfold fields in *. rewrite !Forall_cons in Hf.
  destruct Hf as ((H1 & _) & (H2 & _) & (H3 & _) & (H4 & _) & _).
  change (first_field (lit "confidence") (?a :: lines ?b)) with (first_field (lit "confidence") (lines b)).
  rewrite !join_cons2. change (lit "confidence") with (ch "c" :: lit "onfidence").
  do 3 (erewrite field_step; [|reflexivity|reflexivity|done|done]).
  destruct (number_line (ch "c") (lit "onfidence") _ eq_refl ltac:(vm_compute; set_solver) Hp Hne) as (Ht & _ & Hv).
  change ([newline] ++ ?x) with (newline :: x). rewrite lines_cons by done. unfold first_field.
  rewrite strip_line_text by (by apply trimmed_no_cr). cbn [omap list_omap].
  change (lit "confidence: " ++ print_f64 (confidence m)) with
    ((ch "c" :: lit "onfidence") ++ lit ": " ++ print_f64 (confidence m)).
  by rewrite Hv.
Qed.

Lemma read_recall_count m : writable m →
  extract_yaml_field (newline :: frontmatter_fields m) (lit "recall_count") =
  Some (lit (pretty (Z.to_N (recall_count m)))).
Proof.
  intros Hw. pose proof (fields_clean m Hw) as Hf.
  destruct (pretty_digits (Z.to_N (recall_count m))) as [Hd Hne]. pose proof (digits_plain _ Hd Hne) as Hp.
  change (first_field (lit "recall_count") (lines ([] ++ newline :: join [newline] (fields m))) =
    Some (lit (pretty (Z.to_N (recall_count m))))).
  rewrite lines_cons by set_solver. unfold fields in *. rewrite !Forall_cons in Hf.
  destruct Hf as ((H1 & _) & (H2 & _) & (H3 & _) & (H4 & _) & (H5 & _) & (H6 & _) & (H7 & _) & _).
  change (first_field (lit "recall_count") (?a :: lines ?b)) with (first_field (lit "recall_count") (lines b)).
  rewrite !join_cons2. change (lit "recall_count") with (ch "r" :: lit "ecall_count").
  do 6 (erewrite field_step; [|reflexivity|reflexivity|done|done]). cbn [join].
  destruct (number_line (ch "r") (lit "ecall_count") _ eq_refl ltac:(vm_compute; set_solver) Hp Hne) as (Ht & Hn & Hv).
  unfold first_field. rewrite lines_last by done. cbn [omap list_omap].
  change (lit "recall_count: " ++ lit (pretty (Z.to_N (recall_count m)))) with
    ((ch "r" :: lit "ecall_count") ++ lit ": " ++ lit (pretty (Z.to_N (recall_count m)))).
  by rewrite Hv.
Qed.

Lemma trimmed_closing l : trimmed (lit "---" ++ l ++ closing).
Proof. split; intros c; [by intros [= <-]|]. rewrite !last_app. by intros [= <-]. Qed.

Lemma trim_render m : trimmed (content m) →
  trim (render m) = lit "---" ++ (newline :: frontmatter_fields m) ++ closing ++
    (if decide (content m = []) then [] else [newline; newline] ++ content m).
Proof.
  intros Hc. unfold render. change ([newline] ++ frontmatter_fields m ++ closing ++ [newline; newline] ++ content m)
    with ((newline :: frontmatter_fields m) ++ closing ++ [newline; newline] ++ content m).
  set (h := newline :: frontmatter_fields m). case_decide as E.
  - rewrite E, !app_nil_r.
    transitivity (trim ([] ++ (lit "---" ++ h ++ closing) ++ [newline; newline])); [f_equal; by rewrite <-!app_assoc|].
    apply trim_around; [constructor|repeat constructor|done|apply trimmed_closing].
  - apply trim_id. split; [by intros c [= <-]|]. intros c. rewrite !last_app. destruct Hc as [_ He].
    destruct (last (content m)) eqn:El; [by intros [= <-]; apply He|]. by apply last_None in El.
Qed.

Lemma meta_yaml fm field key v : yaml fm = Some field → field [key] = Some v → meta_str fm key = Some v.
Proof. intros Hy Hf. unfold meta_str. rewrite Hy. cbn [mbind option_bind]. by rewrite Hf. Qed.

Lemma meta_scan fm field key : yaml fm = Some field → field [key] = None → meta_str fm key = extract_yaml_field fm key.
Proof. intros Hy Hf. unfold meta_str. rewrite Hy. cbn [mbind option_bind]. by rewrite Hf. Qed.

(** C19. A memory that is written is read back whole: with single-line texts, a
    body without blanks around it and a confidence whose text reads back, if
    the YAML library takes the header for what was meant. *)
Theorem written_memories_are_read m : writable m → yaml_reads m → parse_memory_file (render m) = Some m.
Proof.
  intros Hw (field & Hy & Hn & Hd & Ht & Hl & Hs & Hc & Hr).
  pose proof (read_confidence m Hw) as Econf. pose proof (read_recall_count m Hw) as Ecount.
  assert (contains closing (newline :: frontmatter_fields m) = false) as Hm
    by (by apply (no_marker (fields m)); [|apply fields_clean]).
  destruct Hw as (_ & _ & _ & _ & Htr & _ & _ & Hparse & Hcount).
  unfold parse_memory_file. rewrite trim_render by done.
  set (h := newline :: frontmatter_fields m) in *. set (tail := if decide _ then _ else _).
  assert (find_sub closing (h ++ closing ++ tail) = Some h) as Hfind
    by exact (find_sub_here newline (lit "---") h tail ltac:(vm_compute; set_solver) Hm).
  assert (frontmatter_of (lit "---" ++ h ++ closing ++ tail) = Some h) as ->.
  { unfold frontmatter_of. rewrite strip_prefix_app. cbn [mbind option_bind].
    by rewrite Hfind. }
  assert (content_of (lit "---" ++ h ++ closing ++ tail) = content m) as ->.
  { unfold content_of, split_once_str. change (drop 3 (lit "---" ++ h ++ closing ++ tail)) with (h ++ closing ++ tail).
    rewrite Hfind. rewrite app_assoc, <-length_app, drop_app_length. unfold tail. case_decide as E; [by rewrite E|].
    rewrite <-(app_nil_r (content m)) at 1. by apply trim_around; [repeat constructor|constructor|..]. }
  cbn [mbind option_bind]. unfold header_of. rewrite Hy, Hn, Ht, Hd. cbn [mbind option_bind default from_option id].
  rewrite (meta_yaml h field _ _ Hy Hs), (meta_yaml h field _ _ Hy Hl), (meta_scan h field _ Hy Hc),
    (meta_scan h field _ Hy Hr), Econf, Ecount.
  cbn [mbind option_bind default from_option id]. rewrite Hparse. unfold parse_u32.
  rewrite parse_pretty by lia. cbn [mbind option_bind]. rewrite bool_decide_eq_true_2 by lia.
  cbn [default from_option id]. rewrite Z2N.id by lia.
  assert (type_of_str (type_as_str (memory_type m)) = memory_type m) as -> by (by destruct (memory_type m)).
  by destruct m.
Qed.

(** ** The indices *)

(** The index lists the memories of the directory's files by name, once
    each. *)
Definition index_ok (f : Files) : Prop :=
  ∃ ms, ms ≡ₚ load_files f ∧ Sorted by_name ms ∧ f !! INDEX_FILE = Some (rebuild_index ms).

Definition indices_ok (d : Disk) : Prop := ∀ dir f, d !! dir = Some f → index_ok f.

Definition loads (e : str * str) : option DurableMemory :=
  if is_memory_file e.1 then parse_memory_file e.2 else None.

Lemma load_files_perm f : load_files f ≡ₚ omap loads (map_to_list f).
Proof.
  unfold load_files. rewrite <-listing_files.
  assert (∀ l : list (str * str), omap (λ '(n, c), if is_memory_file n then parse_memory_file c else None) l = omap loads l)
    as ->; [|done].
  intros l. induction l as [|[n c] l IH]; [done|]. cbn [omap list_omap]. unfold loads at 1. cbn [fst snd].
  by rewrite IH.
Qed.

Lemma load_without_index f : omap loads (map_to_list f) ≡ₚ omap loads (map_to_list (delete INDEX_FILE f)).
Proof.
  destruct (f !! INDEX_FILE) as [x|] eqn:E; [|by rewrite delete_id].
  rewrite <-(map_to_list_delete f INDEX_FILE x) by done. cbn [omap list_omap].
  assert (loads (INDEX_FILE, x) = None) as -> by reflexivity. done.
Qed.

Lemma load_with_index f x : load_files (<[INDEX_FILE := x]> f) ≡ₚ load_files f.
Proof.
  rewrite !load_files_perm, (load_without_index (<[INDEX_FILE := x]> f)), (load_without_index f).
  by rewrite delete_insert_eq.
Qed.

#[local] Instance by_name_total : Total by_name.
Proof. intros a b. unfold by_name. destruct (total str_order (name a) (name b)); auto. Qed.

Lemma rebuilt_index dir d f : rebuild_index_from_disk dir d !! dir = Some f → index_ok f.
Proof.
  unfold rebuild_index_from_disk. rewrite lookup_insert_eq. intros [= <-].
  exists (merge_sort by_name (load_from_dir d dir)). split_and!.
  - etransitivity; [apply merge_sort_Permutation|]. symmetry. apply load_with_index.
  - apply Sorted_merge_sort, _.
  - by rewrite lookup_insert_eq.
Qed.

Lemma rebuild_elsewhere dir d dir' : dir' ≠ dir → rebuild_index_from_disk dir d !! dir' = d !! dir'.
Proof. intros H. unfold rebuild_index_from_disk. by rewrite lookup_insert_ne. Qed.

(** Rebuilding keeps what is right and makes right what it touches. *)
Lemma rebuild_all_ok touched d : (∀ dir f, dir ∉ touched → d !! dir = Some f → index_ok f) → indices_ok (rebuild_all touched d).
Proof.
  unfold rebuild_all. revert d. induction touched as [|t touched IH]; intros d Hd; cbn [foldl].
  - intros dir f. apply Hd. by apply not_elem_of_nil.
  - apply IH. intros dir f Hn Hf. destruct (decide (dir = t)) as [->|Hne]; [by eapply rebuilt_index|].
    rewrite rebuild_elsewhere in Hf by done. apply (Hd dir f); [|done]. by rewrite not_elem_of_cons.
Qed.

Lemma rebuild_all_elsewhere touched d dir : dir ∉ touched → rebuild_all touched d !! dir = d !! dir.
Proof.
  unfold rebuild_all. revert d. induction touched as [|t touched IH]; intros d; [done|].
  rewrite not_elem_of_cons. intros [Hne Hn]. cbn [foldl]. rewrite IH by done. by apply rebuild_elsewhere.
Qed.

Lemma elem_of_touch dir t touched : dir ∈ touch t touched ↔ dir = t ∨ dir ∈ touched.
Proof. unfold touch. case_bool_decide; [naive_solver|]. rewrite elem_of_app, list_elem_of_singleton. naive_solver. Qed.

(** A batch leaves alone what it has not touched. *)
Lemma persist_fold s sms (d0 : Disk) (acc : Disk * nat * list str) :
  (∀ dir, dir ∉ acc.2 → acc.1.1 !! dir = d0 !! dir) →
  let acc' := foldl (persist_one s) acc sms in
  (∀ dir, dir ∉ acc'.2 → acc'.1.1 !! dir = d0 !! dir) ∧
  (∀ dir, dir ∈ acc'.2 → dir ∈ acc.2 ∨ ∃ sm, sm ∈ sms ∧ dir = scope_dir s (scope sm)).
Proof.
  revert acc. induction sms as [|sm sms IH]; intros [[d n] touched] Hd; cbn [foldl]; [split; [done|by left]|].
  destruct (SFltb (confidence (memory sm)) f64_0_3) eqn:Ec.
  - assert (persist_one s (d, n, touched) sm = (d, n, touched)) as -> by (unfold persist_one; by rewrite Ec).
    destruct (IH _ Hd) as [H1 H2]. split; [done|]. intros dir Hin. destruct (H2 dir Hin) as [?|(x & ? & ?)]; [by left|].
    right. exists x. split; [by right|done].
  - assert (persist_one s (d, n, touched) sm =
      (write_memory_file (scope_dir s (scope sm)) (memory sm) d, S n, touch (scope_dir s (scope sm)) touched)) as ->
      by (unfold persist_one; by rewrite Ec).
    edestruct (IH (write_memory_file (scope_dir s (scope sm)) (memory sm) d, S n, touch (scope_dir s (scope sm)) touched))
      as [H1 H2].
    + cbn [fst snd]. intros dir. rewrite elem_of_touch. intros Hn. unfold write_memory_file.
      rewrite lookup_insert_ne by naive_solver. apply Hd. cbn [snd]. naive_solver.
    + split; [exact H1|]. intros dir Hin. destruct (H2 dir Hin) as [Ht|(x & ? & ?)].
      * cbn [snd] in Ht. apply elem_of_touch in Ht as [->|?]; [|by left]. right. exists sm. split; [by left|done].
      * right. exists x. split; [by right|done].
Qed.

Lemma persist_ok s sms d : indices_ok d → indices_ok (persist_batch_scoped s sms d).1.
Proof.
  intros Hd. unfold persist_batch_scoped. pose proof (persist_fold s sms d (d, 0, []) ltac:(done)) as [H _].
  destruct (foldl (persist_one s) (d, 0, []) sms) as [[d' n] touched]. cbn [fst snd] in *.
  apply rebuild_all_ok. intros dir f Hn. rewrite H by done. apply Hd.
Qed.

Lemma delete_fold es (d0 : Disk) (acc : Disk * list str) : (∀ dir, dir ∉ acc.2 → acc.1 !! dir = d0 !! dir) →
  ∀ dir, dir ∉ (foldl delete_entry acc es).2 → (foldl delete_entry acc es).1 !! dir = d0 !! dir.
Proof.
  revert acc. induction es as [|e es IH]; intros [d touched] Hd; cbn [foldl]; [done|]. apply IH.
  unfold delete_entry. destruct (d !! e.1 ≫= _); [|done]. cbn [fst snd] in *. intros dir. rewrite elem_of_touch. intros Hn.
  unfold delete_file. rewrite lookup_alter_ne by naive_solver. apply Hd. naive_solver.
Qed.

Lemma delete_entries_ok es d : indices_ok d → indices_ok (delete_entries es d).
Proof.
  intros Hd. unfold delete_entries. pose proof (delete_fold es d (d, []) ltac:(done)) as H.
  destruct (foldl delete_entry (d, []) es) as [d' touched]. cbn [fst snd] in H.
  apply rebuild_all_ok. intros dir f Hn. rewrite H by done. apply Hd.
Qed.

Lemma remove_ok s n d : indices_ok d → indices_ok (remove s n d).1.
Proof.
  intros Hd. unfold remove.
  assert (∀ ds b, indices_ok d → indices_ok (foldl (remove_from (memory_file n)) (d, b) ds).1) as H; [|by apply H].
  clear Hd. intros ds. revert d. induction ds as [|t ds IH]; intros d b Hd; cbn [foldl]; [done|].
  unfold remove_from at 2. destruct (d !! t ≫= _); [|by apply IH]. apply IH. intros dir f Hf.
  destruct (decide (dir = t)) as [->|Hne]; [by eapply rebuilt_index|].
  rewrite rebuild_elsewhere in Hf by done. unfold delete_file in Hf. rewrite lookup_alter_ne in Hf by done. by eapply Hd.
Qed.

(** What the engine does to a store. *)
Inductive StoreOp :=
| PersistScoped (sms : list ScopedMemory)
| Persist (ms : list DurableMemory)
| Remove (n : str)
| Compact (whole_days : str → option Z) (max_entries : nat).

Definition run_op (s : MemoryStore) (d : Disk) (op : StoreOp) : Disk :=
  match op with
  | PersistScoped sms => (persist_batch_scoped s sms d).1
  | Persist ms => (persist_batch s ms d).1
  | Remove n => (remove s n d).1
  | Compact whole_days n => (compact s whole_days n d).1
  end.

(** C18. Whatever is persisted, removed and compacted, in whatever order: the index
    of each directory lists just the memories of its files, sorted. *)
Theorem indices_match_the_files s d ops : indices_ok d → indices_ok (foldl (run_op s) d ops).
Proof.
  revert d. induction ops as [|op ops IH]; intros d Hd; cbn [foldl]; [done|]. apply IH.
  destruct op; cbn [run_op]; [by apply persist_ok|by apply persist_ok|by apply remove_ok|by apply delete_entries_ok].
Qed.

(** Memories that are written back stay where they are: a directory that is
    not the home of any of them is not changed at all. *)
Theorem memories_stay_at_home s ms d dir : (∀ m, m ∈ ms → home_dir_for s d (name m) ≠ dir) →
  (persist_batch s ms d).1 !! dir = d !! dir.
Proof.
  intros Hms. unfold persist_batch, persist_batch_scoped.
  destruct (persist_fold s (scoped_at_home s d <$> ms) d (d, 0, []) ltac:(done)) as [H1 H2].
  destruct (foldl (persist_one s) (d, 0, []) _) as [[d' n] touched]. cbn [fst snd] in *.
  assert (dir ∉ touched) as Hn; [|by rewrite rebuild_all_elsewhere, H1].
  intros Hin. destruct (H2 dir Hin) as [Ht|(sm & Hsm & Hd)]; [by apply elem_of_nil in Ht|].
  apply list_elem_of_fmap in Hsm as (m & -> & Hm). apply (Hms m Hm). unfold scoped_at_home, scope_dir in Hd. cbn [scope] in Hd.
  case_decide as Eh; cbn in Hd; [by rewrite Eh, Hd|]. rewrite Hd.
  unfold home_dir_for in *. destruct (find_first _ (dirs s)) as [h|] eqn:Ef; [|done]. cbn [default from_option id] in *.
  apply find_first_Some in Ef as [Hh _]. unfold dirs in Hh. case_decide.
  - by apply list_elem_of_singleton in Hh.
  - apply elem_of_cons in Hh as [?|Hh%list_elem_of_singleton]; [done|]. exact Hh.
Qed.
End Facts.

(** ** The index in the prompt *)

(** What is kept of the index is at most the limit long, and is the
    text, or its first lines, from the start. *)
Theorem kept_index_is_bounded raw kept : cut_entries (trim raw) = Some kept →
  len kept ≤ MAX_BYTES ∧
  (kept `prefix_of` trim raw ∨ kept `prefix_of` join [newline] (take MAX_LINES (lines (trim raw)))).
Proof.
  unfold cut_entries. set (t := if bool_decide (MAX_LINES < _) then _ else _). intros Hk.
  assert (len kept ≤ MAX_BYTES ∧ kept `prefix_of` t) as [Hl Hp].
  { case_bool_decide as Hb; [|injection Hk as <-; split; [lia|done]].
    unfold byte_split in Hk. destruct (slice_to MAX_BYTES t) as [p|] eqn:Es; [|done].
    cbn [mbind option_bind fst] in Hk. injection Hk as <-. apply slice_to_Some in Es as [Hl Hp].
    destruct (rfind_sub [newline] p) as [l|] eqn:Er; cbn [default from_option id]; [|split; [lia|done]].
    apply rfind_sub_prefix in Er. split; [|by trans p]. destruct Er as [r ->]. rewrite len_app in Hl. lia. }
  split; [done|]. unfold t in Hp. case_bool_decide; [by right|by left].
Qed.

(** ** Recall *)

(** At most as many memories as asked for; and unless the model answers, only
    such as the store has, were not shown yet and are not named like a tool
    in play. *)
Theorem recall_is_bounded memories r reply :
  let names := select_memories_from memories r reply in
  length names ≤ limit r ∧
  (selected_memories reply = None → ∀ n, n ∈ names →
     not_shown (already_surfaced r) (recent_tools r) n = true ∧ n ∈ name <$> memories).
Proof.
  intros names. subst names. unfold select_memories_from.
  set (headers := filter _ (name <$> memories)).
  assert (∀ n, n ∈ headers → not_shown (already_surfaced r) (recent_tools r) n = true ∧ n ∈ name <$> memories) as Hh
    by (intros n; unfold headers; by rewrite list_elem_of_filter).
  case_bool_decide; [split; [cbn; lia|]; intros _ n Hn; by apply elem_of_nil in Hn|].
  case_bool_decide; [by split|]. destruct (selected_memories reply) as [l|].
  - split; [rewrite length_take; lia|done].
  - split; [rewrite length_take; lia|]. intros _ n Hn. apply Hh.
    apply elem_of_take in Hn as (i & Hi & _). apply list_elem_of_lookup_2 in Hi. by apply list_elem_of_filter in Hi as [? _].
Qed.


(** ** On concrete stores *)

(** A YAML reader for headers without escapes: numbers and booleans are not
    strings. *)
Definition sample_yaml (s : str) : option (list str → option str) :=
  Some (λ path,
    match path with
    | [k] =>
        if decide (k = lit "confidence" ∨ k = lit "recall_count") then None
        else v ← extract_yaml_field s k; if decide (v = lit "true") then None else Some v
    | _ => None
    end).

Definition sample_codecs : Codecs := {|
  unicode_alphanumeric _ := true;
  yaml := sample_yaml;
  print_f64 _ := lit "0.8";
  parse_f64 s := if decide (s = lit "0.8") then Some f64_0_8 else None;
  listing := map_to_list;
  listing_files f := reflexivity _;
|}.

#[local] Existing Instance sample_codecs.

Definition sample_memory (n seen : str) : DurableMemory := {|
  name := n; description := lit "how to test"; memory_type := Feedback; content := lit "run them all";
  source_session_id := lit "s1"; confidence := f64_0_8; last_seen := seen; recall_count := 3;
|}.

Lemma written_memories_are_read_witness :
  parse_memory_file (render (sample_memory (lit "tests") (lit "2025"))) = Some (sample_memory (lit "tests") (lit "2025")).
Proof.
  apply written_memories_are_read.
  - assert (∀ t : str, bool_decide (newline ∉ t) = true → newline ∉ t) as Hn by (intros t; apply bool_decide_eq_true).
    assert (trimmed (lit "run them all") ∧ trimmed (lit "0.8")) as [Ht Hc] by (by repeat split; intros c [= <-]).
    split_and!; try (apply Hn; by vm_compute); try done.
    split_and!; [exact Hc|apply Hn; by vm_compute|by vm_compute].
  - eexists. split; [reflexivity|]. split_and!; reflexivity.
Defined.

Definition sample_store : MemoryStore := {| user_dir := lit "u"; local_dir := lit "l" |}.

Definition scoped (sc : MemoryScope) (n seen : String.string) : ScopedMemory :=
  {| memory := sample_memory (lit n) (lit seen); scope := sc |}.

Definition sample_ops : list StoreOp := [
  PersistScoped [scoped UserScope "a" "2024"; scoped LocalScope "b" "2025"];
  Persist [sample_memory (lit "a") (lit "2026")];
  Remove (lit "b");
  Compact (λ _, Some 0%Z) 10].

Lemma indices_match_the_files_witness :
  indices_ok (foldl (run_op sample_store) ∅ sample_ops) ∧
  (λ f, dom f) <$> foldl (run_op sample_store) ∅ sample_ops !! lit "u" = Some {[INDEX_FILE; lit "a.md"]}.
Proof.
  split; [|by vm_compute]. apply indices_match_the_files. intros dir f. rewrite lookup_empty. done.
Defined.

Definition two_homes : gmap str (gmap str str) :=
  foldl (run_op sample_store) ∅ [PersistScoped [scoped UserScope "a" "2024"; scoped LocalScope "b" "2025"]].

Lemma memories_stay_at_home_witness :
  (persist_batch sample_store [sample_memory (lit "b") (lit "2026")] two_homes).1 !! lit "u" = two_homes !! lit "u".
Proof.
  apply memories_stay_at_home. intros m ->%list_elem_of_singleton. by vm_compute.
Defined.

Lemma kept_index_is_bounded_witness :
  ∃ kept, cut_entries (trim (lit "- [a](a.md)")) = Some kept ∧ len kept ≤ MAX_BYTES.
Proof.
  exists (lit "- [a](a.md)"). assert (cut_entries (trim (lit "- [a](a.md)")) = Some (lit "- [a](a.md)")) as H by by vm_compute.
  split; [exact H|]. by apply kept_index_is_bounded in H as [? _].
Defined.

(** The name is not quoted: one that YAML reads as a boolean is lost. *)
Example a_memory_named_true_is_lost :
  parse_memory_file (render (sample_memory (lit "true") (lit "2025"))) = None.
Proof. by vm_compute. Qed.

(** One that is named like the index is replaced by it. *)
Example a_memory_named_like_the_index_is_overwritten :
  load_all sample_store (persist_batch sample_store [sample_memory (lit "MEMORY") (lit "2025")] ∅).1 = [].
Proof. by vm_compute. Qed.

Definition named (file n : String.string) : gmap str str :=
  {[lit file := render (sample_memory (lit n) (lit "2025"))]}.

(** A compaction deletes the file a memory's name stands for, not the one the
    memory was read from. *)
Example compaction_deletes_by_name :
  let d : gmap str (gmap str str) := {[lit "u" := named "a.md" "b" ∪ named "b.md" "c"]} in
  let d' := (compact sample_store (λ _, Some 0%Z) 1 d).1 in
  name <$> load_all sample_store d = [lit "b"; lit "c"] ∧
  doomed sample_store (λ _, Some 0%Z) 1 d = [(lit "u", lit "c")] ∧ d' = d.
Proof. by vm_compute. Qed.

(** Once the project's memory is gone, the user's of the same name is back,
    older than all that was deleted. *)
Example a_shadowed_memory_resurfaces :
  let d := foldl (run_op sample_store) ∅ [PersistScoped [scoped UserScope "a" "2020"; scoped LocalScope "a" "2024";
                                                         scoped LocalScope "b" "2025"]] in
  let d' := (compact sample_store (λ _, Some 0%Z) 1 d).1 in
  last_seen <$> load_all sample_store d = [lit "2025"; lit "2024"] ∧
  last_seen <$> load_all sample_store d' = [lit "2025"; lit "2020"].
Proof. by vm_compute. Qed.

(** The names a model answers are not held against those it was offered. *)
Example the_models_names_are_not_checked :
  let r := {| query := lit "q"; limit := 1; already_surfaced := [lit "a"]; recent_tools := [] |} in
  let ms := (λ n, sample_memory n (lit "2025")) <$> [lit "a"; lit "b"; lit "c"] in
  select_memories_from ms r (Some (VObject [(lit "selected_memories", VArray [VString (lit "a")])])) = [lit "a"].
Proof. by vm_compute. Qed.

(** An index whose 25,000th byte is inside a character cannot be shown. *)
Example truncation_splits_a_character :
  truncate_entrypoint_content (repeat (ch "a") 24999 ++ [233; 233]%N) = None.
Proof. by vm_compute. Qed.
