(* ===== verification/Hooks.v ===== *)
(** * Hooks ([crates/hooks/src/])

    Configured commands, prompts, web hooks, agents and plugin components
    that run at named events and may answer: which hooks an event runs, how
    one is executed and read, and what the answers together mean.  Child
    processes, models, plugins and the HTTP exchange are parameters, and so
    is the derived JSON reading of a hook's configuration and response; the
    file watcher is left out. *)

From stdpp Require Import base option numbers sets gmap strings pretty list sorting.
From S2P Require Import Prelude RustStr PermTypes Net.

(** ** Events and configuration ([config.rs]) *)

Inductive HookEvent :=
  | PreToolUse | PostToolUse | PostToolUseFailure | TurnStart | TurnComplete | SessionStart
  | SessionEnd | Stop | StopFailure | UserPromptSubmit | PreCompact | PostCompact
  | PermissionRequested | PermissionDenied | Setup | Notification | SubagentStop | SubagentStart
  | TeammateIdle | TaskCreated | TaskCompleted | Elicitation | ElicitationResult | ConfigChange
  | WorktreeCreate | WorktreeRemove | InstructionsLoaded | CwdChanged | FileChanged | PostSampling.

#[export] Instance HookEvent_eq_dec : EqDecision HookEvent.
Proof. solve_decision. Defined.

Definition all_events : list HookEvent :=
  [PreToolUse; PostToolUse; PostToolUseFailure; TurnStart; TurnComplete; SessionStart; SessionEnd;
   Stop; StopFailure; UserPromptSubmit; PreCompact; PostCompact; PermissionRequested;
   PermissionDenied; Setup; Notification; SubagentStop; SubagentStart; TeammateIdle; TaskCreated;
   TaskCompleted; Elicitation; ElicitationResult; ConfigChange; WorktreeCreate; WorktreeRemove;
   InstructionsLoaded; CwdChanged; FileChanged; PostSampling].

(** The name in the settings, and in [{event:?}]. *)
Definition event_name (e : HookEvent) : str :=
  match e with
  | PreToolUse => "PreToolUse" | PostToolUse => "PostToolUse"
  | PostToolUseFailure => "PostToolUseFailure" | TurnStart => "TurnStart"
  | TurnComplete => "TurnComplete" | SessionStart => "SessionStart" | SessionEnd => "SessionEnd"
  | Stop => "Stop" | StopFailure => "StopFailure" | UserPromptSubmit => "UserPromptSubmit"
  | PreCompact => "PreCompact" | PostCompact => "PostCompact"
  | PermissionRequested => "PermissionRequested" | PermissionDenied => "PermissionDenied"
  | Setup => "Setup" | Notification => "Notification" | SubagentStop => "SubagentStop"
  | SubagentStart => "SubagentStart" | TeammateIdle => "TeammateIdle"
  | TaskCreated => "TaskCreated" | TaskCompleted => "TaskCompleted"
  | Elicitation => "Elicitation" | ElicitationResult => "ElicitationResult"
  | ConfigChange => "ConfigChange" | WorktreeCreate => "WorktreeCreate"
  | WorktreeRemove => "WorktreeRemove" | InstructionsLoaded => "InstructionsLoaded"
  | CwdChanged => "CwdChanged" | FileChanged => "FileChanged" | PostSampling => "PostSampling"
  end.

(** [serde_json::from_value::<HookEvent>] of a name. *)
Definition event_of_name (s : str) : option HookEvent :=
  find_first (λ e, bool_decide (event_name e = s)) all_events.

Lemma event_of_event_name e : event_of_name (event_name e) = Some e.
Proof. destruct e; vm_compute; reflexivity. Qed.

#[export] Instance HookEvent_countable : Countable HookEvent :=
  inj_countable event_name event_of_name event_of_event_name.

Definition UNWIRED_EVENTS : list HookEvent := [ElicitationResult; ConfigChange].
Definition is_wired (e : HookEvent) : bool := negb (bool_decide (e ∈ UNWIRED_EVENTS)).

Inductive HookConfig :=
| Command (command : str) (shell : option str) (timeout : option Z) (if_pattern : option str)
    (only_on_error once async_rewake : option bool)
| PromptHook (prompt : str) (timeout : option Z) (model : option str)
| Http (hook_url : str) (hook_headers : list (str * str)) (timeout : option Z)
| AgentHook (prompt : str) (model : option str) (timeout : option Z)
| Wasm (plugin : str) (timeout : option Z).

Notation HooksSettings := (gmap HookEvent (list HookConfig)).

Record HooksParseReport := {
  unknown_events : list str;
  invalid_configs : list (str * str);
}.

Definition report_is_clean (r : HooksParseReport) : bool :=
  bool_decide (unknown_events r = []) && bool_decide (invalid_configs r = []).

Section Parse.
(** [serde_json::from_value::<Vec<HookConfig>>]. *)
Context (configs_of : value → result (list HookConfig) str).

Definition parse_entry (st : HooksSettings * HooksParseReport) (entry : str * value)
    : HooksSettings * HooksParseReport :=
  let '(out, report) := st in
  let '(name, configs) := entry in
  match event_of_name name with
  | None =>
      (out, Build_HooksParseReport (unknown_events report ++ [name]) (invalid_configs report))
  | Some event =>
      match configs_of configs with
      | Ok l => (<[ event := default [] (out !! event) ++ l ]> out, report)
      | Err e =>
          (out, Build_HooksParseReport (unknown_events report)
                  (invalid_configs report ++ [(name, e)]))
      end
  end.

Definition parse_hooks_settings (v : value) : HooksSettings * HooksParseReport :=
  match v with
  | VObject map => foldl parse_entry (∅, Build_HooksParseReport [] []) map
  | _ =>
      (∅, Build_HooksParseReport []
            [(lit "<root>", lit "expected an object of event name -> array of hook configs")])
  end.

End Parse.

(** ** What goes in and what comes back ([payload.rs]) *)

Record HookInput := {
  hook_event_name : str;
  hook_session_id : str;
  hook_cwd : str;
  hook_permission_mode : str;
  hook_tool_name : option str;
  hook_tool_input : option value;
  hook_tool_use_id : option str;
  hook_tool_result : option value;
  hook_is_error : option bool;
  hook_user_prompt : option str;
  hook_turn_id : option str;
  hook_stop_reason : option str;
  hook_agent_type : option str;
  hook_reason : option str;
}.

Definition lifecycle (event session_id cwd permission_mode : str) : HookInput :=
  Build_HookInput event session_id cwd permission_mode None None None None None None None None
    None None.

Definition with_turn_id (i : HookInput) (t : str) : HookInput :=
  Build_HookInput (hook_event_name i) (hook_session_id i) (hook_cwd i) (hook_permission_mode i)
    (hook_tool_name i) (hook_tool_input i) (hook_tool_use_id i) (hook_tool_result i)
    (hook_is_error i) (hook_user_prompt i) (Some t) (hook_stop_reason i) (hook_agent_type i)
    (hook_reason i).

Definition with_stop_reason (i : HookInput) (r : str) : HookInput :=
  Build_HookInput (hook_event_name i) (hook_session_id i) (hook_cwd i) (hook_permission_mode i)
    (hook_tool_name i) (hook_tool_input i) (hook_tool_use_id i) (hook_tool_result i)
    (hook_is_error i) (hook_user_prompt i) (hook_turn_id i) (Some r) (hook_agent_type i)
    (hook_reason i).

Definition with_tool (i : HookInput) (name : str) (input : value) : HookInput :=
  Build_HookInput (hook_event_name i) (hook_session_id i) (hook_cwd i) (hook_permission_mode i)
    (Some name) (Some input) (hook_tool_use_id i) (hook_tool_result i)
    (hook_is_error i) (hook_user_prompt i) (hook_turn_id i) (hook_stop_reason i)
    (hook_agent_type i) (hook_reason i).

Definition with_reason (i : HookInput) (r : str) : HookInput :=
  Build_HookInput (hook_event_name i) (hook_session_id i) (hook_cwd i) (hook_permission_mode i)
    (hook_tool_name i) (hook_tool_input i) (hook_tool_use_id i) (hook_tool_result i)
    (hook_is_error i) (hook_user_prompt i) (hook_turn_id i) (hook_stop_reason i)
    (hook_agent_type i) (Some r).

Inductive HookDecision := Approve | Block.

#[export] Instance HookDecision_eq_dec : EqDecision HookDecision.
Proof. solve_decision. Defined.

Record HookResponse := {
  continue : option bool;
  decision : option HookDecision;
  message : option str;
  updated_input : option value;
  suppress_output : option bool;
  rewake : option bool;
}.

Definition HookResponse_default : HookResponse :=
  Build_HookResponse None None None None None None.

Inductive HookOutcome :=
| Ran (response : HookResponse) (stdout stderr : str) (exit_code : option Z)
| Skipped (why : str)
| HookError (e : str).

(** ** The `if` patterns ([runner/matcher.rs]) *)

Definition match_tool_name (rule actual : str) : bool :=
  bool_decide (rule = actual) ||
  match strip_prefix "mcp__" rule, strip_prefix "mcp__" actual with
  | Some prefix, Some after => bool_decide (after = prefix) || starts_with (prefix ++ lit "__") after
  | _, _ => false
  end.

Definition has_glob_char (p : str) : bool :=
  contains_char (ch "*") p || contains_char (ch "?") p || contains_char (ch "[") p.

Definition match_content `{Globset} (pattern content : str) : bool :=
  match strip_suffix ":*" pattern with
  | Some prefix => bool_decide (content = prefix) || starts_with (prefix ++ lit " ") content
  | None =>
      if has_glob_char pattern then
        match glob_new false pattern with Some is_match => is_match content | None => false end
      else bool_decide (pattern = content)
  end.

(** The first of the keys a tool's input names its target under. *)
Definition hook_content (v : value) : option str :=
  find_map (λ k, value_get k v) [lit "command"; lit "file_path"; lit "path"; lit "url"] ≫= as_str.

Definition split_pattern (pat : str) : str * option str :=
  match split_once (ch "(") pat with
  | Some (before, after) =>
      match strip_suffix ")" after with
      | Some inner => (trim before, Some inner)
      | None => (pat, None)
      end
  | None => (pat, None)
  end.

Definition if_matches `{Globset} (pattern : str) (input : HookInput) : bool :=
  match hook_tool_name input with
  | None => false
  | Some tool_name =>
      let '(rule_tool, rule_content) := split_pattern (trim pattern) in
      match_tool_name rule_tool tool_name &&
      match rule_content with
      | None => true
      | Some rc =>
          match hook_tool_input input ≫= hook_content with
          | None => false
          | Some content => match_content rc content
          end
      end
  end.

(** ** Running one hook ([runner/executor.rs], [run_one]) *)

(** How a child process ended. *)
Inductive CommandEnd :=
| SpawnFailed (e : str)
| CommandTimedOut
| WaitFailed (e : str)
| Exited (exit_code : option Z) (success : bool) (stdout stderr : str).

(** What an injected executor answers within the deadline. *)
Inductive ExecAnswer := Answered (text : str) | ExecutorFailed (e : str) | NoAnswerInTime.

Record Backends := {
  run_command : str → str → HookInput → Z → CommandEnd;
  prompt_executor : option (str → option str → HookInput → Z → ExecAnswer);
  agent_executor : option (str → option str → HookInput → result str str);
  wasm_executor : option (str → HookInput → option Z → result HookResponse str);
  lookup_host : str → option (list IpAddr);
  (** [serde_json::to_vec] of the payload. *)
  input_bytes : HookInput → result (list N) str;
  (** [Network::send] on the operator's behalf, within the deadline. *)
  net_send : HttpRequest → Z → option (result HttpResponse str);
  from_utf8_lossy : list N → str;
  (** [serde_json::from_str]. *)
  response_of_json : str → result HookResponse str;
  value_of_json : str → option value;
}.

Definition DEFAULT_HOOK_TIMEOUT_MS : Z := 600000.

Section Run.
Context `{Globset} (B : Backends) (default_timeout : Z).

Definition response_or_default (s : str) : HookResponse :=
  match response_of_json B s with Ok r => r | Err _ => HookResponse_default end.

Definition parse_hook_response_lenient (s : str) : HookResponse :=
  let trimmed := trim s in
  let unfenced rest := trim (trim_end_str "```" (trim_start_matches [10%N] rest)) in
  response_or_default
    (match strip_prefix "```json" trimmed with
     | Some rest => unfenced rest
     | None =>
         match strip_prefix "```" trimmed with
         | Some rest => unfenced rest
         | None => trimmed
         end
     end).

(** [format!("{exit_code:?}")]. *)
Definition debug_exit_code (c : option Z) : str :=
  match c with Some n => lit "Some(" ++ lit (pretty n) ++ lit ")" | None => lit "None" end.

(** [format!("{timeout:?}")] of a whole number of milliseconds. *)
Definition millis_fraction (r : Z) : str :=
  let d k := [Z.to_N (48 + (r / k) `mod` 10)] in
  if bool_decide (r = 0)%Z then []
  else lit "." ++ trim_end_matches [ch "0"] (d 100%Z ++ d 10%Z ++ d 1%Z).

Definition debug_millis (ms : Z) : str :=
  if bool_decide (1000 ≤ ms)%Z
  then lit (pretty (ms / 1000)%Z) ++ millis_fraction (ms `mod` 1000) ++ lit "s"
  else if bool_decide (ms = 0)%Z then lit "0ns" else lit (pretty ms) ++ lit "ms".

(** What a command that exited has said. *)
Definition command_response (exit_code : option Z) (success : bool) (stdout stderr : str)
    : HookResponse :=
  if bool_decide (trim stdout = []) then
    if negb success then
      Build_HookResponse None (Some Block)
        (Some (if bool_decide (stderr = []) then lit "hook exited " ++ debug_exit_code exit_code
               else trim stderr))
        None None None
    else HookResponse_default
  else response_or_default (trim stdout).

Definition exec_command (shell command : str) (input : HookInput) (timeout : Z) : HookOutcome :=
  match run_command B shell command input timeout with
  | SpawnFailed e => HookError (lit "hook spawn failed: " ++ e)
  | CommandTimedOut => HookError (lit "hook timed out after " ++ debug_millis timeout)
  | WaitFailed e => HookError (lit "hook wait failed: " ++ e)
  | Exited exit_code success stdout stderr =>
      Ran (command_response exit_code success stdout stderr) stdout stderr exit_code
  end.

Definition exec_prompt (prompt : str) (model : option str) (input : HookInput)
    (timeout_ms : option Z) : HookOutcome :=
  match prompt_executor B with
  | None =>
      Skipped
        "prompt-type hook needs a PromptHookExecutor injected (CLI does this for Auto mode)"
  | Some execute =>
      let timeout := default default_timeout timeout_ms in
      match execute prompt model input timeout with
      | Answered text => Ran (parse_hook_response_lenient text) text [] (Some 0%Z)
      | ExecutorFailed e => HookError (lit "prompt hook executor: " ++ e)
      | NoAnswerInTime =>
          HookError (lit "prompt hook timed out after " ++ lit (pretty timeout) ++ lit "ms")
      end
  end.

(** The address in a message: the guard blocks one IPv6 address, [::1]. *)
Definition show_blocked (ip : IpAddr) : str :=
  match ip with V4 os => show_v4 os | V6 _ => "::1" end.

Definition ssrf_text (e : SsrfError) : str :=
  match e with
  | PrivateIp ip url =>
      lit "SSRF guard: blocked request to private/reserved IP `" ++ show_blocked ip ++
      lit "` (url: `" ++ url ++ lit "`)"
  | HostResolvesToPrivate host ip url =>
      lit "SSRF guard: host `" ++ host ++ lit "` resolves to private IP `" ++ show_blocked ip ++
      lit "` (url: `" ++ url ++ lit "`)"
  | UrlParse url => lit "SSRF guard: cannot parse url `" ++ url ++ lit "`"
  | UnclosedIpv6 url => lit "SSRF guard: unclosed IPv6 bracket in url `" ++ url ++ lit "`"
  | EmptyHost url => lit "SSRF guard: empty host in url `" ++ url ++ lit "`"
  end.

Definition truncate (s : str) (max : nat) : str :=
  if bool_decide (length s ≤ max) then s else take max s ++ lit "…".

Definition hook_request (url : str) (headers : list (str * str)) (payload : list N) : HttpRequest :=
  Build_HttpRequest "POST" url
    (foldl (λ hs '(k, v), <[ k := v ]> hs) {[ lit "content-type" := lit "application/json" ]} headers)
    (Some payload) None DEFAULT_MAX_REDIRECTS.

Definition exec_http (url : str) (headers : list (str * str)) (input : HookInput)
    (timeout_ms : option Z) : HookOutcome :=
  match ssrf_check_url (lookup_host B) url with
  | Err e => HookError (ssrf_text e)
  | Ok _ =>
      let timeout := default default_timeout timeout_ms in
      match input_bytes B input with
      | Err e => HookError (lit "http hook payload: " ++ e)
      | Ok payload =>
          match net_send B (hook_request url headers payload) timeout with
          | None =>
              HookError (lit "http hook send: no response within " ++ lit (pretty timeout) ++ lit "ms")
          | Some (Err e) => HookError (lit "http hook send: " ++ e)
          | Some (Ok resp) =>
              let body := from_utf8_lossy B (response_body resp) in
              if bool_decide (200 ≤ status resp < 300)%Z
              then Ran (parse_hook_response_lenient body) body [] (Some 0%Z)
              else HookError (lit "http hook " ++ lit (pretty (status resp)) ++ lit ": " ++
                              truncate body 500)
          end
      end
  end.

Definition as_bool (v : value) : option bool := match v with VBool b => Some b | _ => None end.

Definition exec_agent (prompt : str) (model : option str) (input : HookInput) : HookOutcome :=
  match agent_executor B with
  | None =>
      Skipped "agent hook: no AgentHookExecutor configured — wire one at CLI/daemon startup"
  | Some execute =>
      match execute prompt model input with
      | Ok response =>
          match value_of_json B response with
          | Some parsed =>
              let ok := default false (value_get "ok" parsed ≫= as_bool) in
              let reason := default [] (value_get "reason" parsed ≫= as_str) in
              Ran (Build_HookResponse None (Some (if ok then Approve else Block)) (Some reason)
                     None None None) response [] (Some 0%Z)
          | None =>
              Ran (Build_HookResponse None None (Some response) None None None) response []
                (Some 0%Z)
          end
      | Err e => HookError (lit "agent hook execution failed: " ++ e)
      end
  end.

Definition exec_wasm (plugin : str) (input : HookInput) (timeout_ms : option Z) : HookOutcome :=
  match wasm_executor B with
  | None =>
      Skipped
        "wasm hook: no WasmHookExecutor configured — plugins are unavailable in this build"
  | Some execute =>
      match execute plugin input timeout_ms with
      | Ok response => Ran response (default [] (message response)) [] (Some 0%Z)
      | Err _ => Skipped "wasm hook: the plugin failed to answer"
      end
  end.

Definition run_one (cfg : HookConfig) (input : HookInput) : HookOutcome :=
  match cfg with
  | Command command shell timeout if_pattern only_on_error _ _ =>
      if match if_pattern with Some p => negb (if_matches p input) | None => false end
      then Skipped "if pattern did not match"
      else if default false only_on_error && negb (bool_decide (hook_is_error input = Some true))
      then Skipped "only_on_error=true but tool was not in error"
      else exec_command (default (lit "bash") shell) command input (default default_timeout timeout)
  | PromptHook prompt timeout model => exec_prompt prompt model input timeout
  | Http url headers timeout => exec_http url headers input timeout
  | AgentHook prompt model _ => exec_agent prompt model input
  | Wasm plugin timeout => exec_wasm plugin input timeout
  end.

(** ** Running an event ([run]) *)

Definition is_once (cfg : HookConfig) : bool :=
  match cfg with Command _ _ _ _ _ (Some true) _ => true | _ => false end.

Definition is_async_rewake (cfg : HookConfig) : bool :=
  match cfg with Command _ _ _ _ _ _ (Some true) => true | _ => false end.

Record HookRunner := {
  settings : HooksSettings;
  once_executed : gset (HookEvent * nat);
  pending_rewakes : gset (HookEvent * nat);
}.

Definition has_hooks_for (r : HookRunner) (event : HookEvent) : bool :=
  match settings r !! event with Some l => negb (bool_decide (l = [])) | None => false end.

(** The hooks that are due, with their registration index. *)
Definition due (r : HookRunner) (event : HookEvent) (configs : list HookConfig)
    : list (nat * HookConfig) :=
  filter (λ '(idx, cfg), is_once cfg = false ∨ (event, idx) ∉ once_executed r) (enumerate configs).

Definition wants_rewake (configs : list HookConfig) (o : nat * HookOutcome) : bool :=
  match o.2 with
  | Ran response _ _ _ =>
      bool_decide (rewake response = Some true) &&
      match configs !! o.1 with Some cfg => is_async_rewake cfg | None => false end
  | _ => false
  end.

(** They run side by side; [completion] is the order in which they finish. *)
Definition run (completion : list (nat * HookOutcome) → list (nat * HookOutcome)) (r : HookRunner)
    (event : HookEvent) (input : HookInput) : HookRunner * list HookOutcome :=
  match settings r !! event with
  | None => (r, [])
  | Some configs =>
      let once_done := due r event configs in
      let indexed :=
        merge_sort by_fst
          (completion ((λ '(idx, cfg), (idx, run_one cfg input)) <$> once_done)) in
      (Build_HookRunner (settings r)
         (list_to_set ((λ i, (event, i.1)) <$> once_done) ∪ once_executed r)
         (list_to_set ((λ o, (event, o.1)) <$> filter (λ o, wants_rewake configs o = true) indexed)
            ∪ pending_rewakes r),
       indexed.*2)
  end.

(** *** Hooks woken later *)

Inductive Wake := NoReceiver | Quiet | Signalled | Closed.

Definition wake_input : HookInput := lifecycle (lit "WakeEvent") [] [] (lit "default").

(** [check_rewakes], with what [try_recv] finds; [order] is the order in
    which the set gives up its elements. *)
Definition check_rewakes (order : list (HookEvent * nat) → list (HookEvent * nat)) (wake : Wake)
    (r : HookRunner) : HookRunner * list HookResponse :=
  if decide (pending_rewakes r = ∅) then (r, [])
  else
    match wake with
    | NoReceiver | Quiet => (r, [])
    | Signalled | Closed =>
        (Build_HookRunner (settings r) (once_executed r) ∅,
         omap (λ '(event, idx),
           match settings r !! event ≫= (λ configs, configs !! idx) with
           | Some cfg =>
               match run_one cfg wake_input with
               | Ran response _ _ _ => Some response
               | _ => None
               end
           | None => None
           end) (order (elements (pending_rewakes r))))
    end.

End Run.

(** *** What the answers together mean *)

Definition ran (o : HookOutcome) : option HookResponse :=
  match o with Ran response _ _ _ => Some response | _ => None end.

Definition with_decision (d : HookDecision) (o : HookOutcome) : option HookResponse :=
  r ← ran o; if decide (decision r = Some d) then Some r else None.

Definition blocked (os : list HookOutcome) : option HookResponse := find_map (with_decision Block) os.
Definition approved (os : list HookOutcome) : option HookResponse := find_map (with_decision Approve) os.

Definition wants_stop (o : HookOutcome) : bool :=
  match ran o with Some r => bool_decide (continue r = Some false) | None => false end.

Definition discontinued (os : list HookOutcome) : bool := existsb wants_stop os.

(** The message of the first hook that asked to stop and gave one. *)
Definition discontinue_message (os : list HookOutcome) : option str :=
  find_map (λ o, if wants_stop o then r ← ran o; message r else None) os.

Definition run_updated_input (os : list HookOutcome) : option value :=
  find_map (λ o, r ← ran o; updated_input r) os.

(** [register_hook]. *)
Definition register_hook (r : HookRunner) (event : HookEvent) (config : HookConfig) : HookRunner :=
  Build_HookRunner (<[ event := default [] (settings r !! event) ++ [config] ]> (settings r))
    (once_executed r) (pending_rewakes r).

Definition runner_new (settings : HooksSettings) : HookRunner := Build_HookRunner settings ∅ ∅.

(** ** Which hooks run, and what order shows *)

Lemma StronglySorted_filter {A} (R : A → A → Prop) (P : A → Prop) `{∀ x, Decision (P x)} (l : list A) :
  StronglySorted R l → StronglySorted R (filter P l).
Proof.
  induction 1 as [|x l Hs IH Hf]; [constructor|]. rewrite filter_cons. case_decide; [|done].
  constructor; [done|]. apply Forall_forall. intros y [_ Hy]%list_elem_of_filter.
  by eapply Forall_forall in Hf.
Qed.

Lemma NoDup_fmap_filter {A B} (f : A → B) (P : A → Prop) `{∀ x, Decision (P x)} (l : list A) :
  NoDup (f <$> l) → NoDup (f <$> filter P l).
Proof.
  induction l as [|x l IH]; [done|]. rewrite fmap_cons. intros [Hx Hl]%NoDup_cons. rewrite filter_cons.
  case_decide; [|auto]. rewrite fmap_cons. constructor; [|auto].
  intros (y & Hy & [_ Hin]%list_elem_of_filter)%list_elem_of_fmap. apply Hx, list_elem_of_fmap. eauto.
Qed.

Lemma NoDup_filter_one {A} `{EqDecision A} (l : list A) (a : A) :
  NoDup l → length (filter (λ x, x = a) l) ≤ 1.
Proof.
  induction 1 as [|x l Hx Hl IH]; [cbn; lia|]. rewrite filter_cons. case_decide as E; [|done].
  subst. replace (filter (λ x, x = a) l) with (@nil A); [cbn; lia|]. symmetry.
  apply elem_of_nil_inv. by intros y [-> Hy]%list_elem_of_filter.
Qed.

Section Facts.
Context `{Globset} (B : Backends) (default_timeout : Z).

#[local] Notation one := (run_one B default_timeout).
#[local] Notation run_ := (run B default_timeout).

Lemma due_indices r event configs : NoDup (due r event configs).*1.
Proof.
  apply NoDup_fmap_filter. rewrite enumerate_fst. apply NoDup_seq.
Qed.

Lemma due_elem r event configs idx cfg :
  (idx, cfg) ∈ due r event configs ↔
  configs !! idx = Some cfg ∧ (is_once cfg = false ∨ (event, idx) ∉ once_executed r).
Proof.
  unfold due. rewrite list_elem_of_filter, elem_of_enumerate. tauto.
Qed.

Lemma indexed_in_order completion r event input configs : (∀ l, completion l ≡ₚ l) →
  merge_sort by_fst
    (completion ((λ '(idx, cfg), (idx, one cfg input)) <$> due r event configs)) =
  (λ '(idx, cfg), (idx, one cfg input)) <$> due r event configs.
Proof.
  intros Hc. apply sorted_already; [| |by rewrite Hc].
  - apply (StronglySorted_fmap (λ '(idx, cfg), (idx, one cfg input)) by_fst by_fst).
    + by intros [] [].
    + apply StronglySorted_filter, enumerate_sorted.
  - rewrite <-list_fmap_compose.
    replace (_ <$> due r event configs) with (due r event configs).*1; [apply due_indices|].
    apply list_fmap_ext. by intros ? [].
Qed.

(** Hooks of an event run side by side, and it does not show: whatever order
    they finish in, the answers come in the order of registration - one per
    hook that is due - and the runner is left in the same state. *)
Theorem completion_order_of_hooks_is_hidden completion r event input :
  (∀ l, completion l ≡ₚ l) →
  run_ completion r event input = run_ (λ l, l) r event input ∧
  (run_ completion r event input).2 =
    (λ ic, one ic.2 input) <$> due r event (default [] (settings r !! event)).
Proof.
  intros Hc. unfold run. destruct (settings r !! event) as [configs|]; [|by vm_compute].
  rewrite indexed_in_order by done.
  rewrite (indexed_in_order (λ l, l)) by done. split; [done|]. cbn [snd from_option id].
  rewrite <-list_fmap_compose. apply list_fmap_ext. by intros ? [].
Qed.

(** *** Hooks that run once *)

(** The hooks a run executes, by event and registration index. *)
Definition executed (r : HookRunner) (event : HookEvent) : list (HookEvent * nat) :=
  (λ i, (event, i.1)) <$> due r event (default [] (settings r !! event)).

(** Events one after the other. *)
Fixpoint history (completion : list (nat * HookOutcome) → list (nat * HookOutcome)) (r : HookRunner)
    (events : list (HookEvent * HookInput)) : list (HookEvent * nat) :=
  match events with
  | [] => []
  | (event, input) :: events =>
      executed r event ++ history completion (run_ completion r event input).1 events
  end.

Lemma run_state completion r event input :
  settings (run_ completion r event input).1 = settings r ∧
  once_executed (run_ completion r event input).1 =
    list_to_set (executed r event) ∪ once_executed r.
Proof.
  unfold run, executed. destruct (settings r !! event) as [configs|] eqn:E; cbn.
  - done.
  - split; [done|]. by rewrite (left_id_L ∅ (∪)).
Qed.

Lemma executed_NoDup r event : NoDup (executed r event).
Proof.
  unfold executed.
  replace ((λ i : nat * HookConfig, (event, i.1)) <$> due r event (default [] (settings r !! event)))
    with (pair event <$> (due r event (default [] (settings r !! event))).*1)
    by (rewrite <-list_fmap_compose; by apply list_fmap_ext).
  apply NoDup_fmap_2; [|apply due_indices]. intros ??. congruence.
Qed.

(** Executed hooks have a configuration; those that run once had not run. *)
Lemma executed_fresh r event e idx : (e, idx) ∈ executed r event →
  e = event ∧ ∃ cfg, settings r !! event ≫= (λ l, l !! idx) = Some cfg ∧
    (is_once cfg = true → (event, idx) ∉ once_executed r).
Proof.
  unfold executed. intros ([i cfg] & [= -> ->] & Hin)%list_elem_of_fmap. split; [done|].
  destruct (settings r !! event) as [configs|]; cbn in Hin; [|by apply not_elem_of_nil in Hin].
  apply due_elem in Hin as [Hl Hd]. exists cfg. split; [done|]. intros Ho. destruct Hd; congruence.
Qed.

Lemma history_avoids completion event idx cfg r events :
  settings r !! event ≫= (λ l, l !! idx) = Some cfg → is_once cfg = true →
  (event, idx) ∈ once_executed r → (event, idx) ∉ history completion r events.
Proof.
  intros Hcfg Hone. revert r Hcfg. induction events as [|[e i] events IH]; intros r Hcfg Hin;
    [apply not_elem_of_nil|].
  cbn [history]. rewrite elem_of_app. intros [Hx|Hx].
  - apply executed_fresh in Hx as [<- (cfg' & Hc & Hf)]. rewrite Hcfg in Hc. injection Hc as <-.
    by apply Hf.
  - destruct (run_state completion r e i) as [Hs Ho]. revert Hx. apply IH; [by rewrite Hs|].
    rewrite Ho. set_solver.
Qed.

(** A hook marked to run once runs at most once, however many events follow
    one another. *)
Theorem once_hooks_run_once completion r events event idx cfg :
  settings r !! event ≫= (λ l, l !! idx) = Some cfg → is_once cfg = true →
  length (filter (λ x, x = (event, idx)) (history completion r events)) ≤ 1.
Proof.
  intros Hcfg Hone. revert r Hcfg. induction events as [|[e i] events IH]; intros r Hcfg;
    [cbn; lia|].
  cbn [history]. rewrite filter_app, length_app.
  destruct (run_state completion r e i) as [Hs Ho].
  destruct (decide ((event, idx) ∈ executed r e)) as [Hin|Hout].
  - pose proof (NoDup_filter_one (executed r e) (event, idx) (executed_NoDup r e)) as H1.
    assert (H2 : filter (λ x, x = (event, idx)) (history completion (run_ completion r e i).1 events) = []).
    { apply elem_of_nil_inv. intros y [-> Hy]%list_elem_of_filter. revert Hy.
      apply history_avoids with cfg; [by rewrite Hs|done|]. rewrite Ho.
      apply elem_of_union_l, elem_of_list_to_set, Hin. }
    rewrite H2. cbn. lia.
  - replace (filter _ (executed r e)) with (@nil (HookEvent * nat)).
    + apply IH. by rewrite Hs.
    + symmetry. apply elem_of_nil_inv. by intros y [-> Hy]%list_elem_of_filter.
Qed.

(** A hook marked to run once is spent by the first event even when its
    pattern did not match and nothing ran. *)
Lemma unmatched_once_hook_is_spent completion r event input configs idx cfg :
  settings r !! event = Some configs → configs !! idx = Some cfg →
  (event, idx) ∉ once_executed r →
  (event, idx) ∈ once_executed (run_ completion r event input).1.
Proof.
  intros Hs Hc Hn. destruct (run_state completion r event input) as [_ ->].
  apply elem_of_union_l, elem_of_list_to_set. unfold executed. rewrite Hs. cbn.
  apply list_elem_of_fmap. exists (idx, cfg). split; [done|]. apply due_elem. auto.
Qed.

End Facts.

(** ** Reading the settings *)

Lemma event_of_name_Some s e : event_of_name s = Some e ↔ event_name e = s.
Proof.
  split; [|intros <-; apply event_of_event_name].
  intros [_ H]%find_first_Some. by apply bool_decide_eq_true in H.
Qed.

Lemma parse_entries configs_of map : NoDup map.*1 →
  let '(out, report) := foldl (parse_entry configs_of) (∅, Build_HooksParseReport [] []) map in
  (∀ e l, out !! e = Some l ↔ ∃ v, (event_name e, v) ∈ map ∧ configs_of v = Ok l) ∧
  unknown_events report = filter (λ n, event_of_name n = None) map.*1 ∧
  invalid_configs report =
    omap (λ '(n, v), match event_of_name n, configs_of v with
                     | Some _, Err e => Some (n, e) | _, _ => None end) map.
Proof.
  induction map as [|[n v] map IH] using rev_ind.
  { intros _. cbn. split; [|done]. intros e l. split; [done|]. by intros (? & ?%not_elem_of_nil & _). }
  rewrite fmap_app, NoDup_app. intros (Hnd & Hn & _). specialize (IH Hnd).
  rewrite foldl_app. cbn [foldl].
  destruct (foldl _ _ map) as [out report]. destruct IH as (Hout & Hun & Hinv).
  assert (Hnot : ∀ w, (n, w) ∉ map).
  { intros w Hw. apply (Hn n); [|left]. apply list_elem_of_fmap. by exists (n, w). }
  unfold parse_entry. rewrite filter_app, omap_app. cbn [fmap list_fmap omap list_omap].
  assert (Hsnoc : ∀ x, x ∈ map ++ [(n, v)] ↔ x ∈ map ∨ x = (n, v))
    by (intros x; by rewrite elem_of_app, list_elem_of_singleton).
  destruct (event_of_name n) as [event|] eqn:En.
  - apply event_of_name_Some in En as Hen.
    rewrite (filter_cons_False _ n) by (by rewrite En). rewrite filter_nil, app_nil_r.
    destruct (configs_of v) as [l0|err] eqn:Ev.
    + rewrite app_nil_r. split; [|done]. setoid_rewrite Hsnoc. intros e l.
      assert (Hnone : out !! event = None).
      { destruct (out !! event) as [l1|] eqn:E1; [|done].
        apply Hout in E1 as (w & Hw & _). rewrite Hen in Hw. by apply Hnot in Hw. }
      rewrite Hnone. cbn [from_option default app id]. destruct (decide (e = event)) as [->|Hne].
      * rewrite lookup_insert_eq. split; [intros [= <-]; exists v; split; [right; congruence|done]|].
        intros (w & [Hw|[= _ ->]] & Hc); [|congruence]. rewrite Hen in Hw. by apply Hnot in Hw.
      * rewrite lookup_insert_ne by done. rewrite Hout. split; [naive_solver|].
        intros (w & [Hw|[= Hx ->]] & Hc); [eauto|]. rewrite <-Hen in Hx.
        apply (f_equal event_of_name) in Hx. rewrite !event_of_event_name in Hx. congruence.
    + cbn [unknown_events invalid_configs]. split; [|split; [done|by rewrite Hinv]].
      setoid_rewrite Hsnoc. intros e l. rewrite Hout.
      split; [naive_solver|]. intros (w & [Hw|[= Hx ->]] & Hc); [eauto|congruence].
  - rewrite (filter_cons_True _ n) by done. rewrite filter_nil, app_nil_r.
    cbn [unknown_events invalid_configs]. split; [|split; [by rewrite Hun|done]].
    setoid_rewrite Hsnoc. intros e l. rewrite Hout. split; [naive_solver|]. intros (w & [Hw|[= Hx ->]] & Hc); [eauto|].
    rewrite <-Hx, event_of_event_name in En. done.
Qed.

(** One broken entry costs only itself: whatever else the hooks' settings
    hold, an event gets exactly the hooks its own entry parses to, a name that
    is no event is reported and configures nothing, and an entry that does
    not parse is reported with its error. *)
Theorem parse_hooks_settings_spec configs_of map :
  NoDup map.*1 →
  let '(out, report) := parse_hooks_settings configs_of (VObject map) in
  (∀ e l, out !! e = Some l ↔ ∃ v, (event_name e, v) ∈ map ∧ configs_of v = Ok l) ∧
  unknown_events report = filter (λ n, event_of_name n = None) map.*1 ∧
  invalid_configs report =
    omap (λ '(n, v), match event_of_name n, configs_of v with
                     | Some _, Err e => Some (n, e) | _, _ => None end) map.
Proof. apply parse_entries. Qed.

(** ** Worked examples *)

Definition sample_backends : Backends :=
  {| run_command := λ _ command _ _,
       if decide (command = lit "deny") then Exited (Some 2%Z) false [] (lit "no")
       else Exited (Some 0%Z) true [] [];
     prompt_executor := None; agent_executor := None;
     wasm_executor := Some (λ _ _ _, Err (lit "trap")); lookup_host := λ _, None;
     input_bytes := λ _, Ok []; net_send := λ _ _, None; from_utf8_lossy := λ _, [];
     response_of_json := λ _, Err (lit "not json"); value_of_json := λ _, None |}.

Definition sample_hooks : list HookConfig :=
  [Command (lit "log") None None (Some (lit "Bash(git push:*)")) None (Some true) None;
   Wasm (lit "audit") None; Command (lit "deny") None None None None None None].

Definition sample_runner : HookRunner := runner_new {[ PreToolUse := sample_hooks ]}.

Definition sample_input : HookInput :=
  with_tool (lifecycle (lit "PreToolUse") (lit "s") (lit "/") (lit "default")) (lit "Bash")
    (VObject [(lit "command", VString (lit "ls"))]).

Lemma completion_order_of_hooks_is_hidden_witness :
  (run (H := no_globset) sample_backends 600000 (@rev _) sample_runner PreToolUse sample_input).2 =
  [Skipped (lit "if pattern did not match"); Skipped (lit "wasm hook: the plugin failed to answer");
   Ran (Build_HookResponse None (Some Block) (Some (lit "no")) None None None) [] (lit "no")
     (Some 2%Z)].
Proof.
  destruct (completion_order_of_hooks_is_hidden (H := no_globset) sample_backends 600000 (@rev _)
    sample_runner PreToolUse sample_input) as [_ ->].
  - intros l. symmetry. apply Permutation_rev.
  - vm_compute. reflexivity.
Defined.

Lemma once_hooks_run_once_witness :
  length (filter (λ x, x = (PreToolUse, 0))
    (history (H := no_globset) sample_backends 600000 (λ l, l) sample_runner
       [(PreToolUse, sample_input); (Stop, sample_input); (PreToolUse, sample_input)])) ≤ 1.
Proof.
  apply (once_hooks_run_once (H := no_globset) sample_backends 600000 (λ l, l) sample_runner _
    PreToolUse 0 (Command (lit "log") None None (Some (lit "Bash(git push:*)")) None (Some true) None)).
  - vm_compute. reflexivity.
  - reflexivity.
Defined.

Lemma parse_hooks_settings_spec_witness :
  let map := [(lit "Stop", VArray []); (lit "Stopp", VNull); (lit "Setup", VNull)] in
  let configs_of v := match v with VArray _ => Ok [Wasm (lit "p") None] | _ => Err (lit "no") end in
  NoDup map.*1 ∧
  (parse_hooks_settings configs_of (VObject map)).2 =
    Build_HooksParseReport [lit "Stopp"] [(lit "Setup", lit "no")].
Proof.
  intros map configs_of.
  assert (Hnd : NoDup map.*1) by by_compute.
  split; [exact Hnd|].
  pose proof (parse_hooks_settings_spec configs_of map Hnd) as Hs.
  destruct (parse_hooks_settings configs_of (VObject map)) as [out [un inv]].
  destruct Hs as (_ & Hun & Hinv). cbn [unknown_events invalid_configs] in Hun, Hinv.
  cbn [snd]. rewrite Hun, Hinv. vm_compute. reflexivity.
Defined.
