(* ===== verification/ToolExec.v ===== *)
(** * Dispatching a tool call ([crates/runtime/src/turn.rs]
    [execute_tool_inner], [core/src/interface/tool_middleware.rs],
    [tool_result.rs], [elicitation.rs])

    One call from the model's request to its result: the rings around it, the
    hook before it, the permission check and the question to the user, the
    tool itself, the hooks after it and the transformers that have the last
    word.  The tools and the user are parameters; telemetry and the token
    that cancels a call are left out, except where the user's silence ends. *)

From stdpp Require Import base option numbers sets gmap strings pretty list.
From S2P Require Import Prelude RustStr PermTypes Rule Path PathRule Shell RuleSet RuleLint.
From S2P Require Import Gate Registry Permission SettingsPatch Conversation Streaming Net Hooks.
From S2P Require Import Edit.

(** ** Middleware *)

Record ToolCall := { call_name : str; call_input : value }.

(** What a ring does: it answers, or runs what is inside - with a cancellation
    signal of its choice - and goes on from the outcome; [T] are the signals. *)
Inductive Around (T : Type) :=
| Finish (o : ToolOutcome) (exec : T)
| RunNext (call : ToolCall) (exec : T) (k : ToolOutcome → T → Around T).
Arguments Finish {T} _ _.
Arguments RunNext {T} _ _ _.

Section Middleware.
Context {T S : Type}.

(** The state in any case; [None] where something inside never comes back. *)
Fixpoint run_around (next : ToolCall → T → S → S * option (ToolOutcome * T)) (a : Around T) (s : S)
    : S * option (ToolOutcome * T) :=
  match a with
  | Finish o exec => (s, Some (o, exec))
  | RunNext call exec k =>
      match next call exec s with
      | (s, Some (o, exec)) => run_around next (k o exec) s
      | (s, None) => (s, None)
      end
  end.

(** [NextDispatch::run] over the rings that remain. *)
Fixpoint next_run (remaining : list (ToolCall → T → Around T))
    (terminal : T → S → S * option ToolOutcome) (call : ToolCall) (exec : T) (s : S)
    : S * option (ToolOutcome * T) :=
  match remaining with
  | [] => let '(s, o) := terminal exec s in (s, (λ o, (o, exec)) <$> o)
  | m :: rest => run_around (next_run rest terminal) (m call exec) s
  end.

Definition dispatch_through (chain : list (ToolCall → T → Around T)) (call : ToolCall) (cancel : T)
    (dispatch : T → S → S * option ToolOutcome) (s : S) : S * option ToolOutcome :=
  let '(s, o) := next_run chain dispatch call cancel s in (s, fst <$> o).

End Middleware.

(** ** Results *)

Record ToolResultBlock := {
  block_type : str;
  block_text : option str;
  block_source : option value;
}.

Inductive ToolResultContent := TextContent (t : str) | Blocks (bs : list ToolResultBlock).

Record ToolResult := {
  tool_content : ToolResultContent;
  tool_is_error : bool;
  tool_new_messages : option (list value);
}.

Definition as_image (b : ToolResultBlock) : option (str * str) :=
  if bool_decide (block_type b = lit "image") then
    source ← block_source b;
    media_type ← value_get "media_type" source ≫= as_str;
    data ← value_get "data" source ≫= as_str;
    Some (media_type, data)
  else None.

Definition shown_text (b : ToolResultBlock) : option str :=
  match as_image b with
  | Some _ => None
  | None => t ← block_text b; if bool_decide (t = []) then None else Some t
  end.

Definition shown_image (b : ToolResultBlock) : option PendingToolImage :=
  '(m, d) ← as_image b; Some (Build_PendingToolImage m d).

Definition render_tool_result_content (c : ToolResultContent) : str * list PendingToolImage :=
  match c with
  | TextContent t => (t, [])
  | Blocks blocks =>
      let images := omap shown_image blocks in
      let text := join [10%N] (omap shown_text blocks) in
      (if bool_decide (text = []) && negb (bool_decide (images = [])) then
         if bool_decide (length images = 1) then lit "[image]"
         else lit "[" ++ lit (pretty (length images)) ++ lit " images]"
       else text, images)
  end.

Record ToolResultDraft := {
  draft_text : str;
  draft_images : list PendingToolImage;
  draft_is_error : bool;
}.

Definition Transformer : Type := ToolCall → ToolResultDraft → ToolResultDraft.

Definition apply_transformers (ts : list Transformer) (call : ToolCall) (d : ToolResultDraft)
    : ToolResultDraft :=
  foldl (λ d t, t call d) d ts.

Definition set_text (d : ToolResultDraft) (t : str) : ToolResultDraft :=
  Build_ToolResultDraft t (draft_images d) (draft_is_error d).

Definition TruncateText (max_bytes : nat) : Transformer := λ _ d,
  if bool_decide (len (draft_text d) ≤ max_bytes) then d
  else
    let kept := truncate_at_char_boundary (draft_text d) max_bytes in
    set_text d (kept ++ [10%N] ++ lit "… [" ++ lit (pretty (len (draft_text d) - len kept)) ++
                lit " bytes truncated]").

Definition redact_literals_new (secrets : list str) : list str := filter (λ s, s ≠ []) secrets.
Definition REDACTED : str := "<redacted>".

Definition redact_one (replacement : str) (text secret : str) : str :=
  if RustStr.contains secret text then RustStr.replace secret replacement text else text.

Definition RedactLiterals (secrets : list str) (replacement : str) : Transformer := λ _ d,
  set_text d (foldl (redact_one replacement) (draft_text d) secrets).

(** ** Asking the user *)

Inductive PersistScope := ScopeSession | ScopeLocal.

Inductive PermissionAnswer :=
| AnswerPermit
| AnswerDeny (reason : str)
| AnswerPermitAlways (scope : PersistScope).

Inductive ElicitOutcome := ElicitAnswered (v : value) | Declined (reason : str).

Definition decline_reason (o : ElicitOutcome) : option str :=
  match o with Declined r => Some r | ElicitAnswered _ => None end.

(** What becomes of a question: when the reply and the end of the session
    come, in milliseconds from the question, if they do. *)
Record Asked := {
  reply : option (Z * ElicitOutcome);
  closing : option Z;
}.

Inductive AskEnd := PromptTimedOut | Replied (o : ElicitOutcome) | SessionClosing.

(** [tokio::select!]: the first branch to be ready; [pick] chooses among
    those ready at once.  Without a deadline the wait may never end. *)
Definition branches (prompt_timeout : Z) (a : Asked) : list (Z * AskEnd) :=
  (if bool_decide (prompt_timeout = 0)%Z then [] else [((prompt_timeout * 1000)%Z, PromptTimedOut)]) ++
  from_option (λ '(t, o), [(t, Replied o)]) [] (reply a) ++
  from_option (λ t, [(t, SessionClosing)]) [] (closing a).

Definition earliest (bs : list (Z * AskEnd)) : list (Z * AskEnd) :=
  filter (λ b, forallb (λ c, bool_decide (b.1 ≤ c.1)%Z) bs = true) bs.

Definition wait_end (prompt_timeout : Z) (pick : nat) (a : Asked) : option AskEnd :=
  let ready := earliest (branches prompt_timeout a) in
  snd <$> ready !! (pick `mod` length ready).

(** [DeclineAll]. *)
Definition decline_all_text (tool_name : str) : str :=
  lit "no one is available to authorize `" ++ tool_name ++
  lit "`: this engine was built without an elicitation handler, and an unanswered question is not consent".

(** ** The call *)

(** The [Permission] trait, as dispatch uses it; a check may wait for someone
    and never come back. *)
Class PermissionHandler (P : Type) := {
  check : P → str → value → str → str → option PermissionOutcome;
  grant : P → str → option str → P;
}.

#[export] Instance rule_set_handler {GS : Globset} {HE : HostEnv}
    : PermissionHandler RuleSetPermission :=
  {| check p name input cwd session_id := Some (perm_check p name input cwd session_id);
     grant := add_persistent_allow |}.

Definition mode_name (m : PermissionMode) : str :=
  match m with
  | ModeDefault => "default" | ModePlan => "plan" | ModeAcceptEdits => "acceptEdits"
  | ModeBypassPermissions => "bypassPermissions" | ModeAuto => "auto" | ModeDontAsk => "dontAsk"
  | ModeBubble => "bubble" | ModeYolo => "yolo"
  end.

Section Dispatch.
Context {P : Type} `{PermissionHandler P} `{Globset} {SJ : SerdeJson}.
Context {W : Type} (B : Backends) (hook_timeout : Z)
  (completion : list (nat * HookOutcome) → list (nat * HookOutcome)).

(** [ToolExecCtx], what does not change.  [run_tool] is [Tool::call] on the
    world [W], which may never come back, and [ask] the elicitation, which may
    take its time. *)
Record ToolExecCtx := {
  tool_use_id : str;
  registry : Registry Tool;
  exec_cwd : str;
  exec_session_id : str;
  exec_turn_id : str;
  live_mode : PermissionMode;
  prompt_timeout_secs : Z;
  ask : str → str → list str → Asked;
  pick_branch : nat;
  answer_as : value → option PermissionAnswer;
  run_tool : str → value → W → W * option (result ToolResult str);
  result_transformers : list Transformer;
}.

(** What does. *)
Record DispatchState := {
  hook_runner : HookRunner;
  permission : P;
  local_settings : option str;
  images : list PendingToolImage;
  discontinued_flag : bool;
  world : W;
  ran_calls : list (str * value);
}.

Definition set_hooks (s : DispatchState) (r : HookRunner) : DispatchState :=
  Build_DispatchState r (permission s) (local_settings s) (images s) (discontinued_flag s) (world s)
    (ran_calls s).

Definition set_images (s : DispatchState) (imgs : list PendingToolImage) : DispatchState :=
  Build_DispatchState (hook_runner s) (permission s) (local_settings s) imgs (discontinued_flag s)
    (world s) (ran_calls s).

Definition set_discontinued (s : DispatchState) (d : bool) : DispatchState :=
  Build_DispatchState (hook_runner s) (permission s) (local_settings s) (images s)
    (discontinued_flag s || d) (world s) (ran_calls s).

Definition set_permission (s : DispatchState) (p : P) (file : option str) : DispatchState :=
  Build_DispatchState (hook_runner s) p file (images s) (discontinued_flag s) (world s) (ran_calls s).

Context (ctx : ToolExecCtx).

Definition run_hooks (event : HookEvent) (input : HookInput) (s : DispatchState)
    : DispatchState * list HookOutcome :=
  if has_hooks_for (hook_runner s) event then
    let '(r, os) := run B hook_timeout completion (hook_runner s) event input in (set_hooks s r, os)
  else (s, []).

Definition fire (event : HookEvent) (build : HookInput → HookInput) (s : DispatchState)
    : DispatchState :=
  (run_hooks event
     (build (with_turn_id (lifecycle (event_name event) (exec_session_id ctx) (exec_cwd ctx) [])
               (exec_turn_id ctx))) s).1.

Definition tool_hook_input (event name : str) (input : value) (result : option value)
    (is_error : option bool) : HookInput :=
  Build_HookInput event (exec_session_id ctx) (exec_cwd ctx) (mode_name (live_mode ctx))
    (Some name) (Some input) (Some (tool_use_id ctx)) result is_error None None None None None.

Definition no_reason : str := "no reason given".

(** [PreToolUse]: refuse, or rewrite the input. *)
Definition pre_tool_use (name : str) (input : value) (s : DispatchState)
    : DispatchState * result value str :=
  let '(s, os) := run_hooks PreToolUse (tool_hook_input "PreToolUse" name input None None) s in
  (s,
   match blocked os with
   | Some response =>
       Err (lit "Blocked by PreToolUse hook: " ++ default no_reason (message response))
   | None => Ok (default input (run_updated_input os))
   end).

(** [PermitAlways]: the grant, and the line in the settings file. *)
Definition remember (name : str) (content : option str) (scope : PersistScope) (s : DispatchState)
    : DispatchState :=
  let p := grant (permission s) name content in
  let file :=
    match scope with
    | ScopeSession => local_settings s
    | ScopeLocal =>
        match build_rule_string name content with
        | Some rule_string =>
            match append_permission_rule (local_settings s) AppendAllow rule_string with
            | Ok (_, file) => file
            | Err _ => local_settings s
            end
        | None => local_settings s
        end
    end in
  set_permission s p file.

Definition denied (name : str) (input : value) (reason : str) (s : DispatchState) : DispatchState :=
  fire PermissionDenied (λ i, with_reason (with_tool i name input) reason) s.

Definition not_a_decision : str := "the answer to the permission prompt was not a decision".

(** How the question ended: [None] lets the call run. *)
Definition answered (tool : Tool) (name : str) (input : value) (e : AskEnd) (s : DispatchState)
    : DispatchState * option str :=
  match e with
  | PromptTimedOut =>
      (denied name input "permission prompt timed out" s,
       Some (lit "Denied by permission: no answer to the permission prompt within " ++
             lit (pretty (prompt_timeout_secs ctx)) ++ lit "s"))
  | SessionClosing => (s, Some (lit "permission request cancelled: session closing"))
  | Replied outcome =>
      match (match outcome with ElicitAnswered v => answer_as ctx v | Declined _ => None end) with
      | Some AnswerPermit => (s, None)
      | Some (AnswerPermitAlways scope) =>
          (remember name (permission_match_content tool input) scope s, None)
      | Some (AnswerDeny reason) =>
          (denied name input reason s, Some (lit "Denied by permission: " ++ reason))
      | None =>
          let reason := default not_a_decision (decline_reason outcome) in
          (denied name input reason s, Some reason)
      end
  end.

(** What the permission check comes to. *)
Inductive Verdict :=
| Lets
| Refuses (reason : str)
| Waits.

Definition authorize (tool : Tool) (name : str) (input : value) (s : DispatchState)
    : DispatchState * Verdict :=
  match check (permission s) name input (exec_cwd ctx) (exec_session_id ctx) with
  | None => (s, Waits)
  | Some Permit => (s, Lets)
  | Some (OutcomeDeny reason) =>
      (denied name input reason s, Refuses (lit "Denied by permission: " ++ reason))
  | Some (Prompt message paths) =>
      let s := fire PermissionRequested (λ i, with_reason (with_tool i name input) message) s in
      let s := fire Notification (λ i, with_reason (with_tool i name input)
                 (lit "waiting for a permission decision on `" ++ name ++ lit "`")) s in
      match wait_end (prompt_timeout_secs ctx) (pick_branch ctx) (ask ctx name message paths) with
      | None => (s, Waits)
      | Some e =>
          let '(s, refusal) := answered tool name input e s in (s, from_option Refuses Lets refusal)
      end
  end.

(** [Tool::call], and what it answered as an outcome, if it did. *)
Definition call_tool (name : str) (input : value) (s : DispatchState)
    : DispatchState * option ToolOutcome :=
  let '(w, answer) := run_tool ctx name input (world s) in
  let s := Build_DispatchState (hook_runner s) (permission s) (local_settings s) (images s)
             (discontinued_flag s) w (ran_calls s ++ [(name, input)]) in
  match answer with
  | None => (s, None)
  | Some (Ok r) =>
      let '(text, imgs) := render_tool_result_content (tool_content r) in
      (set_images s (images s ++ imgs),
       Some (Ok (Build_ToolAnswer text (tool_new_messages r) (tool_is_error r))))
  | Some (Err e) => (s, Some (Err e))
  end.

Definition failure_hooks (name : str) (input : value) (outcome : ToolOutcome) (s : DispatchState)
    : DispatchState :=
  match outcome with
  | Err e => fire PostToolUseFailure (λ i, with_reason (with_tool i name input) e) s
  | Ok _ => s
  end.

Definition post_tool_use (name : str) (input : value) (outcome : ToolOutcome) (s : DispatchState)
    : DispatchState * ToolOutcome :=
  let '(result, is_error) :=
    match outcome with
    | Ok a => (VString (text a), reported_failure a)
    | Err e => (VString e, true)
    end in
  let '(s, os) :=
    run_hooks PostToolUse (tool_hook_input "PostToolUse" name input (Some result) (Some is_error)) s in
  (set_discontinued s (discontinued os),
   match blocked os with
   | Some response => Err (lit "Denied by PostToolUse hook: " ++ default no_reason (message response))
   | None => outcome
   end).

Definition lifecycle_event (name : str) : option HookEvent :=
  if decide (name = lit "TaskCreate") then Some TaskCreated
  else if decide (name = lit "EnterWorktree") then Some WorktreeCreate
  else if decide (name = lit "ExitWorktree") then Some WorktreeRemove
  else None.

Definition announce (name : str) (input : value) (outcome : ToolOutcome) (s : DispatchState)
    : DispatchState :=
  match outcome, lifecycle_event name with
  | Ok _, Some event => fire event (λ i, with_tool i name input) s
  | _, _ => s
  end.

Definition apply_result_transformers (name : str) (input : value) (outcome : ToolOutcome)
    (s : DispatchState) : DispatchState * ToolOutcome :=
  if bool_decide (length (result_transformers ctx) = 0) then (s, outcome)
  else
    let was_reported_failure := match outcome with Ok a => reported_failure a | Err _ => false end in
    let '(text, is_error, new_messages) :=
      match outcome with
      | Ok a => (text a, reported_failure a, new_messages a)
      | Err e => (e, true, None)
      end in
    let draft :=
      apply_transformers (result_transformers ctx) (Build_ToolCall name input)
        (Build_ToolResultDraft text (images s) is_error) in
    (set_images s (draft_images draft),
     if draft_is_error draft && negb was_reported_failure then Err (draft_text draft)
     else Ok (Build_ToolAnswer (draft_text draft) new_messages (draft_is_error draft))).

(** What follows the tool's answer. *)
Definition conclude (name : str) (input : value) (outcome : ToolOutcome) (s : DispatchState)
    : DispatchState * ToolOutcome :=
  let s := failure_hooks name input outcome s in
  let '(s, outcome) := post_tool_use name input outcome s in
  let s := announce name input outcome s in
  apply_result_transformers name input outcome s.

(** Everything after the call is authorized. *)
Definition perform (name : str) (input : value) (s : DispatchState) : DispatchState * option ToolOutcome :=
  match call_tool name input s with
  | (s, Some outcome) => let '(s, outcome) := conclude name input outcome s in (s, Some outcome)
  | (s, None) => (s, None)
  end.

(** The state in any case; [None] where the call waits for an answer, of the
    permission system, the user or the tool, that never comes. *)
Definition execute_tool_inner (name : str) (input : value) (s : DispatchState)
    : DispatchState * option ToolOutcome :=
  match get (registry ctx) name with
  | None => (s, Some (Err (lit "Tool not found: " ++ name)))
  | Some tool =>
      match pre_tool_use name input s with
      | (s, Err e) => (s, Some (Err e))
      | (s, Ok input) =>
          match authorize tool name input s with
          | (s, Waits) => (s, None)
          | (s, Refuses reason) => (s, Some (Err reason))
          | (s, Lets) => perform name input s
          end
      end
  end.

End Dispatch.

(** [execute_tool_with_telemetry]: the rings choose the signal, never the
    call. *)
Definition execute_tool_with_telemetry {P} `{PermissionHandler P} `{Globset} {SJ : SerdeJson} {W T}
    (B : Backends) (hook_timeout : Z)
    (completion : list (nat * HookOutcome) → list (nat * HookOutcome))
    (ctx_with : T → ToolExecCtx (W := W)) (chain : list (ToolCall → T → Around T)) (cancel : T)
    (name : str) (input : value) (s : DispatchState (P := P) (W := W))
    : DispatchState (P := P) (W := W) * option ToolOutcome :=
  let inner exec := execute_tool_inner B hook_timeout completion (ctx_with exec) name input in
  if bool_decide (length chain = 0) then inner cancel s
  else dispatch_through chain (Build_ToolCall name input) cancel inner s.

Arguments DispatchState : clear implicits.
Arguments ToolExecCtx : clear implicits.

(** ** Waiting for the user *)

Lemma earliest_exists bs : bs ≠ [] → ∃ b, b ∈ earliest bs.
Proof.
  intros Hne. assert (Hmin : ∃ b, b ∈ bs ∧ ∀ c, c ∈ bs → (b.1 ≤ c.1)%Z).
  { induction bs as [|b bs IH]; [done|]. destruct (decide (bs = [])) as [->|Hb].
    - exists b. split; [left|]. intros c ->%list_elem_of_singleton. lia.
    - destruct (IH Hb) as (m & Hm & Hle). destruct (decide (b.1 ≤ m.1)%Z).
      + exists b. split; [left|]. intros c [->|Hc]%elem_of_cons; [lia|]. specialize (Hle c Hc). lia.
      + exists m. split; [by right|]. intros c [->|Hc]%elem_of_cons; [lia|auto]. }
  destruct Hmin as (b & Hb & Hle). exists b. apply list_elem_of_filter. split; [|done].
  apply forallb_elem_of. intros c Hc. by apply bool_decide_eq_true, Hle.
Qed.

Lemma wait_end_is_Some t pick a : is_Some (wait_end t pick a) ↔ branches t a ≠ [].
Proof.
  unfold wait_end. rewrite fmap_is_Some. split.
  - intros [b Hb] Hn. by rewrite Hn in Hb.
  - intros Hne. destruct (earliest_exists _ Hne) as [b Hb].
    apply lookup_lt_is_Some. apply Nat.mod_upper_bound. destruct (earliest _); [|done].
    by apply not_elem_of_nil in Hb.
Qed.

Lemma wait_end_silent t pick a :
  reply a = None → closing a = None →
  wait_end t pick a = if bool_decide (t = 0)%Z then None else Some PromptTimedOut.
Proof.
  intros Hr Hc. unfold wait_end, branches. rewrite Hr, Hc. cbn [from_option].
  case_bool_decide; [done|]. rewrite !app_nil_r. unfold earliest.
  rewrite list_filter_all; [by rewrite Nat.mod_1_r|].
  constructor; [|constructor]. apply forallb_elem_of. intros c ->%list_elem_of_singleton.
  by apply bool_decide_eq_true.
Qed.

(** ** Nothing runs unauthorized *)

Section Authorized.
Context {P : Type} `{PermissionHandler P} `{Globset} {SJ : SerdeJson}.
Context {W : Type} (B : Backends) (hook_timeout : Z)
  (completion : list (nat * HookOutcome) → list (nat * HookOutcome)).

#[local] Notation state := (DispatchState P W).

(** The permission system, or the user it asked, lets the call run. *)
Definition allowed_by (ctx : ToolExecCtx W) (p : P) (name : str) (input : value) : Prop :=
  check p name input (exec_cwd ctx) (exec_session_id ctx) = Some Permit ∨
  ∃ message paths v,
    check p name input (exec_cwd ctx) (exec_session_id ctx) = Some (Prompt message paths) ∧
    wait_end (prompt_timeout_secs ctx) (pick_branch ctx) (ask ctx name message paths) =
      Some (Replied (ElicitAnswered v)) ∧
    (answer_as ctx v = Some AnswerPermit ∨ ∃ scope, answer_as ctx v = Some (AnswerPermitAlways scope)).

(** A permission handler after some of the user's grants. *)
Definition grown (p p' : P) : Prop := rtc (λ q q', ∃ n c, q' = grant q n c) p p'.

(** Hooks around a call change their own state and nothing else. *)
Definition same_but_hooks (s s' : state) : Prop :=
  permission s' = permission s ∧ local_settings s' = local_settings s ∧ images s' = images s ∧
  discontinued_flag s' = discontinued_flag s ∧ world s' = world s ∧ ran_calls s' = ran_calls s.

Lemma run_hooks_same event input (s : state) :
  same_but_hooks s (run_hooks B hook_timeout completion event input s).1.
Proof.
  unfold run_hooks. destruct (has_hooks_for _ _); [|done].
  by destruct (run B hook_timeout completion _ event input).
Qed.

Lemma fire_same ctx event build (s : state) :
  same_but_hooks s (fire B hook_timeout completion ctx event build s).
Proof. apply run_hooks_same. Qed.

Lemma pre_tool_use_same ctx name input (s : state) :
  same_but_hooks s (pre_tool_use B hook_timeout completion ctx name input s).1.
Proof.
  unfold pre_tool_use. pose proof (run_hooks_same PreToolUse
    (tool_hook_input ctx "PreToolUse" name input None None) s) as Hs.
  by destruct (run_hooks _ _ _ _ _ _) as [s' os].
Qed.

(** What a permission check may change besides. *)
Definition only_grants (s s' : state) : Prop :=
  ran_calls s' = ran_calls s ∧ world s' = world s ∧ images s' = images s ∧
  grown (permission s) (permission s').

Lemma only_grants_trans s1 s2 s3 : same_but_hooks s1 s2 → only_grants s2 s3 → only_grants s1 s3.
Proof.
  intros (Hp & _ & Hi & _ & Hw & Hr) (Hr' & Hw' & Hi' & Hg). unfold only_grants.
  rewrite Hr', Hw', Hi', <-Hp. by split_and!.
Qed.

Lemma same_only_grants s s' : same_but_hooks s s' → only_grants s s'.
Proof.
  intros Hs. apply only_grants_trans with s'; [done|]. split_and!; try done. apply rtc_refl.
Qed.

(** The user said yes. *)
Definition consent (ctx : ToolExecCtx W) (e : AskEnd) : Prop :=
  ∃ v, e = Replied (ElicitAnswered v) ∧
    (answer_as ctx v = Some AnswerPermit ∨ ∃ scope, answer_as ctx v = Some (AnswerPermitAlways scope)).

Lemma answered_cases ctx tool name input e (s : state) :
  let r := answered B hook_timeout completion ctx tool name input e s in
  only_grants s r.1 ∧ (r.2 = None ↔ consent ctx e).
Proof.
  cbv zeta. unfold answered, consent.
  assert (Hd : ∀ reason, only_grants s (denied B hook_timeout completion ctx name input reason s))
    by (intros; apply same_only_grants, fire_same).
  assert (Hs : only_grants s s) by by apply same_only_grants.
  destruct e as [|[v|reason]|]; cbn [fst snd]; try (split; [done|naive_solver]).
  destruct (answer_as ctx v) as [[|reason|scope]|] eqn:Ha; cbn [fst snd]; (split; [try done|]).
  - split; [intros _; eauto|done].
  - split; [done|]. intros (w & [= <-] & [?|[? ?]]); congruence.
  - unfold remember. split_and!; try done. apply rtc_once. eauto.
  - split; [intros _; exists v; eauto|done].
  - split; [done|]. intros (w & [= <-] & [?|[? ?]]); congruence.
Qed.

(** The branches of the permission check. *)
Lemma authorize_cases ctx tool name input (s s' : state) v :
  authorize B hook_timeout completion ctx tool name input s = (s', v) →
  only_grants s s' ∧ (v = Lets ↔ allowed_by ctx (permission s) name input).
Proof.
  unfold authorize, allowed_by. destruct (check _ _ _ _ _) as [[|reason|message paths]|].
  - intros [= <- <-]. split; [by apply same_only_grants|]. split; [by left|done].
  - intros [= <- <-]. split; [apply same_only_grants, fire_same|]. split; [done|].
    by intros [?|(? & ? & ? & ? & _)].
  - match goal with |- context [answered _ _ _ _ _ _ _ _ ?s2] => set (s2' := s2) end.
    assert (same_but_hooks s s2') as Hsame.
    { destruct (fire_same ctx PermissionRequested (λ i, with_reason (with_tool i name input) message) s)
        as (Hp & Hl & Hi & Hd & Hw & Hr).
      unfold s2', same_but_hooks. rewrite <-Hp, <-Hl, <-Hi, <-Hd, <-Hw, <-Hr. apply fire_same. }
    destruct (wait_end _ _ _) as [e|] eqn:Hwait.
    + destruct (answered_cases ctx tool name input e s2') as [Hg Hc].
      destruct (answered _ _ _ _ _ _ _ _ s2') as [s3 refusal]. cbn [fst snd] in *. intros [= <- <-]. split.
      * by eapply only_grants_trans.
      * transitivity (refusal = None); [by destruct refusal|]. rewrite Hc. unfold consent. split.
        -- intros (v & -> & Hv). right. eauto 10.
        -- intros [?|(m & ps & v & [= <- <-] & Hw & Hv)]; [done|]. rewrite Hwait in Hw.
           injection Hw as ->. eauto.
    + intros [= <- <-]. split; [by apply same_only_grants|]. split; [done|].
      intros [?|(m & ps & v & [= <- <-] & Hw & _)]; [done|]. by rewrite Hwait in Hw.
  - intros [= <- <-]. split; [by apply same_only_grants|]. split; [done|].
    by intros [?|(? & ? & ? & ? & _)].
Qed.

(** After the tool's answer nothing runs. *)
Lemma conclude_ran ctx name input o (s : state) :
  ran_calls (conclude B hook_timeout completion ctx name input o s).1 = ran_calls s ∧
  permission (conclude B hook_timeout completion ctx name input o s).1 = permission s.
Proof.
  unfold conclude. set (s2 := failure_hooks _ _ _ _ _ _ _ s).
  assert (H2 : same_but_hooks s s2) by (unfold s2, failure_hooks; destruct o; [done|apply fire_same]).
  destruct (post_tool_use _ _ _ _ _ _ _ s2) as [s3 o3] eqn:E3.
  assert (H3 : ran_calls s3 = ran_calls s2 ∧ permission s3 = permission s2).
  { unfold post_tool_use in E3.
    destruct (match o with Ok a => _ | Err e => _ end) as [result is_error].
    pose proof (run_hooks_same PostToolUse (tool_hook_input ctx "PostToolUse" name input
      (Some result) (Some is_error)) s2) as Hh.
    destruct (run_hooks _ _ _ _ _ _) as [s' os]. injection E3 as <- _.
    by destruct Hh as (? & _ & _ & _ & _ & ?). }
  set (s4 := announce _ _ _ _ _ _ _ s3).
  assert (H4 : same_but_hooks s3 s4).
  { unfold s4, announce. destruct o3; [|done]. destruct (lifecycle_event name); [apply fire_same|done]. }
  destruct H2 as (H2' & _ & _ & _ & _ & H2), H3 as [H3 H3'], H4 as (H4' & _ & _ & _ & _ & H4).
  assert (Ht : ∀ o, ran_calls (apply_result_transformers ctx name input o s4).1 = ran_calls s4 ∧
    permission (apply_result_transformers ctx name input o s4).1 = permission s4).
  { intros o'. unfold apply_result_transformers. case_bool_decide; [done|].
    by destruct (match o' with Ok a => _ | Err e => _ end) as [[? ?] ?]. }
  destruct (Ht o3) as [-> ->]. by rewrite H4, H4', H3, H3', H2, H2'.
Qed.

(** The tool runs once, and comes back or not. *)
Lemma perform_ran ctx name input (s : state) :
  let r := perform B hook_timeout completion ctx name input s in
  ran_calls r.1 = ran_calls s ++ [(name, input)] ∧ permission r.1 = permission s ∧
  (r.2 = None ↔ (run_tool ctx name input (world s)).2 = None).
Proof.
  cbv zeta. unfold perform.
  assert (ran_calls (call_tool ctx name input s).1 = ran_calls s ++ [(name, input)] ∧
          permission (call_tool ctx name input s).1 = permission s ∧
          ((call_tool ctx name input s).2 = None ↔ (run_tool ctx name input (world s)).2 = None)) as (H1 & H2 & H3).
  { unfold call_tool. destruct (run_tool _ _ _ _) as [w [[r|e]|]]; [|done..].
    by destruct (render_tool_result_content _) as [t imgs]. }
  destruct (call_tool ctx name input s) as [s1 [o1|]]; cbn [fst snd] in *; [|done].
  destruct (conclude_ran ctx name input o1 s1) as [H4 H5].
  destruct (conclude _ _ _ _ _ _ _ s1) as [s2 o2]. cbn [fst snd] in *. rewrite H4, H5, H1, H2. split_and!; [done..|].
  by rewrite <-H3.
Qed.

(** What the hooks before a call make of its input. *)
Definition hooked_input (ctx : ToolExecCtx W) (name : str) (input : value) (s : state)
    : result value str := (pre_tool_use B hook_timeout completion ctx name input s).2.

(** C4. One call: it runs the tool once, with the input the hooks left and after
    the permission system or the user let exactly that input run - or it does
    not touch the tool and ends in an error, or waits for an answer. *)
Theorem tool_runs_iff_authorized ctx name input (s s' : state) o :
  execute_tool_inner B hook_timeout completion ctx name input s = (s', o) →
  grown (permission s) (permission s') ∧
  ((∃ input' tool, ran_calls s' = ran_calls s ++ [(name, input')] ∧
      get (registry ctx) name = Some tool ∧ hooked_input ctx name input s = Ok input' ∧
      allowed_by ctx (permission s) name input') ∨
   (ran_calls s' = ran_calls s ∧ world s' = world s ∧ (o = None ∨ ∃ e, o = Some (Err e)) ∧
    (get (registry ctx) name = None ∨ (∃ e, hooked_input ctx name input s = Err e) ∨
     ∃ input', hooked_input ctx name input s = Ok input' ∧
               ¬ allowed_by ctx (permission s) name input'))).
Proof.
  unfold execute_tool_inner, hooked_input.
  destruct (get (registry ctx) name) as [tool|] eqn:Et.
  2:{ intros [= <- <-]. split; [apply rtc_refl|]. right. eauto 10. }
  pose proof (pre_tool_use_same ctx name input s) as (Hp & _ & _ & _ & Hw & Hr).
  destruct (pre_tool_use _ _ _ _ _ _ s) as [s1 [input'|e]]; cbn [fst snd] in *.
  2:{ intros [= <- <-]. rewrite Hp. split; [apply rtc_refl|]. right. eauto 10. }
  destruct (authorize _ _ _ _ _ _ _ s1) as [s2 v] eqn:Ea.
  apply authorize_cases in Ea as [(Hr2 & Hw2 & Hi2 & Hg) Hiff]. rewrite Hp in Hg, Hiff.
  assert (v ≠ Lets → ran_calls s2 = ran_calls s ∧ world s2 = world s ∧
    ∃ input'', Ok (E := str) input' = Ok input'' ∧ ¬ allowed_by ctx (permission s) name input'') as Hno.
  { intros Hv. rewrite Hr2, Hw2, Hr, Hw. split_and!; [done..|]. exists input'. by rewrite <-Hiff. }
  destruct v as [|reason|].
  - intros E. destruct (perform_ran ctx name input' s2) as (Hran & Hperm & _). rewrite E in Hran, Hperm.
    cbn [fst] in *. rewrite Hperm, Hran, Hr2, Hr. split; [done|]. left. exists input', tool. split_and!; try done.
    by apply Hiff.
  - intros [= <- <-]. destruct (Hno ltac:(done)) as (? & ? & ?). split; [done|]. right. eauto 10.
  - intros [= <- <-]. destruct (Hno ltac:(done)) as (? & ? & ?). split; [done|]. right. eauto 10.
Qed.

(** *** Through the rings *)

Lemma next_run_preserves {T S} (R : S → S → Prop) `{!PreOrder R} chain
    (terminal : T → S → S * option ToolOutcome) call exec s :
  (∀ exec s, R s (terminal exec s).1) → R s (next_run chain terminal call exec s).1.
Proof.
  intros Ht. revert call exec s. induction chain as [|m chain IH]; intros call exec s; cbn [next_run].
  - specialize (Ht exec s). by destruct (terminal exec s) as [s1 o1].
  - generalize (m call exec). intros a. revert s. induction a as [o1 e1|c e1 k IHa]; intros s;
      cbn [run_around]; [done|].
    specialize (IH c e1 s). destruct (next_run chain terminal c e1 s) as [s1 [[o1 e2]|]]; [|done].
    transitivity s1; [done|apply IHa].
Qed.

(** Only authorized runs of one tool between two states. *)
Definition only_authorized {T} (ctx_with : T → ToolExecCtx W) (name : str) (s s' : state) : Prop :=
  grown (permission s) (permission s') ∧
  ∃ calls, ran_calls s' = ran_calls s ++ calls ∧
    ∀ n i, (n, i) ∈ calls → n = name ∧ ∃ exec p, grown (permission s) p ∧
      allowed_by (ctx_with exec) p name i.

#[local] Instance only_authorized_preorder {T} (ctx_with : T → ToolExecCtx W) name :
  PreOrder (only_authorized ctx_with name).
Proof.
  split.
  - intros s. split; [apply rtc_refl|]. exists []. rewrite app_nil_r. split; [done|].
    by intros ? ? ?%not_elem_of_nil.
  - intros s1 s2 s3 [Hg (c1 & Hr1 & H1)] [Hg' (c2 & Hr2 & H2)].
    split; [unfold grown in *; by etrans|]. exists (c1 ++ c2). rewrite Hr2, Hr1, app_assoc.
    split; [done|]. intros n i [Hi|Hi]%elem_of_app; [auto|].
    destruct (H2 n i Hi) as [-> (exec & p & Hp & Ha)]. split; [done|]. exists exec, p.
    split; [unfold grown in *; by etrans|done].
Qed.

(** One call's part of that. *)
Lemma run_authorized ctx name input (s s' : state) o :
  execute_tool_inner B hook_timeout completion ctx name input s = (s', o) →
  grown (permission s) (permission s') ∧
  ((∃ input', ran_calls s' = ran_calls s ++ [(name, input')] ∧ allowed_by ctx (permission s) name input') ∨
   ran_calls s' = ran_calls s).
Proof.
  unfold execute_tool_inner. destruct (get _ name) as [tool|]; [|by intros [= <- _]; split; [apply rtc_refl|right]].
  pose proof (pre_tool_use_same ctx name input s) as (Hp & _ & _ & _ & _ & Hr).
  destruct (pre_tool_use _ _ _ _ _ _ s) as [s1 [input'|e]]; cbn [fst] in *.
  2:{ intros [= <- _]. split; [rewrite Hp; apply rtc_refl|by right]. }
  destruct (authorize _ _ _ _ _ _ _ s1) as [s2 v] eqn:Ea.
  apply authorize_cases in Ea as [(Hr2 & _ & _ & Hg) Hiff]. rewrite Hp in Hg, Hiff.
  destruct v as [|reason|]; [|intros [= <- _]; split; [done|right; congruence]..].
  intros E. destruct (perform_ran ctx name input' s2) as (Hran & Hperm & _). rewrite E in Hran, Hperm.
  cbn [fst] in *. split; [by rewrite Hperm|]. left. exists input'. rewrite Hran, Hr2, Hr. split; [done|]. by apply Hiff.
Qed.

(** C3. Whatever the rings around a call do - run it again, with another signal,
    or not at all - every time the tool runs, also where it never comes back,
    it is the tool that was asked for, and the permission system as it then
    stood, or the user it asked, let that very input run. *)
Theorem every_run_was_authorized {T} (ctx_with : T → ToolExecCtx W) chain cancel name input (s : state) :
  only_authorized ctx_with name s
    (execute_tool_with_telemetry B hook_timeout completion ctx_with chain cancel name input s).1.
Proof.
  assert (Hin : ∀ exec s, only_authorized ctx_with name s
    (execute_tool_inner B hook_timeout completion (ctx_with exec) name input s).1).
  { clear. intros exec s. destruct (execute_tool_inner _ _ _ _ _ _ _) as [s' o] eqn:Hx.
    apply run_authorized in Hx as [Hg [(i & Hr & Ha)|Hr]]; (split; [done|]); cbn [fst]; rewrite Hr.
    - exists [(name, i)]. split; [done|]. intros n x [= -> ->]%list_elem_of_singleton. split; [done|].
      exists exec, (permission s). split; [apply rtc_refl|done].
    - exists []. rewrite app_nil_r. split; [done|]. by intros ? ? ?%not_elem_of_nil. }
  unfold execute_tool_with_telemetry. case_bool_decide; [apply Hin|].
  unfold dispatch_through. pose proof (next_run_preserves (only_authorized ctx_with name) chain _
    (Build_ToolCall name input) cancel s Hin) as Hn.
  by destruct (next_run _ _ _ _ _) as [s1 o1].
Qed.

(** *** Silence *)

Definition silent (a : Asked) : Prop := reply a = None ∧ closing a = None.

Lemma wait_end_None t pick a : wait_end t pick a = None ↔ t = 0%Z ∧ silent a.
Proof.
  rewrite eq_None_not_Some, wait_end_is_Some. unfold branches, silent.
  destruct (reply a) as [[]|], (closing a); case_bool_decide; cbn; naive_solver.
Qed.

(** A call that does not come back: the permission system does not, the user
    is asked without a deadline and neither answers nor leaves, or the tool
    itself does not. *)
Definition stuck (ctx : ToolExecCtx W) (name : str) (input : value) (s : state) : Prop :=
  ∃ input', is_Some (get (registry ctx) name) ∧ hooked_input ctx name input s = Ok input' ∧
    (check (permission s) name input' (exec_cwd ctx) (exec_session_id ctx) = None ∨
     (∃ message paths, check (permission s) name input' (exec_cwd ctx) (exec_session_id ctx) =
        Some (Prompt message paths) ∧ prompt_timeout_secs ctx = 0%Z ∧ silent (ask ctx name message paths)) ∨
     (allowed_by ctx (permission s) name input' ∧ (run_tool ctx name input' (world s)).2 = None)).

Lemma authorize_waits ctx tool name input (s : state) :
  (authorize B hook_timeout completion ctx tool name input s).2 = Waits ↔
  check (permission s) name input (exec_cwd ctx) (exec_session_id ctx) = None ∨
  ∃ message paths, check (permission s) name input (exec_cwd ctx) (exec_session_id ctx) =
    Some (Prompt message paths) ∧ prompt_timeout_secs ctx = 0%Z ∧ silent (ask ctx name message paths).
Proof.
  unfold authorize. destruct (check _ _ _ _ _) as [[|reason|message paths]|]; [naive_solver..| |naive_solver].
  match goal with |- context [answered _ _ _ _ _ _ _ _ ?s2] => set (s2' := s2) end.
  destruct (wait_end _ _ _) as [e|] eqn:Hw.
  - destruct (answered _ _ _ _ _ _ _ _ s2') as [s3 refusal]. cbn [snd]. split; [by destruct refusal|].
    intros [?|(m & ps & [= <- <-] & Hs)]; [done|]. apply wait_end_None with (pick := pick_branch ctx) in Hs. congruence.
  - apply wait_end_None in Hw. cbn [snd]. split; [|done]. intros _. right. eauto.
Qed.

Lemma waits_iff_stuck ctx name input (s : state) :
  (execute_tool_inner B hook_timeout completion ctx name input s).2 = None ↔ stuck ctx name input s.
Proof.
  unfold execute_tool_inner, stuck, hooked_input. destruct (get (registry ctx) name) as [tool|] eqn:Et.
  2:{ split; [done|]. by intros (? & [? ?] & _). }
  pose proof (pre_tool_use_same ctx name input s) as (Hp & _ & _ & _ & Hw & _).
  destruct (pre_tool_use _ _ _ _ _ _ s) as [s1 [input'|e]]; cbn [fst snd] in *; [|naive_solver].
  pose proof (authorize_waits ctx tool name input' s1) as Hwait. rewrite Hp in Hwait.
  destruct (authorize _ _ _ _ _ _ _ s1) as [s2 v] eqn:Ea. cbn [snd] in Hwait.
  apply authorize_cases in Ea as [(_ & Hw2 & _ & _) Hiff]. rewrite Hp in Hiff.
  destruct (perform_ran ctx name input' s2) as (_ & _ & Hback). rewrite Hw2, Hw in Hback.
  transitivity (v = Waits ∨ v = Lets ∧ (run_tool ctx name input' (world s)).2 = None).
  - destruct v; cbn [snd]; [rewrite Hback|..]; naive_solver.
  - rewrite Hwait, Hiff. split.
    + intros [[H1|H1]|[H1 H2]]; (exists input'; split_and!; [by eexists|done|tauto]).
    + intros (i & _ & [= <-] & H1). tauto.
Qed.

(** C5. A question nobody answers does not let the call run: with a deadline
    configured it is refused, with none it waits for ever. And that, a
    permission handler that never decides and a tool that never returns are
    all that can keep a call from coming back, as long as the hooks around it
    return. *)
Theorem silence_is_refused ctx tool name input input' message paths (s : state) :
  get (registry ctx) name = Some tool → hooked_input ctx name input s = Ok input' →
  check (permission s) name input' (exec_cwd ctx) (exec_session_id ctx) = Some (Prompt message paths) →
  silent (ask ctx name message paths) →
  (let '(s', o) := execute_tool_inner B hook_timeout completion ctx name input s in
   ran_calls s' = ran_calls s ∧ world s' = world s ∧
   o = if bool_decide (prompt_timeout_secs ctx = 0)%Z then None
       else Some (Err (lit "Denied by permission: no answer to the permission prompt within " ++
                       lit (pretty (prompt_timeout_secs ctx)) ++ lit "s"))) ∧
  ∀ n i (s0 : state),
    (execute_tool_inner B hook_timeout completion ctx n i s0).2 = None ↔ stuck ctx n i s0.
Proof.
  intros Hget Hin Hc [Hr Hcl]. split; [|apply waits_iff_stuck].
  unfold execute_tool_inner. rewrite Hget.
  pose proof (pre_tool_use_same ctx name input s) as (Hp & _ & _ & _ & Hw & Hran).
  unfold hooked_input in Hin. destruct (pre_tool_use _ _ _ _ _ _ s) as [s1 x]; cbn [fst snd] in *.
  subst x. unfold authorize. rewrite Hp, Hc, wait_end_silent by done.
  case_bool_decide; cbn [answered from_option]; (split_and!; [| |done]);
    repeat (etrans; [apply fire_same|]); done.
Qed.

End Authorized.

(** ** Redaction *)

(** Nothing of the one can be part of the other, nor overlap it. *)
Record apart (q to : str) : Prop := {
  not_inside : contains q to = false;
  not_around : contains to q = false;
  not_before : ∀ x k y, q = x ++ k → to = k ++ y → k = [];
  not_after : ∀ x k y, q = k ++ x → to = y ++ k → k = [];
}.

Lemma contains_mid p l r : contains p (l ++ p ++ r) = true.
Proof. apply contains_spec. eauto. Qed.

Lemma contains_not p s : contains p s = false ↔ ∀ l r, s ≠ l ++ p ++ r.
Proof.
  rewrite <-not_true_iff_false, contains_spec. split.
  - intros Hn l r Hs. apply Hn. eauto.
  - intros Hn (l & r & Hs). by apply (Hn l r).
Qed.

Lemma apart_overlap q to l r a b :
  apart q to → l ++ q ++ r = a ++ to ++ b →
  (∃ r', a = l ++ q ++ r') ∨ (∃ l', b = l' ++ q ++ r).
Proof.
  intros [Hin Har Hbef Haft] Hs. rewrite contains_not in Hin, Har.
  apply app_eq_inv in Hs as [(k & -> & Hs)|(k & -> & Hs)].
  - apply app_eq_inv in Hs as [(k' & -> & Hs)|(k' & -> & ->)]; [|by right; exists k'].
    destruct (decide (k' = [])) as [->|Hk]; [by right; exists []|].
    symmetry in Hs. apply app_eq_inv in Hs as [(m & -> & _)|(m & -> & _)].
    + by destruct (Hin k m).
    + destruct Hk. by eapply Haft.
  - apply app_eq_inv in Hs as [(k' & -> & Hs)|(k' & -> & ->)]; [|by left; exists k'].
    destruct (decide (k' = [])) as [->|Hk]; [left; exists []; by rewrite !app_nil_r|].
    apply app_eq_inv in Hs as [(m & -> & _)|(m & -> & _)].
    + destruct Hk. by eapply Hbef.
    + by destruct (Har k m).
Qed.

(** A text put together with what is apart from [q] in between holds [q] only
    if a piece does. *)
Lemma contains_join q to ps : apart q to → contains q (join to ps) = true → ps ≠ [] →
  ∃ p, p ∈ ps ∧ contains q p = true.
Proof.
  intros Ha. induction ps as [|p ps IH]; [done|]. intros Hc _.
  destruct ps as [|p' ps]; [exists p; split; [left|done]|].
  rewrite join_cons2 in Hc. apply contains_spec in Hc as (l & r & Hs). symmetry in Hs.
  destruct (apart_overlap q to l r _ _ Ha Hs) as [[r' ->]|[l' Hj]].
  - exists (l ++ q ++ r'). split; [left|apply contains_mid].
  - destruct IH as (x & Hx & Hq); [rewrite Hj; apply contains_mid|done|].
    exists x. split; [by right|done].
Qed.

Lemma find_sub_first p s l l1 r : find_sub p s = Some l → s = l1 ++ p ++ r → length l ≤ length l1.
Proof.
  revert s l. induction l1 as [|c l1 IH]; intros s l Hf ->.
  - cbn [app] in Hf. destruct (p ++ r) as [|c s'] eqn:E.
    + cbn in Hf. by case_match; simplify_eq.
    + rewrite find_sub_cons in Hf. rewrite <-E, starts_with_app in Hf. by simplify_eq.
  - cbn [app] in Hf. rewrite find_sub_cons in Hf. destruct (starts_with p _); [simplify_eq; cbn; lia|].
    apply fmap_Some in Hf as (l' & Hf & ->). cbn [length]. apply le_n_S. eauto.
Qed.

Lemma pieces_clean p s ps : p ≠ [] → split_by p s ps → ∀ x, x ∈ ps → contains p x = false.
Proof.
  intros Hp. induction 1 as [s Hn|l rest ps Hf Hps IH]; intros x Hx.
  - apply list_elem_of_singleton in Hx as ->. unfold contains. rewrite Hn. done.
  - apply elem_of_cons in Hx as [->|Hx]; [|auto]. apply contains_not. intros l1 r1 ->.
    assert (length (l1 ++ p ++ r1) ≤ length l1) as Hlen.
    { eapply find_sub_first; [exact Hf|]. by rewrite <-!app_assoc. }
    rewrite !length_app in Hlen. destruct p; [done|cbn in Hlen; lia].
Qed.

Lemma pieces_inside q p s ps : split_by p s ps → ∀ x, x ∈ ps → contains q x = true → contains q s = true.
Proof.
  induction 1 as [s Hn|l rest ps Hf Hps IH]; intros x Hx Hq.
  - by apply list_elem_of_singleton in Hx as ->.
  - apply elem_of_cons in Hx as [->|Hx].
    + apply contains_spec in Hq as (a & b & ->). rewrite <-!app_assoc. apply contains_mid.
    + specialize (IH x Hx Hq). apply contains_spec in IH as (a & b & ->).
      rewrite !app_assoc, <-(app_assoc _ q b). apply contains_mid.
Qed.

Lemma redact_one_keeps_out q p to text : p ≠ [] → apart q to →
  contains q text = false → contains q (redact_one to text p) = false.
Proof.
  intros Hp Ha Hq. unfold redact_one. destruct (contains p text); [|done].
  destruct (split_by_exists p text Hp) as [ps Hps]. rewrite (replace_pieces p to text ps Hp Hps).
  apply not_true_is_false. intros (x & Hx & Hc)%contains_join; [|done|by eapply split_by_not_nil].
  by rewrite (pieces_inside q p text ps Hps x Hx Hc) in Hq.
Qed.

Lemma redact_one_clears p to text : p ≠ [] → apart p to → contains p (redact_one to text p) = false.
Proof.
  intros Hp Ha. unfold redact_one. destruct (contains p text) eqn:E; [|done].
  destruct (split_by_exists p text Hp) as [ps Hps]. rewrite (replace_pieces p to text ps Hp Hps).
  apply not_true_is_false. intros (x & Hx & Hc)%contains_join; [|done|by eapply split_by_not_nil].
  by rewrite (pieces_clean p text ps Hp Hps x Hx) in Hc.
Qed.

Lemma redacted_all secrets to text q : Forall (λ s, s ≠ []) secrets → q ∈ secrets → apart q to →
  contains q (foldl (redact_one to) text secrets) = false.
Proof.
  intros Hne Hq Ha.
  assert (Hkeep : ∀ ss text, Forall (λ s, s ≠ []) ss → contains q text = false →
    contains q (foldl (redact_one to) text ss) = false).
  { induction ss as [|s ss IH]; intros t Hs Ht; [done|]. apply Forall_cons in Hs as [Hs Hss].
    cbn [foldl]. apply IH; [done|]. by apply redact_one_keeps_out. }
  revert text. induction secrets as [|s ss IH]; intros text; [by apply not_elem_of_nil in Hq|].
  apply Forall_cons in Hne as [Hs Hss]. cbn [foldl]. apply elem_of_cons in Hq as [->|Hq]; [|auto].
  apply Hkeep; [done|]. by apply redact_one_clears.
Qed.

(** A secret without angle brackets that is no part of the marker itself. *)
Lemma plain_secret_apart q : ch "<" ∉ q → ch ">" ∉ q → contains q REDACTED = false → apart q REDACTED.
Proof.
  intros Hl Hr Hin. split; [done| | |].
  - apply contains_not. intros l r ->. apply Hl. rewrite !elem_of_app. right. left. vm_compute. left.
  - intros x k y -> Ht. destruct k as [|c k]; [done|]. exfalso. apply Hl.
    assert (c = ch "<") as <- by (vm_compute in Ht; by injection Ht).
    apply elem_of_app. right. left.
  - intros x k y -> Ht. destruct k as [|c k _] using rev_ind; [done|]. exfalso. apply Hr.
    assert (last REDACTED = Some c) as Hc by (by rewrite Ht, app_assoc, last_snoc).
    vm_compute in Hc. injection Hc as <-. apply elem_of_app. left. apply elem_of_app. right. left.
Qed.

Definition outcome_text (o : ToolOutcome) : str :=
  match o with Ok a => text a | Err e => e end.

Section Redacted.
Context {P : Type} `{PermissionHandler P} `{Globset} {SJ : SerdeJson}.
Context {W : Type} (B : Backends) (hook_timeout : Z)
  (completion : list (nat * HookOutcome) → list (nat * HookOutcome)).
Notation state := (DispatchState P W).

(** The last transformer has the last word over the text. *)
Lemma last_transformer ctx ts t name input o (s : state) :
  result_transformers ctx = ts ++ [t] →
  ∃ d, outcome_text (apply_result_transformers (W := W) ctx name input o s).2 =
       draft_text (t (Build_ToolCall name input) d).
Proof.
  intros Hts. unfold apply_result_transformers. rewrite Hts, bool_decide_eq_false_2
    by (rewrite length_app; cbn; lia).
  destruct (match o with Ok a => _ | Err e => _ end) as [[tx ie] nm].
  unfold apply_transformers. rewrite foldl_app. cbn [foldl snd]. eexists.
  case_match; reflexivity.
Qed.

(** The messages a tool injects are not among what is transformed. *)
Lemma injected_messages_bypass ctx name input a (s : state) :
  match (apply_result_transformers (W := W) ctx name input (Ok a) s).2 with
  | Ok a' => new_messages a' = new_messages a
  | Err _ => True
  end.
Proof. unfold apply_result_transformers. case_bool_decide; [done|]. cbn. by destruct (_ && _). Qed.

Lemma performed ctx name input (s s' : state) o :
  execute_tool_inner B hook_timeout completion ctx name input s = (s', Some o) →
  ran_calls s' ≠ ran_calls s →
  ∃ input' o1 s1, (s', o) = apply_result_transformers ctx name input' o1 s1.
Proof.
  unfold execute_tool_inner. destruct (get (registry ctx) name) as [tool|]; [|by intros [= <- <-]].
  pose proof (pre_tool_use_same B hook_timeout completion ctx name input s) as (_ & _ & _ & _ & _ & Hr).
  destruct (pre_tool_use _ _ _ _ _ _ s) as [s1 [input'|e]]; cbn [fst] in *; [|by intros [= <- <-]].
  destruct (authorize _ _ _ _ _ _ _ s1) as [s2 v] eqn:Ea.
  apply authorize_cases in Ea as [(Hr2 & _) _]. destruct v as [|reason|]; [|intros [= <- <-]; by rewrite Hr2|done].
  unfold perform. destruct (call_tool _ _ _ s2) as [s3 [o3|]]; [|done]. unfold conclude.
  destruct (post_tool_use _ _ _ _ _ _ _ _) as [s4 o4].
  destruct (apply_result_transformers _ _ _ _ _) as [s5 o5] eqn:E5. intros [= <- <-] _.
  exists input'. eexists _, _. symmetry. exact E5.
Qed.

(** C6. Redaction that comes last holds: whatever the tool, the hooks after it and
    the transformers before it make of the answer of a call that ran, none of
    the secrets is in it - if the secret has no angle brackets and is no part
    of the marker that replaces it. *)
Theorem redaction_holds ctx ts secrets q name input (s s' : state) o :
  result_transformers ctx = ts ++ [RedactLiterals (redact_literals_new secrets) REDACTED] →
  q ∈ secrets → q ≠ [] → ch "<" ∉ q → ch ">" ∉ q → RustStr.contains q REDACTED = false →
  execute_tool_inner B hook_timeout completion ctx name input s = (s', Some o) →
  ran_calls s' ≠ ran_calls s →
  RustStr.contains q (outcome_text o) = false.
Proof.
  intros Hts Hq Hne Hl Hr Hin Hx Hran.
  destruct (performed ctx name input s s' o Hx Hran) as (input' & o1 & s1 & E).
  destruct (last_transformer ctx ts _ name input' o1 s1 Hts) as [d Hd]. rewrite <-E in Hd.
  cbn [snd] in Hd. rewrite Hd. unfold RedactLiterals. cbn [set_text draft_text].
  apply redacted_all; [| |by apply plain_secret_apart].
  - apply Forall_forall. by intros x [Hx' _]%list_elem_of_filter.
  - by apply list_elem_of_filter.
Qed.

End Redacted.

(** The marker can bring a secret back that its text did not hold as such. *)
Lemma marker_recreates_secret :
  let redact := RedactLiterals (redact_literals_new [lit "ted>x"]) REDACTED in
  RustStr.contains (lit "ted>x")
    (draft_text (redact (Build_ToolCall [] VNull) (Build_ToolResultDraft (lit "ted>xx") [] false))) = true.
Proof. vm_compute. reflexivity. Qed.

(** ** Worked examples *)

Definition sample_exec (timeout : Z) (a : Asked) : ToolExecCtx nat :=
  {| tool_use_id := lit "t1"; registry := run_ops (registry_new 1) [OpRegister bash_tool];
     exec_cwd := lit "/proj"; exec_session_id := lit "s1"; exec_turn_id := lit "u1";
     live_mode := ModeDefault; prompt_timeout_secs := timeout; ask := λ _ _ _, a; pick_branch := 0;
     answer_as := λ v, match v with VBool b => Some (if b then AnswerPermit else AnswerDeny (lit "no"))
                       | _ => None end;
     run_tool := λ _ _ n, (S n, Some (Ok (Build_ToolResult (TextContent (lit "key=hunter2")) false None)));
     result_transformers := [TruncateText 100; RedactLiterals (redact_literals_new [lit "hunter2"; []]) REDACTED] |}.

Definition sample_dispatch : DispatchState RuleSetPermission nat :=
  {| hook_runner := runner_new ∅; permission := example_permission [] ModeDefault;
     local_settings := None; images := []; discontinued_flag := false; world := 0; ran_calls := [] |}.

Definition sample_json : SerdeJson := {| from_slice := λ _, None; to_string_pretty := λ _, [] |}.

Definition says_yes : Asked := Build_Asked (Some (5000%Z, ElicitAnswered (VBool true))) None.
Definition says_nothing : Asked := Build_Asked None None.

(** Run the sample call of [make]. *)
Definition sample_call (timeout : Z) (a : Asked) :=
  execute_tool_inner (H := rule_set_handler (GS := no_globset) (HE := plain_host)) (H0 := no_globset)
    (SJ := sample_json) sample_backends 600000 (λ l, l) (sample_exec timeout a) (lit "Bash")
    (command_input "make") sample_dispatch.

Definition sample_end (timeout : Z) (a : Asked) : DispatchState RuleSetPermission nat :=
  (sample_call timeout a).1.

Definition shown_end {S} (r : DispatchState RuleSetPermission S * option ToolOutcome) :=
  (ran_calls r.1, r.2).

Example sample_answers :
  shown_end (sample_call 60 says_yes) =
    ([(lit "Bash", command_input "make")],
     Some (Ok (Build_ToolAnswer (lit "key=<redacted>") None false))) ∧
  shown_end (sample_call 3 says_yes) =
    ([], Some (Err (lit "Denied by permission: no answer to the permission prompt within 3s"))) ∧
  shown_end (sample_call 0 says_nothing) = ([], None).
Proof. split_and!; vm_compute; reflexivity. Qed.

#[local] Instance sample_handler : PermissionHandler RuleSetPermission :=
  rule_set_handler (GS := no_globset) (HE := plain_host).

Lemma tool_runs_iff_authorized_witness :
  grown (permission sample_dispatch) (permission (sample_end 60 says_yes)) ∧
  length (ran_calls (sample_end 60 says_yes)) = 1.
Proof.
  split; [|by vm_compute].
  eapply (tool_runs_iff_authorized (H0 := no_globset) (SJ := sample_json) sample_backends 600000
    (λ l, l) (sample_exec 60 says_yes) (lit "Bash") (command_input "make") sample_dispatch
    (sample_end 60 says_yes) (Some (Ok (Build_ToolAnswer (lit "key=<redacted>") None false)))).
  vm_compute. reflexivity.
Defined.

(** A ring that asks once more, with a longer deadline, after an error. *)
Definition ask_again (call : ToolCall) (timeout : Z) : Around Z :=
  RunNext call timeout (λ o timeout,
    match o with
    | Ok _ => Finish o timeout
    | Err _ => RunNext call 60%Z (λ o _, Finish o timeout)
    end).

Definition retried : DispatchState RuleSetPermission nat * option ToolOutcome :=
  execute_tool_with_telemetry (H0 := no_globset) (SJ := sample_json) sample_backends 600000
    (λ l, l) (λ t, sample_exec t says_yes) [ask_again] 3%Z (lit "Bash") (command_input "make")
    sample_dispatch.

Lemma every_run_was_authorized_witness :
  ran_calls retried.1 = [(lit "Bash", command_input "make")] ∧
  only_authorized (λ t, sample_exec t says_yes) (lit "Bash") sample_dispatch retried.1.
Proof.
  split; [by vm_compute|].
  apply (every_run_was_authorized (H0 := no_globset) (SJ := sample_json) sample_backends 600000
    (λ l, l) (λ t, sample_exec t says_yes) [ask_again] 3%Z (lit "Bash") (command_input "make")
    sample_dispatch).
Defined.

Lemma silence_is_refused_witness :
  (sample_call 0 says_nothing).2 = None ∧ ran_calls (sample_end 60 says_nothing) = [] ∧
  stuck (H0 := no_globset) sample_backends 600000 (λ l, l) (sample_exec 0 says_nothing) (lit "Bash") (command_input "make") sample_dispatch.
Proof.
  assert (Hc : ∃ m paths, check (permission sample_dispatch) (lit "Bash") (command_input "make")
    (lit "/proj") (lit "s1") = Some (Prompt m paths)) by (eexists _, _; vm_compute; reflexivity).
  destruct Hc as (m & paths & Hc).
  pose proof (λ t, silence_is_refused (H0 := no_globset) (SJ := sample_json) sample_backends 600000
      (λ l, l) (sample_exec t says_nothing) bash_tool (lit "Bash") (command_input "make")
      (command_input "make") m paths sample_dispatch) as Hs.
  split_and!.
  - by vm_compute.
  - by vm_compute.
  - apply (Hs 0%Z); [by vm_compute|by vm_compute|done|done|by vm_compute].
Defined.

Lemma redaction_holds_witness :
  RustStr.contains (lit "hunter2")
    (outcome_text (default (Err (lit "hunter2")) (sample_call 60 says_yes).2)) = false.
Proof.
  apply (redaction_holds (H0 := no_globset) (SJ := sample_json) sample_backends 600000 (λ l, l)
    (sample_exec 60 says_yes) [TruncateText 100] [lit "hunter2"; []] (lit "hunter2") (lit "Bash")
    (command_input "make") sample_dispatch (sample_end 60 says_yes)).
  - reflexivity.
  - left.
  - done.
  - by_compute.
  - by_compute.
  - by_compute.
  - vm_compute. reflexivity.
  - vm_compute. discriminate.
Defined.
