(* ===== verification/PluginGraph.v ===== *)
(** * The order plugins are installed in ([crates/plugin/src/resolver.rs])

    A graph of plugins is put in an order in which every plugin comes after
    those it depends on: Kahn's algorithm over hash maps, whose iteration
    orders are parameters, any permutation of the keys.  The specification is
    [Installable]: a plugin can be installed when all it depends on can be. *)

From stdpp Require Import base option numbers strings gmap sets list.
From S2P Require Import Prelude RustStr.

Record DependencyConstraint := {
  dep_name : str;
  version_req : option str;
}.

Record DependencyNode := {
  constraint : DependencyConstraint;
  resolved_version : option str;
  deps : list DependencyConstraint;
}.

Record ResolvedPlugin := { plugin_name : str; plugin_version : str }.

Record ResolvedGraph := {
  install_order : list ResolvedPlugin;
  cycles : list (list str);
}.

(** The graph: its nodes by name. *)
Notation DependencyGraph := (gmap str DependencyNode).

Definition constraint_new (name : str) : DependencyConstraint :=
  Build_DependencyConstraint name None.

Definition add_root (name version : str) (ds : list DependencyConstraint) (g : DependencyGraph)
    : DependencyGraph :=
  <[name := Build_DependencyNode (constraint_new name) (Some version) ds]> g.

Definition add_dependency (dep : DependencyConstraint) (version : str)
    (sub_deps : list DependencyConstraint) (g : DependencyGraph) : DependencyGraph :=
  <[dep_name dep := Build_DependencyNode dep (Some version) sub_deps]> g.

(** ** Degrees and edges *)

Record Degrees := {
  in_degree : gmap str nat;
  adjacency : gmap str (list str);
}.

Definition count_edge (name : str) (d : Degrees) (dep : DependencyConstraint) : Degrees :=
  Build_Degrees (<[name := S (default 0 (in_degree d !! name))]> (in_degree d))
    (<[dep_name dep := default [] (adjacency d !! dep_name dep) ++ [name]]> (adjacency d)).

Definition count_node (g : DependencyGraph) (d : Degrees) (name : str) : Degrees :=
  let d := Build_Degrees (<[name := default 0 (in_degree d !! name)]> (in_degree d)) (adjacency d) in
  foldl (count_edge name) d (from_option deps [] (g !! name)).

(** ** The loop *)

Record Progress := {
  queue : list str;
  degree : gmap str nat;
  done_order : list ResolvedPlugin;
  processed : gset str;
}.

(** An edge is used up: a plugin with none left is queued. *)
Definition release (s : list str * gmap str nat) (neighbor : str) : list str * gmap str nat :=
  let '(q, deg) := s in
  match deg !! neighbor with
  | Some n =>
      let n := Nat.pred n in
      (if bool_decide (n = 0) then q ++ [neighbor] else q, <[neighbor := n]> deg)
  | None => (q, deg)
  end.

Definition installed (name : str) (node : DependencyNode) : ResolvedPlugin :=
  Build_ResolvedPlugin name (default (lit "latest") (resolved_version node)).

(** One turn of the loop, for the name taken off the queue. *)
Definition visit (g : DependencyGraph) (adj : gmap str (list str)) (name : str) (p : Progress)
    : Progress :=
  if bool_decide (name ∈ processed p) then p
  else
    let order := done_order p ++ match g !! name with
                                 | Some node => [installed name node]
                                 | None => []
                                 end in
    let '(q, deg) := foldl release (queue p, degree p) (default [] (adj !! name)) in
    Build_Progress q deg order ({[ name ]} ∪ processed p).

(** [None] when the fuel is used up. *)
Fixpoint drain (fuel : nat) (g : DependencyGraph) (adj : gmap str (list str)) (p : Progress)
    : option Progress :=
  match queue p with
  | [] => Some p
  | name :: q =>
      match fuel with
      | 0 => None
      | S fuel =>
          drain fuel g adj (visit g adj name (Build_Progress q (degree p) (done_order p) (processed p)))
      end
  end.

Section Resolve.
(** The orders in which the nodes and the degrees are gone through. *)
Context (node_order degree_order : list str).

Definition degrees (g : DependencyGraph) : Degrees :=
  foldl (count_node g) (Build_Degrees ∅ ∅) node_order.

Definition with_degree (p : nat → bool) (deg : gmap str nat) : list str :=
  filter (λ name, from_option p false (deg !! name) = true) degree_order.

Definition start (d : Degrees) : Progress :=
  Build_Progress (with_degree (λ n, bool_decide (n = 0)) (in_degree d)) (in_degree d) [] ∅.

(** The loop takes one turn per plugin. *)
Definition resolve (g : DependencyGraph) : option ResolvedGraph :=
  let d := degrees g in
  p ← drain (size g) g (adjacency d) (start d);
  Some (Build_ResolvedGraph (done_order p)
          ((λ name, [name]) <$> with_degree (λ n, bool_decide (0 < n)) (degree p))).
End Resolve.

(** ** Counting edges *)

Definition times (x : str) (l : list str) : nat := length (filter (λ y, y = x) l).

Definition node_deps (g : DependencyGraph) (name : str) : list str :=
  dep_name <$> from_option deps [] (g !! name).

(** The names an order installs. *)
Definition names (order : list ResolvedPlugin) : list str := plugin_name <$> order.

Lemma times_cons x y l : times x (y :: l) = (if decide (y = x) then 1 else 0) + times x l.
Proof. unfold times. rewrite filter_cons. by case_decide. Qed.

Lemma times_app x l k : times x (l ++ k) = times x l + times x k.
Proof. unfold times. by rewrite filter_app, length_app. Qed.

Lemma times_elem x l : x ∈ l ↔ 0 < times x l.
Proof.
  induction l as [|y l IH].
  - split; [by intros ?%not_elem_of_nil|cbn; lia].
  - rewrite elem_of_cons, times_cons, IH. case_decide; [subst; split; [lia|auto]|].
    split; [intros [->|?]; [done|lia]|intros ?; right; lia].
Qed.

(** What the loop still has to see of a plugin's dependencies. *)
Definition pending (g : DependencyGraph) (seen : gset str) (name : str) : nat :=
  length (filter (λ d, d ∉ seen) (node_deps g name)).

Lemma pending_visit g seen name n : name ∉ seen →
  pending g ({[ name ]} ∪ seen) n = pending g seen n - times name (node_deps g n) ∧
  times name (node_deps g n) ≤ pending g seen n.
Proof.
  intros Hn. unfold pending. induction (node_deps g n) as [|d ds IH]; [done|].
  rewrite !filter_cons, times_cons.
  destruct (decide (d = name)) as [->|Hd].
  - rewrite decide_False by set_solver. rewrite decide_True by done. cbn [length]. lia.
  - destruct (decide (d ∈ seen)).
    + rewrite !decide_False by set_solver. lia.
    + rewrite !decide_True by set_solver. cbn [length]. lia.
Qed.

Lemma pending_zero g seen name : pending g seen name = 0 ↔ Forall (λ d, d ∈ seen) (node_deps g name).
Proof.
  unfold pending. induction (node_deps g name) as [|d ds IH]; [by split|].
  rewrite filter_cons, Forall_cons. case_decide; [cbn; split; [done|by intros []]|].
  rewrite IH. destruct (decide (d ∈ seen)); tauto.
Qed.

Lemma count_edges name ds d k : in_degree d !! name = Some k →
  let d' := foldl (count_edge name) d ds in
  (∀ m, in_degree d' !! m = if decide (m = name) then Some (k + length ds) else in_degree d !! m) ∧
  ∀ m x, times m (default [] (adjacency d' !! x)) =
         times m (default [] (adjacency d !! x)) +
         if decide (m = name) then times x (dep_name <$> ds) else 0.
Proof.
  revert d k. induction ds as [|e ds IH]; intros d k Hk; cbn zeta.
  { cbn [foldl]. split; [intros m; case_decide; [subst; rewrite Hk; f_equal; cbn; lia|done]|].
    intros m x. cbn. case_decide; lia. }
  cbn [foldl]. destruct (IH (count_edge name d e) (S k)) as [H1 H2].
  { cbn. by rewrite lookup_insert_eq, Hk. }
  split.
  - intros m. rewrite H1. case_decide; [f_equal; cbn; lia|].
    cbn. by rewrite lookup_insert_ne.
  - intros m x. rewrite H2. cbn [count_edge adjacency fmap list_fmap]. rewrite times_cons.
    destruct (decide (dep_name e = x)) as [->|Hx].
    + rewrite lookup_insert_eq. cbn [default]. unfold id. rewrite times_app, times_cons.
      change (times m []) with 0. repeat case_decide; subst; try done; lia.
    + rewrite lookup_insert_ne by done. repeat case_decide; lia.
Qed.

Lemma count_nodes g order d : NoDup order → (∀ n, n ∈ order → in_degree d !! n = None) →
  let d' := foldl (count_node g) d order in
  (∀ m, in_degree d' !! m = if decide (m ∈ order) then Some (length (node_deps g m)) else in_degree d !! m) ∧
  ∀ m x, times m (default [] (adjacency d' !! x)) =
         times m (default [] (adjacency d !! x)) +
         if decide (m ∈ order) then times x (node_deps g m) else 0.
Proof.
  revert d. induction order as [|n order IH]; intros d Hnd Hnone; cbn zeta.
  { split; [done|]. intros m x. rewrite decide_False by apply not_elem_of_nil. cbn. lia. }
  apply NoDup_cons in Hnd as [Hn Hnd]. cbn [foldl].
  destruct (count_edges n (from_option deps [] (g !! n))
    (Build_Degrees (<[n := default 0 (in_degree d !! n)]> (in_degree d)) (adjacency d)) 0) as [E1 E2].
  { cbn. by rewrite lookup_insert_eq, Hnone by left. }
  destruct (IH (count_node g d n) Hnd) as [H1 H2].
  { intros m Hm. unfold count_node. rewrite E1. case_decide; [by subst|].
    cbn. rewrite lookup_insert_ne by done. apply Hnone. by right. }
  assert (∀ m, m ∈ order → m ≠ n) as Hne by (by intros m Hm ->).
  split.
  - intros m. rewrite H1. unfold count_node. rewrite E1. cbn [in_degree].
    unfold node_deps. rewrite length_fmap.
    destruct (decide (m ∈ order)) as [Hm|Hm]; [by rewrite decide_True by (by right)|].
    destruct (decide (m = n)) as [->|].
    + by rewrite decide_True by left.
    + rewrite decide_False by (rewrite elem_of_cons; tauto). by rewrite lookup_insert_ne.
  - intros m x. rewrite H2. unfold count_node. rewrite E2. cbn [adjacency].
    fold (node_deps g n).
    destruct (decide (m = n)) as [->|Hmn].
    + rewrite decide_False by done. rewrite decide_True by left. lia.
    + destruct (decide (m ∈ order)); [rewrite decide_True by (by right)|
        rewrite decide_False by (rewrite elem_of_cons; tauto)]; lia.
Qed.

(** Using up a list of edges queues each plugin whose last edges are in it. *)
Lemma release_all l q deg :
  (∀ n, n ∈ l → ∃ k, deg !! n = Some k ∧ times n l ≤ k) →
  ∃ pushed,
    (foldl release (q, deg) l).1 = q ++ pushed ∧ NoDup pushed ∧
    (∀ n, n ∈ pushed ↔ n ∈ l ∧ deg !! n = Some (times n l)) ∧
    ∀ n, (foldl release (q, deg) l).2 !! n = (λ k, k - times n l) <$> deg !! n.
Proof.
  revert q deg. induction l as [|x l IH]; intros q deg Hl.
  { exists []. rewrite app_nil_r. split_and!; [done|constructor| |].
    - intros n. split; [by intros ?%not_elem_of_nil|by intros [?%not_elem_of_nil _]].
    - intros n. cbn. destruct (deg !! n); [|done]. cbn. f_equal. lia. }
  destruct (Hl x) as (k & Hk & Hle); [by left|].
  rewrite times_cons, decide_True in Hle by done.
  cbn [foldl release]. rewrite Hk.
  destruct (IH (if bool_decide (Nat.pred k = 0) then q ++ [x] else q) (<[x := Nat.pred k]> deg))
    as (pushed & Hq & Hnd & Hin & Hdeg).
  { intros n Hn. destruct (decide (n = x)) as [->|Hne].
    - exists (Nat.pred k). rewrite lookup_insert_eq. split; [done|lia].
    - destruct (Hl n) as (k' & Hk' & Hle'); [by right|]. exists k'.
      rewrite lookup_insert_ne by done. rewrite times_cons in Hle'. split; [done|]. case_decide; lia. }
  assert (∀ n, (foldl release (if bool_decide (Nat.pred k = 0) then q ++ [x] else q,
                 <[x:=Nat.pred k]> deg) l).2 !! n = (λ k, k - times n (x :: l)) <$> deg !! n) as Hdeg'.
  { intros n. rewrite Hdeg, times_cons. destruct (decide (n = x)) as [->|Hne].
    - rewrite lookup_insert_eq, Hk, decide_True by done. cbn. f_equal. lia.
    - rewrite lookup_insert_ne, decide_False by done. destruct (deg !! n); done. }
  assert (∀ n, n ≠ x → (n ∈ pushed ↔ n ∈ x :: l ∧ deg !! n = Some (times n (x :: l)))) as Hother.
  { intros n Hne. rewrite Hin, lookup_insert_ne, times_cons, decide_False by done.
    rewrite elem_of_cons. tauto. }
  case_bool_decide as Hz.
  - (* [x] itself, whose last edge this was *)
    assert (x ∉ l) as Hx by (rewrite times_elem; lia).
    exists (x :: pushed). split_and!; [by rewrite Hq, <-app_assoc| |  |done].
    + constructor; [|done]. by intros [? _]%Hin.
    + intros n. destruct (decide (n = x)) as [->|Hne].
      * split; [intros _; split; [by left|]|by left].
        rewrite Hk, times_cons, decide_True by done. f_equal.
        assert (times x l = 0) by (rewrite times_elem in Hx; lia). lia.
      * rewrite elem_of_cons, Hother by done. tauto.
  - exists pushed. split_and!; [done..| |done].
    intros n. destruct (decide (n = x)) as [->|Hne]; [|by apply Hother].
    rewrite Hin, lookup_insert_eq, Hk, times_cons, decide_True by done. split.
    + intros [? [= E]]. split; [by left|]. f_equal. lia.
    + intros [_ [= E]]. assert (0 < times x l) by lia. split; [by apply times_elem|]. f_equal. lia.
Qed.

(** ** What can be installed *)

Inductive Installable (g : DependencyGraph) : str → Prop :=
  installable name node :
    g !! name = Some node →
    (∀ d, d ∈ node_deps g name → Installable g d) →
    Installable g name.

(** What holds between two turns of the loop. *)
Record loop_ok (g : DependencyGraph) (p : Progress) : Prop := {
  ok_queue : NoDup (queue p);
  ok_queued : ∀ n, n ∈ queue p → n ∉ processed p ∧ degree p !! n = Some 0;
  ok_degree : ∀ n, degree p !! n = (λ _, pending g (processed p) n) <$> g !! n;
  ok_ready : ∀ n, degree p !! n = Some 0 → n ∈ queue p ∨ n ∈ processed p;
  ok_order : NoDup (names (done_order p)) ∧ ∀ n, n ∈ processed p ↔ n ∈ names (done_order p);
  ok_after : ∀ l1 x l2, done_order p = l1 ++ x :: l2 →
    ∃ node, g !! plugin_name x = Some node ∧ x = installed (plugin_name x) node ∧
      ∀ d, d ∈ node_deps g (plugin_name x) → d ∈ names l1;
  ok_installable : ∀ n, n ∈ processed p → Installable g n
}.

(** The edges the loop goes through are those of the graph. *)
Definition edges_of (g : DependencyGraph) (adj : gmap str (list str)) : Prop :=
  ∀ m x, times m (default [] (adj !! x)) = times x (node_deps g m).

Lemma snoc_split {A} (l : list A) y l1 x l2 : l ++ [y] = l1 ++ x :: l2 →
  (l2 = [] ∧ x = y ∧ l1 = l) ∨ ∃ l2', l2 = l2' ++ [y] ∧ l = l1 ++ x :: l2'.
Proof.
  destruct l2 as [|z l2 _] using rev_ind; intros E.
  - apply app_inj_tail in E as [-> ->]. auto.
  - right. exists l2. rewrite app_comm_cons, app_assoc in E. by apply app_inj_tail in E as [-> ->].
Qed.

Lemma node_deps_none g n : g !! n = None → node_deps g n = [].
Proof. unfold node_deps. by intros ->. Qed.

Lemma visit_ok g adj name q p : edges_of g adj → loop_ok g p → queue p = name :: q →
  loop_ok g (visit g adj name (Build_Progress q (degree p) (done_order p) (processed p))) ∧
  processed (visit g adj name (Build_Progress q (degree p) (done_order p) (processed p))) =
    {[ name ]} ∪ processed p ∧ name ∉ processed p ∧ is_Some (g !! name).
Proof.
  intros Hadj [Hnd Hq Hdeg Hready [Hon Ho] Hafter Hinst] Eq. rewrite Eq in Hnd, Hq, Hready.
  apply NoDup_cons in Hnd as [Hnq Hnd].
  destruct (Hq name) as [Hnew Hzero]; [by left|].
  destruct (g !! name) as [node|] eqn:Hg; [|by rewrite Hdeg, Hg in Hzero].
  assert (Forall (λ d, d ∈ processed p) (node_deps g name)) as Hdeps.
  { apply pending_zero. rewrite Hdeg, Hg in Hzero. by injection Hzero. }
  unfold visit. cbn [processed done_order queue degree]. rewrite bool_decide_eq_false_2, Hg by done.
  destruct (release_all (default [] (adj !! name)) q (degree p)) as (pushed & E1 & Hpn & Hpin & E2).
  { intros n Hn. rewrite times_elem, Hadj in Hn. rewrite Hadj, Hdeg.
    destruct (g !! n) eqn:Hgn; [|rewrite node_deps_none in Hn by done; by apply Nat.lt_irrefl in Hn].
    eexists. split; [done|]. apply (pending_visit g _ _ n Hnew). }
  destruct (foldl release (q, degree p) (default [] (adj !! name))) as [q' deg'].
  cbn [fst snd] in E1, E2. subst q'.
  assert (∀ n, deg' !! n = (λ _, pending g ({[name]} ∪ processed p) n) <$> g !! n) as Hdeg'.
  { intros n. rewrite E2, Hadj, Hdeg. destruct (g !! n); [|done]. cbn. f_equal.
    symmetry. by apply pending_visit. }
  (* what was pushed is what has just become ready *)
  assert (∀ n, n ∈ pushed ↔ is_Some (g !! n) ∧ pending g (processed p) n ≠ 0 ∧
                 pending g ({[name]} ∪ processed p) n = 0) as Hpush.
  { intros n. rewrite Hpin, times_elem, !Hadj, Hdeg.
    destruct (pending_visit g _ _ n Hnew) as [-> Hle].
    destruct (g !! n) eqn:Hgn; cbn.
    - split; [intros [? [= E]]; split; [by eexists|lia]|intros (_ & ? & ?); split; [lia|f_equal; lia]].
    - rewrite node_deps_none by done. split; [intros [_ [=]]|by intros [[? [=]] _]]. }
  split; [|by eauto]. split; cbn [queue processed degree done_order].
  - apply NoDup_app. split_and!; [done| |done]. intros n Hn [_ [Hp _]]%Hpush.
    destruct (Hq n) as [_ Hd]; [by right|]. rewrite Hdeg in Hd. destruct (g !! n); by simplify_eq/=.
  - intros n [Hn|Hn]%elem_of_app.
    + destruct (Hq n) as [Hd0 Hd]; [by right|]. split; [set_solver|].
      rewrite E2, Hd. done.
    + apply Hpush in Hn as ([node' Hgn] & Hp & Hp'). rewrite Hdeg', Hgn. cbn. rewrite Hp'.
      split; [|done]. intros [->%elem_of_singleton|Hin]%elem_of_union.
      * rewrite Hdeg, Hg in Hzero. by injection Hzero.
      * apply Ho, list_elem_of_fmap in Hin as (x & -> & (l1 & l2 & E)%list_elem_of_split).
        destruct (Hafter _ _ _ E) as (_ & _ & _ & Hd). apply Hp, pending_zero, Forall_forall.
        intros d Hd'%Hd. apply Ho. rewrite E. unfold names. rewrite fmap_app. set_solver.
  - done.
  - intros n Hn. rewrite elem_of_app, Hpush. rewrite Hdeg' in Hn.
    destruct (g !! n) eqn:Hgn; [|done]. injection Hn as Hn.
    destruct (decide (pending g (processed p) n = 0)) as [Hz|Hz].
    + destruct (Hready n) as [[->|?]%elem_of_cons|?]; [by rewrite Hdeg, Hgn; cbn; rewrite Hz|..];
        set_solver.
    + left. right. by eauto.
  - unfold names. rewrite fmap_app. cbn. split.
    + apply NoDup_app. split_and!; [done| |apply NoDup_singleton].
      intros n Hn ->%list_elem_of_singleton. by apply Hnew, Ho.
    + intros n. rewrite elem_of_union, elem_of_singleton, Ho, elem_of_app, list_elem_of_singleton. tauto.
  - intros l1 x l2 [(-> & -> & ->)|(l2' & -> & E)]%snoc_split; [|by eapply Hafter].
    exists node. split_and!; [done|done|]. intros d Hd. apply Ho. rewrite Forall_forall in Hdeps. by apply Hdeps.
  - intros n [->%elem_of_singleton|?]%elem_of_union; [|by apply Hinst].
    apply (installable _ _ node); [done|]. intros d Hd. apply Hinst. rewrite Forall_forall in Hdeps. by apply Hdeps.
Qed.

Lemma drain_ok g adj fuel p : edges_of g adj → loop_ok g p →
  size (dom g) ≤ fuel + size (processed p) →
  ∃ p', drain fuel g adj p = Some p' ∧ loop_ok g p' ∧ queue p' = [].
Proof.
  intros Hadj. revert p. induction fuel as [|fuel IH]; intros p Hp Hf.
  - destruct (queue p) as [|name q] eqn:Eq; [cbn; rewrite Eq; eauto|].
    destruct (visit_ok g adj name q p Hadj Hp Eq) as (Hp' & _ & Hnew & [node Hg]). exfalso.
    assert (size ({[name]} ∪ processed p) ≤ size (dom g)); [|rewrite size_union, size_singleton in * by set_solver; lia].
    apply subseteq_size. intros n Hn. apply elem_of_dom.
    apply elem_of_union in Hn as [->%elem_of_singleton|Hn]; [by eexists|].
    destruct (ok_installable _ _ Hp n Hn). by eexists.
  - cbn [drain]. destruct (queue p) as [|name q] eqn:Eq; [eauto|].
    destruct (visit_ok g adj name q p Hadj Hp Eq) as (Hp' & Hproc & Hnew & _).
    apply IH; [done|]. rewrite Hproc, size_union, size_singleton by set_solver. lia.
Qed.

(** An iteration order of a hash map with the keys of [g]. *)
Definition key_order (g : DependencyGraph) (order : list str) : Prop :=
  NoDup order ∧ ∀ n, n ∈ order ↔ n ∈ dom g.

Lemma degrees_ok node_order g : key_order g node_order →
  (∀ n, in_degree (degrees node_order g) !! n = (λ _, length (node_deps g n)) <$> g !! n) ∧
  edges_of g (adjacency (degrees node_order g)).
Proof.
  intros [Hnd Hin]. destruct (count_nodes g node_order (Build_Degrees ∅ ∅) Hnd) as [H1 H2].
  { intros n _. apply lookup_empty. }
  fold (degrees node_order g) in H1, H2. split.
  - intros n. rewrite H1. cbn. rewrite lookup_empty. specialize (Hin n). rewrite elem_of_dom in Hin.
    destruct (g !! n); case_decide as Hd; try done; exfalso; rewrite Hin in Hd; [|by destruct Hd].
    by apply Hd.
  - intros m x. rewrite H2. cbn. rewrite lookup_empty. cbn. specialize (Hin m). rewrite elem_of_dom in Hin.
    case_decide as Hd; [done|]. rewrite node_deps_none; [done|]. apply eq_None_not_Some. by rewrite <-Hin.
Qed.

Lemma resolve_ok node_order degree_order g :
  key_order g node_order → key_order g degree_order →
  ∃ p, resolve node_order degree_order g =
         Some (Build_ResolvedGraph (done_order p)
                 ((λ name, [name]) <$> with_degree degree_order (λ n, bool_decide (0 < n)) (degree p))) ∧
    loop_ok g p ∧ ∀ n, Installable g n → n ∈ processed p.
Proof.
  intros Hno Hdo. destruct (degrees_ok _ _ Hno) as [Hdeg Hadj].
  assert (∀ n, pending g ∅ n = length (node_deps g n)) as Hpend.
  { intros n. unfold pending. f_equal. apply list_filter_all, Forall_forall. intros d _. apply not_elem_of_empty. }
  assert (loop_ok g (start degree_order (degrees node_order g))) as Hstart.
  { split; cbn [queue processed degree done_order start].
    - apply NoDup_filter, Hdo.
    - intros n [Hn _]%list_elem_of_filter. split; [set_solver|].
      destruct (in_degree _ !! n); [|done]. cbn in Hn. apply bool_decide_eq_true in Hn. by subst.
    - intros n. rewrite Hdeg. by rewrite Hpend.
    - intros n Hn. left. apply list_elem_of_filter. rewrite Hn. split; [done|].
      apply Hdo, elem_of_dom. rewrite Hdeg in Hn. by destruct (g !! n).
    - split; [constructor|]. intros n. cbn. by rewrite elem_of_empty, elem_of_nil.
    - intros l1 x l2 E. by destruct l1.
    - set_solver. }
  destruct (drain_ok g _ (size g) _ Hadj Hstart) as (p & E & Hp & Hempty).
  { cbn. rewrite size_empty. rewrite <-size_dom. lia. }
  exists p. unfold resolve. rewrite E. split_and!; [done..|].
  intros n Hn. induction Hn as [n node Hg _ IH].
  destruct (ok_ready _ _ Hp n) as [Hq|]; [|by rewrite Hempty in Hq; apply not_elem_of_nil in Hq|done].
  rewrite (ok_degree _ _ Hp), Hg. cbn. f_equal. apply pending_zero, Forall_forall. auto.
Qed.

(** What is left with edges is what cannot be installed. *)
Lemma stuck_spec degree_order g p n : key_order g degree_order → loop_ok g p →
  (∀ n, Installable g n → n ∈ processed p) →
  n ∈ with_degree degree_order (λ n, bool_decide (0 < n)) (degree p) ↔
  is_Some (g !! n) ∧ ¬ Installable g n.
Proof.
  intros [_ Hdo] Hp Hall. unfold with_degree. rewrite list_elem_of_filter, (ok_degree _ _ Hp).
  rewrite Hdo, elem_of_dom. destruct (g !! n) as [node|] eqn:Hg; cbn; [|naive_solver].
  rewrite bool_decide_eq_true. destruct (ok_order _ _ Hp) as [_ Ho]. split.
  - intros [Hpos _]. split; [by eexists|]. intros Hn%Hall%Ho.
    apply list_elem_of_fmap in Hn as (x & -> & (l1 & l2 & El)%list_elem_of_split).
    destruct (ok_after _ _ Hp _ _ _ El) as (_ & _ & _ & Hd).
    assert (pending g (processed p) (plugin_name x) = 0); [|lia].
    apply pending_zero, Forall_forall. intros d Hd'%Hd. apply Ho. rewrite El. unfold names.
    rewrite fmap_app. set_solver.
  - intros [_ Hn]. split; [|by eexists].
    destruct (decide (pending g (processed p) n = 0)) as [Hz|]; [|lia].
    exfalso. apply Hn, (installable _ _ node Hg). intros d Hd. apply (ok_installable _ _ Hp).
    apply pending_zero in Hz. rewrite Forall_forall in Hz. by apply Hz.
Qed.

(** C39. The plan of an installation: each plugin that can be installed is in it
    once, after all it depends on and under its resolved version, and nothing
    else is; the others are what is reported as cycles.  The loop ends,
    whatever the order of the maps. *)
Theorem install_order_is_a_plan node_order degree_order g :
  key_order g node_order → key_order g degree_order →
  ∃ r, resolve node_order degree_order g = Some r ∧
    NoDup (names (install_order r)) ∧
    (∀ n, n ∈ names (install_order r) ↔ Installable g n) ∧
    (∀ l1 x l2, install_order r = l1 ++ x :: l2 →
       (∃ node, g !! plugin_name x = Some node ∧ x = installed (plugin_name x) node) ∧
       ∀ d, d ∈ node_deps g (plugin_name x) → d ∈ names l1) ∧
    ∀ c, c ∈ cycles r ↔ ∃ n, c = [n] ∧ is_Some (g !! n) ∧ ¬ Installable g n.
Proof.
  intros Hno Hdo. destruct (resolve_ok _ _ _ Hno Hdo) as (p & E & Hp & Hall).
  eexists. split; [exact E|]. cbn [install_order cycles].
  assert (∀ n, n ∈ processed p ↔ Installable g n) as Hiff
    by (intros n; split; [apply (ok_installable _ _ Hp)|apply Hall]).
  destruct (ok_order _ _ Hp) as [Hnd Ho].
  split_and!; [done|by intros n; rewrite <-Ho| |].
  - intros l1 x l2 El. destruct (ok_after _ _ Hp _ _ _ El) as (node & ? & ? & ?). eauto.
  - intros c. rewrite list_elem_of_fmap. apply exist_proper. intros n.
    by rewrite (stuck_spec degree_order g p n Hdo Hp Hall).
Qed.

(** ** Cycles *)

Definition requires (g : DependencyGraph) (n d : str) : Prop := d ∈ node_deps g n.

Lemma installable_acyclic g n : Installable g n → ¬ tc (requires g) n n.
Proof.
  induction 1 as [n node Hg _ IH]. inversion_clear 1 as [? ? Hr|? m ? Hr Hm]; [by apply (IH n Hr), tc_once|].
  apply (IH m Hr). eapply tc_r; [exact Hm|exact Hr].
Qed.

Lemma acyclic_installable g n :
  (∀ n d, d ∈ node_deps g n → is_Some (g !! d)) → (∀ n, ¬ tc (requires g) n n) →
  is_Some (g !! n) → Installable g n.
Proof.
  intros Hclosed Hirr Hn.
  assert (sn (requires g) n) as Hsn.
  { apply tc_finite_sn; [exact Hirr|]. exists (elements (dom g)). intros m Hm.
    apply elem_of_elements, elem_of_dom. clear -Hm Hclosed.
    induction Hm as [n m Hm|n m k _ _ IH]; [by apply (Hclosed n)|done]. }
  induction Hsn as [n _ IH]. destruct Hn as [node Hg]. apply (installable _ _ node Hg).
  intros d Hd. apply IH; [exact Hd|by eapply Hclosed].
Qed.

(** When nothing is missing, cycles are reported exactly when there is one. *)
Theorem cycles_are_reported node_order degree_order g :
  key_order g node_order → key_order g degree_order →
  (∀ n d, d ∈ node_deps g n → is_Some (g !! d)) →
  ∃ r, resolve node_order degree_order g = Some r ∧
    (cycles r = [] ↔ ∀ n, ¬ tc (requires g) n n).
Proof.
  intros Hno Hdo Hclosed. destruct (resolve_ok _ _ _ Hno Hdo) as (p & E & Hp & Hall).
  eexists. split; [exact E|]. cbn [cycles]. split.
  - intros Hnil%fmap_nil_inv n Hn. assert (is_Some (g !! n)) as Hg.
    { assert (∃ m, m ∈ node_deps g n) as [m Hm] by (inversion_clear Hn; eauto).
      unfold node_deps in Hm. destruct (g !! n); [by eexists|by apply not_elem_of_nil in Hm]. }
    apply (not_elem_of_nil n). rewrite <-Hnil. apply (stuck_spec _ g); [done..|].
    split; [done|]. intros Hi. by apply (installable_acyclic g n).
  - intros Hirr. destruct (with_degree _ _ (degree p)) as [|n l] eqn:El; [done|]. exfalso.
    assert (n ∈ n :: l) as Hn by left. rewrite <-El in Hn.
    apply (stuck_spec _ g) in Hn as [Hg Hn]; [|done..]. by apply Hn, acyclic_installable.
Qed.

(** ** Concrete graphs *)

Definition sample_graph : DependencyGraph :=
  add_root (lit "app") (lit "1.0") [constraint_new (lit "lib"); constraint_new (lit "ui")]
    (add_dependency (constraint_new (lit "lib")) (lit "2.0") []
       (add_dependency (constraint_new (lit "ui")) (lit "3.0") [constraint_new (lit "lib")] ∅)).

Definition sample_keys : list str := [lit "ui"; lit "app"; lit "lib"].

Lemma sample_key_order : key_order sample_graph sample_keys.
Proof.
  split; [by_compute|]. intros n. unfold sample_graph, sample_keys, add_root, add_dependency.
  rewrite !dom_insert_L, dom_empty_L. set_solver.
Qed.

Lemma install_order_is_a_plan_witness :
  (names ∘ install_order <$> resolve sample_keys sample_keys sample_graph) =
    Some [lit "lib"; lit "ui"; lit "app"] ∧
  ∃ r, resolve sample_keys sample_keys sample_graph = Some r ∧
    ∀ n, n ∈ names (install_order r) ↔ Installable sample_graph n.
Proof.
  split; [vm_compute; reflexivity|].
  destruct (install_order_is_a_plan sample_keys sample_keys sample_graph sample_key_order
              sample_key_order) as (r & E & _ & Hn & _). eauto.
Defined.

Lemma cycles_are_reported_witness :
  ∃ r, resolve sample_keys sample_keys sample_graph = Some r ∧
    (cycles r = [] ↔ ∀ n, ¬ tc (requires sample_graph) n n).
Proof.
  apply (cycles_are_reported sample_keys sample_keys sample_graph sample_key_order sample_key_order).
  intros n d. unfold node_deps. destruct (sample_graph !! n) as [node|] eqn:E;
    [|by intros ?%not_elem_of_nil].
  assert (map_Forall (λ _ node, Forall (λ d, is_Some (sample_graph !! d)) (dep_name <$> deps node))
            sample_graph) as Hall by by_compute.
  intros Hd. specialize (Hall _ _ E). rewrite Forall_forall in Hall. by apply Hall.
Defined.

(** A plugin whose dependency is not in the graph is reported as a cycle of
    its own, and so is everything that depends on it. *)
Example missing_dependency_is_a_cycle :
  let g := add_root (lit "app") (lit "1.0") [constraint_new (lit "gone")] ∅ in
  resolve [lit "app"] [lit "app"] g = Some (Build_ResolvedGraph [] [[lit "app"]]).
Proof. vm_compute. reflexivity. Qed.

(** The versions a plugin asks for are not looked at. *)
Example version_requirements_are_ignored :
  let g := add_root (lit "app") (lit "1.0")
             [Build_DependencyConstraint (lit "lib") (Some (lit ">=9"))]
             (add_dependency (constraint_new (lit "lib")) (lit "2.0") [] ∅) in
  (names ∘ install_order <$> resolve [lit "lib"; lit "app"] [lit "lib"; lit "app"] g) =
  Some [lit "lib"; lit "app"].
Proof. vm_compute. reflexivity. Qed.
