(* ===== verification/Plugins.v ===== *)
(** * What a plugin declares ([crates/plugin/src/]: [manifest.rs],
      [homograph.rs], [disclosure.rs])

    The manifest and what makes it acceptable, the names that are refused
    because they look like others, and what an installer is shown: the text
    of a plugin that reaches the model.  TOML is not read here; a manifest is
    its record. *)

From stdpp Require Import base option numbers strings pretty list.
From S2P Require Import Prelude RustStr Path.

#[local] Open Scope result_scope.

(** ** The manifest *)

Record ConfigSection := { schema : option str }.

Record PluginMeta := {
  meta_name : str;
  meta_version : str;
  api_version : str;
  meta_description : str;
  author : str;
  homepage : str;
  config : ConfigSection;
}.

Record Capabilities := {
  fs_read : list str;
  fs_write : list str;
  net : list str;
  env : list str;
  max_memory_mb : nat;
  timeout_ms : nat;
}.

Definition Capabilities_default : Capabilities := Build_Capabilities [] [] [] [] 64 (N.to_nat 30000).

Definition reaches_outside (c : Capabilities) : bool :=
  negb (bool_decide (fs_read c = [])) || negb (bool_decide (fs_write c = [])) ||
  negb (bool_decide (net c = [])) || negb (bool_decide (env c = [])).

Record WasmPayload := {
  component : str;
  wasm_tools : list str;
  events : list str;
  capabilities : Capabilities;
}.

Record ScriptPayload := {
  point : str;
  entry : str;
  script_timeout_ms : option nat;
  calls_per_turn : option nat;
}.

Inductive McpKind := Native | Dsh.

Record McpPayload := {
  mcp_name : str;
  kind : McpKind;
  mcp_config : option str;
  mcp_entry : option str;
  mcp_env : list str;
}.

Record SceneBudget := {
  compact_threshold : option nat;
  compact_keep_recent : option nat;
  max_api_calls_per_turn : option nat;
}.

Record OwnScene := {
  scene_name : str;
  scene_description : str;
  scene_prompt : str;
  reminder : option str;
  scene_tools : list str;
  scene_disallowed_tools : list str;
  deferred_tools : list str;
  scene_budget : SceneBudget;
}.

Record SceneSection := { visible_in : list str; own : option OwnScene }.

Record AgentDef := {
  agent_name : str;
  agent_description : str;
  agent_prompt : str;
  agent_allowed_tools : list str;
  agent_disallowed_tools : list str;
  agent_model : option str;
  permission_mode : option str;
  effort : option str;
  max_turns : option nat;
  agent_scene : option str;
}.

Record PluginManifest := {
  plugin_meta : PluginMeta;
  wasm : list WasmPayload;
  mcp : list McpPayload;
  script : list ScriptPayload;
  scene : SceneSection;
  agents : list AgentDef;
}.

Record Plugin := { root : str; manifest : PluginManifest }.

Inductive PluginError :=
  | Io (e : str)
  | Toml (e : str)
  | Schema (e : str)
  | Homograph (e : str)
  | Checksum (e : str)
  | ApiVersion (found supported : str).

(** [str::rsplit_once]. *)
Definition rsplit_once (c : char) (s : str) : option (str * str) :=
  match split_once c (reverse s) with
  | Some (r, l) => Some (reverse l, reverse r)
  | None => None
  end.

Definition script_file (s : ScriptPayload) : str := from_option fst [] (rsplit_once (ch ":") (entry s)).
Definition script_function (s : ScriptPayload) : str := from_option snd [] (rsplit_once (ch ":") (entry s)).

Definition name (p : Plugin) : str := meta_name (plugin_meta (manifest p)).

Definition scene_id (p : Plugin) : option str :=
  (λ _, lit "plugin:" ++ name p) <$> own (scene (manifest p)).

(** A path of the manifest, from the plugin's directory. *)
Definition path (p : Plugin) (rel : str) : str := path_join (root p) rel.

(** ** Which manifests are accepted *)

Definition SUPPORTED_API_VERSIONS : list str := [lit "0.1"].

Definition SUBSCRIBABLE_EVENTS : list str :=
  [lit "PreToolUse"; lit "PostToolUse"; lit "PostToolUseFailure"; lit "PermissionRequested";
   lit "SessionStart"; lit "SessionEnd"].

Definition KNOWN_SECTIONS : list str :=
  [lit "plugin"; lit "wasm"; lit "mcp"; lit "script"; lit "scene"; lit "agent"].

Definition HOST_SECTION_PREFIX : str := lit "x-".

(** The sections of a manifest that are read by nobody. *)
Definition unknown_sections (keys : list str) : list str :=
  filter (λ k, k ∉ KNOWN_SECTIONS) (filter (λ k, starts_with HOST_SECTION_PREFIX k = false) keys).

Fixpoint check_all {A} (check : A → result unit PluginError) (l : list A) : result unit PluginError :=
  match l with
  | [] => Ok tt
  | x :: l => _ ←? check x; check_all check l
  end.

Definition validate_event (e : str) : result unit PluginError :=
  if bool_decide (e ∈ SUBSCRIBABLE_EVENTS) then Ok tt
  else Err (Schema (lit "event `" ++ e ++ lit "` is not one a plugin may subscribe to (allowed: " ++
                    join (lit ", ") SUBSCRIBABLE_EVENTS ++ lit ")")).

Definition not_file_and_function (s : ScriptPayload) : PluginError :=
  Schema (lit "script entry `" ++ entry s ++ lit "` is not `<file>:<function>`").

Definition validate_script (s : ScriptPayload) : result unit PluginError :=
  if bool_decide (trim (point s) = []) then Err (Schema (lit "a `[[script]]` declares no `point`"))
  else
    match rsplit_once (ch ":") (entry s) with
    | None => Err (not_file_and_function s)
    | Some (file, function) =>
        if bool_decide (file = [] ∨ function = []) then Err (not_file_and_function s)
        else if is_absolute file || existsb (λ c, bool_decide (as_os_str c = lit "..")) (components file)
        then Err (Schema (lit "script entry `" ++ entry s ++ lit "` must name a file inside the package"))
        else Ok tt
    end.

Definition validate_mcp (s : McpPayload) : result unit PluginError :=
  match kind s, mcp_config s, mcp_entry s with
  | Native, None, _ => Err (Schema (lit "mcp `" ++ mcp_name s ++ lit "` is native but declares no `config`"))
  | Dsh, _, None => Err (Schema (lit "mcp `" ++ mcp_name s ++ lit "` is dsh but declares no `entry`"))
  | _, _, _ => Ok tt
  end.

Definition validate (m : PluginManifest) : result unit PluginError :=
  let meta := plugin_meta m in
  let subscribers := length (filter (λ w, events w ≠ []) (wasm m)) in
  if bool_decide (trim (meta_name meta) = []) then Err (Schema (lit "plugin.name must not be empty"))
  else if negb (bool_decide (api_version meta ∈ SUPPORTED_API_VERSIONS))
  then Err (ApiVersion (api_version meta) (join (lit ", ") SUPPORTED_API_VERSIONS))
  else if bool_decide (1 < subscribers)
  then Err (Schema (lit (pretty subscribers) ++
              lit " components declare `events`; at most one may, because the host dispatches an event to a plugin by name"))
  else
    _ ←? check_all (λ w, check_all validate_event (events w)) (wasm m);
    _ ←? check_all validate_script (script m);
    check_all validate_mcp (mcp m).

(** ** Names that look like others *)

(** The characters that pass for an ASCII letter. *)
Definition CONFUSABLE_MAP : list (char * list char) :=
  [(ch "a", [1072; 593; 945]); (ch "c", [1089; 1010; 962]); (ch "e", [1077; 1105]);
   (ch "i", [1110; 618; 1080]); (ch "j", [1112]); (ch "k", [1082]); (ch "m", [1084]);
   (ch "n", [951]); (ch "o", [1086; 959; 1413]); (ch "p", [1088]); (ch "s", [1109]);
   (ch "t", [1090]); (ch "u", [957]); (ch "x", [1093]); (ch "y", [1091]);
   (ch "A", [1040; 913]); (ch "B", [1042]); (ch "C", [1057]); (ch "E", [1045; 917]);
   (ch "H", [1053; 919]); (ch "I", [1030; 921]); (ch "K", [1050]); (ch "M", [1052]);
   (ch "O", [1054; 927]); (ch "P", [1056]); (ch "T", [1058]); (ch "X", [1061]); (ch "Y", [1059])]%N.

Definition BLOCKLIST : list str :=
  [lit "evil-plugin"; lit "malware"; lit "ransomware"; lit "keylogger"; lit "password-stealer";
   lit "crypto-miner"; lit "trojan"; lit "spyware"; lit "backdoor"; lit "rootkit";
   lit "credential-harvester"; lit "data-exfiltrator"; lit "injector"; lit "shell-reverse"].

(** The ASCII letter the first entry with [c] stands for, or [c]. *)
Definition plain_char (table : list (char * list char)) (c : char) : char :=
  match list_find (λ e, c ∈ e.2) table with Some (_, e) => e.1 | None => c end.

Section Names.
(** The table in the order the hash map gives it. *)
Context (table : list (char * list char)).

Definition normalize_name (s : str) : str := plain_char table <$> s.

Definition check_homograph_name (name : str) (official_names : list str) : option str :=
  match list_find (λ o, normalize_name name = o ∧ name ≠ o) official_names with
  | Some (_, o) => Some (lit "name '" ++ name ++ lit "' is a homograph of official '" ++ o ++ lit "'")
  | None => None
  end.

Definition check_blocklist (name : str) : option str :=
  snd <$> list_find (λ b, normalize_name name = b) BLOCKLIST.
End Names.

(** ** What an installer is shown *)

Definition MAX_DESCRIPTION_CHARS : nat := 500.
Definition MAX_PROMPT_CHARS : nat := N.to_nat 40000.

Record VisibleText := { origin : str; text : str }.

Record Disclosure := {
  disclosed_plugin : str;
  disclosed_version : str;
  model_visible : list VisibleText;
  disclosed_capabilities : list str;
  disclosed_events : list str;
  disclosed_scene : option str;
  mcp_servers : list str;
}.

Definition push_text (origin text : str) (limit : nat) (d : Disclosure) : result Disclosure PluginError :=
  let n := length text in
  if bool_decide (limit < n)
  then Err (Schema (origin ++ lit " is " ++ lit (pretty n) ++ lit " characters, over the " ++
              lit (pretty limit) ++ lit " allowed for text that reaches the model"))
  else Ok (Build_Disclosure (disclosed_plugin d) (disclosed_version d)
             (model_visible d ++ [Build_VisibleText origin text]) (disclosed_capabilities d)
             (disclosed_events d) (disclosed_scene d) (mcp_servers d)).

Definition describe_capabilities (c : Capabilities) : list str :=
  ((λ d, lit "read files under " ++ d) <$> fs_read c) ++
  ((λ d, lit "write files under " ++ d) <$> fs_write c) ++
  ((λ h, lit "make network requests to " ++ h) <$> net c) ++
  ((λ k, lit "read the environment variable " ++ k) <$> env c).

Definition describe_script (s : ScriptPayload) : str :=
  lit "run its own JavaScript at the `" ++ point s ++ lit "` extension point".

Definition describe_mcp (s : McpPayload) : str :=
  mcp_name s ++ lit " (" ++ match kind s with Native => lit "native" | Dsh => lit "dsh" end ++ lit ")".

Section Disclose.
Context (read_to_string : str → option str).

(** What the manifest grants, before any text. *)
Definition grants (p : Plugin) : Disclosure :=
  let m := manifest p in
  Build_Disclosure (meta_name (plugin_meta m)) (meta_version (plugin_meta m)) []
    ((wasm m ≫= λ w, describe_capabilities (capabilities w)) ++ (describe_script <$> script m))
    (wasm m ≫= events) (scene_id p) (describe_mcp <$> mcp m).

(** Text read from a file of the plugin; a file that cannot be read is left out. *)
Definition push_file (origin : str) (p : Plugin) (rel : str) (d : Disclosure) : result Disclosure PluginError :=
  match read_to_string (path p rel) with
  | Some body => push_text origin body MAX_PROMPT_CHARS d
  | None => Ok d
  end.

Definition disclose_agent (p : Plugin) (a : AgentDef) (d : Disclosure) : result Disclosure PluginError :=
  d ←? push_text (lit "agent `" ++ agent_name a ++ lit "` description") (agent_description a)
         MAX_DESCRIPTION_CHARS d;
  push_file (lit "agent `" ++ agent_name a ++ lit "` system prompt") p (agent_prompt a) d.

Fixpoint disclose_agents (p : Plugin) (l : list AgentDef) (d : Disclosure) : result Disclosure PluginError :=
  match l with
  | [] => Ok d
  | a :: l => d ←? disclose_agent p a d; disclose_agents p l d
  end.

Definition disclose_scene (p : Plugin) (o : OwnScene) (d : Disclosure) : result Disclosure PluginError :=
  d ←? (if bool_decide (scene_description o = []) then Ok d
        else push_text (lit "scene description") (scene_description o) MAX_DESCRIPTION_CHARS d);
  d ←? push_file (lit "scene system prompt") p (scene_prompt o) d;
  match reminder o with
  | Some rel => push_file (lit "scene per-turn reminder") p rel d
  | None => Ok d
  end.

Definition from_plugin (p : Plugin) : result Disclosure PluginError :=
  let m := manifest p in
  let description := meta_description (plugin_meta m) in
  d ←? (if bool_decide (description = []) then Ok (grants p)
        else push_text (lit "plugin description") description MAX_DESCRIPTION_CHARS (grants p));
  d ←? disclose_agents p (agents m) d;
  match own (scene m) with
  | Some o => disclose_scene p o d
  | None => Ok d
  end.
End Disclose.

Definition add_tool (tool description : str) (doc : option str) (d : Disclosure)
    : result Disclosure PluginError :=
  d ←? push_text (lit "tool `" ++ tool ++ lit "` description") description MAX_DESCRIPTION_CHARS d;
  match doc with
  | Some doc => push_text (lit "tool `" ++ tool ++ lit "` guide") doc MAX_PROMPT_CHARS d
  | None => Ok d
  end.

Definition is_inert (d : Disclosure) : bool :=
  bool_decide (model_visible d = []) && bool_decide (disclosed_capabilities d = []) &&
  bool_decide (disclosed_events d = []) && bool_decide (disclosed_scene d = None) &&
  bool_decide (mcp_servers d = []).

(** ** Scripts stay in the package *)

Lemma check_all_Ok {A} (check : A → result unit PluginError) l :
  check_all check l = Ok tt ↔ ∀ x, x ∈ l → check x = Ok tt.
Proof.
  induction l as [|x l IH]; cbn [check_all].
  - split; [by intros _ x ?%not_elem_of_nil|done].
  - destruct (check x) as [[]|e] eqn:E; cbn.
    + rewrite IH. split; [|intros H y Hy; apply H; by right].
      intros H y [->|Hy]%elem_of_cons; [done|by apply H].
    + split; [done|]. intros H. rewrite H in E by left. done.
Qed.

(** Each step of an accepted manifest was accepted. *)
Lemma result_bind_unit {E} (m : result unit E) k :
  result_bind m (λ _, k) = Ok tt ↔ m = Ok tt ∧ k = Ok tt.
Proof. destruct m as [[]|e]; cbn; [tauto|]. split; [done|by intros [? _]]. Qed.

(** What is checked when a manifest is accepted, all at once. *)
Lemma validate_Ok m : validate m = Ok tt ↔
  trim (meta_name (plugin_meta m)) ≠ [] ∧ api_version (plugin_meta m) ∈ SUPPORTED_API_VERSIONS ∧
  length (filter (λ w, events w ≠ []) (wasm m)) ≤ 1 ∧
  (∀ w e, w ∈ wasm m → e ∈ events w → e ∈ SUBSCRIBABLE_EVENTS) ∧
  (∀ s, s ∈ script m → validate_script s = Ok tt) ∧
  ∀ s, s ∈ mcp m → validate_mcp s = Ok tt.
Proof.
  unfold validate. case_bool_decide as Hn; [split; [done|by intros []]|].
  case_bool_decide as Ha; cbn [negb]; [|split; [done|by intros (_ & ? & _)]].
  case_bool_decide as Hs; [split; [done|intros (_ & _ & ? & _); lia]|].
  rewrite !result_bind_unit, !check_all_Ok.
  assert ((∀ w, w ∈ wasm m → check_all validate_event (events w) = Ok tt) ↔
          ∀ w e, w ∈ wasm m → e ∈ events w → e ∈ SUBSCRIBABLE_EVENTS) as ->.
  { apply forall_proper. intros w. rewrite check_all_Ok. split.
    - intros H e Hw He. specialize (H Hw e He). unfold validate_event in H.
      by case_bool_decide.
    - intros H Hw e He. unfold validate_event. by rewrite bool_decide_eq_true_2 by eauto. }
  split; [intros (? & ? & ?); split_and!; try done; lia|tauto].
Qed.

(** The scripts of an accepted package lie in it: whatever the manifest
    says, the file a script is loaded from is below the package's directory,
    and it names a function. *)
Theorem scripts_stay_in_the_package p s :
  validate (manifest p) = Ok tt → root p ≠ [] → s ∈ script (manifest p) →
  norm_comps (components (root p)) `prefix_of`
    norm_comps (components (path p (script_file s))) ∧
  script_file s ≠ [] ∧ script_function s ≠ [].
Proof.
  intros (_ & _ & _ & _ & Hs & _)%validate_Ok Hroot Hin. specialize (Hs s Hin).
  unfold validate_script in Hs. unfold script_file, script_function.
  case_bool_decide; [done|]. destruct (rsplit_once _ _) as [[file function]|]; [|done].
  cbn. case_bool_decide as Hne; [done|].
  destruct (is_absolute file) eqn:Habs; [done|]. cbn [orb] in Hs.
  destruct (existsb _ (components file)) eqn:Hdots; [done|].
  split; [|tauto]. apply push_stays_below; [done..|]. intros Hp.
  rewrite existsb_false_elem_of in Hdots. specialize (Hdots _ Hp). by apply bool_decide_eq_false in Hdots.
Qed.

(** ** Lookalikes *)

(** [c] passes for the character [o]. *)
Definition looks_like (o c : char) : Prop :=
  c = o ∨ ∃ cs, (o, cs) ∈ CONFUSABLE_MAP ∧ c ∈ cs.

Definition ascii_name (s : str) : Prop := Forall (λ c, (c < 128)%N) s.

Lemma confusables_are_apart e1 e2 c :
  e1 ∈ CONFUSABLE_MAP → e2 ∈ CONFUSABLE_MAP → c ∈ e1.2 → c ∈ e2.2 → e1.1 = e2.1.
Proof.
  assert (forallb (λ e1, forallb (λ e2, N.eqb e1.1 e2.1 ||
            forallb (λ c, negb (existsb (N.eqb c) e2.2)) e1.2) CONFUSABLE_MAP) CONFUSABLE_MAP = true)
    as H by (vm_compute; reflexivity).
  intros H1 H2 Hc1 Hc2. rewrite forallb_elem_of in H. specialize (H _ H1).
  rewrite forallb_elem_of in H. specialize (H _ H2). apply orb_true_iff in H as [H|H]; [by apply N.eqb_eq|].
  rewrite forallb_elem_of in H. specialize (H _ Hc1). apply negb_true_iff in H.
  rewrite existsb_false_elem_of in H. specialize (H _ Hc2). by apply N.eqb_neq in H.
Qed.

Lemma confusables_are_not_ascii e c : e ∈ CONFUSABLE_MAP → c ∈ e.2 → (128 ≤ c)%N.
Proof.
  assert (Forall (λ e, Forall (λ c, (128 ≤ c)%N) e.2) CONFUSABLE_MAP) as H by by_compute.
  intros He Hc. rewrite Forall_forall in H. specialize (H _ He). rewrite Forall_forall in H. by apply H.
Qed.

Section Lookalikes.
Context (table : list (char * list char)) (Htable : table ≡ₚ CONFUSABLE_MAP).

Lemma plain_char_ascii c : (c < 128)%N → plain_char table c = c.
Proof.
  intros Hc. unfold plain_char. destruct (list_find _ table) as [[i e]|] eqn:E; [|done].
  apply list_find_Some in E as (He%list_elem_of_lookup_2 & Hce & _). rewrite Htable in He.
  pose proof (confusables_are_not_ascii _ _ He Hce). lia.
Qed.

Lemma plain_char_lookalike o c : (o < 128)%N → looks_like o c → plain_char table c = o.
Proof.
  intros Ho [->|(cs & Hcs & Hc)]; [by apply plain_char_ascii|]. unfold plain_char.
  destruct (list_find _ table) as [[i e]|] eqn:E.
  - apply list_find_Some in E as (He%list_elem_of_lookup_2 & Hce & _). rewrite Htable in He.
    apply (confusables_are_apart e (o, cs) c); done.
  - apply list_find_None in E. rewrite Forall_forall in E. rewrite <-Htable in Hcs. by destruct (E _ Hcs).
Qed.

Lemma normalize_ascii s : ascii_name s → normalize_name table s = s.
Proof. induction 1; cbn; [done|]. by rewrite plain_char_ascii by done; f_equal. Qed.

Lemma normalize_lookalike o s : ascii_name o → Forall2 looks_like o s → normalize_name table s = o.
Proof.
  intros Ho H. revert Ho. induction H as [|x y o s Hxy _ IH]; intros Ho; [done|].
  apply Forall_cons in Ho as [Hx Ho]. change (plain_char table y :: normalize_name table s = x :: o).
  by rewrite (plain_char_lookalike x), IH.
Qed.

(** A name that looks like an official one, letter by letter, and is not it
    is refused; one that looks like a blocked name is refused as well; and a
    name in ASCII is never taken for an imitation.  The order of the hash map
    of lookalikes does not matter. *)
Theorem lookalikes_are_refused officials o s :
  ascii_name o → Forall2 looks_like o s →
  (o ∈ officials → s ≠ o → is_Some (check_homograph_name table s officials)) ∧
  (o ∈ BLOCKLIST → check_blocklist table s = Some o) ∧
  check_homograph_name table o officials = None.
Proof.
  intros Ho Hs. pose proof (normalize_lookalike _ _ Ho Hs) as Hn. split_and!.
  - intros Hin Hne. unfold check_homograph_name.
    destruct (list_find _ officials) as [[i x]|] eqn:E; [by eexists|].
    apply list_find_None in E. rewrite Forall_forall in E. by destruct (E o Hin).
  - intros Hin. unfold check_blocklist. destruct (list_find _ BLOCKLIST) as [[i x]|] eqn:E.
    + apply list_find_Some in E as (_ & Hx & _). cbn [fmap option_fmap option_map snd]. congruence.
    + apply list_find_None in E. rewrite Forall_forall in E. by destruct (E o Hin).
  - unfold check_homograph_name. destruct (list_find _ officials) as [[i x]|] eqn:E; [|done].
    apply list_find_Some in E as (_ & [Hx Hne] & _). rewrite normalize_ascii in Hx by done. done.
Qed.
End Lookalikes.

(** ** What is shown is what the model reads *)

Section Shown.
Context (read_to_string : str → option str).

(** A text for the model: where it comes from, what it says, how long it may
    be. *)
Notation said := (str * str * nat)%type.

Definition unless_empty (origin text : str) : list said :=
  if decide (text = []) then [] else [(origin, text, MAX_DESCRIPTION_CHARS)].

Definition from_file (origin : str) (p : Plugin) (rel : str) : list said :=
  match read_to_string (path p rel) with
  | Some body => [(origin, body, MAX_PROMPT_CHARS)]
  | None => []
  end.

Definition said_by_agent (p : Plugin) (a : AgentDef) : list said :=
  (lit "agent `" ++ agent_name a ++ lit "` description", agent_description a, MAX_DESCRIPTION_CHARS)
  :: from_file (lit "agent `" ++ agent_name a ++ lit "` system prompt") p (agent_prompt a).

Definition said_by_scene (p : Plugin) (o : OwnScene) : list said :=
  unless_empty (lit "scene description") (scene_description o) ++
  from_file (lit "scene system prompt") p (scene_prompt o) ++
  from_option (from_file (lit "scene per-turn reminder") p) [] (reminder o).

(** Every text the manifest and the files it names bring before the model. *)
Definition said_by (p : Plugin) : list said :=
  unless_empty (lit "plugin description") (meta_description (plugin_meta (manifest p))) ++
  (agents (manifest p) ≫= said_by_agent p) ++
  from_option (said_by_scene p) [] (own (scene (manifest p))).

Fixpoint push_said (l : list said) (d : Disclosure) : result Disclosure PluginError :=
  match l with
  | [] => Ok d
  | (origin, text, limit) :: l => d ←? push_text origin text limit d; push_said l d
  end.

Lemma push_said_app l k d : push_said (l ++ k) d = result_bind (push_said l d) (push_said k).
Proof.
  revert d. induction l as [|[[o t] n] l IH]; intros d; [done|]. cbn [app push_said].
  destruct (push_text o t n d); [apply IH|done].
Qed.

Lemma result_bind_ret {T E} (m : result T E) : result_bind m Ok = m.
Proof. by destruct m. Qed.

Lemma push_said_one o t n d : push_said [(o, t, n)] d = push_text o t n d.
Proof. apply result_bind_ret. Qed.

Lemma push_said_file o p rel d : push_said (from_file o p rel) d = push_file read_to_string o p rel d.
Proof. unfold from_file, push_file. case_match; [apply push_said_one|done]. Qed.

Lemma push_said_unless o t d : push_said (unless_empty o t) d =
  if bool_decide (t = []) then Ok d else push_text o t MAX_DESCRIPTION_CHARS d.
Proof. unfold unless_empty. case_decide; case_bool_decide; try done. apply push_said_one. Qed.

Lemma push_said_agent p a d : push_said (said_by_agent p a) d = disclose_agent read_to_string p a d.
Proof.
  unfold said_by_agent, disclose_agent. cbn [push_said]. destruct (push_text _ _ _ d); [|done].
  apply push_said_file.
Qed.

Lemma push_said_agents p l d : push_said (l ≫= said_by_agent p) d = disclose_agents read_to_string p l d.
Proof.
  revert d. induction l as [|a l IH]; intros d; [done|]. cbn [disclose_agents].
  change ((a :: l) ≫= said_by_agent p) with (said_by_agent p a ++ (l ≫= said_by_agent p)).
  rewrite push_said_app, push_said_agent. destruct (disclose_agent _ p a d); [apply IH|done].
Qed.

Lemma push_said_scene p o d : push_said (said_by_scene p o) d = disclose_scene read_to_string p o d.
Proof.
  unfold said_by_scene, disclose_scene. rewrite push_said_app, push_said_unless.
  destruct (if bool_decide (scene_description o = []) then Ok d else _) as [d1|e]; [|done].
  cbn [result_bind]. rewrite push_said_app, push_said_file.
  destruct (push_file _ _ p (scene_prompt o) d1) as [d2|e]; [|done]. cbn [result_bind].
  destruct (reminder o) as [rel|]; [apply push_said_file|done].
Qed.

Lemma from_plugin_said p : from_plugin read_to_string p = push_said (said_by p) (grants p).
Proof.
  unfold from_plugin, said_by. rewrite push_said_app, push_said_unless. cbv zeta.
  destruct (if bool_decide (meta_description _ = []) then Ok (grants p) else _) as [d1|e]; [|done].
  cbn [result_bind]. rewrite push_said_app, push_said_agents.
  destruct (disclose_agents _ p _ d1) as [d2|e]; [|done]. cbn [result_bind].
  destruct (own _) as [o|]; [symmetry; apply push_said_scene|done].
Qed.

Definition fits (s : said) : Prop := length s.1.2 ≤ s.2.

(** The disclosure with the texts of a list shown. *)
Definition showing (d : Disclosure) (l : list said) : Disclosure :=
  Build_Disclosure (disclosed_plugin d) (disclosed_version d)
    (model_visible d ++ ((λ s, Build_VisibleText s.1.1 s.1.2) <$> l)) (disclosed_capabilities d)
    (disclosed_events d) (disclosed_scene d) (mcp_servers d).

Lemma push_said_spec l d :
  (Forall fits l → push_said l d = Ok (showing d l)) ∧
  (¬ Forall fits l → ∃ e, push_said l d = Err (Schema e)).
Proof.
  revert d. induction l as [|[[o t] n] l IH]; intros d.
  { split; [|by intros []; constructor]. intros _. unfold showing. cbn. rewrite app_nil_r. by destruct d. }
  cbn [push_said]. unfold push_text. destruct (decide (n < length t)) as [Hlong|Hshort].
  - rewrite bool_decide_eq_true_2 by done. split; [|eauto].
    intros [Hf _]%Forall_cons. unfold fits in Hf. cbn in Hf. lia.
  - rewrite bool_decide_eq_false_2 by done. cbn [result_bind].
    destruct (IH (Build_Disclosure (disclosed_plugin d) (disclosed_version d)
      (model_visible d ++ [Build_VisibleText o t]) (disclosed_capabilities d)
      (disclosed_events d) (disclosed_scene d) (mcp_servers d))) as [H1 H2]. split.
    + intros [_ Hl]%Forall_cons. rewrite H1 by done. unfold showing. cbn. by rewrite <-app_assoc.
    + intros Hn. apply H2. intros Hl. apply Hn. constructor; [|done]. unfold fits. cbn. lia.
Qed.

(** Nothing a plugin says to the model is hidden from who installs it: either
    every text that its manifest and the readable files it names bring before
    the model is shown, whole and in order, with all it is granted, or the
    plugin is refused, and it is refused just when one of them is too long. *)
Theorem everything_said_is_shown p :
  (Forall fits (said_by p) → from_plugin read_to_string p = Ok (showing (grants p) (said_by p))) ∧
  (¬ Forall fits (said_by p) → ∃ e, from_plugin read_to_string p = Err (Schema e)).
Proof. rewrite from_plugin_said. apply push_said_spec. Qed.
End Shown.

(** ** A sample plugin *)

Definition sample_meta : PluginMeta :=
  Build_PluginMeta (lit "notes") (lit "1.0.0") (lit "0.1") (lit "Takes notes") [] []
    (Build_ConfigSection None).

Definition sample_script : ScriptPayload :=
  Build_ScriptPayload (lit "tool.result") (lit "js/./main.js:onResult") None None.

Definition sample_manifest (prompt : str) : PluginManifest :=
  Build_PluginManifest sample_meta
    [Build_WasmPayload (lit "notes.wasm") [] [lit "SessionEnd"] Capabilities_default] []
    [sample_script] (Build_SceneSection [] None)
    [Build_AgentDef (lit "writer") (lit "Writes") prompt [] [] None None None None None].

Definition sample_plugin (prompt : str) : Plugin := Build_Plugin (lit "/p/notes") (sample_manifest prompt).

Lemma scripts_stay_in_the_package_witness :
  normalize (path (sample_plugin []) (script_file sample_script)) = lit "/p/notes/js/main.js" ∧
  norm_comps (components (lit "/p/notes")) `prefix_of`
    norm_comps (components (path (sample_plugin []) (script_file sample_script))).
Proof.
  split; [vm_compute; reflexivity|].
  apply (scripts_stay_in_the_package (sample_plugin []) sample_script);
    [vm_compute; reflexivity|done|left].
Defined.

Lemma lookalikes_are_refused_witness :
  let fake := [109; 1072; 108; 119; 1072; 114; 1077]%N in
  Forall2 looks_like (lit "malware") fake ∧ check_blocklist CONFUSABLE_MAP fake = Some (lit "malware").
Proof.
  intros fake. assert (Forall2 looks_like (lit "malware") fake) as Hf.
  { repeat (first [apply Forall2_nil_2|apply Forall2_cons_2; [first [by left|right]|]]);
      [exists [1072; 593; 945]%N|exists [1072; 593; 945]%N|exists [1077; 1105]%N]; split; by_compute. }
  split; [done|].
  apply (lookalikes_are_refused CONFUSABLE_MAP (reflexivity _) [] (lit "malware") fake); [|done|by_compute].
  by_compute.
Defined.

Lemma everything_said_is_shown_witness :
  let read (f : str) := if decide (f = lit "/p/notes/w.md") then Some (lit "You write.") else None in
  from_plugin read (sample_plugin (lit "w.md")) =
    Ok (showing (grants (sample_plugin (lit "w.md"))) (said_by read (sample_plugin (lit "w.md")))) ∧
  (λ s : str * str * nat, s.1.2) <$> said_by read (sample_plugin (lit "w.md")) =
    [lit "Takes notes"; lit "Writes"; lit "You write."].
Proof.
  intros read. split; [|vm_compute; reflexivity].
  apply (everything_said_is_shown read (sample_plugin (lit "w.md"))).
  assert (forallb (λ s : str * str * nat, length s.1.2 <=? s.2) (said_by read (sample_plugin (lit "w.md")))
          = true) as H by (vm_compute; reflexivity).
  apply Forall_forall. intros s Hs. rewrite forallb_elem_of in H. by apply Nat.leb_le, H.
Defined.

(** Only scripts are kept in the package: a prompt may be any file. *)
Example a_prompt_can_be_any_file :
  let p := sample_plugin (lit "../../etc/passwd") in
  validate (manifest p) = Ok tt ∧ normalize (path p (lit "../../etc/passwd")) = lit "/etc/passwd".
Proof. split; vm_compute; reflexivity. Qed.

(** A letter the table does not have, and another case, pass. *)
Example other_imitations_pass :
  check_homograph_name CONFUSABLE_MAP (lit "Code-review") [lit "code-review"] = None ∧
  check_blocklist CONFUSABLE_MAP (lit "Malware") = None ∧
  check_homograph_name CONFUSABLE_MAP (lit "code-re" ++ [957; 105; 101; 119]%N) [lit "code-review"] = None.
Proof. split_and!; vm_compute; reflexivity. Qed.
