(* ===== verification/PluginStore.v ===== *)
(** * Installing and finding plugins ([crates/plugin/src/]: [cache.rs],
      [fetch.rs], [cli.rs], [marketplace.rs], [discovery.rs], [state.rs])

    The versioned cache is a tree of files ([Tree], keyed by normalized
    paths; no links).  The network, SHA-256, zip archives, semver, TOML and
    JSON are parameters: [Archive] is what the zip crate reads.  A failing
    file system call is not modelled; a damaged archive is. *)

From stdpp Require Import base option numbers strings pretty gmap list sorting.
From S2P Require Import Prelude RustStr Lines Path Plugins.

#[local] Open Scope result_scope.

(** ** Files *)

Inductive File := Directory | Regular (content : str).

Notation Tree := (gmap str File).

Definition is_dir (t : Tree) (p : str) : bool :=
  match t !! normalize p with Some Directory => true | _ => false end.

Definition is_file (t : Tree) (p : str) : bool :=
  match t !! normalize p with Some (Regular _) => true | _ => false end.

Definition read_file (t : Tree) (p : str) : option str :=
  match t !! normalize p with Some (Regular s) => Some s | _ => None end.

Definition make_dir (t : Tree) (p : str) : Tree :=
  match t !! p with Some _ => t | None => <[p := Directory]> t end.

(** [create_dir_all]. *)
Definition create_dir_all (t : Tree) (p : str) : Tree := foldl make_dir t (ancestors (normalize p)).

Definition write_file (t : Tree) (p content : str) : Tree := <[normalize p := Regular content]> t.

Definition under (dir p : str) : Prop := components (normalize dir) `prefix_of` components p.

#[global] Instance under_dec dir p : Decision (under dir p).
Proof. unfold under. apply _. Defined.

(** [remove_dir_all]. *)
Definition remove_dir_all (t : Tree) (p : str) : Tree := filter (λ kv, ¬ under p kv.1) t.

(** ** Sources *)

Record PluginSource := {
  download_url : str;
  checksum : option str;
  version : str;
}.

Record RegistryEntry := {
  entry_name : str;
  entry_version : str;
  entry_description : str;
  entry_download_url : str;
  entry_checksum : option str;
  dependencies : list str;
}.

Definition source_of (e : RegistryEntry) : PluginSource :=
  Build_PluginSource (entry_download_url e) (entry_checksum e) (entry_version e).

(** Where plugins are looked up by name. *)
Record PluginResolver := {
  fetch_index : result (list RegistryEntry) PluginError;
  resolve_source : str → str → result PluginSource PluginError;
}.

Definition not_found (name version : str) : PluginError :=
  Schema (lit "plugin " ++ name ++ lit "@" ++ version ++ lit " not found in registry").

(** What the zip crate makes of an archive: for each entry its enclosed path,
    [None] when it is not safe, with a file's content; or a damaged entry. *)
Definition Archive := list (result (option (str * option str)) str).

Record PluginCommandResult := {
  success : bool;
  message : str;
  installed_count : nat;
  removed_count : nat;
  updated_count : nat;
}.

Section Store.
Context {Version : Type} (ver_le : Version → Version → Prop) `{!RelDecision ver_le}.
Context (semver : str → option Version).
Context (sha256_hex : str → str) (unzip : str → result Archive str).
Context (download : str → result (nat * str) str).
Context (parse_manifest : str → result PluginManifest str).
Context (table : list (char * list char)).
(** The order in which a directory is read. *)
Context (read_order : list str → list str).

(** The names in a directory. *)
Definition read_dir (t : Tree) (p : str) : option (list str) :=
  if is_dir t p then
    Some (read_order (omap (λ kv, if decide (parent kv.1 = Some (normalize p)) then file_name kv.1 else None)
                        (map_to_list t)))
  else None.

(** *** The cache: its root *)

Definition version_dir (root name version : str) : str := path_join (path_join root name) version.

Definition is_cached (t : Tree) (root name version : str) : bool :=
  is_file t (path_join (version_dir root name version) (lit "plugin.toml")).

(** Newest first; what is no version comes last, by name. *)
Definition version_order (a b : str) : Prop :=
  match semver a, semver b with
  | Some a, Some b => ver_le b a
  | Some _, None => True
  | None, Some _ => False
  | None, None => str_order a b
  end.

#[global] Instance version_order_dec a b : Decision (version_order a b).
Proof. unfold version_order. repeat case_match; apply _. Defined.

Definition list_versions (t : Tree) (root name : str) : list str :=
  let dir := path_join root name in
  let entries := default [] (read_dir t dir) in
  merge_sort version_order
    (filter (λ v, v ≠ lit "latest") (filter (λ v, is_dir t (path_join dir v) = true) entries)).

Definition cached_manifest (t : Tree) (root name version : str) : option str :=
  let p := path_join (version_dir root name version) (lit "plugin.toml") in
  if is_file t p then Some p else None.

Definition remove_version (t : Tree) (root name version : str) : Tree :=
  let dir := version_dir root name version in
  let t := if is_dir t dir then remove_dir_all t dir else t in
  let plugin_dir := path_join root name in
  if is_dir t plugin_dir && bool_decide (default [] (read_dir t plugin_dir) = [])
  then delete (normalize plugin_dir) t else t.

Definition total_cached (t : Tree) (root : str) : nat :=
  sum_list_with (λ name,
    length (filter (λ v, is_dir t (path_join (path_join root name) v) = true ∧ v ≠ lit "latest")
              (default [] (read_dir t (path_join root name)))))
    (filter (λ name, is_dir t (path_join root name) = true ∧ name ≠ lit "registry.json")
       (default [] (read_dir t root))).

(** *** Fetching *)

Definition is_local (s : PluginSource) : bool := starts_with (lit "file://") (download_url s).

(** The bytes of a source; the disk is read for a local one. *)
Definition fetch_bytes (t : Tree) (url : str) : result str PluginError :=
  match strip_prefix (lit "file://") url with
  | Some p => match read_file t p with Some b => Ok b | None => Err (Io (lit "not found")) end
  | None =>
      match download url with
      | Err e => Err (Io (lit "download failed: " ++ e))
      | Ok (status, body) =>
          if bool_decide (200 ≤ status < 300) then Ok body
          else Err (Schema (lit "download failed: HTTP " ++ lit (pretty status) ++ lit " from " ++ url))
      end
  end.

Definition verify_checksum (bytes expected : str) : result unit PluginError :=
  let actual := sha256_hex bytes in
  if eq_ignore_ascii_case actual expected then Ok tt
  else Err (Checksum (lit "checksum mismatch — expected " ++ expected ++ lit ", got " ++ actual)).

(** The entries, in order; a damaged one ends it with those before in place. *)
Fixpoint extract_entries (dest : str) (l : Archive) (t : Tree) : Tree * result unit PluginError :=
  match l with
  | [] => (t, Ok tt)
  | Err e :: _ => (t, Err (Schema (lit "invalid plugin archive entry: " ++ e)))
  | Ok None :: l => extract_entries dest l t
  | Ok (Some (relative, content)) :: l =>
      let out_path := path_join dest relative in
      match content with
      | None => extract_entries dest l (create_dir_all t out_path)
      | Some content =>
          let t := match parent out_path with Some d => create_dir_all t d | None => t end in
          if is_dir t out_path then (t, Err (Io (lit "is a directory")))
          else extract_entries dest l (write_file t out_path content)
      end
  end.

Definition extract_zip (bytes dest : str) (t : Tree) : Tree * result unit PluginError :=
  match unzip bytes with
  | Err e => (t, Err (Schema (lit "invalid plugin archive: " ++ e)))
  | Ok archive => extract_entries dest archive (create_dir_all t dest)
  end.

Definition install_from_source (root name : str) (s : PluginSource) (t : Tree)
    : Tree * result str PluginError :=
  if bool_decide (checksum s = None) && negb (is_local s)
  then (t, Err (Checksum (lit "plugin '" ++ name ++
            lit "' has no checksum — refusing to install from a network source (" ++ download_url s ++
            lit ") without one")))
  else
    match fetch_bytes t (download_url s) with
    | Err e => (t, Err e)
    | Ok bytes =>
        match from_option (verify_checksum bytes) (Ok tt) (checksum s) with
        | Err e => (t, Err e)
        | Ok _ =>
            let dest := version_dir root name (version s) in
            let '(t, r) := extract_zip bytes dest (create_dir_all t root) in
            (t, _ ←? r; Ok dest)
        end
    end.

(** *** Commands *)

Definition check_name (name : str) : result unit PluginError :=
  match check_blocklist table name with
  | Some blocked =>
      Err (Homograph (lit "plugin name '" ++ name ++ lit "' is blocked (matches blocklist entry '" ++
                      blocked ++ lit "')"))
  | None => Ok tt
  end.

Definition install_source (root name : str) (s : PluginSource) (t : Tree)
    : Tree * result PluginCommandResult PluginError :=
  match check_name name with
  | Err e => (t, Err e)
  | Ok _ =>
      if is_cached t root name (version s) then
        (t, Ok (Build_PluginCommandResult true
                  (lit "plugin '" ++ name ++ lit "' v" ++ version s ++ lit " is already installed") 0 0 0))
      else
        let '(t, r) := install_from_source root name s t in
        (t, _ ←? r; Ok (Build_PluginCommandResult true
                  (lit "installed plugin '" ++ name ++ lit "' v" ++ version s ++ lit " from " ++ download_url s)
                  1 0 0))
  end.

Definition wanted (name version : str) (e : RegistryEntry) : Prop :=
  entry_name e = name ∧ (version = lit "latest" ∨ version = lit "any" ∨ entry_version e = version).

#[global] Instance wanted_dec name version e : Decision (wanted name version e).
Proof. unfold wanted. apply _. Defined.

Definition install (resolver : option PluginResolver) (root name : str) (requested : option str) (t : Tree)
    : Tree * result PluginCommandResult PluginError :=
  match check_name name with
  | Err e => (t, Err e)
  | Ok _ =>
      match resolver with
      | None => (t, Err (Schema (lit "no marketplace configured — cannot install plugins by name; use install_source with an explicit download_url instead")))
      | Some resolver =>
          match fetch_index resolver with
          | Err e => (t, Err e)
          | Ok index =>
              match check_homograph_name table name (entry_name <$> index) with
              | Some msg => (t, Err (Homograph msg))
              | None =>
                  let version := default (lit "latest") requested in
                  match list_find (wanted name version) index with
                  | None => (t, Err (not_found name version))
                  | Some (_, e) => install_source root name (source_of e) t
                  end
              end
          end
      end
  end.

Definition uninstall (root name : str) (version : option str) (t : Tree) : Tree * PluginCommandResult :=
  match version with
  | Some version =>
      (remove_version t root name version,
       Build_PluginCommandResult true (lit "removed plugin '" ++ name ++ lit "' v" ++ version) 0 1 0)
  | None =>
      let versions := list_versions t root name in
      let count := length versions in
      (foldl (λ t v, remove_version t root name v) t versions,
       Build_PluginCommandResult true
         (lit "removed plugin '" ++ name ++ lit "' (" ++ lit (pretty count) ++ lit " versions)") 0 count 0)
  end.

Definition list_installed (root : str) (t : Tree) : list str :=
  (λ name,
    let versions := list_versions t root name in
    if bool_decide (versions = []) then name ++ lit " (no versions)"
    else name ++ lit " (" ++ join (lit ", ") versions ++ lit ")") <$>
  filter (λ name, name ≠ lit "registry.json")
    (filter (λ name, is_dir t (path_join root name) = true) (default [] (read_dir t root))).

Definition update (resolver : option PluginResolver) (root name : str) (t : Tree)
    : Tree * result PluginCommandResult PluginError :=
  let current := head (list_versions t root name) in
  match resolver with
  | None => (t, Err (Schema (lit "no marketplace configured — cannot update plugins")))
  | Some resolver =>
      match resolve_source resolver name (lit "latest") with
      | Err e => (t, Err e)
      | Ok source =>
          if bool_decide (current = Some (version source)) then
            (t, Ok (Build_PluginCommandResult true
                      (lit "plugin '" ++ name ++ lit "' is already at latest v" ++ version source) 0 0 0))
          else
            let '(t, r) := install_from_source root name source t in
            (t, _ ←? r; Ok (Build_PluginCommandResult true
                      (lit "updated plugin '" ++ name ++ lit "' from " ++ default (lit "not installed") current ++
                       lit " to v" ++ version source) 0 0 1))
      end
  end.

(** The registry a host serves, as a resolver. *)
Definition RegistryResolver (index : result (list RegistryEntry) PluginError) : PluginResolver := {|
  fetch_index := index;
  resolve_source name version :=
    entries ←? index;
    match list_find (λ e, entry_name e = name ∧ entry_version e = version) entries with
    | Some (_, e) => Ok (source_of e)
    | None => Err (not_found name version)
    end
|}.

Definition NoopResolver : PluginResolver := {|
  fetch_index := Ok [];
  resolve_source name _ :=
    Err (Schema (lit "no marketplace configured — cannot resolve plugin '" ++ name ++ lit "'"))
|}.

(** *** Discovery *)

Definition load (t : Tree) (root manifest_path : str) : result Plugin PluginError :=
  match read_file t manifest_path with
  | None => Err (Io (lit "not found"))
  | Some raw =>
      match parse_manifest raw with
      | Err e => Err (Toml e)
      | Ok m => _ ←? validate m; Ok (Build_Plugin root m)
      end
  end.

Definition load_installed (t : Tree) (cache name : str) : option Plugin :=
  if negb (is_dir t (path_join cache name)) || bool_decide (name = lit "registry.json") then None
  else
    version ← head (list_versions t cache name);
    manifest_path ← cached_manifest t cache name version;
    result_ok (load t (path_join (path_join cache name) version) manifest_path).

Definition load_installed_tier (t : Tree) (tier_dir : str) : list Plugin :=
  let cache := path_join tier_dir (lit "cache") in
  omap (load_installed t cache) (default [] (read_dir t cache)).

Definition by_plugin_name (a b : Plugin) : Prop := str_order (name a) (name b).

#[global] Instance by_plugin_name_dec a b : Decision (by_plugin_name a b).
Proof. unfold by_plugin_name. apply _. Defined.

Definition keep_last (m : gmap str Plugin) (p : Plugin) : gmap str Plugin := <[name p := p]> m.

Definition discover_plugins (t : Tree) (global scene : str) : list Plugin :=
  let by_name := foldl keep_last ∅ (load_installed_tier t global ++ load_installed_tier t scene) in
  merge_sort by_plugin_name (map_to_list by_name).*2.
End Store.

(** *** Which plugins are enabled ([enabled.json]) *)

Section Enabled.
Context (parse_enabled : str → option (gmap str bool)) (print_enabled : gmap str bool → str).

Definition enabled_path (tier_root : str) : str := path_join tier_root (lit "enabled.json").

Definition load_enabled (t : Tree) (tier_root : str) : gmap str bool :=
  default ∅ (read_file t (enabled_path tier_root) ≫= parse_enabled).

Definition save_enabled (t : Tree) (tier_root : str) (m : gmap str bool) : Tree :=
  let p := enabled_path tier_root in
  let t := match parent p with Some d => create_dir_all t d | None => t end in
  write_file t p (print_enabled m).

Definition get_enabled (t : Tree) (tier_root name : str) : option bool := load_enabled t tier_root !! name.

Definition set_enabled (name : str) (enabled : bool) (tier_root : str) (t : Tree) : Tree :=
  save_enabled t tier_root (<[name := enabled]> (load_enabled t tier_root)).

Definition resolve_enabled (t : Tree) (name global scene : str) : bool :=
  default true (match get_enabled t scene name with Some b => Some b | None => get_enabled t global name end).
End Enabled.

(** ** Where an archive's paths lead *)

(** A path that never climbs above where it is put. *)
Fixpoint stays_inside (depth : nat) (cs : list Component) : bool :=
  match cs with
  | [] => true
  | RootDir :: _ => false
  | CurDir :: cs => stays_inside depth cs
  | ParentDir :: cs => match depth with 0 => false | S depth => stays_inside depth cs end
  | Normal _ :: cs => stays_inside (S depth) cs
  end.

Lemma stays_inside_extends base xs cs : Forall normal_ok xs → Forall (λ c, c = ParentDir ∨ normal_ok c) cs →
  stays_inside (length xs) cs = true → base `prefix_of` foldl norm_step (base ++ xs) cs.
Proof.
  intros Hxs Hcs. revert xs Hxs. induction Hcs as [|c cs Hc _ IH]; intros xs Hxs; [by intros _; apply prefix_app_r|].
  cbn [foldl]. destruct Hc as [->|Hc].
  - cbn [stays_inside norm_step]. destruct xs as [|x xs _] using rev_ind; [done|]. rewrite length_app. cbn [length].
    rewrite Nat.add_1_r. intros Hs. apply Forall_app in Hxs as [Hxs Hx]. rewrite Forall_singleton in Hx.
    unfold pop_comps. rewrite app_assoc, last_snoc, removelast_last. destruct x as [| | |s]; try done. by apply IH.
  - destruct c as [| | |s]; try done. cbn [stays_inside norm_step]. rewrite <-app_assoc. intros Hs. apply IH.
    + apply Forall_app. split; [done|]. by apply Forall_singleton.
    + rewrite length_app. cbn. by rewrite Nat.add_1_r.
Qed.

Lemma stays_inside_pieces n q : stays_inside n (components q) = true →
  is_absolute q = false ∧ stays_inside n (pieces q) = true.
Proof.
  rewrite components_pieces. unfold comp_prefix. destruct (is_absolute q); [done|]. intros H. split; [done|].
  destruct (split slash q); [done|]. by case_decide.
Qed.

Lemma stays_inside_removelast n cs : stays_inside n cs = true → stays_inside n (removelast cs) = true.
Proof.
  revert n. induction cs as [|c cs IH]; intros n; [done|]. intros H. destruct cs as [|d cs]; [done|].
  change (removelast (c :: d :: cs)) with (c :: removelast (d :: cs)).
  revert H. cbn [stays_inside]. destruct c; [done| |destruct n; [done|]|]; apply IH.
Qed.

(** ** What is written *)

Lemma under_refl p : under p (normalize p).
Proof. by unfold under. Qed.

(** Outside [dest] everything is as it was. *)
Definition keeps_outside (dest : str) (t t' : Tree) : Prop := ∀ k, ¬ under dest k → t' !! k = t !! k.

#[local] Instance keeps_outside_preorder dest : PreOrder (keeps_outside dest).
Proof.
  split; [by intros t k|intros t1 t2 t3 H1 H2 k Hk]. by rewrite (H2 k Hk), (H1 k Hk).
Qed.

(** A directory above [p], or [p] itself. *)
Definition above (p k : str) : Prop := components k `prefix_of` components (normalize p).

(** What the zip crate documents of the paths it calls enclosed: relative, and
    never above where they start. *)
Definition enclosed (a : Archive) : Prop :=
  ∀ relative c, Ok (Some (relative, c)) ∈ a → stays_inside 0 (components relative) = true.

Lemma joined_under dest relative : dest ≠ [] → stays_inside 0 (components relative) = true →
  under dest (normalize (path_join dest relative)).
Proof.
  intros Hd [Ha Hs]%stays_inside_pieces. unfold under, path_join.
  rewrite !components_normalize, components_push_rel, norm_comps_app by done.
  rewrite <-(app_nil_r (norm_comps (components dest))) at 2.
  apply stays_inside_extends; [constructor|apply pieces_spec|done].
Qed.

(** The parent of such a path lies in [dest] or above it. *)
Lemma joined_parent dest relative d : dest ≠ [] → stays_inside 0 (components relative) = true →
  parent (path_join dest relative) = Some d →
  components (normalize dest) `prefix_of` components (normalize d) ∨
  components (normalize d) `prefix_of` components (normalize dest).
Proof.
  intros Hd [Ha Hs]%stays_inside_pieces Hp%parent_components. unfold path_join in Hp.
  rewrite components_push_rel in Hp by done. rewrite !components_normalize, Hp.
  destruct (pieces relative) as [|c cs] eqn:E.
  - rewrite app_nil_r. destruct (components_shape dest) as [->|(x & xs & -> & Hxs & _)]; [by left|].
    destruct xs as [|y xs _] using rev_ind; [right; apply prefix_nil|].
    change (x :: xs ++ [y]) with ((x :: xs) ++ [y]). rewrite removelast_last, norm_comps_app. cbn [foldl].
    apply Forall_app in Hxs as [_ Hy]. rewrite Forall_singleton in Hy. destruct Hy as [->|Hy].
    + left. cbn [norm_step]. unfold pop_comps. destruct (last _) as [[]|]; try done; apply removelast_prefix.
    + right. destruct y as [| | |n]; try done. by apply prefix_app_r.
  - left. rewrite removelast_app by done. rewrite norm_comps_app.
    rewrite <-(app_nil_r (norm_comps (components dest))) at 2.
    apply stays_inside_extends; [constructor| |by apply stays_inside_removelast].
    pose proof (pieces_spec relative) as Hps. rewrite E in Hps. clear E. destruct (removelast_prefix (c :: cs)) as [l El].
    rewrite El in Hps. by apply Forall_app in Hps as [? _].
Qed.
Section Written.
Context (sha256_hex : str → str) (unzip : str → result Archive str).
Context (download : str → result (nat * str) str).

(** New directories where [P] lets them be, and nothing else. *)
Definition only_dirs (P : str → Prop) (t t' : Tree) : Prop :=
  ∀ k, t' !! k = t !! k ∨ t !! k = None ∧ t' !! k = Some Directory ∧ P k.

Lemma make_dirs_only ds t : only_dirs (λ k, k ∈ ds) t (foldl make_dir t ds).
Proof.
  revert t. induction ds as [|d ds IH]; intros t k; [by left|]. cbn [foldl].
  assert (make_dir t d !! k = t !! k ∨ t !! k = None ∧ make_dir t d !! k = Some Directory ∧ k = d) as Hd.
  { unfold make_dir. destruct (t !! d) eqn:E; [by left|].
    destruct (decide (k = d)) as [->|Hne]; [right; by rewrite lookup_insert_eq|left; by rewrite lookup_insert_ne]. }
  destruct (IH (make_dir t d) k) as [->|(Hn & Hk & Hin)].
  - destruct Hd as [?|(? & ? & ->)]; [by left|right]. split_and!; [done|done|by left].
  - right. destruct Hd as [<-|(_ & Hd & _)]; [|congruence]. split_and!; [done|done|by right].
Qed.

(** What unpacking [a] may leave at a place: what was there, a new directory
    at or below [dest] or above it, or a file of the archive, which lies below
    [dest]. *)
Definition placed (Q : str → Prop) (dest : str) (a : Archive) (t t' : Tree) (k : str) : Prop :=
  t' !! k = t !! k ∨
  t !! k = None ∧ t' !! k = Some Directory ∧ (under dest k ∨ Q k) ∨
  ∃ relative c, Ok (Some (relative, Some c)) ∈ a ∧ k = normalize (path_join dest relative) ∧
    under dest k ∧ t' !! k = Some (Regular c).

(** Every file of the archive is where its path says, with its content, unless
    a later one takes its place. *)
Definition all_placed (dest : str) (a : Archive) (t' : Tree) : Prop :=
  ∀ before relative c after, a = before ++ Ok (Some (relative, Some c)) :: after →
    (∀ relative' c', Ok (Some (relative', Some c')) ∈ after →
       normalize (path_join dest relative') ≠ normalize (path_join dest relative)) →
    t' !! normalize (path_join dest relative) = Some (Regular c).

Lemma create_dir_all_placed Q dest a t p :
  (∀ k, components k `prefix_of` components (normalize p) → under dest k ∨ Q k) →
  ∀ k, placed Q dest a t (create_dir_all t p) k.
Proof.
  intros HQ k. destruct (make_dirs_only (ancestors (normalize p)) t k) as [?|(? & ? & Hin)]; [by left|].
  right. left. split_and!; [done|done|]. by apply HQ, ancestors_above.
Qed.

Lemma write_file_placed Q dest a t relative c k : Ok (Some (relative, Some c)) ∈ a →
  under dest (normalize (path_join dest relative)) →
  placed Q dest a t (write_file t (path_join dest relative) c) k.
Proof.
  intros Hin Hu. unfold write_file. destruct (decide (k = normalize (path_join dest relative))) as [->|Hne].
  - right. right. exists relative, c. by rewrite lookup_insert_eq.
  - left. by rewrite lookup_insert_ne.
Qed.

Lemma placed_trans Q dest a t1 t2 t3 k :
  placed Q dest a t1 t2 k → placed Q dest a t2 t3 k → placed Q dest a t1 t3 k.
Proof.
  intros H1 [E|[(Hn & Hd & HQ)|H2]]; [|right; left|by right; right].
  - destruct H1 as [E'|[(? & ? & ?)|(r & c & ? & ? & ? & ?)]];
      [left; congruence|right; left; by rewrite E|right; right; exists r, c; by rewrite E].
  - destruct H1 as [E'|[(? & ? & ?)|(r & c & _ & _ & _ & E)]]; [|congruence..]. split_and!; congruence || done.
Qed.

Lemma placed_more Q dest a a' t t' k : a ⊆ a' → placed Q dest a t t' k → placed Q dest a' t t' k.
Proof. intros Ha [?|[?|(r & c & ? & ?)]]; [by left|right; by left|right; right]. exists r, c. by split; [apply Ha|]. Qed.

(** Below or above [dest]. *)
Lemma beside_dest dest p : dest ≠ [] →
  components (normalize dest) `prefix_of` components (normalize p) ∨
  components (normalize p) `prefix_of` components (normalize dest) →
  ∀ k, components k `prefix_of` components (normalize p) → under dest k ∨ above dest k.
Proof.
  intros Hd [Hp|Hp] k Hk; [|right; unfold above; by etrans].
  destruct (prefix_weak_total _ _ _ Hp Hk) as [?|?]; [by left|by right].
Qed.

Lemma extract_entries_placed (Q : str → Prop) dest l t : dest ≠ [] → enclosed l → (∀ k, above dest k → Q k) →
  ∀ k, placed Q dest l t (extract_entries dest l t).1 k.
Proof.
  intros Hd Hl HQ. assert (∀ k, under dest k ∨ above dest k → under dest k ∨ Q k) as HQ' by naive_solver.
  revert t. induction l as [|e l IH]; intros t k; [by left|].
  assert (enclosed l) as Hl' by (intros r c' Hr; apply (Hl r c'); by right).
  specialize (IH Hl'). assert (∀ t t', placed Q dest l t t' k → placed Q dest (e :: l) t t' k) as Hmore
    by (intros; eapply placed_more; [|done]; intros x Hx; by right).
  destruct e as [[[rel c]|]|e]; cbn [extract_entries]; [|by apply Hmore|by left].
  pose proof (Hl rel c ltac:(by left)) as Hrel. pose proof (joined_under dest rel Hd Hrel) as Hu.
  destruct c as [c|].
  - set (t1 := match parent (path_join dest rel) with Some d => _ | None => t end).
    assert (placed Q dest (Ok (Some (rel, Some c)) :: l) t t1 k) as H1.
    { unfold t1. destruct (parent _) as [d|] eqn:Ep; [|by left]. apply create_dir_all_placed.
      intros k' Hk'. apply HQ'. eapply beside_dest; [done|by eapply joined_parent|done]. }
    destruct (is_dir t1 _); [done|]. eapply placed_trans; [exact H1|].
    eapply placed_trans; [|apply Hmore, IH]. apply write_file_placed; [by left|done].
  - eapply placed_trans; [|apply Hmore, IH]. apply create_dir_all_placed. intros k' Hk'.
    apply HQ'. eapply beside_dest; [done|by left|done].
Qed.

(** What is there stays there, but for what is written in its place. *)
Lemma extract_entries_stay dest l t k c : t !! k = Some (Regular c) →
  (∀ relative' c', Ok (Some (relative', Some c')) ∈ l → normalize (path_join dest relative') ≠ k) →
  (extract_entries dest l t).1 !! k = Some (Regular c).
Proof.
  revert t. induction l as [|e l IH]; intros t Hk Hl; [done|].
  assert (∀ ds, foldl make_dir t ds !! k = Some (Regular c)) as Hdirs.
  { intros ds. destruct (make_dirs_only ds t k) as [->|(? & _)]; [done|congruence]. }
  assert (∀ t, t !! k = Some (Regular c) → (extract_entries dest l t).1 !! k = Some (Regular c)) as IH'
    by (intros t' Ht'; apply IH; [done|]; intros r c' Hr; apply (Hl r c'); by right).
  destruct e as [[[rel [c'|]]|]|e]; cbn [extract_entries]; [|apply IH', Hdirs|by apply IH'|done].
  set (t1 := match parent _ with Some d => _ | None => t end).
  assert (t1 !! k = Some (Regular c)) as H1 by (unfold t1; destruct (parent _); [apply Hdirs|done]).
  destruct (is_dir t1 _); [done|]. apply IH'. unfold write_file.
  rewrite lookup_insert_ne; [done|]. apply (Hl rel c'). by left.
Qed.

Lemma extract_entries_all dest l t : is_ok (extract_entries dest l t).2 = true →
  all_placed dest l (extract_entries dest l t).1.
Proof.
  intros Hok before rel c after -> Hlater. revert t Hok. induction before as [|e before IH]; intros t.
  - cbn [app extract_entries]. destruct (is_dir _ _); [done|]. intros _.
    apply extract_entries_stay; [apply lookup_insert_eq|exact Hlater].
  - cbn [app extract_entries]. destruct e as [[[r [c'|]]|]|e]; [|apply IH|apply IH|done].
    destruct (is_dir _ _); [done|apply IH].
Qed.

(** The bytes that were had for a source: those of a file of this machine, or
    what the address answered, with the published checksum. *)
Definition vouched (t : Tree) (s : PluginSource) (bytes : str) : Prop :=
  let matches c := ascii_lower (sha256_hex bytes) = ascii_lower c in
  (∃ p, strip_prefix (lit "file://") (download_url s) = Some p ∧ read_file t p = Some bytes ∧
     ∀ c, checksum s = Some c → matches c) ∨
  (is_local s = false ∧ ∃ c status, checksum s = Some c ∧ download (download_url s) = Ok (status, bytes) ∧
     200 ≤ status < 300 ∧ matches c).

(** [t'] is [t] with these bytes unpacked in [dest], as far as it went. *)
Definition unpacked (root dest bytes : str) (ok : bool) (t t' : Tree) : Prop :=
  ∃ a, (unzip bytes = Ok a ∨ is_ok (unzip bytes) = false ∧ a = [] ∧ ok = false) ∧
    (∀ k, placed (λ k, above dest k ∨ above root k) dest a t t' k) ∧
    (ok = true → all_placed dest a t').

Lemma version_dir_not_nil root name version : root ≠ [] → version_dir root name version ≠ [].
Proof.
  assert (∀ p q, p ≠ [] → path_join p q ≠ []) as H.
  { intros p q Hp. unfold path_join, push. destruct (is_absolute q) eqn:E; [by intros ->|].
    intros [? _]%app_nil. done. }
  intros Hr. by apply H, H.
Qed.

Lemma verified bytes c : verify_checksum sha256_hex bytes c = Ok tt →
  ascii_lower (sha256_hex bytes) = ascii_lower c.
Proof.
  unfold verify_checksum. destruct (eq_ignore_ascii_case _ _) eqn:Eq; [|done].
  by apply bool_decide_eq_true in Eq.
Qed.

Lemma fetched_vouched t s bytes : bool_decide (checksum s = None) && negb (is_local s) = false →
  fetch_bytes download t (download_url s) = Ok bytes →
  from_option (verify_checksum sha256_hex bytes) (Ok tt) (checksum s) = Ok tt → vouched t s bytes.
Proof.
  intros Ec Ef Ev. assert (∀ c, checksum s = Some c → ascii_lower (sha256_hex bytes) = ascii_lower c) as Hc
    by (intros c Hc; rewrite Hc in Ev; by apply verified).
  unfold fetch_bytes in Ef. destruct (strip_prefix _ _) as [p|] eqn:Ep.
  - left. exists p. destruct (read_file t p) as [b|]; [|done]. injection Ef as ->. done.
  - right. assert (is_local s = false) as Hl by (unfold is_local, starts_with; rewrite Ep; by apply bool_decide_eq_false_2).
    split; [done|]. rewrite Hl, andb_true_r in Ec. apply bool_decide_eq_false in Ec.
    destruct (checksum s) as [c|]; [|done]. destruct (download _) as [[status body]|e]; [|done].
    case_bool_decide; [|done]. injection Ef as ->. exists c, status. auto.
Qed.

Lemma extract_zip_unpacked root dest bytes t t' r : dest ≠ [] → (∀ a, unzip bytes = Ok a → enclosed a) →
  extract_zip unzip bytes dest (create_dir_all t root) = (t', r) → unpacked root dest bytes (is_ok r) t t'.
Proof.
  intros Hd Henc. unfold extract_zip, unpacked.
  set (Q := λ k, above dest k ∨ above root k). assert (∀ a k, placed Q dest a t (create_dir_all t root) k) as Hroot.
  { intros a. apply create_dir_all_placed. intros k Hk. right. by right. }
  destruct (unzip bytes) as [a|e]; [|intros [= <- <-]; exists []; split_and!; [by right|apply Hroot|done]].
  intros E. exists a. specialize (Henc a eq_refl). split_and!; [by left| |].
  - intros k. eapply placed_trans; [apply Hroot|]. eapply placed_trans.
    + apply (create_dir_all_placed Q dest a _ dest). intros k' Hk'. right. by left.
    + change t' with (t', r).1. rewrite <-E. apply extract_entries_placed; [done|done|]. intros; by left.
  - intros Hok. change t' with (t', r).1. rewrite <-E. apply extract_entries_all. by rewrite E.
Qed.

Lemma install_from_source_guarded root name s t t' r : root ≠ [] → (∀ bytes a, unzip bytes = Ok a → enclosed a) →
  install_from_source sha256_hex unzip download root name s t = (t', r) →
  (t' = t ∧ is_ok r = false) ∨
  ∃ bytes, vouched t s bytes ∧ unpacked root (version_dir root name (version s)) bytes (is_ok r) t t'.
Proof.
  intros Hroot Henc. unfold install_from_source.
  destruct (bool_decide _ && _) eqn:Ec; [intros [= <- <-]; by left|].
  destruct (fetch_bytes download t (download_url s)) as [bytes|e] eqn:Ef; [|intros [= <- <-]; by left].
  destruct (from_option _ _ _) as [[]|e] eqn:Ev; [|intros [= <- <-]; by left].
  destruct (extract_zip unzip bytes _ _) as [t1 r1] eqn:Ex.
  intros [= <- <-]. right. exists bytes. split; [by eapply fetched_vouched|].
  apply extract_zip_unpacked in Ex; [|by apply version_dir_not_nil|apply Henc].
  by destruct r1 as [[]|e].
Qed.

(** C40. Installing by name touches the disk only for an entry of the registry
    with that very name, which is neither blocked nor the image of another,
    and with bytes that are those of the published checksum, or of a file of
    this machine - with its checksum, if one is published.  Then what differs
    afterwards, if every file operation succeeds, are new directories on the
    way to the version's directory or below it and, below it, files of the
    archive that these very bytes are; and when the installation succeeds,
    all of them are there. *)
Theorem installs_are_guarded table resolver root name requested t t' r :
  install sha256_hex unzip download table (Some resolver) root name requested t = (t', r) →
  t' ≠ t → root ≠ [] → (∀ bytes a, unzip bytes = Ok a → enclosed a) →
  ∃ index e bytes, fetch_index resolver = Ok index ∧ e ∈ index ∧ entry_name e = name ∧
    check_blocklist table name = None ∧
    check_homograph_name table name (entry_name <$> index) = None ∧
    vouched t (source_of e) bytes ∧
    unpacked root (version_dir root name (entry_version e)) bytes (is_ok r) t t'.
Proof.
  unfold install. intros E Hne Hroot Henc. destruct (check_name table name) as [u|err] eqn:En; [|by injection E as <- _].
  destruct (fetch_index resolver) as [index|err]; [|by injection E as <- _].
  destruct (check_homograph_name _ _ _) eqn:Eh; [by injection E as <- _|].
  destruct (list_find _ index) as [[i e]|] eqn:Ei; [|by injection E as <- _].
  apply list_find_Some in Ei as (He%list_elem_of_lookup_2 & [Hname _] & _).
  unfold install_source in E. rewrite En in E.
  destruct (is_cached _ _ _ _); [by injection E as <- _|].
  destruct (install_from_source _ _ _ _ _ _ _) as [t1 r1] eqn:Es. injection E as <- <-.
  apply install_from_source_guarded in Es as [[-> _]|(bytes & Hv & Hk)]; [done| |done|done].
  exists index, e, bytes. split_and!; try done; [|by destruct r1].
  unfold check_name in En. by destruct (check_blocklist table name).
Qed.
End Written.

(** A host that serves a registry never updates: [latest] is looked up as a
    version. *)
Theorem registry_updates_find_nothing {Version} (ver_le : Version → Version → Prop) `{!RelDecision ver_le}
    semver sha256_hex unzip download read_order index root name t :
  (∀ e, e ∈ index → entry_version e ≠ lit "latest") →
  update ver_le semver sha256_hex unzip download read_order (Some (RegistryResolver (Ok index))) root name t =
    (t, Err (not_found name (lit "latest"))).
Proof.
  intros Hindex. unfold update. cbn [resolve_source RegistryResolver result_bind].
  destruct (list_find _ index) as [[i e]|] eqn:E; [|done]. exfalso.
  apply list_find_Some in E as (He%list_elem_of_lookup_2 & [_ Hv] & _). by apply (Hindex e).
Qed.

(** ** What is removed *)

Lemma is_dir_spec t p : is_dir t p = true ↔ t !! normalize p = Some Directory.
Proof. unfold is_dir. repeat case_match; split; congruence. Qed.

Lemma is_dir_subseteq t t' p : t' ⊆ t → is_dir t' p = true → is_dir t p = true.
Proof. intros Ht. rewrite !is_dir_spec. intros H. by eapply lookup_weaken. Qed.

Lemma under_name dir v k : dir ≠ [] → name_ok v → under (path_join dir v) k → under dir k.
Proof.
  intros Hd Hv. unfold under. rewrite !components_normalize. intros H. etransitivity; [|exact H].
  apply push_stays_below; [done|by apply name_not_absolute|].
  rewrite components_name by done. by intros ?%list_elem_of_singleton.
Qed.

Section Removed.
Context {Version : Type} (ver_le : Version → Version → Prop) `{!RelDecision ver_le}.
Context (semver : str → option Version) (read_order : list str → list str).
Context (Horder : ∀ l, read_order l ≡ₚ l).

#[local] Notation list_versions := (list_versions ver_le semver read_order).
#[local] Notation remove_version := (remove_version read_order).

Lemma elem_of_read_dir t p l e : read_dir read_order t p = Some l →
  e ∈ l ↔ ∃ k f, t !! k = Some f ∧ parent k = Some (normalize p) ∧ file_name k = Some e.
Proof.
  unfold read_dir. destruct (is_dir t p); [|done]. intros [= <-]. rewrite Horder, list_elem_of_omap. split.
  - intros ([k f] & Hk%elem_of_map_to_list & He). cbn in He. case_decide; [|done]. eauto.
  - intros (k & f & Hk & Hp & He). exists (k, f). rewrite elem_of_map_to_list. split; [done|].
    cbn. by rewrite decide_True.
Qed.

Lemma elem_of_versions t root name v :
  v ∈ list_versions t root name ↔
  v ≠ lit "latest" ∧ is_dir t (path_join (path_join root name) v) = true ∧
  is_dir t (path_join root name) = true ∧
  ∃ k f, t !! k = Some f ∧ parent k = Some (normalize (path_join root name)) ∧ file_name k = Some v.
Proof.
  unfold PluginStore.list_versions. rewrite merge_sort_Permutation, !list_elem_of_filter.
  apply and_iff_compat_l, and_iff_compat_l.
  destruct (read_dir read_order t (path_join root name)) as [l|] eqn:E; cbn [default].
  - unfold id. rewrite (elem_of_read_dir _ _ _ _ E). unfold read_dir in E.
    destruct (is_dir t (path_join root name)); [|done]. tauto.
  - unfold read_dir in E. destruct (is_dir t (path_join root name)); [done|].
    split; [by intros ?%not_elem_of_nil|by intros [? _]].
Qed.

Lemma versions_subseteq t t' root name v : t' ⊆ t →
  v ∈ list_versions t' root name → v ∈ list_versions t root name.
Proof.
  intros Ht. rewrite !elem_of_versions. intros (Hl & Hv & Hd & k & f & Hk & Hp & Hf).
  split_and!; [done|by eapply is_dir_subseteq..|]. exists k, f. split_and!; [|done..].
  by eapply lookup_weaken.
Qed.

Lemma remove_version_subseteq t root name v : remove_version t root name v ⊆ t.
Proof.
  unfold PluginStore.remove_version.
  assert ((if is_dir t (version_dir root name v) then remove_dir_all t (version_dir root name v) else t) ⊆ t)
    as H by (destruct (is_dir t _); [apply map_filter_subseteq|done]).
  destruct (is_dir _ (path_join root name) && _); [|done]. etransitivity; [apply delete_subseteq|done].
Qed.

Lemma remove_version_keeps t root name v k f : root ≠ [] → name_ok v →
  t !! k = Some f → ¬ under (path_join root name) k → remove_version t root name v !! k = Some f.
Proof.
  intros Hr Hv Hk Hu. assert (path_join root name ≠ []) as Hn.
  { unfold path_join, push. destruct (is_absolute name) eqn:E; [by intros ->|].
    intros [? _]%app_nil. done. }
  assert ((if is_dir t (version_dir root name v) then remove_dir_all t (version_dir root name v) else t) !! k
          = Some f) as H.
  { destruct (is_dir t _); [|done]. apply map_lookup_filter_Some. split; [done|]. cbn. intros H.
    by apply Hu, (under_name _ v). }
  unfold PluginStore.remove_version. destruct (is_dir _ (path_join root name) && _); [|done].
  rewrite lookup_delete_ne; [done|]. intros <-. apply Hu, under_refl.
Qed.

Lemma remove_version_gone t root name v :
  is_dir (remove_version t root name v) (version_dir root name v) = false.
Proof.
  apply not_true_is_false. unfold PluginStore.remove_version. intros H.
  assert (is_dir (if is_dir t (version_dir root name v) then remove_dir_all t (version_dir root name v) else t)
            (version_dir root name v) = true) as H'.
  { eapply is_dir_subseteq; [|exact H]. destruct (is_dir _ (path_join root name) && _);
      [apply delete_subseteq|done]. }
  destruct (is_dir t (version_dir root name v)) eqn:E; [|by rewrite E in H'].
  apply is_dir_spec in H'. unfold remove_dir_all in H'. apply map_lookup_filter_Some in H' as [_ Hu].
  by apply Hu, under_refl.
Qed.

Lemma remove_versions t root name vs :
  foldl (λ t v, remove_version t root name v) t vs ⊆ t ∧
  ∀ v, v ∈ vs → is_dir (foldl (λ t v, remove_version t root name v) t vs) (version_dir root name v) = false.
Proof.
  revert t. induction vs as [|x vs IH]; intros t; cbn [foldl]; [by split; [|intros v ?%not_elem_of_nil]|].
  destruct (IH (remove_version t root name x)) as [H1 H2]. split.
  - etransitivity; [exact H1|apply remove_version_subseteq].
  - intros v [->|Hv]%elem_of_cons; [|by apply H2]. apply not_true_is_false. intros H.
    apply (is_dir_subseteq _ _ _ H1) in H. by rewrite remove_version_gone in H.
Qed.

Lemma version_name_ok t root name v : v ∈ list_versions t root name → name_ok v.
Proof.
  intros (_ & _ & _ & k & f & _ & _ & Hf)%elem_of_versions. unfold file_name in Hf.
  destruct (last (components k)) as [[]|] eqn:E; try done. injection Hf as ->.
  apply last_Some in E as [l E]. pose proof (components_names k) as H. rewrite Forall_forall in H.
  apply (H (Normal v)); [|done]. rewrite E. set_solver.
Qed.

Lemma remove_versions_keep t root name vs k f : root ≠ [] → Forall name_ok vs →
  t !! k = Some f → ¬ under (path_join root name) k →
  foldl (λ t v, remove_version t root name v) t vs !! k = Some f.
Proof.
  intros Hr Hvs. revert t. induction Hvs as [|v vs Hv _ IH]; intros t Hk Hu; [done|].
  cbn [foldl]. apply IH; [|done]. by apply remove_version_keeps.
Qed.

(** Uninstalling a plugin without naming a version leaves no version of it,
    and every file that is not below the plugin's directory as it was. *)
Theorem uninstall_removes_every_version root name t : root ≠ [] →
  let '(t', r) := uninstall ver_le semver read_order root name None t in
  list_versions t' root name = [] ∧ t' ⊆ t ∧
  keeps_outside (path_join root name) t t' ∧
  removed_count r = length (list_versions t root name).
Proof.
  intros Hr. unfold uninstall.
  destruct (remove_versions t root name (list_versions t root name)) as [H1 H2].
  split_and!; [|done| |done].
  - destruct (list_versions (foldl _ _ _) root name) as [|v l] eqn:E; [done|].
    exfalso. assert (v ∈ v :: l) as Hv by left. rewrite <-E in Hv.
    assert (v ∈ list_versions t root name) as Hv' by (by eapply versions_subseteq).
    apply elem_of_versions in Hv as (_ & Hd & _). specialize (H2 v Hv'). unfold version_dir in H2. congruence.
  - intros k Hu. destruct (t !! k) as [f|] eqn:Hk; [|by eapply lookup_weaken_None].
    apply remove_versions_keep; try done. apply Forall_forall. intros v. apply version_name_ok.
Qed.
End Removed.

(** ** What is found *)

Section Found.
Context {Version : Type} (ver_le : Version → Version → Prop) `{!RelDecision ver_le}
  `{!Transitive ver_le} `{!Total ver_le}.
Context (semver : str → option Version) (read_order : list str → list str).
Context (parse_manifest : str → result PluginManifest str).

#[local] Notation version_order := (version_order ver_le semver).
#[local] Notation list_versions := (list_versions ver_le semver read_order).
#[local] Notation tier := (load_installed_tier ver_le semver parse_manifest read_order).
#[local] Notation discover := (discover_plugins ver_le semver parse_manifest read_order).

#[local] Instance version_order_total : Total version_order.
Proof.
  intros a b. unfold PluginStore.version_order.
  destruct (semver a) as [x|], (semver b) as [y|]; [apply (total ver_le)|by left|by right|apply (total str_order)].
Qed.

#[local] Instance version_order_trans : Transitive version_order.
Proof.
  intros a b c. unfold PluginStore.version_order.
  destruct (semver a), (semver b), (semver c); try done; [|apply str_order_trans]. intros; by etrans.
Qed.

(** A plugin that was loaded is the newest version of its directory. *)
Definition newest_of (t : Tree) (cache : str) (p : Plugin) : Prop :=
  ∃ dir v, v ∈ list_versions t cache dir ∧ root p = path_join (path_join cache dir) v ∧
    validate (manifest p) = Ok tt ∧ ∀ v', v' ∈ list_versions t cache dir → version_order v v'.

Lemma load_installed_newest t cache dir p :
  load_installed ver_le semver parse_manifest read_order t cache dir = Some p → newest_of t cache p.
Proof.
  unfold load_installed. destruct (negb _ || _); [done|].
  destruct (list_versions t cache dir) as [|v vs] eqn:E; [done|]. cbn [head mbind option_bind].
  destruct (cached_manifest t cache dir v) as [m|]; [|done]. cbn [mbind option_bind].
  unfold load. destruct (read_file t m) as [raw|]; [|done]. destruct (parse_manifest raw) as [mf|]; [|done].
  destruct (validate mf) as [[]|] eqn:Hv; [|done]. cbn. intros [= <-].
  exists dir, v. split_and!; [rewrite E; by left|done|done|]. rewrite E.
  intros v' [->|Hv']%elem_of_cons; [by destruct (version_order_total v v)|].
  assert (StronglySorted version_order (v :: vs)) as Hs.
  { rewrite <-E. unfold PluginStore.list_versions. apply (StronglySorted_merge_sort _). }
  apply StronglySorted_inv in Hs as [_ Hs]. rewrite Forall_forall in Hs. by apply Hs.
Qed.

Lemma keep_last_lookup l m n :
  foldl keep_last m l !! n = match last (filter (λ p, name p = n) l) with Some p => Some p | None => m !! n end.
Proof.
  induction l as [|p l IH] using rev_ind; [done|].
  rewrite foldl_app, filter_app, filter_cons. cbn [foldl]. unfold keep_last at 1.
  destruct (decide (name p = n)) as [<-|Hn].
  - rewrite lookup_insert_eq, filter_nil, last_snoc. done.
  - rewrite lookup_insert_ne, IH, filter_nil, app_nil_r by done. done.
Qed.

Lemma elem_of_discover t g s p :
  p ∈ discover t g s ↔ last (filter (λ q, name q = name p) (tier t g ++ tier t s)) = Some p.
Proof.
  unfold discover_plugins. rewrite merge_sort_Permutation, list_elem_of_fmap. split.
  - intros ([n q] & -> & Hq%elem_of_map_to_list). cbn. rewrite keep_last_lookup, lookup_empty in Hq.
    destruct (last _) as [q'|] eqn:E; [|done]. injection Hq as ->.
    assert (name q = n) as <-; [|done]. apply last_Some in E as [l' E].
    assert (q ∈ filter (λ q, name q = n) (tier t g ++ tier t s)) as Hin by (rewrite E; set_solver).
    by apply list_elem_of_filter in Hin as [? _].
  - intros E. exists (name p, p). split; [done|]. apply elem_of_map_to_list.
    rewrite keep_last_lookup. by rewrite E.
Qed.

(** What a session finds of the installed plugins: one per name, the scene's
    before the global one; each is an accepted manifest from the newest
    version in its directory; and none that loads is left out but for
    another of its name. *)
Theorem newest_of_the_nearest_tier t g s :
  let found := discover t g s in
  NoDup (name <$> found) ∧
  (∀ p, p ∈ found →
    (p ∈ tier t s ∧ newest_of t (path_join s (lit "cache")) p) ∨
    (p ∈ tier t g ∧ newest_of t (path_join g (lit "cache")) p ∧ ∀ q, q ∈ tier t s → name q ≠ name p)) ∧
  ∀ q, q ∈ tier t g ++ tier t s → ∃ p, p ∈ found ∧ name p = name q.
Proof.
  intros found. split_and!.
  - unfold found, discover_plugins. set (m := foldl keep_last ∅ _).
    assert (∀ n p, m !! n = Some p → name p = n) as Hm.
    { intros n p. unfold m. rewrite keep_last_lookup, lookup_empty.
      destruct (last _) as [q|] eqn:E; [|done]. intros [= ->]. apply last_Some in E as [l' E].
      assert (p ∈ filter (λ q, name q = n) (tier t g ++ tier t s)) as Hin by (rewrite E; set_solver).
      by apply list_elem_of_filter in Hin as [? _]. }
    rewrite merge_sort_Permutation, <-list_fmap_compose.
    assert (name ∘ snd <$> map_to_list m = (map_to_list m).*1) as ->.
    { apply list_fmap_ext. intros i [n p] Hi. cbn. apply Hm, elem_of_map_to_list.
      by eapply list_elem_of_lookup_2. }
    apply NoDup_fst_map_to_list.
  - intros p Hp. apply elem_of_discover in Hp. rewrite filter_app in Hp.
    assert (∀ d, p ∈ filter (λ q, name q = name p) (tier t d) → p ∈ tier t d ∧ newest_of t (path_join d (lit "cache")) p)
      as Hload.
    { intros d [_ Hd]%list_elem_of_filter. split; [done|]. unfold load_installed_tier in Hd.
      apply list_elem_of_omap in Hd as (dir & _ & Hd). by eapply load_installed_newest. }
    destruct (filter (λ q, name q = name p) (tier t s)) as [|q l] eqn:Es.
    + right. rewrite app_nil_r in Hp. apply last_Some in Hp as [l' E].
      destruct (Hload g) as [H1 H2]; [rewrite E; set_solver|]. split_and!; [done..|].
      intros q Hq Hn. apply (not_elem_of_nil q). rewrite <-Es. by apply list_elem_of_filter.
    + left. rewrite last_app_cons in Hp. apply last_Some in Hp as [l' E].
      apply Hload. rewrite Es, E. set_solver.
  - intros q Hq. destruct (last (filter (λ p, name p = name q) (tier t g ++ tier t s))) as [p|] eqn:E.
    + assert (name p = name q) as Hn.
      { apply last_Some in E as [l' E']. assert (p ∈ filter (λ p, name p = name q) (tier t g ++ tier t s)) as Hin
          by (rewrite E'; set_solver). by apply list_elem_of_filter in Hin as [? _]. }
      exists p. split; [|done]. apply elem_of_discover. by rewrite Hn.
    + apply last_None in E. exfalso. apply (not_elem_of_nil q). rewrite <-E. by apply list_elem_of_filter.
Qed.
End Found.

(** ** Enabled plugins *)

Lemma read_file_create_dir_all t d p : read_file (create_dir_all t d) p = read_file t p.
Proof.
  unfold create_dir_all. generalize (ancestors (normalize d)) as ds. intros ds. revert t.
  induction ds as [|x ds IH]; intros t; [done|]. cbn [foldl]. rewrite IH. unfold read_file, make_dir.
  destruct (t !! x) eqn:E; [done|]. destruct (decide (x = normalize p)) as [->|].
  - by rewrite lookup_insert_eq, E.
  - by rewrite lookup_insert_ne.
Qed.

Section Settings.
Context (parse_enabled : str → option (gmap str bool)) (print_enabled : gmap str bool → str).
Context (Hparse : ∀ m, parse_enabled (print_enabled m) = Some m).

#[local] Notation load_enabled := (load_enabled parse_enabled).
#[local] Notation set_enabled := (set_enabled parse_enabled print_enabled).

Lemma load_set_same t d name b : load_enabled (set_enabled name b d t) d = <[name := b]> (load_enabled t d).
Proof.
  unfold PluginStore.load_enabled at 1, PluginStore.set_enabled, save_enabled, read_file, write_file.
  rewrite lookup_insert_eq. cbn [mbind option_bind]. by rewrite Hparse.
Qed.

Lemma load_set_other t d d' name b : normalize (enabled_path d) ≠ normalize (enabled_path d') →
  load_enabled (set_enabled name b d t) d' = load_enabled t d'.
Proof.
  intros Hne. unfold PluginStore.load_enabled at 1 2, PluginStore.set_enabled, save_enabled, write_file.
  f_equal. f_equal. unfold read_file at 1. rewrite lookup_insert_ne by done.
  destruct (parent _); [|done]. apply read_file_create_dir_all.
Qed.

(** A setting holds until it is changed: the scene's over the global one, and
    a plugin nobody set is enabled. *)
Theorem settings_of_the_scene_win t name b g s :
  normalize (enabled_path g) ≠ normalize (enabled_path s) →
  resolve_enabled parse_enabled (set_enabled name b s t) name g s = b ∧
  resolve_enabled parse_enabled (set_enabled name b g t) name g s =
    default b (get_enabled parse_enabled t s name) ∧
  ∀ n, n ≠ name →
    resolve_enabled parse_enabled (set_enabled name b g t) n g s = resolve_enabled parse_enabled t n g s.
Proof.
  intros Hne. unfold resolve_enabled, get_enabled. split_and!.
  - by rewrite load_set_same, lookup_insert_eq.
  - rewrite load_set_other, load_set_same, lookup_insert_eq by done. by destruct (load_enabled t s !! name).
  - intros n Hn. by rewrite load_set_other, load_set_same, lookup_insert_ne by done.
Qed.
End Settings.

(** ** Concrete runs *)

Section Samples.

Definition named_manifest (n : str) : PluginManifest :=
  Build_PluginManifest (Build_PluginMeta n (lit "1") (lit "0.1") [] [] [] (Build_ConfigSection None))
    [] [] [] (Build_SceneSection [] None) [].

(** Manifests that say only their name, numbers as versions, bytes that are
    their own hash, and archives of one file. *)
#[local] Notation sample_parse := (λ raw, Ok (named_manifest raw) : result PluginManifest str).
#[local] Notation sample_unzip := (λ b, Ok [Ok (Some (lit "plugin.toml", Some b))] : result Archive str).
#[local] Notation sample_download := (λ _, Ok (200, lit "notes") : result (nat * str) str).
#[local] Notation sample_order := (λ l : list str, l).

Definition sample_tree : Tree := list_to_map [
  (lit "/g/cache", Directory); (lit "/g/cache/notes", Directory);
  (lit "/g/cache/notes/9", Directory); (lit "/g/cache/notes/9/plugin.toml", Regular (lit "notes"));
  (lit "/g/cache/notes/10", Directory); (lit "/g/cache/notes/10/plugin.toml", Regular (lit "notes"));
  (lit "/g/cache/todo", Directory); (lit "/g/cache/todo/1", Directory);
  (lit "/g/cache/todo/1/plugin.toml", Regular (lit "todo"));
  (lit "/s/cache", Directory); (lit "/s/cache/notes", Directory);
  (lit "/s/cache/notes/2", Directory); (lit "/s/cache/notes/2/plugin.toml", Regular (lit "notes"))].

Definition sample_index : list RegistryEntry :=
  [Build_RegistryEntry (lit "notes") (lit "11") [] (lit "https://r.io/notes") (Some (lit "NOTES")) []].

Lemma installs_are_guarded_witness :
  let run := install (λ b, b) sample_unzip sample_download CONFUSABLE_MAP
               (Some (RegistryResolver (Ok sample_index))) (lit "/g/cache") (lit "notes") None sample_tree in
  is_ok run.2 = true ∧
  ∃ e bytes, e ∈ sample_index ∧ vouched (λ b, b) sample_download sample_tree (source_of e) bytes ∧
    unpacked sample_unzip (lit "/g/cache") (version_dir (lit "/g/cache") (lit "notes") (entry_version e)) bytes
      true sample_tree run.1.
Proof.
  intros run. assert (is_ok run.2 = true) as Hok by (vm_compute; reflexivity). split; [exact Hok|].
  destruct (installs_are_guarded (λ b, b) sample_unzip sample_download CONFUSABLE_MAP
    (RegistryResolver (Ok sample_index)) (lit "/g/cache") (lit "notes") None sample_tree run.1 run.2)
    as (index & e & bytes & Hi & He & _ & _ & _ & Hv & Hk).
  - apply surjective_pairing.
  - intros E. assert (run.1 !! lit "/g/cache/notes/11/plugin.toml" = None) as H
      by (rewrite E; vm_compute; reflexivity).
    vm_compute in H. discriminate H.
  - done.
  - intros bytes a [= <-] rel c Hin. apply list_elem_of_singleton in Hin as [= -> _]. vm_compute. reflexivity.
  - injection Hi as <-. exists e, bytes. rewrite Hok in Hk. split_and!; [exact He|exact Hv|exact Hk].
Defined.

Lemma registry_updates_find_nothing_witness :
  update le parse_u8 (λ b, b) sample_unzip sample_download sample_order
    (Some (RegistryResolver (Ok sample_index))) (lit "/g/cache") (lit "notes") sample_tree =
  (sample_tree, Err (not_found (lit "notes") (lit "latest"))).
Proof.
  apply registry_updates_find_nothing. intros e ->%list_elem_of_singleton. by_compute.
Defined.

Lemma uninstall_removes_every_version_witness :
  list_versions le parse_u8 sample_order sample_tree (lit "/g/cache") (lit "notes") = [lit "10"; lit "9"] ∧
  let '(t', r) := uninstall le parse_u8 sample_order (lit "/g/cache") (lit "notes") None sample_tree in
  list_versions le parse_u8 sample_order t' (lit "/g/cache") (lit "notes") = [] ∧ t' ⊆ sample_tree ∧
  keeps_outside (path_join (lit "/g/cache") (lit "notes")) sample_tree t' ∧ removed_count r = 2.
Proof.
  split; [vm_compute; reflexivity|].
  exact (uninstall_removes_every_version le parse_u8 sample_order (λ l, reflexivity l) (lit "/g/cache")
           (lit "notes") sample_tree ltac:(done)).
Defined.

Lemma newest_of_the_nearest_tier_witness :
  root <$> discover_plugins le parse_u8 sample_parse sample_order sample_tree (lit "/g") (lit "/s") =
    [lit "/s/cache/notes/2"; lit "/g/cache/todo/1"] ∧
  NoDup (name <$> discover_plugins le parse_u8 sample_parse sample_order sample_tree (lit "/g") (lit "/s")).
Proof.
  split; [vm_compute; reflexivity|].
  apply (newest_of_the_nearest_tier le parse_u8 sample_order sample_parse sample_tree (lit "/g") (lit "/s")).
Defined.

Lemma settings_of_the_scene_win_witness :
  resolve_enabled BitText.of_text (set_enabled BitText.of_text BitText.to_text (lit "notes") false (lit "/s") sample_tree)
    (lit "notes") (lit "/g") (lit "/s") = false.
Proof.
  destruct (settings_of_the_scene_win BitText.of_text BitText.to_text (λ m, BitText.of_to_text m)
    sample_tree (lit "notes") false (lit "/g") (lit "/s")) as [H _]; [by_compute|exact H].
Defined.

(** An archive that turns out damaged after its manifest leaves a version
    that counts as installed: trying again does nothing. *)
Example damaged_archive_counts_as_installed :
  let unzip (b : str) : result Archive str := Ok [Ok (Some (lit "plugin.toml", Some b)); Err (lit "bad crc")] in
  let s := source_of (Build_RegistryEntry (lit "notes") (lit "11") [] (lit "https://r.io/notes")
                        (Some (lit "NOTES")) []) in
  let first := install_source (λ b, b) unzip sample_download CONFUSABLE_MAP (lit "/g/cache") (lit "notes") s sample_tree in
  let again := install_source (λ b, b) unzip sample_download CONFUSABLE_MAP (lit "/g/cache") (lit "notes") s first.1 in
  is_ok first.2 = false ∧ (installed_count <$> result_ok again.2) = Some 0.
Proof. split; vm_compute; reflexivity. Qed.

(** A name is not checked to be one: [..] leads out of the cache. *)
Example names_lead_out_of_the_cache :
  let t := <[lit "/g/sessions" := Directory]> (<[lit "/g/sessions/log" := Regular (lit "x")]> sample_tree) in
  let t' := (uninstall le parse_u8 sample_order (lit "/g/cache") (lit "..") (Some (lit "sessions")) t).1 in
  t !! lit "/g/sessions/log" = Some (Regular (lit "x")) ∧ t' !! lit "/g/sessions/log" = None.
Proof. split; vm_compute; reflexivity. Qed.

(** Without a version the first entry of the registry is taken, not the
    latest. *)
Example latest_is_the_first_listed :
  let index := [Build_RegistryEntry (lit "notes") (lit "1") [] (lit "https://r.io/1") (Some (lit "NOTES")) [];
                Build_RegistryEntry (lit "notes") (lit "2") [] (lit "https://r.io/2") (Some (lit "NOTES")) []] in
  (install (λ b, b) sample_unzip sample_download CONFUSABLE_MAP (Some (RegistryResolver (Ok index)))
     (lit "/h/cache") (lit "notes") None ∅).1 !! lit "/h/cache/notes/1/plugin.toml" =
  Some (Regular (lit "notes")).
Proof. vm_compute. reflexivity. Qed.
End Samples.
