(* ===== verification/BashClassify.v ===== *)
(** * What the shell tool thinks of a command ([classify] and the checks of
      [BashTool] in [crates/tools/src/bash.rs]; [default_deny_read] of
      [core/src/interface/exec/sandbox.rs])

    A command the classifier takes for read-only, and whose path arguments
    stay in the project, runs without asking.  The module states what that
    verdict rests on, and which commands get it without deserving it.

    Characters outside ASCII: which of them are letters is a parameter. *)

From stdpp Require Import base option numbers strings list.
From S2P Require Import Prelude RustStr PermTypes Path PathRule Shell PathSafety RuleSet Gate.

Record CmdClassification := { read_only : bool; destructive : bool }.

#[export] Instance CmdClassification_eq_dec : EqDecision CmdClassification.
Proof. solve_decision. Defined.

(** ** The lists *)

Definition READ_ONLY_COMMANDS : list str := lit <$> [
  "ls"; "find"; "grep"; "rg"; "fgrep"; "egrep"; "fd"; "ag"; "ack"; "cat"; "head"; "tail"; "wc"; "echo";
  "printf"; "pwd"; "which"; "type"; "true"; "false"; "uname"; "hostname"; "date"; "whoami"; "id"; "ps";
  "df"; "du"; "stat"; "file"; "tree"; "tr"; "cut"; "sort"; "uniq"; "test"; "["; "realpath"; "basename";
  "dirname"; "free"; "uptime"; "groups"; "man"; "info"; "whatis"; "apropos"; "dig"; "ping"; "nslookup";
  "traceroute"; "netstat"; "ss"; "diff"; "cmp"; "comm"; "exa"; "eza"; "bat"; "nm"; "objdump"; "readelf";
  "strings"; "xxd"; "hexdump"; "od"; "sha256sum"; "shasum"; "md5"; "cksum"; "sum"; "lscpu"; "lshw";
  "lsblk"; "lspci"; "lsusb"; "system_profiler"; "sw_vers"; "cal"; "ncal"; "time"; "yes"; "seq"; "shuf";
  "namei"; "jq"; "yq"; "cd"; "pushd"; "popd"; "dirs"]%string.

Definition READ_ONLY_PREFIXES : list str := lit <$> [
  "git status"; "git log"; "git diff"; "git show"; "git rev-parse"; "git branch"; "git remote";
  "git ls-files"; "git config"; "git blame"; "git describe"; "git grep"; "git shortlog"; "git stash list";
  "git tag"; "git cherry"; "cargo check"; "cargo build"; "cargo metadata"; "cargo tree";
  "cargo --version"; "cargo version"; "rustc --version"; "node --version"; "pip list"; "pip show";
  "npm list"; "npm view"; "brew list"; "brew info"; "brew search"; "rustup show";
  "rustup toolchain list"; "docker ps"; "docker images"; "docker inspect"; "docker stats";
  "kubectl get"; "kubectl describe"; "kubectl logs"; "kubectl top"; "diskutil list"; "diskutil info";
  "sysctl -a"; "sysctl -n"]%string.

Definition DESTRUCTIVE_PREFIXES : list str := lit <$> [
  "rm"; "rmdir"; "mv"; "cp"; "sudo"; "su"; "chmod"; "chown"; "chgrp"; "dd"; "mkfs"; "mount"; "umount";
  "shred"; "shutdown"; "reboot"; "halt"; "git reset"; "git push"; "git clean"; "git rebase";
  "git checkout"; "kubectl delete"; "docker rm"; "docker rmi"; "docker system prune"; "npm publish";
  "npm uninstall"; "cargo publish"]%string.

Definition SAFE_WRAPPERS : list str := lit <$> ["timeout"; "time"; "nice"; "nohup"; "env"]%string.

Definition FIND_UNSAFE_PREDICATES : list str := lit <$> [
  "-exec"; "-execdir"; "-ok"; "-okdir"; "-delete"; "-fls"; "-fprint"; "-fprint0"; "-fprintf"]%string.

(** ** The whole text *)

(** [str::split(&str)]. *)
Fixpoint split_str_fuel (n : nat) (p s : str) : list str :=
  match n with
  | 0 => [s]
  | S n =>
      match find_sub p s with
      | Some l => l :: split_str_fuel n p (drop (length l + length p) s)
      | None => [s]
      end
  end.

Definition split_str (p s : str) : list str := split_str_fuel (length s) p s.

Definition space : char := 32%N.

(** What follows a [>]: a second one and blanks are passed over. *)
Definition redirect_target (s : str) : str :=
  drop_while (λ c, bool_decide (c = space)) (default s (strip_prefix (lit ">") s)).

Fixpoint has_file_redirect_fuel (n : nat) (s : str) : bool :=
  match n, s with
  | S n, c :: s =>
      if decide (c = ch ">") then
        match redirect_target s with
        | d :: s => if decide (d = ch "&") then has_file_redirect_fuel n s else true
        | [] => true
        end
      else has_file_redirect_fuel n s
  | _, _ => false
  end.

(** Each turn consumes a character. *)
Definition has_file_redirect (cmd : str) : bool := has_file_redirect_fuel (length cmd) cmd.

Definition has_shell_escape_hatch (cmd : str) : bool :=
  contains (lit "$(") cmd || contains_char (ch "`") cmd || contains (lit "<(") cmd || has_file_redirect cmd.

(** ** One command *)

Definition decimal (s : str) : N := foldl (λ n c, n * 10 + (c - 48))%N 0%N s.

Definition all_digits (s : str) : bool := forallb is_ascii_digit s.

Definition strip_sign (s : str) : str :=
  match s with c :: r => if decide (c = ch "+" ∨ c = ch "-") then r else s | [] => [] end.

(** The exponent of a decimal number, if the text is one. *)
Definition exponent (s : str) : option Z :=
  match s with
  | [] => Some 0%Z
  | c :: r =>
      if decide (c = ch "e" ∨ c = ch "E") then
        let d := strip_sign r in
        if bool_decide (d = []) || negb (all_digits d) then None
        else Some (if starts_with (lit "-") r then - Z.of_N (decimal d) else Z.of_N (decimal d))%Z
      else None
  end.

Fixpoint span_digits (s : str) : str * str :=
  match s with
  | [] => ([], [])
  | c :: s' => if is_ascii_digit c then let '(d, r) := span_digits s' in (c :: d, r) else ([], s)
  end.

Inductive F64 := Decimal (negative : bool) (mantissa : N) (exp : Z) | Infinite (negative : bool) | NotANumber.

(** [parse::<f64>], as far as its callers tell: which texts are numbers, and
    the decimal value. *)
Definition parse_f64 (s : str) : option F64 :=
  let negative := starts_with (lit "-") s in
  let body := strip_sign s in
  let l := to_lowercase body in
  if bool_decide (l = lit "inf" ∨ l = lit "infinity") then Some (Infinite negative)
  else if bool_decide (l = lit "nan") then Some NotANumber
  else
    let '(int, rest) := span_digits body in
    let '(frac, rest) := match strip_prefix (lit ".") rest with
                         | Some r => span_digits r
                         | None => ([], rest)
                         end in
    if bool_decide (int ++ frac = []) then None
    else
      e ← exponent rest;
      Some (Decimal negative (decimal (int ++ frac)) (e - Z.of_nat (length frac))%Z).

Section Classify.
Context {HE : HostEnv} (unicode_alphabetic : char → bool).

Definition is_alphabetic (c : char) : bool :=
  if (c <? 128)%N then is_ascii_alphabetic c else unicode_alphabetic c.

Definition is_flag (token : str) : bool := starts_with (lit "-") token.

Definition is_numeric (token : str) : bool :=
  bool_decide (is_Some (parse_f64 (reverse (drop_while is_alphabetic (reverse token))))).

(** The text from the first place where the first token that is neither a
    flag nor a number occurs. *)
Definition wrapped (rest : str) : str :=
  match list_find (λ t, is_flag t = false ∧ is_numeric t = false) (split_whitespace rest) with
  | Some (_, token) =>
      match find_sub token rest with
      | Some before => drop (length before) rest
      | None => []
      end
  | None => []
  end.

Fixpoint strip_wrapper (wrappers : list str) (trimmed : str) : str :=
  match wrappers with
  | [] => trimmed
  | w :: ws =>
      match strip_prefix w trimmed with
      | None => strip_wrapper ws trimmed
      | Some rest =>
          if match rest with c :: _ => negb (is_whitespace c) | [] => false end then strip_wrapper ws trimmed
          else
            let rest := trim_start rest in
            if bool_decide (rest = []) then trimmed else wrapped rest
      end
  end.

Definition strip_safe_wrappers (cmd : str) : str := strip_wrapper SAFE_WRAPPERS (trim cmd).

(** An assignment: an equals sign, and not in front. *)
Definition has_assignment (token : str) : bool :=
  match split_once (ch "=") token with Some (l, _) => negb (bool_decide (l = [])) | None => false end.

Definition first_command_token (cmd : str) : str :=
  match list_find (λ t, has_assignment t = false ∧ is_flag t = false) (split_whitespace cmd) with
  | Some (_, t) => t
  | None => default [] (head (split_whitespace cmd))
  end.

(** [default_deny_read]: nothing without a home directory. *)
Definition default_deny_read : list str :=
  match env_HOME with
  | None => []
  | Some home => path_join home <$> (lit <$>
      [".ssh"; ".aws"; ".gnupg"; ".docker/config.json"; ".kube"; ".azure"; ".config/gh"; ".netrc";
       ".npmrc"; ".pypirc"; ".gem/credentials"]%string)
  end.

(** [Path::strip_prefix], by components. *)
Fixpoint strip_comps (base cs : list Component) : option (list Component) :=
  match base, cs with
  | [], _ => Some cs
  | b :: base, c :: cs => if decide (b = c) then strip_comps base cs else None
  | _ :: _, [] => None
  end.

Definition denied_suffix (p : str) : list str :=
  let rel := default (components p) (home ← env_HOME; strip_comps (components home) (components p)) in
  to_lowercase ∘ as_os_str <$> rel.

Definition denied_read_suffixes : list (list str) :=
  filter (λ s, s ≠ []) (denied_suffix <$> default_deny_read).

(** Whether [w] is one of the windows of [l]. *)
Fixpoint has_window (w l : list str) : bool :=
  bool_decide (w `prefix_of` l) || match l with [] => false | _ :: l => has_window w l end.

Definition trim_quotes (s : str) : str :=
  let quote (c : char) := bool_decide (c = 34%N ∨ c = 39%N) in
  reverse (drop_while quote (reverse (drop_while quote s))).

Definition path_arg_hits_denied_read (token : str) : bool :=
  let cleaned := trim_quotes token in
  if bool_decide (cleaned = []) || is_flag cleaned then false
  else
    let comps := to_lowercase <$>
      filter (λ c, c ≠ [] ∧ c ≠ lit "." ∧ c ≠ lit ".." ∧ c ≠ lit "~") (split slash cleaned) in
    if bool_decide (comps = []) then false
    else existsb (λ suffix, has_window suffix comps) denied_read_suffixes.

Definition args_forfeit_read_only (cmd first : str) : bool :=
  (bool_decide (first = lit "find" ∨ first = lit "gfind") &&
   existsb (λ t, bool_decide (t ∈ FIND_UNSAFE_PREDICATES)) (split_whitespace cmd)) ||
  existsb path_arg_hits_denied_read (drop 1 (split_whitespace cmd)).

(** A listed prefix is the whole command or is followed by a space. *)
Definition has_read_only_prefix (trimmed : str) : bool :=
  existsb (λ p, match strip_prefix p trimmed with
                | Some [] => true
                | Some (c :: _) => bool_decide (c = space)
                | None => false
                end) READ_ONLY_PREFIXES.

Definition harmless : CmdClassification := Build_CmdClassification true false.
Definition unknown : CmdClassification := Build_CmdClassification false false.

Definition classify_single (cmd : str) : CmdClassification :=
  let trimmed := trim (strip_safe_wrappers cmd) in
  if bool_decide (trimmed = []) then harmless
  else
    let first := first_command_token trimmed in
    if bool_decide (first ∈ DESTRUCTIVE_PREFIXES) then Build_CmdClassification false true
    else if (bool_decide (first ∈ READ_ONLY_COMMANDS) || has_read_only_prefix trimmed) &&
            negb (args_forfeit_read_only trimmed first)
    then harmless else unknown.

(** ** A command line *)

(** The pieces that are judged one by one. *)
Definition segments (trimmed : str) : list str :=
  let has_quotes := contains_char 39%N trimmed || contains_char 34%N trimmed in
  if contains (lit "&&") trimmed then split_str (lit "&&") trimmed
  else if negb has_quotes && contains_char (ch ";") trimmed then split (ch ";") trimmed
  else if negb has_quotes && contains_char (ch "|") trimmed && negb (contains (lit "||") trimmed)
  then split (ch "|") trimmed
  else [trimmed].

Definition classify (cmd : str) : CmdClassification :=
  let trimmed := trim cmd in
  if bool_decide (trimmed = []) then harmless
  else
    let escape_hatch := has_shell_escape_hatch trimmed in
    match segments trimmed with
    | [_] =>
        let c := classify_single trimmed in
        Build_CmdClassification (read_only c && negb escape_hatch) (destructive c)
    | segs =>
        let cs := classify_single ∘ trim <$> segs in
        Build_CmdClassification (forallb read_only cs && negb escape_hatch) (existsb destructive cs)
    end.

(** ** The tool's checks *)

Definition DEFAULT_TIMEOUT_MS : Z := 120000.
Definition MAX_TIMEOUT_MS : Z := 600000.

Record BashInput := {
  command : str;
  timeout_ms : option Z;
  description : option str;
}.

(** A field that may be missing or null. *)
Definition optional {A} (read : value → option A) (k : str) (v : value) : option (option A) :=
  match value_get k v with
  | None | Some VNull => Some None
  | Some x => Some <$> read x
  end.

Definition as_u64 (v : value) : option Z :=
  match v with VNumber n => if bool_decide (0 ≤ n < 2 ^ 64)%Z then Some n else None | _ => None end.

(** What serde makes of the input. *)
Definition parse_input (v : value) : option BashInput :=
  c ← value_get (lit "command") v ≫= as_str;
  t ← optional as_u64 (lit "timeout_ms") v;
  d ← optional as_str (lit "description") v;
  Some (Build_BashInput c t d).

(** At least two seconds, after rounding to binary64: 2 or the half ulp
    below it. *)
Definition at_least_2 (f : F64) : bool :=
  match f with
  | Decimal false m e =>
      bool_decide ((2 ^ 54 - 1) * 10 ^ Z.max 0 (- e) ≤ Z.of_N m * 10 ^ Z.max 0 e * 2 ^ 53)%Z
  | Infinite false => true
  | _ => false
  end.

Definition is_long_sleep (cmd : str) : bool :=
  let trimmed := trim cmd in
  if starts_with (lit "sleep ") trimmed || starts_with (lit "sleep" ++ [9%N]) trimmed
  then from_option at_least_2 false (split_whitespace trimmed !! 1 ≫= parse_f64)
  else false.

(** The text of serde's error is left out. *)
Definition bash_validate_input (input : value) : ValidationResult :=
  if match value_get (lit "run_in_background") input with Some (VBool b) => b | _ => false end then
    ValidationErr (lit "run_in_background is not supported: Bash runs in the foreground. Use the Monitor tool for a long-running process") 5
  else
    match parse_input input with
    | Some p =>
        if bool_decide (trim (command p) = []) then ValidationErr (lit "command must not be empty") 1
        else if bool_decide (MAX_TIMEOUT_MS < default 0 (timeout_ms p))%Z
        then ValidationErr (lit "timeout_ms exceeds 600000 ms cap") 3
        else if is_long_sleep (command p)
        then ValidationErr (lit "sleep >= 2s is blocked — use the Monitor tool for polling, or sleep 1 if you must") 4
        else ValidationOk
    | None => ValidationErr (lit "invalid input") 2
    end.

Definition bash_is_read_only (input : value) : bool :=
  from_option (λ p, read_only (classify (command p))) false (parse_input input).

Definition bash_is_destructive (input : value) : bool :=
  from_option (λ p, destructive (classify (command p))) true (parse_input input).

Definition looks_like_path (arg : str) : bool :=
  starts_with (lit "/") arg || starts_with (lit "~") arg || contains_char slash arg ||
  bool_decide (arg = lit "..").

Section Paths.
Context (cwd : str) (additional_writable_dirs : list str).

(** The one of [tools/src/security.rs]: a path that is not there is put
    together from its parent's real path. *)
Definition canonicalize_best_effort (p : str) : str :=
  match canonicalize p with
  | Some real => real
  | None =>
      match parent p with
      | Some dir => path_join (default dir (canonicalize dir)) (default [] (file_name p))
      | None => p
      end
  end.

Definition path_argument (arg : str) : option str :=
  match split_once (ch "=") arg with
  | Some (flag, v) => if is_flag flag then Some v else if is_flag arg then None else Some arg
  | None => if is_flag arg then None else Some arg
  end.

Definition inside_roots (p : str) : bool :=
  existsb (λ root, path_starts_with p root ||
             path_starts_with (canonicalize_best_effort p) (canonicalize_best_effort root))
    (cwd :: additional_writable_dirs).

Definition argument_stays (arg : str) : bool :=
  if starts_with (lit "~") arg && negb (bool_decide (arg = lit "~")) && negb (starts_with (lit "~/") arg)
  then false
  else forallb inside_roots (all_paths (resolve_path arg cwd)).

Definition path_args_stay_within (line : str) : bool :=
  forallb argument_stays
    (filter (λ a, looks_like_path a = true)
       (omap path_argument (simple_commands line ≫= λ c, drop 1 (words c)))).

(** What the tool itself says of a call. *)
Definition bash_check_permissions (input : value) : ToolDecision :=
  if from_option (λ p, path_args_stay_within (command p)) false (parse_input input) && bash_is_read_only input
  then ToolAllow (Some (lit "read_only"))
  else ToolAsk (lit "Bash command requires confirmation") None.
End Paths.
End Classify.

(** ** The sandbox of a command *)

Record SandboxPolicy := {
  policy_allow_read : list str;
  policy_deny_read : list str;
  policy_network_mode : NetworkModeConfig;
  policy_allowed_domains : list str;
  known_scenes : list str;
  policy_state_root : option str;
  additional_writable : list str;
}.

(** An empty list of what must not be read is the default one. *)
Definition to_sandbox_policy {HE : HostEnv} (s : SandboxSettings) : SandboxPolicy := {|
  policy_allow_read := allow_read s;
  policy_deny_read := if bool_decide (deny_read s = []) then default_deny_read else deny_read s;
  policy_network_mode := network_mode s;
  policy_allowed_domains := allowed_domains s;
  known_scenes := [];
  policy_state_root := state_root s;
  additional_writable := []
|}.

(** ** What the verdict rests on *)

(** What a redirection's target leaves out: at most one more [>], then blanks. *)
Lemma redirect_target_inv s d r : redirect_target s = d :: r →
  ∃ sp, Forall (λ c, c = space) sp ∧ (s = sp ++ d :: r ∨ s = ch ">" :: sp ++ d :: r).
Proof.
  unfold redirect_target. intros E.
  destruct (drop_while_suffix (λ c, bool_decide (c = space)) (default s (strip_prefix (lit ">") s)))
    as (sp & Hsp & Hblank). rewrite E in Hsp. exists sp. split.
  - eapply Forall_impl; [exact Hblank|]. by intros c Hc%bool_decide_eq_true.
  - destruct (strip_prefix (lit ">") s) as [s'|] eqn:Es; cbn [default] in Hsp; [|by left].
    apply strip_prefix_Some in Es as ->. right. unfold id in Hsp. by rewrite Hsp.
Qed.

Lemma redirect_target_blanks sp d r : Forall (λ c, c = space) sp → d ≠ space → d ≠ ch ">" →
  redirect_target (sp ++ d :: r) = d :: r.
Proof.
  intros Hsp Hd Hgt. unfold redirect_target.
  assert (strip_prefix (lit ">") (sp ++ d :: r) = None) as ->.
  { destruct (strip_prefix _ _) as [s'|] eqn:E; [|done]. apply strip_prefix_Some in E.
    destruct Hsp as [|c sp ->]; cbn in E; injection E as E _; by destruct Hgt. }
  cbn [default]. rewrite drop_while_app.
  - apply drop_while_id. intros c [= <-]. by apply bool_decide_eq_false.
  - eapply Forall_impl; [exact Hsp|]. intros c ->. done.
Qed.

(** A mark that is not in the part in front is behind it. *)
Lemma mark_behind (x : char) pre l r s : Forall (λ c, c ≠ x) pre → pre ++ s = l ++ x :: r →
  ∃ k, s = k ++ x :: r.
Proof.
  intros Hpre. revert l. induction Hpre as [|c pre Hc _ IH]; intros l E; [by exists l|].
  destruct l as [|c' l]; injection E as -> E; [done|]. by apply (IH l).
Qed.

(** Text without a file redirection has every [>] aimed at a descriptor. *)
Lemma no_file_redirect n s : has_file_redirect_fuel n s = false → length s ≤ n →
  ∀ l r, s = l ++ ch ">" :: r → head (redirect_target r) = Some (ch "&").
Proof.
  revert s. induction n as [|n IH]; intros s H Hn l r ->; [rewrite length_app in Hn; cbn in Hn; lia|].
  destruct l as [|c l].
  - cbn [app has_file_redirect_fuel] in H. rewrite decide_True in H by done.
    destruct (redirect_target r) as [|d s'] eqn:E; [done|]. case_decide; [by subst|done].
  - cbn [app has_file_redirect_fuel] in H. cbn [app length] in Hn. case_decide as Hc.
    + destruct (redirect_target (l ++ ch ">" :: r)) as [|d s'] eqn:E; [done|].
      case_decide as Hd; [|done]. subst c d.
      destruct (redirect_target_inv _ _ _ E) as (sp & Hsp & Eb).
      assert (∀ l', sp ++ ch "&" :: s' = l' ++ ch ">" :: r → length s' ≤ n →
                head (redirect_target r) = Some (ch "&")) as Hbehind.
      { intros l' E' Hs'. rewrite (cons_middle _ sp s'), app_assoc in E'.
        apply mark_behind in E' as [k ->].
        - by apply (IH (k ++ ch ">" :: r) H Hs' k).
        - apply Forall_app. split; [|by repeat constructor].
          eapply Forall_impl; [exact Hsp|]. by intros c ->. }
      assert (length s' ≤ n) as Hs'.
      { destruct Eb as [Eb|Eb]; rewrite Eb in Hn; cbn [length] in Hn; rewrite length_app in Hn;
          cbn [length] in Hn; lia. }
      destruct Eb as [Eb|Eb]; [by apply (Hbehind l)|].
      destruct l as [|x l]; injection Eb as; [|subst; by apply (Hbehind l)].
      subst r. by rewrite redirect_target_blanks.
    + apply (IH _ H) with (l := l); [lia|done].
Qed.

Section Vetted.
Context {HE : HostEnv} (unicode_alphabetic : char → bool).

Lemma split_str_long p s : contains p s = true → s ≠ [] → ∃ a b l, split_str p s = a :: b :: l.
Proof.
  unfold contains, split_str. intros H%bool_decide_eq_true Hs.
  destruct s as [|c s]; [done|]. cbn [length split_str_fuel].
  destruct (find_sub p (c :: s)) as [l|]; [|by destruct H].
  destruct (split_str_fuel (length s) p (drop (length l + length p) (c :: s))) as [|b l'] eqn:E; [|eauto].
  destruct (length s); cbn in E; [done|]. by destruct (find_sub _ _).
Qed.

Lemma split_long c s : contains_char c s = true → ∃ a b l, split c s = a :: b :: l.
Proof.
  unfold contains_char. intros (l & r & ->)%bool_decide_eq_true%list_elem_of_split.
  rewrite split_snoc. pose proof (split_not_nil c l). pose proof (split_not_nil c r).
  destruct (split c l) as [|a [|b k]], (split c r); cbn; try done; eauto.
Qed.

Lemma segments_single t x : t ≠ [] → segments t = [x] → x = t.
Proof.
  intros Ht. unfold segments. destruct (contains (lit "&&") t) eqn:E1.
  { destruct (split_str_long _ _ E1 Ht) as (a & b & l & ->). done. }
  destruct (negb _ && contains_char (ch ";") t) eqn:E2.
  { apply andb_true_iff in E2 as [_ E2]. destruct (split_long _ _ E2) as (a & b & l & ->). done. }
  destruct (negb _ && contains_char (ch "|") t && _) eqn:E3; [|by intros [= <-]].
  apply andb_true_iff in E3 as [E3 _]. apply andb_true_iff in E3 as [_ E3].
  destruct (split_long _ _ E3) as (a & b & l & ->). done.
Qed.

(** When one command counts as read-only. *)
Definition vetted (seg : str) : Prop :=
  let one := trim (strip_safe_wrappers unicode_alphabetic (trim seg)) in
  let first := first_command_token one in
  one = [] ∨
  first ∉ DESTRUCTIVE_PREFIXES ∧
  (first ∈ READ_ONLY_COMMANDS ∨ has_read_only_prefix one = true) ∧
  (first = lit "find" → ∀ t, t ∈ split_whitespace one → t ∉ FIND_UNSAFE_PREDICATES) ∧
  ∀ t, t ∈ drop 1 (split_whitespace one) → path_arg_hits_denied_read t = false.

Lemma classify_single_vetted seg : read_only (classify_single unicode_alphabetic (trim seg)) = true → vetted seg.
Proof.
  unfold classify_single, vetted. set (one := trim (strip_safe_wrappers unicode_alphabetic (trim seg))).
  set (first := first_command_token one). case_bool_decide as H1; [by left|].
  case_bool_decide as H2; [done|]. destruct (_ && negb _) eqn:E; [|done]. intros _. right.
  apply andb_true_iff in E as [E1 E2]. apply negb_true_iff in E2. unfold args_forfeit_read_only in E2.
  apply orb_false_iff in E2 as [E2 E3]. rewrite existsb_false_elem_of in E3.
  split_and!; [done| |intros Hf t Ht|done].
  - apply orb_true_iff in E1 as [E1|E1]; [left; by apply bool_decide_eq_true in E1|by right].
  - rewrite bool_decide_eq_true_2 in E2 by (by left). cbn [andb] in E2.
    rewrite existsb_false_elem_of in E2. specialize (E2 _ Ht). by apply bool_decide_eq_false in E2.
Qed.

Lemma classify_vetted cmd : read_only (classify unicode_alphabetic cmd) = true →
  trim cmd = [] ∨
  has_shell_escape_hatch (trim cmd) = false ∧ ∀ seg, seg ∈ segments (trim cmd) → vetted seg.
Proof.
  unfold classify. case_bool_decide as Ht; [by left|]. intros H. right.
  destruct (segments (trim cmd)) as [|x [|y l]] eqn:E.
  - cbn in H. apply negb_true_iff in H. split; [done|]. by intros seg ?%not_elem_of_nil.
  - pose proof (segments_single _ _ Ht E) as ->. cbn [read_only] in H.
    apply andb_true_iff in H as [H He%negb_true_iff]. split; [done|].
    intros seg ->%list_elem_of_singleton. apply classify_single_vetted. by rewrite trim_idemp.
  - cbn [read_only] in H. apply andb_true_iff in H as [H He%negb_true_iff]. split; [done|].
    rewrite forallb_elem_of in H. intros seg Hseg. apply classify_single_vetted. apply H.
    apply (list_elem_of_fmap_2 (classify_single unicode_alphabetic ∘ trim)). exact Hseg.
Qed.

(** C24. A shell command that runs without asking, unless it is empty: it
    substitutes no command, and every [>] in it is followed by [&], which
    rewires a descriptor or, before a name, still writes a file; each of the
    pieces the classifier splits it into, with wrappers and assignments taken
    off and if anything is left, is by its first word a listed command and
    not a destructive one, a [find] among them without its acting predicates,
    and none of its further words names one of the places of credentials,
    which are none without a home directory; and every argument of every
    command of the line that looks like a path stays in the project. *)
Theorem unasked_commands_are_vetted cwd dirs input r :
  bash_check_permissions unicode_alphabetic cwd dirs input = ToolAllow r →
  ∃ p, parse_input input = Some p ∧
    (trim (command p) = [] ∨
     contains (lit "$(") (trim (command p)) = false ∧ ch "`" ∉ trim (command p) ∧
     contains (lit "<(") (trim (command p)) = false ∧
     (∀ l s, trim (command p) = l ++ ch ">" :: s → head (redirect_target s) = Some (ch "&")) ∧
     ∀ seg, seg ∈ segments (trim (command p)) → vetted seg) ∧
    ∀ c w a, c ∈ simple_commands (command p) → w ∈ drop 1 (words c) → path_argument w = Some a →
      looks_like_path a = true → argument_stays cwd dirs a = true.
Proof.
  unfold bash_check_permissions, bash_is_read_only. destruct (parse_input input) as [p|] eqn:Hp; [|done].
  cbn [from_option]. destruct (_ && _) eqn:E; [|done]. intros _. exists p. split; [done|].
  apply andb_true_iff in E as [Hpaths Hro]. split.
  - destruct (classify_vetted _ Hro) as [|[He Hseg]]; [by left|right].
    unfold has_shell_escape_hatch in He. rewrite !orb_false_iff in He. destruct He as [[[H1 H2] H3] H4].
    split_and!; try done.
    + by apply bool_decide_eq_false in H2.
    + intros l s. by apply (no_file_redirect _ _ H4).
  - unfold path_args_stay_within in Hpaths. rewrite forallb_elem_of in Hpaths.
    intros c w a Hc Hw Ha Hl. apply Hpaths. apply list_elem_of_filter. split; [done|].
    apply list_elem_of_omap. exists w. split; [|done]. apply list_elem_of_bind. eauto.
Qed.
End Vetted.

(** ** Commands that nobody looks at *)

(** Letters, digits, blanks and dashes: no path, no credential. *)
Definition quiet (c : char) : bool :=
  is_ascii_alphanumeric c || bool_decide (c ∈ [space; ch "-"; ch "_"]).

Definition quiet_text (s : str) : Prop := Forall (λ c, quiet c = true) s.

(** The texts of a command are made of its characters. *)
Section Chars.
Context (P : char → Prop).

Lemma words_chars q w b s : Forall P w → Forall P s → Forall (Forall P) (words_loop q w b s).
Proof.
  assert (∀ n q w b s, length s < n → Forall P w → Forall P s → Forall (Forall P) (words_loop q w b s)) as H;
    [|intros; eapply H; eauto].
  clear. intros n. induction n as [|n IH]; intros q w b s Hn Hw Hs; [lia|].
  assert (∀ x, P x → Forall P (w ++ [x])) as Hsnoc by (intros x Hx; apply Forall_app; auto).
  destruct s as [|c s]; cbn [words_loop]; [destruct b; auto|]. apply Forall_cons in Hs as [Hc Hs].
  cbn [length] in Hn.
  destruct q; repeat case_decide; try (by apply IH; [lia|auto..]).
  - destruct s as [|d s]; [auto|]. apply Forall_cons in Hs as [Hd Hs]. apply IH; auto. cbn in Hn. lia.
  - destruct (is_whitespace c); [destruct b; [constructor; [done|]|]|]; apply IH; auto; lia.
  - destruct s as [|d s]; [destruct b; auto|]. apply Forall_cons in Hs as [Hd Hs]. apply IH; auto. cbn in Hn. lia.
Qed.

Lemma Forall_suffix l s : Forall P (l ++ s) → Forall P s.
Proof. by intros [_ ?]%Forall_app. Qed.

Lemma drop_while_chars p s : Forall P s → Forall P (drop_while p s).
Proof. destruct (drop_while_suffix p s) as (l & E & _). intros H. rewrite E in H. by eapply Forall_suffix. Qed.

Lemma trim_chars s : Forall P s → Forall P (trim s).
Proof. intros H. unfold trim, trim_end, trim_start. by apply Forall_reverse, drop_while_chars, Forall_reverse, drop_while_chars. Qed.

Lemma split_whitespace_chars s w : Forall P s → w ∈ split_whitespace s → Forall P w.
Proof.
  intros Hs [_ Hw]%list_elem_of_filter. pose proof (split_pred_all is_whitespace P s Hs) as H.
  rewrite Forall_forall in H. by apply H.
Qed.

Lemma first_word_text n : ∀ q s w tl, length s < n → first_word q s = (w, tl) → s = w ++ tl.
Proof.
  induction n as [|n IH]; intros q s w tl Hn E; [lia|].
  destruct s as [|c s]; cbn [first_word] in E; [by injection E as <- <-|]. cbn [length] in Hn.
  assert (∀ q s' w tl (pre : str), length s' < n →
    (let '(w0, r) := first_word q s' in (pre ++ w0, r)) = (w, tl) → pre ++ s' = w ++ tl) as Hstep.
  { intros q' s' w' tl' pre Hl Hw. destruct (first_word q' s') as [w0 r] eqn:Ew. injection Hw as <- <-.
    by rewrite <-app_assoc, <-(IH _ _ _ _ Hl Ew). }
  destruct q.
  - case_decide; [by apply (Hstep InSingle s w tl [c]); [lia|]|].
    case_decide; [by apply (Hstep InDouble s w tl [c]); [lia|]|].
    case_decide.
    { destruct s as [|d s]; [by injection E as <- <-|]. cbn in Hn. by apply (Hstep Outside s w tl [c; d]); [lia|]. }
    destruct (is_ascii_whitespace c); [by injection E as <- <-|]. by apply (Hstep Outside s w tl [c]); [lia|].
  - by apply (Hstep (if decide (c = c_squote) then Outside else InSingle) s w tl [c]); [lia|].
  - case_decide; [by apply (Hstep Outside s w tl [c]); [lia|]|].
    case_decide; [|by apply (Hstep InDouble s w tl [c]); [lia|]].
    destruct s as [|d s]; [by injection E as <- <-|]. cbn in Hn. by apply (Hstep InDouble s w tl [c; d]); [lia|].
Qed.

Lemma strip_leading_chars n rest w : Forall P rest → Forall P (strip_leading n rest w).1.
Proof.
  revert rest w. induction n as [|n IH]; intros rest w Hr; cbn [strip_leading];
    assert (Forall P (trim_start (trim_start_matches [c_open; ch "{"] rest))) as Hr'
      by (unfold trim_start, trim_start_matches; by apply drop_while_chars, drop_while_chars); [done|].
  destruct (first_word Outside _) as [first tl] eqn:E.
  apply (first_word_text _ _ _ _ _ (Nat.lt_succ_diag_r _)) in E. rewrite E in Hr'.
  assert (Forall P (trim_start tl)) as Htl by (apply drop_while_chars; by eapply Forall_suffix).
  rewrite E. repeat case_decide; [done|by apply IH..|]. case_match; [by apply IH|done].
Qed.

Lemma strip_leading_wrapper n rest w : (∀ v, w = Some v → v ∈ WRAPPERS) →
  ∀ v, (strip_leading n rest w).2 = Some v → v ∈ WRAPPERS.
Proof.
  destruct (strip_leading n rest w) as [r w'] eqn:E. intros Hw.
  by destruct (strip_leading_clean _ _ _ _ _ E Hw).
Qed.

(** What the scanner makes of plain text, in words. *)
Lemma plain_words a c w : plain a → Forall P a → Forall (Forall P) WRAPPERS →
  c ∈ simple_commands a → w ∈ words c → Forall P w.
Proof.
  intros Ha HP HW Hc Hw. assert (Forall P c) as HPc.
  { rewrite simple_commands_plain in Hc by done. unfold push_command in Hc.
    pose proof (strip_leading_chars (length a) (trim a) None (trim_chars _ HP)) as Hr.
    pose proof (strip_leading_wrapper (length a) (trim a) None ltac:(done)) as Hv.
    destruct (strip_leading (length a) (trim a) None) as [rest wr]. cbn [fst snd] in Hr, Hv.
    case_decide; [by apply not_elem_of_nil in Hc|]. case_decide.
    - destruct wr as [v|]; [|by apply not_elem_of_nil in Hc].
      apply list_elem_of_singleton in Hc as ->. rewrite Forall_forall in HW. apply HW. by apply Hv.
    - apply list_elem_of_singleton in Hc as ->. unfold strip_trailing. apply Forall_reverse.
      destruct (strip_trailing_rev_suffix (reverse rest)) as [l El]. apply (Forall_suffix l).
      rewrite <-El. by apply Forall_reverse. }
  pose proof (words_chars Outside [] false c (Forall_nil_2 _) HPc) as H.
  rewrite Forall_forall in H. by apply H.
Qed.
End Chars.

Section Unseen.
Context {HE : HostEnv} (unicode_alphabetic : char → bool).

Lemma quiet_absent x s : quiet_text s → quiet x = false → x ∉ s.
Proof. intros Hs Hx Hin. unfold quiet_text in Hs. rewrite Forall_forall in Hs. specialize (Hs _ Hin). congruence. Qed.

Lemma quiet_plain s : quiet_text s → plain s.
Proof.
  intros Hs. apply Forall_forall. intros c Hc Hx. revert Hc. apply quiet_absent; [done|].
  assert (forallb (λ c, negb (quiet c)) special_chars = true) as H by (vm_compute; reflexivity).
  rewrite forallb_elem_of in H. by apply negb_true_iff, H.
Qed.

(** Every credential path has a name with a dot. *)
Lemma denied_suffixes_have_dots suffix : suffix ∈ denied_read_suffixes →
  ∃ x l, suffix = x :: l ∧ ch "." ∈ x.
Proof.
  unfold denied_read_suffixes, default_deny_read. intros [Hne H]%list_elem_of_filter.
  destruct env_HOME as [home|] eqn:Eh; [|by apply not_elem_of_nil in H].
  apply list_elem_of_fmap in H as (p & -> & H). apply list_elem_of_fmap in H as (q & -> & Hq).
  assert (denied_suffix (path_join home q) = to_lowercase ∘ as_os_str <$> components q) as ->.
  { unfold denied_suffix. rewrite Eh. cbn [mbind option_bind].
    assert (is_absolute q = false ∧ comp_prefix q = []) as [Ha Hp].
    { assert (Forall (λ q, is_absolute q = false ∧ comp_prefix q = []) (lit <$>
        [".ssh"; ".aws"; ".gnupg"; ".docker/config.json"; ".kube"; ".azure"; ".config/gh"; ".netrc";
         ".npmrc"; ".pypirc"; ".gem/credentials"]%string)) as HF by (repeat constructor; vm_compute; done).
      rewrite Forall_forall in HF. by apply HF. }
    f_equal. destruct (decide (home = [])) as [->|Hhome].
    - assert (path_join [] q = q) as -> by (unfold path_join, push; by rewrite Ha). done.
    - unfold path_join. rewrite components_push_rel by done. rewrite (components_pieces q), Hp, app_nil_l.
      assert (∀ cs ds, strip_comps cs (cs ++ ds) = Some ds) as Hs.
      { intros cs ds. induction cs as [|c cs IH]; [done|]. cbn. by rewrite decide_True. }
      by rewrite Hs. }
  assert (Forall (λ q, ∃ x l, to_lowercase ∘ as_os_str <$> components q = x :: l ∧ ch "." ∈ x) (lit <$>
    [".ssh"; ".aws"; ".gnupg"; ".docker/config.json"; ".kube"; ".azure"; ".config/gh"; ".netrc";
     ".npmrc"; ".pypirc"; ".gem/credentials"]%string)) as HF.
  { repeat constructor; (eexists _, _; split; [vm_compute; reflexivity|left]). }
  rewrite Forall_forall in HF. by apply HF.
Qed.

Lemma dot_lowercase s : ch "." ∈ to_lowercase s → ch "." ∈ s.
Proof.
  intros Hin. unfold to_lowercase in Hin. apply list_elem_of_bind in Hin as (c & Hc & Hin).
  unfold char_to_lowercase in Hc.
  repeat case_match; simplify_eq; rewrite ?elem_of_cons, ?elem_of_nil in Hc; try by destruct Hc as [Hc|[]]; simplify_eq.
  destruct Hc as [Hc|[]]. unfold is_ascii_uppercase in *. bool_simpl. change (ch ".") with 46%N in Hc. lia.
Qed.

Lemma dotless_words_pass w : ch "." ∉ w → slash ∉ w → path_arg_hits_denied_read w = false.
Proof.
  intros Hdot Hslash. unfold path_arg_hits_denied_read. set (cleaned := trim_quotes w).
  assert (∀ x, x ∉ w → x ∉ cleaned) as Hc.
  { intros x Hx. assert (Forall (λ c, c ≠ x) cleaned) as H.
    - unfold cleaned, trim_quotes. apply Forall_reverse, drop_while_chars, Forall_reverse, drop_while_chars.
      apply Forall_forall. by intros c Hc ->.
    - intros Hin. rewrite Forall_forall in H. by apply (H x). }
  destruct (_ || is_flag cleaned); [done|]. rewrite split_no_sep by auto.
  case_bool_decide; [done|]. apply existsb_false_elem_of. intros suffix Hs.
  destruct (denied_suffixes_have_dots _ Hs) as (x & l & -> & Hx).
  rewrite filter_cons. case_decide; [|done]. rewrite filter_nil. cbn [fmap list_fmap has_window].
  rewrite !bool_decide_eq_false_2; [done|..].
  - by intros ?%prefix_nil_inv.
  - intros [k Hk]. injection Hk as Hk _. subst x. apply dot_lowercase in Hx. by apply (Hc (ch ".")).
Qed.

Lemma quiet_args_stay cwd dirs a s : plain a → quiet_text a → quiet_text s →
  path_args_stay_within cwd dirs (a ++ lit "& " ++ s) = true.
Proof.
  intros Hp Ha Hs. unfold path_args_stay_within. apply forallb_elem_of. intros arg Harg. exfalso.
  apply list_elem_of_filter in Harg as [Hl Harg]. apply list_elem_of_omap in Harg as (w & Hw & Harg).
  apply list_elem_of_bind in Hw as (c & Hw & Hc).
  assert (w ∈ words c) as Hw' by (rewrite <-(take_drop 1 (words c)); apply elem_of_app; by right).
  clear Hw. rename Hw' into Hw.
  change (a ++ lit "& " ++ s) with (a ++ [ch "&"] ++ (space :: s)) in Hc.
  rewrite separators_separate in Hc by (done || by_compute).
  assert (quiet_text (space :: s)) as Hs' by (constructor; [done|done]).
  assert (Forall quiet_text WRAPPERS) as HW.
  { assert (forallb (forallb quiet) WRAPPERS = true) as H by (vm_compute; reflexivity).
    apply Forall_forall. intros x Hx. rewrite forallb_elem_of in H. specialize (H _ Hx).
    apply Forall_forall. by rewrite forallb_elem_of in H. }
  assert (quiet_text w) as Hqw.
  { apply elem_of_app in Hc as [Hc|Hc].
    - by apply (plain_words (λ c, quiet c = true) a c).
    - apply (plain_words (λ c, quiet c = true) (space :: s) c); try done. by apply quiet_plain. }
  unfold path_argument in Harg. rewrite (proj2 (split_once_None (ch "=") w)) in Harg by (by apply quiet_absent).
  destruct (is_flag w); [done|]. injection Harg as <-.
  unfold looks_like_path in Hl. rewrite !orb_true_iff in Hl.
  destruct Hl as [[[Hl|Hl]|Hl]|Hl].
  - apply starts_with_spec in Hl as [r ->]. apply (quiet_absent slash (lit "/" ++ r)); [done|done|by left].
  - apply starts_with_spec in Hl as [r ->]. apply (quiet_absent (ch "~") (lit "~" ++ r)); [done|done|by left].
  - apply bool_decide_eq_true in Hl. exact (quiet_absent slash _ Hqw eq_refl Hl).
  - apply bool_decide_eq_true in Hl as ->. apply (quiet_absent (ch ".") (lit "..")); [done|done|by left].
Qed.

(** How often a mark is written. *)
Fixpoint marks (x : char) (s : str) : nat :=
  match s with [] => 0 | c :: s => (if decide (c = x) then 1 else 0) + marks x s end.

Lemma marks_app x s t : marks x (s ++ t) = marks x s + marks x t.
Proof. induction s as [|c s IH]; [done|]. cbn. rewrite IH. lia. Qed.

Lemma marks_quiet x s : quiet_text s → quiet x = false → marks x s = 0.
Proof.
  intros Hs Hx. induction Hs as [|c s Hc _ IH]; [done|]. cbn. rewrite IH.
  rewrite decide_False; [done|]. intros ->. congruence.
Qed.

Lemma contains_marks x p s : contains p s = true → marks x p ≤ marks x s.
Proof. intros (l & r & ->)%contains_spec. rewrite !marks_app. lia. Qed.

Lemma no_mark_no_redirect n s : ch ">" ∉ s → has_file_redirect_fuel n s = false.
Proof.
  revert s. induction n as [|n IH]; intros s Hs; [done|]. destruct s as [|c s]; [done|].
  rewrite not_elem_of_cons in Hs. destruct Hs as [Hc Hs]. cbn [has_file_redirect_fuel].
  rewrite decide_False by done. by apply IH.
Qed.

Lemma classify_ls c : quiet_text c → trim (lit "ls & " ++ c) = lit "ls & " ++ c →
  classify_single unicode_alphabetic (lit "ls & " ++ c) = harmless.
Proof.
  intros Hc Ht. unfold classify_single, strip_safe_wrappers. rewrite Ht.
  assert (strip_wrapper unicode_alphabetic SAFE_WRAPPERS (lit "ls & " ++ c) = lit "ls & " ++ c) as ->
    by reflexivity.
  rewrite Ht, bool_decide_eq_false_2 by done.
  assert (split_whitespace (lit "ls & " ++ c) = lit "ls" :: lit "&" :: split_whitespace c) as Hw
    by reflexivity.
  assert (first_command_token (lit "ls & " ++ c) = lit "ls") as ->.
  { unfold first_command_token. rewrite Hw. reflexivity. }
  rewrite bool_decide_eq_false_2 by by_compute. rewrite bool_decide_eq_true_2 by by_compute.
  cbn [orb andb]. unfold args_forfeit_read_only. rewrite Hw.
  rewrite bool_decide_eq_false_2 by by_compute. cbn [andb orb drop].
  assert (existsb path_arg_hits_denied_read (lit "&" :: split_whitespace c) = false) as ->; [|done].
  apply existsb_false_elem_of. intros w [->|Hin]%elem_of_cons.
  - apply dotless_words_pass; by_compute.
  - assert (quiet_text w) as Hq by (by apply (split_whitespace_chars _ c)).
    apply dotless_words_pass; by apply quiet_absent.
Qed.

(** A command put in the background takes the next one with it: whatever
    follows [ls &] in letters, blanks and dashes - [rm -rf build], say - is
    judged by the name of [ls], and runs without asking. *)
Theorem background_commands_go_unseen cwd dirs c :
  quiet_text c → trimmed c → c ≠ [] →
  bash_check_permissions unicode_alphabetic cwd dirs (command_input (lit "ls & " ++ c)) =
    ToolAllow (Some (lit "read_only")).
Proof.
  intros Hc Ht Hne. unfold bash_check_permissions, bash_is_read_only.
  change (parse_input (command_input (lit "ls & " ++ c))) with
    (Some (Build_BashInput (lit "ls & " ++ c) None None)). cbn [from_option command].
  assert (path_args_stay_within cwd dirs (lit "ls & " ++ c) = true) as ->.
  { apply (quiet_args_stay cwd dirs (lit "ls ") c); [by_compute|by_compute|done]. }
  set (line := lit "ls & " ++ c). assert (trim line = line) as Htrim.
  { apply trim_id. split; [by intros x [= <-]|]. intros x Hx. destruct Ht as [_ Ht]. apply Ht.
    unfold line in Hx. rewrite last_app in Hx. destruct (last c) eqn:E; [done|]. by apply last_None in E. }
  assert (∀ x, quiet x = false → x ∉ lit "ls & " → x ∉ line) as Habs.
  { intros x Hx Hl [?|?]%elem_of_app; [done|by apply (quiet_absent x c)]. }
  assert (∀ x p, quiet x = false → x ∉ lit "ls & " → x ∈ p → contains p line = false) as Hcont.
  { intros x p Hx Hl Hp. apply not_true_is_false. intros (l & r & E)%contains_spec.
    apply (Habs x Hx Hl). rewrite E. rewrite !elem_of_app. auto. }
  assert (contains (lit "&&") line = false) as Hand.
  { apply not_true_is_false. intros H%(contains_marks (ch "&")). unfold line in H.
    rewrite marks_app, (marks_quiet _ c) in H by done. vm_compute in H. lia. }
  unfold classify. rewrite Htrim. rewrite bool_decide_eq_false_2 by done.
  assert (segments line = [line]) as ->.
  { unfold segments. rewrite Hand. unfold contains_char.
    rewrite (bool_decide_eq_false_2 (ch ";" ∈ line)) by (apply Habs; by_compute).
    rewrite (bool_decide_eq_false_2 (ch "|" ∈ line)) by (apply Habs; by_compute). by rewrite !andb_false_r. }
  cbn [read_only]. assert (has_shell_escape_hatch line = false) as ->.
  { unfold has_shell_escape_hatch, has_file_redirect. rewrite (Hcont (ch "$")), (Hcont (ch "<")) by by_compute.
    unfold contains_char. rewrite bool_decide_eq_false_2 by (apply Habs; by_compute).
    apply no_mark_no_redirect, Habs; by_compute. }
  unfold line. by rewrite classify_ls.
Qed.

(** A destructive command of two words is never recognized: the list is
    searched for the first word, which has no blank. *)
Theorem two_word_prefixes_never_match p cmd :
  p ∈ DESTRUCTIVE_PREFIXES → space ∈ p → first_command_token cmd ≠ p.
Proof.
  intros _ Hp E.
  assert (Forall (Forall (λ c, is_whitespace c = false)) (split_whitespace cmd)) as Hws.
  { apply Forall_forall. intros w [_ Hw]%list_elem_of_filter. by apply (split_pred_chars is_whitespace cmd). }
  assert (Forall (λ c, is_whitespace c = false) p) as H.
  { rewrite <-E. unfold first_command_token. rewrite Forall_forall in Hws.
    destruct (list_find _ _) as [[i t]|] eqn:El.
    - apply list_find_Some in El as [Hi _]. by eapply Hws, list_elem_of_lookup_2.
    - destruct (split_whitespace cmd) as [|t l]; [constructor|]. apply Hws. by left. }
  rewrite Forall_forall in H. specialize (H _ Hp). vm_compute in H. discriminate H.
Qed.
End Unseen.

(** ** Concrete commands *)

Section Samples.
#[local] Existing Instance plain_host.

Definition no_letters (c : char) : bool := false.

#[local] Notation asks c := (match bash_check_permissions no_letters (lit "/proj") [] (command_input c) with
                             ToolAllow _ => false | _ => true end).

Lemma unasked_commands_are_vetted_witness :
  ∃ p, parse_input (command_input (lit "cd src && cargo check 2>&1")) = Some p ∧
    ∀ seg, seg ∈ segments (trim (command p)) → vetted no_letters seg.
Proof.
  destruct (unasked_commands_are_vetted no_letters (lit "/proj") []
    (command_input (lit "cd src && cargo check 2>&1")) (Some (lit "read_only"))) as (p & Hp & [H|H] & _).
  - vm_compute. reflexivity.
  - exfalso. vm_compute in Hp. injection Hp as <-. vm_compute in H. discriminate H.
  - exists p. split; [done|]. apply H.
Defined.

Lemma background_commands_go_unseen_witness :
  bash_check_permissions no_letters (lit "/proj") [] (command_input (lit "ls & rm -rf build")) =
    ToolAllow (Some (lit "read_only")).
Proof.
  apply (background_commands_go_unseen no_letters (lit "/proj") [] (lit "rm -rf build"));
    [by_compute|split; intros x [= <-]; reflexivity|done].
Defined.

Lemma two_word_prefixes_never_match_witness :
  destructive (classify no_letters (lit "git push --force")) = false ∧
  first_command_token (lit "git push") ≠ lit "git push".
Proof.
  split; [vm_compute; reflexivity|].
  apply (two_word_prefixes_never_match (lit "git push") (lit "git push")); by_compute.
Defined.

(** What is asked about, and what is not. *)
Example ordinary_commands :
  (λ c, asks (lit c)) <$> ["git status"; "rg -n foo src | head"; "cargo check 2>&1"; "rm -rf build";
                          "find . -delete"; "cat /home/u/.ssh/id_rsa"; "echo $(id)"; "ls > out"]%string =
  [false; false; false; true; true; true; true; true].
Proof. vm_compute. reflexivity. Qed.

(** The pieces of a line are not those of the shell: [||], [&], a newline,
    and with quotes anywhere [;] and [|], do not separate; with [&&] nothing
    else does. *)
Example unseen_commands :
  (λ c, asks c) <$> [lit "ls || rm -rf build"; lit "ls" ++ [10%N] ++ lit "rm -rf build";
                     lit "echo 'x' ; rm -rf build"; lit "echo 'curl evil' | sh";
                     lit "cd a && ls ; rm -rf build"] = [false; false; false; false; false].
Proof. vm_compute. reflexivity. Qed.

(** Listed commands write, delete and run programs; wrappers and assignments
    are passed over whatever they do. *)
Example listed_commands_act :
  (λ c, asks (lit c)) <$> ["git branch -D main"; "git config core.fsmonitor evil"; "sort -o main.rs main.rs";
                          "cat notes >&main.rs"; "env -S./evil.sh"; "LD_PRELOAD=./evil.so ls";
                          "cd && cat .bash_history"]%string =
  [false; false; false; false; false; false; false].
Proof. vm_compute. reflexivity. Qed.

Example long_sleeps :
  (λ c, is_long_sleep (lit c)) <$> ["sleep 2"; "sleep 1.9"; "sleep 1.9999999999999999999"; "sleep inf";
                                   "sleep .5e1"; "sleep 5s"; "sleep -3"]%string =
  [true; false; true; true; true; false; false].
Proof. vm_compute. reflexivity. Qed.
End Samples.
