(* ===== verification/AgentTypes.v ===== *)
(** * What a delegate is given ([crates/runtime/src/agent_tool.rs]; the scenes'
      tool lists of [crates/scene/src/scene] and [permits_tool] of
      [core/src/interface/scene.rs])

    An agent type says how a sub-agent differs from the session that spawns
    it: its mode, its model, its tools, its scene.  The module states what a
    type from a plugin cannot loosen, that a delegate's scene offers no tool
    its ancestors' scenes do not, which tools a type grants, and how deep
    delegation goes.

    What a sub-agent's settings take over from its parent unread is a
    parameter. *)

From stdpp Require Import base option numbers strings pretty gmap list sorting.
From S2P Require Import Prelude RustStr Lines PermTypes Path Frontmatter Skills Registry.

(** ** Agent types *)

Inductive AgentTypeSource := Builtin | LocalFile | Plugin.

#[export] Instance AgentTypeSource_eq_dec : EqDecision AgentTypeSource.
Proof. solve_decision. Defined.

Definition may_loosen (s : AgentTypeSource) : bool := negb (bool_decide (s = Plugin)).

Record AgentTypeDefinition := {
  type_name : str;
  type_source : AgentTypeSource;
  type_description : str;
  allowed_tools : list str;
  disallowed_tools : list str;
  type_model : option str;
  type_permission_mode : option PermissionMode;
  type_effort : option str;
  type_max_turns : option Z;
  type_skills : list str;
  type_mcp_servers : list str;
  type_scene : option str;
  system_prompt : str;
}.

(** The texts of the built-in prompts are a parameter of the library's user:
    they are data no definition reads. *)
Definition builtin_type (prompt_of : str → str) (name description : string) (tools : list string)
    : AgentTypeDefinition := {|
  type_name := lit name; type_source := Builtin; type_description := lit description;
  allowed_tools := lit <$> tools; disallowed_tools := []; type_model := None;
  type_permission_mode := None; type_effort := None; type_max_turns := None; type_skills := [];
  type_mcp_servers := []; type_scene := None; system_prompt := prompt_of (lit name)
|}.

Definition builtin_agent_types (prompt_of : str → str) : list AgentTypeDefinition := [
  builtin_type prompt_of "explore" "Read-only file search and exploration specialist"
    ["Read"; "Grep"; "Glob"; "WebSearch"; "WebFetch"];
  builtin_type prompt_of "plan" "Software architect and planning specialist"
    ["Read"; "Grep"; "Glob"; "WebSearch"; "WebFetch"; "Write"];
  builtin_type prompt_of "general-purpose" "General-purpose AI coding agent with full tool access" [];
  builtin_type prompt_of "claude" "Claude AI assistant with full tool access" [];
  builtin_type prompt_of "code-reviewer" "Code review specialist using Read/Grep/Glob/LSP/Bash"
    ["Read"; "Grep"; "Glob"; "Bash"];
  builtin_type prompt_of "worker" "Worker agent executing a precisely-scoped task within a team" []
].

(** ** A type in a file *)

Definition parse_permission_mode (value : str) : option PermissionMode :=
  if one_of [lit "default"] value then Some ModeDefault
  else if one_of [lit "acceptEdits"; lit "accept_edits"; lit "accept-edits"] value
  then Some ModeAcceptEdits
  else if one_of [lit "bypassPermissions"; lit "bypass_permissions"; lit "bypass-permissions"] value
  then Some ModeBypassPermissions
  else if one_of [lit "plan"] value then Some ModePlan
  else if one_of [lit "dontAsk"; lit "dont_ask"; lit "dont-ask"] value then Some ModeDontAsk
  else None.

(** [parse::<u32>]. *)
Definition parse_u32 (s : str) : option Z :=
  match parse_usize s with
  | Some n => if bool_decide (n < 2 ^ 32)%N then Some (Z.of_N n) else None
  | None => None
  end.

(** Double quotes are trimmed off both ends, then single ones. *)
Definition unquote (raw : str) : str :=
  trim_end_matches [apostrophe] (trim_start_matches [apostrophe]
    (trim_end_matches [quote] (trim_start_matches [quote] raw))).

(** One line of the front matter, a field at a time. *)
Definition set_type_field (d : AgentTypeDefinition) (key value : str) : AgentTypeDefinition :=
  let '(Build_AgentTypeDefinition n src desc alw dis mdl pm eff mt sk mcp sc sp) := d in
  if one_of [lit "name"] key then Build_AgentTypeDefinition value src desc alw dis mdl pm eff mt sk mcp sc sp
  else if one_of [lit "description"] key
  then Build_AgentTypeDefinition n src value alw dis mdl pm eff mt sk mcp sc sp
  else if one_of [lit "allowed_tools"; lit "allowedTools"; lit "allowed-tools"] key
  then Build_AgentTypeDefinition n src desc (parse_yaml_list value) dis mdl pm eff mt sk mcp sc sp
  else if one_of [lit "disallowed_tools"; lit "disallowedTools"; lit "disallowed-tools"] key
  then Build_AgentTypeDefinition n src desc alw (parse_yaml_list value) mdl pm eff mt sk mcp sc sp
  else if one_of [lit "model"] key
  then Build_AgentTypeDefinition n src desc alw dis (Some value) pm eff mt sk mcp sc sp
  else if one_of [lit "permission_mode"; lit "permissionMode"] key
  then Build_AgentTypeDefinition n src desc alw dis mdl (parse_permission_mode value) eff mt sk mcp sc sp
  else if one_of [lit "effort"] key
  then Build_AgentTypeDefinition n src desc alw dis mdl pm (Some value) mt sk mcp sc sp
  else if one_of [lit "max_turns"; lit "maxTurns"] key
  then Build_AgentTypeDefinition n src desc alw dis mdl pm eff (parse_u32 value) sk mcp sc sp
  else if one_of [lit "skills"] key
  then Build_AgentTypeDefinition n src desc alw dis mdl pm eff mt (parse_yaml_list value) mcp sc sp
  else if one_of [lit "mcp_servers"; lit "mcpServers"] key
  then Build_AgentTypeDefinition n src desc alw dis mdl pm eff mt sk (parse_yaml_list value) sc sp
  else if one_of [lit "scene"] key
  then Build_AgentTypeDefinition n src desc alw dis mdl pm eff mt sk mcp (Some value) sp
  else d.

Definition read_type_line (d : AgentTypeDefinition) (l : str) : AgentTypeDefinition :=
  let line := trim l in
  if bool_decide (line = []) || starts_with (lit "#") line then d
  else
    match split_once (ch ":") line with
    | None => d
    | Some (k, v) =>
        let raw := trim v in
        if bool_decide (raw = []) then d
        else
          let value := unquote raw in
          if bool_decide (value = []) then d else set_type_field d (trim k) value
    end.

Definition parse_agent_type_file (content path : str) : option AgentTypeDefinition :=
  let '(front, body) := split_frontmatter content in
  let body := trim body in
  let start := Build_AgentTypeDefinition (default (lit "unknown") (file_stem path)) LocalFile [] [] []
                 None None None None [] [] None body in
  let d := foldl read_type_line start (from_option lines [] front) in
  let description :=
    if bool_decide (type_description d = []) then first_paragraph body else type_description d in
  if bool_decide (description = []) then None
  else
    let '(Build_AgentTypeDefinition n src _ alw dis mdl pm eff mt sk mcp sc sp) := d in
    Some (Build_AgentTypeDefinition n src description alw dis mdl pm eff mt sk mcp sc sp).

Definition load_agent_type (d : Disk) (path : str) : option AgentTypeDefinition :=
  if bool_decide (extension path = Some (lit "md"))
  then content ← read_to_string d path; parse_agent_type_file content path
  else None.

Definition load_agent_types_from_dir (d : Disk) (dir : str) : list AgentTypeDefinition :=
  omap (load_agent_type d) (default [] (read_dir d dir)).

(** ** The catalog *)

Abbreviation Catalog := (gmap str AgentTypeDefinition).

Definition insert_type (m : Catalog) (t : AgentTypeDefinition) : Catalog := <[type_name t := t]> m.

(** From low to high: built in, plugins, and the directories in order. *)
Definition merge_agent_types (prompt_of : str → str) (d : Disk) (dirs : list str)
    (plugin_types : list AgentTypeDefinition) : Catalog :=
  let builtins := foldl insert_type ∅ (builtin_agent_types prompt_of) in
  let merged := foldl insert_type builtins plugin_types in
  foldl (λ m dir, foldl insert_type m (load_agent_types_from_dir d dir)) merged dirs.

Definition describe_agent_types (m : Catalog) : str :=
  let names := merge_sort str_order (map_to_list m).*1 in
  join [newline]
    ([lit "Launch a sub-agent to handle complex, multi-step tasks independently."; [];
      lit "Available subagent_type values:"] ++
     ((λ name, lit "- " ++ name ++ lit ": " ++ from_option type_description [] (m !! name)) <$> names)).

(** ** What a type changes in the settings *)

Inductive ThinkingMode := ThinkingAuto | ThinkingOff | ThinkingOn | ThinkingOnBudget (n : Z).

Record ModelSettings := {
  model_name : str;
  max_tokens : Z;
  thinking_mode : ThinkingMode;
  fallback_model : option str;
}.

(** The settings a spawn reads or changes; [settings_rest] are the others. *)
Record Settings (R : Type) := {
  settings_model : ModelSettings;
  settings_mode : PermissionMode;
  max_api_calls_per_turn : Z;
  settings_instruction_file : option str;
  settings_scope : str;
  settings_rest : R;
}.
Arguments Build_Settings {R} _ _ _ _ _ _.
Arguments settings_model {R} _.
Arguments settings_mode {R} _.
Arguments max_api_calls_per_turn {R} _.
Arguments settings_instruction_file {R} _.
Arguments settings_scope {R} _.
Arguments settings_rest {R} _.

Definition effort_to_thinking_mode (effort : str) : option ThinkingMode :=
  if one_of [lit "low"] effort then Some ThinkingOff
  else if one_of [lit "medium"] effort then Some ThinkingAuto
  else if one_of [lit "high"; lit "xhigh"; lit "max"] effort then Some ThinkingOn
  else None.

Definition permission_restraint (mode : PermissionMode) : Z :=
  match mode with
  | ModePlan => 100
  | ModeDontAsk => 90
  | ModeBubble => 60
  | ModeDefault => 50
  | ModeAuto => 40
  | ModeAcceptEdits => 30
  | ModeYolo => 20
  | ModeBypassPermissions => 10
  end.

(** The ranking of [PermissionMode::permissiveness]. *)
Definition permissiveness (mode : PermissionMode) : Z :=
  match mode with
  | ModeDontAsk => 0
  | ModePlan => 1
  | ModeDefault => 2
  | ModeBubble => 3
  | ModeAcceptEdits => 4
  | ModeAuto => 5
  | ModeYolo => 6
  | ModeBypassPermissions => 7
  end.

Definition min_permissive (a b : PermissionMode) : PermissionMode :=
  if bool_decide (permissiveness b < permissiveness a)%Z then b else a.

Section Overrides.
Context {R : Type} (fallback_rest : str → R).

(** The mode a type's sub-agents get, out of the one they would inherit. *)
Definition mode_for (def : AgentTypeDefinition) (inherited : PermissionMode) : PermissionMode :=
  match type_permission_mode def with
  | Some mode =>
      if may_loosen (type_source def) ||
         bool_decide (permission_restraint inherited ≤ permission_restraint mode)%Z
      then mode else inherited
  | None => inherited
  end.

Definition calls_for (def : AgentTypeDefinition) (inherited : Z) : Z :=
  match type_max_turns def with
  | Some n => if may_loosen (type_source def) then n else (n `min` inherited)%Z
  | None => inherited
  end.

Definition model_for (def : AgentTypeDefinition) (m : ModelSettings) : ModelSettings :=
  match type_effort def ≫= effort_to_thinking_mode with
  | Some t => Build_ModelSettings (model_name m) (max_tokens m) t (fallback_model m)
  | None => m
  end.

Definition apply_agent_type_overrides (s : Settings R) (def : AgentTypeDefinition) : Settings R :=
  Build_Settings (model_for def (settings_model s)) (mode_for def (settings_mode s))
    (calls_for def (max_api_calls_per_turn s)) (settings_instruction_file s) (settings_scope s)
    (settings_rest s).

Definition settings_from_parent (parent : Settings R) (name : str) (tokens : Z)
    (fallback : option str) (instruction_file : option str) : Settings R :=
  Build_Settings (Build_ModelSettings name tokens (thinking_mode (settings_model parent)) fallback)
    (settings_mode parent) (max_api_calls_per_turn parent)
    (match instruction_file with Some p => Some p | None => settings_instruction_file parent end)
    (settings_scope parent) (settings_rest parent).

(** Without a parent's settings; what is only passed on depends on the
    directory alone. *)
Definition fallback_settings (name : str) (tokens : Z) (fallback : option str)
    (local_data_dir : str) (instruction_file : option str) : Settings R :=
  Build_Settings (Build_ModelSettings name tokens ThinkingAuto fallback) ModeDefault 25
    instruction_file (lit "code") (fallback_rest local_data_dir).

(** [EngineConfig], as far as a spawn reads it. *)
Record EngineConfig := {
  config_model : str;
  config_max_tokens : Z;
  config_fallback_model : option str;
  max_agent_depth : Z;
}.

Definition sub_settings (c : EngineConfig) (instruction_file : option str)
    (parent : option (Settings R)) (name : option str) (cwd : str) : Settings R :=
  let name := default (config_model c) name in
  match parent with
  | Some parent =>
      settings_from_parent parent name (config_max_tokens c) (config_fallback_model c) instruction_file
  | None => fallback_settings name (config_max_tokens c) (config_fallback_model c) cwd instruction_file
  end.

(** What every way of spawning starts with. *)
Definition spawn_settings (c : EngineConfig) (instruction_file : option str)
    (parent : option (Settings R)) (def : option AgentTypeDefinition) (cwd : str) : Settings R :=
  let s := sub_settings c instruction_file parent (def ≫= type_model) cwd in
  from_option (apply_agent_type_overrides s) s def.
End Overrides.

(** ** Scenes *)

Record AgentScene := {
  scene_id : str;
  scene_tools : list str;
  scene_disallowed : list str;
}.

Definition CodingScene : AgentScene := Build_AgentScene (lit "coding") [] [].

Definition ChatScene : AgentScene := Build_AgentScene (lit "chat")
  (lit <$> ["Read"; "Glob"; "Grep"; "WebFetch"; "WebSearch"; "Skill"; "TodoWrite"; "ToolSearch"; "mcp__*"]%string)
  (lit <$> ["Bash"; "Write"; "Edit"; "NotebookEdit"]%string).

Definition DemoScene : AgentScene := Build_AgentScene (lit "demo")
  (lit <$> ["Read"; "Bash"; "Glob"; "Grep"]%string) [].

Definition ResearchScene : AgentScene := Build_AgentScene (lit "research")
  (lit <$> ["Read"; "Write"; "Glob"; "Grep"; "WebFetch"; "WebSearch"; "Skill"; "TodoWrite"; "Agent";
            "TeamCreate"; "TeamDelete"; "ToolSearch"; "mcp__*"]%string)
  (lit <$> ["Bash"; "Edit"; "NotebookEdit"]%string).

(** An entry that ends in a star covers every name it starts. *)
Definition entry_covers (name entry : str) : bool :=
  match strip_suffix (lit "*") entry with
  | Some prefix => starts_with prefix name
  | None => bool_decide (entry = name)
  end.

Definition permits_tool (s : AgentScene) (name : str) : bool :=
  if bool_decide (scene_tools s = [])
  then negb (existsb (entry_covers name) (scene_disallowed s))
  else existsb (entry_covers name) (scene_tools s).

Definition scene_is_narrower_or_equal (candidate parent : AgentScene) : bool :=
  if bool_decide (scene_tools parent = [] ∧ scene_disallowed parent = []) then true
  else if bool_decide (scene_tools candidate = []) then false
  else forallb (λ t, negb (bool_decide (t ∈ scene_disallowed parent)) &&
                     (bool_decide (scene_tools parent = []) || bool_decide (t ∈ scene_tools parent)))
         (scene_tools candidate).

Definition builtin_scene_by_id (id : str) : option AgentScene :=
  if one_of [lit "coding"] id then Some CodingScene
  else if one_of [lit "chat"] id then Some ChatScene
  else if one_of [lit "demo"] id then Some DemoScene
  else if one_of [lit "research"] id then Some ResearchScene
  else None.

(** [SceneRegistry]: scenes under their ids. *)
Definition register_scene (s : AgentScene) (r : gmap str AgentScene) : gmap str AgentScene :=
  <[scene_id s := s]> r.

Definition resolve_scene_id (registry : option (gmap str AgentScene)) (id : str) : option AgentScene :=
  match registry with Some r => r !! id | None => builtin_scene_by_id id end.

Definition inherited_scene (registry : option (gmap str AgentScene)) (parent : option AgentScene)
    (scope : str) : AgentScene :=
  match parent with
  | Some p => p
  | None => default CodingScene (resolve_scene_id registry scope)
  end.

Definition scene_for_subagent (registry : option (gmap str AgentScene)) (parent : option AgentScene)
    (def : option AgentTypeDefinition) (scope : str) : AgentScene :=
  match (def ≫= type_scene) ≫= resolve_scene_id registry with
  | Some requested =>
      match parent with
      | Some p =>
          if scene_is_narrower_or_equal requested p then requested
          else inherited_scene registry parent scope
      | None => requested
      end
  | None => inherited_scene registry parent scope
  end.

(** ** Tools *)

Definition AGENT_TOOL_NAME : str := lit "Agent".

(** Equal, or an MCP server's pattern and one of its tools. *)
Definition tool_name_matches (tool_name pattern : str) : bool :=
  if bool_decide (tool_name = pattern) then true
  else
    match strip_prefix (lit "mcp__") pattern with
    | None => false
    | Some s =>
        let server := trim_end_str (lit "__*") s in
        match strip_prefix (lit "mcp__") tool_name with
        | Some rest => bool_decide (from_option fst rest (split_once_str (lit "__") rest) = server)
        | None => false
        end
    end.

Section Tools.
Context {T : Type} `{Named T}.

Definition granted (def : option AgentTypeDefinition) (t : T) : bool :=
  let disallowed := from_option disallowed_tools [] def in
  let allowed := from_option allowed_tools [] def in
  negb (bool_decide (name_of t = AGENT_TOOL_NAME)) &&
  negb (existsb (tool_name_matches (name_of t)) disallowed) &&
  (bool_decide (allowed = []) || existsb (tool_name_matches (name_of t)) allowed).

Definition mcp_granted (def : AgentTypeDefinition) (t : T) : bool :=
  existsb (λ server, tool_name_matches (name_of t) (lit "mcp__" ++ server)) (type_mcp_servers def).

Definition register_all (r : Registry T) (ts : list T) : Registry T := foldl (λ r t, (register r t).1) r ts.

(** [next] is where the ids of registrations have got to. *)
Definition resolve_tools (def : option AgentTypeDefinition) (parent_tools fallback_tools adapters : list T)
    (next : Z) : Registry T :=
  let r := register_all (registry_new next)
             (filter (λ t, granted def t = true) (parent_tools ++ fallback_tools)) in
  match def with
  | Some d => register_all r (filter (λ t, mcp_granted d t = true) adapters)
  | None => r
  end.
End Tools.

(** ** How deep delegation goes *)

Definition depth_limit_text (max depth : Z) : str :=
  lit "Delegation depth limit reached (" ++ lit (pretty (Z.to_nat max)) ++ lit "). This agent is already " ++
  lit (pretty (Z.to_nat depth)) ++
  lit " level(s) deep and cannot spawn another sub-agent. Complete the task directly instead of delegating it.".

Definition spawn_guard (c : EngineConfig) (depth : Z) : result Z str :=
  if bool_decide (max_agent_depth c ≤ depth)%Z then Err (depth_limit_text (max_agent_depth c) depth)
  else Ok (depth + 1)%Z.

(** ** Where a definition of the catalog comes from *)

Section Catalog.
Context (prompt_of : str → str) (d : Disk) (dirs : list str).

(** A file of one of the directories that says so. *)
Definition declared_in_file (def : AgentTypeDefinition) : Prop :=
  ∃ dir path content, dir ∈ dirs ∧ path ∈ default [] (read_dir d dir) ∧
    read_to_string d path = Some content ∧ parse_agent_type_file content path = Some def.

Lemma load_agent_types_elem dir def : dir ∈ dirs →
  def ∈ load_agent_types_from_dir d dir → declared_in_file def.
Proof.
  intros Hdir (path & Hp & E)%list_elem_of_omap. unfold load_agent_type in E. case_bool_decide; [|done].
  destruct (read_to_string d path) as [content|] eqn:Er; [|done]. by exists dir, path, content.
Qed.

Lemma insert_types_inv ts m name def : foldl insert_type m ts !! name = Some def →
  m !! name = Some def ∨ def ∈ ts.
Proof.
  revert m. induction ts as [|t ts IH]; intros m; [by left|]. cbn [foldl].
  intros [H|H]%IH; [|right; by right]. unfold insert_type in H.
  apply lookup_insert_Some in H as [[_ <-]|[_ H]]; [right; left|by left].
Qed.

Lemma merged_inv plugin_types name def :
  merge_agent_types prompt_of d dirs plugin_types !! name = Some def →
  def ∈ builtin_agent_types prompt_of ∨ def ∈ plugin_types ∨ declared_in_file def.
Proof.
  unfold merge_agent_types.
  assert (∀ ds m, (∀ x, x ∈ ds → x ∈ dirs) →
    foldl (λ m dir, foldl insert_type m (load_agent_types_from_dir d dir)) m ds !! name = Some def →
    m !! name = Some def ∨ declared_in_file def) as Hdirs.
  { induction ds as [|dir ds IH]; intros m Hds H; [by left|]. cbn [foldl] in H.
    apply IH in H as [H|H]; [|by right|intros; apply Hds; by right].
    apply insert_types_inv in H as [H|H]; [by left|right]. eapply load_agent_types_elem; [|exact H].
    apply Hds. by left. }
  intros [H|H]%Hdirs; [|by auto|done]. apply insert_types_inv in H as [H|H]; [|by auto].
  apply insert_types_inv in H as [H|H]; [done|by left].
Qed.
End Catalog.

(** Built-in types say nothing of mode or calls. *)
Lemma builtin_types_inherit prompt_of def : def ∈ builtin_agent_types prompt_of →
  type_permission_mode def = None ∧ type_max_turns def = None.
Proof.
  intros H. assert (Forall (λ t, type_permission_mode t = None ∧ type_max_turns t = None)
    (builtin_agent_types prompt_of)) as Hall by (repeat constructor).
  rewrite Forall_forall in Hall. by apply Hall.
Qed.

Section Chains.
Context {R : Type} (fallback_rest : str → R) (prompt_of : str → str) (d : Disk) (dirs : list str).
Context (plugin_types : list AgentTypeDefinition).

Definition agent_type_def (m : Catalog) (name : option str) : option AgentTypeDefinition :=
  n ← name; m !! n.

(** A delegate of a delegate: each is built with the settings of the one
    before as its parent's. *)
Definition delegate_settings (c : EngineConfig) (file : option str) (cwd : str) (s : Settings R)
    (subagent_type : option str) : Settings R :=
  spawn_settings fallback_rest c file (Some s)
    (agent_type_def (merge_agent_types prompt_of d dirs plugin_types) subagent_type) cwd.

Definition no_looser (s s' : Settings R) : Prop :=
  (permission_restraint (settings_mode s) ≤ permission_restraint (settings_mode s'))%Z ∧
  (max_api_calls_per_turn s' ≤ max_api_calls_per_turn s)%Z.

Lemma no_looser_trans a b c : no_looser a b → no_looser b c → no_looser a c.
Proof. unfold no_looser. lia. Qed.

Lemma plugin_overrides_restrict s def : type_source def = Plugin →
  no_looser s (apply_agent_type_overrides s def).
Proof.
  intros E. unfold no_looser, apply_agent_type_overrides, mode_for, calls_for. cbn [settings_mode max_api_calls_per_turn].
  rewrite E. cbn [may_loosen bool_decide]. split.
  - destruct (type_permission_mode def) as [m|]; [|done]. change (may_loosen Plugin) with false. cbn [orb].
    case_bool_decide; [done|]. lia.
  - destruct (type_max_turns def) as [n|]; [|done]. change (may_loosen Plugin) with false. cbn. lia.
Qed.

Lemma builtin_overrides_inherit s def : def ∈ builtin_agent_types prompt_of →
  no_looser s (apply_agent_type_overrides s def).
Proof.
  intros [E1 E2]%builtin_types_inherit. unfold no_looser, apply_agent_type_overrides, mode_for, calls_for.
  rewrite E1, E2. cbn. lia.
Qed.

(** C20. However long a chain of delegations, its last sub-agent has a mode no
    less restrained and no more calls to the model than the session it
    started from, unless one of the types named on the way is that of a file
    in an agents directory: built-in types and those of plugins only
    restrict. *)
Theorem only_files_loosen c file cwd s chain :
  Forall (λ t, type_source t = Plugin) plugin_types →
  no_looser s (foldl (delegate_settings c file cwd) s chain) ∨
  ∃ name def, Some name ∈ chain ∧ declared_in_file d dirs def ∧
    merge_agent_types prompt_of d dirs plugin_types !! name = Some def.
Proof.
  intros Hp. revert s. induction chain as [|name chain IH]; intros s; [left; by split|]. cbn [foldl].
  destruct (IH (delegate_settings c file cwd s name)) as [H|(n & def & Hin & H)];
    [|right; exists n, def; by rewrite elem_of_cons; auto].
  assert (∀ inner, no_looser s (sub_settings fallback_rest c file (Some s) inner cwd)) as Hs by (by split).
  unfold delegate_settings in *. destruct name as [name|]; cbn [agent_type_def mbind option_bind] in *.
  - destruct (merge_agent_types prompt_of d dirs plugin_types !! name) as [def|] eqn:E.
    + destruct (merged_inv _ _ _ _ _ _ E) as [Hb|[Hpl|Hf]].
      * left. eapply no_looser_trans; [|exact H]. eapply no_looser_trans; [|by apply builtin_overrides_inherit].
        apply Hs.
      * left. eapply no_looser_trans; [|exact H]. rewrite Forall_forall in Hp.
        eapply no_looser_trans; [|by apply plugin_overrides_restrict, Hp]. apply Hs.
      * right. exists name, def. split; [by left|done].
    + left. eapply no_looser_trans; [|exact H]. apply Hs.
  - left. eapply no_looser_trans; [|exact H]. apply Hs.
Qed.
End Chains.

(** ** A delegate's scene *)

(** A whitelist, or no restriction at all; the built-in scenes are. *)
Definition bounded (s : AgentScene) : Prop := scene_tools s ≠ [] ∨ scene_disallowed s = [].

Lemma builtin_scenes_bounded id s : builtin_scene_by_id id = Some s → bounded s.
Proof. unfold builtin_scene_by_id. intros H. repeat case_match; simplify_eq; first [by right|left; discriminate]. Qed.

Lemma narrower_permits candidate parent name : bounded parent →
  scene_is_narrower_or_equal candidate parent = true →
  permits_tool candidate name = true → permits_tool parent name = true.
Proof.
  intros Hb Hn Hc. unfold scene_is_narrower_or_equal in Hn. unfold permits_tool.
  case_bool_decide as Hall; [by destruct Hall as [-> ->]|].
  assert (scene_tools parent ≠ []) as Hw by (destruct Hb; [done|naive_solver]).
  rewrite bool_decide_eq_false_2 by done.
  destruct (decide (scene_tools candidate = [])) as [Hcw|Hcw]; [by rewrite bool_decide_eq_true_2 in Hn|].
  unfold permits_tool in Hc. rewrite bool_decide_eq_false_2 in Hn, Hc by done.
  apply existsb_elem_of in Hc as (t & Ht & Hcover). apply existsb_elem_of. exists t.
  split; [|done]. rewrite forallb_elem_of in Hn. specialize (Hn t Ht). apply andb_true_iff in Hn as [_ Hn].
  rewrite bool_decide_eq_false_2 in Hn by done. by apply bool_decide_eq_true in Hn.
Qed.

Lemma narrower_bounded candidate parent : bounded parent → scene_tools parent ≠ [] →
  scene_is_narrower_or_equal candidate parent = true → scene_tools candidate ≠ [].
Proof.
  intros Hb Hw. unfold scene_is_narrower_or_equal. case_bool_decide as H; [by destruct H|].
  by case_bool_decide.
Qed.

(** One delegation, whatever scene the agent type names and the host has
    registered. *)
Lemma scene_step registry p def scope : scene_tools p ≠ [] →
  scene_tools (scene_for_subagent registry (Some p) def scope) ≠ [] ∧
  ∀ name, permits_tool (scene_for_subagent registry (Some p) def scope) name = true → permits_tool p name = true.
Proof.
  intros Hw. assert (bounded p) as Hb by (by left).
  unfold scene_for_subagent. destruct (_ ≫= _) as [requested|]; [|done].
  destruct (scene_is_narrower_or_equal requested p) eqn:En; [|done].
  split; [by eapply narrower_bounded|]. intros name. by apply narrower_permits.
Qed.

(** ** A delegate's tools *)

Section Granted.
Context {T : Type} `{Named T}.

Definition registered (r : Registry T) : list T := entry_tool <$> entries r.

Lemma registered_all r ts : registered (register_all r ts) = registered r ++ ts.
Proof.
  revert r. induction ts as [|t ts IH]; intros r; [by rewrite app_nil_r|].
  unfold register_all in *. cbn [foldl]. rewrite IH. unfold registered, register.
  cbn [fst entries]. rewrite fmap_app. by rewrite <-app_assoc.
Qed.

(** A sub-agent is handed the tools of its parent that its type allows and
    does not disallow, never the one that delegates, and besides them those
    of the servers its type names; in that order, so that its own tools come
    before a server's of the same name. *)
Theorem tools_are_granted def parent_tools fallback_tools adapters next t :
  t ∈ registered (resolve_tools def parent_tools fallback_tools adapters next) ↔
  (t ∈ parent_tools ∨ t ∈ fallback_tools) ∧ name_of t ≠ AGENT_TOOL_NAME ∧
    (∀ p, p ∈ from_option disallowed_tools [] def → tool_name_matches (name_of t) p = false) ∧
    (from_option allowed_tools [] def = [] ∨
     ∃ p, p ∈ from_option allowed_tools [] def ∧ tool_name_matches (name_of t) p = true) ∨
  t ∈ adapters ∧ ∃ server, server ∈ from_option type_mcp_servers [] def ∧
    tool_name_matches (name_of t) (lit "mcp__" ++ server) = true.
Proof.
  assert (granted def t = true ↔ name_of t ≠ AGENT_TOOL_NAME ∧
    (∀ p, p ∈ from_option disallowed_tools [] def → tool_name_matches (name_of t) p = false) ∧
    (from_option allowed_tools [] def = [] ∨
     ∃ p, p ∈ from_option allowed_tools [] def ∧ tool_name_matches (name_of t) p = true)) as Hg.
  { unfold granted. rewrite !andb_true_iff, orb_true_iff, !negb_true_iff, bool_decide_eq_false,
      bool_decide_eq_true, existsb_false_elem_of, existsb_elem_of. tauto. }
  assert (∀ d, mcp_granted d t = true ↔ ∃ server, server ∈ type_mcp_servers d ∧
    tool_name_matches (name_of t) (lit "mcp__" ++ server) = true) as Hm.
  { intros d. unfold mcp_granted. by rewrite existsb_elem_of. }
  unfold resolve_tools. destruct def as [d|]; cbn [from_option] in *.
  - rewrite !registered_all, !elem_of_app, !list_elem_of_filter, elem_of_app, Hg, Hm.
    assert (t ∉ registered (registry_new next)) by (cbn; set_solver). tauto.
  - rewrite registered_all, elem_of_app, list_elem_of_filter, elem_of_app, Hg.
    assert (t ∉ registered (registry_new next)) by (cbn; set_solver).
    split; [tauto|]. intros [?|(_ & server & Hs & _)]; [tauto|]. by apply elem_of_nil in Hs.
Qed.
End Granted.

(** ** Samples *)

Definition no_prompt (_ : str) : str := [].

Definition empty_disk : Disk :=
  Build_Disk (λ _, None) (λ _, false) (λ _, false) (λ _, None) (λ _, None) (λ _, false).

(** A repository with an agent type of its own. *)
Definition type_file : str :=
  lit "---" ++ [newline] ++ lit "description: Helps" ++ [newline] ++
  lit "permission_mode: bypassPermissions" ++ [newline] ++ lit "max_turns: 1000" ++ [newline] ++
  lit "disallowed_tools: [Bash, mcp__gh__delete]" ++ [newline] ++ lit "mcp_servers: gh" ++ [newline] ++
  lit "---" ++ [newline] ++ lit "Help.".

Definition repo_disk : Disk :=
  Build_Disk (λ d, if bool_decide (d = lit "/p/.atta/agents") then Some [lit "/p/.atta/agents/helper.md"] else None)
    (λ _, false) (λ _, false)
    (λ p, if bool_decide (p = lit "/p/.atta/agents/helper.md") then Some type_file else None)
    (λ _, None) (λ _, false).

Definition cheat : AgentTypeDefinition :=
  Build_AgentTypeDefinition (lit "cheat") Plugin (lit "Cheats") [] [] None (Some ModeBypassPermissions)
    None (Some 10000%Z) [] [] None [].

Definition sample_config : EngineConfig := Build_EngineConfig (lit "m") 1000 None 3.

Definition sample_settings : Settings unit :=
  Build_Settings (Build_ModelSettings (lit "m") 1000 ThinkingAuto None) ModeDefault 25 None (lit "coding") tt.

Lemma only_files_loosen_witness :
  no_looser sample_settings
    (foldl (delegate_settings (λ _, tt) no_prompt empty_disk [] [cheat] sample_config None (lit "/p"))
       sample_settings [Some (lit "cheat"); Some (lit "plan"); None]).
Proof.
  destruct (only_files_loosen (λ _, tt) no_prompt empty_disk [] [cheat] sample_config None (lit "/p")
    sample_settings [Some (lit "cheat"); Some (lit "plan"); None]) as [H|(n & def & _ & (dir & _ & _ & Hd & _) & _)].
  - by repeat constructor.
  - exact H.
  - by apply elem_of_nil in Hd.
Defined.

#[local] Instance named_str : Named str := λ s, s.

Definition repo_catalog : Catalog := merge_agent_types no_prompt repo_disk [lit "/p/.atta/agents"] [cheat].

(** What a file of the project's agents directory asks for it gets, the mode
    without questions and any number of calls included. *)
Example project_files_loosen :
  from_option (λ d, (settings_mode (apply_agent_type_overrides sample_settings d),
                     max_api_calls_per_turn (apply_agent_type_overrides sample_settings d)))
    (ModePlan, 0%Z) (repo_catalog !! lit "helper") = (ModeBypassPermissions, 1000%Z).
Proof. vm_compute. reflexivity. Qed.

(** A disallowed tool of a server that is named is granted all the same. *)
Example server_tools_ignore_the_ban :
  registered (resolve_tools (repo_catalog !! lit "helper") [lit "Read"; lit "Bash"; lit "Agent"] []
    [lit "mcp__gh__list"; lit "mcp__gh__delete"; lit "mcp__db__drop"] 0) =
  [lit "Read"; lit "mcp__gh__list"; lit "mcp__gh__delete"].
Proof. vm_compute. reflexivity. Qed.

(** The parent's registry holds its servers' tools too: a type without a list
    of tools is handed them without naming a server. *)
Example full_access_has_server_tools :
  registered (resolve_tools (repo_catalog !! lit "claude") [lit "Read"; lit "mcp__db__drop"] [] [] 0) =
  [lit "Read"; lit "mcp__db__drop"].
Proof. vm_compute. reflexivity. Qed.

(** Two underscores in a server's name: its tools count as those of the
    server before them. *)
Example servers_are_confused :
  tool_name_matches (lit "mcp__db__backup__drop") (lit "mcp__db") = true ∧
  tool_name_matches (lit "mcp__db__backup__drop") (lit "mcp__db__backup") = false.
Proof. split; vm_compute; reflexivity. Qed.

(** A scene given by what it forbids is not a bound: entries are compared as
    they are written, stars included. *)
Example stars_pass_a_blacklist :
  let parent := Build_AgentScene (lit "p") [] [lit "Bash"] in
  let candidate := Build_AgentScene (lit "c") [lit "*"] [] in
  scene_is_narrower_or_equal candidate parent = true ∧
  permits_tool parent (lit "Bash") = false ∧ permits_tool candidate (lit "Bash") = true.
Proof. split_and!; vm_compute; reflexivity. Qed.

(** The two rankings of the modes do not agree on the strictest. *)
Example rankings_disagree :
  min_permissive ModePlan ModeDontAsk = ModeDontAsk ∧
  (permission_restraint ModeDontAsk < permission_restraint ModePlan)%Z.
Proof. by split. Qed.
