(* ===== verification/Delegates.v ===== *)
(** * What a delegate may do ([ParentPermission], [permission_handler] and
      [build_team_member_agent] of [crates/runtime/src/agent_tool.rs],
      [PermissionBridge] of [team/src/coordinator.rs],
      [spawn_agent_with_tools] of [runtime/src/agent_spawner_impl.rs])

    A sub-agent asks its parent's permission handler; a question becomes one
    to the parent's user.  With a mailbox the coordinator is asked instead,
    and a persistent member of a team, or a worker with a mode of its own, has
    a handler of its own.  The module states that what a sub-agent may do
    follows from its root, and what an answer of "always" and a member's
    grant come to.  The bridge's list of open questions is left out: it is
    read by nothing here. *)

From stdpp Require Import base option numbers strings list.
From S2P Require Import Prelude RustStr PermTypes Rule Path PathRule Shell RuleSet RuleLint Gate Registry.
From S2P Require Import Permission Hooks ToolExec.

(** ** A handler and its delegates *)

(** What becomes of a question: answered, the sender dropped without one, or
    nothing ever - no timeout is set here. *)
Inductive Reply := Answered (a : PermissionAnswer) | Dropped | Silence.

(** The parent's event channel and pending questions, when both are wired:
    whether the channel is open, and the replies by the text of the question. *)
Record Channel := {
  channel_open : bool;
  reply_to : str → Reply;
}.

Definition no_channel_text (tool_name message : str) : str :=
  lit "`" ++ tool_name ++
  lit "` needs interactive approval, and this sub-agent has no channel to ask on. Approve it in the parent session (or run this step there) and retry. Original prompt: " ++
  message.

Definition session_closed_text (tool_name : str) : str :=
  lit "`" ++ tool_name ++ lit "`: the parent session closed before it could answer".

Definition unanswered_text (tool_name : str) : str :=
  lit "`" ++ tool_name ++ lit "`: permission request closed without an answer".

Definition question (session_id message : str) : str :=
  lit "[sub-agent " ++ session_id ++ lit "] " ++ message.

(** What becomes of a request to the coordinator: when, in milliseconds, it is
    decided or its sender dropped, if either ever happens. *)
Definition Decisions : Type := str → option (Z * option bool).

Definition safe_tools : list str :=
  [lit "Read"; lit "Grep"; lit "Glob"; lit "WebSearch"; lit "WebFetch"; lit "ListPeers"; lit "ReadMail";
   lit "SendMessage"; lit "Agent"].

(** The wait for the coordinator, in milliseconds. *)
Definition bridge_wait : Z := 120000.

Definition request_text (my_label tool_name : str) : str :=
  lit "Sub-agent '" ++ my_label ++ lit "' requests permission to use tool '" ++ tool_name ++ lit "'".

(** [PermissionBridge::check]. *)
Definition bridge_check (my_label : str) (decisions : Decisions) (tool_name : str) : PermissionOutcome :=
  if bool_decide (tool_name ∈ safe_tools) then Permit
  else
    let timed_out := OutcomeDeny (lit "Permission request timed out after 120s") in
    match decisions (request_text my_label tool_name) with
    | None => timed_out
    | Some (t, decision) =>
        if bool_decide (t ≤ bridge_wait)%Z then
          match decision with
          | Some true => Permit
          | Some false => OutcomeDeny (lit "Parent denied permission")
          | None => OutcomeDeny (lit "Permission response channel closed unexpectedly")
          end
        else timed_out
    end.

Section Handlers.
Context {P : Type} `{PermissionHandler P}.

(** The handlers of a chain of delegations: the session's own, those that
    ask one of them, the one that asks a coordinator, and the one of an
    unwired tool. *)
Inductive Handler :=
| Own (p : P)
| ParentPermission (inner : Handler) (channel : option Channel)
| PermissionBridge (my_label : str) (decisions : Decisions)
| AlwaysPermit.

(** [add_persistent_allow]: only a session's own handler overrides it. *)
Definition add_allow (h : Handler) (tool_name : str) (content : option str) : Handler :=
  match h with
  | Own p => Own (grant p tool_name content)
  | ParentPermission _ _ | PermissionBridge _ _ | AlwaysPermit => h
  end.

(** The handler afterwards and the outcome; [None] while nobody answers. *)
Fixpoint handler_check (h : Handler) (tool_name : str) (input : value) (cwd session_id : str)
    : Handler * option PermissionOutcome :=
  match h with
  | Own p => (h, check p tool_name input cwd session_id)
  | PermissionBridge my_label decisions => (h, Some (bridge_check my_label decisions tool_name))
  | AlwaysPermit => (h, Some Permit)
  | ParentPermission inner channel =>
      let '(inner, outcome) := handler_check inner tool_name input cwd session_id in
      let h := ParentPermission inner channel in
      match outcome with
      | Some (Prompt message _) =>
          match channel with
          | None => (h, Some (OutcomeDeny (no_channel_text tool_name message)))
          | Some c =>
              if negb (channel_open c) then (h, Some (OutcomeDeny (session_closed_text tool_name)))
              else
                match reply_to c (question session_id message) with
                | Answered AnswerPermit => (h, Some Permit)
                | Answered (AnswerPermitAlways _) =>
                    (ParentPermission (add_allow inner tool_name None) channel, Some Permit)
                | Answered (AnswerDeny reason) => (h, Some (OutcomeDeny reason))
                | Dropped => (h, Some (OutcomeDeny (unanswered_text tool_name)))
                | Silence => (h, None)
                end
          end
      | other => (h, other)
      end
  end.

Definition permission_handler (mailbox : option (str * Decisions)) (parent : option Handler)
    (channel : option Channel) : Handler :=
  match mailbox, parent with
  | Some (label, decisions), _ => PermissionBridge label decisions
  | None, Some p => ParentPermission p channel
  | None, None => AlwaysPermit
  end.

(** *** Specification *)

(** The session's own handler at the end of the chain, and the channel of the
    first delegate. *)
Fixpoint root_of (h : Handler) : option (P * option (option Channel)) :=
  match h with
  | Own p => Some (p, None)
  | ParentPermission inner c =>
      match root_of inner with
      | Some (p, None) => Some (p, Some c)
      | r => r
      end
  | PermissionBridge _ _ | AlwaysPermit => None
  end.

Definition user_permits (c : option Channel) (session_id message : str) : Prop :=
  ∃ c' a, c = Some c' ∧ channel_open c' = true ∧ reply_to c' (question session_id message) = Answered a ∧
    (a = AnswerPermit ∨ ∃ scope, a = AnswerPermitAlways scope).

(** A question put to the user and neither answered nor dropped. *)
Definition unanswered (c : option Channel) (session_id message : str) : Prop :=
  ∃ c', c = Some c' ∧ channel_open c' = true ∧ reply_to c' (question session_id message) = Silence.

(** How a delegate's answer follows from its root's. *)
Definition delegated (p : P) (c : option Channel) (tool_name : str) (input : value) (cwd session_id : str)
    : option PermissionOutcome :=
  match check p tool_name input cwd session_id with
  | Some (Prompt message _) =>
      match c with
      | None => Some (OutcomeDeny (no_channel_text tool_name message))
      | Some c =>
          if negb (channel_open c) then Some (OutcomeDeny (session_closed_text tool_name))
          else
            match reply_to c (question session_id message) with
            | Answered (AnswerDeny reason) => Some (OutcomeDeny reason)
            | Answered _ => Some Permit
            | Dropped => Some (OutcomeDeny (unanswered_text tool_name))
            | Silence => None
            end
      end
  | other => other
  end.

Lemma delegated_never_prompts p c t input cwd sid m ps :
  delegated p c t input cwd sid ≠ Some (Prompt m ps).
Proof. unfold delegated. repeat case_match; congruence. Qed.

Lemma handler_check_root h t input cwd sid p c : root_of h = Some (p, c) →
  (handler_check h t input cwd sid).2 =
    match c with
    | None => check p t input cwd sid
    | Some c => delegated p c t input cwd sid
    end.
Proof.
  revert c. induction h as [q|inner IH channel|l d|]; intros c E; cbn [root_of handler_check] in *;
    [by injection E as -> <-| |done|done].
  destruct (root_of inner) as [[q [ci|]]|] eqn:Er; [| |done].
  - injection E as -> <-. specialize (IH _ eq_refl). destruct (handler_check inner t input cwd sid) as [i o].
    cbn [snd] in IH. destruct o as [[|r|m ps]|]; try exact IH.
    exfalso. by apply (delegated_never_prompts p ci t input cwd sid m ps).
  - injection E as -> <-. specialize (IH _ eq_refl). destruct (handler_check inner t input cwd sid) as [i o].
    cbn [snd] in IH. subst o. unfold delegated. destruct (check p t input cwd sid) as [[|r|m ps]|]; try done.
    destruct channel as [c|]; [|done]. destruct (negb (channel_open c)); [done|].
    by destruct (reply_to c (question sid m)) as [[| |]| |].
Qed.

(** C22. A chain of sub-agents, each asking its parent, however long: a delegate
    is permitted a call just when the session at the root is, or would have
    asked its user and the user, asked in its place, says yes; what the root
    refuses is refused; a delegate puts no question to its own turn; and it
    waits just as long as the root's handler or the user keeps silent. *)
Theorem delegates_answer_to_the_root h t input cwd sid p c : root_of h = Some (p, Some c) →
  let r := (handler_check h t input cwd sid).2 in
  (r = Some Permit ↔ check p t input cwd sid = Some Permit ∨
     ∃ message paths, check p t input cwd sid = Some (Prompt message paths) ∧ user_permits c sid message) ∧
  (∀ reason, check p t input cwd sid = Some (OutcomeDeny reason) → r = Some (OutcomeDeny reason)) ∧
  (∀ m ps, r ≠ Some (Prompt m ps)) ∧
  (r = None ↔ check p t input cwd sid = None ∨
     ∃ message paths, check p t input cwd sid = Some (Prompt message paths) ∧ unanswered c sid message).
Proof.
  intros E r. subst r. rewrite (handler_check_root _ _ _ _ _ _ _ E). split_and!;
    [| |intros m ps; apply delegated_never_prompts|].
  - unfold delegated, user_permits. destruct (check p t input cwd sid) as [[|r|m ps]|]; [naive_solver..| |naive_solver].
    split.
    + intros Hr. right. exists m, ps. split; [done|]. destruct c as [c|]; [|done].
      destruct (channel_open c) eqn:Eo; [|done]. cbn [negb] in Hr.
      destruct (reply_to c (question sid m)) as [[|rs|sc]| |] eqn:Ea; try done; exists c; eauto 10.
    + intros [?|(m' & ps' & [= <- <-] & c' & a & -> & Ho & Ha & Hyes)]; [done|].
      rewrite Ho, Ha. by destruct Hyes as [->|[sc ->]].
  - intros reason Hd. unfold delegated. by rewrite Hd.
  - unfold delegated, unanswered. destruct (check p t input cwd sid) as [[|r|m ps]|]; [naive_solver..| |naive_solver].
    split.
    + intros Hr. right. exists m, ps. split; [done|]. destruct c as [c|]; [|done].
      destruct (channel_open c) eqn:Eo; [|done]. cbn [negb] in Hr. exists c.
      by destruct (reply_to c (question sid m)) as [[|rs|sc]| |] eqn:Ea.
    + intros [?|(m' & ps' & [= <- <-] & c' & -> & Ho & Ha)]; [done|]. by rewrite Ho, Ha.
Qed.

(** A coordinator's bridge never asks further and never waits without limit:
    outside the safe tools only a yes within the two minutes permits. *)
Lemma bridges_decide my_label decisions t input cwd sid :
  let r := (handler_check (PermissionBridge my_label decisions) t input cwd sid).2 in
  r ≠ None ∧ (∀ m ps, r ≠ Some (Prompt m ps)) ∧
  (r = Some Permit ↔ t ∈ safe_tools ∨
     ∃ when, decisions (request_text my_label t) = Some (when, Some true) ∧ (when ≤ bridge_wait)%Z).
Proof.
  cbn [handler_check snd]. unfold bridge_check.
  destruct (bool_decide_reflect (t ∈ safe_tools)) as [Hs|Hs]; [by split_and!; try done; split; [left|]|].
  destruct (decisions (request_text my_label t)) as [[when [[]|]]|]; try case_bool_decide; naive_solver.
Qed.
End Handlers.
Arguments Handler : clear implicits.

(** ** What "always" grants *)

Section Always.
Context {GS : Globset} {HE : HostEnv}.

Lemma strongest_some b bs : b ∈ bs → strongest bs ≠ None.
Proof. intros Hb E. unfold strongest in E. repeat case_decide; try done. by destruct b. Qed.

Lemma decide_rules_hits matches rs r : r ∈ rs → is_Some (matches r) → hit_kind (decide_rules rs matches) ≠ None.
Proof.
  intros Hr Hm. rewrite decide_rules_kind. apply (strongest_some (behavior r)).
  apply list_elem_of_fmap. exists r. split; [done|]. by apply list_elem_of_filter.
Qed.

Lemma matches_tool_name_refl n : matches_tool_name n n = true.
Proof. unfold matches_tool_name. by rewrite decide_True. Qed.

(** A rule for the whole tool has something to say of each of its calls. *)
Lemma whole_tool_rule_hits g tool input ctx r : r ∈ gate_rules g →
  tool_name r = name tool → rule_content r = None → rule_verdict g tool input ctx ≠ None.
Proof.
  intros Hr Ht Hc.
  assert (∀ content, is_Some (rule_matches (name tool) content r)) as Hm.
  { intros content. unfold rule_matches. rewrite Ht, matches_tool_name_refl, Hc. by eexists. }
  unfold rule_verdict, rule_hit. destruct (resolved_path tool input ctx) as [[group path]|].
  - rewrite evaluate_path_kind. cbv zeta.
    assert (∀ p, hit_kind (decide_rules (gate_rules g) (path_rule_matches (name tool) group (cwd ctx) p)) ≠ None)
      as Hp.
    { intros p. apply (decide_rules_hits _ _ r Hr). unfold path_rule_matches.
      rewrite Ht, matches_tool_name_refl, Hc. by eexists. }
    unfold restrict_all. by repeat case_decide.
  - destruct (permission_match_content tool input) as [line|]; [case_decide|]; try (by eapply decide_rules_hits).
    rewrite evaluate_shell_refines. unfold shell_verdict.
    assert (∀ s, seg_kind (gate_rules g) (name tool) s ≠ None) as Hs by (intros s; by eapply decide_rules_hits).
    destruct (simple_commands line) as [|c cs]; [done|]. case_decide as Hd; [done|]. case_decide as Ha; [done|].
    assert (forallb (λ k, bool_decide (k = Some BehaviorAllow)) (seg_kind (gate_rules g) (name tool) <$> c :: cs)
      = true) as ->; [|by rewrite orb_true_r].
    apply forallb_elem_of. intros k Hk. apply bool_decide_eq_true. pose proof Hk as (s & -> & _)%list_elem_of_fmap.
    destruct (seg_kind _ _ s) as [[]|] eqn:E; try done; [exfalso; apply Hd|exfalso; apply Ha|by destruct (Hs s)].
    all: by right.
Qed.

Lemma get_name {T} `{Named T} (r : Registry T) n t : get r n = Some t → name_of t = n.
Proof.
  unfold get. induction (entries r) as [|e es IH]; [done|]. cbn [find_first].
  case_bool_decide; [by intros [= <-]|done].
Qed.

(** What the rules say of a call of a granted tool. *)
Lemma granted_verdict p t tool input ctx : get (tools p) t = Some tool →
  rule_verdict (gate p) tool input ctx ≠ Some BehaviorDeny →
  rule_verdict (gate p) tool input ctx ≠ Some BehaviorAsk →
  rule_verdict (gate (add_persistent_allow p t None)) tool input ctx = Some BehaviorAllow.
Proof.
  intros Ht Hd Ha. pose proof (get_name _ _ _ Ht) as Hn.
  assert (all_allow [allow_rule Session t None]) as Hall by (by repeat constructor).
  destruct (rule_hit_add_allow (gate_rules (gate p)) [allow_rule Session t None] tool input ctx Hall) as [Hd' Ha'].
  assert (rule_verdict (gate (add_persistent_allow p t None)) tool input ctx ≠ None) as Hs.
  { apply (whole_tool_rule_hits _ _ _ _ (allow_rule Session t None)); [|done|done].
    cbn. apply elem_of_app. right. by left. }
  destruct (rule_verdict (gate (add_persistent_allow p t None)) tool input ctx) as [[]|] eqn:E; try done.
  - by destruct Hd; apply Hd'.
  - by destruct Ha; apply Ha'.
Qed.

(** C23. A user who answers a sub-agent's question with "always" has allowed every
    call of that tool, whatever its input, for the rest of the session: from
    then on one is permitted unless a rule denies it or asks, it is invalid,
    the tool refuses it or it touches a protected path, or plan mode forbids
    it. *)
Theorem one_answer_allows_every_call p t tool input cwd sid c m ps scope :
  get (tools p) t = Some tool → perm_check p t input cwd sid = Prompt m ps →
  channel_open c = true → reply_to c (question sid m) = Answered (AnswerPermitAlways scope) →
  ∃ p', (handler_check (ParentPermission (Own p) (Some c)) t input cwd sid).1 =
          ParentPermission (Own p') (Some c) ∧
    ∀ input' cwd' sid', let ctx := context_for p cwd' sid' in
      rule_verdict (gate p) tool input' ctx ≠ Some BehaviorDeny →
      rule_verdict (gate p) tool input' ctx ≠ Some BehaviorAsk →
      (perm_check p' t input' cwd' sid' = Permit ↔
         validate_input tool input' ctx = ValidationOk ∧ self_denies tool input' ctx = false ∧
         touches_immune tool input' ctx = false ∧
         (mode_bound tool input' ctx = true → permission_mode ctx = ModePlan →
            is_read_only tool input' = true)).
Proof.
  intros Ht Hp Ho Hr. exists (add_persistent_allow p t None). split.
  - cbn [handler_check check rule_set_handler]. rewrite Hp. cbn iota beta zeta. rewrite Ho. cbn [negb]. rewrite Hr. done.
  - intros input' cwd' sid' ctx Hd Ha. rewrite permit_iff.
    assert (get (tools (add_persistent_allow p t None)) t = Some tool) as Ht' by done.
    change (context_for (add_persistent_allow p t None) cwd' sid') with ctx.
    pose proof (granted_verdict p t tool input' ctx Ht Hd Ha) as Hv. unfold allow_spec. split.
    + intros (? & E & Hv0 & Hs & _ & Hi & Hm & _). rewrite Ht' in E. injection E as <-.
      split_and!; try done. intros Hb Hpl. by apply Hm.
    + intros (Hv0 & Hs & Hi & Hm). exists tool. split; [done|]. rewrite Hv. split_and!; try done; auto.
Qed.
End Always.

(** ** A member of a team *)

Section Members.
Context {GS : Globset} {HE : HostEnv}.

(** What [build_team_member_agent] makes, with the rules of no one, and what
    building its session binds it to: the session's tools and the mode of its
    settings. *)
Definition member_permission (tools0 session_tools : Registry Tool) (granted_mode settings_mode : PermissionMode)
    : RuleSetPermission :=
  bind_session_state
    (bind_tool_registry (perm_new (gate_new (snd (ruleset_new []))) tools0 granted_mode) session_tools)
    settings_mode.

(** What a worker of a team is given: a handler like a member's for a mode it
    is granted - its own tools first, then those of its team - and otherwise
    the one of any sub-agent. *)
Definition worker_handler (granted : option PermissionMode) (base extra : list Tool)
    (session_tools : Registry Tool) (settings_mode : PermissionMode) (sub : Handler RuleSetPermission)
    : Handler RuleSetPermission :=
  match granted with
  | Some mode =>
      Own (member_permission (run_ops (registry_new 1) (OpRegister <$> base ++ extra)) session_tools mode
             settings_mode)
  | None => sub
  end.

Lemma no_verdicts {A} b (l : list A) : Some b ∉ None :: ((λ _, None : option RuleBehavior) <$> l).
Proof. intros [H|H]%elem_of_cons; [done|]. by apply list_elem_of_fmap in H as (? & ? & _). Qed.

Lemma no_rules_no_verdict tool input ctx :
  rule_verdict (gate_new (snd (ruleset_new []))) tool input ctx = None.
Proof.
  unfold rule_verdict, rule_hit. change (gate_rules (gate_new (snd (ruleset_new [])))) with ([] : RuleSet).
  destruct (resolved_path tool input ctx) as [[group path]|].
  - rewrite evaluate_path_kind. cbv zeta. change (restrict_all None ((λ _, None) <$> aliases path) = None).
    unfold restrict_all. by rewrite !decide_False by apply no_verdicts.
  - destruct (permission_match_content tool input) as [line|]; [case_decide|]; [|done|done].
    rewrite evaluate_shell_refines. unfold shell_verdict. destruct (simple_commands line) as [|c cs]; [done|].
    change (seg_kind [] (name tool) line) with (None : option RuleBehavior).
    rewrite !decide_False by apply (no_verdicts _ (c :: cs)). done.
Qed.

(** A member is judged by the mode of its settings, whatever it was granted,
    and by no rule: what the parent session denies it may do.  In bypass mode
    that is every valid call its tool does not refuse itself and no protected
    path stands in. *)
Theorem members_follow_their_settings tools0 ts granted_mode mode t tool input cwd sid :
  get ts t = Some tool →
  let p := member_permission tools0 ts granted_mode mode in
  let ctx := context_for p cwd sid in
  permission_mode ctx = mode ∧ rule_verdict (gate p) tool input ctx = None ∧
  (mode = ModeBypassPermissions →
     (perm_check p t input cwd sid = Permit ↔
        validate_input tool input ctx = ValidationOk ∧ self_denies tool input ctx = false ∧
        touches_immune tool input ctx = false)).
Proof.
  intros Ht p ctx. assert (rule_verdict (gate p) tool input ctx = None) as Hv by apply no_rules_no_verdict.
  split_and!; [done|done|]. intros ->. rewrite permit_iff. unfold allow_spec. split.
  - intros (? & E & Hval & Hs & _ & Hi & _). change (get ts t = Some x) in E. rewrite Ht in E. by injection E as <-.
  - intros (Hval & Hs & Hi). exists tool. split; [exact Ht|]. fold ctx. rewrite Hv. split_and!; try done.
    right. right. unfold mode_allows. done.
Qed.
End Members.

(** ** Samples *)

Section Samples.
#[local] Existing Instance plain_host.
#[local] Existing Instance no_globset.

Definition both_tools : Registry Tool := run_ops (registry_new 1) [OpRegister write_tool; OpRegister bash_tool].

Definition session (rules : RuleSet) : RuleSetPermission := perm_new (gate_new rules) both_tools ModeDefault.

(** A user who says "always" to one command and nothing to others. *)
Definition always_to_status : Channel :=
  Build_Channel true (λ _, Answered (AnswerPermitAlways ScopeSession)).

Definition delegate (rules : RuleSet) : Handler RuleSetPermission :=
  ParentPermission (ParentPermission (Own (session rules)) (Some always_to_status)) None.

(** One who says nothing at all. *)
Definition nobody : Channel := Build_Channel true (λ _, Silence).

Lemma delegates_answer_to_the_root_witness :
  (handler_check (delegate []) "Bash" (command_input "git status") "/proj" "s1").2 = Some Permit ∧
  (handler_check (ParentPermission (Own (session [])) (Some nobody)) "Bash" (command_input "git status")
     "/proj" "s1").2 = None.
Proof.
  assert (check (session []) "Bash" (command_input "git status") "/proj" "s1" =
    Some (Prompt (lit "Allow Bash?") [])) as Hq by (vm_compute; reflexivity).
  split.
  - destruct (delegates_answer_to_the_root (delegate []) "Bash" (command_input "git status") "/proj" "s1"
      (session []) (Some always_to_status) eq_refl) as (H1 & _).
    apply H1. right. exists (lit "Allow Bash?"), []. split; [exact Hq|].
    exists always_to_status, (AnswerPermitAlways ScopeSession). split_and!; [done..|]. right. by exists ScopeSession.
  - destruct (delegates_answer_to_the_root (ParentPermission (Own (session [])) (Some nobody)) "Bash"
      (command_input "git status") "/proj" "s1" (session []) (Some nobody) eq_refl) as (_ & _ & _ & H4).
    apply H4. right. exists (lit "Allow Bash?"), []. split; [exact Hq|]. by exists nobody.
Defined.

Definition deny_push : PermissionRule := Build_PermissionRule ProjectSettings BehaviorDeny "Bash" (Some (lit "git push:*")).

Lemma one_answer_allows_every_call_witness :
  ∃ p', (handler_check (ParentPermission (Own (session [deny_push])) (Some always_to_status))
           "Bash" (command_input "git status") "/proj" "s1").1 =
          ParentPermission (Own p') (Some always_to_status) ∧
    perm_check p' "Bash" (command_input "rm -rf build") "/proj" "s1" = Permit.
Proof.
  destruct (one_answer_allows_every_call (session [deny_push]) "Bash" bash_tool (command_input "git status")
    "/proj" "s1" always_to_status (lit "Allow Bash?") [] ScopeSession) as (p' & H1 & H2);
    [vm_compute; reflexivity|vm_compute; reflexivity|reflexivity|reflexivity|].
  exists p'. split; [exact H1|]. apply H2; [vm_compute; discriminate..|].
  split_and!; try (vm_compute; reflexivity). intros _ H. vm_compute in H. discriminate H.
Defined.

(** The same session before the answer asks, and a rule still denies after. *)
Example before_the_answer :
  is_prompt (perm_check (session [deny_push]) "Bash" (command_input "rm -rf build") "/proj" "s1") = true ∧
  is_refusal (perm_check (add_persistent_allow (session [deny_push]) "Bash" None) "Bash"
                (command_input "git push") "/proj" "s1") = true.
Proof. split; vm_compute; reflexivity. Qed.

Lemma members_follow_their_settings_witness :
  perm_check (member_permission (registry_new 1) both_tools ModePlan ModeBypassPermissions)
    "Bash" (command_input "git push --force") "/proj" "s1" = Permit.
Proof.
  apply (members_follow_their_settings (registry_new 1) both_tools ModePlan ModeBypassPermissions "Bash" bash_tool
    (command_input "git push --force") "/proj" "s1"); try reflexivity.
  split_and!; vm_compute; reflexivity.
Defined.

(** Granted the default, plan mode, a member in a session that accepts edits
    writes files without asking; granted everything, in one that asks, it has
    nobody to ask. *)
Example grants_are_not_heard :
  perm_check (member_permission (registry_new 1) both_tools ModePlan ModeAcceptEdits)
    "Write" (file_input "/proj/main.rs") "/proj" "s1" = Permit ∧
  is_prompt (perm_check (member_permission (registry_new 1) both_tools ModeBypassPermissions ModeDefault)
    "Bash" (command_input "make") "/proj" "s1") = true.
Proof. split; vm_compute; reflexivity. Qed.
End Samples.
