(* ===== verification/TeamMembers.v ===== *)
(** * Persistent team members ([crates/team/src/registry.rs]; the member pool
      of [crates/runtime/src/agent_tool.rs])

    A member of a team outlives the call that spawned it: a loop of its own
    reads its messages one after another.  Calls find or spawn members under
    a lock and reclaim idle ones first; the loops run beside them.  The module
    states the calls and the steps of the loops as a transition system, and
    what holds in every state it reaches.

    A loop's taking of a message and its marking itself busy are one step, and
    so is a call with its sweep. In the code a member can take a message after
    a sweep has chosen it and before the sweep stops it; what the sweep's
    theorem says of busy members is of those that are busy when it looks.
    The clock is the calls' and steps' own.  Running the agent
    of a member is outside: a turn ends with or without an error. *)

From stdpp Require Import base option numbers strings gmap list sorting relations.
From S2P Require Import Prelude RustStr Lines PermTypes.

(** ** The registry of teams *)

Inductive TeammateLifecycle := Idle | Active | LifecycleCompleted | Shutdown.

Record TeamMemberInfo := {
  label : str;
  lifecycle : TeammateLifecycle;
  idle_since_secs : option Z;
}.

Record TeamInfo := {
  team_id : str;
  team_name : str;
  created_at_secs : Z;
  team_dir : str;
  team_members : list TeamMemberInfo;
  team_permission : option PermissionMode;
}.

Abbreviation TeamRegistry := (gmap str TeamInfo).

Definition upsert (info : TeamInfo) (r : TeamRegistry) : TeamRegistry := <[team_name info := info]> r.

Definition by_team_name (a b : TeamInfo) : Prop := str_order (team_name a) (team_name b).

#[export] Instance by_team_name_dec a b : Decision (by_team_name a b).
Proof. unfold by_team_name. apply _. Defined.

Definition list_teams (r : TeamRegistry) : list TeamInfo := merge_sort by_team_name (map_to_list r).*2.

Definition remove_team (name : str) (r : TeamRegistry) : TeamRegistry * option TeamInfo :=
  (delete name r, r !! name).

(** A team that a member names before any call created it. *)
Definition minimal_team (now : Z) (name : str) (ms : list TeamMemberInfo) (mode : option PermissionMode)
    : TeamInfo := Build_TeamInfo name name now [] ms mode.

(** The first member of that label is updated, or one is added. *)
Fixpoint update_member (ms : list TeamMemberInfo) (m : TeamMemberInfo) : list TeamMemberInfo :=
  match ms with
  | [] => [m]
  | x :: ms => if decide (label x = label m) then m :: ms else x :: update_member ms m
  end.

Definition set_members (t : TeamInfo) (ms : list TeamMemberInfo) : TeamInfo :=
  Build_TeamInfo (team_id t) (team_name t) (created_at_secs t) (team_dir t) ms (team_permission t).

Definition update_member_lifecycle (now : Z) (name lbl : str) (lc : TeammateLifecycle) (since : option Z)
    (r : TeamRegistry) : TeamRegistry :=
  let m := Build_TeamMemberInfo lbl lc since in
  match r !! name with
  | Some t => <[name := set_members t (update_member (team_members t) m)]> r
  | None => <[name := minimal_team now name [m] None]> r
  end.

Definition team_permission_mode (r : TeamRegistry) (name : str) : option PermissionMode :=
  t ← r !! name; team_permission t.

Definition set_team_permission_mode_if_absent (now : Z) (name : str) (mode : PermissionMode) (r : TeamRegistry)
    : TeamRegistry :=
  match r !! name with
  | Some t =>
      match team_permission t with
      | None => <[name := Build_TeamInfo (team_id t) (team_name t) (created_at_secs t) (team_dir t)
                            (team_members t) (Some mode)]> r
      | Some _ => r
      end
  | None => <[name := minimal_team now name [] (Some mode)]> r
  end.

(** ** The pool *)

Abbreviation Key := (str * str)%type.

Record PersistentMessage := {
  message_prompt : str;
  message_task : nat;
}.

(** A member's loop with its ends of the channel, the token and the marks it
    shares with the map. *)
Record Loop := {
  loop_key : Key;
  queue : list PersistentMessage;
  busy : option PersistentMessage;
  cancelled : bool;
  finished : bool;
  idle_since : Z;
  idle_seq : Z;
}.

Inductive RunningStatus := Running | Completed | Failed.

#[export] Instance RunningStatus_eq_dec : EqDecision RunningStatus.
Proof. solve_decision. Defined.

(** [members] is the map of the live members: which loop each name has.
    Tasks and loops are numbered in the order they come. *)
Record Pool := {
  members : gmap Key nat;
  loops : list Loop;
  idle_seq_counter : Z;
  tasks : list RunningStatus;
  team_registry : option TeamRegistry;
}.

Definition empty_pool (teams : option TeamRegistry) : Pool := Build_Pool ∅ [] 0 [] teams.

Definition I64_MAX : Z := 2 ^ 63 - 1.
Definition I64_MIN : Z := - 2 ^ 63.
Definition U64_MAX : Z := 2 ^ 64 - 1.

Definition set_loop (p : Pool) (i : nat) (l : Loop) : Pool :=
  Build_Pool (members p) (<[i := l]> (loops p)) (idle_seq_counter p) (tasks p) (team_registry p).

Definition set_teams (p : Pool) (f : TeamRegistry → TeamRegistry) : Pool :=
  Build_Pool (members p) (loops p) (idle_seq_counter p) (tasks p) (f <$> team_registry p).

Definition set_task (p : Pool) (t : nat) (s : RunningStatus) : Pool :=
  Build_Pool (members p) (loops p) (idle_seq_counter p) (<[t := s]> (tasks p)) (team_registry p).

(** *** Stopping and reclaiming *)

Definition cancel_loop (l : Loop) : Loop :=
  Build_Loop (loop_key l) (queue l) (busy l) true (finished l) (idle_since l) (idle_seq l).

Definition stop_team_member (p : Pool) (k : Key) : Pool :=
  match members p !! k with
  | None => p
  | Some i =>
      Build_Pool (delete k (members p)) (alter cancel_loop i (loops p)) (idle_seq_counter p) (tasks p)
        (team_registry p)
  end.

Record Limits := {
  team_max_persistent_members : nat;
  team_member_idle_timeout_secs : Z;
}.

(** [now.saturating_sub(since) as u64]. *)
Definition idle_for (now since : Z) : Z := (Z.max I64_MIN (Z.min I64_MAX (now - since)) mod 2 ^ 64)%Z.

Record IdleEntry := {
  entry_key : Key;
  entry_since : Z;
  entry_seq : Z;
}.

Definition idle_entry (p : Pool) (protect : option Key) (ki : Key * nat) : option IdleEntry :=
  if bool_decide (protect = Some ki.1) then None
  else
    l ← loops p !! ki.2;
    if bool_decide (idle_since l = I64_MAX) then None
    else Some (Build_IdleEntry ki.1 (idle_since l) (idle_seq l)).

Definition by_seq (a b : IdleEntry) : Prop := (entry_seq a ≤ entry_seq b)%Z.

#[export] Instance by_seq_dec a b : Decision (by_seq a b).
Proof. unfold by_seq. apply _. Defined.

Definition idle_entries (p : Pool) (protect : option Key) : list IdleEntry :=
  merge_sort by_seq (omap (idle_entry p protect) (map_to_list (members p))).

(** The second loop: the oldest go until the pool is small enough, those that
    have gone already counted again. *)
Fixpoint trim_pool (max_total remaining : nat) (es : list IdleEntry) (victims : list Key) : list Key :=
  match es with
  | [] => victims
  | e :: es =>
      if bool_decide (remaining ≤ max_total) then victims
      else trim_pool max_total (remaining - 1) es
             (if bool_decide (entry_key e ∈ victims) then victims else victims ++ [entry_key e])
  end.

Definition reclaim_victims (lim : Limits) (p : Pool) (protect : option Key) (now : Z) : list Key :=
  let es := idle_entries p protect in
  let expired := entry_key <$>
    filter (λ e, (team_member_idle_timeout_secs lim ≤ idle_for now (entry_since e))%Z) es in
  trim_pool (team_max_persistent_members lim `max` 1) (size (members p)) es expired.

Definition reclaim_idle_team_members (lim : Limits) (p : Pool) (protect : option Key) (now : Z) : Pool :=
  foldl stop_team_member p (reclaim_victims lim p protect now).

(** *** A call *)

Definition enqueue (m : PersistentMessage) (l : Loop) : Loop :=
  Build_Loop (loop_key l) (queue l ++ [m]) (busy l) (cancelled l) (finished l) (idle_since l) (idle_seq l).

Definition register_task (p : Pool) : Pool * nat :=
  (Build_Pool (members p) (loops p) (idle_seq_counter p) (tasks p ++ [Running]) (team_registry p),
   length (tasks p)).

(** The loop of the member of that name, if it still receives. *)
Definition receiving (p : Pool) (k : Key) : option nat :=
  i ← members p !! k; l ← loops p !! i; if finished l then None else Some i.

Definition resolve_mode (p : Pool) (k : Key) (requested : option PermissionMode) : PermissionMode :=
  match requested with
  | Some m => m
  | None => default ModePlan (r ← team_registry p; team_permission_mode r k.1)
  end.

(** [built]: whether the member's agent could be built. *)
Definition spawn_member (p : Pool) (k : Key) (m : PersistentMessage) (requested : option PermissionMode)
    (now : Z) (built : bool) : Pool :=
  let p := set_teams p (set_team_permission_mode_if_absent now k.1 (resolve_mode p k requested)) in
  if built
  then
    let l := Build_Loop k [m] None false false I64_MAX U64_MAX in
    Build_Pool (<[k := length (loops p)]> (members p)) (loops p ++ [l]) (idle_seq_counter p) (tasks p)
      (team_registry p)
  else p.

(** The pool afterwards and the task whose output will be the reply. *)
Definition spawn_or_message_team_member (lim : Limits) (p : Pool) (k : Key) (prompt : str)
    (requested : option PermissionMode) (now : Z) (built : bool) : Pool * option nat :=
  let p := reclaim_idle_team_members lim p (Some k) now in
  let '(p, task) := register_task p in
  let m := Build_PersistentMessage prompt task in
  match receiving p k with
  | Some i =>
      (Build_Pool (members p) (alter (enqueue m) i (loops p)) (idle_seq_counter p) (tasks p) (team_registry p),
       Some task)
  | None =>
      let p := Build_Pool (delete k (members p)) (loops p) (idle_seq_counter p) (tasks p) (team_registry p) in
      (spawn_member p k m requested now built, if built then Some task else None)
  end.

(** *** A loop's steps *)

Definition take_message (p : Pool) (i : nat) (l : Loop) (m : PersistentMessage) (rest : list PersistentMessage)
    (now : Z) : Pool :=
  set_teams
    (set_loop p i (Build_Loop (loop_key l) rest (Some m) (cancelled l) (finished l) I64_MAX U64_MAX))
    (update_member_lifecycle now (loop_key l).1 (loop_key l).2 Active None).

Definition finish_turn (p : Pool) (i : nat) (l : Loop) (m : PersistentMessage) (ok : bool) (now : Z) : Pool :=
  let p := set_task p (message_task m) (if ok then Completed else Failed) in
  let p := set_loop p i (Build_Loop (loop_key l) (queue l) None (cancelled l) (finished l) now
             (idle_seq_counter p)) in
  let p := Build_Pool (members p) (loops p) ((idle_seq_counter p + 1) mod 2 ^ 64) (tasks p) (team_registry p) in
  set_teams p (update_member_lifecycle now (loop_key l).1 (loop_key l).2 Idle (Some now)).

Definition exit_loop (p : Pool) (i : nat) (l : Loop) (now : Z) : Pool :=
  set_teams
    (set_loop p i (Build_Loop (loop_key l) [] (busy l) (cancelled l) true (idle_since l) (idle_seq l)))
    (update_member_lifecycle now (loop_key l).1 (loop_key l).2 Shutdown None).

(** What a step does to the messages: which loop got one, and which is done
    with one. *)
Inductive Event := Sent (i : nat) (m : PersistentMessage) | Handled (i : nat) (m : PersistentMessage).

Definition call_events (p : Pool) (k : Key) (prompt : str) (task : option nat) : list Event :=
  match task, members p !! k with
  | Some t, Some i => [Sent i (Build_PersistentMessage prompt t)]
  | _, _ => []
  end.

(** [tokio::select!] picks either branch when both are ready, so a cancelled
    loop may still take a message. *)
Inductive step (lim : Limits) : Pool → list Event → Pool → Prop :=
| StepCall p k prompt requested now built :
    step lim p
      (let '(p', task) := spawn_or_message_team_member lim p k prompt requested now built in
       call_events p' k prompt task)
      (spawn_or_message_team_member lim p k prompt requested now built).1
| StepStop p k : step lim p [] (stop_team_member p k)
| StepTake p i l m rest now :
    loops p !! i = Some l → finished l = false → busy l = None → queue l = m :: rest →
    step lim p [] (take_message p i l m rest now)
| StepFinish p i l m ok now :
    loops p !! i = Some l → busy l = Some m → (I64_MIN ≤ now < I64_MAX)%Z →
    step lim p [Handled i m] (finish_turn p i l m ok now)
| StepExit p i l now :
    loops p !! i = Some l → finished l = false → busy l = None → cancelled l = true →
    step lim p [] (exit_loop p i l now).

Inductive steps (lim : Limits) : Pool → list Event → Pool → Prop :=
| StepsNil p : steps lim p [] p
| StepsSnoc p es q es' q' : steps lim p es q → step lim q es' q' → steps lim p (es ++ es') q'.

(** ** One loop to a name *)

(** The live members are the loops nobody has stopped, one to a name; a busy
    loop is marked as never idle. *)
Record pool_ok (p : Pool) : Prop := {
  ok_members : ∀ k i, members p !! k = Some i →
    ∃ l, loops p !! i = Some l ∧ loop_key l = k ∧ cancelled l = false ∧ finished l = false;
  ok_loops : ∀ i l, loops p !! i = Some l → cancelled l = false → members p !! loop_key l = Some i;
  ok_busy : ∀ i l m, loops p !! i = Some l → busy l = Some m → idle_since l = I64_MAX ∧ finished l = false;
}.

Lemma empty_pool_ok teams : pool_ok (empty_pool teams).
Proof. by split. Qed.

Lemma alter_cases {A} (f : A → A) i (l : list A) j y : alter f i l !! j = Some y →
  (j = i ∧ ∃ x, l !! i = Some x ∧ y = f x) ∨ (j ≠ i ∧ l !! j = Some y).
Proof.
  destruct (decide (j = i)) as [->|Hne].
  - rewrite list_lookup_alter_eq. intros H. left. split; [done|]. destruct (l !! i); [|done]. injection H as <-. eauto.
  - rewrite list_lookup_alter_ne by done. by right.
Qed.

Lemma stop_ok p k : pool_ok p → pool_ok (stop_team_member p k).
Proof.
  intros [Hm Hl Hb]. unfold stop_team_member. destruct (members p !! k) as [i|] eqn:E; [|done]. split.
  - intros k' i' H. cbn [members loops] in *. apply lookup_delete_Some in H as [Hne H].
    destruct (Hm k' i' H) as (l & Hi & Hk & Hc & Hf). exists l. split; [|done].
    rewrite list_lookup_alter_ne; [done|]. intros <-. destruct (Hm k i E) as (l' & Hi' & Hk' & _). congruence.
  - intros j l Hj Hc. cbn [members loops] in *. apply alter_cases in Hj as [[-> (x & _ & ->)]|[Hne Hj]]; [done|].
    rewrite lookup_delete_ne; [by apply Hl|]. intros Hk. apply (Hl j) in Hj; [|done]. congruence.
  - intros j l m Hj Hbusy. cbn [loops] in Hj. apply alter_cases in Hj as [[-> (x & Hx & ->)]|[Hne Hj]].
    + exact (Hb i x m Hx Hbusy).
    + exact (Hb j l m Hj Hbusy).
Qed.

Lemma reclaim_ok lim p protect now : pool_ok p → pool_ok (reclaim_idle_team_members lim p protect now).
Proof.
  unfold reclaim_idle_team_members. generalize (reclaim_victims lim p protect now). intros ks. revert p.
  induction ks as [|k ks IH]; intros p Hp; [done|]. cbn [foldl]. by apply IH, stop_ok.
Qed.

(** What calls and steps leave alone matters to no part of [pool_ok]. *)
Lemma pool_ok_ext p q : members q = members p → loops q = loops p → pool_ok p → pool_ok q.
Proof. intros E1 E2 [Hm Hl Hb]. split; rewrite ?E1, ?E2; done. Qed.

Lemma set_loop_ok p i l l' : pool_ok p → loops p !! i = Some l → loop_key l' = loop_key l →
  cancelled l' = cancelled l → (finished l' = finished l ∨ cancelled l = true) →
  (∀ m, busy l' = Some m → idle_since l' = I64_MAX ∧ finished l' = false) → pool_ok (set_loop p i l').
Proof.
  intros [Hm Hl Hb] Hi Hk Hc Hf Hbusy. split; cbn [set_loop members loops].
  - intros k j H. destruct (Hm k j H) as (x & Hj & Hxk & Hxc & Hxf). destruct (decide (j = i)) as [->|Hne].
    + rewrite Hi in Hj. injection Hj as <-. exists l'. rewrite list_lookup_insert_eq by (by eapply lookup_lt_Some).
      destruct Hf as [Hf|Hf]; [|congruence]. split_and!; congruence.
    + exists x. by rewrite list_lookup_insert_ne.
  - intros j x Hj Hxc. apply list_lookup_insert_Some in Hj as [(<- & <- & _)|[Hne Hj]].
    + rewrite Hk. apply Hl; [done|congruence].
    + by apply Hl.
  - intros j x m Hj Hx. apply list_lookup_insert_Some in Hj as [(<- & <- & _)|[Hne Hj]].
    + exact (Hbusy m Hx).
    + exact (Hb j x m Hj Hx).
Qed.

Lemma alter_insert {A} (f : A → A) i (l : list A) x : l !! i = Some x → alter f i l = <[i := f x]> l.
Proof.
  intros H. apply list_eq. intros j. destruct (decide (j = i)) as [->|Hne].
  - rewrite list_lookup_alter_eq, H, list_lookup_insert_eq; [done|]. by eapply lookup_lt_Some.
  - by rewrite list_lookup_alter_ne, list_lookup_insert_ne.
Qed.

Lemma call_ok lim p k prompt requested now built : pool_ok p →
  pool_ok (spawn_or_message_team_member lim p k prompt requested now built).1.
Proof.
  intros Hp. unfold spawn_or_message_team_member. apply (reclaim_ok lim p (Some k) now) in Hp.
  set (q := reclaim_idle_team_members lim p (Some k) now) in *. cbn [register_task].
  destruct (receiving _ k) as [i|] eqn:Er; cbn [fst].
  - unfold receiving in Er. cbn [members loops] in Er. destruct (members q !! k) as [j|] eqn:Ek; [|done].
    cbn in Er. destruct (loops q !! j) as [l|] eqn:Ej; [|done]. cbn in Er. destruct (finished l) eqn:Ef; [done|].
    injection Er as ->. apply (pool_ok_ext (set_loop q i (enqueue (Build_PersistentMessage prompt (length (tasks q))) l)));
      [done|by cbn; rewrite (alter_insert _ _ _ _ Ej)|].
    apply (set_loop_ok q i l); try done; [by left|]. intros m Hm. by apply (ok_busy q Hp i l m).
  - assert (members q !! k = None) as Hk.
    { destruct (members q !! k) as [j|] eqn:Ek; [|done]. destruct (ok_members q Hp k j Ek) as (l & Hl & _ & _ & Hf).
      unfold receiving in Er. cbn [members loops] in Er. rewrite Ek in Er. cbn in Er. rewrite Hl in Er. cbn in Er.
      by rewrite Hf in Er. }
    unfold spawn_member. cbn [set_teams members loops]. rewrite (delete_id (members q)) by done.
    destruct built; [|by apply (pool_ok_ext q)]. split; cbn [members loops].
    + intros k' i H. apply lookup_insert_Some in H as [[<- <-]|[Hne H]].
      * eexists. rewrite lookup_app_r, Nat.sub_diag by done. done.
      * destruct (ok_members q Hp k' i H) as (l & Hl & ?). exists l. split; [|done]. by apply lookup_app_l_Some.
    + intros i l Hi Hc. apply lookup_app_Some in Hi as [Hi|[Hge Hi]].
      * pose proof (ok_loops q Hp i l Hi Hc) as Hin. rewrite lookup_insert_ne; [done|]. congruence.
      * apply list_lookup_singleton_Some in Hi as [Hz <-]. cbn [loop_key].
        rewrite lookup_insert_eq. f_equal. lia.
    + intros i l m Hi Hbusy. apply lookup_app_Some in Hi as [Hi|[Hge Hi]]; [by apply (ok_busy q Hp i l m)|].
      by apply list_lookup_singleton_Some in Hi as [_ <-].
Qed.

Lemma step_ok lim p es q : step lim p es q → pool_ok p → pool_ok q.
Proof.
  intros Hs Hp.
  destruct Hs as [p k prompt requested now built|p k|p i l m rest now Hi Hf Hb Hq|p i l m ok now Hi Hb Hn
                 |p i l now Hi Hf Hb Hc].
  - by apply call_ok.
  - by apply stop_ok.
  - apply (pool_ok_ext (set_loop p i
      (Build_Loop (loop_key l) rest (Some m) (cancelled l) (finished l) I64_MAX U64_MAX))); try done.
    apply (set_loop_ok p i l); try done. by left.
  - apply (pool_ok_ext (set_loop p i
      (Build_Loop (loop_key l) (queue l) None (cancelled l) (finished l) now (idle_seq_counter p)))); try done.
    apply (set_loop_ok p i l); try done. by left.
  - apply (pool_ok_ext (set_loop p i
      (Build_Loop (loop_key l) [] (busy l) (cancelled l) true (idle_since l) (idle_seq l)))); try done.
    apply (set_loop_ok p i l); try done; [by right|]. cbn [busy]. congruence.
Qed.

Lemma steps_ok lim p es q : pool_ok p → steps lim p es q → pool_ok q.
Proof. intros Hp. induction 1 as [|p es q es' q' _ IH Hs]; [done|]. by eapply step_ok, IH. Qed.

(** From an empty pool on, whatever calls come and however the loops run
    beside them: the map holds exactly the loops that nobody has stopped, so
    no name ever has two of them, and they all still receive; and a busy
    member counts as never idle. *)
Theorem one_loop_to_a_name lim teams es p : steps lim (empty_pool teams) es p →
  (∀ k i, members p !! k = Some i ↔ ∃ l, loops p !! i = Some l ∧ loop_key l = k ∧ cancelled l = false) ∧
  (∀ i j l l', loops p !! i = Some l → loops p !! j = Some l' → loop_key l = loop_key l' →
     cancelled l = false → cancelled l' = false → i = j) ∧
  (∀ i l, loops p !! i = Some l → cancelled l = false →
     finished l = false ∧ ∀ m, busy l = Some m → idle_since l = I64_MAX).
Proof.
  intros Hs. destruct (steps_ok lim _ _ _ (empty_pool_ok teams) Hs) as [Hm Hl Hb]. split_and!.
  - intros k i. split; [intros (l & ? & ? & ? & ?)%Hm; eauto|]. intros (l & Hi & <- & Hc). by apply Hl.
  - intros i j l l' Hi Hj Hk Hc Hc'. apply Hl in Hi, Hj; try done. rewrite Hk in Hi. congruence.
  - intros i l Hi Hc. split; [|intros m Hm'; by apply (Hb i l m)].
    destruct (Hm _ _ (Hl i l Hi Hc)) as (l' & Hi' & _ & _ & Hf).
    congruence.
Qed.

(** ** The messages of a member *)

Definition sent_to (i : nat) (es : list Event) : list PersistentMessage :=
  omap (λ e, match e with Sent j m => if decide (j = i) then Some m else None | Handled _ _ => None end) es.

Definition handled_by (i : nat) (es : list Event) : list PersistentMessage :=
  omap (λ e, match e with Handled j m => if decide (j = i) then Some m else None | Sent _ _ => None end) es.

Lemma sent_to_app i es es' : sent_to i (es ++ es') = sent_to i es ++ sent_to i es'.
Proof. apply omap_app. Qed.

Lemma handled_by_app i es es' : handled_by i (es ++ es') = handled_by i es ++ handled_by i es'.
Proof. apply omap_app. Qed.

(** The same but for being stopped. *)
Definition same_messages (l l' : Loop) : Prop :=
  queue l' = queue l ∧ busy l' = busy l ∧ finished l' = finished l.

Definition only_stopped (p q : Pool) : Prop :=
  length (loops q) = length (loops p) ∧
  ∀ i l', loops q !! i = Some l' → ∃ l, loops p !! i = Some l ∧ same_messages l l'.

Lemma only_stopped_refl p : only_stopped p p.
Proof. split; [done|]. intros i l Hi. by exists l. Qed.

Lemma only_stopped_trans p q r : only_stopped p q → only_stopped q r → only_stopped p r.
Proof.
  intros [E1 H1] [E2 H2]. split; [congruence|]. intros i l (l' & Hl & E)%H2. apply H1 in Hl as (l0 & Hl & E').
  exists l0. split; [done|]. unfold same_messages in *. destruct E as (-> & -> & ->). done.
Qed.

Lemma stop_only_stopped p k : only_stopped p (stop_team_member p k).
Proof.
  unfold stop_team_member. destruct (members p !! k) as [i|]; [|apply only_stopped_refl]. split; cbn [loops].
  - apply length_alter.
  - intros j l' [[-> (x & Hx & ->)]|[Hne Hj]]%alter_cases; [by exists x|by exists l'].
Qed.

Lemma reclaim_only_stopped lim p protect now : only_stopped p (reclaim_idle_team_members lim p protect now).
Proof.
  unfold reclaim_idle_team_members. generalize (reclaim_victims lim p protect now). intros ks. revert p.
  induction ks as [|k ks IH]; intros p; [apply only_stopped_refl|]. cbn [foldl].
  eapply only_stopped_trans; [apply stop_only_stopped|apply IH].
Qed.

(** What is known of the messages after [es]; [lost] are those a loop left
    unread. *)
Record order_ok (es : list Event) (p : Pool) : Prop := {
  order_known : ∀ i l, loops p !! i = Some l → ∃ lost,
    sent_to i es = handled_by i es ++ option_list (busy l) ++ queue l ++ lost ∧ (finished l = false → lost = []);
  order_new : ∀ i, length (loops p) ≤ i → sent_to i es = [] ∧ handled_by i es = [];
}.

Lemma order_ok_stopped es p q : only_stopped p q → order_ok es p → order_ok es q.
Proof.
  intros [E H] [Hk Hn]. split; [|by rewrite E].
  intros i l' (l & Hi & Eq & Eb & Ef)%H. destruct (Hk i l Hi) as (lost & Hs & Hl).
  exists lost. rewrite Eq, Eb, Ef. done.
Qed.

Lemma order_ok_ext es p q : loops q = loops p → order_ok es p → order_ok es q.
Proof. intros E [Hk Hn]. split; rewrite E; done. Qed.

Lemma order_ok_set es es' p i l l' : order_ok es p → loops p !! i = Some l →
  (∀ j, j ≠ i → sent_to j es' = [] ∧ handled_by j es' = []) →
  (∀ lost, sent_to i es = handled_by i es ++ option_list (busy l) ++ queue l ++ lost →
     (finished l = false → lost = []) → ∃ lost',
     sent_to i es ++ sent_to i es' = (handled_by i es ++ handled_by i es') ++ option_list (busy l') ++ queue l' ++ lost' ∧
     (finished l' = false → lost' = [])) →
  order_ok (es ++ es') (set_loop p i l').
Proof.
  intros [Hk Hn] Hi Hother Hself. assert (i < length (loops p)) as Hlt by (by eapply lookup_lt_Some). split.
  - cbn [set_loop loops]. intros j x Hj. rewrite sent_to_app, handled_by_app.
    apply list_lookup_insert_Some in Hj as [(<- & <- & _)|[Hne Hj]].
    + destruct (Hk i l Hi) as (lost & ? & ?). by apply (Hself lost).
    + destruct (Hother j) as [-> ->]; [done|]. rewrite !app_nil_r. by apply Hk.
  - cbn [set_loop loops]. intros j Hj. rewrite length_insert in Hj. rewrite sent_to_app, handled_by_app.
    destruct (Hother j) as [-> ->]; [lia|]. rewrite !app_nil_r. by apply Hn.
Qed.

Lemma call_order lim p k prompt requested now built es : pool_ok p → order_ok es p →
  let '(p', task) := spawn_or_message_team_member lim p k prompt requested now built in
  order_ok (es ++ call_events p' k prompt task) p'.
Proof.
  intros Hp Ho. unfold spawn_or_message_team_member. apply (reclaim_ok lim p (Some k) now) in Hp.
  apply (order_ok_stopped es p _ (reclaim_only_stopped lim p (Some k) now)) in Ho.
  set (q := reclaim_idle_team_members lim p (Some k) now) in *. cbn [register_task].
  destruct (receiving _ k) as [i|] eqn:Er.
  - unfold receiving in Er. cbn [members loops] in Er. destruct (members q !! k) as [j|] eqn:Ek; [|done].
    cbn in Er. destruct (loops q !! j) as [l|] eqn:Ej; [|done]. cbn in Er. destruct (finished l) eqn:Ef; [done|].
    injection Er as ->. unfold call_events. cbn [members loops]. rewrite Ek.
    set (m := Build_PersistentMessage prompt (length (tasks q))).
    apply (order_ok_ext _ (set_loop q i (enqueue m l))); [cbn; by rewrite (alter_insert _ _ _ _ Ej)|].
    apply (order_ok_set es _ q i l); try done.
    + intros j Hne. cbn. rewrite decide_False by done. done.
    + intros lost Hs Hlost. exists []. split; [|done]. rewrite (Hlost Ef), app_nil_r in Hs.
      cbn [sent_to handled_by omap list_omap enqueue queue busy]. rewrite decide_True by done.
      rewrite Hs, !app_nil_r, <-!app_assoc. done.
  - assert (members q !! k = None) as Hk.
    { destruct (members q !! k) as [j|] eqn:Ek; [|done]. destruct (ok_members q Hp k j Ek) as (l & Hl & _ & _ & Hf).
      unfold receiving in Er. cbn [members loops] in Er. rewrite Ek in Er. cbn in Er. rewrite Hl in Er. cbn in Er.
      by rewrite Hf in Er. }
    unfold spawn_member. cbn [set_teams members loops tasks]. destruct built.
    + unfold call_events. cbn [members]. rewrite lookup_insert_eq.
      set (m := Build_PersistentMessage prompt (length (tasks q))). destruct Ho as [Hkn Hnew]. split; cbn [loops].
      * intros i l Hi. rewrite sent_to_app, handled_by_app. cbn [sent_to handled_by omap list_omap].
        apply lookup_app_Some in Hi as [Hi|[Hge Hi]].
        -- rewrite decide_False by (apply lookup_lt_Some in Hi; lia). rewrite !app_nil_r. by apply Hkn.
        -- apply list_lookup_singleton_Some in Hi as [Hz <-]. destruct (Hnew i) as [-> ->]; [done|].
           rewrite decide_True by lia. by exists [].
      * intros i Hi. rewrite length_app in Hi. cbn in Hi. rewrite sent_to_app, handled_by_app.
        destruct (Hnew i) as [-> ->]; [lia|]. cbn [sent_to handled_by omap list_omap]. rewrite decide_False by lia. done.
    + unfold call_events. rewrite app_nil_r. by apply (order_ok_ext _ q).
Qed.

Lemma step_order lim p es' q es : step lim p es' q → pool_ok p → order_ok es p → order_ok (es ++ es') q.
Proof.
  intros Hs Hp Ho.
  destruct Hs as [p k prompt requested now built|p k|p i l m rest now Hi Hf Hb Hq|p i l m ok now Hi Hb Hn
                 |p i l now Hi Hf Hb Hc].
  - pose proof (call_order lim p k prompt requested now built es Hp Ho) as H. by destruct (spawn_or_message_team_member _ _ _ _ _ _ _).
  - rewrite app_nil_r. by eapply order_ok_stopped; [apply stop_only_stopped|].
  - eapply order_ok_ext; [reflexivity|]. cbn [set_teams]. apply (order_ok_ext _ (set_loop p i
      (Build_Loop (loop_key l) rest (Some m) (cancelled l) (finished l) I64_MAX U64_MAX))); [done|].
    apply (order_ok_set es [] p i l); try done. intros lost Hs Hlost. exists lost. split; [|done].
    rewrite Hs, Hb, Hq, !app_nil_r. done.
  - apply (order_ok_ext _ (set_loop p i
      (Build_Loop (loop_key l) (queue l) None (cancelled l) (finished l) now (idle_seq_counter p)))); [done|].
    apply (order_ok_set es _ p i l); try done.
    + intros j Hne. cbn. rewrite decide_False by done. done.
    + intros lost Hs Hlost. exists lost. split; [|done]. cbn [sent_to handled_by omap list_omap busy queue].
      rewrite decide_True by done. rewrite Hs, Hb, app_nil_r, <-!app_assoc. done.
  - apply (order_ok_ext _ (set_loop p i
      (Build_Loop (loop_key l) [] (busy l) (cancelled l) true (idle_since l) (idle_seq l)))); [done|].
    apply (order_ok_set es [] p i l); try done. intros lost Hs Hlost. exists (queue l ++ lost). split; [|done].
    rewrite Hs, !app_nil_r. done.
Qed.

Lemma steps_order lim teams es p : steps lim (empty_pool teams) es p → pool_ok p ∧ order_ok es p.
Proof.
  intros Hs. remember (empty_pool teams) as p0 eqn:E0. induction Hs as [p|p es q es' q' Hs IH Hstep]; subst.
  - split; [apply empty_pool_ok|]. by split.
  - destruct IH as [Hp Ho]; [done|]. split; [by eapply step_ok|by eapply step_order].
Qed.

(** C36. A member handles its messages in the order they were sent, each once: what
    was sent to a loop is what it has handled, what it is busy with and what
    waits, in this order, and after it has ended nothing is out of order
    either, though the last ones may be unread. *)
Theorem messages_in_order lim teams es p i l : steps lim (empty_pool teams) es p → loops p !! i = Some l →
  handled_by i es `prefix_of` sent_to i es ∧
  (finished l = false → sent_to i es = handled_by i es ++ option_list (busy l) ++ queue l).
Proof.
  intros Hs Hi. destruct (steps_order _ _ _ _ Hs) as [_ Ho].
  destruct (order_known _ _ Ho i l Hi) as (lost & E & Hlost). split.
  - rewrite E. by apply prefix_app_r.
  - intros Hf. by rewrite E, (Hlost Hf), app_nil_r.
Qed.

(** ** Reclaiming *)

Lemma stops_members p ks k : members (foldl stop_team_member p ks) !! k = if decide (k ∈ ks) then None else members p !! k.
Proof.
  revert p. induction ks as [|k' ks IH]; intros p; [by rewrite decide_False by (by intros ?%elem_of_nil)|].
  cbn [foldl]. rewrite IH. unfold stop_team_member. destruct (decide (k = k')) as [->|Hne].
  - rewrite (decide_True (P := k' ∈ k' :: ks)) by (by left). case_decide; [done|].
    destruct (members p !! k') eqn:E; cbn [members]; [by rewrite lookup_delete_eq|done].
  - destruct (decide (k ∈ ks)) as [Hin|Hin].
    + by rewrite decide_True by (by right).
    + rewrite decide_False by (intros [?|?]%elem_of_cons; done).
      destruct (members p !! k'); cbn [members]; [by rewrite lookup_delete_ne|done].
Qed.

Lemma idle_entry_inv p protect k i e : idle_entry p protect (k, i) = Some e →
  entry_key e = k ∧ protect ≠ Some k ∧
  ∃ l, loops p !! i = Some l ∧ idle_since l ≠ I64_MAX ∧ entry_since e = idle_since l ∧ entry_seq e = idle_seq l.
Proof.
  unfold idle_entry. cbn [fst snd]. case_bool_decide; [done|]. destruct (loops p !! i) as [l|]; [|done]. cbn.
  case_bool_decide; [done|]. intros [= <-]. cbn [entry_key entry_since entry_seq]. split_and!; [done|done|]. by exists l.
Qed.

(** What may be stopped: an entry for each idle member but the protected one. *)
Definition idle_member (p : Pool) (protect : option Key) (e : IdleEntry) : Prop :=
  protect ≠ Some (entry_key e) ∧ ∃ i l, members p !! entry_key e = Some i ∧ loops p !! i = Some l ∧
    idle_since l ≠ I64_MAX ∧ entry_since e = idle_since l ∧ entry_seq e = idle_seq l.

Lemma idle_entries_spec p protect e : e ∈ idle_entries p protect ↔ idle_member p protect e.
Proof.
  unfold idle_entries. rewrite merge_sort_Permutation, list_elem_of_omap. split.
  - intros ([k i] & Hki%elem_of_map_to_list & He).
    apply idle_entry_inv in He as (<- & Hp & l & Hl & ? & ? & ?). split; [done|]. by exists i, l.
  - intros (Hp & i & l & Hi & Hl & Hidle & Hs & Hq). exists (entry_key e, i).
    split; [by apply elem_of_map_to_list|]. unfold idle_entry. cbn [fst snd].
    rewrite bool_decide_eq_false_2 by done. rewrite Hl. cbn. rewrite bool_decide_eq_false_2 by done.
    rewrite <-Hs, <-Hq. by destruct e.
Qed.

#[local] Instance by_seq_total : Total by_seq.
Proof. intros a b. unfold by_seq. lia. Qed.

Lemma idle_entries_sorted p protect : Sorted by_seq (idle_entries p protect).
Proof. apply Sorted_merge_sort, _. Qed.

Lemma idle_entries_keys p protect : NoDup (entry_key <$> idle_entries p protect).
Proof.
  unfold idle_entries. rewrite (merge_sort_Permutation by_seq (omap _ _)).
  pose proof (NoDup_fst_map_to_list (members p)) as Hn. revert Hn.
  induction (map_to_list (members p)) as [|[k i] ms IH]; [intros _; constructor|].
  cbn [omap list_omap fmap list_fmap fst]. intros [Hk Hn]%NoDup_cons.
  destruct (idle_entry p protect (k, i)) as [e|] eqn:E; [|by apply IH].
  cbn [fmap list_fmap]. apply NoDup_cons. split; [|by apply IH].
  intros (e' & Ee & ([k' i'] & Hin & He')%list_elem_of_omap)%list_elem_of_fmap.
  apply idle_entry_inv in E as (Ek & _). apply idle_entry_inv in He' as (Ek' & _). apply Hk.
  apply list_elem_of_fmap. exists (k', i'). split; [cbn; congruence|done].
Qed.

Lemma trim_pool_spec max_total remaining es victims k :
  k ∈ trim_pool max_total remaining es victims ↔
  k ∈ victims ∨ k ∈ entry_key <$> take (remaining - max_total) es.
Proof.
  revert remaining victims. induction es as [|e es IH]; intros remaining victims; cbn [trim_pool].
  { rewrite take_nil. cbn. rewrite elem_of_nil. tauto. }
  case_bool_decide as Hle.
  { replace (remaining - max_total) with 0 by lia. cbn. rewrite elem_of_nil. tauto. }
  rewrite IH. replace (remaining - max_total) with (S (remaining - 1 - max_total)) by lia.
  cbn [take fmap list_fmap]. rewrite elem_of_cons. case_bool_decide.
  - naive_solver.
  - rewrite elem_of_app, list_elem_of_singleton. tauto.
Qed.

(** Stopping members of a map, each of them live. *)
Lemma size_without (m m' : gmap Key nat) (ks : list Key) :
  (∀ k, m' !! k = if decide (k ∈ ks) then None else m !! k) → NoDup ks → (∀ k, k ∈ ks → is_Some (m !! k)) →
  size m' = size m - length ks.
Proof.
  intros Hm Hn Hin. rewrite <-(size_dom (D := gset Key) m'), <-(size_dom (D := gset Key) m).
  assert (dom m' = dom m ∖ (list_to_set ks : gset Key)) as ->.
  { apply set_eq. intros k. rewrite elem_of_difference, elem_of_list_to_set, !elem_of_dom, Hm.
    case_decide; [|naive_solver]. split; [by intros [? ?]|naive_solver]. }
  rewrite size_difference; [by rewrite size_list_to_set|].
  intros k Hk%elem_of_list_to_set. by apply elem_of_dom, Hin.
Qed.

(** C37. What a sweep before a call does, as one step (a member that takes a
    message between being chosen and being stopped is stopped while busy):
    nothing but stop members, never the one the call is for and never a busy
    one.  Of the others, in the order in
    which they became idle, those go that have been idle for the time limit,
    and, from the one idle longest on, as many as the pool has above its
    maximum - no others; so afterwards there are no more than allowed, or
    none is left to spare. *)
Theorem sweeps_spare_the_busy lim p protect now : pool_ok p →
  let p' := reclaim_idle_team_members lim p protect now in
  let maximum := team_max_persistent_members lim `max` 1 in
  ∃ (idle : list IdleEntry) (gone : list Key),
    NoDup (entry_key <$> idle) ∧ Sorted by_seq idle ∧ (∀ e, e ∈ idle ↔ idle_member p protect e) ∧
    (∀ k, k ∈ gone ↔ k ∈ entry_key <$> take (size (members p) - maximum) idle ∨
       ∃ e, e ∈ idle ∧ entry_key e = k ∧
         (team_member_idle_timeout_secs lim ≤ idle_for now (entry_since e))%Z) ∧
    (∀ k, members p' !! k = if decide (k ∈ gone) then None else members p !! k) ∧
    (∀ k, k ∈ gone → protect ≠ Some k ∧ ∃ i l, members p !! k = Some i ∧ loops p !! i = Some l ∧ busy l = None) ∧
    only_stopped p p' ∧
    (size (members p') ≤ maximum ∨ ∀ e, e ∈ idle → members p' !! entry_key e = None).
Proof.
  intros Hok p' maximum.
  assert (∀ k, members p' !! k = if decide (k ∈ reclaim_victims lim p protect now) then None else members p !! k) as Hm
    by (apply stops_members).
  assert (∀ k, k ∈ reclaim_victims lim p protect now ↔
    k ∈ entry_key <$> take (size (members p) - maximum) (idle_entries p protect) ∨
    ∃ e, e ∈ idle_entries p protect ∧ entry_key e = k ∧
      (team_member_idle_timeout_secs lim ≤ idle_for now (entry_since e))%Z) as Hgone.
  { intros k. unfold reclaim_victims. rewrite trim_pool_spec, list_elem_of_fmap. setoid_rewrite list_elem_of_filter.
    naive_solver. }
  assert (∀ k, k ∈ entry_key <$> take (size (members p) - maximum) (idle_entries p protect) →
    ∃ e, e ∈ idle_entries p protect ∧ entry_key e = k) as Htake.
  { intros k (e & -> & He)%list_elem_of_fmap. exists e. split; [|done].
    apply elem_of_take in He as (j & Hj & _). by eapply list_elem_of_lookup_2. }
  exists (idle_entries p protect), (reclaim_victims lim p protect now).
  split_and!; [apply idle_entries_keys|apply idle_entries_sorted|apply idle_entries_spec|exact Hgone|exact Hm|
    |apply reclaim_only_stopped|].
  - intros k Hk. assert (∃ e, e ∈ idle_entries p protect ∧ entry_key e = k) as (e & He & <-)
      by (apply Hgone in Hk as [Hk|(e & ? & ? & _)]; eauto).
    apply idle_entries_spec in He as (Hp & i & l & Hi & Hl & Hidle & _). split; [done|]. exists i, l.
    split_and!; try done. destruct (busy l) as [m|] eqn:Eb; [|done]. by destruct (ok_busy p Hok i l m Hl Eb) as [? _].
  - destruct (decide (size (members p) - maximum ≤ length (idle_entries p protect))) as [Hlen|Hlen]; [left|right].
    + pose proof (idle_entries_keys p protect) as Hn.
      set (ks := entry_key <$> take (size (members p) - maximum) (idle_entries p protect)) in *.
      assert (NoDup ks) as Hnk by (unfold ks; rewrite fmap_take; eapply sublist_NoDup; [exact Hn|apply sublist_take]).
      assert (length ks = size (members p) - maximum) as Hks
        by (unfold ks; rewrite length_fmap, length_take; lia).
      pose proof (size_without (members p) (filter (λ ki, ki.1 ∉ ks) (members p)) ks) as Hsize.
      assert (size (filter (λ ki, ki.1 ∉ ks) (members p)) = size (members p) - length ks) as Hs.
      { apply Hsize; [|done|].
        - intros k. rewrite map_lookup_filter. destruct (members p !! k); cbn; [|by case_decide].
          case_guard; cbn; case_decide; done.
        - intros k (e & He & <-)%Htake. apply idle_entries_spec in He as (_ & i & l & Hi & _). by eexists. }
      transitivity (size (filter (λ ki, ki.1 ∉ ks) (members p))); [|lia].
      apply map_subseteq_size. apply map_subseteq_spec. intros k i Hk. rewrite Hm in Hk.
      case_decide as Hin; [done|]. apply map_lookup_filter_Some. split; [done|]. cbn. intros Hks'. apply Hin, Hgone.
      by left.
    + intros e He. rewrite Hm, decide_True; [done|]. apply Hgone. left. rewrite take_ge by lia.
      by apply list_elem_of_fmap_2.
Qed.

(** ** One team, one authorization *)

Lemma lifecycle_keeps_mode now name lbl lc since r n :
  team_permission_mode (update_member_lifecycle now name lbl lc since r) n = team_permission_mode r n.
Proof.
  unfold team_permission_mode, update_member_lifecycle. destruct (decide (n = name)) as [->|Hne].
  - destruct (r !! name) as [t|] eqn:E; rewrite lookup_insert_eq, ?E; [done|].
    cbn. done.
  - by destruct (r !! name); rewrite lookup_insert_ne.
Qed.

Lemma grant_keeps_mode now name mode r n m : team_permission_mode r n = Some m →
  team_permission_mode (set_team_permission_mode_if_absent now name mode r) n = Some m.
Proof.
  unfold team_permission_mode, set_team_permission_mode_if_absent. intros H. destruct (decide (n = name)) as [->|Hne].
  - destruct (r !! name) as [t|] eqn:E; [|done]. cbn in H. rewrite H. rewrite E. done.
  - destruct (r !! name) as [t|]; [destruct (team_permission t)|]; rewrite ?lookup_insert_ne; done.
Qed.

Lemma stops_teams p ks : team_registry (foldl stop_team_member p ks) = team_registry p.
Proof.
  revert p. induction ks as [|k ks IH]; intros p; [done|]. cbn [foldl]. rewrite IH.
  unfold stop_team_member. by destruct (members p !! k).
Qed.

(** The mode the first spawn under a team's name settled on stays the team's,
    whatever members are spawned, messaged, reclaimed and stopped later, and
    whatever they ask for. *)
Theorem grants_last lim p es q r n mode : steps lim p es q → team_registry p = Some r →
  team_permission_mode r n = Some mode →
  ∃ r', team_registry q = Some r' ∧ team_permission_mode r' n = Some mode.
Proof.
  intros Hs Hr Hm. induction Hs as [p|p es q es' q' Hs IH Hstep]; [eauto|].
  destruct IH as (r1 & Hr1 & Hm1); [done|]. clear Hs Hr Hm r.
  destruct Hstep as [p1 k prompt requested now built|p1 k|p1 i l m rest now Hi Hf Hb Hq|p1 i l m ok now Hi Hb Hn
                    |p1 i l now Hi Hf Hb Hc].
  - unfold spawn_or_message_team_member. cbn [register_task].
    assert (team_registry (reclaim_idle_team_members lim p1 (Some k) now) = Some r1) as E
      by (unfold reclaim_idle_team_members; by rewrite stops_teams).
    destruct (receiving _ k); cbn [fst]; [cbn [team_registry]; eauto|].
    unfold spawn_member. destruct built; cbn [set_teams team_registry]; rewrite E;
      (eexists; split; [reflexivity|by apply grant_keeps_mode]).
  - exists r1. split; [|done]. by rewrite (stops_teams p1 [k] : team_registry (stop_team_member p1 k) = _).
  - unfold take_message. cbn [set_teams set_loop team_registry]. rewrite Hr1.
    eexists. split; [reflexivity|]. by rewrite lifecycle_keeps_mode.
  - unfold finish_turn. cbn [set_teams set_loop set_task team_registry]. rewrite Hr1.
    eexists. split; [reflexivity|]. by rewrite lifecycle_keeps_mode.
  - unfold exit_loop. cbn [set_teams set_loop team_registry]. rewrite Hr1.
    eexists. split; [reflexivity|]. by rewrite lifecycle_keeps_mode.
Qed.

(** ** Samples *)

Definition sample_limits : Limits := Build_Limits 20 1800.

Definition member_a : Key := (lit "team", lit "a").
Definition member_b : Key := (lit "team", lit "b").

Definition call (p : Pool) (k : Key) (prompt : string) (mode : option PermissionMode) (now : Z) : Pool :=
  (spawn_or_message_team_member sample_limits p k (lit prompt) mode now true).1.

(** One message handled at 100, the next sent at 2000, and at once a call for
    another member. *)
Definition pool_1 : Pool := call (empty_pool (Some ∅)) member_a "one" None 0.
Definition message_0 : PersistentMessage := Build_PersistentMessage (lit "one") 0.
Definition loop_1 : Loop := Build_Loop member_a [message_0] None false false I64_MAX U64_MAX.
Definition pool_2 : Pool := take_message pool_1 0 loop_1 message_0 [] 1.
Definition loop_2 : Loop := Build_Loop member_a [] (Some message_0) false false I64_MAX U64_MAX.
Definition pool_3 : Pool := finish_turn pool_2 0 loop_2 message_0 true 100.
Definition pool_4 : Pool := call pool_3 member_a "two" None 2000.
Definition pool_5 : Pool := call pool_4 member_b "hello" (Some ModeYolo) 2000.
Definition loop_5 : Loop :=
  Build_Loop member_a [Build_PersistentMessage (lit "two") 1] None true false 100 0.
Definition pool_6 : Pool := exit_loop pool_5 0 loop_5 2000.

Lemma call_steps p es q k prompt mode now : steps sample_limits p es q →
  ∃ es', steps sample_limits p (es ++ es') (call q k prompt mode now).
Proof. intros Hs. eexists. eapply StepsSnoc; [exact Hs|]. apply StepCall. Qed.

Lemma pool_5_reached : ∃ es, steps sample_limits (empty_pool (Some ∅)) es pool_5.
Proof.
  destruct (call_steps _ _ _ member_a "one" None 0 (StepsNil sample_limits (empty_pool (Some ∅)))) as [e1 H1].
  assert (step sample_limits pool_1 [] pool_2) as S2 by (by apply StepTake).
  assert (step sample_limits pool_2 [Handled 0 message_0] pool_3) as S3
    by (apply StepFinish; [reflexivity|reflexivity|vm_compute; by split]).
  pose proof (StepsSnoc _ _ _ _ _ _ (StepsSnoc _ _ _ _ _ _ H1 S2) S3) as H3.
  destruct (call_steps _ _ _ member_a "two" None 2000 H3) as [e4 H4].
  destruct (call_steps _ _ _ member_b "hello" (Some ModeYolo) 2000 H4) as [e5 H5]. eexists. exact H5.
Qed.

(** A message to an idle member can be lost: if a call for another member
    sweeps before the loop has taken it, and the loop sees that it was stopped
    first, its task is running forever and nobody works at it. *)
Theorem a_message_can_be_lost :
  ∃ es p, steps sample_limits (empty_pool (Some ∅)) es p ∧ tasks p !! 1 = Some Running ∧
    ∀ i l m, loops p !! i = Some l → busy l = Some m ∨ m ∈ queue l → message_task m ≠ 1.
Proof.
  destruct pool_5_reached as [es H]. exists (es ++ []), pool_6. split_and!.
  - eapply StepsSnoc; [exact H|]. apply StepExit; vm_compute; reflexivity.
  - vm_compute. reflexivity.
  - assert (Forall (λ l, Forall (λ m, message_task m ≠ 1) (option_list (busy l) ++ queue l)) (loops pool_6)) as Hall.
    { assert (forallb (λ l, forallb (λ m, negb (message_task m =? 1)%nat) (option_list (busy l) ++ queue l)) (loops pool_6)
        = true) as E by (vm_compute; reflexivity).
      rewrite forallb_elem_of in E. apply Forall_forall. intros l Hl. specialize (E l Hl).
      rewrite forallb_elem_of in E. apply Forall_forall. intros m Hm. specialize (E m Hm).
      apply negb_true_iff, Nat.eqb_neq in E. done. }
    intros i l m Hl Hm. apply list_elem_of_lookup_2 in Hl. rewrite Forall_forall in Hall. specialize (Hall l Hl).
    rewrite Forall_forall in Hall. apply Hall, elem_of_app.
    destruct Hm as [->|Hm]; [left; by left|by right].
Qed.

Lemma one_loop_to_a_name_witness :
  ∃ es, steps sample_limits (empty_pool (Some ∅)) es pool_5 ∧ (members pool_5 !! member_b = Some 1) ∧
    ¬ ∃ l, loops pool_5 !! 0 = Some l ∧ loop_key l = member_a ∧ cancelled l = false.
Proof.
  destruct pool_5_reached as [es H]. exists es. split; [done|].
  destruct (one_loop_to_a_name _ _ _ _ H) as (Hm & _ & _). split; [vm_compute; reflexivity|].
  intros Hl. apply (Hm member_a 0) in Hl. vm_compute in Hl. discriminate Hl.
Defined.

Lemma messages_in_order_witness : ∃ es, steps sample_limits (empty_pool (Some ∅)) es pool_5 ∧
  sent_to 0 es = handled_by 0 es ++ [Build_PersistentMessage (lit "two") 1].
Proof.
  destruct pool_5_reached as [es H]. exists es. split; [done|].
  destruct (messages_in_order sample_limits (Some ∅) es pool_5 0 loop_5 H) as [_ E]; [vm_compute; reflexivity|].
  rewrite E by reflexivity. reflexivity.
Defined.

Lemma sweeps_spare_the_busy_witness :
  members (reclaim_idle_team_members sample_limits pool_4 (Some member_b) 2000) !! member_a = None.
Proof.
  assert (pool_ok pool_4) as Hok.
  { assert (∃ es, steps sample_limits (empty_pool (Some ∅)) es pool_4) as [es H].
    { destruct (call_steps _ _ _ member_a "one" None 0 (StepsNil sample_limits (empty_pool (Some ∅)))) as [e1 H1].
      assert (step sample_limits pool_1 [] pool_2) as S2 by (by apply StepTake).
      assert (step sample_limits pool_2 [Handled 0 message_0] pool_3) as S3
        by (apply StepFinish; [reflexivity|reflexivity|vm_compute; by split]).
      destruct (call_steps _ _ _ member_a "two" None 2000
        (StepsSnoc _ _ _ _ _ _ (StepsSnoc _ _ _ _ _ _ H1 S2) S3)) as [e4 H4]. eexists. exact H4. }
    by apply (steps_ok _ _ _ _ (empty_pool_ok (Some ∅)) H). }
  destruct (sweeps_spare_the_busy sample_limits pool_4 (Some member_b) 2000 Hok)
    as (idle & gone & _ & _ & Hidle & Hgone & Hm & _).
  assert (member_a ∈ gone) as Ha.
  { apply Hgone. right. exists (Build_IdleEntry member_a 100 0). split_and!; [|done|vm_compute; discriminate].
    apply Hidle. split; [vm_compute; discriminate|]. eexists _, _.
    split_and!; [vm_compute; reflexivity|vm_compute; reflexivity|vm_compute; discriminate|done|done]. }
  rewrite Hm. by rewrite decide_True.
Defined.

Lemma grants_last_witness :
  ∃ r', team_registry pool_5 = Some r' ∧ team_permission_mode r' (lit "team") = Some ModePlan.
Proof.
  pose proof (StepsSnoc _ _ _ _ _ _ (StepsSnoc _ _ _ _ _ _ (StepsNil sample_limits pool_3)
    (StepCall sample_limits pool_3 member_a (lit "two") None 2000 true))
    (StepCall sample_limits pool_4 member_b (lit "hello") (Some ModeYolo) 2000 true)) as H.
  eapply (grants_last sample_limits pool_3 _ pool_5 _ (lit "team") ModePlan H); vm_compute; reflexivity.
Defined.

(** A clock set back: one second before the last turn ended, its member has
    been idle for longer than any limit. *)
Example clock_set_back : idle_for 99 100 = (2 ^ 64 - 1)%Z.
Proof. reflexivity. Qed.

(** A member that cannot be built leaves its task running. *)
Example failed_spawn_leaves_a_task :
  let '(p, task) := spawn_or_message_team_member sample_limits (empty_pool None) member_a (lit "one") None 0 false in
  task = None ∧ tasks p = [Running] ∧ loops p = [].
Proof. vm_compute. done. Qed.

(** What a stopped member was busy with is finished first. *)
Example stopping_waits : busy <$> loops (stop_team_member pool_2 member_a) = [Some message_0].
Proof. reflexivity. Qed.
