(* ===== verification/Spawn.v ===== *)
(** * A call of the Agent tool ([call], [run_sub_tagged], [run_one_turn] and
      what they call, of [crates/runtime/src/agent_tool.rs])

    Where a call goes - to a member of a team, to the background, to a
    sub-agent that is waited for - what a sub-agent is started with, what its
    transcript is framed by, and what the model gets back.  Building the
    sub-agent's engine and running its turn are outside; so are worktrees,
    hooks and events. *)

From stdpp Require Import base option numbers strings pretty gmap list.
From S2P Require Import Prelude RustStr Lines PermTypes Conversation Messages Frontmatter Skills Registry Edit AgentTypes.

#[local] Open Scope result_scope.

Record AgentInput := {
  input_prompt : str;
  input_description : option str;
  subagent_type : option str;
  worktree : option str;
  background : bool;
  input_model : option str;
  auto_background_after_secs : option Z;
  team_name : option str;
  member_name : option str;
  input_permission_mode : option PermissionMode;
}.

Inductive Route :=
| ToMember (team member : str)
| InBackground
| InForeground.

Definition team_disabled_text : str :=
  lit "team_name/name require team coordination to be enabled for this session (settings.execution.team_enabled)".

Definition quoted_word (w : str) : str := [quote] ++ w ++ [quote].

Definition program_only_mode_text : str :=
  lit "permission_mode: " ++ quoted_word (lit "auto") ++ lit " and " ++ quoted_word (lit "bubble") ++
  lit " are not valid here — " ++ quoted_word (lit "auto") ++
  lit " needs a transcript classifier this call site doesn't have, and " ++ quoted_word (lit "bubble") ++
  lit " needs an available lead, which a persistent member's lead (only runs code during its own turns) doesn't reliably have either".

Definition half_named_text : str := lit "team_name and name must both be given together, or neither".

Definition route (team_enabled : bool) (i : AgentInput) : result Route ToolError :=
  match team_name i, member_name i with
  | Some team, Some member =>
      if negb team_enabled then Err (ErrValidation team_disabled_text)
      else
        match input_permission_mode i with
        | Some ModeAuto | Some ModeBubble => Err (ErrValidation program_only_mode_text)
        | _ => Ok (ToMember team member)
        end
  | None, None => Ok (if background i then InBackground else InForeground)
  | _, _ => Err (ErrValidation half_named_text)
  end.

(** ** What a sub-agent is told *)

Definition type_prompt (m : Catalog) (t : option str) : option str :=
  system_prompt <$> agent_type_def m t.

Definition build_prompt (m : Catalog) (i : AgentInput) : str :=
  match type_prompt m (subagent_type i) with
  | Some p => p ++ [newline; newline] ++ lit "Task: " ++ input_prompt i
  | None => input_prompt i
  end.

Definition preload_section (bundled_text : str → str) (env : Env) (mgr : SkillManager) (name : str) : option str :=
  info ← Skills.get mgr name;
  if info_disable_model_invocation info then None
  else
    content ← get_skill_content bundled_text env mgr name;
    Some (lit "## Preloaded skill: " ++ name ++ [newline; newline] ++ content).

Definition preload_skills_text (bundled_text : str → str) (env : Env) (mgr : SkillManager) (names : list str) : str :=
  let sections := omap (preload_section bundled_text env mgr) names in
  if bool_decide (sections = []) then []
  else
    lit "<system-reminder>" ++ [newline] ++
    lit "The following skills were preloaded for this task — apply them without needing to call the Skill tool." ++
    [newline; newline] ++ join ([newline; newline] ++ lit "---" ++ [newline; newline]) sections ++
    [newline] ++ lit "</system-reminder>" ++ [newline; newline].

Definition delegate_prompt (bundled_text : str → str) (env : Env) (mgr : option SkillManager)
    (def : option AgentTypeDefinition) (prompt : str) : str :=
  match def, mgr with
  | Some d, Some m => if bool_decide (type_skills d = []) then prompt else preload_skills_text bundled_text env m (type_skills d) ++ prompt
  | _, _ => prompt
  end.

Definition subagent_label (agent_type : option str) (session_id : str) : str :=
  default (lit "agent") agent_type ++ lit "#" ++ take 8 (filter (λ c, c ≠ ch "-") session_id).

(** ** What it is started with *)

(** What [with_settings] and the other setters have left in the tool. *)
Record AgentTool (R : Type) := {
  tool_config : EngineConfig;
  tool_depth : Z;
  parent_settings : option (Settings R);
  instruction_file : option str;
  agent_types : Catalog;
  parent_scene : option AgentScene;
  scene_registry : option (gmap str AgentScene);
  skill_manager : option SkillManager;
  has_history_store : bool;
  tool_parent_session_id : option str;
}.
Arguments tool_config {R} _.
Arguments tool_depth {R} _.
Arguments parent_settings {R} _.
Arguments instruction_file {R} _.
Arguments agent_types {R} _.
Arguments parent_scene {R} _.
Arguments scene_registry {R} _.
Arguments skill_manager {R} _.
Arguments has_history_store {R} _.
Arguments tool_parent_session_id {R} _.

Record Started (R : Type) := {
  started_depth : Z;
  started_settings : Settings R;
  started_scene : AgentScene;
  started_prompt : str;
  started_parent : option str;
}.
Arguments Build_Started {R} _ _ _ _ _.
Arguments started_depth {R} _.
Arguments started_settings {R} _.
Arguments started_scene {R} _.
Arguments started_prompt {R} _.
Arguments started_parent {R} _.

Section Start.
Context {R : Type} (fallback_rest : str → R) (bundled_text : str → str) (env : Env).

(** The part of [run_sub_tagged] before the engine is built, and the same of
    [run_sub_inner], whose caller is never known. *)
Definition start_delegate (t : AgentTool R) (agent_type : option str) (caller : option str) (cwd prompt : str)
    : result (Started R) ToolError :=
  depth ←? match spawn_guard (tool_config t) (tool_depth t) with Ok n => Ok n | Err e => Err (ErrDenied e) end;
  let def := agent_type_def (agent_types t) agent_type in
  let settings := spawn_settings fallback_rest (tool_config t) (instruction_file t) (parent_settings t) def cwd in
  let scene := scene_for_subagent (scene_registry t) (parent_scene t) def (settings_scope settings) in
  Ok (Build_Started depth settings scene (delegate_prompt bundled_text env (skill_manager t) def prompt)
        (match caller with Some c => Some c | None => tool_parent_session_id t end)).

(** The tool of the sub-agent's own session ([Builder::build]): a level down,
    with its settings and its scene as the parent's.  It merges agent types
    and loads skills of its own, and the host's scenes are not handed on. *)
Definition tool_below (t : AgentTool R) (s : Started R) (types : Catalog) (skills : SkillManager)
    (session_id : str) : AgentTool R := {|
  tool_config := Build_EngineConfig (model_name (settings_model (started_settings s)))
                   (max_tokens (settings_model (started_settings s)))
                   (fallback_model (settings_model (started_settings s))) (max_agent_depth (tool_config t));
  tool_depth := started_depth s;
  parent_settings := Some (started_settings s);
  instruction_file := settings_instruction_file (started_settings s);
  agent_types := types;
  parent_scene := Some (started_scene s);
  scene_registry := None;
  skill_manager := Some skills;
  has_history_store := has_history_store t;
  tool_parent_session_id := Some session_id
|}.

(** A delegation: what the caller asks for and what the sub-agent's session
    finds. *)
Record Delegation := {
  asked_type : option str;
  asked_by : option str;
  asked_cwd : str;
  asked_prompt : str;
  found_types : Catalog;
  found_skills : SkillManager;
  given_id : str;
}.

(** One sub-agent below the other. *)
Fixpoint descend (t : AgentTool R) (ds : list Delegation) : result (AgentTool R) ToolError :=
  match ds with
  | [] => Ok t
  | d :: rest =>
      s ←? start_delegate t (asked_type d) (asked_by d) (asked_cwd d) (asked_prompt d);
      descend (tool_below t s (found_types d) (found_skills d) (given_id d)) rest
  end.

Lemma start_delegate_inv t type by_ cwd prompt s : start_delegate t type by_ cwd prompt = Ok s →
  (tool_depth t < max_agent_depth (tool_config t))%Z ∧ started_depth s = (tool_depth t + 1)%Z ∧
  ∃ scope, started_scene s =
    scene_for_subagent (scene_registry t) (parent_scene t) (agent_type_def (agent_types t) type) scope.
Proof.
  unfold start_delegate, spawn_guard. case_bool_decide; [done|]. cbn [result_bind]. intros [= <-]. cbn.
  split; [lia|split; [done|by eexists]].
Qed.

Lemma start_delegate_ok t type by_ cwd prompt : (tool_depth t < max_agent_depth (tool_config t))%Z →
  ∃ s, start_delegate t type by_ cwd prompt = Ok s.
Proof. intros H. unfold start_delegate, spawn_guard. rewrite bool_decide_eq_false_2 by lia. by eexists. Qed.

Lemma descend_length t ds : (tool_depth t ≤ max_agent_depth (tool_config t))%Z →
  (∃ t', descend t ds = Ok t') ↔ (tool_depth t + Z.of_nat (length ds) ≤ max_agent_depth (tool_config t))%Z.
Proof.
  revert t. induction ds as [|d ds IH]; intros t Hd; cbn [descend length].
  - split; [lia|by eexists].
  - destruct (decide (tool_depth t < max_agent_depth (tool_config t))%Z) as [Hlt|Hge].
    + destruct (start_delegate_ok t (asked_type d) (asked_by d) (asked_cwd d) (asked_prompt d) Hlt) as [s E].
      rewrite E. cbn [result_bind]. apply start_delegate_inv in E as (_ & Hs & _).
      rewrite IH by (cbn; lia). cbn. lia.
    + split; [|lia]. intros [t' H].
      destruct (start_delegate t _ _ _ _) as [s|e] eqn:E; [|done]. by apply start_delegate_inv in E as [? _].
Qed.

Lemma descend_scene t ds t' p : parent_scene t = Some p → descend t ds = Ok t' →
  ∃ s, parent_scene t' = Some s ∧
    (scene_tools p ≠ [] → ∀ name, permits_tool s name = true → permits_tool p name = true).
Proof.
  revert t p. induction ds as [|d ds IH]; intros t p Hp H; cbn [descend] in H; [simplify_eq; by exists p|].
  destruct (start_delegate t _ _ _ _) as [s|e] eqn:E; [|done]. cbn [result_bind] in H.
  apply start_delegate_inv in E as (_ & _ & scope & Es). rewrite Hp in Es.
  eapply (IH _ (started_scene s)) in H as (s' & Hs' & Hn); [|done]. exists s'. split; [done|]. intros Hw name Hs.
  destruct (scene_step (scene_registry t) p (agent_type_def (agent_types t) (asked_type d)) scope Hw) as [Hw' Hp'].
  rewrite <-Es in Hw', Hp'. auto.
Qed.

(** C21. However sub-agents delegate to sub-agents, whatever types, skills and
    prompts each of them finds: a chain of delegations from a root session
    can be as long as the limit and no longer, and no scene on the way
    permits a tool that the root's scene does not, if that is a whitelist or
    restricts nothing, as all built-in scenes are. *)
Theorem descendants_are_bounded t ds root : tool_depth t = 0%Z → (0 ≤ max_agent_depth (tool_config t))%Z →
  parent_scene t = Some root → bounded root →
  ((∃ t', descend t ds = Ok t') ↔ (Z.of_nat (length ds) ≤ max_agent_depth (tool_config t))%Z) ∧
  ∀ t', descend t ds = Ok t' →
  ∃ s, parent_scene t' = Some s ∧ ∀ name, permits_tool s name = true → permits_tool root name = true.
Proof.
  intros Hd Hm Hp Hb. split; [rewrite descend_length by lia; lia|].
  intros t' H. destruct (descend_scene _ _ _ _ Hp H) as (s & Hs & Hn). exists s. split; [done|].
  destruct Hb as [Hw|Hd']; [by apply Hn|]. destruct (decide (scene_tools root = [])) as [Ht|Hw]; [|by apply Hn].
  intros name _. unfold permits_tool. by rewrite Ht, Hd'.
Qed.
End Start.

(** ** How its turn ends *)

Inductive TurnError := ShutdownError | OtherError (text : str).

(** [run_one_turn]: the text of its reply or an error, and whether it was
    cancelled. *)
Definition run_one_turn (outcome : result str TurnError) (text : str) : result str ToolError * bool :=
  (match outcome with
   | Ok _ | Err ShutdownError => Ok text
   | Err (OtherError e) => Err (ErrExecution (lit "sub: " ++ e))
   end,
   match outcome with Ok stop_reason => bool_decide (stop_reason = lit "cancelled") | Err _ => false end).

(** The [Display] of [ToolError]. *)
Definition error_text (e : ToolError) : str :=
  match e with
  | ErrDenied m => lit "denied: " ++ m
  | ErrValidation m => lit "input validation failed: " ++ m
  | ErrExecution m => lit "execution: " ++ m
  | ErrCancelled => lit "cancelled"
  | ErrSchema m => lit "schema: " ++ m
  end.

(** The model's answer: an error of the sub-agent is text of a result that is
    marked as an error. *)
Definition foreground_result (r : result str ToolError) : str * bool :=
  match r with
  | Ok text => (text, false)
  | Err e => (lit "sub-agent error: " ++ error_text e, true)
  end.

Definition bg_result (task_id status : str) : str :=
  lit "background task spawned (task_id: " ++ task_id ++ lit ", status: " ++ status ++ lit ")".

(** ** Its transcript *)

Section Sidechain.
Context (mode_text : PermissionMode → str) (version : str) (schema : Z).

Definition sidechain_meta {R} (s : Started R) (now : Z) (cwd : str) : Entry.LogEntry :=
  Entry.Meta {|
    cwd := cwd; started_at := now; meta_model := model_name (settings_model (started_settings s));
    permission_mode := mode_text (settings_mode (started_settings s)); engine_version := version;
    attacode_version := version; parent_session_id := started_parent s;
    scene := Some (scene_id (started_scene s)); project_root := None; session_kind := Sidechain;
    schema_version := schema
  |}.

(** Nothing without a store, and nothing after a cancelled turn. *)
Definition mark_sidechain_terminal (store : bool) (r : result str ToolError) (cancelled : bool) : list Entry.LogEntry :=
  if negb store || cancelled then []
  else [Entry.SessionEnd (match r with Ok _ => Completed | Err _ => Failed end)].

(** What the tool itself writes to a sub-agent's log. *)
Definition sidechain_log {R} (store : bool) (s : Started R) (now : Z) (cwd : str) (r : result str ToolError)
    (cancelled : bool) : list Entry.LogEntry :=
  (if store then [sidechain_meta s now cwd] else []) ++ mark_sidechain_terminal store r cancelled.

(** Whether a log is closed. *)
Definition has_ended (log : list Entry.LogEntry) : bool :=
  existsb (λ e, match e with Entry.SessionEnd _ => true | _ => false end) log.

(** A sub-agent's log is closed just when its turn ended by itself, well or
    not; one that was cancelled stays open to be resumed. *)
Theorem only_conclusions_close_the_log {R} (s : Started R) now cwd outcome text :
  let '(r, cancelled) := run_one_turn outcome text in
  (has_ended (sidechain_log true s now cwd r cancelled) = true ↔ outcome ≠ Ok (lit "cancelled")) ∧
  has_ended (sidechain_log false s now cwd r cancelled) = false ∧
  (foreground_result r).2 = match outcome with Err (OtherError _) => true | _ => false end.
Proof.
  destruct outcome as [stop|[|e]]; cbn [run_one_turn]; unfold sidechain_log, mark_sidechain_terminal; cbn [negb orb].
  - case_bool_decide as E; (split_and!; [|done|done]).
    + subst stop. split; [discriminate|by intros []].
    + split; [intros _ Ho; by injection Ho|done].
  - by split_and!.
  - by split_and!.
Qed.
End Sidechain.

(** ** A sample *)

Definition sample_env : Env := Build_Env empty_disk ∅.

Definition escaping : AgentTypeDefinition :=
  Build_AgentTypeDefinition (lit "x") LocalFile (lit "X") [] [] None None None None [] [] (Some (lit "coding")) [].

Definition sample_tool : AgentTool unit :=
  Build_AgentTool _ sample_config 0 (Some sample_settings) None {[ lit "x" := escaping ]} (Some ChatScene) None
    (Some SkillManager_new) true None.

Definition to_escape : Delegation :=
  Build_Delegation (Some (lit "x")) None (lit "/p") (lit "Go.") {[ lit "x" := escaping ]} SkillManager_new (lit "s").

Lemma descendants_are_bounded_witness :
  (∃ t, descend (λ _, tt) no_prompt sample_env sample_tool [to_escape; to_escape; to_escape] = Ok t) ∧
  (¬ ∃ t, descend (λ _, tt) no_prompt sample_env sample_tool (replicate 4 to_escape) = Ok t) ∧
  ∀ t s, descend (λ _, tt) no_prompt sample_env sample_tool [to_escape; to_escape] = Ok t → parent_scene t = Some s →
  permits_tool s (lit "Bash") = false.
Proof.
  split_and!.
  - apply (descendants_are_bounded (λ _, tt) no_prompt sample_env sample_tool _ ChatScene); [done..|by left|cbn; lia].
  - intros H. apply (descendants_are_bounded (λ _, tt) no_prompt sample_env sample_tool _ ChatScene) in H;
      [cbn in H; lia|done..|by left].
  - intros t s H Hs. apply not_true_is_false. intros Hp.
    destruct (descendants_are_bounded (λ _, tt) no_prompt sample_env sample_tool [to_escape; to_escape] ChatScene)
      as [_ Hb]; [done..|by left|].
    destruct (Hb t H) as (s' & Hs' & Hn). rewrite Hs' in Hs. injection Hs as ->.
    apply Hn in Hp. vm_compute in Hp. discriminate Hp.
Defined.
