(* ===== verification/LlmClassifier.v ===== *)
(** * The model as a classifier ([crates/permissions/src/llm_classifier.rs])

    In auto mode the gate may ask a model what it thinks of a call.  The
    answers are kept for five minutes by a hash of the tool and its input;
    several calls can be under way at once, and the lock of the cache is not
    held while the model replies.

    The hash and the model are parameters.  An [Instant] is a number of
    nanoseconds; time stands still while the cache is written. *)

From stdpp Require Import base option numbers gmap fin_maps strings list.
From S2P Require Import Prelude RustStr Lines PermTypes Gate Conversation Frontmatter Directives Streaming ModelStream.

Definition CLASSIFIER_SYSTEM_PROMPT : str := join [newline] [
  lit "You are a permission classifier for a coding agent. Classify each tool call as one of:";
  [];
  lit "- ALLOW: safe operation that is reversible, within project scope, and doesn't modify sensitive system files or run destructive commands.";
  lit "- DENY: dangerous or irreversible operation that modifies system files, runs destructive commands (rm -rf, dd, mkfs), or is clearly outside the project scope.";
  lit "- ALLOW_WITH_EDIT: operation that is fundamentally safe but needs modifications (e.g., a bash command that needs `--dry-run`, a path that should be restricted to the project directory).";
  lit "- DEFER: operation that needs user judgment — uncertain, potentially ambiguous with no clear safety profile.";
  [];
  lit "Respond with valid JSON only. Do NOT wrap in markdown fences. Do NOT include any text before or after the JSON object."].

Definition quoted (s : String.string) : str := [quote] ++ lit s ++ [quote].

Definition CLASSIFICATION_PROMPT_TEMPLATE : str := join [newline] [
  lit "Classify this tool call for a coding agent. Should it be:";
  [];
  lit "- ALLOW: safe, reversible, within project scope";
  lit "- DENY: dangerous, irreversible, outside scope";
  lit "- ALLOW_WITH_EDIT: safe with suggested modifications";
  lit "- DEFER: needs user judgment";
  [];
  lit "Tool: {tool_name}";
  lit "Tool description: {tool_description}";
  lit "Input: {tool_input}";
  lit "Working directory: {cwd}";
  lit "Permission mode: Auto";
  [];
  lit "Respond with JSON:";
  lit "{" ++ quoted "decision" ++ lit ": " ++ quoted "..." ++ lit ", " ++ quoted "reason" ++ lit ": " ++
    quoted "..." ++ lit ", " ++ quoted "suggested_edits" ++ lit ": " ++ quoted "..." ++ lit "}";
  [];
  lit "Where decision is one of: ALLOW, DENY, ALLOW_WITH_EDIT, DEFER"].

(** In nanoseconds. *)
Definition CACHE_TTL : Z := 300 * 10 ^ 9.

Definition MAX_CACHE_ENTRIES : nat := 1000.

Record CacheEntry := {
  decision : ClassifyDecision;
  expires_at : Z;
}.

(** The cache in the [Mutex]. *)
#[local] Notation Cache := (gmap str CacheEntry).

Record LlmClassifier := {
  model_name : str;
  cache : Cache;
  enabled : bool;
  session_id : option str;
}.

Definition llm_new (model_name : str) : LlmClassifier :=
  {| model_name := model_name; cache := ∅; enabled := true; session_id := None |}.

Definition for_session (id : str) (c : LlmClassifier) : LlmClassifier :=
  {| model_name := model_name c; cache := cache c; enabled := enabled c; session_id := Some id |}.

Definition set_enabled (b : bool) (c : LlmClassifier) : LlmClassifier :=
  {| model_name := model_name c; cache := cache c; enabled := b; session_id := session_id c |}.

Definition with_cache (f : Cache → Cache) (c : LlmClassifier) : LlmClassifier :=
  {| model_name := model_name c; cache := f (cache c); enabled := enabled c; session_id := session_id c |}.

Definition get_cached (now : Z) (key : str) (m : Cache) : option ClassifyDecision :=
  e ← m !! key; if bool_decide (now < expires_at e)%Z then Some (decision e) else None.

(** At the limit the expired entries go, and all of them if that is not
    enough. *)
Definition evict (now : Z) (m : Cache) : Cache :=
  if bool_decide (MAX_CACHE_ENTRIES ≤ size m) then
    let live := filter (λ ke, (now < expires_at ke.2)%Z) m in
    if bool_decide (MAX_CACHE_ENTRIES ≤ size live) then ∅ else live
  else m.

Definition set_cache (now : Z) (key : str) (d : ClassifyDecision) (m : Cache) : Cache :=
  <[key := {| decision := d; expires_at := now + CACHE_TTL |}]> (evict now m).

(** ** What the model says *)

(** The texts of a reply, to its end or an error. *)
Fixpoint response_text (evs : list (result ModelEvent str)) : str :=
  match evs with
  | Ok (TextDelta t) :: evs => t ++ response_text evs
  | Ok (Streaming.ContentBlockStart _ (Text t)) :: evs => t ++ response_text evs
  | Ok (EndTurn _ _) :: _ => []
  | Ok _ :: evs => response_text evs
  | _ => []
  end.

Definition or_text (reason : str) (s : String.string) : str := if decide (reason = []) then lit s else reason.

Definition text_at (k : str) (v : value) : option str := value_get k v ≫= as_str.

Definition parse_decision (v : value) : ClassifyDecision :=
  let d := default (lit "DEFER") (text_at (lit "decision") v) in
  let reason := default [] (text_at (lit "reason") v) in
  if decide (d = lit "ALLOW") then ClassifyAllow (or_text reason "allowed by LLM classifier")
  else if decide (d = lit "DENY") then ClassifyDeny (or_text reason "denied by LLM classifier")
  else if decide (d = lit "ALLOW_WITH_EDIT") then
    ClassifyAllowWithEdit (or_text reason "allowed with suggested edits") (default [] (text_at (lit "suggested_edits") v))
  else ClassifyDefer.

Record ClassifierRequest := {
  system : str;
  user : str;
  request_model : str;
  max_tokens : nat;
  origin : option str;
}.

Section Classify.
Context {JT : JsonText} (sha256 : str → str) (pretty_json : value → str).

Definition cache_key (tool_name : str) (input : value) : str :=
  sha256 (tool_name ++ lit ":" ++ json_to_string input).

(** From the first brace to the last. *)
Definition extract_json (text : str) : option value :=
  before ← find_sub (lit "{") text;
  upto ← rfind_sub (lit "}") text;
  if bool_decide (length upto ≤ length before) then None
  else json_of_str (drop (length before) (take (S (length upto)) text)).

Definition user_prompt (tool_name tool_description : str) (input : value) (cwd : str) : str :=
  replace (lit "{cwd}") cwd
    (replace (lit "{tool_input}") (pretty_json input)
      (replace (lit "{tool_description}") tool_description
        (replace (lit "{tool_name}") tool_name CLASSIFICATION_PROMPT_TEMPLATE))).

Definition request (c : LlmClassifier) (tool_name tool_description : str) (input : value) (cwd : str)
    : ClassifierRequest :=
  {| system := CLASSIFIER_SYSTEM_PROMPT; user := user_prompt tool_name tool_description input cwd;
     request_model := model_name c; max_tokens := 500; origin := session_id c |}.

(** The decision, and [None] when the call failed; a failed call is not
    remembered. *)
Definition judged (reply : result (list (result ModelEvent str)) str) : option ClassifyDecision :=
  match reply with
  | Err _ => None
  | Ok evs =>
      let text := response_text evs in
      Some (if decide (trim text = []) then ClassifyDefer
            else from_option parse_decision ClassifyDefer (extract_json text))
  end.

(** Up to the call of the model: the answer, if it is known already. *)
Definition looked_up (now : Z) (tool_name : str) (input : value) (c : LlmClassifier) : option ClassifyDecision :=
  if negb (enabled c) then Some ClassifyDefer else get_cached now (cache_key tool_name input) (cache c).

(** From its reply on. *)
Definition concluded (now : Z) (key : str) (reply : result (list (result ModelEvent str)) str) (c : LlmClassifier)
    : LlmClassifier * ClassifyDecision :=
  match judged reply with
  | None => (c, ClassifyDefer)
  | Some d => (with_cache (set_cache now key d) c, d)
  end.

(** [AutoClassifier::classify], undisturbed. *)
Definition llm_classify (ask : ClassifierRequest → result (list (result ModelEvent str)) str) (cwd : str)
    (started replied : Z) (tool_name tool_description : str) (input : value) (c : LlmClassifier)
    : LlmClassifier * ClassifyDecision :=
  match looked_up started tool_name input c with
  | Some d => (c, d)
  | None =>
      concluded replied (cache_key tool_name input) (ask (request c tool_name tool_description input cwd)) c
  end.

(** ** Several calls at once *)

Inductive Event :=
| Called (id : nat) (tool_name : str) (input : value) (now : Z)
| Answered (id : nat) (reply : result (list (result ModelEvent str)) str) (now : Z).

(** The classifier and the keys of the calls that wait for a reply. *)
#[local] Notation State := (LlmClassifier * gmap nat str)%type.

Record Verdict := {
  about : str;
  given : ClassifyDecision;
  at_time : Z;
}.

Definition step (s : State) (e : Event) : State * option Verdict :=
  let '(c, waiting) := s in
  match e with
  | Called id tool_name input now =>
      match looked_up now tool_name input c with
      | Some d => (s, Some (Build_Verdict (cache_key tool_name input) d now))
      | None => ((c, <[id := cache_key tool_name input]> waiting), None)
      end
  | Answered id reply now =>
      match waiting !! id with
      | None => (s, None)
      | Some key =>
          let '(c, d) := concluded now key reply c in
          ((c, delete id waiting), Some (Build_Verdict key d now))
      end
  end.

Definition run (s : State) (evs : list Event) : State := foldl (λ s e, (step s e).1) s evs.

(** What a reply in the middle of a history says about a key. *)
Definition said (s : State) (evs : list Event) (key : str) (d : ClassifyDecision) (now : Z) : Prop :=
  ∃ before id reply after, evs = before ++ Answered id reply now :: after ∧
    (run s before).2 !! id = Some key ∧ judged reply = Some d.
End Classify.

(** ** The cache *)

Lemma evict_lookup now m k e : evict now m !! k = Some e → m !! k = Some e.
Proof.
  unfold evict. case_bool_decide; [|done]. case_bool_decide; [by rewrite lookup_empty|].
  by intros [? _]%map_lookup_filter_Some.
Qed.

Lemma evict_size now m : size (evict now m) ≤ pred MAX_CACHE_ENTRIES.
Proof.
  unfold evict. case_bool_decide; [|unfold MAX_CACHE_ENTRIES in *; lia].
  case_bool_decide; [rewrite map_size_empty|]; unfold MAX_CACHE_ENTRIES in *; lia.
Qed.

Lemma set_cache_size now k d m : size (set_cache now k d m) ≤ MAX_CACHE_ENTRIES.
Proof.
  unfold set_cache. rewrite map_size_insert. pose proof (evict_size now m).
  unfold MAX_CACHE_ENTRIES in *. destruct (evict now m !! k); cbn in *; lia.
Qed.

Lemma set_cache_lookup now k d m k' e : set_cache now k d m !! k' = Some e →
  (k' = k ∧ e = {| decision := d; expires_at := now + CACHE_TTL |}) ∨ m !! k' = Some e.
Proof.
  unfold set_cache. destruct (decide (k' = k)) as [->|Hne].
  - rewrite lookup_insert_eq. intros [= <-]. by left.
  - rewrite lookup_insert_ne by done. intros H%evict_lookup. by right.
Qed.

Section Facts.
Context {JT : JsonText} (sha256 : str → str).

#[local] Notation run := (run sha256).
#[local] Notation step := (step sha256).
#[local] Notation said := (said sha256).

Lemma run_snoc s evs e : run s (evs ++ [e]) = (step (run s evs) e).1.
Proof. unfold LlmClassifier.run. by rewrite foldl_app. Qed.

Lemma said_snoc s evs e key d now : said s evs key d now → said s (evs ++ [e]) key d now.
Proof.
  intros (before & id & reply & after & -> & H). exists before, id, reply, (after ++ [e]). split; [|done].
  by rewrite <-app_assoc.
Qed.

(** What is in the cache was said in a reply to a call of the same key. *)
Lemma cache_was_said s evs : cache s.1 = ∅ → ∀ k e, cache (run s evs).1 !! k = Some e →
  ∃ now, said s evs k (decision e) now ∧ expires_at e = (now + CACHE_TTL)%Z.
Proof.
  intros H0. induction evs as [|ev evs IH] using rev_ind; intros k e; [change (run s []) with s; by rewrite H0, lookup_empty|].
  rewrite run_snoc. destruct (run s evs) as [c waiting] eqn:Er.
  assert (cache c !! k = Some e → ∃ now, said s (evs ++ [ev]) k (decision e) now ∧ expires_at e = (now + CACHE_TTL)%Z)
    as Hold by (intros (now & Hs & He)%IH; eauto using said_snoc).
  destruct ev as [id tool input now|id reply now]; cbn [LlmClassifier.step].
  - by destruct (looked_up _ _ _ _ _).
  - destruct (waiting !! id) as [key|] eqn:Ew; [|done]. unfold concluded.
    destruct (judged reply) as [d|] eqn:Ej; [|done]. cbn. intros [[-> ->]|?]%set_cache_lookup; [|by apply Hold].
    exists now. split; [|done]. exists evs, id, reply, []. by rewrite Er.
Qed.

Lemma cache_stays_small s evs : size (cache s.1) ≤ MAX_CACHE_ENTRIES → size (cache (run s evs).1) ≤ MAX_CACHE_ENTRIES.
Proof.
  intros H0. induction evs as [|ev evs IH] using rev_ind; [done|]. rewrite run_snoc.
  destruct (run s evs) as [c waiting]. destruct ev as [id tool input now|id reply now]; cbn [LlmClassifier.step].
  - by destruct (looked_up _ _ _ _ _).
  - destruct (waiting !! id); [|done]. unfold concluded. destruct (judged reply); [|done]. cbn. apply set_cache_size.
Qed.

(** C17. Whatever calls are under way at once: a verdict other than deferring is
    what the model said in reply to a call of the same key, then or less than
    five minutes before; and the cache never holds more than its limit. *)
Theorem verdicts_are_the_models s evs ev v :
  cache s.1 = ∅ → (step (run s evs) ev).2 = Some v → given v ≠ ClassifyDefer →
  (∃ now, said s (evs ++ [ev]) (about v) (given v) now ∧ (at_time v < now + CACHE_TTL)%Z) ∧
  size (cache (run s (evs ++ [ev])).1) ≤ MAX_CACHE_ENTRIES.
Proof.
  intros H0 Hv Hd. split; [|apply cache_stays_small; rewrite H0, map_size_empty; lia].
  pose proof (cache_was_said s evs H0) as Hc. destruct (run s evs) as [c waiting] eqn:Er.
  destruct ev as [id tool input now|id reply now]; cbn [LlmClassifier.step] in Hv.
  - unfold looked_up, get_cached in Hv. destruct (enabled c); cbn [negb] in Hv; [|by injection Hv as <-].
    destruct (cache c !! cache_key sha256 tool input) as [e|] eqn:Ee; [|done]. cbn [mbind option_bind] in Hv.
    case_bool_decide as Hlive; [|done]. injection Hv as <-. destruct (Hc _ _ Ee) as (t & Hs & He).
    exists t. split; [by apply said_snoc|]. cbn. lia.
  - destruct (waiting !! id) as [key|] eqn:Ew; [|done]. unfold concluded in Hv.
    destruct (judged reply) as [d|] eqn:Ej; injection Hv as <-; [|done]. exists now. split; [|cbn; unfold CACHE_TTL; lia].
    exists evs, id, reply, []. by rewrite Er.
Qed.

(** Alone: a classifier that is switched off, and a call of the model that
    fails, leave the decision to the user and nothing in the cache; an answer
    is given again for as long as it is kept, without asking. *)
Theorem failures_defer ask cwd pretty_json t0 t1 tool desc input c :
  looked_up sha256 t0 tool input c = None →
  (∃ e, ask (request pretty_json c tool desc input cwd) = Err e) →
  llm_classify sha256 pretty_json ask cwd t0 t1 tool desc input c = (c, ClassifyDefer).
Proof. intros Hl [e He]. unfold llm_classify. by rewrite Hl, He. Qed.

Theorem answers_are_kept ask ask' cwd cwd' pretty_json t0 t1 t2 t3 tool desc desc' input c evs :
  enabled c = true → looked_up sha256 t0 tool input c = None →
  ask (request pretty_json c tool desc input cwd) = Ok evs → (t2 < t1 + CACHE_TTL)%Z →
  let '(c', d) := llm_classify sha256 pretty_json ask cwd t0 t1 tool desc input c in
  llm_classify sha256 pretty_json ask' cwd' t2 t3 tool desc' input c' = (c', d).
Proof.
  intros He Hl Ha Ht. unfold llm_classify at 1. rewrite Hl, Ha. unfold concluded. cbn [judged].
  set (d := if decide _ then _ else _). unfold llm_classify, looked_up, get_cached. cbn [with_cache enabled cache].
  rewrite He. cbn [negb]. unfold set_cache at 1. rewrite lookup_insert_eq. cbn [mbind option_bind expires_at decision].
  by rewrite bool_decide_eq_true_2.
Qed.
End Facts.

(** ** Reading the answer *)

Lemma find_char c l r : c ∉ l → find_sub [c] (l ++ c :: r) = Some l.
Proof.
  induction l as [|x l IH]; intros Hc.
  - cbn [app find_sub]. by rewrite (starts_with_app [c] r : starts_with [c] (c :: r) = true).
  - cbn [app find_sub]. destruct (starts_with [c] (x :: l ++ c :: r)) eqn:E.
    + apply starts_with_spec in E as [t [= -> _]]. set_solver.
    + rewrite IH by set_solver. done.
Qed.

Lemma rfind_none c r : c ∉ r → rfind_sub [c] r = None.
Proof.
  induction r as [|x r IH]; [done|]. intros Hc. cbn [rfind_sub]. rewrite IH by set_solver.
  destruct (starts_with [c] (x :: r)) eqn:E; [|done]. apply starts_with_spec in E as [t [= -> _]]. set_solver.
Qed.

Lemma rfind_char c l r : c ∉ r → rfind_sub [c] (l ++ c :: r) = Some l.
Proof.
  intros Hc. induction l as [|x l IH]; cbn [app rfind_sub]; [|by rewrite IH].
  by rewrite rfind_none, (starts_with_app [c] r : starts_with [c] (c :: r) = true).
Qed.

Lemma not_blank c s : c ∈ s → is_whitespace c = false → trim s ≠ [].
Proof.
  intros Hc Hw. assert (c ∈ trim_start s) as Hs.
  { induction s as [|x s IH]; [done|]. unfold trim_start in *. cbn [drop_while].
    destruct (is_whitespace x) eqn:Ex; [|done]. apply elem_of_cons in Hc as [->|Hc]; [congruence|by apply IH]. }
  destruct (trim_end_prefix (trim_start s)) as (l & E & Hl). unfold trim. intros Ht. rewrite Ht in E. cbn in E.
  rewrite <-E, Forall_forall in Hl. rewrite (Hl c Hs) in Hw. done.
Qed.

Section Reading.
Context {JT : JsonText}.

(** Whatever the model says before and after the object it was asked for,
    fences and all, while there is no brace in it. *)
Lemma objects_are_found pre mid post v : ch "{" ∉ pre → ch "}" ∉ post →
  json_of_str (lit "{" ++ mid ++ lit "}") = Some v → extract_json (pre ++ (lit "{" ++ mid ++ lit "}") ++ post) = Some v.
Proof.
  intros Hpre Hpost Hv. unfold extract_json.
  assert (pre ++ (lit "{" ++ mid ++ lit "}") ++ post = pre ++ ch "{" :: mid ++ ch "}" :: post) as E
    by (rewrite <-!app_assoc; done).
  assert (pre ++ ch "{" :: mid ++ ch "}" :: post = (pre ++ ch "{" :: mid) ++ ch "}" :: post) as E'
    by by rewrite <-app_assoc.
  rewrite E. replace (find_sub (lit "{") (pre ++ ch "{" :: mid ++ ch "}" :: post)) with (Some pre)
    by (symmetry; exact (find_char (ch "{") pre _ Hpre)).
  cbn [mbind option_bind]. rewrite E'.
  replace (rfind_sub (lit "}") ((pre ++ ch "{" :: mid) ++ ch "}" :: post)) with (Some (pre ++ ch "{" :: mid))
    by (symmetry; exact (rfind_char (ch "}") _ post Hpost)).
  cbn [mbind option_bind].
  rewrite length_app. cbn [length]. rewrite bool_decide_eq_false_2 by lia. rewrite <-Hv. f_equal.
  replace (S (length pre + S (length mid))) with (length ((pre ++ ch "{" :: mid) ++ [ch "}"]))
    by (rewrite !length_app; cbn; lia).
  change (ch "}" :: post) with ([ch "}"] ++ post). rewrite app_assoc, take_app_length.
  rewrite <-!app_assoc, drop_app_length. done.
Qed.

(** An object the model gives decides by its word; with no word that is known
    the user is asked. *)
Theorem the_word_decides pre mid post v evs : ch "{" ∉ pre → ch "}" ∉ post →
  json_of_str (lit "{" ++ mid ++ lit "}") = Some v →
  response_text evs = pre ++ (lit "{" ++ mid ++ lit "}") ++ post →
  judged (Ok evs) = Some (parse_decision v) ∧
  (parse_decision v ≠ ClassifyDefer ↔
   ∃ w, text_at (lit "decision") v = Some w ∧ w ∈ [lit "ALLOW"; lit "DENY"; lit "ALLOW_WITH_EDIT"]).
Proof.
  intros Hpre Hpost Hv Hr. split.
  - unfold judged. rewrite Hr. rewrite decide_False.
    + by rewrite (objects_are_found _ _ _ v).
    + apply (not_blank (ch "{")); [|done]. rewrite !elem_of_app. right; left; left. left.
  - unfold parse_decision. cbv zeta beta. destruct (text_at (lit "decision") v) as [w|]; cbn [default from_option].
    + transitivity (w ∈ [lit "ALLOW"; lit "DENY"; lit "ALLOW_WITH_EDIT"]); [|naive_solver].
      rewrite !elem_of_cons, elem_of_nil. unfold id.
      repeat case_decide; (split; [intros Hn; try done; tauto|by intuition congruence]).
    + rewrite decide_False, decide_False, decide_False by done. naive_solver.
Qed.
End Reading.

(** ** Samples *)

(** A parser that knows two objects, and no hash at all. *)
Definition allow_text : str := lit "{" ++ lit "decision: ALLOW" ++ lit "}".

#[local] Instance sample_json : JsonText := {|
  json_of_str s := if decide (s = allow_text) then Some (VObject [(lit "decision", VString (lit "ALLOW"))]) else None;
  json_to_string v := match v with VString s => s | _ => lit "{}" end;
|}.

Definition allow_reply : list (result ModelEvent str) := [Ok (TextDelta (lit "Sure: " ++ allow_text ++ lit " - done"))].

Definition sample_classifier : LlmClassifier := llm_new (lit "small").

Definition sample_calls : list Event := [
  Called 0 (lit "Bash") (VString (lit "ls")) 0;
  Called 1 (lit "Bash") (VString (lit "rm")) 1;
  Answered 0 (Ok allow_reply) 5].

Definition sample_key : str := cache_key id (lit "Bash") (VString (lit "ls")).

Lemma verdicts_are_the_models_witness :
  let ev := Called 2 (lit "Bash") (VString (lit "ls")) 9 in
  (step id (run id (sample_classifier, ∅) sample_calls) ev).2 =
    Some (Build_Verdict sample_key (ClassifyAllow (lit "allowed by LLM classifier")) 9) ∧
  ∃ now, said id (sample_classifier, ∅) (sample_calls ++ [ev]) sample_key
           (ClassifyAllow (lit "allowed by LLM classifier")) now.
Proof.
  intros ev. split; [by vm_compute|].
  edestruct (verdicts_are_the_models id (sample_classifier, ∅) sample_calls ev
    (Build_Verdict sample_key (ClassifyAllow (lit "allowed by LLM classifier")) 9)) as [(now & H & _) _];
    [done|by vm_compute|done|]. by exists now.
Defined.

Lemma failures_defer_witness :
  llm_classify id (λ _, []) (λ _, Err (lit "down")) [] 0 1 (lit "Bash") [] VNull sample_classifier =
  (sample_classifier, ClassifyDefer).
Proof. apply failures_defer; [done|by eexists]. Defined.

Lemma answers_are_kept_witness :
  let '(c, d) := llm_classify id (λ _, []) (λ _, Ok allow_reply) [] 0 1 (lit "Bash") [] VNull sample_classifier in
  llm_classify id (λ _, []) (λ _, Err (lit "down")) [] 2 3 (lit "Bash") [] VNull c = (c, d).
Proof. by apply (answers_are_kept id _ _ [] [] (λ _, []) 0 1 2 3 (lit "Bash") [] [] VNull _ allow_reply). Defined.

Lemma the_word_decides_witness :
  judged (Ok allow_reply) = Some (ClassifyAllow (lit "allowed by LLM classifier")).
Proof.
  assert (∀ c (t : str), bool_decide (c ∉ t) = true → c ∉ t) as Hn by (intros c t; apply bool_decide_eq_true).
  edestruct (the_word_decides (lit "Sure: ") (lit "decision: ALLOW") (lit " - done")
    (VObject [(lit "decision", VString (lit "ALLOW"))]) allow_reply) as [H _].
  - apply Hn. by vm_compute.
  - apply Hn. by vm_compute.
  - by vm_compute.
  - by vm_compute.
  - rewrite H. by vm_compute.
Defined.

(** An answer that is cut off by an error counts, if there is an object in
    it. *)
Example a_broken_reply_counts :
  judged (Ok [Ok (TextDelta allow_text); Err (lit "reset")]) = Some (ClassifyAllow (lit "allowed by LLM classifier")).
Proof. by vm_compute. Qed.

(** One that is cut off before is remembered as a deferral, where a call that
    fails is asked again. *)
Example a_broken_reply_is_remembered :
  let '(c, d) := llm_classify id (λ _, []) (λ _, Ok [Err (lit "reset")]) [] 0 1 (lit "Bash") [] VNull sample_classifier in
  d = ClassifyDefer ∧
  looked_up id 2 (lit "Bash") VNull c = Some ClassifyDefer.
Proof. by vm_compute. Qed.

(** A brace in what the model says around its answer, and the answer is not
    read. *)
Example a_brace_hides_the_answer :
  judged (Ok [Ok (TextDelta (lit "for {x}: " ++ allow_text))]) = Some ClassifyDefer.
Proof. by vm_compute. Qed.

(** A tool's description can put its own text in the place of the input. *)
Example a_description_stands_in_for_the_input :
  let p := user_prompt (λ _, lit "rm -rf /") (lit "T") (lit "{cwd}, as {tool_input}") VNull (lit "/w") in
  contains (lit "Tool description: /w, as rm -rf /") p = true.
Proof. by vm_compute. Qed.
